(* ===== verification/_CoqProject ===== *)
-Q . S2P
Prelude.v
Memory.v
Crc.v
Reloc.v
RelocProps.v
SectionChunk.v
Baserel.v
Rebase.v
Thunks.v
MarkLive.v
ICF.v
ICFProps.v
Layout.v
LayoutProps.v
RangeThunks.v
RangeThunksProps.v
SymbolTable.v
SymbolTableProps.v
Exports.v
ExportsProps.v
ObjFile.v
ObjFileProps.v
ComdatProps.v
Imports.v
ImportsProps.v
DelayThunks.v
Delay.v
DelayProps.v
StrTab.v
StrTabProps.v
Image.v
ImageProps.v
ImageTables.v
ImageLoad.v
Tables.v
TablesProps.v
LoadConfig.v
Chpe.v
ChpeProps.v
PseudoReloc.v
PseudoRelocProps.v
Arm64X.v
Arm64XHeaders.v
Arm64XReader.v
Arm64XProps.v
Arm64XView.v
StringRef.v
CommandLine.v
Directives.v
DirectivesProps.v
Options.v
DefFile.v
DefFileProps.v
DefFileRoundtrip.v
ImportLib.v
ImportLibProps.v
Utf8.v
Dispatch.v
Abi.v
