(* ===== verification/Prelude.v ===== *)
(** * A verification development for llvm-ld

    llvm-ld packs LLVM's COFF linker (lld, patched) as a library with a small C
    ABI. This development models, in Rocq, the C ABI and the linker's own core,
    translated function by function from the sources, and proves what makes
    each part correct.

    ** The parts and where they are

    A link runs through these parts, in this order; each has a file with its
    definitions, most a second one with the theorems.

    - [Abi.v], [Dispatch.v], [Utf8.v] (src/llvm_ld.cpp, include/llvm_ld.h,
      lld/Common/DriverDispatcher.cpp): the entry points, as functions of the two
      atomic flags and as threads that interleave at every atomic operation; the
      validation of arguments; the choice of a driver.
    - [SymbolTable.v], [SymbolTableProps.v] (lld/COFF/SymbolTable.cpp, Symbols.h):
      one symbol per name, lazy loading, weak and alternate names, what remains
      undefined. Symbols are references into the table.
    - [ObjFile.v], [ObjFileProps.v], [ComdatProps.v] (lld/COFF/InputFiles.cpp,
      llvm/Object/COFF.h): an object's sections and symbols, COMDAT selection and
      associative sections. It runs on the symbol table of [SymbolTable.v].
    - [MarkLive.v] (MarkLive.cpp): dead-section elimination.
    - [ICF.v], [ICFProps.v] (ICF.cpp): identical code folding.
    - [Layout.v], [LayoutProps.v] (Writer.cpp): output sections, their merging,
      order and addresses.
    - [RangeThunks.v], [RangeThunksProps.v] (Writer.cpp): range extension thunks,
      in a loop over the addresses of [Layout.v].
    - [Thunks.v] (Chunks.cpp, Chunks.h): the code of import and range extension
      thunks, executed by a few modelled instructions.
    - [Reloc.v], [RelocProps.v] (Chunks.cpp): the application of relocations on
      four machines, behind the class [RelocArch]; [SectionChunk.v]: sections
      written and relocated, for any implementation of that class.
    - [Baserel.v], [Rebase.v] (Chunks.cpp, Writer.cpp): base relocations, and the
      loader that reads them; the class [RebasableArch] extends [RelocArch].
    - [Exports.v], [ExportsProps.v] (SymbolTable.cpp, DLL.cpp): names and ordinals
      of exports, the export tables in memory, and the loader that searches them.
    - [Imports.v], [ImportsProps.v] (DLL.cpp, Writer.cpp): the import tables, and
      the loader that binds them. [Delay.v], [DelayProps.v] (DLL.cpp): the tables of
      DLLs that are loaded at the first call, on the chunks of [Imports.v], and the
      lookup of the run-time helper; [DelayThunks.v]: the code that calls it, on
      five machines, executed on x64.
    - [StrTab.v], [StrTabProps.v] (llvm/lib/MC/StringTableBuilder.cpp): string
      tables that share suffixes, and their sorting.
    - [Image.v] (Writer.cpp, llvm/lib/Object/COFFObjectFile.cpp): the file of an
      image, from the output sections of [Layout.v] and a string table to headers,
      section table, symbols, contents and checksum, and the reader of that file;
      [ImageProps.v], [ImageTables.v], [ImageLoad.v]: it read back and loaded.
    - [Tables.v], [TablesProps.v] (Writer.cpp, Chunks.cpp): the tables of call
      targets and exception handlers, and the exception table, with the searches of
      the operating system; [LoadConfig.v] (SymbolTable.cpp, Writer.cpp): the load
      configuration that points to them, and the TLS directory.
    - [Chpe.v], [ChpeProps.v] (Writer.cpp, Chunks.cpp): the code map, code ranges
      and redirections of ARM64EC images, and what the loader reads in them.
    - [Arm64X.v], [Arm64XHeaders.v] (Chunks.cpp, Writer.cpp): the dynamic
      relocations that turn the native view of a hybrid image into the other one;
      [Arm64XReader.v] (COFFObjectFile.cpp) reads and applies them, and
      [Arm64XProps.v], [Arm64XView.v] prove that the two agree.
    - [PseudoReloc.v], [PseudoRelocProps.v] (Chunks.cpp, Writer.cpp): the runtime
      pseudo-relocations of automatic imports and the start-up code that reads them.
    - [Directives.v], [DirectivesProps.v] (Driver.cpp, DriverUtils.cpp): the
      directives in objects, from the tokens of .drectve to exports, roots, entry
      point and options, and the ones LLVM writes (llvm/lib/IR/Mangler.cpp);
      [Options.v] (DriverUtils.cpp, Driver.cpp): the parsers of other options and
      of order files. Both stand on [CommandLine.v] (llvm/lib/Support/CommandLine.cpp,
      Windows/Program.inc), which tokenizes and quotes command lines, and
      [StringRef.v] (llvm/lib/Support/StringRef.cpp): numbers and splitting.
    - [DefFile.v], [DefFileProps.v], [DefFileRoundtrip.v]
      (llvm/lib/Object/COFFModuleDefinition.cpp, SymbolTable.cpp, MinGW.cpp):
      module-definition files, parsed, applied to the exports of [Exports.v], and
      written.
    - [ImportLib.v], [ImportLibProps.v] (llvm/lib/Object/COFFImportFile.cpp,
      Driver.cpp, InputFiles.cpp): the members of an import library, from the
      exports of a DLL, and [ImportFile::parse], which adds their symbols.
    - [Crc.v] (llvm/lib/Support/CRC.cpp): the CRC-32 of the patched build.
    - This file: notations, machine words ([wrap], [sext]), strings, little
      endian bytes, stable sorting, alignment, and the hint database [word];
      [Memory.v]: memory as bytes at addresses, strings in it, writers.

    ** State

    Pointers are ids of an explicit heap where the code mutates through them
    (chunks of [ObjFile.v], [RangeThunks.v] and [ICF.v], symbols), so aliasing is
    modelled; diagnostics are events of a log; fatal errors end a computation
    ([option] or an [outcome]); undefined behaviour, a null pointer or an index
    out of bounds, is an error of its own ([NullDereference], [OutOfBounds]).
    Machine integers are [Z] with the truncations written out.

    ** What is proved

    - The C ABI: at most one link runs at a time and a call that starts in the
      poisoned state is refused; the race the two flags leave open is exhibited; the UTF-8
      validator accepts exactly the encodings of non-zero scalar values.
    - Resolution: whatever the order of files, a name that no weak section symbol
      defines is defined by the first of its strongest definitions; what is asked
      for and offered is loaded, once; undefined symbols that a root or an object
      names do not pass unreported, and nothing else is reported. A section of an object is read at
      most once and an associative section is kept with its parent; COMDAT
      selection of two definitions is symmetric.
    - Garbage collection marks exactly what is reachable; folded sections are
      equal up to folded references (a bisimulation).
    - Layout: chunks and sections do not overlap and stay in the image and the
      file; merging loses nothing. Branches end in range and thunks reach their
      target; the loop terminates.
    - Relocation: the fields read back as the processor does give the value, and
      what cannot be relocated is reported and left alone; base relocations let the
      loader move the image, the pointer to the metadata of a hybrid one included;
      the export tables give the
      loader every export and nothing else; the import tables have it bind the
      slot of every import, and nothing else. A call through the slot of a delayed
      import hands the helper what it needs to find the import and is otherwise
      invisible to caller and function.
    - The image: a reader gets back the headers, sections and symbols as they were,
      a loader finds every chunk at its address with its bytes; the string table
      holds every string and, without priorities and alignment, is as small as sharing
      suffixes allows; the checksum is the RFC 1071 sum. The guard table holds exactly the addresses taken, the
      exception tables of every machine can be searched once sorted, and the load
      configuration is written inside its chunk only when its Size field is not
      relocated. The
      code map lists every code chunk and nothing else; the dynamic relocations read
      back, stay in the file and give exactly the bytes of the second view; automatic
      imports leave memory as direct ones would.
    - What one tool writes another reads: the directives LLVM writes make the linker
      export and keep the symbols they name; the module-definition file written for
      a DLL gives the same exports when it is linked again; the import library
      written for a DLL imports each export under the name and ordinal the DLL has.
      The parser of module-definition files ends on every contents.
    - The sliced CRC equals the bit-serial one.

    ** Fuel

    Recursion that is not structural takes fuel, always a bound of the state: the
    number of symbols for chains of aliases, the number of records for symbol
    tables, the number of sections for worklists and class refinement, ten passes
    and a margin for thunks as the code counts them. That the fuel is enough is
    part of the theorems: those of [RangeThunksProps.v], [ICFProps.v] and
    [MarkLive.v] state that the result is reached, and [def_parse_terminates] and
    the tokenizer's lemmas that the length of the input is enough for the lexers.

    ** Not modelled

    The option table and its parser, the search for files and their queue (Driver.cpp:
    assignments and I/O): what a directive or option has the driver open is an event,
    and the contents of files are arguments. The archive around the members of an
    import library and the three objects that start it, the list of
    names the automatic exports of MinGW leave out, the debug directory and PDB
    (bound to the record formats of LLVM's libraries), map files (text), LTO, and
    LLVM's libraries, which the linker calls: hashes, demanglers and object readers
    are parameters. The order of clusters by density (CallGraphSort.cpp) is floating
    point and left out. *)

From stdpp Require Export base numbers list gmap strings.
From Stdlib Require Export ZArith Lia Permutation Sorted Btauto.
From coqutil Require Export Z.bitblast.

#[global] Open Scope Z_scope.
Set Default Proof Using "Type".

(** ** Notations for machine words *)

Declare Scope word_scope.
Delimit Scope word_scope with word.
Notation "a ^^ b" := (Z.lxor a b) (at level 45, left associativity) : word_scope.
Notation "a &&& b" := (Z.land a b) (at level 40, left associativity) : word_scope.
Notation "a ||| b" := (Z.lor a b) (at level 50, left associativity) : word_scope.
Notation "a >>> b" := (Z.shiftr a b) (at level 38, left associativity) : word_scope.
Notation "a <<< b" := (Z.shiftl a b) (at level 38, left associativity) : word_scope.
#[global] Open Scope word_scope.

Create HintDb word discriminated.

(** Unsigned truncation to a machine width, and the signed reading of the low
    [w] bits. *)
Definition wrap (w z : Z) : Z := z mod 2 ^ w.
Definition sext (w z : Z) : Z :=
  let u := z mod 2 ^ w in if u <? 2 ^ (w - 1) then u else u - 2 ^ w.

Abbreviation u8 := (wrap 8).
Abbreviation u16 := (wrap 16).
Abbreviation u32 := (wrap 32).
Abbreviation u64 := (wrap 64).
Abbreviation s32 := (sext 32).
Abbreviation s64 := (sext 64).

(** ** Bytes *)

Definition byte_ok (b : Z) : Prop := 0 <= b < 2 ^ 8.
Definition word_ok (w z : Z) : Prop := 0 <= z < 2 ^ w.
Abbreviation bytes_ok := (Forall byte_ok).

#[export] Instance byte_ok_dec b : Decision (byte_ok b).
Proof. unfold byte_ok. apply _. Defined.

(** ** Bit-level lemmas *)

Lemma testbit_high w z i : word_ok w z -> 0 <= w <= i -> Z.testbit z i = false.
Proof.
  intros [H0 H1] Hi. destruct (decide (z = 0)) as [->|Hz]; [apply Z.bits_0|].
  apply Z.bits_above_log2; [lia|].
  enough (Z.log2 z < w) by lia. apply Z.log2_lt_pow2; lia.
Qed.

Lemma word_ok_bits w z :
  0 <= w -> 0 <= z -> (forall i, w <= i -> Z.testbit z i = false) -> word_ok w z.
Proof.
  intros Hw Hz Hb. split; [done|].
  destruct (decide (z < 2 ^ w)) as [|Hge]; [done|].
  assert (Hlog : w <= Z.log2 z) by (apply Z.log2_le_pow2; lia).
  specialize (Hb (Z.log2 z) Hlog).
  rewrite Z.bit_log2 in Hb; [done|]. pose proof (Z.pow_pos_nonneg 2 w). lia.
Qed.

Lemma lxor_word_ok w a b : 0 <= w -> word_ok w a -> word_ok w b -> word_ok w (a ^^ b).
Proof.
  intros Hw Ha Hb. pose proof Ha as [? ?]. pose proof Hb as [? ?].
  apply word_ok_bits; [done|apply Z.lxor_nonneg; lia|].
  intros i Hi. rewrite Z.lxor_spec, !(testbit_high w) by (done || lia). done.
Qed.

Lemma shiftr_word_ok w k a : 0 <= k -> word_ok w a -> word_ok w (a >>> k).
Proof.
  intros Hk [H0 H1]. rewrite Z.shiftr_div_pow2 by done.
  pose proof (Z.pow_pos_nonneg 2 k). split; [apply Z.div_pos; lia|].
  apply Z.le_lt_trans with a; [|done]. apply Z.div_le_upper_bound; nia.
Qed.

Lemma land_ones_word_ok w z : 0 <= w -> word_ok w (z &&& Z.ones w).
Proof. intros. rewrite Z.land_ones by done. apply Z.mod_pos_bound. lia. Qed.

(** Fields joined by [|] and a shift. *)
Lemma shl_or_add a b n : 0 <= n -> word_ok n b -> (a <<< n) ||| b = a * 2 ^ n + b.
Proof.
  intros Hn Hb. rewrite <- Z.shiftl_mul_pow2 by done. apply Z.or_to_plus.
  apply Z.bits_inj'. intros i Hi. rewrite Z.land_spec, Z.bits_0.
  destruct (decide (i < n)).
  - by rewrite Z.shiftl_spec_low.
  - by rewrite (testbit_high n b) by (done || lia); rewrite andb_false_r.
Qed.

#[export] Hint Resolve lxor_word_ok shiftr_word_ok land_ones_word_ok : word.

(** Equations between exclusive ors, bit by bit. *)
Ltac lxor_solve :=
  let i := fresh "i" in
  apply Z.bits_inj'; intros i _; rewrite ?Z.lxor_spec, ?Z.bits_0; btauto.

(** ** Strings

    [StringRef] values are Rocq strings; the operations below are the ones the
    sources call, with the library's conventions for absent separators. *)

Definition lower_ascii (c : Ascii.ascii) : Ascii.ascii :=
  let n := Ascii.nat_of_ascii c in
  if (65 <=? n)%nat && (n <=? 90)%nat then Ascii.ascii_of_nat (n + 32) else c.

Fixpoint str_map (f : Ascii.ascii -> Ascii.ascii) (s : string) : string :=
  match s with
  | EmptyString => EmptyString
  | String c s => String (f c) (str_map f s)
  end.

Definition str_lower : string -> string := str_map lower_ascii.
Definition equals_insensitive (a b : string) : bool := String.eqb (str_lower a) (str_lower b).

Definition starts_with (p s : string) : bool := String.prefix p s.

Fixpoint str_drop (n : nat) (s : string) : string :=
  match n, s with
  | O, _ => s
  | S n, String _ s => str_drop n s
  | S _, EmptyString => EmptyString
  end.

Fixpoint str_take (n : nat) (s : string) : string :=
  match n, s with
  | O, _ => EmptyString
  | S n, String c s => String c (str_take n s)
  | S _, EmptyString => EmptyString
  end.

(** The suffix of length [n] of [s] (all of [s] when it is shorter). *)
Definition str_last (n : nat) (s : string) : string := str_drop (String.length s - n) s.

(** [consume_back_insensitive]: the string without the suffix, when it is one. *)
Definition drop_suffix_insensitive (suf s : string) : string :=
  if (String.length suf <=? String.length s)%nat &&
     equals_insensitive (str_last (String.length suf) s) suf
  then str_take (String.length s - String.length suf) s else s.

(** [StringRef::split(v, sep)] keeping empty pieces: always at least one. *)
Fixpoint str_split (sep : Ascii.ascii) (s : string) : list string :=
  match s with
  | EmptyString => [EmptyString]
  | String c s =>
      if Ascii.eqb c sep then EmptyString :: str_split sep s
      else match str_split sep s with
           | p :: ps => String c p :: ps
           | [] => [String c EmptyString]
           end
  end.

(** The bytes of a length-delimited argument as a string. *)
Definition string_of_bytes (bs : list Z) : string :=
  fold_right (fun b s => String (Ascii.ascii_of_nat (Z.to_nat b)) s) EmptyString bs.

(** [s.c_str()] as a reader of C strings sees it: up to the first NUL. *)
Fixpoint c_string (s : string) : string :=
  match s with
  | EmptyString => EmptyString
  | String c s => if Ascii.eqb c Ascii.zero then EmptyString else String c (c_string s)
  end.

(** ** Truncation and sign extension *)

Lemma wrap_ok w z : 0 <= w -> word_ok w (wrap w z).
Proof. intros. apply Z.mod_pos_bound. lia. Qed.

Lemma wrap_small w z : word_ok w z -> wrap w z = z.
Proof. apply Z.mod_small. Qed.

Lemma wrap_wrap_le w w' z : 0 <= w <= w' -> wrap w (wrap w' z) = wrap w z.
Proof.
  intros H. unfold wrap. replace w' with (w + (w' - w)) by lia.
  rewrite Z.pow_add_r by lia. rewrite Z.rem_mul_r by lia.
  rewrite (Z.mul_comm (2 ^ w)), Z.mod_add by lia. apply Z.mod_mod. lia.
Qed.

Lemma wrap_eq w a b : 0 <= w -> (exists k, a = b + k * 2 ^ w) -> wrap w a = wrap w b.
Proof. intros Hw [k ->]. unfold wrap. apply Z.mod_add. lia. Qed.

Lemma wrap_split w z : 0 <= w -> exists k, wrap w z = z + k * 2 ^ w.
Proof.
  intros Hw. exists (- (z / 2 ^ w)). unfold wrap. rewrite Z.mod_eq by lia. lia.
Qed.

Lemma sext_split w z : 0 <= w -> exists k, sext w z = z + k * 2 ^ w.
Proof.
  intros Hw. destruct (wrap_split w z Hw) as [k Hk]. unfold sext, wrap in *.
  case_match; [by exists k|]. exists (k - 1). lia.
Qed.

Lemma wrap_sext w z : 0 <= w -> wrap w (sext w z) = wrap w z.
Proof. intros Hw. apply wrap_eq; [done|]. by apply sext_split. Qed.

(** Truncation absorbs the truncations and extensions below it. *)
Lemma wrap_add_wrap_l w a b : 0 <= w -> wrap w (wrap w a + b) = wrap w (a + b).
Proof.
  intros Hw. destruct (wrap_split w a Hw) as [k ->]. apply wrap_eq; [done|].
  exists k. lia.
Qed.

Lemma wrap_add_sext_r w a b : 0 <= w -> wrap w (a + sext w b) = wrap w (a + b).
Proof.
  intros Hw. destruct (sext_split w b Hw) as [k ->]. apply wrap_eq; [done|].
  exists k. lia.
Qed.

Lemma wrap_add_wrap_r w a b : 0 <= w -> wrap w (a + wrap w b) = wrap w (a + b).
Proof. intros Hw. rewrite !(Z.add_comm a). by apply wrap_add_wrap_l. Qed.

Lemma wrap_add_congr w a b c : 0 <= w -> wrap w a = wrap w b -> wrap w (a + c) = wrap w (b + c).
Proof.
  intros Hw H. rewrite <- (wrap_add_wrap_l w a), <- (wrap_add_wrap_l w b) by done. by rewrite H.
Qed.

Lemma sext_range w z : 0 < w -> - 2 ^ (w - 1) <= sext w z < 2 ^ (w - 1).
Proof.
  intros Hw. unfold sext.
  assert (2 ^ w = 2 * 2 ^ (w - 1)) by (rewrite <- Z.pow_succ_r by lia; f_equal; lia).
  pose proof (Z.mod_pos_bound z (2 ^ w) ltac:(lia)).
  case_match; rewrite ?Z.ltb_lt, ?Z.ltb_ge in *; lia.
Qed.

(** A signed value in range is recovered from any word that agrees with it. *)
Lemma sext_unique w z v :
  0 < w -> - 2 ^ (w - 1) <= v < 2 ^ (w - 1) -> wrap w z = wrap w v -> sext w z = v.
Proof.
  intros Hw Hv Heq. pose proof (sext_range w z Hw) as Hr.
  rewrite <- (wrap_sext w z) in Heq by lia.
  assert (2 ^ w = 2 * 2 ^ (w - 1)) by (rewrite <- Z.pow_succ_r by lia; f_equal; lia).
  destruct (wrap_split w (sext w z) ltac:(lia)) as [k1 E1].
  destruct (wrap_split w v ltac:(lia)) as [k2 E2].
  assert (E : sext w z - v = (k2 - k1) * 2 ^ w) by lia.
  assert (k2 - k1 = 0) by nia. lia.
Qed.

Lemma testbit_wrap w z i :
  0 <= w -> 0 <= i -> Z.testbit (wrap w z) i = (i <? w) && Z.testbit z i.
Proof.
  intros Hw Hi. unfold wrap. destruct (Z.ltb_spec i w).
  - by rewrite Z.mod_pow2_bits_low.
  - by rewrite Z.mod_pow2_bits_high.
Qed.

Lemma wrap_bits w a b :
  0 <= w -> (forall i, 0 <= i < w -> Z.testbit a i = Z.testbit b i) -> wrap w a = wrap w b.
Proof.
  intros Hw H. apply Z.bits_inj'. intros i Hi. rewrite !testbit_wrap by done.
  destruct (Z.ltb_spec i w); [by rewrite H|done].
Qed.

Lemma testbit_sext w z i : 0 <= i < w -> Z.testbit (sext w z) i = Z.testbit z i.
Proof.
  intros Hi. assert (E : wrap w (sext w z) = wrap w z) by (apply wrap_sext; lia).
  apply (f_equal (fun x => Z.testbit x i)) in E. rewrite !testbit_wrap in E by lia.
  by rewrite (proj2 (Z.ltb_lt i w)) in E by lia.
Qed.

(** The sign of a value in range is its top bit. *)
Lemma sign_bit n v :
  0 <= n -> - 2 ^ n <= v < 2 ^ n -> (if v <? 0 then 1 else 0) = Z.b2z (Z.testbit v n).
Proof.
  intros Hn Hv. pose proof (Z.testbit_spec' v n Hn) as E. rewrite E.
  destruct (Z.ltb_spec v 0).
  - replace (v / 2 ^ n) with (-1); [done|]. apply Z.div_unique with (v + 2 ^ n); lia.
  - by rewrite Z.div_small by lia.
Qed.

Lemma b2z_bit_high b i : 0 < i -> Z.testbit (Z.b2z b) i = false.
Proof. intros Hi. apply (testbit_high 1); [|lia]. by destruct b. Qed.

(** Bits at a known position: constants are evaluated and the operators are
    pushed down to the atoms. *)
Ltac ground_pos p :=
  match p with xH => idtac | xO ?q => ground_pos q | xI ?q => ground_pos q end.
Ltac ground_Z c :=
  match c with Z0 => idtac | Zpos ?p => ground_pos p | Zneg ?p => ground_pos p end.
Ltac compute_in_goal t := let c := eval vm_compute in t in change t with c.

Ltac eval_bits :=
  repeat match goal with
  | |- context [Z.testbit (Z.lor ?a ?b) ?i] => rewrite (Z.lor_spec a b i)
  | |- context [Z.testbit (Z.land ?a ?b) ?i] => rewrite (Z.land_spec a b i)
  | |- context [Z.testbit (Z.lxor ?a ?b) ?i] => rewrite (Z.lxor_spec a b i)
  | |- context [Z.testbit (Z.lnot ?a) ?i] => rewrite (Z.lnot_spec a i) by lia
  | |- context [Z.testbit (Z.shiftr ?a ?n) ?i] =>
      rewrite (Z.shiftr_spec a n i) by lia; compute_in_goal (i + n)
  | |- context [Z.testbit (Z.shiftl ?a ?n) ?i] =>
      rewrite (Z.shiftl_spec a n i) by lia; compute_in_goal (i - n)
  | |- context [Z.testbit (wrap ?w ?a) ?i] =>
      rewrite (testbit_wrap w a i) by lia; compute_in_goal (i <? w)
  | |- context [Z.testbit (sext ?w ?a) ?i] => rewrite (testbit_sext w a i) by lia
  | |- context [Z.testbit (Z.b2z ?b) 0] => rewrite (Z.b2z_bit0 b)
  | |- context [Z.testbit (Z.b2z ?b) (Zpos ?p)] => rewrite (b2z_bit_high b (Zpos p)) by lia
  | |- context [Z.testbit ?a (Zneg ?p)] => rewrite (Z.testbit_neg_r a (Zneg p)) by lia
  | |- context [Z.testbit ?c ?i] => ground_Z c; ground_Z i; compute_in_goal (Z.testbit c i)
  end;
  rewrite ?andb_false_r, ?andb_false_l, ?andb_true_r, ?andb_true_l,
    ?orb_false_r, ?orb_false_l, ?orb_true_r, ?orb_true_l,
    ?xorb_false_r, ?xorb_false_l.

(** [each_bit i n tac]: [0 <= i < n] is in the context; run [tac] at every
    position. *)
Ltac each_bit i n tac :=
  let rec go k :=
    let done_ := eval vm_compute in (n <=? k) in
    match done_ with
    | true => exfalso; lia
    | false =>
        destruct (decide (i = k)) as [->|];
        [solve [tac]|let k' := eval vm_compute in (k + 1) in go k']
    end in
  go 0.

(** ** Little-endian byte lists *)

Fixpoint le_bytes (n : nat) (v : Z) : list Z :=
  match n with
  | O => []
  | S n => wrap 8 v :: le_bytes n (v / 2 ^ 8)
  end.

Fixpoint le_value (bs : list Z) : Z :=
  match bs with
  | [] => 0
  | b :: bs => b + 2 ^ 8 * le_value bs
  end.

Lemma length_le_bytes n v : length (le_bytes n v) = n.
Proof. revert v. induction n; intros v; simpl; auto. Qed.

Lemma le_bytes_ok n v : bytes_ok (le_bytes n v).
Proof. revert v. induction n; intros v; simpl; constructor; auto. by apply wrap_ok. Qed.

Lemma le_value_bytes n v : le_value (le_bytes n v) = wrap (8 * Z.of_nat n) v.
Proof.
  revert v. induction n as [|n IH]; intros v.
  { unfold wrap. simpl. by rewrite Z.mod_1_r. }
  cbn [le_bytes le_value]. rewrite IH. unfold wrap.
  replace (8 * Z.of_nat (S n)) with (8 + 8 * Z.of_nat n) by lia.
  rewrite Z.pow_add_r by lia. rewrite Z.rem_mul_r; [done|lia|]. apply Z.pow_pos_nonneg; lia.
Qed.

Lemma le_value_bytes_small n v : word_ok (8 * Z.of_nat n) v -> le_value (le_bytes n v) = v.
Proof. intros H. rewrite le_value_bytes. by apply wrap_small. Qed.

(** ** Sorting

    [llvm::sort] and [llvm::stable_sort] with a comparison [lt] are modelled by
    the insertion sort below, which is stable; [llvm::sort] may order equal
    elements otherwise. *)

Section Sort.
  Context {A : Type} (lt : A -> A -> bool).

Fixpoint sort_insert (x : A) (l : list A) : list A :=
  match l with
  | [] => [x]
  | y :: l => if lt y x then y :: sort_insert x l else x :: y :: l
  end.

Definition stable_sort (l : list A) : list A := fold_right sort_insert [] l.

(** [a] may come before [b]: [b] is not less than [a]. *)
Definition sorted_le (a b : A) : Prop := lt b a = false.

Lemma sort_insert_perm x l : Permutation (sort_insert x l) (x :: l).
Proof.
  induction l as [|y l IH]; simpl; [done|]. destruct (lt y x); [|done].
  rewrite IH. apply perm_swap.
Qed.

Lemma stable_sort_perm l : Permutation (stable_sort l) l.
Proof. induction l as [|x l IH]; simpl; [done|]. by rewrite sort_insert_perm, IH. Qed.

(** [lt] is the strict part of a total preorder, as the C++ requires. *)
Class StrictWeak : Prop := {
  sw_irrefl a : lt a a = false;
  sw_trans a b c : lt b a = false -> lt c b = false -> lt c a = false;
  sw_asym a b : lt a b = true -> lt b a = false
}.

Lemma sort_insert_sorted `{StrictWeak} x l :
  StronglySorted sorted_le l -> StronglySorted sorted_le (sort_insert x l).
Proof.
  induction 1 as [|y l Hs IH Hall]; simpl; [by repeat constructor|].
  destruct (lt y x) eqn:E.
  - constructor; [done|]. rewrite sort_insert_perm. constructor; [|done].
    by apply sw_asym.
  - constructor; [by constructor|]. constructor; [done|].
    eapply Forall_impl; [exact Hall|]. intros z Hz. unfold sorted_le in *.
    by eapply sw_trans.
Qed.

Lemma stable_sort_sorted `{StrictWeak} l : StronglySorted sorted_le (stable_sort l).
Proof. induction l; simpl; [constructor|]. by apply sort_insert_sorted. Qed.

Lemma sort_insert_head x l : Forall (sorted_le x) l -> sort_insert x l = x :: l.
Proof. destruct 1 as [|y l Hy _]; simpl; [done|]. unfold sorted_le in Hy. by rewrite Hy. Qed.

(** A sorted list is left alone. *)
Lemma stable_sort_id l : StronglySorted sorted_le l -> stable_sort l = l.
Proof.
  induction 1 as [|y l Hs IH Hall]; simpl; [done|]. rewrite IH. by apply sort_insert_head.
Qed.

(** Elements the comparison does not distinguish keep their order. *)
Lemma sort_insert_filter (P : A -> bool) x l :
  (forall y, P y = true -> P x = true -> lt y x = false) ->
  List.filter P (sort_insert x l) = List.filter P (x :: l).
Proof.
  intros HP. induction l as [|y l IH]; [done|]. simpl sort_insert.
  destruct (lt y x) eqn:E; [|done]. simpl in IH |- *. rewrite IH.
  destruct (P y) eqn:Py; [|done]. destruct (P x) eqn:Px; [|done].
  by rewrite HP in E.
Qed.

Lemma stable_sort_filter (P : A -> bool) l :
  (forall x y, P x = true -> P y = true -> lt y x = false) ->
  List.filter P (stable_sort l) = List.filter P l.
Proof.
  intros HP. induction l as [|x l IH]; [done|]. simpl stable_sort.
  rewrite sort_insert_filter by auto. simpl. by rewrite IH.
Qed.

End Sort.

(** Comparisons of keys in Z. *)
#[export] Instance strict_weak_key {A} (key : A -> Z) :
  StrictWeak (fun a b => key a <? key b).
Proof. split; intros *; rewrite ?Z.ltb_ge, ?Z.ltb_lt; lia. Qed.

(** [alignTo(x, a)] for a positive alignment. *)
Definition alignTo (x a : Z) : Z := ((x + a - 1) / a) * a.

Lemma alignTo_spec x a : 0 < a -> x <= alignTo x a < x + a /\ alignTo x a mod a = 0.
Proof.
  intros Ha. unfold alignTo. split; [|by apply Z.mod_mul; lia].
  pose proof (Z.div_mod (x + a - 1) a ltac:(lia)).
  pose proof (Z.mod_pos_bound (x + a - 1) a Ha). nia.
Qed.

Lemma alignTo_id x a : 0 < a -> x mod a = 0 -> alignTo x a = x.
Proof.
  intros Ha Hx. unfold alignTo. apply Z.mod_divide in Hx as [k ->]; [|lia].
  replace (k * a + a - 1) with ((a - 1) + k * a) by lia.
  rewrite Z.div_add, Z.div_small by lia. lia.
Qed.

Lemma alignTo_mono x y a : 0 < a -> x <= y -> alignTo x a <= alignTo y a.
Proof.
  intros Ha Hxy. unfold alignTo. apply Z.mul_le_mono_nonneg_r; [lia|].
  apply Z.div_le_mono; lia.
Qed.

(** ** More on strings *)

Fixpoint str_contains (p s : string) : bool :=
  starts_with p s || match s with String _ s => str_contains p s | EmptyString => false end.

Definition ends_with (p s : string) : bool :=
  (String.length p <=? String.length s)%nat && String.eqb (str_last (String.length p) s) p.

(** [split(sep)] at the first occurrence of a string: what is before, and after
    (empty when there is none). *)
Fixpoint split_at (sep s : string) : string * string :=
  if starts_with sep s then (EmptyString, str_drop (String.length sep) s)
  else match s with
       | EmptyString => (EmptyString, EmptyString)
       | String c s => let '(a, b) := split_at sep s in (String c a, b)
       end.
