(* ===== verification/Memory.v ===== *)
(** * Output memory

    The writer's output buffer as the code addresses it: bytes at addresses.
    [read16le] and friends (llvm/Support/Endian.h) read and write
    little-endian fields at any address, so a relocation that runs past its
    section really overwrites what follows it. *)

From S2P Require Import Prelude.

Definition mem := Z -> Z.
Definition mem_ok (m : mem) : Prop := forall a, byte_ok (m a).

Definition upd (m : mem) (a v : Z) : mem := fun x => if x =? a then v else m x.

Fixpoint read (n : nat) (m : mem) (p : Z) : Z :=
  match n with
  | O => 0
  | S n => m p + 2 ^ 8 * read n m (p + 1)
  end.

Fixpoint write (n : nat) (m : mem) (p v : Z) : mem :=
  match n with
  | O => m
  | S n => write n (upd m p (u8 v)) (p + 1) (v / 2 ^ 8)
  end.

Abbreviation read16le := (read 2).
Abbreviation read32le := (read 4).
Abbreviation read64le := (read 8).
Abbreviation write16le := (write 2).
Abbreviation write32le := (write 4).
Abbreviation write64le := (write 8).

(** [memcpy(p, bs, size)]. *)
Fixpoint memcpy (m : mem) (p : Z) (bs : list Z) : mem :=
  match bs with
  | [] => m
  | b :: bs => memcpy (upd m p b) (p + 1) bs
  end.

(** The bytes at [p], [p + 1], ... *)
Definition bytes_at (m : mem) (p : Z) (n : nat) : list Z :=
  map (fun k => m (p + Z.of_nat k)) (seq 0 n).

(** ** Single bytes *)

Lemma upd_eq m a v : upd m a v a = v.
Proof. unfold upd. by rewrite Z.eqb_refl. Qed.

Lemma upd_ne m a v x : x <> a -> upd m a v x = m x.
Proof. unfold upd. intros H. by rewrite (proj2 (Z.eqb_neq _ _) H). Qed.

Lemma upd_ok m a v : mem_ok m -> byte_ok v -> mem_ok (upd m a v).
Proof. intros Hm Hv x. unfold upd. by case_match. Qed.

Lemma u8_ok v : byte_ok (u8 v).
Proof. apply Z.mod_pos_bound. lia. Qed.

#[export] Hint Resolve upd_ok u8_ok : word.

(** ** Fields *)

Lemma write_other n m p v a : a < p \/ p + Z.of_nat n <= a -> write n m p v a = m a.
Proof.
  revert m p v. induction n as [|n IH]; intros m p v Ha; [done|].
  simpl. rewrite IH by lia. apply upd_ne. lia.
Qed.

Lemma write_ok n m p v : mem_ok m -> mem_ok (write n m p v).
Proof.
  revert m p v. induction n as [|n IH]; intros m p v Hm; [done|].
  apply IH. auto with word.
Qed.

Lemma read_ext n m m' p p' :
  (forall k, 0 <= k < Z.of_nat n -> m (p + k) = m' (p' + k)) -> read n m p = read n m' p'.
Proof.
  revert p p'. induction n as [|n IH]; intros p p' H; [done|]. cbn [read].
  specialize (H 0 ltac:(lia)) as H0. rewrite !Z.add_0_r in H0. rewrite H0.
  do 2 f_equal. apply IH. intros k Hk. specialize (H (1 + k) ltac:(lia)).
  by rewrite !Z.add_assoc in H.
Qed.

Lemma read_bound n m p : mem_ok m -> word_ok (8 * Z.of_nat n) (read n m p).
Proof.
  intros Hm. revert p. induction n as [|n IH]; intros p; [split; simpl; lia|].
  cbn [read]. specialize (IH (p + 1)). destruct (Hm p). destruct IH.
  unfold word_ok. replace (8 * Z.of_nat (S n)) with (8 + 8 * Z.of_nat n) by lia.
  rewrite Z.pow_add_r by lia. split; [lia|]. nia.
Qed.

Lemma read_write n m p v : read n (write n m p v) p = wrap (8 * Z.of_nat n) v.
Proof.
  revert m p v. induction n as [|n IH]; intros m p v.
  { unfold wrap. simpl. by rewrite Z.mod_1_r. }
  cbn [read write]. rewrite IH, write_other, upd_eq by lia.
  unfold wrap. replace (8 * Z.of_nat (S n)) with (8 + 8 * Z.of_nat n) by lia.
  rewrite Z.pow_add_r by lia. rewrite Z.rem_mul_r; [done|lia|].
  apply Z.pow_pos_nonneg; lia.
Qed.

Lemma read_write_other n k m p q v :
  q + Z.of_nat n <= p \/ p + Z.of_nat k <= q -> read n (write k m p v) q = read n m q.
Proof. intros H. apply read_ext. intros i Hi. apply write_other. lia. Qed.

Lemma read_add n k m p :
  read (n + k) m p = read n m p + 2 ^ (8 * Z.of_nat n) * read k m (p + Z.of_nat n).
Proof.
  revert p. induction n as [|n IH]; intros p.
  { simpl. rewrite Z.add_0_r. by destruct (read k m p). }
  cbn [read Nat.add]. rewrite IH.
  replace (8 * Z.of_nat (S n)) with (8 + 8 * Z.of_nat n) by lia.
  rewrite Z.pow_add_r by lia.
  replace (p + 1 + Z.of_nat n) with (p + Z.of_nat (S n)) by lia. ring.
Qed.

(** Each byte of a field just written. *)
Lemma write_byte n m p v k :
  0 <= k < Z.of_nat n -> write n m p v (p + k) = u8 (v / 2 ^ (8 * k)).
Proof.
  revert m p v k. induction n as [|n IH]; intros m p v k Hk; [lia|]. cbn [write].
  destruct (decide (k = 0)) as [->|Hne].
  - rewrite write_other by lia. rewrite Z.add_0_r, upd_eq.
    change (2 ^ (8 * 0)) with 1. by rewrite Z.div_1_r.
  - replace (p + k) with (p + 1 + (k - 1)) by lia. rewrite IH by lia.
    rewrite Z.div_div by (try apply Z.pow_pos_nonneg; lia).
    rewrite <- Z.pow_add_r by lia. do 3 f_equal. lia.
Qed.

(** What a write leaves in memory depends on the old memory outside the field
    only. *)
Lemma write_local n m m' p p' v k :
  (forall j, 0 <= j < Z.of_nat n \/ m (p + j) = m' (p' + j)) ->
  write n m p v (p + k) = write n m' p' v (p' + k).
Proof.
  intros H. destruct (H k) as [Hk|Hk].
  - by rewrite !write_byte by lia.
  - destruct (decide (0 <= k < Z.of_nat n)); [by rewrite !write_byte by lia|].
    by rewrite !write_other by lia.
Qed.

(** ** Block copies *)

Lemma memcpy_other m p bs a :
  a < p \/ p + Z.of_nat (length bs) <= a -> memcpy m p bs a = m a.
Proof.
  revert m p. induction bs as [|b bs IH]; intros m p Ha; [done|].
  simpl in Ha |- *. rewrite IH by lia. apply upd_ne. lia.
Qed.

Lemma memcpy_byte m p bs k :
  (k < length bs)%nat -> memcpy m p bs (p + Z.of_nat k) = nth k bs 0.
Proof.
  revert m p k. induction bs as [|b bs IH]; intros m p k Hk; simpl in Hk; [lia|].
  simpl. destruct k as [|k].
  - rewrite memcpy_other by lia. simpl. by rewrite Z.add_0_r, upd_eq.
  - replace (p + Z.of_nat (S k)) with (p + 1 + Z.of_nat k) by lia.
    apply IH. lia.
Qed.

Lemma memcpy_ok m p bs : mem_ok m -> bytes_ok bs -> mem_ok (memcpy m p bs).
Proof.
  intros Hm Hb. revert m p Hm. induction Hb; intros m p Hm; simpl; auto with word.
Qed.

Lemma length_bytes_at m p n : length (bytes_at m p n) = n.
Proof. unfold bytes_at. by rewrite length_map, length_seq. Qed.

Lemma bytes_at_add m p a b : bytes_at m p (a + b) = bytes_at m p a ++ bytes_at m (p + Z.of_nat a) b.
Proof.
  unfold bytes_at. rewrite seq_app, map_app. f_equal. rewrite Nat.add_0_l, <- (Nat.add_0_r a) at 1.
  rewrite <- fmap_add_seq. change fmap with (@map nat nat). rewrite map_map. apply map_ext. intros k. f_equal. lia.
Qed.

Lemma nth_bytes_at m p n k d :
  (k < n)%nat -> nth k (bytes_at m p n) d = m (p + Z.of_nat k).
Proof.
  intros Hk. unfold bytes_at.
  rewrite (nth_indep _ d ((fun k => m (p + Z.of_nat k)) 0%nat))
    by (rewrite length_map, length_seq; lia).
  rewrite (map_nth (fun k => m (p + Z.of_nat k))). by rewrite seq_nth.
Qed.

Lemma bytes_at_memcpy m p bs : bytes_at (memcpy m p bs) p (length bs) = bs.
Proof.
  apply nth_ext with 0 0; [by rewrite length_bytes_at|].
  intros k Hk. rewrite length_bytes_at in Hk.
  rewrite nth_bytes_at by done. by apply memcpy_byte.
Qed.

(** A field inside a block just copied. *)
Lemma read_memcpy n m p bs k :
  (k + n <= length bs)%nat ->
  read n (memcpy m p bs) (p + Z.of_nat k) = le_value (firstn n (skipn k bs)).
Proof.
  revert k. induction n as [|n IH]; intros k Hk; [done|]. cbn [read].
  rewrite memcpy_byte by lia.
  replace (p + Z.of_nat k + 1) with (p + Z.of_nat (S k)) by lia. rewrite IH by lia.
  destruct (skipn k bs) as [|b bs'] eqn:E.
  { apply (f_equal (@length Z)) in E. rewrite length_skipn in E. simpl in E. lia. }
  rewrite <- Nat.add_1_r, Nat.add_comm, <- skipn_skipn, E. cbn [firstn le_value skipn].
  replace (nth k bs 0) with (nth 0 (skipn k bs) 0) by (rewrite nth_skipn; f_equal; lia).
  by rewrite E.
Qed.

#[export] Hint Resolve write_ok memcpy_ok read_bound : word.

#[global] Arguments read : simpl never.
#[global] Arguments write : simpl never.

(** ** Strings in memory *)

Definition str_bytes (s : string) : list Z :=
  map (fun c => Z.of_nat (Ascii.nat_of_ascii c)) (String.list_ascii_of_string s).

(** [StringChunk::writeTo]. *)
Definition put_string (s : string) (buf : Z) (m : mem) : mem := memcpy m buf (str_bytes s ++ [0]).

Fixpoint cstring (fuel : nat) (m : mem) (a : Z) : string :=
  match fuel with
  | O => ""
  | S fuel => if m a =? 0 then "" else String (Ascii.ascii_of_nat (Z.to_nat (m a))) (cstring fuel m (a + 1))
  end.

(** Names of up to 4096 bytes. *)
Definition name_limit : nat := Z.to_nat 4096.

(** ** Writers *)

(** [f] writes at [lo] and above only. *)
Definition from (lo : Z) (f : mem -> mem) : Prop := forall m x, x < lo -> f m x = m x.

Lemma from_write n p v : from p (fun m => write n m p v).
Proof. intros m x Hx. apply write_other. lia. Qed.
Lemma from_memcpy p bs : from p (fun m => memcpy m p bs).
Proof. intros m x Hx. apply memcpy_other. lia. Qed.
Lemma from_comp lo f g : from lo f -> from lo g -> from lo (fun m => g (f m)).
Proof. intros Hf Hg m x Hx. by rewrite Hg, Hf. Qed.
Lemma from_le lo lo' f : lo' <= lo -> from lo f -> from lo' f.
Proof. intros H Hf m x Hx. apply Hf. lia. Qed.
Lemma from_fold {A} lo (f : mem -> A -> mem) l :
  (forall x, x ∈ l -> from lo (fun m => f m x)) -> from lo (fun m => fold_left f l m).
Proof.
  induction l as [|y l IH]; intros H; [done|]. intros m x Hx. cbn.
  rewrite (IH (fun z Hz => H z (list_elem_of_further _ _ _ Hz)) _ _ Hx). apply (H y (list_elem_of_here _ _)). lia.
Qed.

Lemma read_from n lo f m p : from lo f -> p + Z.of_nat n <= lo -> read n (f m) p = read n m p.
Proof. intros Hf Hp. apply read_ext. intros k Hk. apply Hf. lia. Qed.

(** Slots written by a loop. *)
Lemma read_slot {A} n (addr val : A -> Z) l m x :
  x ∈ l ->
  (forall y, y ∈ l -> y = x \/ addr y + Z.of_nat n <= addr x \/ addr x + Z.of_nat n <= addr y) ->
  read n (fold_left (fun m y => write n m (addr y) (val y)) l m) (addr x) = wrap (8 * Z.of_nat n) (val x).
Proof.
  induction l as [|y l IH] using rev_ind; [by intros ?%elem_of_nil|]. intros Hx H.
  rewrite fold_left_app. cbn [fold_left].
  destruct (H y) as [->|Hd]; [apply elem_of_app; right; apply list_elem_of_here|apply read_write|].
  rewrite read_write_other by lia.
  apply elem_of_app in Hx as [Hx| ->%list_elem_of_singleton].
  - apply IH; [done|]. intros z Hz. apply H. apply elem_of_app. by left.
  - destruct (decide (n = O)) as [->|]; [|lia]. cbn. unfold wrap. by rewrite Z.mod_1_r.
Qed.

(** The string [s] is in memory at [a], with its terminator. *)
Definition has_string (m : mem) (a : Z) (s : string) : Prop :=
  forall k, (k <= String.length s)%nat -> m (a + Z.of_nat k) = nth k (str_bytes s ++ [0%Z]) 0.

Definition no_nul (s : string) : Prop := Forall (fun c => c <> Ascii.zero) (String.list_ascii_of_string s).

Lemma length_str_bytes s : length (str_bytes s) = String.length s.
Proof. unfold str_bytes. rewrite length_map. induction s; cbn; congruence. Qed.

Lemma cstring_has fuel m a s : has_string m a s -> no_nul s -> (String.length s < fuel)%nat -> cstring fuel m a = s.
Proof.
  revert a fuel. induction s as [|c s IH]; intros a fuel H Hn Hf; (destruct fuel as [|fuel]; [lia|]); cbn [cstring].
  - specialize (H O ltac:(lia)). cbn in H. rewrite Z.add_0_r in H. by rewrite H.
  - pose proof (H O ltac:(lia)) as H0. cbn in H0. rewrite Z.add_0_r in H0. rewrite H0.
    apply Forall_cons in Hn as [Hc Hn]. destruct (Z.eqb_spec (Z.of_nat (Ascii.nat_of_ascii c)) 0) as [E|_].
    { destruct Hc. rewrite <- (Ascii.ascii_nat_embedding c). by replace (Ascii.nat_of_ascii c) with O by lia. }
    rewrite Nat2Z.id, Ascii.ascii_nat_embedding. f_equal. apply IH; [|done|cbn in Hf; lia].
    intros k Hk. specialize (H (S k) ltac:(cbn; lia)). cbn [nth app str_bytes map String.list_ascii_of_string] in H.
    replace (a + 1 + Z.of_nat k) with (a + Z.of_nat (S k)) by lia. exact H.
Qed.

Lemma has_put s a m : has_string (put_string s a m) a s.
Proof.
  intros k Hk. unfold put_string. apply memcpy_byte. rewrite length_app, length_str_bytes. cbn. lia.
Qed.

Lemma has_put_other s t a b m :
  has_string m a s ->
  a + Z.of_nat (String.length s) < b \/ b + Z.of_nat (String.length t) < a -> has_string (put_string t b m) a s.
Proof.
  intros H Hd k Hk. unfold put_string. rewrite memcpy_other; [by apply H|].
  rewrite length_app, length_str_bytes. cbn. lia.
Qed.

Lemma strings_slot {A} (addr : A -> Z) (str : A -> string) l m x :
  x ∈ l ->
  (forall y, y ∈ l -> y = x \/ addr y + Z.of_nat (String.length (str y)) < addr x \/
                      addr x + Z.of_nat (String.length (str x)) < addr y) ->
  has_string (fold_left (fun m y => put_string (str y) (addr y) m) l m) (addr x) (str x).
Proof.
  induction l as [|y l IH] using rev_ind; [by intros ?%elem_of_nil|]. intros Hx H.
  rewrite fold_left_app. cbn [fold_left].
  destruct (H y) as [->|Hd]; [apply elem_of_app; right; apply list_elem_of_here|apply has_put|].
  apply has_put_other; [|lia].
  apply elem_of_app in Hx as [Hx| ->%list_elem_of_singleton]; [|lia].
  apply IH; [done|]. intros z Hz. apply H. apply elem_of_app. by left.
Qed.

Definition name_fits (s : string) : bool :=
  forallb (fun c => negb (Ascii.eqb c Ascii.zero)) (String.list_ascii_of_string s) && (String.length s <? name_limit)%nat.

Lemma names_fit s t : name_fits s && name_fits t = true ->
  no_nul s /\ (String.length s < name_limit)%nat /\ no_nul t /\ (String.length t < name_limit)%nat.
Proof.
  unfold name_fits. rewrite !andb_true_iff, !Nat.ltb_lt, !forallb_forall. intros [[H1 ?] [H2 ?]].
  repeat split; try done; apply Forall_forall; intros c Hc%list_elem_of_In;
    [specialize (H1 c Hc)|specialize (H2 c Hc)]; by intros ->.
Qed.
