(* ===== verification/Crc.v ===== *)
(** * CRC-32 (llvm/lib/Support/CRC.cpp)

    The patched build computes CRC-32 with eight derived tables, eight input
    bytes per step.  This file models both table sets, the slice-by-8 loop,
    the byte loop that finishes the tail, [crc32] and [JamCRC::update], and
    relates them to the bit-serial definition of the same polynomial. *)

From S2P Require Import Prelude.

(** ** Definitions *)

(** [CRCTable], as the source lists it. *)
Definition CRCTable : list Z :=
  [
   0x00000000; 0x77073096; 0xee0e612c; 0x990951ba; 0x076dc419; 0x706af48f;
   0xe963a535; 0x9e6495a3; 0x0edb8832; 0x79dcb8a4; 0xe0d5e91e; 0x97d2d988;
   0x09b64c2b; 0x7eb17cbd; 0xe7b82d07; 0x90bf1d91; 0x1db71064; 0x6ab020f2;
   0xf3b97148; 0x84be41de; 0x1adad47d; 0x6ddde4eb; 0xf4d4b551; 0x83d385c7;
   0x136c9856; 0x646ba8c0; 0xfd62f97a; 0x8a65c9ec; 0x14015c4f; 0x63066cd9;
   0xfa0f3d63; 0x8d080df5; 0x3b6e20c8; 0x4c69105e; 0xd56041e4; 0xa2677172;
   0x3c03e4d1; 0x4b04d447; 0xd20d85fd; 0xa50ab56b; 0x35b5a8fa; 0x42b2986c;
   0xdbbbc9d6; 0xacbcf940; 0x32d86ce3; 0x45df5c75; 0xdcd60dcf; 0xabd13d59;
   0x26d930ac; 0x51de003a; 0xc8d75180; 0xbfd06116; 0x21b4f4b5; 0x56b3c423;
   0xcfba9599; 0xb8bda50f; 0x2802b89e; 0x5f058808; 0xc60cd9b2; 0xb10be924;
   0x2f6f7c87; 0x58684c11; 0xc1611dab; 0xb6662d3d; 0x76dc4190; 0x01db7106;
   0x98d220bc; 0xefd5102a; 0x71b18589; 0x06b6b51f; 0x9fbfe4a5; 0xe8b8d433;
   0x7807c9a2; 0x0f00f934; 0x9609a88e; 0xe10e9818; 0x7f6a0dbb; 0x086d3d2d;
   0x91646c97; 0xe6635c01; 0x6b6b51f4; 0x1c6c6162; 0x856530d8; 0xf262004e;
   0x6c0695ed; 0x1b01a57b; 0x8208f4c1; 0xf50fc457; 0x65b0d9c6; 0x12b7e950;
   0x8bbeb8ea; 0xfcb9887c; 0x62dd1ddf; 0x15da2d49; 0x8cd37cf3; 0xfbd44c65;
   0x4db26158; 0x3ab551ce; 0xa3bc0074; 0xd4bb30e2; 0x4adfa541; 0x3dd895d7;
   0xa4d1c46d; 0xd3d6f4fb; 0x4369e96a; 0x346ed9fc; 0xad678846; 0xda60b8d0;
   0x44042d73; 0x33031de5; 0xaa0a4c5f; 0xdd0d7cc9; 0x5005713c; 0x270241aa;
   0xbe0b1010; 0xc90c2086; 0x5768b525; 0x206f85b3; 0xb966d409; 0xce61e49f;
   0x5edef90e; 0x29d9c998; 0xb0d09822; 0xc7d7a8b4; 0x59b33d17; 0x2eb40d81;
   0xb7bd5c3b; 0xc0ba6cad; 0xedb88320; 0x9abfb3b6; 0x03b6e20c; 0x74b1d29a;
   0xead54739; 0x9dd277af; 0x04db2615; 0x73dc1683; 0xe3630b12; 0x94643b84;
   0x0d6d6a3e; 0x7a6a5aa8; 0xe40ecf0b; 0x9309ff9d; 0x0a00ae27; 0x7d079eb1;
   0xf00f9344; 0x8708a3d2; 0x1e01f268; 0x6906c2fe; 0xf762575d; 0x806567cb;
   0x196c3671; 0x6e6b06e7; 0xfed41b76; 0x89d32be0; 0x10da7a5a; 0x67dd4acc;
   0xf9b9df6f; 0x8ebeeff9; 0x17b7be43; 0x60b08ed5; 0xd6d6a3e8; 0xa1d1937e;
   0x38d8c2c4; 0x4fdff252; 0xd1bb67f1; 0xa6bc5767; 0x3fb506dd; 0x48b2364b;
   0xd80d2bda; 0xaf0a1b4c; 0x36034af6; 0x41047a60; 0xdf60efc3; 0xa867df55;
   0x316e8eef; 0x4669be79; 0xcb61b38c; 0xbc66831a; 0x256fd2a0; 0x5268e236;
   0xcc0c7795; 0xbb0b4703; 0x220216b9; 0x5505262f; 0xc5ba3bbe; 0xb2bd0b28;
   0x2bb45a92; 0x5cb36a04; 0xc2d7ffa7; 0xb5d0cf31; 0x2cd99e8b; 0x5bdeae1d;
   0x9b64c2b0; 0xec63f226; 0x756aa39c; 0x026d930a; 0x9c0906a9; 0xeb0e363f;
   0x72076785; 0x05005713; 0x95bf4a82; 0xe2b87a14; 0x7bb12bae; 0x0cb61b38;
   0x92d28e9b; 0xe5d5be0d; 0x7cdcefb7; 0x0bdbdf21; 0x86d3d2d4; 0xf1d4e242;
   0x68ddb3f8; 0x1fda836e; 0x81be16cd; 0xf6b9265b; 0x6fb077e1; 0x18b74777;
   0x88085ae6; 0xff0f6a70; 0x66063bca; 0x11010b5c; 0x8f659eff; 0xf862ae69;
   0x616bffd3; 0x166ccf45; 0xa00ae278; 0xd70dd2ee; 0x4e048354; 0x3903b3c2;
   0xa7672661; 0xd06016f7; 0x4969474d; 0x3e6e77db; 0xaed16a4a; 0xd9d65adc;
   0x40df0b66; 0x37d83bf0; 0xa9bcae53; 0xdebb9ec5; 0x47b2cf7f; 0x30b5ffe9;
   0xbdbdf21c; 0xcabac28a; 0x53b39330; 0x24b4a3a6; 0xbad03605; 0xcdd70693;
   0x54de5729; 0x23d967bf; 0xb3667a2e; 0xc4614ab8; 0x5d681b02; 0x2a6f2b94;
   0xb40bbe37; 0xc30c8ea1; 0x5a05df1b; 0x2d02ef8d].

(** The inner loop of the constructor of [CRCSliceTables]: one bit of input. *)
Definition crc_bit (C : Z) : Z :=
  if Z.odd C then 0xEDB88320 ^^ (C >>> 1) else C >>> 1.

(** [T[0][I]]: eight turns of the bit loop. *)
Definition slice_entry0 (I : Z) : Z := Nat.iter 8 crc_bit I.

(** [T[J][I]] from the previous table, [T[J-1]], and [T[0]]. *)
Definition slice_next (T0 prev : list Z) : list Z :=
  map (fun p => (p >>> 8) ^^ nth (Z.to_nat (p &&& 0xff)) T0 0) prev.

Fixpoint slice_rows (T0 prev : list Z) (n : nat) : list (list Z) :=
  match n with
  | O => []
  | S n => let row := slice_next T0 prev in row :: slice_rows T0 row n
  end.

(** The constructor: row 0 from the bit loop, rows 1 to 7 each from the row
    before it. *)
Definition CRCSliceTables : list (list Z) :=
  let T0 := map (fun i => slice_entry0 (Z.of_nat i)) (seq 0 256) in
  T0 :: slice_rows T0 T0 7.

Definition SliceTables : list (list Z) := Eval vm_compute in CRCSliceTables.

Definition T (J : nat) (I : Z) : Z := nth (Z.to_nat I) (nth J SliceTables []) 0.

(** [readLE32]: four bytes, least significant first. *)
Definition readLE32 (b0 b1 b2 b3 : Z) : Z :=
  b0 ||| (b1 <<< 8) ||| (b2 <<< 16) ||| (b3 <<< 24).

(** The body of [while (N >= 8)]. *)
Definition slice_step (CRC b0 b1 b2 b3 b4 b5 b6 b7 : Z) : Z :=
  let One := readLE32 b0 b1 b2 b3 ^^ CRC in
  let Two := readLE32 b4 b5 b6 b7 in
  T 7 (One &&& 0xff) ^^ T 6 ((One >>> 8) &&& 0xff) ^^
  T 5 ((One >>> 16) &&& 0xff) ^^ T 4 (One >>> 24) ^^ T 3 (Two &&& 0xff) ^^
  T 2 ((Two >>> 8) &&& 0xff) ^^ T 1 ((Two >>> 16) &&& 0xff) ^^ T 0 (Two >>> 24).

(** The body of [while (N--)]. *)
Definition table_step (CRC b : Z) : Z :=
  let TableIdx := (CRC ^^ b) &&& 0xff in
  nth (Z.to_nat TableIdx) CRCTable 0 ^^ (CRC >>> 8).

(** The two loops: eight bytes at a time while eight are left, then one. *)
Section Loops.
  Variable step8 : Z -> Z -> Z -> Z -> Z -> Z -> Z -> Z -> Z -> Z.
  Variable step1 : Z -> Z -> Z.

Fixpoint crc32_loops (CRC : Z) (P : list Z) : Z :=
  match P with
  | b0 :: b1 :: b2 :: b3 :: b4 :: b5 :: b6 :: b7 :: P =>
      crc32_loops (step8 CRC b0 b1 b2 b3 b4 b5 b6 b7) P
  | _ => fold_left step1 P CRC
  end.
End Loops.

(** [llvm::crc32(CRC, Data)]. *)
Definition crc32 (CRC : Z) (Data : list Z) : Z :=
  crc32_loops slice_step table_step (CRC ^^ 0xFFFFFFFF) Data ^^ 0xFFFFFFFF.

(** [JamCRC::update]. *)
Definition JamCRC_update (CRC : Z) (Data : list Z) : Z :=
  crc32 (CRC ^^ 0xFFFFFFFF) Data ^^ 0xFFFFFFFF.

(** ** Specification: the bit-serial CRC of the reflected polynomial *)

Definition crc_byte (C b : Z) : Z := Nat.iter 8 crc_bit (C ^^ b).
Definition crc_bytes (C : Z) (bs : list Z) : Z := fold_left crc_byte bs C.
Definition crc32_spec (CRC : Z) (Data : list Z) : Z :=
  crc_bytes (CRC ^^ 0xFFFFFFFF) Data ^^ 0xFFFFFFFF.

(** ** The bit step is linear, and eight zero bits shift through *)

Abbreviation crc_bits n := (Nat.iter n crc_bit).

Lemma crc_bit_lxor a b : crc_bit (a ^^ b) = crc_bit a ^^ crc_bit b.
Proof.
  unfold crc_bit.
  rewrite <- !Z.bit0_odd, Z.lxor_spec, !Z.bit0_odd, Z.shiftr_lxor.
  generalize 0xEDB88320. intros P.
  destruct (Z.odd a), (Z.odd b); simpl xorb; cbv iota; lxor_solve.
Qed.

Lemma crc_bits_lxor n a b : crc_bits n (a ^^ b) = crc_bits n a ^^ crc_bits n b.
Proof. induction n as [|n IH]; simpl; [done|]. by rewrite IH, crc_bit_lxor. Qed.

Lemma crc_bits_add m n a : crc_bits (m + n) a = crc_bits m (crc_bits n a).
Proof. induction m as [|m IH]; simpl; [done|]. by rewrite IH. Qed.

Lemma crc_bit_double a : crc_bit (a <<< 1) = a.
Proof.
  unfold crc_bit. rewrite <- Z.bit0_odd, Z.shiftl_spec_low by lia.
  rewrite Z.shiftr_shiftl_l by lia. apply Z.shiftl_0_r.
Qed.

(** [n] zero bits below [a] are shifted out unchanged. *)
Lemma crc_bits_shiftl n a : crc_bits n (a <<< Z.of_nat n) = a.
Proof.
  induction n as [|n IH]; [apply Z.shiftl_0_r|].
  rewrite Nat.iter_succ_r.
  replace (a <<< Z.of_nat (S n)) with ((a <<< Z.of_nat n) <<< 1)
    by (rewrite Z.shiftl_shiftl by lia; f_equal; lia).
  by rewrite crc_bit_double.
Qed.

Lemma crc_bits_shiftl_sub m k z a :
  0 <= z -> (m = k + Z.to_nat z)%nat -> crc_bits m (a <<< z) = crc_bits k a.
Proof.
  intros Hz ->. rewrite crc_bits_add. rewrite <- (Z2Nat.id z) at 2 by done.
  by rewrite crc_bits_shiftl.
Qed.

(** One table look-up replaces eight bit steps. *)
Lemma crc_bits_8 C : crc_bits 8 C = crc_bits 8 (C &&& 0xff) ^^ (C >>> 8).
Proof.
  rewrite <- (crc_bits_shiftl 8 (C >>> 8)) at 1. rewrite <- crc_bits_lxor.
  f_equal. change 0xff with (Z.ones 8). Z.bitblast.
Qed.

(** ** The tables *)

Definition table_agrees : bool :=
  forallb (fun i => nth i CRCTable 0 =? crc_bits 8 (Z.of_nat i)) (seq 0 256).
Definition slices_agree : bool :=
  forallb (fun J => forallb (fun i =>
    nth i (nth J SliceTables []) 0 =? crc_bits (8 * J + 8) (Z.of_nat i))
    (seq 0 256)) (seq 0 8).

Lemma table_agrees_true : table_agrees = true.
Proof. vm_compute. reflexivity. Qed.

Lemma slices_agree_true : slices_agree = true.
Proof. vm_compute. reflexivity. Qed.

#[local] Opaque SliceTables CRCTable.

Lemma CRCTable_entry i : byte_ok i -> nth (Z.to_nat i) CRCTable 0 = crc_bits 8 i.
Proof.
  intros [H0 H1]. pose proof table_agrees_true as Hall.
  unfold table_agrees in Hall. rewrite forallb_forall in Hall.
  specialize (Hall (Z.to_nat i)). rewrite Z.eqb_eq in Hall.
  rewrite Hall by (apply in_seq; lia). by rewrite Z2Nat.id.
Qed.

Lemma SliceTables_entry J i :
  (J < 8)%nat -> byte_ok i -> T J i = crc_bits (8 * J + 8) i.
Proof.
  intros HJ [H0 H1]. pose proof slices_agree_true as Hall.
  unfold slices_agree in Hall. rewrite forallb_forall in Hall.
  specialize (Hall J). rewrite forallb_forall in Hall.
  specialize (Hall ltac:(apply in_seq; lia) (Z.to_nat i)). rewrite Z.eqb_eq in Hall.
  unfold T. rewrite Hall by (apply in_seq; lia). by rewrite Z2Nat.id.
Qed.

Lemma byte_mask_ok z : byte_ok (z &&& 0xff).
Proof. change 0xff with (Z.ones 8). by apply (land_ones_word_ok 8). Qed.

Lemma top_byte_ok z : word_ok 32 z -> byte_ok (z >>> 24).
Proof.
  intros [H0 H1]. rewrite Z.shiftr_div_pow2 by done.
  split; [by apply Z.div_pos|]. by apply Z.div_lt_upper_bound.
Qed.

(** ** One step of each loop *)

Lemma table_step_byte C b : table_step C b = crc_byte C b ^^ (((C ^^ b) >>> 8) ^^ (C >>> 8)).
Proof.
  unfold table_step, crc_byte. rewrite CRCTable_entry by apply byte_mask_ok.
  rewrite (crc_bits_8 (C ^^ b)). lxor_solve.
Qed.

Lemma table_step_spec C b : byte_ok b -> table_step C b = crc_byte C b.
Proof.
  intros Hb. rewrite table_step_byte, Z.shiftr_lxor.
  replace (b >>> 8) with 0.
  - lxor_solve.
  - destruct Hb as [H0 H1]. rewrite Z.shiftr_div_pow2 by done. by rewrite Z.div_small.
Qed.

Lemma readLE32_ok b0 b1 b2 b3 :
  byte_ok b0 -> byte_ok b1 -> byte_ok b2 -> byte_ok b3 ->
  word_ok 32 (readLE32 b0 b1 b2 b3).
Proof.
  intros H0 H1 H2 H3. unfold readLE32.
  apply word_ok_bits; [done| |].
  - pose proof H0 as [? _]. pose proof H1 as [? _].
    pose proof H2 as [? _]. pose proof H3 as [? _].
    rewrite !Z.lor_nonneg, !Z.shiftl_nonneg. done.
  - intros i Hi. rewrite !Z.lor_spec, !Z.shiftl_spec by lia.
    rewrite !(testbit_high 8) by (done || lia). done.
Qed.

(** The four bytes of a word, least significant first. *)
Lemma word_bytes z :
  z = (z &&& 0xff) ^^ (((z >>> 8) &&& 0xff) <<< 8) ^^
      (((z >>> 16) &&& 0xff) <<< 16) ^^ ((z >>> 24) <<< 24).
Proof. change 0xff with (Z.ones 8). Z.bitblast. Qed.

Lemma readLE32_lxor b0 b1 b2 b3 :
  byte_ok b0 -> byte_ok b1 -> byte_ok b2 -> byte_ok b3 ->
  readLE32 b0 b1 b2 b3 = b0 ^^ (b1 <<< 8) ^^ (b2 <<< 16) ^^ (b3 <<< 24).
Proof.
  intros H0 H1 H2 H3. unfold readLE32. apply Z.bits_inj'. intros i Hi.
  rewrite !Z.lor_spec, !Z.lxor_spec, !Z.shiftl_spec by lia.
  destruct (decide (i < 8)), (decide (i < 16)), (decide (i < 24)); try lia;
  rewrite ?(Z.testbit_neg_r _ (i - 8)), ?(Z.testbit_neg_r _ (i - 16)),
    ?(Z.testbit_neg_r _ (i - 24)) by lia;
  rewrite ?(testbit_high 8 b0 i), ?(testbit_high 8 b1 (i - 8)),
    ?(testbit_high 8 b2 (i - 16)) by (done || lia);
  by rewrite ?orb_false_r, ?orb_false_l, ?xorb_false_r, ?xorb_false_l.
Qed.

(** A word read by its bytes: each byte enters as many bit steps later as it
    has bits below it. *)
Lemma crc_bits_word n z :
  crc_bits (32 + n) z =
  crc_bits (32 + n) (z &&& 0xff) ^^ crc_bits (24 + n) ((z >>> 8) &&& 0xff) ^^
  crc_bits (16 + n) ((z >>> 16) &&& 0xff) ^^ crc_bits (8 + n) (z >>> 24).
Proof.
  rewrite (word_bytes z) at 1. rewrite !crc_bits_lxor.
  by rewrite (crc_bits_shiftl_sub _ (24 + n) 8), (crc_bits_shiftl_sub _ (16 + n) 16),
    (crc_bits_shiftl_sub _ (8 + n) 24) by lia.
Qed.

Lemma crc_bits_readLE32 n b0 b1 b2 b3 :
  byte_ok b0 -> byte_ok b1 -> byte_ok b2 -> byte_ok b3 ->
  crc_bits (32 + n) (readLE32 b0 b1 b2 b3) =
  crc_bits (32 + n) b0 ^^ crc_bits (24 + n) b1 ^^
  crc_bits (16 + n) b2 ^^ crc_bits (8 + n) b3.
Proof.
  intros. rewrite readLE32_lxor by done. rewrite !crc_bits_lxor.
  by rewrite (crc_bits_shiftl_sub _ (24 + n) 8), (crc_bits_shiftl_sub _ (16 + n) 16),
    (crc_bits_shiftl_sub _ (8 + n) 24) by lia.
Qed.

(** The eight look-ups advance the two words by 64 and 32 bit steps. *)
Lemma slice_step_words C b0 b1 b2 b3 b4 b5 b6 b7 :
  word_ok 32 C -> byte_ok b0 -> byte_ok b1 -> byte_ok b2 -> byte_ok b3 ->
  byte_ok b4 -> byte_ok b5 -> byte_ok b6 -> byte_ok b7 ->
  slice_step C b0 b1 b2 b3 b4 b5 b6 b7 =
  crc_bits 64 (readLE32 b0 b1 b2 b3 ^^ C) ^^ crc_bits 32 (readLE32 b4 b5 b6 b7).
Proof.
  intros. unfold slice_step.
  rewrite !SliceTables_entry
    by (lia || apply byte_mask_ok || (apply top_byte_ok; auto using lxor_word_ok, readLE32_ok with lia)).
  pose proof (crc_bits_word 32 (readLE32 b0 b1 b2 b3 ^^ C)) as HOne.
  pose proof (crc_bits_word 0 (readLE32 b4 b5 b6 b7)) as HTwo.
  cbn [Nat.add Nat.mul] in *. rewrite HOne, HTwo. by rewrite !Z.lxor_assoc.
Qed.

Lemma crc_byte_lxor C b : crc_byte C b = crc_bits 8 C ^^ crc_bits 8 b.
Proof. apply crc_bits_lxor. Qed.

Lemma slice_step_spec C b0 b1 b2 b3 b4 b5 b6 b7 :
  word_ok 32 C -> bytes_ok [b0; b1; b2; b3; b4; b5; b6; b7] ->
  slice_step C b0 b1 b2 b3 b4 b5 b6 b7 = crc_bytes C [b0; b1; b2; b3; b4; b5; b6; b7].
Proof.
  intros HC Hb. rewrite !Forall_cons in Hb. destruct_and!.
  rewrite slice_step_words, crc_bits_lxor by done.
  pose proof (crc_bits_readLE32 32 b0 b1 b2 b3) as HOne.
  pose proof (crc_bits_readLE32 0 b4 b5 b6 b7) as HTwo.
  cbn [Nat.add] in HOne, HTwo. rewrite HOne, HTwo by done.
  unfold crc_bytes. cbn [fold_left]. rewrite !crc_byte_lxor, !crc_bits_lxor.
  rewrite <- !crc_bits_add. cbn [Nat.add]. lxor_solve.
Qed.

Lemma crc_bit_word_ok C : word_ok 32 C -> word_ok 32 (crc_bit C).
Proof.
  intros HC. unfold crc_bit. destruct (Z.odd C); auto with word lia.
  apply lxor_word_ok; [done|by vm_compute|]. by apply shiftr_word_ok.
Qed.

Lemma crc_bits_word_ok n C : word_ok 32 C -> word_ok 32 (crc_bits n C).
Proof. intros HC. induction n; simpl; auto using crc_bit_word_ok. Qed.

Lemma byte_word32 b : byte_ok b -> word_ok 32 b.
Proof. unfold byte_ok, word_ok. lia. Qed.

Lemma crc_byte_word_ok C b : word_ok 32 C -> byte_ok b -> word_ok 32 (crc_byte C b).
Proof. intros. apply crc_bits_word_ok, lxor_word_ok; auto using byte_word32 with lia. Qed.

Lemma crc_bytes_word_ok bs C : word_ok 32 C -> bytes_ok bs -> word_ok 32 (crc_bytes C bs).
Proof.
  intros HC Hb. revert C HC. induction Hb as [|b bs Hb _ IH]; intros C HC; [done|].
  apply IH. by apply crc_byte_word_ok.
Qed.

Lemma crc_bytes_app C a b : crc_bytes C (a ++ b) = crc_bytes (crc_bytes C a) b.
Proof. apply fold_left_app. Qed.

Lemma fold_table_step P C : bytes_ok P -> fold_left table_step P C = crc_bytes C P.
Proof.
  intros Hb. revert C. induction Hb as [|b bs Hb _ IH]; intros C; [done|].
  simpl. by rewrite IH, table_step_spec.
Qed.

(** The two loops compute the bit-serial CRC, whatever the length. *)
Lemma crc32_loops_spec n P C :
  (length P <= n)%nat -> word_ok 32 C -> bytes_ok P ->
  crc32_loops slice_step table_step C P = crc_bytes C P.
Proof.
  revert P C. induction n as [|n IH]; intros P C Hn HC Hb.
  { destruct P; [done|simpl in Hn; lia]. }
  do 8 (destruct P as [|? P]; [by apply fold_table_step|]).
  cbn [crc32_loops]. rewrite !Forall_cons in Hb.
  assert (H8 : bytes_ok [z; z0; z1; z2; z3; z4; z5; z6])
    by (destruct_and!; repeat (apply Forall_cons_2; [done|]); apply Forall_nil_2).
  rewrite slice_step_spec by done.
  rewrite IH; [|simpl in Hn; lia|by apply crc_bytes_word_ok|tauto].
  by rewrite <- crc_bytes_app.
Qed.

(** The bit step has an inverse: bit 31 of the result tells which branch was
    taken. *)
Definition crc_unbit (C : Z) : Z :=
  if Z.testbit C 31 then ((C ^^ 0xEDB88320) <<< 1) ||| 1 else C <<< 1.

Lemma halve_double C : C = ((C >>> 1) <<< 1) ||| Z.b2z (Z.odd C).
Proof.
  rewrite <- Z.bit0_odd. apply Z.bits_inj'. intros i Hi. rewrite Z.lor_spec.
  destruct (decide (i = 0)) as [->|Hne].
  - by rewrite Z.shiftl_spec_low, Z.b2z_bit0 by lia.
  - rewrite Z.shiftl_spec, Z.shiftr_spec by lia. replace (i - 1 + 1) with i by lia.
    rewrite (testbit_high 1 (Z.b2z _)); [by rewrite orb_false_r| |lia].
    by destruct (Z.testbit C 0).
Qed.

Lemma crc_unbit_bit C : word_ok 32 C -> crc_unbit (crc_bit C) = C.
Proof.
  intros HC. unfold crc_bit, crc_unbit.
  assert (Hs : Z.testbit (C >>> 1) 31 = false).
  { rewrite Z.shiftr_spec by lia. by apply (testbit_high 32). }
  destruct (Z.odd C) eqn:Ho.
  - rewrite Z.lxor_spec, Hs. change (Z.testbit 0xEDB88320 31) with true. cbv [xorb].
    replace ((0xEDB88320 ^^ (C >>> 1)) ^^ 0xEDB88320) with (C >>> 1)
      by (generalize 0xEDB88320; intros; lxor_solve).
    by rewrite (halve_double C) at 2; rewrite Ho.
  - rewrite Hs. rewrite (halve_double C) at 2. by rewrite Ho, Z.lor_0_r.
Qed.

Lemma crc_bits_inj n a b :
  word_ok 32 a -> word_ok 32 b -> crc_bits n a = crc_bits n b -> a = b.
Proof.
  intros Ha Hb. induction n as [|n IH]; simpl; [done|]. intros Heq. apply IH.
  rewrite <- (crc_unbit_bit (crc_bits n a)), <- (crc_unbit_bit (crc_bits n b))
    by auto using crc_bits_word_ok. by rewrite Heq.
Qed.

Lemma crc_bytes_inj P a b :
  word_ok 32 a -> word_ok 32 b -> bytes_ok P -> crc_bytes a P = crc_bytes b P -> a = b.
Proof.
  intros Ha Hb HP. revert a b Ha Hb.
  induction HP as [|x P Hx HP IH]; intros a b Ha Hb Heq; [done|].
  apply IH in Heq; [|by apply crc_byte_word_ok..].
  apply crc_bits_inj in Heq; [|auto using lxor_word_ok, byte_word32 with lia..].
  assert (a = (a ^^ x) ^^ x) as -> by lxor_solve. rewrite Heq. lxor_solve.
Qed.

Lemma complement_word_ok C : word_ok 32 C -> word_ok 32 (C ^^ 0xFFFFFFFF).
Proof. intros. apply lxor_word_ok; [done..|by vm_compute]. Qed.

Lemma complement_twice C : (C ^^ 0xFFFFFFFF) ^^ 0xFFFFFFFF = C.
Proof. generalize 0xFFFFFFFF. intros m. lxor_solve. Qed.

Lemma crc32_eq_spec CRC Data :
  word_ok 32 CRC -> bytes_ok Data -> crc32 CRC Data = crc32_spec CRC Data.
Proof.
  intros HC HD. unfold crc32, crc32_spec. f_equal.
  eapply crc32_loops_spec; [done|by apply complement_word_ok|done].
Qed.

Lemma JamCRC_update_eq CRC Data :
  word_ok 32 CRC -> bytes_ok Data -> JamCRC_update CRC Data = crc_bytes CRC Data.
Proof.
  intros HC HD. unfold JamCRC_update.
  rewrite crc32_eq_spec by auto using complement_word_ok.
  unfold crc32_spec. by rewrite !complement_twice.
Qed.

(** ** Properties *)

(** C1: the slice-by-8 [crc32] of the patched build returns, for every data
    length and every previous checksum, the value of the bit-serial CRC-32 of
    polynomial 0xEDB88320. *)
Theorem crc32_slice_by_8_correct CRC Data :
  word_ok 32 CRC -> bytes_ok Data ->
  crc32 CRC Data =
  fold_left (fun C b => Nat.iter 8 crc_bit (C ^^ b)) Data (CRC ^^ 0xFFFFFFFF) ^^ 0xFFFFFFFF.
Proof. apply crc32_eq_spec. Qed.

(** "123456789", the standard check input, plus a tail: both loops run. *)
Lemma crc32_slice_by_8_correct_witness :
  let Data := [0x31; 0x32; 0x33; 0x34; 0x35; 0x36; 0x37; 0x38; 0x39] in
  word_ok 32 0 /\ bytes_ok Data /\ crc32 0 Data = 0xCBF43926 /\
  crc32 0 Data =
  fold_left (fun C b => Nat.iter 8 crc_bit (C ^^ b)) Data (0 ^^ 0xFFFFFFFF) ^^ 0xFFFFFFFF.
Proof.
  assert (HC : word_ok 32 0) by (unfold word_ok; lia).
  assert (HD : bytes_ok [0x31; 0x32; 0x33; 0x34; 0x35; 0x36; 0x37; 0x38; 0x39])
    by (repeat constructor; lia).
  split; [exact HC|]. split; [exact HD|]. split; [vm_compute; reflexivity|].
  exact (crc32_slice_by_8_correct 0 _ HC HD).
Defined.

(** Two data blocks of the same length that differ in one byte have
    different checksums, wherever the byte is and whichever loop reads it. *)
Theorem crc32_detects_byte_change CRC pre suf b b' :
  word_ok 32 CRC -> bytes_ok pre -> bytes_ok suf -> byte_ok b -> byte_ok b' ->
  b <> b' -> crc32 CRC (pre ++ b :: suf) <> crc32 CRC (pre ++ b' :: suf).
Proof.
  intros HC Hp Hs Hb Hb' Hne Heq. apply Hne. clear Hne.
  rewrite !crc32_eq_spec in Heq by (done || by apply Forall_app_2; [done|constructor]).
  apply (f_equal (fun z => z ^^ 0xFFFFFFFF)) in Heq. unfold crc32_spec in Heq.
  rewrite !complement_twice, !crc_bytes_app in Heq. simpl in Heq.
  set (s := crc_bytes (CRC ^^ 0xFFFFFFFF) pre) in *.
  assert (Hs0 : word_ok 32 s) by (apply crc_bytes_word_ok; auto using complement_word_ok).
  apply crc_bytes_inj in Heq; [|by apply crc_byte_word_ok..|done].
  apply crc_bits_inj in Heq; [|auto using lxor_word_ok, byte_word32 with lia..].
  assert (b = s ^^ (s ^^ b)) as -> by lxor_solve. rewrite Heq. lxor_solve.
Qed.

Lemma crc32_detects_byte_change_witness :
  crc32 7 ([1; 2; 3; 4] ++ 9 :: [5; 6; 7; 8; 9]) <>
  crc32 7 ([1; 2; 3; 4] ++ 8 :: [5; 6; 7; 8; 9]).
Proof.
  apply crc32_detects_byte_change;
    first [ unfold word_ok; lia | repeat constructor; lia | unfold byte_ok; lia | lia ].
Defined.

(** Feeding a [JamCRC] in two updates is one update with the
    concatenation, so a checksum does not depend on how a section's data is
    cut into blocks. *)
Theorem JamCRC_update_append CRC a b :
  word_ok 32 CRC -> bytes_ok a -> bytes_ok b ->
  JamCRC_update (JamCRC_update CRC a) b = JamCRC_update CRC (a ++ b).
Proof.
  intros HC Ha Hb. rewrite !JamCRC_update_eq; auto using Forall_app_2.
  - by rewrite crc_bytes_app.
  - rewrite JamCRC_update_eq by done. by apply crc_bytes_word_ok.
Qed.

Lemma JamCRC_update_append_witness :
  JamCRC_update (JamCRC_update 0xFFFFFFFF [0x31; 0x32; 0x33])
    [0x34; 0x35; 0x36; 0x37; 0x38; 0x39; 0x40; 0x41; 0x42] =
  JamCRC_update 0xFFFFFFFF ([0x31; 0x32; 0x33] ++
    [0x34; 0x35; 0x36; 0x37; 0x38; 0x39; 0x40; 0x41; 0x42]).
Proof.
  apply JamCRC_update_append; first [ unfold word_ok; lia | repeat constructor; lia ].
Defined.
