(* ===== verification/Reloc.v ===== *)
(** * Relocation application (lld/COFF/Chunks.cpp)

    The machine-dependent half of [SectionChunk]: the field updates, the four
    [applyRel*] switches, and the interface [RelocArch] through which the
    section writer uses them. *)

From S2P Require Import Prelude Memory.

(** ** Relocation types (llvm/BinaryFormat/COFF.h) *)

Definition IMAGE_REL_I386_ABSOLUTE := 0x0000.
Definition IMAGE_REL_I386_DIR32 := 0x0006.
Definition IMAGE_REL_I386_DIR32NB := 0x0007.
Definition IMAGE_REL_I386_SECTION := 0x000A.
Definition IMAGE_REL_I386_SECREL := 0x000B.
Definition IMAGE_REL_I386_REL32 := 0x0014.

Definition IMAGE_REL_AMD64_ADDR64 := 0x0001.
Definition IMAGE_REL_AMD64_ADDR32 := 0x0002.
Definition IMAGE_REL_AMD64_ADDR32NB := 0x0003.
Definition IMAGE_REL_AMD64_REL32 := 0x0004.
Definition IMAGE_REL_AMD64_REL32_1 := 0x0005.
Definition IMAGE_REL_AMD64_REL32_2 := 0x0006.
Definition IMAGE_REL_AMD64_REL32_3 := 0x0007.
Definition IMAGE_REL_AMD64_REL32_4 := 0x0008.
Definition IMAGE_REL_AMD64_REL32_5 := 0x0009.
Definition IMAGE_REL_AMD64_SECTION := 0x000A.
Definition IMAGE_REL_AMD64_SECREL := 0x000B.

Definition IMAGE_REL_ARM_ADDR32 := 0x0001.
Definition IMAGE_REL_ARM_ADDR32NB := 0x0002.
Definition IMAGE_REL_ARM_REL32 := 0x000A.
Definition IMAGE_REL_ARM_SECTION := 0x000E.
Definition IMAGE_REL_ARM_SECREL := 0x000F.
Definition IMAGE_REL_ARM_MOV32T := 0x0011.
Definition IMAGE_REL_ARM_BRANCH20T := 0x0012.
Definition IMAGE_REL_ARM_BRANCH24T := 0x0014.
Definition IMAGE_REL_ARM_BLX23T := 0x0015.

Definition IMAGE_REL_ARM64_ADDR32 := 0x0001.
Definition IMAGE_REL_ARM64_ADDR32NB := 0x0002.
Definition IMAGE_REL_ARM64_BRANCH26 := 0x0003.
Definition IMAGE_REL_ARM64_PAGEBASE_REL21 := 0x0004.
Definition IMAGE_REL_ARM64_REL21 := 0x0005.
Definition IMAGE_REL_ARM64_PAGEOFFSET_12A := 0x0006.
Definition IMAGE_REL_ARM64_PAGEOFFSET_12L := 0x0007.
Definition IMAGE_REL_ARM64_SECREL := 0x0008.
Definition IMAGE_REL_ARM64_SECREL_LOW12A := 0x0009.
Definition IMAGE_REL_ARM64_SECREL_HIGH12A := 0x000A.
Definition IMAGE_REL_ARM64_SECREL_LOW12L := 0x000B.
Definition IMAGE_REL_ARM64_SECTION := 0x000D.
Definition IMAGE_REL_ARM64_ADDR64 := 0x000E.
Definition IMAGE_REL_ARM64_BRANCH19 := 0x000F.
Definition IMAGE_REL_ARM64_BRANCH14 := 0x0010.
Definition IMAGE_REL_ARM64_REL32 := 0x0011.

Definition IMAGE_SCN_MEM_EXECUTE := 0x20000000.

(** ** State: the output buffer and the diagnostics of [error()] *)

Inductive reloc_error :=
  | UnsupportedType (type : Z)
  | SecRelAbsolute
  | SecRelOverflow
  | SecRelHigh12Overflow
  | UnexpectedMov (movt : bool)
  | OutOfRange
  | MisalignedLdrStr
  | BeyondSection
  | RelocToDiscarded (symIndex : nat).

Record rstate := { rmem : mem; errs : list reloc_error }.

Definition error (e : reloc_error) (st : rstate) : rstate :=
  {| rmem := rmem st; errs := errs st ++ [e] |}.
Definition on_mem (g : mem -> mem) (st : rstate) : rstate :=
  {| rmem := g (rmem st); errs := errs st |}.
Definition error_if (b : bool) (e : reloc_error) (st : rstate) : rstate :=
  if b then error e st else st.

(** What the code reads of the output section of the target. *)
Record OutputSection := { osRVA : Z; sectionIndex : Z; osCharacteristics : Z }.

(** What it reads of the section that is relocated and of the link. *)
Record reloc_ctx := { isCodeView : bool; numOutputSections : Z }.

(** ** Fields *)

Definition add16 (p v : Z) : rstate -> rstate :=
  on_mem (fun m => write16le m p (read16le m p + sext 16 v)).
Definition add32 (p v : Z) : rstate -> rstate :=
  on_mem (fun m => write32le m p (read32le m p + s32 v)).
Definition add64 (p v : Z) : rstate -> rstate :=
  on_mem (fun m => write64le m p (read64le m p + s64 v)).
Definition or16 (p v : Z) : rstate -> rstate :=
  on_mem (fun m => write16le m p (read16le m p ||| u16 v)).
Definition or32 (p v : Z) : rstate -> rstate :=
  on_mem (fun m => write32le m p (read32le m p ||| u32 v)).

(** [llvm::isInt<N>]. *)
Definition isInt (n v : Z) : bool := (- 2 ^ (n - 1) <=? v) && (v <? 2 ^ (n - 1)).

(** [checkSecRel]: the verdict, and the error it may report. *)
Definition checkSecRel (sec : reloc_ctx) (os : option OutputSection) : bool :=
  match os with Some _ => true | None => false end.
Definition checkSecRel_error (sec : reloc_ctx) (os : option OutputSection) : rstate -> rstate :=
  error_if (match os with Some _ => false | None => negb (isCodeView sec) end) SecRelAbsolute.

Definition applySecRel (sec : reloc_ctx) (off : Z) (os : option OutputSection) (s : Z)
    (st : rstate) : rstate :=
  match os with
  | None => checkSecRel_error sec None st
  | Some o =>
      let secRel := u64 (s - osRVA o) in
      if 2 ^ 32 - 1 <? secRel then error SecRelOverflow st else add32 off secRel st
  end.

Definition applySecIdx (off : Z) (os : option OutputSection) (numOutputSections : Z)
    : rstate -> rstate :=
  match os with
  | Some o => add16 off (sectionIndex o)
  | None => add16 off (numOutputSections + 1)
  end.

(** ** x86 *)

Definition applyRelX64 (sec : reloc_ctx) (off type : Z) (os : option OutputSection)
    (s p imageBase : Z) (st : rstate) : rstate :=
  if type =? IMAGE_REL_AMD64_ADDR32 then add32 off (s + imageBase) st
  else if type =? IMAGE_REL_AMD64_ADDR64 then add64 off (s + imageBase) st
  else if type =? IMAGE_REL_AMD64_ADDR32NB then add32 off s st
  else if type =? IMAGE_REL_AMD64_REL32 then add32 off (s - p - 4) st
  else if type =? IMAGE_REL_AMD64_REL32_1 then add32 off (s - p - 5) st
  else if type =? IMAGE_REL_AMD64_REL32_2 then add32 off (s - p - 6) st
  else if type =? IMAGE_REL_AMD64_REL32_3 then add32 off (s - p - 7) st
  else if type =? IMAGE_REL_AMD64_REL32_4 then add32 off (s - p - 8) st
  else if type =? IMAGE_REL_AMD64_REL32_5 then add32 off (s - p - 9) st
  else if type =? IMAGE_REL_AMD64_SECTION then applySecIdx off os (numOutputSections sec) st
  else if type =? IMAGE_REL_AMD64_SECREL then applySecRel sec off os s st
  else error (UnsupportedType type) st.

Definition applyRelX86 (sec : reloc_ctx) (off type : Z) (os : option OutputSection)
    (s p imageBase : Z) (st : rstate) : rstate :=
  if type =? IMAGE_REL_I386_ABSOLUTE then st
  else if type =? IMAGE_REL_I386_DIR32 then add32 off (s + imageBase) st
  else if type =? IMAGE_REL_I386_DIR32NB then add32 off s st
  else if type =? IMAGE_REL_I386_REL32 then add32 off (s - p - 4) st
  else if type =? IMAGE_REL_I386_SECTION then applySecIdx off os (numOutputSections sec) st
  else if type =? IMAGE_REL_I386_SECREL then applySecRel sec off os s st
  else error (UnsupportedType type) st.

(** ** ARM (Thumb-2) *)

Definition applyMOV (off v : Z) (st : rstate) : rstate :=
  let v := u16 v in
  let st := on_mem (fun m => write16le m off
    ((read16le m off &&& 0xfbf0) ||| ((v &&& 0x800) >>> 1) ||| ((v >>> 12) &&& 0xf))) st in
  on_mem (fun m => write16le m (off + 2)
    ((read16le m (off + 2) &&& 0x8f00) ||| ((v &&& 0x700) <<< 4) ||| (v &&& 0xff))) st.

(** [readMOV]: the immediate, and the errors for an unexpected opcode. *)
Definition readMOV (off : Z) (m : mem) : Z :=
  let op1 := read16le m off in
  let op2 := read16le m (off + 2) in
  u16 ((op2 &&& 0x00ff) ||| ((op2 >>> 4) &&& 0x0700) |||
       ((op1 <<< 1) &&& 0x0800) ||| ((op1 &&& 0x000f) <<< 12)).

Definition readMOV_error (off : Z) (movt : bool) (st : rstate) : rstate :=
  let op1 := read16le (rmem st) off in
  let op2 := read16le (rmem st) (off + 2) in
  let st := error_if (negb ((op1 &&& 0xfbf0) =? (if movt then 0xf2c0 else 0xf240)))
              (UnexpectedMov movt) st in
  error_if (negb ((op2 &&& 0x8000) =? 0)) (UnexpectedMov movt) st.

Definition applyMOV32T (off v : Z) (st : rstate) : rstate :=
  let immW := readMOV off (rmem st) in
  let st := readMOV_error off false st in
  let immT := readMOV (off + 4) (rmem st) in
  let st := readMOV_error (off + 4) true st in
  let imm := immW ||| (immT <<< 16) in
  let v := u32 (v + imm) in
  let st := applyMOV off v st in
  applyMOV (off + 4) (v >>> 16) st.

Definition applyBranch20T (off v : Z) (st : rstate) : rstate :=
  let v := s32 v in
  let st := error_if (negb (isInt 21 v)) OutOfRange st in
  let s := if v <? 0 then 1 else 0 in
  let j1 := (v >>> 19) &&& 1 in
  let j2 := (v >>> 18) &&& 1 in
  let st := or16 off ((s <<< 10) ||| ((v >>> 12) &&& 0x3f)) st in
  or16 (off + 2) ((j1 <<< 13) ||| (j2 <<< 11) ||| ((v >>> 1) &&& 0x7ff)) st.

Definition applyBranch24T (off v : Z) (st : rstate) : rstate :=
  let v := s32 v in
  let st := error_if (negb (isInt 25 v)) OutOfRange st in
  let s := if v <? 0 then 1 else 0 in
  let j1 := ((Z.lnot v >>> 23) &&& 1) ^^ s in
  let j2 := ((Z.lnot v >>> 22) &&& 1) ^^ s in
  let st := or16 off ((s <<< 10) ||| ((v >>> 12) &&& 0x3ff)) st in
  on_mem (fun m => write16le m (off + 2)
    ((read16le m (off + 2) &&& 0xd000) ||| (j1 <<< 13) ||| (j2 <<< 11) |||
     ((v >>> 1) &&& 0x7ff))) st.

Definition applyRelARM (sec : reloc_ctx) (off type : Z) (os : option OutputSection)
    (s p imageBase : Z) (st : rstate) : rstate :=
  let sx :=
    match os with
    | Some o => if (osCharacteristics o &&& IMAGE_SCN_MEM_EXECUTE) =? 0 then s else s ||| 1
    | None => s
    end in
  if type =? IMAGE_REL_ARM_ADDR32 then add32 off (sx + imageBase) st
  else if type =? IMAGE_REL_ARM_ADDR32NB then add32 off sx st
  else if type =? IMAGE_REL_ARM_MOV32T then applyMOV32T off (sx + imageBase) st
  else if type =? IMAGE_REL_ARM_BRANCH20T then applyBranch20T off (sx - p - 4) st
  else if type =? IMAGE_REL_ARM_BRANCH24T then applyBranch24T off (sx - p - 4) st
  else if type =? IMAGE_REL_ARM_BLX23T then applyBranch24T off (sx - p - 4) st
  else if type =? IMAGE_REL_ARM_SECTION then applySecIdx off os (numOutputSections sec) st
  else if type =? IMAGE_REL_ARM_SECREL then applySecRel sec off os s st
  else if type =? IMAGE_REL_ARM_REL32 then add32 off (sx - p - 4) st
  else error (UnsupportedType type) st.

(** ** ARM64 *)

(** The instruction word that replaces [orig], for each of the two
    immediate forms. *)
Definition arm64_addr_word (s p shift orig : Z) : Z :=
  let imm := sext 21 (((orig >>> 29) &&& 0x3) ||| ((orig >>> 3) &&& 0x1FFFFC)) in
  let s := u64 (s + imm) in
  let imm := s64 ((s >>> shift) - (p >>> shift)) in
  let immLo := u32 ((imm &&& 0x3) <<< 29) in
  let immHi := u32 ((imm &&& 0x1FFFFC) <<< 3) in
  let mask := (0x3 <<< 29) ||| (0x1FFFFC <<< 3) in
  (orig &&& Z.lnot mask) ||| immLo ||| immHi.

Definition arm64_imm_word (imm rangeLimit orig : Z) : Z :=
  let imm := u64 (imm + ((orig >>> 10) &&& 0xFFF)) in
  let orig := orig &&& Z.lnot (0xFFF <<< 10) in
  orig ||| ((imm &&& (0xFFF >>> rangeLimit)) <<< 10).

Definition applyArm64Addr (off s p shift : Z) : rstate -> rstate :=
  on_mem (fun m => write32le m off (arm64_addr_word s p shift (read32le m off))).

Definition applyArm64Imm (off imm rangeLimit : Z) : rstate -> rstate :=
  on_mem (fun m => write32le m off (arm64_imm_word imm rangeLimit (read32le m off))).

(** [size] of [applyArm64Ldr]: the scale of the load or store. *)
Definition ldr_size (orig : Z) : Z :=
  let size := orig >>> 30 in
  if (orig &&& 0x4800000) =? 0x4800000 then size + 4 else size.

Definition applyArm64Ldr (off imm : Z) (st : rstate) : rstate :=
  let size := ldr_size (read32le (rmem st) off) in
  let st := error_if (negb ((imm &&& ((1 <<< size) - 1)) =? 0)) MisalignedLdrStr st in
  applyArm64Imm off (imm >>> size) size st.

Definition applySecRelLow12A (sec : reloc_ctx) (off : Z) (os : option OutputSection) (s : Z)
    (st : rstate) : rstate :=
  match os with
  | None => checkSecRel_error sec None st
  | Some o => applyArm64Imm off (u64 (s - osRVA o) &&& 0xfff) 0 st
  end.

Definition applySecRelHigh12A (sec : reloc_ctx) (off : Z) (os : option OutputSection) (s : Z)
    (st : rstate) : rstate :=
  match os with
  | None => checkSecRel_error sec None st
  | Some o =>
      let orig := read32le (rmem st) off in
      let imm := (orig >>> 10) &&& 0xFFF in
      let orig := orig &&& Z.lnot (0xFFF <<< 10) in
      let imm := u64 (s + imm - osRVA o) >>> 12 in
      if 0xfff <? imm then error SecRelHigh12Overflow st
      else on_mem (fun m => write32le m off (orig ||| (imm <<< 10))) st
  end.

Definition applySecRelLdr (sec : reloc_ctx) (off : Z) (os : option OutputSection) (s : Z)
    (st : rstate) : rstate :=
  match os with
  | None => checkSecRel_error sec None st
  | Some o => applyArm64Ldr off (u64 (s - osRVA o) &&& 0xfff) st
  end.

Definition applyArm64Branch26 (off v : Z) (st : rstate) : rstate :=
  let v := s64 v in
  let st := error_if (negb (isInt 28 v)) OutOfRange st in
  or32 off ((v &&& 0x0FFFFFFC) >>> 2) st.

Definition applyArm64Branch19 (off v : Z) (st : rstate) : rstate :=
  let v := s64 v in
  let st := error_if (negb (isInt 21 v)) OutOfRange st in
  or32 off ((v &&& 0x001FFFFC) <<< 3) st.

Definition applyArm64Branch14 (off v : Z) (st : rstate) : rstate :=
  let v := s64 v in
  let st := error_if (negb (isInt 16 v)) OutOfRange st in
  or32 off ((v &&& 0x0000FFFC) <<< 3) st.

Definition applyRelARM64 (sec : reloc_ctx) (off type : Z) (os : option OutputSection)
    (s p imageBase : Z) (st : rstate) : rstate :=
  if type =? IMAGE_REL_ARM64_PAGEBASE_REL21 then applyArm64Addr off s p 12 st
  else if type =? IMAGE_REL_ARM64_REL21 then applyArm64Addr off s p 0 st
  else if type =? IMAGE_REL_ARM64_PAGEOFFSET_12A then applyArm64Imm off (s &&& 0xfff) 0 st
  else if type =? IMAGE_REL_ARM64_PAGEOFFSET_12L then applyArm64Ldr off (s &&& 0xfff) st
  else if type =? IMAGE_REL_ARM64_BRANCH26 then applyArm64Branch26 off (s - p) st
  else if type =? IMAGE_REL_ARM64_BRANCH19 then applyArm64Branch19 off (s - p) st
  else if type =? IMAGE_REL_ARM64_BRANCH14 then applyArm64Branch14 off (s - p) st
  else if type =? IMAGE_REL_ARM64_ADDR32 then add32 off (s + imageBase) st
  else if type =? IMAGE_REL_ARM64_ADDR32NB then add32 off s st
  else if type =? IMAGE_REL_ARM64_ADDR64 then add64 off (s + imageBase) st
  else if type =? IMAGE_REL_ARM64_SECREL then applySecRel sec off os s st
  else if type =? IMAGE_REL_ARM64_SECREL_LOW12A then applySecRelLow12A sec off os s st
  else if type =? IMAGE_REL_ARM64_SECREL_HIGH12A then applySecRelHigh12A sec off os s st
  else if type =? IMAGE_REL_ARM64_SECREL_LOW12L then applySecRelLdr sec off os s st
  else if type =? IMAGE_REL_ARM64_SECTION then applySecIdx off os (numOutputSections sec) st
  else if type =? IMAGE_REL_ARM64_REL32 then add32 off (s - p - 4) st
  else error (UnsupportedType type) st.

(** ** What an operation on one field may do

    [FieldOp w op]: at any address, [op] keeps every byte outside the [w]
    bytes at it, keeps bytes in range, and does to those bytes, and reports,
    something that depends on those bytes only. *)

Definition same_window (w : Z) (m : mem) (off : Z) (m' : mem) (off' : Z) : Prop :=
  forall k, 0 <= k < w -> m (off + k) = m' (off' + k).

Class FieldOp (w : Z) (op : Z -> rstate -> rstate) : Prop := {
  fo_frame off st a : a < off \/ off + w <= a -> rmem (op off st) a = rmem st a;
  fo_ok off st : mem_ok (rmem st) -> mem_ok (rmem (op off st));
  fo_local off off' st st' :
    same_window w (rmem st) off (rmem st') off' ->
    same_window w (rmem (op off st)) off (rmem (op off' st')) off' /\
    exists es, errs (op off st) = errs st ++ es /\ errs (op off' st') = errs st' ++ es
}.

(** A value read from the field. *)
Class FieldRead {A} (w : Z) (r : Z -> mem -> A) : Prop :=
  fr_local off off' m m' : same_window w m off m' off' -> r off m = r off' m'.

Create HintDb field discriminated.

Lemma read_field w n d : 0 <= d -> d + Z.of_nat n <= w ->
  FieldRead w (fun off m => read n m (off + d)).
Proof.
  intros Hd Hw off off' m m' H. apply read_ext. intros k Hk.
  rewrite <- !Z.add_assoc. apply H. lia.
Qed.

Lemma read_field0 w n : Z.of_nat n <= w -> FieldRead w (fun off m => read n m off).
Proof. intros Hw off off' m m' H. apply read_ext. intros k Hk. apply H. lia. Qed.

Lemma fieldop_id w : FieldOp w (fun _ st => st).
Proof. split; [done..|]. intros off off' st st' H. split; [done|]. exists []. by rewrite !app_nil_r. Qed.

Lemma fieldop_error_if w (b : Z -> mem -> bool) e :
  FieldRead w b -> FieldOp w (fun off st => error_if (b off (rmem st)) e st).
Proof.
  intros Hb. split.
  - intros. unfold error_if. by case_match.
  - intros. unfold error_if. by case_match.
  - intros off off' st st' H. rewrite (Hb _ _ _ _ H). unfold error_if.
    case_match; (split; [done|]); [by exists [e]|]. exists []. by rewrite !app_nil_r.
Qed.

Lemma fieldop_seq w f g : FieldOp w f -> FieldOp w g -> FieldOp w (fun off st => g off (f off st)).
Proof.
  intros Hf Hg. split.
  - intros off st a Ha. by rewrite (fo_frame (op := g)), (fo_frame (op := f)).
  - intros off st H. by apply (fo_ok (op := g)), (fo_ok (op := f)).
  - intros off off' st st' H.
    destruct (fo_local (op := f) _ _ _ _ H) as [H1 (es & E1 & E1')].
    destruct (fo_local (op := g) _ _ _ _ H1) as [H2 (es2 & E2 & E2')].
    split; [done|]. exists (es ++ es2). by rewrite E2, E2', E1, E1', !app_assoc.
Qed.

(** The rest of an operation may use values read from the field. *)
Lemma fieldop_bind {A} w (r : Z -> mem -> A) f :
  FieldRead w r -> (forall v, FieldOp w (f v)) ->
  FieldOp w (fun off st => f (r off (rmem st)) off st).
Proof.
  intros Hr Hf. split.
  - intros off st a Ha. by apply (fo_frame (op := f (r off (rmem st)))).
  - intros off st H. by apply (fo_ok (op := f (r off (rmem st)))).
  - intros off off' st st' H. rewrite (Hr _ _ _ _ H). by apply fo_local.
Qed.

Lemma fieldop_if w (b : bool) f g : FieldOp w f -> FieldOp w g ->
  FieldOp w (fun off st => if b then f off st else g off st).
Proof. by destruct b. Qed.

Lemma fieldop_write w n d v : 0 <= d -> d + Z.of_nat n <= w ->
  FieldOp w (fun off => on_mem (fun m => write n m (off + d) v)).
Proof.
  intros Hd Hw. split; simpl.
  - intros off st a Ha. apply write_other. lia.
  - intros off st H. by apply write_ok.
  - intros off off' st st' H. split.
    + intros k Hk.
      replace (off + k) with (off + d + (k - d)) by lia.
      replace (off' + k) with (off' + d + (k - d)) by lia.
      destruct (decide (0 <= k - d < Z.of_nat n)); [by rewrite !write_byte by lia|].
      rewrite !write_other by lia.
      replace (off + d + (k - d)) with (off + k) by lia.
      replace (off' + d + (k - d)) with (off' + k) by lia. by apply H.
    + exists []. by rewrite !app_nil_r.
Qed.

Lemma fieldop_write0 w n v : Z.of_nat n <= w ->
  FieldOp w (fun off => on_mem (fun m => write n m off v)).
Proof.
  intros Hw. pose proof (fieldop_write w n 0 v ltac:(lia) ltac:(lia)) as H.
  split.
  - intros off st a Ha. simpl. apply write_other. lia.
  - intros off st Hm. by apply write_ok.
  - intros off off' st st' Hs. pose proof (fo_local (op := fun off => on_mem _) _ _ _ _ Hs) as Hl.
    simpl in Hl. by rewrite !Z.add_0_r in Hl.
Qed.

Lemma fieldop_weaken w w' op : w <= w' -> FieldOp w op -> FieldOp w' op.
Proof.
  intros Hw Hop. split.
  - intros off st a Ha. apply (fo_frame (w := w)). lia.
  - apply fo_ok.
  - intros off off' st st' H.
    destruct (fo_local (op := op) off off' st st') as [H1 H2].
    { intros k Hk. apply H. lia. }
    split; [|done]. intros k Hk. destruct (decide (k < w)); [apply H1; lia|].
    rewrite !(fo_frame (w := w)) by lia. apply H. lia.
Qed.

(** A field rewritten as a function of its old value. *)
Lemma fieldop_modify w n (g : Z -> Z) d : 0 <= d -> d + Z.of_nat n <= w ->
  FieldOp w (fun off => on_mem (fun m => write n m (off + d) (g (read n m (off + d))))).
Proof.
  intros Hd Hw.
  apply (fieldop_bind w (fun off m => read n m (off + d))
    (fun v off => on_mem (fun m => write n m (off + d) (g v)))).
  - by apply read_field.
  - intros v. by apply fieldop_write.
Qed.

Lemma fieldop_modify0 w n (g : Z -> Z) : Z.of_nat n <= w ->
  FieldOp w (fun off => on_mem (fun m => write n m off (g (read n m off)))).
Proof.
  intros Hw.
  apply (fieldop_bind w (fun off m => read n m off)
    (fun v off => on_mem (fun m => write n m off (g v)))).
  - by apply read_field0.
  - intros v. by apply fieldop_write0.
Qed.

#[export] Hint Resolve fieldop_id fieldop_error_if fieldop_seq fieldop_if : field.

(** ** The field operations are field operations *)

Section FieldOps.
  Context (sec : reloc_ctx) (os : option OutputSection).

Lemma add16_field v : FieldOp 2 (fun off => add16 off v).
Proof. by apply (fieldop_modify0 2 2 (fun x => x + sext 16 v)). Qed.
Lemma add32_field v : FieldOp 4 (fun off => add32 off v).
Proof. by apply (fieldop_modify0 4 4 (fun x => x + s32 v)). Qed.
Lemma add64_field v : FieldOp 8 (fun off => add64 off v).
Proof. by apply (fieldop_modify0 8 8 (fun x => x + s64 v)). Qed.
Lemma or32_field v : FieldOp 4 (fun off => or32 off v).
Proof. by apply (fieldop_modify0 4 4 (fun x => x ||| u32 v)). Qed.
Lemma or16_field w d v : 0 <= d -> d + 2 <= w -> FieldOp w (fun off => or16 (off + d) v).
Proof. by apply (fieldop_modify w 2 (fun x => x ||| u16 v) d). Qed.
Lemma or16_field0 w v : 2 <= w -> FieldOp w (fun off => or16 off v).
Proof. by apply (fieldop_modify0 w 2 (fun x => x ||| u16 v)). Qed.

Lemma error_if_const_field w b e : FieldOp w (fun _ => error_if b e).
Proof. by apply (fieldop_error_if w (fun _ _ => b)). Qed.

Lemma error_field w e : FieldOp w (fun _ => error e).
Proof. apply (error_if_const_field w true e). Qed.

Lemma applySecRel_field s : FieldOp 4 (fun off => applySecRel sec off os s).
Proof.
  unfold applySecRel. destruct os as [o|]; [|apply error_if_const_field].
  destruct (_ <? _); [apply error_field|apply add32_field].
Qed.

Lemma applySecIdx_field n : FieldOp 2 (fun off => applySecIdx off os n).
Proof. unfold applySecIdx. destruct os; apply add16_field. Qed.

Lemma applyMOV_field d v : 0 <= d -> FieldOp (d + 4) (fun off => applyMOV (off + d) v).
Proof.
  intros Hd. unfold applyMOV. cbv zeta.
  apply (fieldop_seq _
    (fun off => on_mem (fun m => write16le m (off + d) (((read16le m (off + d) &&& 0xfbf0)
       ||| ((u16 v &&& 0x800) >>> 1)) ||| ((u16 v >>> 12) &&& 0xf))))
    (fun off => on_mem (fun m => write16le m (off + d + 2) (((read16le m (off + d + 2) &&& 0x8f00)
       ||| ((u16 v &&& 0x700) <<< 4)) ||| (u16 v &&& 0xff))))).
  - apply (fieldop_modify _ 2 (fun x => ((x &&& 0xfbf0) ||| ((u16 v &&& 0x800) >>> 1))
       ||| ((u16 v >>> 12) &&& 0xf))); lia.
  - pose proof (fieldop_modify (d + 4) 2 (fun x => ((x &&& 0x8f00) ||| ((u16 v &&& 0x700) <<< 4))
       ||| (u16 v &&& 0xff)) (d + 2) ltac:(lia) ltac:(lia)) as H.
    split.
    + intros off st a Ha. rewrite <- Z.add_assoc. by apply (fo_frame (FieldOp := H)).
    + intros off st Hm. rewrite <- Z.add_assoc. by apply (fo_ok (FieldOp := H)).
    + intros off off' st st' Hs. rewrite <- !Z.add_assoc. by apply (fo_local (FieldOp := H)).
Qed.

Lemma readMOV_field w d : 0 <= d -> d + 4 <= w -> FieldRead w (fun off m => readMOV (off + d) m).
Proof.
  intros Hd Hw off off' m m' H. unfold readMOV.
  rewrite (read_field w 2 d Hd ltac:(lia) _ _ _ _ H). rewrite <- !Z.add_assoc.
  by rewrite (read_field w 2 (d + 2) ltac:(lia) ltac:(lia) _ _ _ _ H).
Qed.

Lemma readMOV_error_field w d movt : 0 <= d -> d + 4 <= w ->
  FieldOp w (fun off => readMOV_error (off + d) movt).
Proof.
  intros Hd Hw. unfold readMOV_error. cbv zeta.
  apply (fieldop_bind w (fun off m => (read16le m (off + d), read16le m (off + d + 2)))
    (fun v (off : Z) st => error_if (negb ((v.2 &&& 0x8000) =? 0)) (UnexpectedMov movt)
       (error_if (negb ((v.1 &&& 0xfbf0) =? (if movt then 0xf2c0 else 0xf240)))
          (UnexpectedMov movt) st))).
  - intros off off' m m' H.
    rewrite (read_field w 2 d Hd ltac:(lia) _ _ _ _ H). rewrite <- !Z.add_assoc.
    by rewrite (read_field w 2 (d + 2) ltac:(lia) ltac:(lia) _ _ _ _ H).
  - intros v. apply (fieldop_seq _ (fun _ => error_if _ _) (fun _ => error_if _ _));
      apply error_if_const_field.
Qed.

(** Operations at [off] are operations at [off + 0]. *)
Lemma fieldop_shift0 w (op : Z -> rstate -> rstate) :
  FieldOp w (fun off => op (off + 0)) -> FieldOp w op.
Proof.
  intros H. split.
  - intros off st a Ha. pose proof (fo_frame (FieldOp := H) off st a Ha) as E.
    cbv beta in E. by rewrite Z.add_0_r in E.
  - intros off st Hm. pose proof (fo_ok (FieldOp := H) off st Hm) as E.
    cbv beta in E. by rewrite Z.add_0_r in E.
  - intros off off' st st' Hs. pose proof (fo_local (FieldOp := H) off off' st st' Hs) as E.
    cbv beta in E. by rewrite !Z.add_0_r in E.
Qed.

Lemma rmem_error_if b e st : rmem (error_if b e st) = rmem st.
Proof. unfold error_if. by case_match. Qed.

Lemma rmem_readMOV_error off movt st : rmem (readMOV_error off movt st) = rmem st.
Proof. unfold readMOV_error. by rewrite !rmem_error_if. Qed.

(** [applyMOV32T] with both immediates read before anything is written. *)
Lemma applyMOV32T_unfold off v st :
  applyMOV32T off v st =
  let v := u32 (v + (readMOV off (rmem st) ||| (readMOV (off + 4) (rmem st) <<< 16))) in
  applyMOV (off + 4) (v >>> 16)
    (applyMOV off v (readMOV_error (off + 4) true (readMOV_error off false st))).
Proof. unfold applyMOV32T. by rewrite rmem_readMOV_error. Qed.

Lemma applyMOV32T_field v : FieldOp 8 (fun off => applyMOV32T off v).
Proof.
  assert (H : FieldOp 8 (fun off st =>
    let v := u32 (v + (readMOV (off + 0) (rmem st) ||| (readMOV (off + 4) (rmem st) <<< 16))) in
    applyMOV (off + 4) (v >>> 16)
      (applyMOV (off + 0) v (readMOV_error (off + 4) true (readMOV_error (off + 0) false st))))).
  { apply (fieldop_bind 8 (fun off m => (readMOV (off + 0) m, readMOV (off + 4) m))
      (fun v0 off st => applyMOV (off + 4) (u32 (v + (v0.1 ||| (v0.2 <<< 16))) >>> 16)
        (applyMOV (off + 0) (u32 (v + (v0.1 ||| (v0.2 <<< 16))))
           (readMOV_error (off + 4) true (readMOV_error (off + 0) false st))))).
    - intros off off' m m' Hs.
      rewrite (readMOV_field 8 0 ltac:(lia) ltac:(lia) _ _ _ _ Hs).
      by rewrite (readMOV_field 8 4 ltac:(lia) ltac:(lia) _ _ _ _ Hs).
    - intros [iw it]. simpl.
      apply (fieldop_seq 8 (fun off st => applyMOV (off + 0) _ _)
        (fun off => applyMOV (off + 4) _)); [|by apply (applyMOV_field 4)].
      apply (fieldop_seq 8 (fun off st => readMOV_error _ _ _) (fun off => applyMOV (off + 0) _)).
      + apply (fieldop_seq 8 (fun off => readMOV_error (off + 0) false)
          (fun off => readMOV_error (off + 4) true)); by apply readMOV_error_field.
      + apply (fieldop_weaken 4); [done|]. by apply (applyMOV_field 0). }
  split.
  - intros off st a Ha. rewrite applyMOV32T_unfold.
    pose proof (fo_frame (FieldOp := H) off st a Ha) as E. cbv beta in E.
    by rewrite Z.add_0_r in E.
  - intros off st Hm. rewrite applyMOV32T_unfold.
    pose proof (fo_ok (FieldOp := H) off st Hm) as E. cbv beta in E.
    by rewrite Z.add_0_r in E.
  - intros off off' st st' Hs. rewrite !applyMOV32T_unfold.
    pose proof (fo_local (FieldOp := H) off off' st st' Hs) as E. cbv beta in E.
    by rewrite !Z.add_0_r in E.
Qed.

Lemma applyBranch20T_field v : FieldOp 4 (fun off => applyBranch20T off v).
Proof.
  unfold applyBranch20T. cbv zeta.
  apply (fieldop_seq 4 (fun off st => or16 off _ _) (fun off => or16 (off + 2) _));
    [|by apply or16_field].
  apply (fieldop_seq 4 (fun off => error_if _ _) (fun off => or16 off _));
    [apply error_if_const_field|by apply or16_field0].
Qed.

Lemma applyBranch24T_field v : FieldOp 4 (fun off => applyBranch24T off v).
Proof.
  unfold applyBranch24T. cbv zeta.
  apply (fieldop_seq 4 (fun off st => or16 off _ _) (fun off => on_mem (fun m =>
    write16le m (off + 2) ((read16le m (off + 2) &&& 0xd000) ||| _ ||| _ ||| _)))).
  - apply (fieldop_seq 4 (fun off => error_if _ _) (fun off => or16 off _));
      [apply error_if_const_field|by apply or16_field0].
  - by apply (fieldop_modify 4 2 (fun x => (x &&& 0xd000) ||| _ ||| _ ||| _)).
Qed.

Lemma applyArm64Addr_field s p shift : FieldOp 4 (fun off => applyArm64Addr off s p shift).
Proof. by apply (fieldop_modify0 4 4 (arm64_addr_word s p shift)). Qed.

Lemma applyArm64Imm_field imm l : FieldOp 4 (fun off => applyArm64Imm off imm l).
Proof. by apply (fieldop_modify0 4 4 (arm64_imm_word imm l)). Qed.

Lemma applyArm64Ldr_field imm : FieldOp 4 (fun off => applyArm64Ldr off imm).
Proof.
  unfold applyArm64Ldr. cbv zeta.
  apply (fieldop_bind 4 (fun off m => ldr_size (read32le m off))
    (fun size off st => applyArm64Imm off (imm >>> size) size
       (error_if (negb ((imm &&& ((1 <<< size) - 1)) =? 0)) MisalignedLdrStr st))).
  - intros off off' m m' H. f_equal. by apply (read_field0 4 4).
  - intros size. apply (fieldop_seq 4 (fun off => error_if _ _) (fun off => applyArm64Imm off _ _));
      [apply error_if_const_field|apply applyArm64Imm_field].
Qed.

Lemma applySecRelLow12A_field s : FieldOp 4 (fun off => applySecRelLow12A sec off os s).
Proof.
  unfold applySecRelLow12A. destruct os as [o|];
    [apply applyArm64Imm_field|apply error_if_const_field].
Qed.

Lemma applySecRelLdr_field s : FieldOp 4 (fun off => applySecRelLdr sec off os s).
Proof.
  unfold applySecRelLdr. destruct os as [o|];
    [apply applyArm64Ldr_field|apply error_if_const_field].
Qed.

Lemma applySecRelHigh12A_field s : FieldOp 4 (fun off => applySecRelHigh12A sec off os s).
Proof.
  unfold applySecRelHigh12A. destruct os as [o|]; [cbv zeta|apply error_if_const_field].
  apply (fieldop_bind 4 (fun off m => read32le m off)
    (fun orig off st =>
       if 0xfff <? u64 (s + ((orig >>> 10) &&& 0xFFF) - osRVA o) >>> 12
       then error SecRelHigh12Overflow st
       else on_mem (fun m => write32le m off ((orig &&& Z.lnot (0xFFF <<< 10)) |||
              ((u64 (s + ((orig >>> 10) &&& 0xFFF) - osRVA o) >>> 12) <<< 10))) st)).
  - by apply read_field0.
  - intros orig. apply fieldop_if; [apply error_field|by apply fieldop_write0].
Qed.

Lemma branch_field w b e (f : Z -> rstate -> rstate) :
  FieldOp w f -> FieldOp w (fun off st => f off (error_if b e st)).
Proof.
  intros Hf. apply (fieldop_seq w (fun off => error_if b e) f);
    [apply error_if_const_field|done].
Qed.

Lemma applyArm64Branch26_field v : FieldOp 4 (fun off => applyArm64Branch26 off v).
Proof.
  unfold applyArm64Branch26. cbv zeta. apply (branch_field _ _ _ (fun off => or32 off _)), or32_field.
Qed.
Lemma applyArm64Branch19_field v : FieldOp 4 (fun off => applyArm64Branch19 off v).
Proof.
  unfold applyArm64Branch19. cbv zeta. apply (branch_field _ _ _ (fun off => or32 off _)), or32_field.
Qed.
Lemma applyArm64Branch14_field v : FieldOp 4 (fun off => applyArm64Branch14 off v).
Proof.
  unfold applyArm64Branch14. cbv zeta. apply (branch_field _ _ _ (fun off => or32 off _)), or32_field.
Qed.

End FieldOps.

(** ** The interface of a machine

    [apply] is the [applyRel*] switch of the machine and [width] the size of
    the field a type touches; the law says that the switch touches that field
    only and depends on nothing else of the buffer.  The section writer
    (Section.v) is proved against this interface. *)

Class RelocArch := {
  apply : reloc_ctx -> Z -> Z -> option OutputSection -> Z -> Z -> Z -> rstate -> rstate;
  width : Z -> Z;
  width_range type : 2 <= width type <= 8;
  apply_field sec type os s p base :
    FieldOp (width type) (fun off => apply sec off type os s p base)
}.

Definition widthX64 (type : Z) : Z :=
  if type =? IMAGE_REL_AMD64_ADDR64 then 8
  else if type =? IMAGE_REL_AMD64_SECTION then 2 else 4.
Definition widthX86 (type : Z) : Z := if type =? IMAGE_REL_I386_SECTION then 2 else 4.
Definition widthARM (type : Z) : Z :=
  if type =? IMAGE_REL_ARM_MOV32T then 8
  else if type =? IMAGE_REL_ARM_SECTION then 2 else 4.
Definition widthARM64 (type : Z) : Z :=
  if type =? IMAGE_REL_ARM64_ADDR64 then 8
  else if type =? IMAGE_REL_ARM64_SECTION then 2 else 4.

(** Walk down a switch: each case is one of the field operations. *)
Ltac switch_field :=
  repeat match goal with
  | |- FieldOp _ (fun off st => if ?b then _ else _) =>
      let E := fresh "E" in destruct b eqn:E;
      [apply Z.eqb_eq in E; subst; cbv [widthX64 widthX86 widthARM widthARM64]; simpl|]
  end.

#[export] Hint Resolve add32_field add64_field applySecRel_field applySecIdx_field
  applyMOV32T_field applyBranch20T_field applyBranch24T_field applyArm64Addr_field
  applyArm64Imm_field applyArm64Ldr_field applyArm64Branch26_field
  applyArm64Branch19_field applyArm64Branch14_field applySecRelLow12A_field
  applySecRelHigh12A_field applySecRelLdr_field error_field : field.

Lemma applyRelX64_field sec type os s p base :
  FieldOp (widthX64 type) (fun off => applyRelX64 sec off type os s p base).
Proof. unfold applyRelX64. switch_field; eauto with field. Qed.

Lemma applyRelX86_field sec type os s p base :
  FieldOp (widthX86 type) (fun off => applyRelX86 sec off type os s p base).
Proof. unfold applyRelX86. switch_field; eauto with field. Qed.

Lemma applyRelARM_field sec type os s p base :
  FieldOp (widthARM type) (fun off => applyRelARM sec off type os s p base).
Proof. unfold applyRelARM. cbv zeta. switch_field; eauto with field. Qed.

Lemma applyRelARM64_field sec type os s p base :
  FieldOp (widthARM64 type) (fun off => applyRelARM64 sec off type os s p base).
Proof. unfold applyRelARM64. switch_field; eauto with field. Qed.

Ltac width_cases := intros; unfold widthX64, widthX86, widthARM, widthARM64;
  repeat case_match; lia.

Lemma widthX64_range type : 2 <= widthX64 type <= 8.
Proof. width_cases. Qed.
Lemma widthX86_range type : 2 <= widthX86 type <= 8.
Proof. width_cases. Qed.
Lemma widthARM_range type : 2 <= widthARM type <= 8.
Proof. width_cases. Qed.
Lemma widthARM64_range type : 2 <= widthARM64 type <= 8.
Proof. width_cases. Qed.

#[export] Instance archX64 : RelocArch :=
  {| apply := applyRelX64; width_range := widthX64_range; apply_field := applyRelX64_field |}.
#[export] Instance archX86 : RelocArch :=
  {| apply := applyRelX86; width_range := widthX86_range; apply_field := applyRelX86_field |}.
#[export] Instance archARM : RelocArch :=
  {| apply := applyRelARM; width_range := widthARM_range; apply_field := applyRelARM_field |}.
#[export] Instance archARM64 : RelocArch :=
  {| apply := applyRelARM64; width_range := widthARM64_range; apply_field := applyRelARM64_field |}.
