(* ===== verification/RelocProps.v ===== *)
(** * What the relocated fields mean

    Each theorem reads the field back the way the processor or the loader
    does: displacements, Thumb-2 MOVW/MOVT pairs and BL offsets, ARM64
    ADRP/ADD pairs and branch offsets. *)

From S2P Require Import Prelude Memory Reloc.

(** ** x86-64 *)

Lemma read_add32 off v st :
  read32le (rmem (add32 off v st)) off = u32 (read32le (rmem st) off + v).
Proof. cbn [add32 add64 add16 on_mem rmem]. rewrite read_write. by apply (wrap_add_sext_r 32). Qed.

Lemma read_add64 off v st :
  read64le (rmem (add64 off v st)) off = u64 (read64le (rmem st) off + v).
Proof. cbn [add32 add64 add16 on_mem rmem]. rewrite read_write. by apply (wrap_add_sext_r 64). Qed.

Lemma read_add16 off v st :
  read16le (rmem (add16 off v st)) off = u16 (read16le (rmem st) off + v).
Proof. cbn [add32 add64 add16 on_mem rmem]. rewrite read_write. by apply (wrap_add_sext_r 16). Qed.

(** The PE format's table for AMD64: the size of the field and the value added
    to it; [None] is a type the linker reports. *)
Definition amd64_value (sec : reloc_ctx) (os : option OutputSection) (s p base type : Z)
    : option (nat * Z) :=
  if (4 <=? type) && (type <=? 9) then Some (4%nat, s - (p + type))
  else if type =? 1 then Some (8%nat, s + base)
  else if type =? 2 then Some (4%nat, s + base)
  else if type =? 3 then Some (4%nat, s)
  else if type =? 10 then
    Some (2%nat, match os with Some o => sectionIndex o | None => numOutputSections sec + 1 end)
  else if type =? 11 then
    match os with
    | Some o => if u64 (s - osRVA o) <? 2 ^ 32 then Some (4%nat, u64 (s - osRVA o)) else None
    | None => None
    end
  else None.

(** The cases of a switch on [type] in [H], the relocation applied in each. *)
Ltac type_cases type H :=
  repeat match type of H with
  | context [type =? ?b] =>
      destruct (Z.eqb_spec type b) as [->|]; [unfold applyRelX64; simpl Z.eqb; cbv iota|]
  end.

Lemma applyRelX64_add sec off type os s p base st n v :
  amd64_value sec os s p base type = Some (n, v) ->
  read n (rmem (applyRelX64 sec off type os s p base st)) off =
    wrap (8 * Z.of_nat n) (read n (rmem st) off + v) /\
  errs (applyRelX64 sec off type os s p base st) = errs st.
Proof.
  unfold amd64_value. intros H.
  destruct (_ && _) eqn:Hr in H.
  { apply andb_true_iff in Hr as [H1 H2]. apply Z.leb_le in H1, H2. injection H as <- <-.
    assert (type = 4 \/ type = 5 \/ type = 6 \/ type = 7 \/ type = 8 \/ type = 9) as
      [->|[->|[->|[->|[->| ->]]]]] by lia; unfold applyRelX64; simpl Z.eqb; cbv iota;
      (split; [|done]); rewrite read_add32; apply wrap_eq; lia || (exists 0; lia). }
  type_cases type H; simplify_eq.
  - split; [apply read_add64|done].
  - split; [apply read_add32|done].
  - split; [apply read_add32|done].
  - unfold applySecIdx. destruct os; (split; [apply read_add16|done]).
  - destruct os as [o|]; [|done]. unfold applySecRel.
    destruct (Z.ltb_spec (u64 (s - osRVA o)) (2 ^ 32)); simplify_eq.
    rewrite (proj2 (Z.ltb_ge _ _)) by lia. split; [apply read_add32|done].
Qed.

(** What is reported for a type that has no value. *)
Definition amd64_errors (sec : reloc_ctx) (os : option OutputSection) (type : Z) : list reloc_error :=
  if type =? 11 then
    match os with
    | Some _ => [SecRelOverflow]
    | None => if isCodeView sec then [] else [SecRelAbsolute]
    end
  else [UnsupportedType type].

Lemma applyRelX64_error sec off type os s p base st :
  amd64_value sec os s p base type = None ->
  rmem (applyRelX64 sec off type os s p base st) = rmem st /\
  errs (applyRelX64 sec off type os s p base st) = errs st ++ amd64_errors sec os type.
Proof.
  unfold amd64_value, amd64_errors. intros H. destruct (_ && _) eqn:Hr in H; [done|].
  type_cases type H; simplify_eq.
  - destruct os as [o|]; unfold applySecRel, checkSecRel_error, error_if.
    + destruct (Z.ltb_spec (u64 (s - osRVA o)) (2 ^ 32)); simplify_eq.
      by rewrite (proj2 (Z.ltb_lt _ _)) by lia.
    + destruct (isCodeView sec); cbn; [by rewrite app_nil_r|done].
  - apply andb_false_iff in Hr. rewrite !Z.leb_gt in Hr.
    unfold applyRelX64, IMAGE_REL_AMD64_ADDR32, IMAGE_REL_AMD64_ADDR64, IMAGE_REL_AMD64_ADDR32NB,
      IMAGE_REL_AMD64_REL32, IMAGE_REL_AMD64_REL32_1, IMAGE_REL_AMD64_REL32_2,
      IMAGE_REL_AMD64_REL32_3, IMAGE_REL_AMD64_REL32_4, IMAGE_REL_AMD64_REL32_5,
      IMAGE_REL_AMD64_SECTION, IMAGE_REL_AMD64_SECREL.
    repeat (rewrite (proj2 (Z.eqb_neq type _)) by lia). done.
Qed.

(** ** Thumb-2 MOVW/MOVT pairs *)

(** The 32-bit immediate a MOVW/MOVT pair builds. *)
Definition mov32t_imm (off : Z) (m : mem) : Z := readMOV off m ||| (readMOV (off + 4) m <<< 16).

Lemma applyMOV_hw1 off v st :
  read16le (rmem (applyMOV off v st)) off =
  u16 ((read16le (rmem st) off &&& 0xfbf0) ||| ((u16 v &&& 0x800) >>> 1) ||| ((u16 v >>> 12) &&& 0xf)).
Proof.
  unfold applyMOV, on_mem; cbn [rmem]. rewrite read_write_other by lia. by rewrite read_write.
Qed.

Lemma applyMOV_hw2 off v st :
  read16le (rmem (applyMOV off v st)) (off + 2) =
  u16 ((read16le (rmem st) (off + 2) &&& 0x8f00) ||| ((u16 v &&& 0x700) <<< 4) ||| (u16 v &&& 0xff)).
Proof.
  unfold applyMOV, on_mem; cbn [rmem]. rewrite read_write. rewrite read_write_other by lia. done.
Qed.

Lemma readMOV_applyMOV off v st : readMOV off (rmem (applyMOV off v st)) = u16 v.
Proof.
  unfold readMOV. rewrite applyMOV_hw1, applyMOV_hw2.
  generalize (read16le (rmem st) off) (read16le (rmem st) (off + 2)). intros a b.
  apply wrap_bits; [lia|]. intros i Hi.
  each_bit i 16 ltac:(eval_bits; reflexivity).
Qed.

Lemma readMOV_word_ok off m : word_ok 16 (readMOV off m).
Proof. by apply wrap_ok. Qed.

Lemma readMOV_ext off off' m m' :
  same_window 4 m off m' off' -> readMOV off m = readMOV off' m'.
Proof.
  intros H. unfold readMOV.
  rewrite (read_field0 4 2 ltac:(lia) _ _ _ _ H).
  by rewrite (read_field 4 2 2 ltac:(lia) ltac:(lia) _ _ _ _ H).
Qed.

Lemma applyMOV_other off v st a :
  a < off \/ off + 4 <= a -> rmem (applyMOV off v st) a = rmem st a.
Proof.
  intros Ha. unfold applyMOV, on_mem; cbn [rmem]. rewrite !write_other by lia. done.
Qed.

Lemma half_words_join v :
  word_ok 32 v -> u16 v ||| (u16 (v >>> 16) <<< 16) = v.
Proof.
  intros Hv. rewrite <- (wrap_small 32 v Hv) at 3.
  apply Z.bits_inj'. intros i Hi. rewrite (testbit_wrap 32) by lia.
  rewrite Z.lor_spec, testbit_wrap by lia. rewrite Z.shiftl_spec by lia.
  destruct (Z.ltb_spec i 16), (Z.ltb_spec i 32); try lia; simpl.
  - by rewrite (Z.testbit_neg_r _ (i - 16)), orb_false_r by lia.
  - rewrite testbit_wrap, Z.shiftr_spec by lia.
    rewrite (proj2 (Z.ltb_lt _ _)) by lia. simpl. by replace (i - 16 + 16) with i by lia.
  - rewrite testbit_wrap by lia. by rewrite (proj2 (Z.ltb_ge _ _)) by lia.
Qed.

Lemma mov32t_imm_apply off v st :
  mov32t_imm off (rmem (applyMOV32T off v st)) = u32 (v + mov32t_imm off (rmem st)).
Proof.
  rewrite applyMOV32T_unfold. cbv zeta. fold (mov32t_imm off (rmem st)).
  set (x := u32 (v + mov32t_imm off (rmem st))).
  set (st0 := readMOV_error (off + 4) true _).
  unfold mov32t_imm at 1. rewrite readMOV_applyMOV.
  rewrite (readMOV_ext off off _ (rmem (applyMOV off x st0))).
  2: { intros k Hk. by rewrite applyMOV_other by lia. }
  rewrite readMOV_applyMOV. apply half_words_join. by apply wrap_ok.
Qed.

(** ** Thumb-2 BL and B.W *)

(** The byte offset a BL, BLX or B.W encoding (T4) branches by, relative to the
    address after the instruction: S:I1:I2:imm10:imm11:0 sign-extended, with
    I1 = NOT (J1 XOR S). *)
Definition thumb_branch_offset (hw1 hw2 : Z) : Z :=
  let S := (hw1 >>> 10) &&& 1 in
  let J1 := (hw2 >>> 13) &&& 1 in
  let J2 := (hw2 >>> 11) &&& 1 in
  let I1 := 1 ^^ (J1 ^^ S) in
  let I2 := 1 ^^ (J2 ^^ S) in
  sext 25 ((S <<< 24) ||| (I1 <<< 23) ||| (I2 <<< 22) |||
           ((hw1 &&& 0x3ff) <<< 12) ||| ((hw2 &&& 0x7ff) <<< 1)).

Lemma land_zero_bit a m i : a &&& m = 0 -> Z.testbit m i = true -> Z.testbit a i = false.
Proof.
  intros H Hm. apply (f_equal (fun z => Z.testbit z i)) in H.
  rewrite Z.land_spec, Hm, Z.bits_0, andb_true_r in H. done.
Qed.

Lemma thumb_branch24_bits a b v :
  a &&& 0x7ff = 0 -> - 2 ^ 24 <= v < 2 ^ 24 -> Z.testbit v 0 = false ->
  let s := Z.b2z (Z.testbit v 24) in
  let j1 := ((Z.lnot v >>> 23) &&& 1) ^^ s in
  let j2 := ((Z.lnot v >>> 22) &&& 1) ^^ s in
  thumb_branch_offset (u16 (a ||| u16 ((s <<< 10) ||| ((v >>> 12) &&& 0x3ff))))
    (u16 ((b &&& 0xd000) ||| (j1 <<< 13) ||| (j2 <<< 11) ||| ((v >>> 1) &&& 0x7ff))) = v.
Proof.
  intros Ha Hv H0. cbv zeta. apply sext_unique; [lia|done|].
  apply wrap_bits; [lia|]. intros i Hi.
  assert (Hz : forall k, Z.testbit 0x7ff k = true -> Z.testbit a k = false)
    by (intros k; by apply land_zero_bit).
  each_bit i 25 ltac:(eval_bits;
    repeat match goal with
    | |- context [Z.testbit a ?k] => rewrite (Hz k) by reflexivity
    end; rewrite ?H0; btauto).
Qed.

(** ** ARM64 immediates *)

(** The 21-bit immediate of ADR and ADRP: immhi:immlo, sign-extended. *)
Definition adr_imm (w : Z) : Z :=
  sext 21 (((w >>> 29) &&& 0x3) ||| ((w >>> 3) &&& 0x1FFFFC)).

(** What ADRP computes at address [pc]. *)
Definition adrp_value (pc w : Z) : Z := ((pc >>> 12) + adr_imm w) <<< 12.

(** The 12-bit immediate of ADD, LDR and STR (immediate). *)
Definition imm12 (w : Z) : Z := (w >>> 10) &&& 0xfff.

Lemma isInt_range n v : isInt n v = true <-> - 2 ^ (n - 1) <= v < 2 ^ (n - 1).
Proof. unfold isInt. rewrite andb_true_iff, Z.leb_le, Z.ltb_lt. lia. Qed.

Lemma adr_imm_word orig imm :
  - 2 ^ 20 <= imm < 2 ^ 20 ->
  adr_imm (u32 ((orig &&& Z.lnot ((0x3 <<< 29) ||| (0x1FFFFC <<< 3))) |||
    u32 ((imm &&& 0x3) <<< 29) ||| u32 ((imm &&& 0x1FFFFC) <<< 3))) = imm.
Proof.
  intros Hv. apply sext_unique; [lia|done|]. apply wrap_bits; [lia|]. intros i Hi.
  each_bit i 21 ltac:(eval_bits; reflexivity).
Qed.

(** [applyArm64Addr] on an ADR(P): the new immediate is the distance, in units
    of [2 ^ shift], from the place to the symbol plus the old immediate. *)
Lemma adr_imm_apply off s p shift st :
  let imm := s64 ((u64 (s + adr_imm (read32le (rmem st) off)) >>> shift) - (p >>> shift)) in
  isInt 21 imm = true ->
  adr_imm (read32le (rmem (applyArm64Addr off s p shift st)) off) = imm.
Proof.
  intros imm Hi. apply isInt_range in Hi. simpl in Hi.
  unfold applyArm64Addr, on_mem; cbn [rmem]. rewrite read_write. unfold arm64_addr_word.
  cbv zeta. fold (adr_imm (read32le (rmem st) off)). fold imm. by apply (adr_imm_word _ imm).
Qed.

Lemma imm12_word imm orig :
  imm12 (u32 (arm64_imm_word imm 0 orig)) = wrap 12 (imm + imm12 orig).
Proof.
  unfold arm64_imm_word. cbv zeta. fold (imm12 orig).
  rewrite <- (wrap_wrap_le 12 64 (imm + imm12 orig)) by lia.
  generalize (u64 (imm + imm12 orig)). intros x.
  assert (E : wrap 12 x = x &&& 0xfff).
  { unfold wrap. change 0xfff with (Z.ones 12). by rewrite Z.land_ones. }
  rewrite E. apply Z.bits_inj'. intros i Hi. unfold imm12.
  destruct (Z.ltb_spec i 12) as [Hl|Hg].
  - assert (H : 0 <= i < 12) by lia. clear Hi Hl.
    each_bit i 12 ltac:(eval_bits; reflexivity).
  - rewrite !Z.land_spec. by rewrite (testbit_high 12 0xfff i), !andb_false_r by (by vm_compute || lia).
Qed.

Lemma imm12_apply off imm st :
  imm12 (read32le (rmem (applyArm64Imm off imm 0 st)) off) =
  wrap 12 (imm + imm12 (read32le (rmem st) off)).
Proof.
  unfold applyArm64Imm, on_mem; cbn [rmem]. rewrite read_write. apply imm12_word.
Qed.

(** The opcode and register fields of the two forms are kept. *)
Lemma imm12_opcode off imm st k :
  0 <= k < 10 \/ 22 <= k < 32 ->
  Z.testbit (read32le (rmem (applyArm64Imm off imm 0 st)) off) k =
  Z.testbit (read32le (rmem st) off) k.
Proof.
  intros Hk. unfold applyArm64Imm, on_mem; cbn [rmem]. rewrite read_write.
  generalize (read32le (rmem st) off). intros orig. unfold arm64_imm_word. cbv zeta.
  generalize (u64 (imm + ((orig >>> 10) &&& 0xFFF))). intros x.
  assert (H : 0 <= k < 32) by lia.
  each_bit k 32 ltac:(first [exfalso; lia | eval_bits; reflexivity]).
Qed.

(** Branches (B, BL): imm26 words, sign-extended. *)
Definition branch26_offset (w : Z) : Z := sext 28 ((w &&& 0x03FFFFFF) <<< 2).

Lemma branch26_word a v :
  a &&& 0x03FFFFFF = 0 -> - 2 ^ 27 <= v < 2 ^ 27 -> v mod 4 = 0 ->
  branch26_offset (u32 (a ||| u32 ((v &&& 0x0FFFFFFC) >>> 2))) = v.
Proof.
  intros Ha Hv H4. apply sext_unique; [lia|done|]. apply wrap_bits; [lia|]. intros i Hi.
  assert (Hz : forall k, Z.testbit 0x03FFFFFF k = true -> Z.testbit a k = false)
    by (intros k; by apply land_zero_bit).
  assert (H0 : Z.testbit v 0 = false) by (rewrite <- Z.mod_pow2_bits_low with (n := 2) by lia;
    change (2 ^ 2) with 4; by rewrite H4, Z.bits_0).
  assert (H1 : Z.testbit v 1 = false) by (rewrite <- Z.mod_pow2_bits_low with (n := 2) by lia;
    change (2 ^ 2) with 4; by rewrite H4, Z.bits_0).
  each_bit i 28 ltac:(eval_bits;
    repeat match goal with
    | |- context [Z.testbit a ?k] => rewrite (Hz k) by reflexivity
    end; rewrite ?H0, ?H1; reflexivity).
Qed.

Lemma sext_small w v : 0 < w -> - 2 ^ (w - 1) <= v < 2 ^ (w - 1) -> sext w v = v.
Proof. intros Hw Hv. by apply sext_unique. Qed.

Lemma applyBranch24T_value off v st :
  read16le (rmem st) off &&& 0x7ff = 0 -> isInt 25 v = true -> v mod 2 = 0 ->
  thumb_branch_offset (read16le (rmem (applyBranch24T off v st)) off)
    (read16le (rmem (applyBranch24T off v st)) (off + 2)) = v /\
  errs (applyBranch24T off v st) = errs st.
Proof.
  intros Ha Hi H2. pose proof (proj1 (isInt_range 25 v) Hi) as Hv. simpl in Hv.
  unfold applyBranch24T. cbv zeta. rewrite (sext_small 32 v) by (simpl; lia).
  rewrite Hi. simpl error_if. unfold or16, on_mem; cbn [rmem errs]. split; [|done].
  rewrite (read_write_other 2 2 _ (off + 2) off) by lia.
  rewrite (read_write_other 2 2 _ off (off + 2)) by lia. rewrite !read_write.
  rewrite (sign_bit 24 v) by (simpl; lia).
  apply thumb_branch24_bits; [done|simpl; lia|].
  rewrite <- Z.mod_pow2_bits_low with (n := 1) by lia. change (2 ^ 1) with 2.
  by rewrite H2, Z.bits_0.
Qed.

(** ** Properties *)

(** C10: every AMD64 relocation type has the effect the PE format prescribes:
    the field, read back, is the old field plus the type's value, truncated to
    the field's size (for REL32 and REL32_1 to REL32_5 the displacement from
    the end of the instruction), and nothing is reported. In the other cases no
    byte changes and the error is reported: an unsupported type, and for SECREL an
    offset of more than 32 bits or an absolute symbol, which only debug sections
    may have. *)
Theorem amd64_relocation_value sec off type os s p base st :
  match amd64_value sec os s p base type with
  | Some (n, v) =>
      read n (rmem (applyRelX64 sec off type os s p base st)) off =
        wrap (8 * Z.of_nat n) (read n (rmem st) off + v) /\
      errs (applyRelX64 sec off type os s p base st) = errs st
  | None =>
      rmem (applyRelX64 sec off type os s p base st) = rmem st /\
      errs (applyRelX64 sec off type os s p base st) = errs st ++ amd64_errors sec os type
  end.
Proof.
  destruct (amd64_value sec os s p base type) as [[n v]|] eqn:E.
  - by apply applyRelX64_add.
  - by apply applyRelX64_error.
Qed.

(** A MOV32T relocation adds its value to the 32-bit immediate of the
    MOVW/MOVT pair modulo 2^32, and keeps both opcodes, so a valid pair stays a
    valid pair. *)
Theorem mov32t_relocation_value off v st :
  mov32t_imm off (rmem (applyMOV32T off v st)) = u32 (v + mov32t_imm off (rmem st)) /\
  forall d k, d = 0 \/ d = 4 -> Z.testbit 0xfbf0 k = true ->
  Z.testbit (read16le (rmem (applyMOV32T off v st)) (off + d)) k =
  Z.testbit (read16le (rmem st) (off + d)) k.
Proof.
  split; [apply mov32t_imm_apply|]. intros d k Hd Hk.
  assert (Hr : 0 <= k < 16).
  { destruct (decide (k < 0)); [by rewrite Z.testbit_neg_r in Hk by lia|].
    destruct (decide (k < 16)); [lia|].
    by rewrite (testbit_high 16) in Hk by (unfold word_ok; lia). }
  rewrite applyMOV32T_unfold. cbv zeta.
  set (x := u32 _). set (st0 := readMOV_error (off + 4) true _).
  assert (Hm : rmem st0 = rmem st) by (unfold st0; by rewrite !rmem_readMOV_error).
  destruct Hd as [-> | ->]; rewrite ?Z.add_0_r.
  - rewrite (read_ext 2 _ (rmem (applyMOV off x st0)) off off).
    2: { intros j Hj. by rewrite applyMOV_other by lia. }
    rewrite applyMOV_hw1, Hm. revert Hk.
    each_bit k 16 ltac:(intros Hk; first [vm_compute in Hk; discriminate | eval_bits; reflexivity]).
  - rewrite applyMOV_hw1. rewrite (read_ext 2 _ (rmem st) (off + 4) (off + 4)).
    2: { intros j Hj. rewrite applyMOV_other by lia. by rewrite Hm. }
    revert Hk.
    each_bit k 16 ltac:(intros Hk; first [vm_compute in Hk; discriminate | eval_bits; reflexivity]).
Qed.

(** A BRANCH24T relocation on a BL, BLX or B.W whose offset field is empty
    encodes exactly the distance to the target when it is even and in the
    25-bit range, without a report; outside the range it is reported. *)
Theorem thumb_branch24_correct off v st :
  read16le (rmem st) off &&& 0x7ff = 0 -> v mod 2 = 0 -> - 2 ^ 31 <= v < 2 ^ 31 ->
  if isInt 25 v then
    thumb_branch_offset (read16le (rmem (applyBranch24T off v st)) off)
      (read16le (rmem (applyBranch24T off v st)) (off + 2)) = v /\
    errs (applyBranch24T off v st) = errs st
  else errs (applyBranch24T off v st) = errs st ++ [OutOfRange].
Proof.
  intros Ha H2 Hv. destruct (isInt 25 v) eqn:Hi; [by apply applyBranch24T_value|].
  unfold applyBranch24T. cbv zeta. rewrite (sext_small 32 v) by (simpl; lia).
  by rewrite Hi.
Qed.

(** A BL with an empty field, to a target 0x123456 bytes back. *)
Lemma thumb_branch24_correct_witness :
  let st := {| rmem := write32le (fun _ => 0) 0x1000 0xf800f000; errs := [] |} in
  thumb_branch_offset (read16le (rmem (applyBranch24T 0x1000 (-0x123456) st)) 0x1000)
    (read16le (rmem (applyBranch24T 0x1000 (-0x123456) st)) (0x1000 + 2)) = -0x123456 /\
  errs (applyBranch24T 0x1000 (-0x123456) st) = errs st.
Proof.
  apply (thumb_branch24_correct 0x1000 (-0x123456)
    {| rmem := write32le (fun _ => 0) 0x1000 0xf800f000; errs := [] |});
    [vm_compute; reflexivity|reflexivity|split; vm_compute; [discriminate|reflexivity]].
Defined.

(** A PAGEBASE_REL21 relocation makes ADRP compute the 4 KiB page of the
    symbol plus the instruction's old immediate, for every place and symbol
    inside the 4 GB range of the instruction. *)
Theorem arm64_adrp_page off s p st :
  let a := adr_imm (read32le (rmem st) off) in
  0 <= s + a < 2 ^ 32 -> 0 <= p < 2 ^ 32 ->
  adrp_value p (read32le (rmem (applyArm64Addr off s p 12 st)) off) = ((s + a) >>> 12) <<< 12.
Proof.
  intros a Hs Hp. unfold adrp_value.
  assert (Hd : s64 ((u64 (s + a) >>> 12) - (p >>> 12)) = ((s + a) >>> 12) - (p >>> 12)).
  { rewrite (wrap_small 64) by (unfold word_ok; lia). apply sext_small; [lia|].
    rewrite !Z.shiftr_div_pow2 by lia. simpl. Z.div_mod_to_equations. lia. }
  rewrite adr_imm_apply; fold a; rewrite Hd; [f_equal; lia|].
  apply isInt_range. rewrite !Z.shiftr_div_pow2 by lia. simpl. Z.div_mod_to_equations. lia.
Qed.

(** ADRP x16 with an addend of 5 pages' worth of bytes. *)
Lemma arm64_adrp_page_witness :
  let st := {| rmem := write32le (fun _ => 0) 0 0x90000010; errs := [] |} in
  adrp_value 0x5000 (read32le (rmem (applyArm64Addr 0 0x12345678 0x5000 12 st)) 0) =
  ((0x12345678 + adr_imm (read32le (rmem st) 0)) >>> 12) <<< 12.
Proof.
  apply (arm64_adrp_page 0 0x12345678 0x5000
    {| rmem := write32le (fun _ => 0) 0 0x90000010; errs := [] |}).
  - split; vm_compute; [discriminate|reflexivity].
  - split; vm_compute; [discriminate|reflexivity].
Defined.
