(* ===== verification/SectionChunk.v ===== *)
(** * Writing sections (lld/COFF/Chunks.cpp, [SectionChunk])

    How a section's contents are copied to the output and relocated, as a
    whole and subsection by subsection, for any machine that implements
    [RelocArch]; and the machine-independent operations on its relocations and
    associated sections. *)

From S2P Require Import Prelude Memory Reloc.

(** ** Data *)

Record coff_relocation := { VirtualAddress : Z; SymbolTableIndex : nat; Type_ : Z }.

(** What [applyRelocation] reads of a defined symbol: its RVA, the output
    section of its chunk if it has one, and whether it is one of the two kinds
    that need none. *)
Record Defined := {
  symRVA : Z;
  symOutputSection : option OutputSection;
  isAbsolute : bool;
  isSynthetic : bool
}.

(** The fields of a section the writer reads; [getSymbol] is null or undefined
    where it answers [None]. *)
Record SectionChunk := {
  hasData : bool;
  contents : list Z;
  SizeOfRawData : Z;
  rva : Z;
  relocs : list coff_relocation;
  getSymbol : nat -> option Defined;
  sc_isCodeView : bool;
  sc_isDWARF : bool
}.

(** Link-wide settings. *)
Record link_cfg := { imageBase : Z; mingw : bool; outputSections_size : Z }.

Section Writer.
  Context {A : RelocArch} (cfg : link_cfg) (sc : SectionChunk).

Definition ctx_of : reloc_ctx :=
  {| isCodeView := sc_isCodeView sc; numOutputSections := outputSections_size cfg |}.

(** ** Relocating *)

Definition maybeReportRelocationToDiscarded (rel : coff_relocation) : rstate -> rstate :=
  error_if (negb (sc_isCodeView sc || sc_isDWARF sc || mingw cfg))
    (RelocToDiscarded (SymbolTableIndex rel)).

Definition applyRelocation (rel : coff_relocation) (off : Z) (st : rstate) : rstate :=
  match getSymbol sc (SymbolTableIndex rel) with
  | None => maybeReportRelocationToDiscarded rel st
  | Some sym =>
      if bool_decide (symOutputSection sym = None) && negb (isAbsolute sym) &&
         negb (isSynthetic sym)
      then maybeReportRelocationToDiscarded rel st
      else
        let p := u32 (rva sc + VirtualAddress rel) in
        apply ctx_of off (Type_ rel) (symOutputSection sym) (symRVA sym) p (imageBase cfg) st
  end.

(** The relocation loop of [writeTo]. *)
Definition write_reloc (buf : Z) (st : rstate) (rel : coff_relocation) : rstate :=
  if SizeOfRawData sc <=? VirtualAddress rel then error BeyondSection st
  else applyRelocation rel (buf + VirtualAddress rel) st.

Definition writeTo (buf : Z) (st : rstate) : rstate :=
  if negb (hasData sc) then st
  else
    let st := on_mem (fun m => memcpy m buf (contents sc)) st in
    fold_left (write_reloc buf) (relocs sc) st.

(** The loop of [writeAndRelocateSubsection] from the relocations that are
    left; the count is how many of them it passed. *)
Fixpoint relocate_subsection (vaBegin vaEnd buf : Z) (rels : list coff_relocation)
    (st : rstate) : nat * rstate :=
  match rels with
  | [] => (O, st)
  | rel :: rels =>
      if VirtualAddress rel <? vaBegin then
        let '(n, st) := relocate_subsection vaBegin vaEnd buf rels st in (S n, st)
      else if vaEnd <=? u32 (VirtualAddress rel + 1) then (O, st)
      else
        let st := applyRelocation rel (buf + (VirtualAddress rel - vaBegin)) st in
        let '(n, st) := relocate_subsection vaBegin vaEnd buf rels st in (S n, st)
  end.

(** [writeAndRelocateSubsection] for the bytes [vaBegin, vaEnd) of the
    section: the new [nextRelocIndex] and the output. *)
Definition writeAndRelocateSubsection (vaBegin vaEnd : Z) (nextRelocIndex : nat) (buf : Z)
    (st : rstate) : nat * rstate :=
  let subsec := take (Z.to_nat (vaEnd - vaBegin)) (drop (Z.to_nat vaBegin) (contents sc)) in
  let st := on_mem (fun m => memcpy m buf subsec) st in
  let '(n, st) := relocate_subsection vaBegin vaEnd buf (drop nextRelocIndex (relocs sc)) st in
  ((nextRelocIndex + n)%nat, st).

(** ** One relocation is one field operation *)

Lemma applyRelocation_field rel :
  FieldOp (width (Type_ rel)) (fun off => applyRelocation rel off).
Proof.
  unfold applyRelocation, maybeReportRelocationToDiscarded.
  destruct (getSymbol sc (SymbolTableIndex rel)) as [sym|]; [|apply error_if_const_field].
  case_match; [apply error_if_const_field|]. apply apply_field.
Qed.

Definition rel_end (rel : coff_relocation) : Z := VirtualAddress rel + width (Type_ rel).

Lemma write_reloc_frame buf st rel a :
  a < buf + VirtualAddress rel \/ buf + rel_end rel <= a ->
  rmem (write_reloc buf st rel) a = rmem st a.
Proof.
  intros Ha. unfold write_reloc. case_match; [done|].
  apply (fo_frame (op := fun off => applyRelocation rel off)
    (FieldOp := applyRelocation_field rel)). unfold rel_end in Ha. lia.
Qed.

Lemma fold_write_reloc_frame buf rels st a :
  Forall (fun rel => a < buf + VirtualAddress rel \/ buf + rel_end rel <= a) rels ->
  rmem (fold_left (write_reloc buf) rels st) a = rmem st a.
Proof.
  intros H. revert st. induction H as [|rel rels Hr _ IH]; intros st; [done|].
  simpl. rewrite IH. by apply write_reloc_frame.
Qed.

Lemma write_reloc_ok buf st rel : mem_ok (rmem st) -> mem_ok (rmem (write_reloc buf st rel)).
Proof.
  intros Hm. unfold write_reloc. case_match; [done|].
  by apply (fo_ok (FieldOp := applyRelocation_field rel)).
Qed.

Lemma writeTo_ok buf st :
  mem_ok (rmem st) -> bytes_ok (contents sc) -> mem_ok (rmem (writeTo buf st)).
Proof.
  intros Hm Hc. unfold writeTo. case_match; [done|].
  assert (H0 : mem_ok (rmem (on_mem (fun m => memcpy m buf (contents sc)) st)))
    by by apply memcpy_ok.
  revert H0. generalize (on_mem (fun m => memcpy m buf (contents sc)) st).
  induction (relocs sc) as [|rel rels IH]; intros st' H0; [done|].
  apply IH. by apply write_reloc_ok.
Qed.

(** ** A subsection is relocated like the section *)

(** [VirtualAddress + 1] is computed in 32 bits. *)
Definition va_ok (rel : coff_relocation) : Prop := 0 <= VirtualAddress rel < 2 ^ 32 - 1.

Lemma u32_succ_va rel : va_ok rel -> u32 (VirtualAddress rel + 1) = VirtualAddress rel + 1.
Proof. intros H. apply wrap_small. unfold va_ok, word_ok in *. lia. Qed.

(** The window of the section in the full output and the copy of it elsewhere
    stay equal when the same relocations, all inside it, are applied to both. *)
Lemma relocate_window vaBegin vaEnd buf0 buf rels st st' :
  vaEnd <= SizeOfRawData sc ->
  Forall va_ok rels ->
  Forall (fun rel => vaBegin <= VirtualAddress rel /\ rel_end rel <= vaEnd) rels ->
  same_window (vaEnd - vaBegin) (rmem st) (buf0 + vaBegin) (rmem st') buf ->
  exists st2,
    (forall rest, relocate_subsection vaBegin vaEnd buf (rels ++ rest) st' =
       let '(n, s) := relocate_subsection vaBegin vaEnd buf rest st2 in
       ((length rels + n)%nat, s)) /\
    same_window (vaEnd - vaBegin) (rmem (fold_left (write_reloc buf0) rels st)) (buf0 + vaBegin)
      (rmem st2) buf.
Proof.
  intros Hsize Hva Hrels. revert st st' Hva.
  induction Hrels as [|rel rels [Hb He] _ IH]; intros st st' Hva Hw.
  { exists st'. split; [|done]. intros rest. simpl. by destruct (relocate_subsection _ _ _ rest _). }
  apply Forall_cons in Hva as [Hva1 Hva].
  pose proof (width_range (Type_ rel)) as Hwd. unfold rel_end in He.
  set (off' := buf + (VirtualAddress rel - vaBegin)).
  set (st1 := applyRelocation rel off' st').
  destruct (IH (write_reloc buf0 st rel) st1 Hva) as (st2 & Hrun & Hw2).
  { assert (E : write_reloc buf0 st rel = applyRelocation rel (buf0 + VirtualAddress rel) st).
    { unfold write_reloc. by rewrite (proj2 (Z.leb_gt _ _)) by lia. }
    rewrite E. pose proof (applyRelocation_field rel) as HF.
    destruct (fo_local (FieldOp := HF) (buf0 + VirtualAddress rel) off' st st') as [Hl _].
    { intros k Hk. unfold off'.
      replace (buf0 + VirtualAddress rel + k) with (buf0 + vaBegin + (VirtualAddress rel - vaBegin + k)) by lia.
      replace (buf + (VirtualAddress rel - vaBegin) + k) with (buf + (VirtualAddress rel - vaBegin + k)) by lia.
      apply Hw. lia. }
    intros k Hk. unfold st1.
    destruct (decide (VirtualAddress rel <= vaBegin + k < VirtualAddress rel + width (Type_ rel))).
    - specialize (Hl (vaBegin + k - VirtualAddress rel) ltac:(lia)). unfold off' in Hl.
      replace (buf0 + VirtualAddress rel + (vaBegin + k - VirtualAddress rel)) with (buf0 + vaBegin + k) in Hl by lia.
      replace (buf + (VirtualAddress rel - vaBegin) + (vaBegin + k - VirtualAddress rel)) with (buf + k) in Hl by lia.
      done.
    - rewrite (fo_frame (FieldOp := HF)) by lia.
      rewrite (fo_frame (FieldOp := HF)) by (unfold off'; lia). by apply Hw. }
  exists st2. split; [|done]. intros rest. cbn [app relocate_subsection].
  rewrite u32_succ_va by done.
  rewrite (proj2 (Z.ltb_ge _ _)) by lia. rewrite (proj2 (Z.leb_gt _ _)) by lia.
  fold off'. fold st1. rewrite Hrun. by destruct (relocate_subsection _ _ _ rest st2).
Qed.

Lemma relocate_subsection_stop vaBegin vaEnd buf rels st :
  vaBegin <= vaEnd -> Forall va_ok rels ->
  Forall (fun rel => vaEnd <= VirtualAddress rel) rels ->
  relocate_subsection vaBegin vaEnd buf rels st = (O, st).
Proof.
  intros Hv Hva H. destruct H as [|rel rels Hr _]; [done|]. simpl.
  apply Forall_cons in Hva as [Hva _]. rewrite u32_succ_va by done.
  rewrite (proj2 (Z.ltb_ge _ _)) by lia. by rewrite (proj2 (Z.leb_le _ _)) by lia.
Qed.

Lemma memcpy_window bs buf0 buf m m' vaBegin n :
  (n + vaBegin <= length bs)%nat ->
  same_window (Z.of_nat n) (memcpy m buf0 bs) (buf0 + Z.of_nat vaBegin)
    (memcpy m' buf (take n (drop vaBegin bs))) buf.
Proof.
  intros Hn k Hk. replace (buf0 + Z.of_nat vaBegin + k) with (buf0 + Z.of_nat (vaBegin + Z.to_nat k)) by lia.
  rewrite memcpy_byte by lia. rewrite <- (Z2Nat.id k) at 2 by lia.
  rewrite memcpy_byte by (rewrite length_take, length_drop; lia).
  rewrite !nth_lookup, lookup_take_lt by lia. by rewrite lookup_drop.
Qed.

(** The split of a section's sorted relocations at a subsection none of whose
    relocations straddles its ends. *)
Record subsection_split (vaBegin vaEnd : nat) (before mid after : list coff_relocation) : Prop := {
  ss_relocs : relocs sc = before ++ mid ++ after;
  ss_va : Forall va_ok (relocs sc);
  ss_before : Forall (fun rel => rel_end rel <= Z.of_nat vaBegin) before;
  ss_mid : Forall (fun rel => Z.of_nat vaBegin <= VirtualAddress rel /\
                              rel_end rel <= Z.of_nat vaEnd) mid;
  ss_after : Forall (fun rel => Z.of_nat vaEnd <= VirtualAddress rel) after;
  ss_bounds : (vaBegin <= vaEnd <= length (contents sc))%nat;
  ss_size : SizeOfRawData sc = Z.of_nat (length (contents sc));
  ss_data : hasData sc = true
}.

Lemma same_window_trans w m1 o1 m2 o2 m3 o3 :
  same_window w m1 o1 m2 o2 -> same_window w m2 o2 m3 o3 -> same_window w m1 o1 m3 o3.
Proof. intros H1 H2 k Hk. rewrite H1 by done. by apply H2. Qed.

Lemma subsection_window vaBegin vaEnd before mid after buf0 buf st st' :
  subsection_split vaBegin vaEnd before mid after ->
  let '(next, out) :=
    writeAndRelocateSubsection (Z.of_nat vaBegin) (Z.of_nat vaEnd) (length before) buf st' in
  next = (length before + length mid)%nat /\
  same_window (Z.of_nat vaEnd - Z.of_nat vaBegin) (rmem (writeTo buf0 st)) (buf0 + Z.of_nat vaBegin)
    (rmem out) buf.
Proof.
  intros [Hrel Hva Hbef Hmid Haft Hb Hsize Hdata].
  unfold writeAndRelocateSubsection, writeTo. rewrite Hdata, Hrel. simpl negb. cbv iota zeta.
  rewrite drop_app_length.
  rewrite Hrel, !Forall_app in Hva. destruct Hva as (_ & Hva2 & Hva3).
  set (n := (vaEnd - vaBegin)%nat).
  replace (Z.to_nat (Z.of_nat vaEnd - Z.of_nat vaBegin)) with n by lia. rewrite Nat2Z.id.
  set (st0' := on_mem _ st'). rewrite !fold_left_app.
  set (st1 := fold_left (write_reloc buf0) before _).
  destruct (relocate_window (Z.of_nat vaBegin) (Z.of_nat vaEnd) buf0 buf mid st1 st0')
    as (st2 & Hrun & Hw); [lia|done|done| |].
  { apply (same_window_trans _ _ _ (memcpy (rmem st) buf0 (contents sc)) (buf0 + Z.of_nat vaBegin)).
    - intros k Hk. unfold st1. rewrite fold_write_reloc_frame; [done|].
      eapply Forall_impl; [exact Hbef|]. simpl. intros rel Hr. lia.
    - replace (Z.of_nat vaEnd - Z.of_nat vaBegin) with (Z.of_nat n) by lia.
      apply memcpy_window. lia. }
  rewrite Hrun, relocate_subsection_stop by (done || lia). simpl. split; [lia|].
  eapply same_window_trans; [|exact Hw].
  intros k Hk. rewrite fold_write_reloc_frame; [done|].
  eapply Forall_impl; [exact Haft|]. simpl. intros rel Hr. lia.
Qed.

End Writer.

(** ** Properties *)

(** C27: relocating a subsection of a section on its own, as the PDB writer
    does with [.debug$S] subsections, gives the bytes that [writeTo] leaves at
    the subsection's place, on every machine, and hands the next subsection
    the index of the first relocation after this one. *)
Theorem subsection_matches_section {A : RelocArch} cfg sc vaBegin vaEnd before mid after buf0 buf st st' :
  subsection_split sc vaBegin vaEnd before mid after ->
  (writeAndRelocateSubsection cfg sc (Z.of_nat vaBegin) (Z.of_nat vaEnd) (length before) buf st').1 =
    (length before + length mid)%nat /\
  bytes_at (rmem (writeAndRelocateSubsection cfg sc (Z.of_nat vaBegin) (Z.of_nat vaEnd)
                    (length before) buf st').2) buf (vaEnd - vaBegin) =
  bytes_at (rmem (writeTo cfg sc buf0 st)) (buf0 + Z.of_nat vaBegin) (vaEnd - vaBegin).
Proof.
  intros Hs. pose proof (subsection_window cfg sc vaBegin vaEnd before mid after buf0 buf st st' Hs) as H.
  destruct (writeAndRelocateSubsection _ _ _ _ _ _ _) as [next out]. destruct H as [-> Hw].
  split; [done|]. apply nth_ext with 0 0; [by rewrite !length_bytes_at|].
  intros k Hk. rewrite length_bytes_at in Hk. rewrite !nth_bytes_at by done.
  symmetry. apply Hw. lia.
Qed.

(** [writeTo] changes no byte outside the section's contents and the
    fields of its relocations, and copies every contents byte that no
    relocation covers. *)
Theorem writeTo_frame {A : RelocArch} cfg sc buf st a :
  hasData sc = true ->
  Forall (fun rel => a < buf + VirtualAddress rel \/ buf + rel_end rel <= a) (relocs sc) ->
  rmem (writeTo cfg sc buf st) a =
  if (buf <=? a) && (a <? buf + Z.of_nat (length (contents sc)))
  then nth (Z.to_nat (a - buf)) (contents sc) 0 else rmem st a.
Proof.
  intros Hd Hr. unfold writeTo. rewrite Hd. simpl negb. cbv iota zeta.
  rewrite fold_write_reloc_frame by done. simpl rmem.
  destruct (Z.leb_spec buf a), (Z.ltb_spec a (buf + Z.of_nat (length (contents sc)))); simpl;
    try (apply memcpy_other; lia).
  replace a with (buf + Z.of_nat (Z.to_nat (a - buf))) at 1 by lia.
  apply memcpy_byte. lia.
Qed.

(** A section of 16 bytes with a REL32 at 4 and an ADDR64 at 8; the subsection
    is its second half. *)
Definition sample_section : SectionChunk :=
  {| hasData := true; contents := repeat 0x11 16; SizeOfRawData := 16; rva := 0x1000;
     relocs := [ {| VirtualAddress := 4; SymbolTableIndex := 0; Type_ := IMAGE_REL_AMD64_REL32 |};
                 {| VirtualAddress := 8; SymbolTableIndex := 0; Type_ := IMAGE_REL_AMD64_ADDR64 |} ];
     getSymbol := fun _ => Some {| symRVA := 0x2000;
       symOutputSection := Some {| osRVA := 0x2000; sectionIndex := 2; osCharacteristics := 0 |};
       isAbsolute := false; isSynthetic := false |};
     sc_isCodeView := false; sc_isDWARF := false |}.
Definition sample_cfg : link_cfg :=
  {| imageBase := 0x140000000; mingw := false; outputSections_size := 3 |}.
Definition zero_state : rstate := {| rmem := fun _ => 0; errs := [] |}.

Lemma subsection_matches_section_witness :
  subsection_split sample_section 8 16
    [ {| VirtualAddress := 4; SymbolTableIndex := 0; Type_ := IMAGE_REL_AMD64_REL32 |} ]
    [ {| VirtualAddress := 8; SymbolTableIndex := 0; Type_ := IMAGE_REL_AMD64_ADDR64 |} ] [] /\
  bytes_at (rmem (writeAndRelocateSubsection sample_cfg sample_section (Z.of_nat 8) (Z.of_nat 16)
    1 0 zero_state).2) 0 8 =
  bytes_at (rmem (writeTo sample_cfg sample_section 0x400 zero_state)) (0x400 + Z.of_nat 8) 8.
Proof.
  assert (H : subsection_split sample_section 8 16
    [ {| VirtualAddress := 4; SymbolTableIndex := 0; Type_ := IMAGE_REL_AMD64_REL32 |} ]
    [ {| VirtualAddress := 8; SymbolTableIndex := 0; Type_ := IMAGE_REL_AMD64_ADDR64 |} ] []).
  { split; try reflexivity; unfold va_ok, rel_end; simpl;
      repeat constructor; simpl; vm_compute; try reflexivity; discriminate. }
  split; [exact H|].
  exact (proj2 (subsection_matches_section sample_cfg sample_section 8 16 _ _ _ 0x400 0
    zero_state zero_state H)).
Defined.

Lemma writeTo_frame_witness :
  rmem (writeTo sample_cfg sample_section 0x400 zero_state) 0x401 = 0x11.
Proof.
  refine (writeTo_frame sample_cfg sample_section 0x400 zero_state 0x401 eq_refl _).
  repeat constructor; simpl; lia.
Defined.
