(* ===== verification/Baserel.v ===== *)
(** * Base relocations (lld/COFF/Chunks.cpp and Writer.cpp)

    Which fields of the image hold absolute addresses ([getBaserelType],
    [getBaserels]), how they are listed in the .reloc section
    ([BaserelChunk], [addBaserelBlocks], [addBaserels]), and the loader that
    reads the list: [decode_blocks] follows the PE format, [loader_fix] adds
    the load displacement to one field. *)

From S2P Require Import Prelude Memory Reloc RelocProps SectionChunk.

(** ** Data *)

Definition IMAGE_REL_BASED_ABSOLUTE := 0.
Definition IMAGE_REL_BASED_HIGHLOW := 3.
Definition IMAGE_REL_BASED_ARM_MOV32T := 7.
Definition IMAGE_REL_BASED_DIR64 := 10.
Definition IMAGE_SCN_MEM_DISCARDABLE := 0x02000000.
Definition pageSize := 4096.

Record Baserel := { br_rva : Z; br_type : Z }.

#[export] Instance baserel_eq_dec : EqDecision Baserel.
Proof. solve_decision. Defined.

(** What [addBaserels] reads of an output section: its characteristics and
    what [getBaserels] appends for each of its chunks. *)
Record BaserelSection := { bs_Characteristics : Z; bs_chunks : list (list Baserel) }.

(** ** Which relocations need a base relocation *)

Definition getBaserelTypeX64 (type : Z) : Z :=
  if type =? IMAGE_REL_AMD64_ADDR64 then IMAGE_REL_BASED_DIR64
  else if type =? IMAGE_REL_AMD64_ADDR32 then IMAGE_REL_BASED_HIGHLOW
  else IMAGE_REL_BASED_ABSOLUTE.
Definition getBaserelTypeX86 (type : Z) : Z :=
  if type =? IMAGE_REL_I386_DIR32 then IMAGE_REL_BASED_HIGHLOW else IMAGE_REL_BASED_ABSOLUTE.
Definition getBaserelTypeARM (type : Z) : Z :=
  if type =? IMAGE_REL_ARM_ADDR32 then IMAGE_REL_BASED_HIGHLOW
  else if type =? IMAGE_REL_ARM_MOV32T then IMAGE_REL_BASED_ARM_MOV32T
  else IMAGE_REL_BASED_ABSOLUTE.
Definition getBaserelTypeARM64 (type : Z) : Z :=
  if type =? IMAGE_REL_ARM64_ADDR64 then IMAGE_REL_BASED_DIR64 else IMAGE_REL_BASED_ABSOLUTE.

Definition getDefaultType (is64 : bool) : Z :=
  if is64 then IMAGE_REL_BASED_DIR64 else IMAGE_REL_BASED_HIGHLOW.

(** What [getBaserels] reads of the link for the native load configuration of a
    hybrid image: [hl_native] is [hybridSymtab->loadConfigSym], whether its chunk
    is the one at hand and its RVA. *)
Record hybrid_link := {
  hl_arm64x : bool;                 (* ctx.config.machine == ARM64X *)
  hl_native : option (bool * Z);
  hl_nativeSize : Z;                (* hybridSymtab->loadConfigSize *)
  hl_ec : bool                      (* symtab.loadConfigSym *)
}.
Definition not_hybrid : hybrid_link :=
  {| hl_arm64x := false; hl_native := None; hl_nativeSize := 0; hl_ec := false |}.

(** [offsetof] and [sizeof] of the field in [coff_load_configuration64]. *)
Definition CHPEMetadataPointer_offset : Z := 200.
Definition CHPEMetadataPointer_size : Z := 8.

(** The RVA of the CHPEMetadataPointer field of the native load configuration,
    when this chunk holds it and [prepareLoadConfig] fills it. *)
Definition chpe_field (hl : hybrid_link) : option Z :=
  match hl_native hl with
  | Some (this, rva) =>
      if hl_arm64x hl && this && hl_ec hl &&
         (CHPEMetadataPointer_offset + CHPEMetadataPointer_size <=? hl_nativeSize hl)
      then Some (rva + CHPEMetadataPointer_offset) else None
  | None => None
  end.
Definition chpe_baserels (hl : hybrid_link) : list Baserel :=
  match chpe_field hl with
  | Some f => [{| br_rva := u32 f; br_type := IMAGE_REL_BASED_DIR64 |}]
  | None => []
  end.

(** The part of the list for the section's own relocations. *)
Definition relocation_baserels (getBaserelType : Z -> Z) (sc : SectionChunk) : list Baserel :=
  flat_map (fun rel =>
    let ty := getBaserelType (Type_ rel) in
    if ty =? IMAGE_REL_BASED_ABSOLUTE then []
    else match getSymbol sc (SymbolTableIndex rel) with
         | None => []
         | Some target =>
             if isAbsolute target then []
             else [{| br_rva := u32 (rva sc + VirtualAddress rel); br_type := ty |}]
         end) (relocs sc).

(** [SectionChunk::getBaserels], for a machine with that classification. *)
Definition getBaserels (getBaserelType : Z -> Z) (hl : hybrid_link) (sc : SectionChunk) : list Baserel :=
  relocation_baserels getBaserelType sc ++ chpe_baserels hl.

(** ** Blocks *)

(** One entry: [(i->type << 12) | (i->rva - page)], the difference taken in 32
    bits and the result stored in 16. *)
Definition baserel_entry (page : Z) (b : Baserel) : list Z :=
  le_bytes 2 ((br_type b <<< 12) ||| u32 (br_rva b - page)).

Definition BaserelChunk (page : Z) (rels : list Baserel) : list Z :=
  let size := Z.to_nat (alignTo (Z.of_nat (length rels) * 2 + 8) 4) in
  let data := le_bytes 4 page ++ le_bytes 4 (Z.of_nat size) ++ flat_map (baserel_entry page) rels in
  data ++ repeat 0 (size - length data).

Definition page_of (b : Baserel) : Z := br_rva b &&& u32 (Z.lnot (pageSize - 1)).

(** The loop of [addBaserelBlocks] over [v[j..]], and the block after it. *)
Fixpoint baserel_loop (v rest : list Baserel) (i j : nat) (page : Z) : list (list Z) :=
  match rest with
  | [] => if (i =? j)%nat then [] else [BaserelChunk page (take (j - i) (drop i v))]
  | b :: rest =>
      let p := page_of b in
      if p =? page then baserel_loop v rest i (S j) page
      else BaserelChunk page (take (j - i) (drop i v)) :: baserel_loop v rest j (S j) p
  end.

Definition addBaserelBlocks (v : list Baserel) : list (list Z) :=
  match v with
  | [] => []
  | b0 :: _ =>
      let page := page_of b0 in
      let v := stable_sort (fun x y => br_rva x <? br_rva y) v in
      baserel_loop v (drop 1 v) 0 1 page
  end.

(** [Writer::addBaserels]: the chunks that .reloc gets. *)
Definition addBaserels (relocatable : bool) (sections : list BaserelSection) : list (list Z) :=
  if negb relocatable then []
  else flat_map (fun sec =>
    if negb ((bs_Characteristics sec &&& IMAGE_SCN_MEM_DISCARDABLE) =? 0) then []
    else
      let v := concat (bs_chunks sec) in
      if (0 <? length v)%nat then addBaserelBlocks v else []) sections.

(** ** The loader *)

(** Entries of one block; entries of type ABSOLUTE are padding. *)
Fixpoint decode_entries (page : Z) (bs : list Z) : list Baserel :=
  match bs with
  | b0 :: b1 :: bs =>
      let w := b0 + 2 ^ 8 * b1 in
      if w >>> 12 =? IMAGE_REL_BASED_ABSOLUTE then decode_entries page bs
      else {| br_rva := page + (w &&& 0xfff); br_type := w >>> 12 |} :: decode_entries page bs
  | _ => []
  end.

(** Blocks until the section ends, at most [fuel] of them. *)
Fixpoint decode_blocks (fuel : nat) (bs : list Z) : option (list Baserel) :=
  match bs, fuel with
  | [], _ => Some []
  | _, O => None
  | _, S fuel =>
      let page := le_value (take 4 bs) in
      let size := Z.to_nat (le_value (take 4 (drop 4 bs))) in
      if (size <? 8)%nat then None
      else
        rest ← decode_blocks fuel (drop size bs);
        Some (decode_entries page (take (size - 8) (drop 8 bs)) ++ rest)
  end.

(** The loader adds [delta] to the field at [off]. *)
Definition loader_fix (ty delta off : Z) (m : mem) : mem :=
  if ty =? IMAGE_REL_BASED_DIR64 then write64le m off (read64le m off + delta)
  else if ty =? IMAGE_REL_BASED_HIGHLOW then write32le m off (read32le m off + delta)
  else if ty =? IMAGE_REL_BASED_ARM_MOV32T then
    rmem (applyMOV32T off delta {| rmem := m; errs := [] |})
  else m.

(** ** The list in .reloc is read back *)

Definition baserel_ok (b : Baserel) : Prop := word_ok 32 (br_rva b) /\ 1 <= br_type b < 16.
Definition in_page (page : Z) (b : Baserel) : Prop := page <= br_rva b < page + pageSize.

Lemma page_of_spec b : word_ok 32 (br_rva b) -> page_of b = br_rva b / pageSize * pageSize.
Proof.
  intros H. unfold page_of, pageSize. change (u32 (Z.lnot (4096 - 1))) with (Z.lnot (Z.ones 12) &&& Z.ones 32).
  change 4096 with (2 ^ 12). rewrite <- Z.shiftr_div_pow2, <- Z.shiftl_mul_pow2 by lia.
  apply Z.bits_inj'. intros i Hi. rewrite !Z.land_spec, Z.lnot_spec by lia.
  destruct (decide (i < 12)).
  - rewrite Z.ones_spec_low by lia. rewrite Z.shiftl_spec_low by lia. simpl. by rewrite andb_false_r.
  - rewrite Z.ones_spec_high, Z.shiftl_spec, Z.shiftr_spec by lia. simpl.
    replace (i - 12 + 12) with i by lia.
    destruct (decide (i < 32)); [rewrite Z.ones_spec_low by lia; apply andb_true_r|].
    rewrite Z.ones_spec_high by lia. rewrite andb_false_r. symmetry. apply (testbit_high 32); [done|lia].
Qed.

Lemma page_of_in_page b : word_ok 32 (br_rva b) -> in_page (page_of b) b.
Proof.
  intros H. unfold in_page. rewrite page_of_spec by done. unfold pageSize.
  pose proof (Z.div_mod (br_rva b) 4096 ltac:(lia)).
  pose proof (Z.mod_pos_bound (br_rva b) 4096 ltac:(lia)). lia.
Qed.

Lemma entry_word page b :
  baserel_ok b -> in_page page b ->
  (br_type b <<< 12) ||| u32 (br_rva b - page) = br_type b * 2 ^ 12 + (br_rva b - page).
Proof.
  intros [Hr Ht] Hp. unfold in_page, pageSize, word_ok in *.
  rewrite wrap_small by (unfold word_ok; lia). apply shl_or_add; [lia|unfold word_ok; lia].
Qed.

Lemma baserel_eta b ra ty : ra = br_rva b -> ty = br_type b -> {| br_rva := ra; br_type := ty |} = b.
Proof. intros -> ->. by destruct b. Qed.

Lemma decode_entry page b bs :
  baserel_ok b -> in_page page b ->
  decode_entries page (baserel_entry page b ++ bs) = b :: decode_entries page bs.
Proof.
  intros Hb Hp. unfold baserel_entry. rewrite entry_word by done.
  destruct Hb as [Hr Ht]. unfold in_page, pageSize in Hp.
  set (w := br_type b * 2 ^ 12 + (br_rva b - page)).
  assert (Hw : word_ok 16 w) by (unfold word_ok, w; lia).
  cbn [le_bytes app decode_entries].
  pose proof (le_value_bytes_small 2 w Hw) as E. cbn [le_bytes le_value] in E.
  rewrite Z.mul_0_r, Z.add_0_r in E. rewrite E.
  assert (Hq : w >>> 12 = br_type b).
  { rewrite Z.shiftr_div_pow2 by lia. unfold w. rewrite Z.div_add_l by lia.
    rewrite Z.div_small; lia. }
  assert (Hm : w &&& 0xfff = br_rva b - page).
  { change 0xfff with (Z.ones 12). rewrite Z.land_ones by lia. unfold w.
    rewrite Z.add_comm, Z.mod_add, Z.mod_small; lia. }
  rewrite Hq, Hm. unfold IMAGE_REL_BASED_ABSOLUTE.
  rewrite (proj2 (Z.eqb_neq _ _)) by lia. f_equal. apply baserel_eta; lia.
Qed.

Lemma decode_padding page k : decode_entries page (repeat 0 (k + k)) = [].
Proof.
  induction k as [|k IH]; [done|]. replace (S k + S k)%nat with (S (S (k + k))) by lia. exact IH.
Qed.

Lemma decode_entries_page page rels k :
  Forall baserel_ok rels -> Forall (in_page page) rels ->
  decode_entries page (flat_map (baserel_entry page) rels ++ repeat 0 (k + k)) = rels.
Proof.
  induction 1 as [|b rels Hb _ IH]; intros Hp; [apply decode_padding|].
  apply Forall_cons in Hp as [Hp Hps]. cbn [flat_map]. rewrite <- app_assoc.
  rewrite decode_entry by done. by rewrite IH.
Qed.

(** A block the loader reads as [rels] and steps over. *)
Definition reads_as (blk : list Z) (rels : list Baserel) : Prop :=
  blk <> [] /\
  forall fuel rest r, decode_blocks fuel rest = Some r ->
    decode_blocks (S fuel) (blk ++ rest) = Some (rels ++ r).

Lemma length_entries page rels : length (flat_map (baserel_entry page) rels) = (2 * length rels)%nat.
Proof.
  induction rels as [|b rels IH]; [done|]. cbn [flat_map].
  rewrite length_app, IH. unfold baserel_entry. rewrite length_le_bytes. simpl. lia.
Qed.

Lemma BaserelChunk_length page rels :
  let size := Z.to_nat (alignTo (Z.of_nat (length rels) * 2 + 8) 4) in
  length (BaserelChunk page rels) = size /\
  exists k, size = (8 + 2 * length rels + (k + k))%nat /\ (k <= 1)%nat.
Proof.
  set (n := Z.of_nat (length rels)). intros size.
  pose proof (alignTo_spec (n * 2 + 8) 4 ltac:(lia)) as [[Hlo Hhi] Hm].
  apply Z.mod_divide in Hm as [q Hq]; [|lia].
  assert (Hk : exists k, size = (8 + 2 * length rels + (k + k))%nat /\ (k <= 1)%nat).
  { exists (Z.to_nat ((4 * q - (n * 2 + 8)) / 2)). subst size n.
    pose proof (Z.div_mod (4 * q - (Z.of_nat (length rels) * 2 + 8)) 2 ltac:(lia)).
    pose proof (Z.mod_pos_bound (4 * q - (Z.of_nat (length rels) * 2 + 8)) 2 ltac:(lia)). lia. }
  split; [|done]. destruct Hk as (k & Hk & _). unfold BaserelChunk. fold n size.
  rewrite !length_app, repeat_length, !length_le_bytes, length_entries. lia.
Qed.

Lemma BaserelChunk_reads page rels :
  word_ok 32 page -> Z.of_nat (length rels) < 2 ^ 30 ->
  Forall baserel_ok rels -> Forall (in_page page) rels ->
  reads_as (BaserelChunk page rels) rels.
Proof.
  intros Hpage Hlen Hok Hp.
  destruct (BaserelChunk_length page rels) as (Hsz & k & Hk & Hk1). cbv zeta in *.
  set (size := Z.to_nat (alignTo (Z.of_nat (length rels) * 2 + 8) 4)) in *.
  assert (Hdata : exists tl, BaserelChunk page rels = le_bytes 4 page ++ le_bytes 4 (Z.of_nat size) ++ tl /\
    tl = flat_map (baserel_entry page) rels ++ repeat 0 (k + k)).
  { eexists. split; [|done]. unfold BaserelChunk. fold size. rewrite <- !app_assoc.
    do 4 f_equal. rewrite !length_app, !length_le_bytes, length_entries. lia. }
  destruct Hdata as (tl & Hblk & Htl).
  assert (Hltl : length tl = (size - 8)%nat).
  { rewrite Hblk, !length_app, !length_le_bytes in Hsz. lia. }
  split; [rewrite Hblk; done|]. intros fuel rest r Hr. rewrite Hblk.
  assert (Hv : Z.to_nat (le_value (le_bytes 4 (Z.of_nat size))) = size).
  { rewrite le_value_bytes_small by (unfold word_ok; simpl; lia). lia. }
  rewrite <- !app_assoc. cbn [decode_blocks].
  change (le_bytes 4 page ++ ?x) with (le_bytes 4 page ++ x).
  destruct (le_bytes 4 page ++ le_bytes 4 (Z.of_nat size) ++ tl ++ rest) as [|c cs] eqn:E; [done|].
  rewrite <- E. clear E c cs.
  rewrite (take_app_length' (le_bytes 4 page)) by by rewrite length_le_bytes.
  rewrite (drop_app_length' (le_bytes 4 page)) by by rewrite length_le_bytes.
  rewrite (take_app_length' (le_bytes 4 (Z.of_nat size))) by by rewrite length_le_bytes.
  rewrite Hv, le_value_bytes_small by done.
  rewrite (proj2 (Nat.ltb_ge _ _)) by lia.
  set (hd := le_bytes 4 page ++ le_bytes 4 (Z.of_nat size)).
  assert (Hhd : length hd = 8%nat) by (unfold hd; by rewrite length_app, !length_le_bytes).
  rewrite (app_assoc (le_bytes 4 page)). fold hd.
  rewrite (drop_app_length' hd) by done. rewrite take_app_length' by done.
  rewrite app_assoc, (drop_app_length' (hd ++ tl)) by (rewrite length_app; lia).
  rewrite Hr. simpl. do 2 f_equal. rewrite Htl. by apply decode_entries_page.
Qed.

Lemma decode_concat blocks relss fuel :
  Forall2 reads_as blocks relss -> (length blocks <= fuel)%nat ->
  decode_blocks fuel (concat blocks) = Some (concat relss).
Proof.
  intros H. revert fuel. induction H as [|blk rels blocks relss [Hne Hblk] _ IH]; intros fuel Hf.
  { by destruct fuel. }
  destruct fuel as [|fuel]; simpl in Hf; [lia|]. cbn [concat]. apply Hblk. apply IH. lia.
Qed.

Lemma length_concat_reads blocks relss :
  Forall2 reads_as blocks relss -> (length blocks <= length (concat blocks))%nat.
Proof.
  induction 1 as [|blk rels blocks relss [Hne _] _ IH]; [done|].
  simpl. rewrite length_app. destruct blk; [done|]. simpl. lia.
Qed.

Lemma page_of_word b : word_ok 32 (br_rva b) -> word_ok 32 (page_of b).
Proof.
  intros H. pose proof (page_of_in_page b H) as Hp. unfold in_page, word_ok in *.
  split; [|lia]. rewrite page_of_spec by done. unfold pageSize.
  apply Z.mul_nonneg_nonneg; [apply Z.div_pos|]; lia.
Qed.

(** A run of base relocations of one page is a block the loader reads back. *)
Lemma run_reads page rels :
  rels <> [] -> Z.of_nat (length rels) < 2 ^ 30 -> Forall baserel_ok rels ->
  Forall (fun b => page_of b = page) rels -> reads_as (BaserelChunk page rels) rels.
Proof.
  intros Hne Hlen Hok Hp. apply BaserelChunk_reads; [|done|done|].
  - destruct rels as [|b rels]; [done|]. apply Forall_cons in Hok as [[Hb _] _].
    apply Forall_cons in Hp as [<- _]. by apply page_of_word.
  - rewrite Forall_forall in *. intros b Hb. rewrite <- (Hp b Hb).
    apply page_of_in_page. by apply Hok.
Qed.

Lemma loop_reads v : Forall baserel_ok v -> Z.of_nat (length v) < 2 ^ 30 ->
  forall rest i j page,
  drop j v = rest -> (i < j <= length v)%nat ->
  Forall (fun b => page_of b = page) (take (j - i) (drop i v)) ->
  exists relss, Forall2 reads_as (baserel_loop v rest i j page) relss /\ concat relss = drop i v.
Proof.
  intros Hok Hlen. induction rest as [|b rest IH]; intros i j page Hrest Hij Hp; cbn [baserel_loop].
  - assert (j = length v).
    { apply (f_equal length) in Hrest. rewrite length_drop in Hrest. simpl in Hrest. lia. }
    subst j. rewrite (proj2 (Nat.eqb_neq _ _)) by lia.
    exists [drop i v]. rewrite take_ge in * by (rewrite length_drop; lia).
    split; [|simpl; by rewrite app_nil_r]. constructor; [|constructor].
    apply run_reads; [|rewrite length_drop; lia|by apply Forall_drop|done].
    intros E. apply (f_equal length) in E. rewrite length_drop in E. simpl in E. lia.
  - assert (Hj : v !! j = Some b).
    { rewrite <- (Nat.add_0_r j), <- lookup_drop, Hrest. done. }
    assert (Hjl : (j < length v)%nat) by (by eapply lookup_lt_Some).
    assert (Hrest' : drop (S j) v = rest).
    { rewrite <- Nat.add_1_r, <- drop_drop, Hrest. done. }
    destruct (Z.eqb_spec (page_of b) page) as [Hb|Hb].
    + apply IH; [done|lia|]. replace (S j - i)%nat with (S (j - i)) by lia.
      rewrite (take_S_r _ _ b); [|rewrite lookup_drop; by replace (i + (j - i))%nat with j by lia].
      apply Forall_app. split; [done|by constructor].
    + destruct (IH j (S j) (page_of b) Hrest' ltac:(lia)) as (relss & HF & Hc).
      { replace (S j - j)%nat with 1%nat by lia. rewrite Hrest. by repeat constructor. }
      exists (take (j - i) (drop i v) :: relss). split.
      * constructor; [|done]. apply run_reads; [|rewrite length_take, length_drop; lia| |done].
        { intros E. apply (f_equal length) in E. rewrite length_take, length_drop in E. simpl in E. lia. }
        by apply Forall_take, Forall_drop.
      * simpl. rewrite Hc. replace (drop j v) with (drop (j - i) (drop i v)).
        { apply take_drop. }
        rewrite drop_drop. f_equal. lia.
Qed.

Lemma page_of_mono a b :
  word_ok 32 (br_rva a) -> word_ok 32 (br_rva b) -> br_rva a <= br_rva b -> page_of a <= page_of b.
Proof.
  intros Ha Hb H. rewrite !page_of_spec by done. unfold pageSize.
  apply Z.mul_le_mono_nonneg_r; [lia|]. apply Z.div_le_mono; lia.
Qed.

Abbreviation sort_baserels := (stable_sort (fun x y => br_rva x <? br_rva y)).

(** The first element of [v] lies in the lowest page of [v]. *)
Definition first_page_lowest (v : list Baserel) : Prop :=
  match v with [] => True | b0 :: _ => Forall (fun b => page_of b0 <= page_of b) v end.

Definition section_baserels (sec : BaserelSection) : list Baserel :=
  if negb ((bs_Characteristics sec &&& IMAGE_SCN_MEM_DISCARDABLE) =? 0) then []
  else concat (bs_chunks sec).

Record section_ok (sec : BaserelSection) : Prop := {
  so_ok : Forall baserel_ok (section_baserels sec);
  so_len : Z.of_nat (length (section_baserels sec)) < 2 ^ 30;
  so_first : first_page_lowest (section_baserels sec)
}.

Lemma addBaserelBlocks_reads v :
  Forall baserel_ok v -> Z.of_nat (length v) < 2 ^ 30 -> first_page_lowest v ->
  exists relss, Forall2 reads_as (addBaserelBlocks v) relss /\ concat relss = sort_baserels v.
Proof.
  intros Hok Hlen Hfirst. destruct v as [|b0 v0]; [by exists []|]. unfold addBaserelBlocks.
  set (v := b0 :: v0) in *. pose proof (stable_sort_perm (fun x y => br_rva x <? br_rva y) v) as Hperm.
  pose proof (stable_sort_sorted (fun x y => br_rva x <? br_rva y) v) as Hsort.
  set (sv := stable_sort _ v) in *.
  assert (Hsok : Forall baserel_ok sv) by by rewrite Hperm.
  assert (Hslen : length sv = length v) by by apply Permutation_length.
  destruct (loop_reads sv Hsok ltac:(lia) (drop 1 sv) 0 1 (page_of b0)) as (relss & HF & Hc);
    [done|rewrite Hslen; unfold v; simpl; lia| |by exists relss].
  destruct sv as [|h sv]; [done|]. simpl. constructor; [|constructor].
  assert (Hb0 : b0 ∈ h :: sv) by (rewrite Hperm; unfold v; left).
  assert (Hh : h ∈ v) by (rewrite <- Hperm; left).
  rewrite Forall_forall in Hok, Hsok. destruct (Hok h Hh) as [Hhw _], (Hsok b0 Hb0) as [Hbw _].
  apply Z.le_antisymm.
  - apply page_of_mono; [done|done|]. apply list_elem_of_In in Hb0 as [->|Hin]; [lia|].
    apply StronglySorted_inv in Hsort as [_ Hall]. rewrite List.Forall_forall in Hall.
    specialize (Hall b0 Hin). unfold sorted_le in Hall. by apply Z.ltb_ge in Hall.
  - simpl in Hfirst. rewrite Forall_forall in Hfirst. by apply Hfirst.
Qed.

Lemma addBaserels_reads sections :
  Forall section_ok sections ->
  exists relss, Forall2 reads_as (addBaserels true sections) relss /\
    concat relss = flat_map (fun sec => sort_baserels (section_baserels sec)) sections.
Proof.
  unfold addBaserels. simpl negb. cbv iota.
  induction 1 as [|sec sections [Hok Hlen Hfirst] _ (relss & HF & Hc)]; [by exists []|].
  cbn [flat_map]. unfold section_baserels in *.
  destruct (negb _); [exists relss; split; [done|by rewrite Hc]|].
  destruct (concat (bs_chunks sec)) as [|b0 v0] eqn:E; [by exists relss|].
  destruct (addBaserelBlocks_reads (b0 :: v0) Hok Hlen Hfirst) as (relss1 & HF1 & Hc1).
  exists (relss1 ++ relss). rewrite concat_app, Hc1, Hc. split; [|done]. by apply Forall2_app.
Qed.

(** ** A list whose first element is not in the lowest page *)

Lemma decode_entries_ge page bs : 0 <= page -> Forall (fun b => page <= br_rva b) (decode_entries page bs).
Proof.
  intros Hp. remember (length bs) as n eqn:Hn. assert (Hle : (length bs <= n)%nat) by lia.
  clear Hn. revert bs Hle. induction n as [|n IH]; intros [|b0 [|b1 bs]] Hle; simpl in *;
    try (constructor; fail); try lia.
  case_match; [apply IH; lia|]. constructor; [|apply IH; lia]. simpl.
  match goal with |- _ <= _ + (?w &&& _) => pose proof (Z.land_nonneg w 0xfff) end. lia.
Qed.

Lemma decode_single_ge page rels l fuel :
  word_ok 32 page -> Z.of_nat (length rels) < 2 ^ 30 ->
  decode_blocks (S fuel) (BaserelChunk page rels) = Some l -> Forall (fun b => page <= br_rva b) l.
Proof.
  intros Hp Hlen H. destruct (BaserelChunk_length page rels) as (Hsz & k & Hk & Hk1). cbv zeta in *.
  set (size := Z.to_nat (alignTo (Z.of_nat (length rels) * 2 + 8) 4)) in *.
  assert (Htk : take 4 (BaserelChunk page rels) = le_bytes 4 page /\
                take 4 (drop 4 (BaserelChunk page rels)) = le_bytes 4 (Z.of_nat size)).
  { unfold BaserelChunk. fold size. rewrite <- !app_assoc.
    rewrite (drop_app_length' (le_bytes 4 page)) by by rewrite length_le_bytes.
    by rewrite !take_app_length' by by rewrite length_le_bytes. }
  destruct Htk as [T1 T2]. cbn [decode_blocks] in H.
  destruct (BaserelChunk page rels) as [|c cs] eqn:E; [simplify_eq; constructor|].
  rewrite <- E in *. rewrite T1, T2 in H.
  rewrite (le_value_bytes_small 4 page), (le_value_bytes_small 4 (Z.of_nat size)) in H
    by first [done | unfold word_ok; simpl; lia].
  rewrite Nat2Z.id in H. destruct (Nat.ltb_spec size 8); [done|].
  rewrite (drop_ge _ size) in H by lia.
  assert (Hnil : decode_blocks fuel [] = Some []) by by destruct fuel.
  rewrite Hnil in H. simpl in H. injection H as <-. rewrite app_nil_r.
  apply decode_entries_ge. by destruct Hp.
Qed.

(** ** Properties *)

(** C16: reading .reloc the way the loader does gives exactly the base
    relocations of the sections that are not discardable, each section's in
    address order, provided that the first one of every section lies in the
    lowest page of that section. *)
Theorem addBaserels_roundtrip sections :
  Forall section_ok sections ->
  let reloc := concat (addBaserels true sections) in
  decode_blocks (length reloc) reloc =
  Some (flat_map (fun sec => sort_baserels (section_baserels sec)) sections).
Proof.
  intros H. destruct (addBaserels_reads sections H) as (relss & HF & <-).
  apply decode_concat; [done|]. by eapply length_concat_reads.
Qed.

(** Two pages of .text, a discardable section, and one entry of .data. *)
Definition sample_baserel_sections : list BaserelSection :=
  [ {| bs_Characteristics := 0x60000020;
       bs_chunks := [[{| br_rva := 0x1010; br_type := 10 |}; {| br_rva := 0x1004; br_type := 3 |}]; [];
                     [{| br_rva := 0x3ff8; br_type := 10 |}]] |};
    {| bs_Characteristics := 0x42000040; bs_chunks := [[{| br_rva := 0x5000; br_type := 10 |}]] |};
    {| bs_Characteristics := 0xC0000040; bs_chunks := [[{| br_rva := 0x6000; br_type := 10 |}]] |} ].

Lemma addBaserels_roundtrip_witness :
  let reloc := concat (addBaserels true sample_baserel_sections) in
  decode_blocks (length reloc) reloc =
  Some [ {| br_rva := 0x1004; br_type := 3 |}; {| br_rva := 0x1010; br_type := 10 |};
         {| br_rva := 0x3ff8; br_type := 10 |}; {| br_rva := 0x6000; br_type := 10 |} ].
Proof.
  refine (addBaserels_roundtrip sample_baserel_sections _).
  repeat constructor; vm_compute; discriminate.
Defined.

(** The page of the first block is taken from the first base relocation
    before the list is sorted. When a relocation of a lower page follows it,
    the loader does not find that relocation in .reloc. *)
Theorem unsorted_first_page_lost b0 b1 l :
  baserel_ok b0 -> baserel_ok b1 -> page_of b1 < page_of b0 ->
  decode_blocks (length (concat (addBaserelBlocks [b0; b1]))) (concat (addBaserelBlocks [b0; b1])) = Some l ->
  b1 ∉ l.
Proof.
  intros [H0 _] [H1 _] Hlt Hdec Hin.
  pose proof (page_of_in_page b0 H0) as P0. pose proof (page_of_in_page b1 H1) as P1.
  assert (Hr : br_rva b1 < br_rva b0).
  { destruct (Z.lt_ge_cases (br_rva b1) (br_rva b0)) as [|Hge]; [done|].
    pose proof (page_of_mono b0 b1 H0 H1 Hge). lia. }
  assert (Hblk : concat (addBaserelBlocks [b0; b1]) = BaserelChunk (page_of b0) [b1; b0]).
  { unfold addBaserelBlocks. cbn [stable_sort fold_right sort_insert].
    rewrite (proj2 (Z.ltb_lt _ _)) by done. cbn [drop baserel_loop]. rewrite Z.eqb_refl.
    cbn [Nat.eqb Nat.sub take drop concat]. apply app_nil_r. }
  rewrite Hblk in Hdec.
  destruct (length (BaserelChunk (page_of b0) [b1; b0])) as [|n] eqn:El.
  { destruct (BaserelChunk_length (page_of b0) [b1; b0]) as (E & k & Hk & _). lia. }
  apply decode_single_ge in Hdec; [|by apply page_of_word|simpl; lia].
  rewrite Forall_forall in Hdec. specialize (Hdec _ Hin).
  rewrite (page_of_spec b0 H0), (page_of_spec b1 H1) in *. unfold in_page, pageSize in *.
  pose proof (Z.div_mod (br_rva b1) 4096 ltac:(lia)). pose proof (Z.mod_pos_bound (br_rva b1) 4096 ltac:(lia)).
  nia.
Qed.

Lemma unsorted_first_page_lost_witness :
  let blocks := concat (addBaserelBlocks [ {| br_rva := 0x2000; br_type := 10 |};
                                           {| br_rva := 0x1008; br_type := 10 |} ]) in
  decode_blocks (length blocks) blocks =
    Some [ {| br_rva := 0x2008; br_type := 15 |}; {| br_rva := 0x2000; br_type := 10 |} ] /\
  {| br_rva := 0x1008; br_type := 10 |} ∉
    [ {| br_rva := 0x2008; br_type := 15 |}; {| br_rva := 0x2000; br_type := 10 |} ].
Proof.
  split; [vm_compute; reflexivity|].
  apply (unsorted_first_page_lost {| br_rva := 0x2000; br_type := 10 |} {| br_rva := 0x1008; br_type := 10 |});
    [split; vm_compute; by split|split; vm_compute; by split|vm_compute; reflexivity|vm_compute; reflexivity].
Defined.
