(* ===== verification/Rebase.v ===== *)
(** * Rebasing an image

    What the loader does with the base relocations when the image does not get
    its preferred address: the classification of [getBaserelType] is sound for
    every machine ([RebasableArch]), and a section relocated for one base and
    fixed up by the loader is the section relocated for the other. *)

From S2P Require Import Prelude Memory Reloc RelocProps SectionChunk Baserel.

(** ** Fields written twice *)

Lemma write_congr n m p x y a :
  wrap (8 * Z.of_nat n) x = wrap (8 * Z.of_nat n) y -> write n m p x a = write n m p y a.
Proof.
  intros H. destruct (decide (p <= a < p + Z.of_nat n)) as [Ha|Ha];
    [|by rewrite !write_other by lia].
  replace a with (p + (a - p)) by lia. rewrite !write_byte by lia.
  set (k := a - p). apply Z.bits_inj'. intros i Hi. rewrite !testbit_wrap by lia.
  destruct (Z.ltb_spec i 8); [simpl|done].
  rewrite <- !Z.shiftr_div_pow2, !Z.shiftr_spec by lia.
  apply (f_equal (fun z => Z.testbit z (i + 8 * k))) in H. rewrite !testbit_wrap in H by lia.
  rewrite (proj2 (Z.ltb_lt _ _)) in H by lia. exact H.
Qed.

Lemma write_write n m p x y a : write n (write n m p x) p y a = write n m p y a.
Proof.
  destruct (decide (p <= a < p + Z.of_nat n)) as [Ha|Ha]; [|by rewrite !write_other by lia].
  replace a with (p + (a - p)) by lia. by rewrite !write_byte by lia.
Qed.

(** Adding to a field, then adding the displacement. *)
Lemma add_add n m p v w d a :
  wrap (8 * Z.of_nat n) w = wrap (8 * Z.of_nat n) (v + d) ->
  write n m p (read n m p + w) a =
  write n (write n m p (read n m p + v)) p (read n (write n m p (read n m p + v)) p + d) a.
Proof.
  intros H. rewrite write_write, read_write. apply write_congr.
  rewrite wrap_add_wrap_l, <- Z.add_assoc, !(Z.add_comm (read n m p)) by lia.
  by apply wrap_add_congr; [lia|].
Qed.

Lemma add32_rebase off v delta st a :
  rmem (add32 off (v + delta) st) a = loader_fix IMAGE_REL_BASED_HIGHLOW delta off (rmem (add32 off v st)) a.
Proof.
  unfold loader_fix, add32, on_mem. cbn [rmem]. simpl. apply (add_add 4).
  rewrite wrap_sext by lia. by rewrite !(Z.add_comm _ delta), wrap_add_sext_r by lia.
Qed.

Lemma add64_rebase off v delta st a :
  rmem (add64 off (v + delta) st) a = loader_fix IMAGE_REL_BASED_DIR64 delta off (rmem (add64 off v st)) a.
Proof.
  unfold loader_fix, add64, on_mem. cbn [rmem]. simpl. apply (add_add 8).
  rewrite wrap_sext by lia. by rewrite !(Z.add_comm _ delta), wrap_add_sext_r by lia.
Qed.

(** ** MOVW/MOVT pairs *)

(** The half-words [applyMOV] stores. *)
Definition mov_hw1 (v r : Z) : Z :=
  (r &&& 0xfbf0) ||| ((u16 v &&& 0x800) >>> 1) ||| ((u16 v >>> 12) &&& 0xf).
Definition mov_hw2 (v r : Z) : Z :=
  (r &&& 0x8f00) ||| ((u16 v &&& 0x700) <<< 4) ||| (u16 v &&& 0xff).

Lemma mov_hw1_twice v w r : u16 (mov_hw1 w (u16 (mov_hw1 v r))) = u16 (mov_hw1 w r).
Proof.
  apply wrap_bits; [lia|]. intros i Hi. unfold mov_hw1. each_bit i 16 ltac:(eval_bits; btauto).
Qed.
Lemma mov_hw2_twice v w r : u16 (mov_hw2 w (u16 (mov_hw2 v r))) = u16 (mov_hw2 w r).
Proof.
  apply wrap_bits; [lia|]. intros i Hi. unfold mov_hw2. each_bit i 16 ltac:(eval_bits; btauto).
Qed.

(** [applyMOV] as two writes of half-words of the old memory. *)
Lemma applyMOV_writes off v st :
  rmem (applyMOV off v st) =
  write16le (write16le (rmem st) off (mov_hw1 v (read16le (rmem st) off))) (off + 2)
    (mov_hw2 v (read16le (rmem st) (off + 2))).
Proof.
  unfold applyMOV, on_mem. cbn [rmem]. by rewrite read_write_other by lia.
Qed.

(** Two pairs of writes over each other leave the second. *)
Lemma applyMOV_over off v w st st1 st2 a :
  (forall b, off <= b < off + 4 -> rmem st1 b = rmem (applyMOV off v st) b) ->
  (forall b, off <= b < off + 4 -> rmem st2 b = rmem st b) ->
  off <= a < off + 4 ->
  rmem (applyMOV off w st1) a = rmem (applyMOV off w st2) a.
Proof.
  intros H H' Ha. rewrite !applyMOV_writes.
  assert (H1 : read16le (rmem st1) off = u16 (mov_hw1 v (read16le (rmem st) off))).
  { etrans; [|apply (applyMOV_hw1 off v st)]. apply read_ext. intros k Hk. apply H. lia. }
  assert (H2 : read16le (rmem st1) (off + 2) = u16 (mov_hw2 v (read16le (rmem st) (off + 2)))).
  { etrans; [|apply (applyMOV_hw2 off v st)]. apply read_ext. intros k Hk. apply H. lia. }
  assert (H3 : read16le (rmem st2) off = read16le (rmem st) off).
  { apply read_ext. intros k Hk. apply H'. lia. }
  assert (H4 : read16le (rmem st2) (off + 2) = read16le (rmem st) (off + 2)).
  { apply read_ext. intros k Hk. apply H'. lia. }
  rewrite H1, H2, H3, H4.
  destruct (decide (off + 2 <= a)) as [Hb|Hb].
  - replace a with (off + 2 + (a - (off + 2))) by lia.
    rewrite (write_congr 2 _ _ _ _ _ (mov_hw2_twice v w _)). by rewrite !write_byte by lia.
  - rewrite !(write_other 2 _ (off + 2)) by lia. replace a with (off + (a - off)) by lia.
    rewrite (write_congr 2 _ _ _ _ _ (mov_hw1_twice v w _)). by rewrite !write_byte by lia.
Qed.

Lemma applyMOV32T_twice off v w st a :
  rmem (applyMOV32T off w {| rmem := rmem (applyMOV32T off v st); errs := [] |}) a =
  rmem (applyMOV32T off (v + w) st) a.
Proof.
  pose proof (mov32t_imm_apply off v st) as Himm.
  rewrite (applyMOV32T_unfold off w), (applyMOV32T_unfold off (v + w)). cbv zeta.
  fold (mov32t_imm off (rmem st)). set (imm := mov32t_imm off (rmem st)) in *. cbn [rmem].
  fold (mov32t_imm off (rmem (applyMOV32T off v st))). rewrite Himm.
  replace (u32 (w + u32 (v + imm))) with (u32 (v + w + imm)).
  2: { rewrite wrap_add_wrap_r by lia. f_equal. lia. }
  set (x := u32 (v + w + imm)).
  set (st1 := readMOV_error (off + 4) true (readMOV_error off false {| rmem := _; errs := _ |})).
  set (st0 := readMOV_error (off + 4) true (readMOV_error off false st)).
  set (y := u32 (v + imm)).
  assert (E1 : rmem st1 = rmem (applyMOV (off + 4) (y >>> 16) (applyMOV off y st0))).
  { unfold st1. rewrite !rmem_readMOV_error. cbn [rmem]. by rewrite applyMOV32T_unfold. }
  assert (E0 : forall b, off <= b < off + 4 -> rmem st1 b = rmem (applyMOV off y st0) b).
  { intros b Hb. rewrite E1. apply applyMOV_other. lia. }
  destruct (decide (off <= a < off + 8)) as [Ha|Ha].
  2: { rewrite !applyMOV_other by lia. rewrite E1. by rewrite !applyMOV_other by lia. }
  destruct (decide (a < off + 4)) as [Hb|Hb].
  - rewrite !(applyMOV_other (off + 4)) by lia.
    by apply (applyMOV_over off y x st0); [..|lia].
  - apply (applyMOV_over (off + 4) (y >>> 16) (x >>> 16) (applyMOV off y st0)); [| |lia].
    + intros b Hb'. rewrite applyMOV_other by lia. by rewrite E1.
    + intros b Hb'. by rewrite !applyMOV_other by lia.
Qed.

Lemma mov32t_rebase off v delta st a :
  rmem (applyMOV32T off (v + delta) st) a =
  loader_fix IMAGE_REL_BASED_ARM_MOV32T delta off (rmem (applyMOV32T off v st)) a.
Proof. symmetry. apply (applyMOV32T_twice off v delta st a). Qed.

(** ** Machines *)

(** The bytes of the field a base relocation names. *)
Definition fix_width (ty : Z) : Z :=
  if ty =? IMAGE_REL_BASED_DIR64 then 8
  else if ty =? IMAGE_REL_BASED_HIGHLOW then 4
  else if ty =? IMAGE_REL_BASED_ARM_MOV32T then 8 else 0.

(** [getBaserelType] is sound: moving the image by [delta] changes a field the
    way the loader does; [rebasable] excludes the types it does not list. The
    target of a relocation is an RVA, except for absolute symbols, whose RVA
    moves the other way. *)
Class RebasableArch {A : RelocArch} := {
  getBaserelType : Z -> Z;
  rebasable : Z -> bool;
  apply_rebase sec off type os s p base delta st a :
    rebasable type = true ->
    rmem (apply sec off type os s p (base + delta) st) a =
    loader_fix (getBaserelType type) delta off (rmem (apply sec off type os s p base st)) a;
  apply_absolute sec off type s p base delta st a :
    getBaserelType type <> IMAGE_REL_BASED_ABSOLUTE ->
    rmem (apply sec off type None (u64 (s - delta)) p (base + delta) st) a =
    rmem (apply sec off type None s p base st) a;
  baserel_fits type : fix_width (getBaserelType type) <= width type
}.
#[global] Hint Mode RebasableArch + : typeclass_instances.

Lemma add32_congr off v w st a : u32 v = u32 w -> rmem (add32 off v st) a = rmem (add32 off w st) a.
Proof.
  intros H. unfold add32, on_mem. cbn [rmem]. apply write_congr. change (8 * Z.of_nat 4) with 32.
  rewrite !wrap_add_sext_r, !(Z.add_comm (read32le _ _)) by lia. by apply wrap_add_congr.
Qed.

Lemma add64_congr off v w st a : u64 v = u64 w -> rmem (add64 off v st) a = rmem (add64 off w st) a.
Proof.
  intros H. unfold add64, on_mem. cbn [rmem]. apply write_congr. change (8 * Z.of_nat 8) with 64.
  rewrite !wrap_add_sext_r, !(Z.add_comm (read64le _ _)) by lia. by apply wrap_add_congr.
Qed.

Lemma applyMOV32T_congr off v w st : u32 v = u32 w -> applyMOV32T off v st = applyMOV32T off w st.
Proof.
  intros H. rewrite !applyMOV32T_unfold. cbv zeta.
  by rewrite (wrap_add_congr 32 v w) by (done || lia).
Qed.

Lemma absolute_sum w s base delta : 0 <= w <= 64 -> wrap w (u64 (s - delta) + (base + delta)) = wrap w (s + base).
Proof.
  intros Hw. rewrite <- (wrap_add_wrap_l w), (wrap_wrap_le w 64) by lia.
  rewrite wrap_add_wrap_l by lia. f_equal. lia.
Qed.

(** Walk down a switch, one case per constant; the other comparisons with a
    known constant are evaluated. *)
Ltac eval_eqb c :=
  repeat match goal with
  | |- context [c =? ?d] => let v := eval vm_compute in (c =? d) in change (c =? d) with v
  end; cbv beta iota.
Ltac switch_cases :=
  cbv beta iota zeta;
  repeat match goal with
  | |- context [if (?t =? ?c) then _ else _] =>
      let E := fresh "E" in destruct (Z.eqb_spec t c) as [E|E];
      [subst t; eval_eqb c|cbv beta iota]
  end.

Ltac rebase_case :=
  rewrite ?Z.add_assoc;
  match goal with
  | |- _ = loader_fix IMAGE_REL_BASED_HIGHLOW _ _ _ _ => apply add32_rebase
  | |- _ = loader_fix IMAGE_REL_BASED_DIR64 _ _ _ _ => apply add64_rebase
  | |- _ = loader_fix IMAGE_REL_BASED_ARM_MOV32T _ _ _ _ => apply mov32t_rebase
  | |- _ => reflexivity
  end.
Ltac absolute_case :=
  match goal with
  | H : ?t <> ?t |- _ => destruct (H eq_refl)
  | |- rmem (add32 _ _ _) _ = _ => apply add32_congr, absolute_sum; lia
  | |- rmem (add64 _ _ _) _ = _ => apply add64_congr, absolute_sum; lia
  | |- rmem (applyMOV32T _ _ _) _ = _ =>
      erewrite applyMOV32T_congr; [reflexivity|apply absolute_sum; lia]
  end.

Lemma apply_rebase_X64 sec off type os s p base delta st a :
  rmem (applyRelX64 sec off type os s p (base + delta) st) a =
  loader_fix (getBaserelTypeX64 type) delta off (rmem (applyRelX64 sec off type os s p base st)) a.
Proof. unfold applyRelX64, getBaserelTypeX64. switch_cases; rebase_case. Qed.

Lemma apply_rebase_X86 sec off type os s p base delta st a :
  rmem (applyRelX86 sec off type os s p (base + delta) st) a =
  loader_fix (getBaserelTypeX86 type) delta off (rmem (applyRelX86 sec off type os s p base st)) a.
Proof. unfold applyRelX86, getBaserelTypeX86. switch_cases; rebase_case. Qed.

Lemma apply_rebase_ARM sec off type os s p base delta st a :
  rmem (applyRelARM sec off type os s p (base + delta) st) a =
  loader_fix (getBaserelTypeARM type) delta off (rmem (applyRelARM sec off type os s p base st)) a.
Proof. unfold applyRelARM, getBaserelTypeARM. switch_cases; rebase_case. Qed.

Definition rebasableARM64 (type : Z) : bool := negb (type =? IMAGE_REL_ARM64_ADDR32).

Lemma apply_rebase_ARM64 sec off type os s p base delta st a :
  rebasableARM64 type = true ->
  rmem (applyRelARM64 sec off type os s p (base + delta) st) a =
  loader_fix (getBaserelTypeARM64 type) delta off (rmem (applyRelARM64 sec off type os s p base st)) a.
Proof.
  unfold applyRelARM64, getBaserelTypeARM64, rebasableARM64. switch_cases; intros H;
    try discriminate H;
    rebase_case.
Qed.

Lemma apply_absolute_X64 sec off type s p base delta st a :
  getBaserelTypeX64 type <> IMAGE_REL_BASED_ABSOLUTE ->
  rmem (applyRelX64 sec off type None (u64 (s - delta)) p (base + delta) st) a =
  rmem (applyRelX64 sec off type None s p base st) a.
Proof. unfold applyRelX64, getBaserelTypeX64. switch_cases; intros H; absolute_case. Qed.

Lemma apply_absolute_X86 sec off type s p base delta st a :
  getBaserelTypeX86 type <> IMAGE_REL_BASED_ABSOLUTE ->
  rmem (applyRelX86 sec off type None (u64 (s - delta)) p (base + delta) st) a =
  rmem (applyRelX86 sec off type None s p base st) a.
Proof. unfold applyRelX86, getBaserelTypeX86. switch_cases; intros H; absolute_case. Qed.

Lemma apply_absolute_ARM sec off type s p base delta st a :
  getBaserelTypeARM type <> IMAGE_REL_BASED_ABSOLUTE ->
  rmem (applyRelARM sec off type None (u64 (s - delta)) p (base + delta) st) a =
  rmem (applyRelARM sec off type None s p base st) a.
Proof.
  unfold applyRelARM, getBaserelTypeARM. switch_cases; intros H; absolute_case.
Qed.

Lemma apply_absolute_ARM64 sec off type s p base delta st a :
  getBaserelTypeARM64 type <> IMAGE_REL_BASED_ABSOLUTE ->
  rmem (applyRelARM64 sec off type None (u64 (s - delta)) p (base + delta) st) a =
  rmem (applyRelARM64 sec off type None s p base st) a.
Proof. unfold applyRelARM64, getBaserelTypeARM64. switch_cases; intros H; absolute_case. Qed.

Ltac fits_case := switch_cases; vm_compute; discriminate.

Lemma baserel_fits_X64 type : fix_width (getBaserelTypeX64 type) <= widthX64 type.
Proof. unfold getBaserelTypeX64, widthX64. fits_case. Qed.
Lemma baserel_fits_X86 type : fix_width (getBaserelTypeX86 type) <= widthX86 type.
Proof. unfold getBaserelTypeX86, widthX86. fits_case. Qed.
Lemma baserel_fits_ARM type : fix_width (getBaserelTypeARM type) <= widthARM type.
Proof. unfold getBaserelTypeARM, widthARM. fits_case. Qed.
Lemma baserel_fits_ARM64 type : fix_width (getBaserelTypeARM64 type) <= widthARM64 type.
Proof. unfold getBaserelTypeARM64, widthARM64. fits_case. Qed.

#[export] Instance rebaseX64 : RebasableArch (A := archX64) :=
  Build_RebasableArch archX64 getBaserelTypeX64 (fun _ => true)
    (fun sec off type os s p base delta st a _ =>
       apply_rebase_X64 sec off type os s p base delta st a)
    apply_absolute_X64 baserel_fits_X64.
#[export] Instance rebaseX86 : RebasableArch (A := archX86) :=
  Build_RebasableArch archX86 getBaserelTypeX86 (fun _ => true)
    (fun sec off type os s p base delta st a _ =>
       apply_rebase_X86 sec off type os s p base delta st a)
    apply_absolute_X86 baserel_fits_X86.
#[export] Instance rebaseARM : RebasableArch (A := archARM) :=
  Build_RebasableArch archARM getBaserelTypeARM (fun _ => true)
    (fun sec off type os s p base delta st a _ =>
       apply_rebase_ARM sec off type os s p base delta st a)
    apply_absolute_ARM baserel_fits_ARM.
#[export] Instance rebaseARM64 : RebasableArch (A := archARM64) :=
  Build_RebasableArch archARM64 getBaserelTypeARM64 rebasableARM64
    apply_rebase_ARM64 apply_absolute_ARM64 baserel_fits_ARM64.

(** ** Memory equality, and operations on disjoint fields *)

Definition same_mem (st st' : rstate) : Prop := forall a, rmem st a = rmem st' a.

#[export] Instance same_mem_equiv : Equivalence same_mem.
Proof.
  split; [by intros st a|by intros st st' H a|].
  intros st1 st2 st3 H1 H2 a. by rewrite H1.
Qed.

Lemma fieldop_same_mem w op `{!FieldOp w op} off st st' :
  same_mem st st' -> same_mem (op off st) (op off st').
Proof.
  intros H a. destruct (decide (off <= a < off + w)) as [Ha|Ha].
  - destruct (fo_local (op := op) off off st st') as [Hl _]; [by intros k _|].
    replace a with (off + (a - off)) by lia. apply Hl. lia.
  - by rewrite !(fo_frame (op := op) (w := w)) by lia.
Qed.

Lemma fieldop_commute w1 w2 f g `{!FieldOp w1 f} `{!FieldOp w2 g} off1 off2 st :
  off1 + w1 <= off2 \/ off2 + w2 <= off1 ->
  same_mem (f off1 (g off2 st)) (g off2 (f off1 st)).
Proof.
  intros Hd a. destruct (decide (off1 <= a < off1 + w1)) as [Ha|Ha].
  - rewrite (fo_frame (op := g) (w := w2)) by lia. replace a with (off1 + (a - off1)) by lia.
    destruct (fo_local (op := f) off1 off1 (g off2 st) st) as [Hl _]; [|apply Hl; lia].
    intros k Hk. apply (fo_frame (op := g)). lia.
  - rewrite (fo_frame (op := f) (w := w1)) by lia.
    destruct (decide (off2 <= a < off2 + w2)) as [Hb|Hb].
    + replace a with (off2 + (a - off2)) by lia.
      destruct (fo_local (op := g) off2 off2 st (f off1 st)) as [Hl _]; [|apply Hl; lia].
      intros k Hk. symmetry. apply (fo_frame (op := f)). lia.
    + rewrite !(fo_frame (op := g) (w := w2)) by lia. by rewrite (fo_frame (op := f) (w := w1)) by lia.
Qed.

(** Operations [g] on disjoint fields, each the operation [f] followed by [h],
    are all the [f]s followed by all the [h]s. *)
Section Folds.
  Context {X : Type}.
  Implicit Types f g h : rstate -> X -> rstate.

Definition respects f : Prop := forall x st st', same_mem st st' -> same_mem (f st x) (f st' x).

Lemma fold_same_mem f xs st st' : respects f -> same_mem st st' -> same_mem (fold_left f xs st) (fold_left f xs st').
Proof. intros Hf. revert st st'. induction xs; intros st st' H; simpl; auto. Qed.

Lemma fold_commute f h x xs st :
  respects f -> Forall (fun y => forall st, same_mem (h (f st y) x) (f (h st x) y)) xs ->
  same_mem (h (fold_left f xs st) x) (fold_left f xs (h st x)).
Proof.
  intros Hf H. revert st. induction H as [|y ys Hd _ IH]; intros st; simpl; [done|].
  rewrite IH. by apply fold_same_mem.
Qed.

Lemma fold_after f g h (R : X -> X -> Prop) xs st1 st0 :
  respects f -> respects g -> respects h ->
  Forall (fun x => forall st, same_mem (g st x) (h (f st x) x)) xs ->
  (forall x y st, R x y -> same_mem (h (f st y) x) (f (h st x) y)) ->
  StronglySorted R xs -> same_mem st1 st0 ->
  same_mem (fold_left g xs st1) (fold_left h xs (fold_left f xs st0)).
Proof.
  intros Hf Hg Hh Hok Hc Hs. revert st1 st0 Hok. induction Hs as [|x xs _ IH Hd]; intros st1 st0 Hok H; simpl; [done|].
  apply Forall_cons in Hok as [Hx Hok].
  etrans; [apply (IH _ (h (f st0 x) x) Hok)|].
  - etrans; [by apply Hg|]. apply Hx.
  - apply fold_same_mem; [done|]. symmetry. apply fold_commute; [done|].
    eapply Forall_impl; [exact Hd|]. auto.
Qed.
End Folds.

(** One fixup as a field operation. *)
Definition fix_op (ty delta off : Z) (st : rstate) : rstate := on_mem (loader_fix ty delta off) st.

Lemma fix_op_field ty delta : FieldOp (fix_width ty) (fix_op ty delta).
Proof.
  unfold fix_op, loader_fix, fix_width.
  destruct (ty =? IMAGE_REL_BASED_DIR64); [by apply (fieldop_modify0 8 8 (fun r => r + delta))|].
  destruct (ty =? IMAGE_REL_BASED_HIGHLOW); [by apply (fieldop_modify0 4 4 (fun r => r + delta))|].
  destruct (ty =? IMAGE_REL_BASED_ARM_MOV32T).
  2: { split; [done|done|]. intros off off' st st' H. split; [done|].
       exists []. by rewrite !app_nil_r. }
  pose proof (applyMOV32T_field delta) as HF. split.
  - intros off st a Ha. unfold on_mem. cbn [rmem]. by rewrite (fo_frame (FieldOp := HF)) by done.
  - intros off st Hm. unfold on_mem. cbn [rmem]. by apply (fo_ok (FieldOp := HF)).
  - intros off off' st st' H. unfold on_mem. cbn [rmem errs].
    split; [|exists []; by rewrite !app_nil_r].
    by apply (fo_local (FieldOp := HF) off off' {| rmem := rmem st; errs := [] |}
                {| rmem := rmem st'; errs := [] |}).
Qed.

(** ** Sections *)

(** The loader's walk over the base relocations, for an image loaded with RVA
    0 at [image]. *)
Definition load_fixups (delta image : Z) (brs : list Baserel) (m : mem) : mem :=
  fold_left (fun m b => loader_fix (br_type b) delta (image + br_rva b) m) brs m.

(** The link with the image [delta] further: absolute symbols keep their
    address, so their RVA moves back ([DefinedAbsolute::getRVA]). *)
Definition rebase_cfg (delta : Z) (cfg : link_cfg) : link_cfg :=
  {| imageBase := imageBase cfg + delta; mingw := mingw cfg;
     outputSections_size := outputSections_size cfg |}.
Definition rebase_symbol (delta : Z) (sym : Defined) : Defined :=
  {| symRVA := if isAbsolute sym then u64 (symRVA sym - delta) else symRVA sym;
     symOutputSection := symOutputSection sym;
     isAbsolute := isAbsolute sym; isSynthetic := isSynthetic sym |}.
Definition rebase_section (delta : Z) (sc : SectionChunk) : SectionChunk :=
  {| hasData := hasData sc; contents := contents sc; SizeOfRawData := SizeOfRawData sc;
     rva := rva sc; relocs := relocs sc;
     getSymbol := fun i => rebase_symbol delta <$> getSymbol sc i;
     sc_isCodeView := sc_isCodeView sc; sc_isDWARF := sc_isDWARF sc |}.

Section SectionRebase.
  Context {A : RelocArch} {R : RebasableArch} (cfg : link_cfg) (sc : SectionChunk) (delta buf : Z).

(** A relocation inside the section, against a live symbol, of a type
    [getBaserelType] classifies; an absolute symbol only through an address. *)
Record rel_rebasable (rel : coff_relocation) : Prop := {
  rr_inside : 0 <= VirtualAddress rel < SizeOfRawData sc;
  rr_image : 0 <= rva sc + VirtualAddress rel < 2 ^ 32;
  rr_type : rebasable (Type_ rel) = true;
  rr_symbol : exists sym, getSymbol sc (SymbolTableIndex rel) = Some sym /\
    (symOutputSection sym = None -> isAbsolute sym = true \/ isSynthetic sym = true) /\
    (isAbsolute sym = true ->
       symOutputSection sym = None /\ getBaserelType (Type_ rel) <> IMAGE_REL_BASED_ABSOLUTE)
}.

(** What [getBaserels] lists for one relocation, done by the loader. *)
Definition fixup_rel (st : rstate) (rel : coff_relocation) : rstate :=
  match getSymbol sc (SymbolTableIndex rel) with
  | Some sym =>
      if isAbsolute sym then st
      else fix_op (getBaserelType (Type_ rel)) delta (buf + VirtualAddress rel) st
  | None => st
  end.

Lemma fixup_rel_field rel :
  exists ty, fix_width ty <= width (Type_ rel) /\
    forall st, same_mem (fixup_rel st rel) (fix_op ty delta (buf + VirtualAddress rel) st).
Proof.
  unfold fixup_rel. destruct (getSymbol sc (SymbolTableIndex rel)) as [sym|].
  2: { exists 0. split; [|done]. pose proof (width_range (Type_ rel)). change (fix_width 0) with 0. lia. }
  destruct (isAbsolute sym).
  - exists 0. split; [|done]. pose proof (width_range (Type_ rel)). change (fix_width 0) with 0. lia.
  - exists (getBaserelType (Type_ rel)). split; [apply baserel_fits|done].
Qed.

Lemma getBaserels_fixups rels m :
  Forall (fun rel => rel ∈ relocs sc /\ rel_rebasable rel) rels ->
  forall st, rmem st = m ->
  rmem (fold_left fixup_rel rels st) =
  load_fixups delta (buf - rva sc)
    (flat_map (fun rel =>
      let ty := getBaserelType (Type_ rel) in
      if ty =? IMAGE_REL_BASED_ABSOLUTE then []
      else match getSymbol sc (SymbolTableIndex rel) with
           | None => []
           | Some target =>
               if isAbsolute target then []
               else [{| br_rva := u32 (rva sc + VirtualAddress rel); br_type := ty |}]
           end) rels) m.
Proof.
  intros H. revert m. induction H as [|rel rels [_ [Hin Him Hty Hsym]] _ IH]; intros m st <-; [done|].
  cbn [flat_map fold_left]. unfold load_fixups. rewrite fold_left_app.
  erewrite IH by reflexivity. unfold load_fixups. f_equal.
  unfold fixup_rel. destruct Hsym as (sym & -> & _ & _).
  destruct (isAbsolute sym); [by case_match|].
  destruct (Z.eqb_spec (getBaserelType (Type_ rel)) IMAGE_REL_BASED_ABSOLUTE) as [E|E].
  - rewrite E. done.
  - cbn [fold_left br_rva br_type]. rewrite wrap_small by done.
    unfold fix_op, on_mem. cbn [rmem]. f_equal. lia.
Qed.

(** Relocating for the moved base is relocating, then fixing up. *)
Lemma write_reloc_rebase rel st :
  rel_rebasable rel ->
  same_mem (write_reloc (rebase_cfg delta cfg) (rebase_section delta sc) buf st rel)
    (fixup_rel (write_reloc cfg sc buf st rel) rel).
Proof.
  intros [Hin Him Hty (sym & Hsym & Hos & Habs)] a. unfold write_reloc, fixup_rel.
  cbn [rebase_section SizeOfRawData]. rewrite (proj2 (Z.leb_gt _ _)) by lia.
  unfold applyRelocation. cbn [rebase_section getSymbol]. rewrite Hsym. cbn [fmap option_fmap option_map].
  cbn [rebase_symbol symOutputSection isAbsolute isSynthetic symRVA].
  assert (Hlive : bool_decide (symOutputSection sym = None) && negb (isAbsolute sym) &&
                  negb (isSynthetic sym) = false).
  { destruct (symOutputSection sym) as [o|]; [by rewrite bool_decide_false|].
    destruct (Hos eq_refl) as [-> | ->]; by rewrite ?andb_false_r. }
  rewrite Hlive. cbn [rebase_section rva]. unfold ctx_of. cbn.
  destruct (isAbsolute sym).
  - destruct (Habs eq_refl) as [-> Hne]. by apply apply_absolute.
  - unfold fix_op, on_mem. cbn [rmem]. by apply apply_rebase.
Qed.

Lemma write_reloc_same_mem cfg' sc' rel st st' :
  same_mem st st' -> same_mem (write_reloc cfg' sc' buf st rel) (write_reloc cfg' sc' buf st' rel).
Proof.
  intros H. unfold write_reloc. case_match; [exact H|].
  by apply (fieldop_same_mem _ _ (FieldOp0 := applyRelocation_field cfg' sc' rel)).
Qed.

Lemma fixup_rel_same_mem rel st st' :
  same_mem st st' -> same_mem (fixup_rel st rel) (fixup_rel st' rel).
Proof.
  intros H. destruct (fixup_rel_field rel) as (ty & _ & E). rewrite !E.
  by apply (fieldop_same_mem _ _ (FieldOp0 := fix_op_field ty delta)).
Qed.

Lemma fixup_write_commute rel rel' st :
  rel_end rel <= VirtualAddress rel' ->
  same_mem (fixup_rel (write_reloc cfg sc buf st rel') rel)
    (write_reloc cfg sc buf (fixup_rel st rel) rel').
Proof.
  intros Hd. destruct (fixup_rel_field rel) as (ty & Hw & E). rewrite E.
  rewrite (write_reloc_same_mem cfg sc rel' _ _ (E st)).
  unfold write_reloc. case_match; [done|]. unfold rel_end in Hd.
  apply (fieldop_commute (fix_width ty) (width (Type_ rel')) (fix_op ty delta)
    (fun off => applyRelocation cfg sc rel' off)
    (FieldOp0 := fix_op_field ty delta) (FieldOp1 := applyRelocation_field cfg sc rel')). lia.
Qed.

Lemma fold_rebase rels st1 st0 :
  Forall rel_rebasable rels ->
  StronglySorted (fun r1 r2 => rel_end r1 <= VirtualAddress r2) rels ->
  same_mem st1 st0 ->
  same_mem
    (fold_left (write_reloc (rebase_cfg delta cfg) (rebase_section delta sc) buf) rels st1)
    (fold_left fixup_rel rels (fold_left (write_reloc cfg sc buf) rels st0)).
Proof.
  intros Hok Hs. eapply fold_after; [by intros ???; apply write_reloc_same_mem..|by intros ???; apply fixup_rel_same_mem| | |exact Hs].
  - eapply Forall_impl; [exact Hok|]. intros rel Hr st. by apply write_reloc_rebase.
  - by apply fixup_write_commute.
Qed.

End SectionRebase.

(** ** Properties *)

(** [prepareLoadConfig] stores the pointer [v] of the EC load configuration in the
    field of the native one. *)
Definition fill_chpe (hl : hybrid_link) (sc : SectionChunk) (buf v : Z) (m : mem) : mem :=
  match chpe_field hl with Some f => write64le m (buf + (f - rva sc)) v | None => m end.

(** The field is none of the section's relocations. *)
Definition chpe_apart {A : RelocArch} (hl : hybrid_link) (sc : SectionChunk) : Prop :=
  forall f, chpe_field hl = Some f -> 0 <= f < 2 ^ 32 /\
    Forall (fun rel => rel_end rel <= f - rva sc \/ f - rva sc + 8 <= VirtualAddress rel) (relocs sc).

Lemma fixups_fill_commute {A : RelocArch} {R : RebasableArch} sc delta buf off v rels st :
  Forall (fun rel => rel_end rel <= off \/ off + 8 <= VirtualAddress rel) rels ->
  same_mem (fold_left (fixup_rel sc delta buf) rels (on_mem (fun m => write64le m (buf + off) v) st))
    (on_mem (fun m => write64le m (buf + off) v) (fold_left (fixup_rel sc delta buf) rels st)).
Proof.
  pose proof (fieldop_modify0 8 8 (fun _ => v) ltac:(lia)) as HF. intros H. revert st.
  induction H as [|rel rels Hd _ IH]; intros st; cbn [fold_left]; [done|].
  etrans; [apply fold_same_mem; [by intros ???; apply fixup_rel_same_mem|]|apply IH].
  destruct (fixup_rel_field sc delta buf rel) as (ty & Hw & E).
  pose proof (fix_op_field ty delta) as HG. unfold rel_end in Hd. etrans; [apply E|].
  etrans; [apply (fieldop_commute _ _ _ _ (FieldOp0 := HG) (FieldOp1 := HF)); lia|].
  apply (fieldop_same_mem _ _ (FieldOp0 := HF)). symmetry. apply E.
Qed.

Lemma section_fixups {A : RelocArch} {R : RebasableArch} cfg sc delta buf st :
  Forall (rel_rebasable sc) (relocs sc) ->
  StronglySorted (fun r1 r2 => rel_end r1 <= VirtualAddress r2) (relocs sc) ->
  hasData sc = true ->
  same_mem (writeTo (rebase_cfg delta cfg) (rebase_section delta sc) buf st)
    (fold_left (fixup_rel sc delta buf) (relocs sc) (writeTo cfg sc buf st)).
Proof.
  intros Hok Hs Hd. unfold writeTo. cbn [rebase_section hasData contents relocs]. rewrite Hd. cbn [negb].
  by apply fold_rebase.
Qed.


