(* ===== verification/Thunks.v ===== *)
(** * Thunks (lld/COFF/Chunks.cpp and Chunks.h)

    The code the linker writes itself: import thunks, which jump through an
    import address table slot, and range-extension thunks, which jump to a
    target a branch cannot reach; and the small chunks that hold one pointer or
    string. The specification executes the instructions: [arm64_step] and
    [thumb_step] are the few instructions the thunks use. *)

From S2P Require Import Prelude Memory Reloc RelocProps SectionChunk Baserel Rebase.

(** ** Templates *)

Definition importThunkX86 : list Z := [0xff; 0x25; 0x00; 0x00; 0x00; 0x00].

Definition importThunkARM : list Z :=
  [0x40; 0xf2; 0x00; 0x0c; (* mov.w ip, #0 *)
   0xc0; 0xf2; 0x00; 0x0c; (* mov.t ip, #0 *)
   0xdc; 0xf8; 0x00; 0xf0  (* ldr.w pc, [ip] *)].

Definition importThunkARM64 : list Z :=
  [0x10; 0x00; 0x00; 0x90; (* adrp x16, #0 *)
   0x10; 0x02; 0x40; 0xf9; (* ldr  x16, [x16] *)
   0x00; 0x02; 0x1f; 0xd6  (* br   x16 *)].

Definition importThunkARM64EC : list Z :=
  [0x0b; 0x00; 0x00; 0x90; (* adrp x11, 0x0 *)
   0x6b; 0x01; 0x40; 0xf9; (* ldr  x11, [x11] *)
   0x0a; 0x00; 0x00; 0x90; (* adrp x10, 0x0 *)
   0x4a; 0x01; 0x00; 0x91; (* add  x10, x10, #0x0 *)
   0x00; 0x00; 0x00; 0x14  (* b    0x0 *)].

Definition armThunk : list Z :=
  [0x40; 0xf2; 0x00; 0x0c; (* P:  movw ip,:lower16:S - (P + (L1-P) + 4) *)
   0xc0; 0xf2; 0x00; 0x0c; (*     movt ip,:upper16:S - (P + (L1-P) + 4) *)
   0xe7; 0x44              (* L1: add  pc, ip *)].

Definition arm64Thunk : list Z :=
  [0x10; 0x00; 0x00; 0x90; (* adrp x16, Dest *)
   0x10; 0x02; 0x00; 0x91; (* add  x16, x16, :lo12:Dest *)
   0x00; 0x02; 0x1f; 0xd6  (* br   x16 *)].

Definition ECExportThunkCode : list Z :=
  [0x48; 0x8b; 0xc4; 0x48; 0x89; 0x58; 0x20; 0x55; 0x5d; 0xe9; 0; 0; 0; 0; 0xcc; 0xcc].

(** ** [writeTo] of each chunk, at [buf]; [rva] is the chunk's RVA *)

Definition put (buf : Z) (bs : list Z) : rstate -> rstate := on_mem (fun m => memcpy m buf bs).

Definition ImportThunkChunkX64_writeTo (impRVA rva buf : Z) (st : rstate) : rstate :=
  let st := put buf importThunkX86 st in
  on_mem (fun m => write32le m (buf + 2) (impRVA - rva - Z.of_nat (length importThunkX86))) st.

Definition ImportThunkChunkX86_writeTo (imageBase impRVA buf : Z) (st : rstate) : rstate :=
  let st := put buf importThunkX86 st in
  on_mem (fun m => write32le m (buf + 2) (impRVA + imageBase)) st.

Definition ImportThunkChunkARM_writeTo (imageBase impRVA buf : Z) (st : rstate) : rstate :=
  let st := put buf importThunkARM st in
  applyMOV32T buf (impRVA + imageBase) st.

Definition ImportThunkChunkARM64_writeTo (impRVA rva buf : Z) (st : rstate) : rstate :=
  let off := impRVA &&& 0xfff in
  let st := put buf importThunkARM64 st in
  let st := applyArm64Addr buf impRVA rva 12 st in
  applyArm64Ldr (buf + 4) off st.

Definition RangeExtensionThunkARM_writeTo (targetRVA rva buf : Z) (st : rstate) : rstate :=
  let offset := u64 (targetRVA - rva - 12) in
  let st := put buf armThunk st in
  applyMOV32T buf (u32 offset) st.

Definition RangeExtensionThunkARM64_writeTo (targetRVA rva buf : Z) (st : rstate) : rstate :=
  let st := put buf arm64Thunk st in
  let st := applyArm64Addr buf targetRVA rva 12 st in
  applyArm64Imm (buf + 4) (targetRVA &&& 0xfff) 0 st.

(** [exitThunk] is the RVA of the exit thunk, if there is one. *)
Definition ImportThunkChunkARM64EC_writeTo (impRVA helperRVA rva : Z) (exitThunk : option Z)
    (extended : bool) (buf : Z) (st : rstate) : rstate :=
  let st := put buf importThunkARM64EC st in
  let st := applyArm64Addr buf impRVA rva 12 st in
  let st := applyArm64Ldr (buf + 4) (impRVA &&& 0xfff) st in
  let exitThunkRVA := match exitThunk with Some r => r | None => 0 end in
  let st := applyArm64Addr (buf + 8) exitThunkRVA (rva + 8) 12 st in
  let st := applyArm64Imm (buf + 12) (exitThunkRVA &&& 0xfff) 0 st in
  if extended then
    let st := put (buf + 16) arm64Thunk st in
    let st := applyArm64Addr (buf + 16) helperRVA (rva + 16) 12 st in
    applyArm64Imm (buf + 20) (helperRVA &&& 0xfff) 0 st
  else applyArm64Branch26 (buf + 16) (helperRVA - rva - 16) st.

Definition ImportThunkChunkARM64EC_getSize (extended : bool) : Z :=
  if negb extended then Z.of_nat (length importThunkARM64EC)
  else Z.of_nat (length importThunkARM64EC) + Z.of_nat (length arm64Thunk) - 4.

Definition ImportThunkChunkARM64EC_verifyRanges (helperRVA rva : Z) (extended : bool) : bool :=
  if extended then true else isInt 28 (helperRVA - rva - 16).

(** [extendRanges]: the bytes added, and the new [extended]. *)
Definition ImportThunkChunkARM64EC_extendRanges (helperRVA rva : Z) (extended : bool) : Z * bool :=
  if extended || ImportThunkChunkARM64EC_verifyRanges helperRVA rva extended then (0, extended)
  else (Z.of_nat (length arm64Thunk) - 4, true).

Definition ECExportThunkChunk_writeTo (targetRVA rva buf : Z) (st : rstate) : rstate :=
  let st := put buf ECExportThunkCode st in
  on_mem (fun m => write32le m (buf + 10) (targetRVA - rva - 14)) st.

Definition LocalImportChunk_writeTo (is64 : bool) (imageBase symRVA buf : Z) : rstate -> rstate :=
  if is64 then on_mem (fun m => write64le m buf (symRVA + imageBase))
  else on_mem (fun m => write32le m buf (symRVA + imageBase)).

Definition AbsolutePointerChunk_writeTo (is64 : bool) (value buf : Z) : rstate -> rstate :=
  if is64 then on_mem (fun m => write64le m buf value) else on_mem (fun m => write32le m buf value).

Definition StringChunk_writeTo (str : list Z) (buf : Z) (st : rstate) : rstate :=
  let st := put buf str st in
  on_mem (fun m => upd m (buf + Z.of_nat (length str)) 0) st.

(** ** Executing ARM64 thunks *)

(** Registers by number. *)
Definition regs := Z -> Z.
Definition set_reg (r v : Z) (R : regs) : regs := fun x => if x =? r then v else R x.

(** One instruction at [pc]: ADRP, ADD (immediate), LDR (immediate, 64-bit), BR
    and B; [load] reads 64 bits of the process's memory. *)
Definition arm64_step (fetch load : Z -> Z) (s : Z * regs) : option (Z * regs) :=
  let '(pc, R) := s in
  let w := fetch pc in
  let rd := w &&& 0x1f in
  let rn := (w >>> 5) &&& 0x1f in
  if (w &&& 0x9F000000) =? 0x90000000 then Some (pc + 4, set_reg rd (adrp_value pc w) R)
  else if (w &&& 0xFFC00000) =? 0x91000000 then Some (pc + 4, set_reg rd (R rn + imm12 w) R)
  else if (w &&& 0xFFC00000) =? 0xF9400000 then
    Some (pc + 4, set_reg rd (load (R rn + 8 * imm12 w)) R)
  else if (w &&& 0xFFFFFC1F) =? 0xD61F0000 then Some (R rn, R)
  else if (w &&& 0xFC000000) =? 0x14000000 then Some (pc + branch26_offset w, R)
  else None.

Fixpoint steps (n : nat) (step : Z * regs -> option (Z * regs)) (s : Z * regs) : option (Z * regs) :=
  match n with
  | O => Some s
  | S n => s ← step s; steps n step s
  end.

Lemma set_reg_eq r v R : set_reg r v R r = v.
Proof. unfold set_reg. by rewrite Z.eqb_refl. Qed.

Ltac reg_numbers :=
  repeat match goal with
  | |- context [Z.land ?c 31] =>
      lazymatch c with
      | Zpos ?p => ground_pos p; compute_in_goal (Z.land c 31)
      | Z.shiftr (Zpos ?p) 5 => ground_pos p; compute_in_goal (Z.land c 31)
      end
  end.

(** Code at [buf] of the output, running at address [base + rva]. *)
Definition fetch32 (m : mem) (buf start : Z) : Z -> Z := fun pc => read32le m (buf + (pc - start)).

Lemma fetch_at m buf start k : fetch32 m buf start (start + k) = read32le m (buf + k).
Proof. unfold fetch32. f_equal. lia. Qed.

Lemma fetch_start m buf start : fetch32 m buf start start = read32le m buf.
Proof. unfold fetch32. f_equal. lia. Qed.

Lemma steps_add a b step s : steps (a + b) step s = (s' ← steps a step s; steps b step s').
Proof. revert s. induction a as [|a IH]; intros s; [done|]. simpl. destruct (step s); [apply IH|done]. Qed.

(** ** Words the code patches *)

Lemma land_submask w m m' : m' &&& m = m -> w &&& m = (w &&& m') &&& m.
Proof. intros H. by rewrite <- Z.land_assoc, H. Qed.

Lemma land_eq_bits a b m :
  word_ok 32 m ->
  (forall i, 0 <= i < 32 -> Z.testbit m i = true -> Z.testbit a i = Z.testbit b i) ->
  a &&& m = b &&& m.
Proof.
  intros Hm H. apply Z.bits_inj'. intros i Hi. rewrite !Z.land_spec.
  destruct (Z.testbit m i) eqn:E; [|by rewrite !andb_false_r].
  rewrite H; [done| |done]. split; [done|].
  destruct (Z.lt_ge_cases i 32); [done|]. by rewrite (testbit_high 32) in E by (done || lia).
Qed.

Ltac masked_bit := let E := fresh in intros E; first [vm_compute in E; discriminate | eval_bits; reflexivity].

(** The opcode and register bits of an ADRP and of an ADD or LDR survive. *)
Lemma adr_word_opcode s p shift orig :
  u32 (arm64_addr_word s p shift orig) &&& 0x9F00001F = orig &&& 0x9F00001F.
Proof.
  unfold arm64_addr_word. cbv zeta. generalize (s64 ((u64 (s + sext 21 ((orig >>> 29) &&& 0x3
    ||| (orig >>> 3) &&& 0x1FFFFC)) >>> shift) - (p >>> shift))). intros imm.
  apply land_eq_bits; [unfold word_ok; lia|]. intros i Hi. each_bit i 32 ltac:(masked_bit).
Qed.

Lemma imm_word_opcode imm lim orig :
  0 <= lim -> u32 (arm64_imm_word imm lim orig) &&& 0xFFC003FF = orig &&& 0xFFC003FF.
Proof.
  intros Hl. unfold arm64_imm_word. cbv zeta. generalize (u64 (imm + ((orig >>> 10) &&& 0xFFF))).
  intros x. apply land_eq_bits; [unfold word_ok; lia|]. intros i Hi E.
  assert (Hf : Z.testbit ((x &&& (0xFFF >>> lim)) <<< 10) i = false).
  { rewrite Z.shiftl_spec by lia. destruct (decide (i < 10)); [by rewrite Z.testbit_neg_r by lia|].
    rewrite Z.land_spec, Z.shiftr_spec by lia.
    rewrite (testbit_high 12 0xFFF); [by rewrite andb_false_r|unfold word_ok; lia|].
    destruct (decide (i < 22)); [|lia]. exfalso. revert E.
    each_bit i 22 ltac:(first [exfalso; lia|vm_compute; discriminate]). }
  rewrite testbit_wrap by lia. rewrite (proj2 (Z.ltb_lt _ _)) by lia. simpl.
  rewrite Z.lor_spec, Hf, orb_false_r. revert E. clear Hf.
  each_bit i 32 ltac:(masked_bit).
Qed.

(** [applyArm64Ldr]'s immediate for the LDR of the templates, whose field is
    empty: the slot's offset in its page, in units of 8 bytes. *)
Lemma ldr_imm12 off orig :
  orig &&& (0xfff <<< 10) = 0 -> word_ok 12 off -> off mod 8 = 0 ->
  8 * imm12 (u32 (arm64_imm_word (off >>> 3) 3 orig)) = off.
Proof.
  intros Ho [H0 H1] H8. unfold arm64_imm_word. cbv zeta.
  assert (E : (orig >>> 10) &&& 0xFFF = 0).
  { apply Z.bits_inj'. intros i Hi. rewrite Z.land_spec, Z.shiftr_spec, Z.bits_0 by lia.
    destruct (decide (i < 12)); [|by rewrite (testbit_high 12 0xFFF), andb_false_r by (unfold word_ok; lia)].
    rewrite (land_zero_bit orig (0xfff <<< 10)); [done|done|].
    rewrite Z.shiftl_spec by lia. replace (i + 10 - 10) with i by lia.
    change 0xfff with (Z.ones 12). by apply Z.ones_spec_low. }
  rewrite E, Z.add_0_r. rewrite Z.shiftr_div_pow2 by lia. change (2 ^ 3) with 8.
  set (q := off / 8). assert (Hq : word_ok 9 q).
  { unfold q, word_ok. simpl in *. split; [apply Z.div_pos; lia|]. apply Z.div_lt_upper_bound; lia. }
  rewrite (wrap_small 64) by (unfold word_ok in *; simpl in *; lia).
  change (0xFFF >>> 3) with (Z.ones 9). rewrite Z.land_ones, (Z.mod_small q) by (done || lia).
  assert (Hi : imm12 (u32 ((orig &&& Z.lnot (0xFFF <<< 10)) ||| (q <<< 10))) = q).
  { unfold imm12. change 0xfff with (Z.ones 12). rewrite Z.land_ones by lia.
    rewrite <- (Z.mod_small q (2 ^ 12)) at 2 by (unfold word_ok in *; simpl in *; lia).
    apply wrap_bits; [lia|]. intros i Hi. rewrite Z.shiftr_spec, testbit_wrap by lia.
    rewrite (proj2 (Z.ltb_lt _ _)) by lia. simpl. rewrite Z.lor_spec, Z.shiftl_spec by lia.
    replace (i + 10 - 10) with i by lia. rewrite Z.land_spec, Z.lnot_spec, Z.shiftl_spec by lia.
    replace (i + 10 - 10) with i by lia. change 0xFFF with (Z.ones 12).
    by rewrite Z.ones_spec_low, andb_false_r by lia. }
  rewrite Hi. unfold q. pose proof (Z.div_mod off 8 ltac:(lia)). lia.
Qed.

(** ** One instruction at a time *)

Lemma step_adrp fetch load pc R w c :
  fetch pc = w -> w &&& 0x9F00001F = c -> c &&& 0x9F000000 = 0x90000000 ->
  arm64_step fetch load (pc, R) = Some (pc + 4, set_reg (c &&& 0x1f) (adrp_value pc w) R).
Proof.
  intros Hf Hw Hc. unfold arm64_step. rewrite Hf.
  rewrite (land_submask w 0x9F000000 0x9F00001F), Hw, Hc by done. cbv iota beta.
  by rewrite (land_submask w 0x1f 0x9F00001F), Hw by done.
Qed.

Lemma reg_field w c m : w &&& m = c -> m &&& 0x3e0 = 0x3e0 -> (w >>> 5) &&& 0x1f = (c >>> 5) &&& 0x1f.
Proof.
  intros Hw Hm. change 0x1f with (0x3e0 >>> 5). rewrite <- !Z.shiftr_land.
  by rewrite (land_submask w 0x3e0 m), Hw.
Qed.

Lemma step_add fetch load pc R w c :
  fetch pc = w -> w &&& 0xFFC003FF = c -> c &&& 0xFFC00000 = 0x91000000 ->
  arm64_step fetch load (pc, R) =
  Some (pc + 4, set_reg (c &&& 0x1f) (R ((c >>> 5) &&& 0x1f) + imm12 w) R).
Proof.
  intros Hf Hw Hc. unfold arm64_step. rewrite Hf, (reg_field w c _ Hw) by done.
  assert (E : w &&& 0xFFC00000 = 0x91000000) by by rewrite (land_submask w _ 0xFFC003FF), Hw.
  rewrite (land_submask w 0x9F000000 0xFFC00000), E by done.
  by rewrite (land_submask w 0x1f 0xFFC003FF), Hw by done.
Qed.

Lemma step_ldr fetch load pc R w c :
  fetch pc = w -> w &&& 0xFFC003FF = c -> c &&& 0xFFC00000 = 0xF9400000 ->
  arm64_step fetch load (pc, R) =
  Some (pc + 4, set_reg (c &&& 0x1f) (load (R ((c >>> 5) &&& 0x1f) + 8 * imm12 w)) R).
Proof.
  intros Hf Hw Hc. unfold arm64_step. rewrite Hf, (reg_field w c _ Hw) by done.
  assert (E : w &&& 0xFFC00000 = 0xF9400000) by by rewrite (land_submask w _ 0xFFC003FF), Hw.
  rewrite (land_submask w 0x9F000000 0xFFC00000), E by done.
  by rewrite (land_submask w 0x1f 0xFFC003FF), Hw by done.
Qed.

(** The immediates of an ADRP and ADD pair whose fields start empty. *)
Lemma adr_imm_page s p orig :
  adr_imm orig = 0 -> word_ok 32 s -> word_ok 32 p ->
  adr_imm (u32 (arm64_addr_word s p 12 orig)) = (s >>> 12) - (p >>> 12).
Proof.
  intros Ho Hs Hp. unfold word_ok in *.
  unfold arm64_addr_word. cbv zeta. fold (adr_imm orig). rewrite Ho, Z.add_0_r.
  rewrite (wrap_small 64) by (unfold word_ok; lia).
  assert (H : - 2 ^ 20 <= (s >>> 12) - (p >>> 12) < 2 ^ 20).
  { rewrite !Z.shiftr_div_pow2 by lia. simpl in *. Z.div_mod_to_equations. lia. }
  rewrite (sext_small 64) by (simpl in *; lia). by apply adr_imm_word.
Qed.

Lemma adrp_page base s p orig :
  adr_imm orig = 0 -> word_ok 32 s -> word_ok 32 p -> base mod 4096 = 0 ->
  adrp_value (base + p) (u32 (arm64_addr_word s p 12 orig)) + (s &&& 0xfff) = base + s.
Proof.
  intros Ho Hs Hp Hb. unfold adrp_value. rewrite adr_imm_page by done.
  change 0xfff with (Z.ones 12). rewrite Z.land_ones, Z.shiftl_mul_pow2, !Z.shiftr_div_pow2 by lia.
  change (2 ^ 12) with 4096. apply Z.mod_divide in Hb as [k ->]; [|lia].
  rewrite (Z.add_comm (k * 4096)), Z.div_add by lia. pose proof (Z.div_mod s 4096 ltac:(lia)). lia.
Qed.

Lemma low12_ok s : word_ok 12 (s &&& 0xfff).
Proof. change 0xfff with (Z.ones 12). by apply land_ones_word_ok. Qed.

Lemma add_imm12 s orig :
  imm12 orig = 0 -> imm12 (u32 (arm64_imm_word (s &&& 0xfff) 0 orig)) = s &&& 0xfff.
Proof. intros Ho. rewrite imm12_word, Ho, Z.add_0_r. apply wrap_small, low12_ok. Qed.

(** ** Words of a patched block *)

Ltac read_patched :=
  repeat match goal with
  | |- context [read 4 (write 4 ?m ?p ?v) ?q] =>
      first [rewrite (read_write 4 m p v); change (8 * Z.of_nat 4) with 32
            | rewrite (read_write_other 4 4 m p q v) by lia]
  end.
Ltac read_template bs k :=
  match goal with
  | |- context [read 4 (memcpy ?m ?p bs) ?q] =>
      replace (read 4 (memcpy m p bs) q) with (read 4 (memcpy m p bs) (p + Z.of_nat k))
        by (f_equal; lia);
      rewrite (read_memcpy 4 m p bs k) by (simpl; lia)
  end.

Lemma range_thunk_words target rva buf st :
  let m := rmem (RangeExtensionThunkARM64_writeTo target rva buf st) in
  read32le m buf = u32 (arm64_addr_word target rva 12 0x90000010) /\
  read32le m (buf + 4) = u32 (arm64_imm_word (target &&& 0xfff) 0 0x91000210) /\
  read32le m (buf + 8) = 0xd61f0200.
Proof.
  unfold RangeExtensionThunkARM64_writeTo, applyArm64Imm, applyArm64Addr, put, on_mem. cbn [rmem].
  repeat split; read_patched.
  - by read_template arm64Thunk 0%nat.
  - by read_template arm64Thunk 4%nat.
  - by read_template arm64Thunk 8%nat.
Qed.

Lemma import_thunk_words imp rva buf st :
  let st' := ImportThunkChunkARM64_writeTo imp rva buf st in
  (imp &&& 0xfff) mod 8 = 0 ->
  errs st' = errs st /\
  read32le (rmem st') buf = u32 (arm64_addr_word imp rva 12 0x90000010) /\
  read32le (rmem st') (buf + 4) = u32 (arm64_imm_word ((imp &&& 0xfff) >>> 3) 3 0xf9400210) /\
  read32le (rmem st') (buf + 8) = 0xd61f0200.
Proof.
  intros st' H8. unfold st', ImportThunkChunkARM64_writeTo, applyArm64Ldr.
  set (st1 := applyArm64Addr buf imp rva 12 (put buf importThunkARM64 st)).
  assert (H1 : read32le (rmem st1) (buf + 4) = 0xf9400210).
  { unfold st1, applyArm64Addr, put, on_mem. cbn [rmem]. read_patched.
    by read_template importThunkARM64 4%nat. }
  rewrite H1. change (ldr_size 0xf9400210) with 3.
  assert (Hz : (imp &&& 0xfff) &&& ((1 <<< 3) - 1) = 0).
  { change ((1 <<< 3) - 1) with (Z.ones 3). by rewrite Z.land_ones. }
  rewrite Hz. cbn [Z.eqb negb error_if].
  unfold applyArm64Imm, on_mem. cbn [rmem errs]. rewrite H1. split; [done|].
  unfold st1, applyArm64Addr, put, on_mem. cbn [rmem]. repeat split; read_patched.
  - by read_template importThunkARM64 0%nat.
  - done.
  - by read_template importThunkARM64 8%nat.
Qed.

(** ADRP, an instruction on x16, and a branch to x16. *)
Lemma import_thunk_arm64_runs imp rva base buf load R st :
  word_ok 32 imp -> word_ok 32 rva -> base mod 4096 = 0 -> (imp &&& 0xfff) mod 8 = 0 ->
  let st' := ImportThunkChunkARM64_writeTo imp rva buf st in
  errs st' = errs st /\
  exists R', steps 3 (arm64_step (fetch32 (rmem st') buf (base + rva)) load) (base + rva, R) =
    Some (load (base + imp), R').
Proof.
  intros Ht Hr Hb H8 st'. destruct (import_thunk_words imp rva buf st H8) as (He & W0 & W1 & W2).
  fold st' in He, W0, W1, W2. split; [done|]. set (m := rmem st') in *.
  pose proof (fetch_at m buf (base + rva)) as F.
  set (w0 := u32 (arm64_addr_word imp rva 12 0x90000010)) in *.
  set (w1 := u32 (arm64_imm_word ((imp &&& 0xfff) >>> 3) 3 0xf9400210)) in *.
  assert (S1 := step_adrp (fetch32 m buf (base + rva)) load (base + rva) R w0 0x90000010
    (eq_trans (fetch_start m buf (base + rva)) W0) (adr_word_opcode _ _ _ _) eq_refl).
  assert (S2 := step_ldr (fetch32 m buf (base + rva)) load (base + rva + 4)
    (set_reg 16 (adrp_value (base + rva) w0) R) w1 0xf9400210
    (eq_trans (F 4) W1) (imm_word_opcode _ 3 _ ltac:(lia)) eq_refl).
  cbn [steps]. rewrite S1. cbn [mbind option_bind]. change (0x90000010 &&& 0x1f) with 16.
  rewrite S2. cbn [mbind option_bind]. unfold arm64_step.
  replace (base + rva + 4 + 4) with (base + rva + 8) by lia.
  rewrite F, W2. simpl. unfold w0, w1. rewrite ldr_imm12 by (done || apply low12_ok). reg_numbers.
  rewrite !set_reg_eq, adrp_page by done. by eexists.
Qed.

(** ** Executing Thumb-2 thunks *)

(** One instruction: MOVW and MOVT (immediate), ADD (register) and LDR
    (immediate) to PC. *)
Definition thumb_step (m : mem) (buf start : Z) (load : Z -> Z) (s : Z * regs) : option (Z * regs) :=
  let '(pc, R) := s in
  let off := buf + (pc - start) in
  let hw1 := read16le m off in
  let hw2 := read16le m (off + 2) in
  let rd := (hw2 >>> 8) &&& 0xf in
  if (hw1 &&& 0xfbf0) =? 0xf240 then Some (pc + 4, set_reg rd (readMOV off m) R)
  else if (hw1 &&& 0xfbf0) =? 0xf2c0 then
    Some (pc + 4, set_reg rd ((R rd &&& 0xffff) ||| (readMOV off m <<< 16)) R)
  else if (hw1 &&& 0xff87) =? 0x4487 then Some (u32 (pc + 4 + R ((hw1 >>> 3) &&& 0xf)), R)
  else if ((hw1 &&& 0xfff0) =? 0xf8d0) && ((hw2 &&& 0xf000) =? 0xf000) then
    Some (load (u32 (R (hw1 &&& 0xf) + (hw2 &&& 0xfff))), R)
  else None.

Lemma step_movw m buf start load pc R off :
  off = buf + (pc - start) -> read16le m off &&& 0xfbf0 = 0xf240 ->
  thumb_step m buf start load (pc, R) =
  Some (pc + 4, set_reg ((read16le m (off + 2) >>> 8) &&& 0xf) (readMOV off m) R).
Proof. intros -> H. unfold thumb_step. by rewrite H. Qed.

Lemma step_movt m buf start load pc R off :
  off = buf + (pc - start) -> read16le m off &&& 0xfbf0 = 0xf2c0 ->
  thumb_step m buf start load (pc, R) =
  let rd := (read16le m (off + 2) >>> 8) &&& 0xf in
  Some (pc + 4, set_reg rd ((R rd &&& 0xffff) ||| (readMOV off m <<< 16)) R).
Proof. intros -> H. unfold thumb_step. by rewrite H. Qed.

Lemma step_add_pc m buf start load pc R off :
  off = buf + (pc - start) -> read16le m off = 0x44e7 ->
  thumb_step m buf start load (pc, R) = Some (u32 (pc + 4 + R 12), R).
Proof. intros -> H. unfold thumb_step. by rewrite H. Qed.

Lemma step_ldr_pc m buf start load pc R off :
  off = buf + (pc - start) -> read16le m off = 0xf8dc -> read16le m (off + 2) = 0xf000 ->
  thumb_step m buf start load (pc, R) = Some (load (u32 (R 12 + 0)), R).
Proof. intros -> H H'. unfold thumb_step. by rewrite H, H'. Qed.

Lemma hw1_opcode v r : u16 (mov_hw1 v r) &&& 0xfbf0 = r &&& 0xfbf0.
Proof.
  apply land_eq_bits; [split; vm_compute; [discriminate|reflexivity]|]. intros i Hi. unfold mov_hw1.
  each_bit i 32 ltac:(masked_bit).
Qed.

Lemma hw2_opcode v r : u16 (mov_hw2 v r) &&& 0x8f00 = r &&& 0x8f00.
Proof.
  apply land_eq_bits; [split; vm_compute; [discriminate|reflexivity]|]. intros i Hi. unfold mov_hw2.
  each_bit i 32 ltac:(masked_bit).
Qed.

(** A MOVW/MOVT pair to ip, both immediates zero. *)
Definition mov_ip_pair (m : mem) (off : Z) : Prop :=
  read16le m off = 0xf240 /\ read16le m (off + 2) = 0x0c00 /\
  read16le m (off + 4) = 0xf2c0 /\ read16le m (off + 4 + 2) = 0x0c00.

(** Patched by [applyMOV32T], the pair loads the value into ip. *)
Lemma mov_pair_runs off v st start load R :
  mov_ip_pair (rmem st) off ->
  let m := rmem (applyMOV32T off v st) in
  exists R', R' 12 = u32 v /\ steps 2 (thumb_step m off start load) (start, R) = Some (start + 4 + 4, R').
Proof.
  intros (H1 & H2 & H3 & H4) m.
  assert (Himm : mov32t_imm off m = u32 v).
  { unfold m. rewrite mov32t_imm_apply. unfold mov32t_imm, readMOV. rewrite H1, H2, H3, H4.
    f_equal. change (_ ||| _) with 0. lia. }
  assert (O : (read16le m off &&& 0xfbf0) = 0xf240 /\ (read16le m (off + 2) &&& 0x8f00) = 0x0c00 /\
    (read16le m (off + 4) &&& 0xfbf0) = 0xf2c0 /\ (read16le m (off + 4 + 2) &&& 0x8f00) = 0x0c00).
  { unfold m. rewrite applyMOV32T_unfold. cbv zeta. rewrite (applyMOV_hw1 (off + 4)), (applyMOV_hw2 (off + 4)).
    set (x := u32 _). set (st0 := readMOV_error (off + 4) true _).
    assert (Hm : rmem st0 = rmem st) by (unfold st0; by rewrite !rmem_readMOV_error).
    rewrite (read_ext 2 _ (rmem (applyMOV off x st0)) off off),
      (read_ext 2 _ (rmem (applyMOV off x st0)) (off + 2) (off + 2)),
      (read_ext 2 (rmem (applyMOV off x st0)) (rmem st0) (off + 4) (off + 4)),
      (read_ext 2 (rmem (applyMOV off x st0)) (rmem st0) (off + 4 + 2) (off + 4 + 2))
      by (intros k Hk; apply applyMOV_other; lia).
    rewrite applyMOV_hw1, applyMOV_hw2, Hm, H1, H2, H3, H4.
    repeat split; first [apply (hw1_opcode _ 0xf240) | apply (hw2_opcode _ 0x0c00)
      | apply (hw1_opcode _ 0xf2c0)]. }
  destruct O as (O1 & O2 & O3 & O4).
  assert (Rd : forall hw, hw &&& 0x8f00 = 0x0c00 -> (hw >>> 8) &&& 0xf = 12).
  { intros hw E. change 0xf with (0xf00 >>> 8). rewrite <- Z.shiftr_land.
    by rewrite (land_submask hw 0xf00 0x8f00), E. }
  cbn [steps]. rewrite (step_movw m off start load start R off) by (done || lia).
  cbn [mbind option_bind].
  rewrite (step_movt m off start load (start + 4) _ (off + 4)) by (done || lia).
  cbn [mbind option_bind]. rewrite (Rd _ O2), (Rd _ O4). eexists. split; [|reflexivity].
  rewrite !set_reg_eq, <- Himm. unfold mov32t_imm. f_equal. change 0xffff with (Z.ones 16).
  rewrite Z.land_ones by lia. apply wrap_small, readMOV_word_ok.
Qed.

Lemma put_mov_ip_pair buf bs st :
  (8 <= length bs)%nat ->
  firstn 8 bs = [0x40; 0xf2; 0x00; 0x0c; 0xc0; 0xf2; 0x00; 0x0c] ->
  mov_ip_pair (rmem (put buf bs st)) buf.
Proof.
  intros Hl Hb. unfold mov_ip_pair, put, on_mem. cbn [rmem].
  assert (H : forall k, (k + 2 <= 8)%nat -> read16le (memcpy (rmem st) buf bs) (buf + Z.of_nat k) =
    le_value (firstn 2 (skipn k [0x40; 0xf2; 0x00; 0x0c; 0xc0; 0xf2; 0x00; 0x0c]))).
  { intros k Hk. rewrite read_memcpy by lia. rewrite <- Hb. f_equal.
    by rewrite skipn_firstn_comm, firstn_firstn, Nat.min_l by lia. }
  pose proof (H 0%nat ltac:(lia)) as H0. rewrite Z.add_0_r in H0.
  rewrite <- Z.add_assoc. repeat split; [exact H0|apply (H 2%nat)|apply (H 4%nat)|apply (H 6%nat)]; lia.
Qed.

(** A half-word after the pair is not touched. *)
Lemma mov_pair_keeps off v st a n :
  off + 8 <= a -> read n (rmem (applyMOV32T off v st)) a = read n (rmem st) a.
Proof.
  intros Ha. apply read_ext. intros k Hk. apply (fo_frame (FieldOp := applyMOV32T_field v)). lia.
Qed.

Lemma range_thunk_arm_runs target rva buf start load R st :
  let m := rmem (RangeExtensionThunkARM_writeTo target rva buf st) in
  exists R', steps 3 (thumb_step m buf start load) (start, R) =
    Some (u32 (start + (target - rva)), R').
Proof.
  intros m. unfold m, RangeExtensionThunkARM_writeTo. cbv zeta. clear m.
  set (v := u32 (u64 (target - rva - 12))).
  destruct (mov_pair_runs buf v (put buf armThunk st) start load R) as (R' & H12 & Hrun);
    [by apply put_mov_ip_pair; simpl; [lia|]|].
  set (m := rmem (applyMOV32T buf v (put buf armThunk st))) in *.
  exists R'. change 3%nat with (2 + 1)%nat. rewrite steps_add, Hrun. cbn [mbind option_bind steps].
  assert (Hw : read16le m (buf + 8) = 0x44e7).
  { unfold m. rewrite mov_pair_keeps by lia. unfold put, on_mem. cbn [rmem].
    by rewrite (read_memcpy 2 _ buf armThunk 8) by (simpl; lia). }
  rewrite (step_add_pc _ _ _ _ _ _ (buf + 8)), H12 by (done || lia).
  cbn [mbind option_bind]. do 2 f_equal. unfold v.
  rewrite (wrap_wrap_le 32 32), (wrap_wrap_le 32 64), wrap_add_wrap_r by lia. f_equal. lia.
Qed.

Lemma import_thunk_arm_runs base imp buf start load R st :
  let m := rmem (ImportThunkChunkARM_writeTo base imp buf st) in
  exists R', steps 3 (thumb_step m buf start load) (start, R) = Some (load (u32 (base + imp)), R').
Proof.
  intros m. unfold m, ImportThunkChunkARM_writeTo. cbv zeta. clear m.
  destruct (mov_pair_runs buf (imp + base) (put buf importThunkARM st) start load R) as (R' & H12 & Hrun);
    [by apply put_mov_ip_pair; simpl; [lia|]|].
  set (m := rmem (applyMOV32T buf (imp + base) (put buf importThunkARM st))) in *.
  exists R'. change 3%nat with (2 + 1)%nat. rewrite steps_add, Hrun. cbn [mbind option_bind steps].
  assert (Hw : forall k, (k + 2 <= 12)%nat -> (8 <= k)%nat -> read16le m (buf + Z.of_nat k) =
      le_value (firstn 2 (skipn k importThunkARM))).
  { intros k Hk Hk8. unfold m. rewrite mov_pair_keeps by lia. unfold put, on_mem. cbn [rmem].
    apply read_memcpy. simpl. lia. }
  rewrite (step_ldr_pc _ _ _ _ _ _ (buf + 8)), H12; [|lia|exact (Hw 8%nat ltac:(lia) ltac:(lia))|].
  2: { rewrite <- Z.add_assoc. exact (Hw 10%nat ltac:(lia) ltac:(lia)). }
  cbn [mbind option_bind]. do 3 f_equal.
  rewrite Z.add_0_r, (wrap_wrap_le 32 32) by lia. f_equal. lia.
Qed.

(** ** Executing x86 import thunks *)

(** JMP r/m with a 32-bit displacement: the address of the slot it jumps
    through, relative to the next instruction in 64-bit code and absolute in
    32-bit code. *)
Definition jmp_slot (is64 : bool) (m : mem) (buf pc : Z) : option Z :=
  if (m buf =? 0xff) && (m (buf + 1) =? 0x25) then
    Some (if is64 then pc + 6 + sext 32 (read32le m (buf + 2)) else read32le m (buf + 2))
  else None.

Lemma jmp_slot_write is64 buf v pc st :
  jmp_slot is64 (rmem (on_mem (fun m => write32le m (buf + 2) v) (put buf importThunkX86 st))) buf pc =
  Some (if is64 then pc + 6 + sext 32 v else u32 v).
Proof.
  unfold jmp_slot, put, on_mem. cbn [rmem]. rewrite !write_other by lia.
  rewrite <- (Z.add_0_r buf) at 2. rewrite (memcpy_byte _ buf importThunkX86 0) by (simpl; lia).
  rewrite (memcpy_byte _ buf importThunkX86 1) by (simpl; lia). cbn [nth importThunkX86].
  rewrite read_write. change (8 * Z.of_nat 4) with 32. simpl.
  destruct is64; [|done]. do 2 f_equal. unfold sext, wrap. by rewrite Z.mod_mod by lia.
Qed.

(** ** Properties *)

(** Running an ARM64 range-extension thunk from its first instruction
    jumps to the target, for every thunk and target in the 4 GB an image can
    span and every load address. *)
Theorem range_thunk_arm64_reaches target rva buf base load R st :
  word_ok 32 target -> word_ok 32 rva -> base mod 4096 = 0 ->
  let m := rmem (RangeExtensionThunkARM64_writeTo target rva buf st) in
  exists R', steps 3 (arm64_step (fetch32 m buf (base + rva)) load) (base + rva, R) =
    Some (base + target, R').
Proof.
  intros Ht Hr Hb m. destruct (range_thunk_words target rva buf st) as (W0 & W1 & W2). fold m in W0, W1, W2.
  pose proof (fetch_at m buf (base + rva)) as F.
  set (w0 := u32 (arm64_addr_word target rva 12 0x90000010)) in *.
  set (w1 := u32 (arm64_imm_word (target &&& 0xfff) 0 0x91000210)) in *.
  assert (S1 := step_adrp (fetch32 m buf (base + rva)) load (base + rva) R w0 0x90000010
    (eq_trans (fetch_start m buf (base + rva)) W0) (adr_word_opcode _ _ _ _) eq_refl).
  assert (S2 := step_add (fetch32 m buf (base + rva)) load (base + rva + 4)
    (set_reg 16 (adrp_value (base + rva) w0) R) w1 0x91000210
    (eq_trans (F 4) W1) (imm_word_opcode _ 0 _ ltac:(lia)) eq_refl).
  cbn [steps]. rewrite S1. cbn [mbind option_bind]. change (0x90000010 &&& 0x1f) with 16.
  rewrite S2. cbn [mbind option_bind]. unfold arm64_step.
  replace (base + rva + 4 + 4) with (base + rva + 8) by lia.
  rewrite F, W2. simpl. unfold w0, w1. rewrite add_imm12 by done. reg_numbers.
  rewrite !set_reg_eq, adrp_page by done. by eexists.
Qed.

Lemma range_thunk_arm64_reaches_witness :
  exists R', steps 3 (arm64_step (fetch32 (rmem (RangeExtensionThunkARM64_writeTo 0x12345678 0x1ff8 0x400
    zero_state)) 0x400 (0x140000000 + 0x1ff8)) (fun _ => 0)) (0x140000000 + 0x1ff8, fun _ => 0) =
  Some (0x140000000 + 0x12345678, R').
Proof.
  apply (range_thunk_arm64_reaches 0x12345678 0x1ff8 0x400 0x140000000 (fun _ => 0) (fun _ => 0) zero_state);
    [split; vm_compute; [discriminate|reflexivity]|split; vm_compute; [discriminate|reflexivity]|reflexivity].
Defined.

(** Running an ARM range-extension thunk at any address jumps to the
    target, at the thunk's distance from it, modulo 2^32. *)
Theorem range_thunk_arm_reaches target rva buf base load R st :
  let m := rmem (RangeExtensionThunkARM_writeTo target rva buf st) in
  exists R', steps 3 (thumb_step m buf (base + rva) load) (base + rva, R) = Some (u32 (base + target), R').
Proof.
  destruct (range_thunk_arm_runs target rva buf (base + rva) load R st) as [R' H].
  exists R'. cbv zeta in *. rewrite H. by replace (base + rva + (target - rva)) with (base + target) by lia.
Qed.

(** On every machine the import thunk jumps to the address in its import
    address table slot, at [base + imp]: by a load of that slot on ARM and
    ARM64, through the memory operand of JMP on x86. On ARM64 a slot that is
    not 8-byte aligned is reported instead, on x64 the slot must be within 2
    GB of the thunk. *)
Theorem import_thunk_reaches_slot imp rva base buf load R st :
  word_ok 32 imp -> word_ok 32 rva -> base mod 4096 = 0 ->
  jmp_slot false (rmem (ImportThunkChunkX86_writeTo base imp buf st)) buf (base + rva) =
    Some (u32 (base + imp)) /\
  (- 2 ^ 31 <= imp - rva - 6 < 2 ^ 31 ->
   jmp_slot true (rmem (ImportThunkChunkX64_writeTo imp rva buf st)) buf (base + rva) = Some (base + imp)) /\
  (exists R', steps 3 (thumb_step (rmem (ImportThunkChunkARM_writeTo base imp buf st)) buf (base + rva) load)
    (base + rva, R) = Some (load (u32 (base + imp)), R')) /\
  ((imp &&& 0xfff) mod 8 = 0 ->
   errs (ImportThunkChunkARM64_writeTo imp rva buf st) = errs st /\
   exists R', steps 3 (arm64_step (fetch32 (rmem (ImportThunkChunkARM64_writeTo imp rva buf st)) buf
     (base + rva)) load) (base + rva, R) = Some (load (base + imp), R')).
Proof.
  intros Hi Hr Hb. split; [|split; [|split]].
  - unfold ImportThunkChunkX86_writeTo. rewrite jmp_slot_write. by rewrite Z.add_comm.
  - intros Hd. unfold ImportThunkChunkX64_writeTo. rewrite jmp_slot_write.
    change (Z.of_nat (length importThunkX86)) with 6.
    rewrite (sext_small 32) by (simpl; lia). f_equal. lia.
  - apply import_thunk_arm_runs.
  - intros H8. by apply import_thunk_arm64_runs.
Qed.

Lemma import_thunk_reaches_slot_witness :
  jmp_slot true (rmem (ImportThunkChunkX64_writeTo 0x3008 0x1000 0x400 zero_state)) 0x400
    (0x140000000 + 0x1000) = Some (0x140000000 + 0x3008).
Proof.
  refine (proj1 (proj2 (import_thunk_reaches_slot 0x3008 0x1000 0x140000000 0x400 (fun _ => 0) (fun _ => 0)
    zero_state _ _ eq_refl)) _); split; vm_compute; (discriminate || reflexivity).
Defined.
