(* ===== verification/MarkLive.v ===== *)
(** * Dead-section elimination (lld/COFF/MarkLive.cpp)

    [markLive] with its worklist as written, over sections, import files and
    import thunks named by numbers; the specification is reachability. *)

From S2P Require Import Prelude.

#[local] Close Scope Z_scope.

(** ** Data *)

(** What a symbol resolves to ([getDefined] and the [dyn_cast]s). *)
Inductive DefinedSymbol :=
  | DefinedRegular (chunk : nat)
  | DefinedImportData (file : nat)
  | DefinedImportThunk (file thunk : nat)
  | OtherDefined.

Record Section_ := {
  ml_isDWARF : bool;
  ml_symbols : list (option nat);
  ml_children : list nat;
  ml_entryThunk : option nat
}.

(** The link as [markLive] sees it; [exitThunk f] is the exit thunk of the
    import check thunk of file [f]. *)
Record link := {
  getChunks : list nat;
  section : nat -> Section_;
  getDefined : nat -> option DefinedSymbol;
  exitThunk : nat -> option nat;
  gcroot : list nat
}.

Record marks := {
  live : gset nat;
  fileLive : gset nat;
  thunkLive : gset nat;
  worklist : list nat
}.

(** ** The code *)

Section Code.
  Context (L : link).

Definition enqueue (c : nat) (m : marks) : marks :=
  if decide (c ∈ live m) then m
  else {| live := {[c]} ∪ live m; fileLive := fileLive m; thunkLive := thunkLive m;
          worklist := c :: worklist m |}.

Definition mark_file (f : nat) (m : marks) : marks :=
  {| live := live m; fileLive := {[f]} ∪ fileLive m; thunkLive := thunkLive m;
     worklist := worklist m |}.
Definition mark_thunk (t : nat) (m : marks) : marks :=
  {| live := live m; fileLive := fileLive m; thunkLive := {[t]} ∪ thunkLive m;
     worklist := worklist m |}.

(** [addSym] with [addImportFile]: they call each other through exit thunks,
    and neither looks whether the file is live already. *)
Fixpoint addSym (fuel : nat) (s : nat) (m : marks) : option marks :=
  match fuel with
  | O => None
  | S fuel =>
      let addImportFile f m :=
        let m := mark_file f m in
        match exitThunk L f with Some e => addSym fuel e m | None => Some m end in
      match getDefined L s with
      | None => Some m
      | Some (DefinedRegular c) => Some (enqueue c m)
      | Some (DefinedImportData f) => addImportFile f m
      | Some (DefinedImportThunk f t) => m ← addImportFile f m; Some (mark_thunk t m)
      | Some OtherDefined => Some m
      end
  end.

Fixpoint addSyms (fuel : nat) (ss : list nat) (m : marks) : option marks :=
  match ss with
  | [] => Some m
  | s :: ss => m ← addSym fuel s m; addSyms fuel ss m
  end.

(** One turn of the loop, for a section already popped. *)
Definition visit (fuel : nat) (c : nat) (m : marks) : option marks :=
  let sc := section L c in
  m ← addSyms fuel (omap id (ml_symbols sc)) m;
  let m := fold_left (fun m c => enqueue c m) (ml_children sc) m in
  match ml_entryThunk sc with Some e => addSym fuel e m | None => Some m end.

Fixpoint drain (fuel symfuel : nat) (m : marks) : option marks :=
  match worklist m with
  | [] => Some m
  | c :: rest =>
      match fuel with
      | O => None
      | S fuel =>
          m ← visit symfuel c {| live := live m; fileLive := fileLive m;
                                 thunkLive := thunkLive m; worklist := rest |};
          drain fuel symfuel m
      end
  end.

(** Start from the sections that are live already. *)
Definition initial_worklist (live0 : gset nat) : list nat :=
  reverse (filter (fun c => c ∈ live0 /\ ml_isDWARF (section L c) = false) (getChunks L)).

Definition markLive (fuel symfuel : nat) (live0 files0 thunks0 : gset nat) : option marks :=
  m ← addSyms symfuel (gcroot L)
        {| live := live0; fileLive := files0; thunkLive := thunks0;
           worklist := initial_worklist live0 |};
  drain fuel symfuel m.

(** ** Reachability *)

Inductive node := NSec (c : nat) | NFile (f : nat) | NThunk (t : nat).

(** What naming a symbol keeps alive. *)
Inductive sym_node : nat -> node -> Prop :=
  | sn_regular s c : getDefined L s = Some (DefinedRegular c) -> sym_node s (NSec c)
  | sn_data s f : getDefined L s = Some (DefinedImportData f) -> sym_node s (NFile f)
  | sn_thunk_file s f t : getDefined L s = Some (DefinedImportThunk f t) -> sym_node s (NFile f)
  | sn_thunk s f t : getDefined L s = Some (DefinedImportThunk f t) -> sym_node s (NThunk t)
  | sn_exit s f e n : sym_node s (NFile f) -> exitThunk L f = Some e -> sym_node e n -> sym_node s n.

(** What a visited section keeps alive. *)
Inductive sec_node (c : nat) : node -> Prop :=
  | cn_symbol s n : Some s ∈ ml_symbols (section L c) -> sym_node s n -> sec_node c n
  | cn_child c' : c' ∈ ml_children (section L c) -> sec_node c (NSec c')
  | cn_entry e n : ml_entryThunk (section L c) = Some e -> sym_node e n -> sec_node c n.

(** The sections whose references count: those live at the start, unless they
    hold DWARF, and those marked since. *)
Inductive visited (live0 : gset nat) : nat -> Prop :=
  | v_live c : c ∈ getChunks L -> c ∈ live0 -> ml_isDWARF (section L c) = false -> visited live0 c
  | v_root s c : s ∈ gcroot L -> sym_node s (NSec c) -> c ∉ live0 -> visited live0 c
  | v_step c c' : visited live0 c -> sec_node c (NSec c') -> c' ∉ live0 -> visited live0 c'.

(** A node is marked by a root or by a visited section. *)
Definition reached (live0 : gset nat) (n : node) : Prop :=
  (exists s, s ∈ gcroot L /\ sym_node s n) \/ (exists c, visited live0 c /\ sec_node c n).

(** ** One call of [addSym] *)

Definition marked (m : marks) (n : node) : Prop :=
  match n with NSec c => c ∈ live m | NFile f => f ∈ fileLive m | NThunk t => t ∈ thunkLive m end.

(** From [m] to [m']: exactly the nodes of [P] are marked in addition, and the
    sections among them that were not live are pushed. *)
Record extends (P : node -> Prop) (m m' : marks) : Prop := {
  ex_marked n : marked m' n <-> marked m n \/ P n;
  ex_work : exists new, worklist m' = new ++ worklist m /\ NoDup new /\
    forall c, c ∈ new <-> c ∈ live m' /\ c ∉ live m
}.

Lemma extends_none m P : (forall n, P n -> marked m n) -> extends P m m.
Proof.
  intros HP. split; [naive_solver|]. exists []. split; [done|]. split; [constructor|].
  intros c. split; [by intros H%elem_of_nil|naive_solver].
Qed.

Lemma extends_trans P Q R m1 m2 m3 :
  (forall n, R n <-> P n \/ Q n) -> extends P m1 m2 -> extends Q m2 m3 -> extends R m1 m3.
Proof.
  intros HR [H1 (n1 & E1 & N1 & W1)] [H2 (n2 & E2 & N2 & W2)]. split.
  - intros n. rewrite H2, H1, HR. tauto.
  - exists (n2 ++ n1). rewrite E2, E1, app_assoc. split; [done|].
    assert (M12 : forall c, c ∈ live m1 -> c ∈ live m2) by (intros c Hc; apply (H1 (NSec c)); by left).
    assert (M23 : forall c, c ∈ live m2 -> c ∈ live m3) by (intros c Hc; apply (H2 (NSec c)); by left).
    split.
    + apply NoDup_app. split; [done|]. split; [|done]. intros c Hc Hc1.
      apply W2 in Hc. apply W1 in Hc1. naive_solver.
    + intros c. rewrite elem_of_app, W1, W2. split; [naive_solver|]. intros [Hc3 Hc1].
      destruct (decide (c ∈ live m2)); naive_solver.
Qed.

Lemma extends_weaken P Q m m' : (forall n, P n <-> Q n) -> extends P m m' -> extends Q m m'.
Proof. intros HPQ [H W]. split; [|done]. intros n. rewrite H, HPQ. done. Qed.

Lemma enqueue_extends c m : extends (fun n => n = NSec c) m (enqueue c m).
Proof.
  unfold enqueue. destruct (decide (c ∈ live m)) as [Hc|Hc]; [by apply extends_none; intros n ->|].
  split.
  - intros [c'|f|t]; simpl; [set_solver|naive_solver|naive_solver].
  - exists [c]. simpl. split; [done|]. split; [by apply NoDup_singleton|]. set_solver.
Qed.

Lemma mark_file_extends f m : extends (fun n => n = NFile f) m (mark_file f m).
Proof.
  split; [intros [c'|f'|t]; simpl; [naive_solver|set_solver|naive_solver]|].
  exists []. split; [done|]. split; [constructor|]. simpl. set_solver.
Qed.

Lemma mark_thunk_extends t m : extends (fun n => n = NThunk t) m (mark_thunk t m).
Proof.
  split; [intros [c'|f'|t']; simpl; [naive_solver|naive_solver|set_solver]|].
  exists []. split; [done|]. split; [constructor|]. simpl. set_solver.
Qed.

(** What an import names: its file, and what the file's exit thunk names. *)
Lemma sym_node_import s f n :
  (getDefined L s = Some (DefinedImportData f) \/ exists t, getDefined L s = Some (DefinedImportThunk f t)) ->
  sym_node s n <->
  n = NFile f \/ (exists t, getDefined L s = Some (DefinedImportThunk f t) /\ n = NThunk t) \/
  (exists e, exitThunk L f = Some e /\ sym_node e n).
Proof.
  intros Hs. split.
  - intros Hn. induction Hn as [s c H|s f' H|s f' t H|s f' t H|s f' e n H1 IH1 He H2 _];
      [destruct Hs as [|[? ?]]; congruence| | | |].
    + left. destruct Hs as [|[? ?]]; congruence.
    + left. destruct Hs as [|[? ?]]; congruence.
    + destruct Hs as [|[t' Ht]]; [congruence|]. right. left. exists t. split; [|done]. congruence.
    + right. right. destruct (IH1 Hs) as [E|[(t & _ & E)|(e0 & He0 & Hn0)]]; simplify_eq.
      * by exists e.
      * exists e0. split; [done|]. by eapply sn_exit.
  - assert (Hf : sym_node s (NFile f)).
    { destruct Hs as [H|[t H]]; [by apply sn_data|by eapply sn_thunk_file]. }
    intros [->|[(t & Ht & ->)|(e & He & Hn)]]; [done|by eapply sn_thunk|by eapply sn_exit].
Qed.

Lemma addSym_extends fuel s m m' : addSym fuel s m = Some m' -> extends (sym_node s) m m'.
Proof.
  revert s m m'. induction fuel as [|fuel IH]; intros s m m' H; [done|]. cbn [addSym] in H.
  assert (Hfile : forall f m1, (match exitThunk L f with Some e => addSym fuel e (mark_file f m)
                                | None => Some (mark_file f m) end) = Some m1 ->
    extends (fun n => n = NFile f \/ exists e, exitThunk L f = Some e /\ sym_node e n) m m1).
  { intros f m1 H1. destruct (exitThunk L f) as [e|] eqn:E.
    - apply IH in H1. eapply extends_trans; [|apply mark_file_extends|exact H1]. naive_solver.
    - simplify_eq. eapply extends_weaken; [|apply mark_file_extends]. naive_solver. }
  destruct (getDefined L s) as [[c|f|f t|]|] eqn:E.
  - simplify_eq. eapply extends_weaken; [|apply enqueue_extends]. intros n. split; [intros ->|].
    + by apply sn_regular.
    + intros Hn. induction Hn as [| | | |s0 f0 e0 n0 H1 IH1]; try congruence.
      specialize (IH1 E). discriminate.
  - apply Hfile in H. eapply extends_weaken; [|exact H]. intros n.
    rewrite (sym_node_import s f) by by left. naive_solver.
  - destruct (match exitThunk L f with Some e => addSym fuel e (mark_file f m) | None => _ end)
      as [m1|] eqn:E1; [|done]. apply Hfile in E1. simpl in H. simplify_eq.
    eapply extends_trans; [|exact E1|apply mark_thunk_extends]. intros n.
    rewrite (sym_node_import s f) by (right; by exists t). naive_solver.
  - simplify_eq. apply extends_none. intros n Hn. exfalso.
    induction Hn; congruence || auto.
  - simplify_eq. apply extends_none. intros n Hn. exfalso.
    induction Hn; congruence || auto.
Qed.

Lemma addSyms_extends fuel ss m m' :
  addSyms fuel ss m = Some m' -> extends (fun n => exists s, s ∈ ss /\ sym_node s n) m m'.
Proof.
  revert m. induction ss as [|s ss IH]; intros m H; simpl in H.
  - simplify_eq. apply extends_none. intros n (s & Hs & _). by apply elem_of_nil in Hs.
  - destruct (addSym fuel s m) as [m1|] eqn:E; [|done]. apply addSym_extends in E. apply IH in H.
    eapply extends_trans; [|exact E|exact H]. intros n. setoid_rewrite elem_of_cons. naive_solver.
Qed.

Lemma enqueue_all_extends cs m :
  extends (fun n => exists c, c ∈ cs /\ n = NSec c) m (fold_left (fun m c => enqueue c m) cs m).
Proof.
  revert m. induction cs as [|c cs IH]; intros m; simpl.
  - apply extends_none. intros n (c & Hc & _). by apply elem_of_nil in Hc.
  - eapply extends_trans; [|apply enqueue_extends|apply IH]. intros n. setoid_rewrite elem_of_cons.
    naive_solver.
Qed.

Lemma visit_extends fuel c m m' : visit fuel c m = Some m' -> extends (sec_node c) m m'.
Proof.
  unfold visit. intros H. destruct (addSyms _ _ m) as [m1|] eqn:E; [|done]. cbn [mbind option_bind] in H.
  apply addSyms_extends in E.
  pose proof (enqueue_all_extends (ml_children (section L c)) m1) as E2.
  set (m2 := fold_left _ _ m1) in *.
  assert (E3 : extends (fun n => exists e, ml_entryThunk (section L c) = Some e /\ sym_node e n) m2 m').
  { destruct (ml_entryThunk (section L c)) as [e|].
    - apply addSym_extends in H. eapply extends_weaken; [|exact H]. naive_solver.
    - simplify_eq. apply extends_none. naive_solver. }
  pose proof (extends_trans _ _ (fun n => _ \/ _) _ _ _ (fun n => iff_refl _) E E2) as E12.
  eapply extends_trans; [|exact E12|exact E3].
  intros n. simpl. setoid_rewrite list_elem_of_omap. split.
  - intros [s n' Hs Hn|c' Hc'|e n' He Hn]; [left; left; exists s; split; [by exists (Some s)|done]| |].
    + left. right. by exists c'.
    + right. by exists e.
  - intros [[(s & (os & Hos & Hid) & Hn)|(c' & Hc' & ->)]|(e & He & Hn)].
    + unfold id in Hid. subst os. by eapply cn_symbol.
    + by apply cn_child.
    + by eapply cn_entry.
Qed.

(** ** The loop *)

(** [P] is the set of sections visited so far. *)
Record drain_inv (m0 : marks) (P : nat -> Prop) (m : marks) : Prop := {
  di_sound n : marked m n -> marked m0 n \/ reached (live m0) n;
  di_init n : marked m0 n -> marked m n;
  di_root s n : s ∈ gcroot L -> sym_node s n -> marked m n;
  di_visited c n : P c -> sec_node c n -> marked m n;
  di_live c : c ∈ live m -> c ∉ live m0 -> P c \/ c ∈ worklist m;
  di_first c : c ∈ getChunks L -> c ∈ live m0 -> ml_isDWARF (section L c) = false ->
               P c \/ c ∈ worklist m;
  di_reach c : P c \/ c ∈ worklist m -> visited (live m0) c
}.

Lemma drain_inv_final m0 P m :
  drain_inv m0 P m -> worklist m = [] ->
  forall n, marked m n <-> marked m0 n \/ reached (live m0) n.
Proof.
  intros [Hs Hi Hr Hv Hl Hf _] Hw n. split; [apply Hs|]. intros [H|H]; [by apply Hi|].
  assert (HP : forall c, visited (live m0) c -> P c).
  { induction 1 as [c Hc Hc0 Hd|s c Hg Hn Hc|c c' _ IH Hn Hc].
    - destruct (Hf c Hc Hc0 Hd) as [|Hin]; [done|]. rewrite Hw in Hin. by apply elem_of_nil in Hin.
    - destruct (Hl c (Hr s (NSec c) Hg Hn) Hc) as [|Hin]; [done|]. rewrite Hw in Hin.
      by apply elem_of_nil in Hin.
    - destruct (Hl c' (Hv c (NSec c') IH Hn) Hc) as [|Hin]; [done|]. rewrite Hw in Hin.
      by apply elem_of_nil in Hin. }
  destruct H as [(s & Hg & Hn)|(c & Hc & Hn)]; [by eapply Hr|by eapply Hv; [apply HP|]].
Qed.

Lemma visit_inv m0 P m c rest m' symfuel :
  drain_inv m0 P m -> worklist m = c :: rest ->
  visit symfuel c {| live := live m; fileLive := fileLive m; thunkLive := thunkLive m;
                     worklist := rest |} = Some m' ->
  drain_inv m0 (fun x => P x \/ x = c) m'.
Proof.
  intros [Hs Hi Hr Hv Hl Hf Hre] Hw H. apply visit_extends in H as [Hm (new & Hnew & _ & Hin)].
  cbn [worklist live] in *.
  assert (Hm' : forall n, marked m' n <-> marked m n \/ sec_node c n).
  { intros n. rewrite Hm. by destruct n. }
  assert (Hc : visited (live m0) c) by (apply Hre; right; rewrite Hw; left).
  rewrite Hw in *. split.
  - intros n Hn. apply Hm' in Hn as [Hn|Hn]; [by apply Hs|]. right. right. by exists c.
  - intros n Hn. apply Hm'. left. by apply Hi.
  - intros s n Hg Hn. apply Hm'. left. by eapply Hr.
  - intros c0 n [Hc0| ->] Hn; apply Hm'; [left; by eapply Hv|by right].
  - intros c0 Hc0 Hn0. rewrite Hnew, elem_of_app, Hin.
    destruct (decide (c0 ∈ live m)) as [Hl0|Hl0]; [|right; left; done].
    destruct (Hl c0 Hl0 Hn0) as [|Hcw]; [by left; left|]. apply elem_of_cons in Hcw. naive_solver.
  - intros c0 Hc0 Hl0 Hd. rewrite Hnew, elem_of_app.
    destruct (Hf c0 Hc0 Hl0 Hd) as [|Hcw]; [by left; left|]. apply elem_of_cons in Hcw. naive_solver.
  - intros c0 [[Hc0| ->]|Hc0]; [apply Hre; by left|done|].
    rewrite Hnew, elem_of_app, Hin in Hc0. destruct Hc0 as [[Hc0 Hn0]|Hc0].
    + assert (Hsec : sec_node c (NSec c0)).
      { apply (Hm' (NSec c0)) in Hc0 as [Hc0|Hc0]; [by simpl in Hc0|done]. }
      eapply v_step; [exact Hc|exact Hsec|]. intros Hl0. apply Hn0. apply (Hi (NSec c0)). exact Hl0.
    + apply Hre. right. right. done.
Qed.

Lemma drain_inv_done m0 P m fuel symfuel m' :
  drain_inv m0 P m -> drain fuel symfuel m = Some m' ->
  forall n, marked m' n <-> marked m0 n \/ reached (live m0) n.
Proof.
  revert P m. induction fuel as [|fuel IH]; intros P m HI H; cbn [drain] in H.
  - destruct (worklist m) eqn:E; [|done]. simplify_eq. by eapply drain_inv_final.
  - destruct (worklist m) as [|c rest] eqn:E; [simplify_eq; by eapply drain_inv_final|].
    destruct (visit symfuel c _) as [m1|] eqn:Ev; [|done]. cbn [mbind option_bind] in H.
    eapply IH; [|exact H]. by eapply visit_inv.
Qed.

Lemma initial_inv live0 files0 thunks0 symfuel m :
  let m0 := {| live := live0; fileLive := files0; thunkLive := thunks0;
               worklist := initial_worklist live0 |} in
  addSyms symfuel (gcroot L) m0 = Some m -> drain_inv m0 (fun _ => False) m.
Proof.
  intros m0 H. apply addSyms_extends in H as [Hm (new & Hnew & _ & Hin)].
  change (worklist m0) with (initial_worklist live0) in Hnew. change (live m0) with live0 in Hin.
  assert (Hw0 : forall c, c ∈ initial_worklist live0 <->
    c ∈ getChunks L /\ c ∈ live0 /\ ml_isDWARF (section L c) = false).
  { intros c. unfold initial_worklist. rewrite elem_of_reverse, list_elem_of_filter. tauto. }
  split.
  - intros n Hn. apply Hm in Hn as [|Hn]; [by left|]. right. by left.
  - intros n Hn. apply Hm. by left.
  - intros s n Hg Hn. apply Hm. right. by exists s.
  - done.
  - intros c Hc Hc0. right. rewrite Hnew, elem_of_app, Hin. by left.
  - intros c Hc Hc0 Hd. right. rewrite Hnew, elem_of_app, Hw0. by right.
  - intros c [[]|Hc]. rewrite Hnew, elem_of_app, Hin, Hw0 in Hc.
    destruct Hc as [[Hc Hn]|(Hc & Hc0 & Hd)]; [|by apply v_live].
    apply (Hm (NSec c)) in Hc as [Hc|(s & Hg & Hs)]; [done|]. by eapply v_root.
Qed.

(** ** Termination *)

(** The sections are numbered below [N], and exit thunks do not lead back to
    the file they belong to: [rank] decreases along them. *)
Record link_ok (N K : nat) (rank : nat -> nat) : Prop := {
  lo_chunks : NoDup (getChunks L);
  lo_bound c : c ∈ getChunks L -> c < N;
  lo_regular s c : getDefined L s = Some (DefinedRegular c) -> c < N;
  lo_children c c' : c' ∈ ml_children (section L c) -> c' < N;
  lo_rank f : rank f < K;
  lo_exit f e f' : exitThunk L f = Some e ->
    (getDefined L e = Some (DefinedImportData f') \/
     exists t, getDefined L e = Some (DefinedImportThunk f' t)) -> rank f' < rank f
}.

Section Total.
  Context {N K : nat} {rank : nat -> nat} (OK : link_ok N K rank).

Lemma addSym_total fuel s m :
  (forall f, (getDefined L s = Some (DefinedImportData f) \/
              exists t, getDefined L s = Some (DefinedImportThunk f t)) -> rank f + 1 < fuel) ->
  0 < fuel -> exists m', addSym fuel s m = Some m'.
Proof using OK.
  revert s m. induction fuel as [|fuel IH]; intros s m Hr Hf; [lia|]. cbn [addSym].
  assert (Hfile : forall f m1, rank f + 1 < S fuel ->
    exists m', (match exitThunk L f with Some e => addSym fuel e m1 | None => Some m1 end) = Some m').
  { intros f m1 Hrf. destruct (exitThunk L f) as [e|] eqn:E; [|by eexists]. apply IH; [|lia].
    intros f' Hf'. pose proof (lo_exit _ _ _ OK f e f' E Hf'). lia. }
  destruct (getDefined L s) as [[c|f|f t|]|] eqn:E; try by eexists.
  - apply Hfile. apply Hr. by left.
  - destruct (Hfile f (mark_file f m)) as [m' ->]; [apply Hr; right; by exists t|]. by eexists.
Qed.

Lemma addSym_total_K s m : exists m', addSym (S K) s m = Some m'.
Proof using OK.
  apply addSym_total; [|lia]. intros f _. pose proof (lo_rank _ _ _ OK f). lia.
Qed.

Lemma addSyms_total ss m : exists m', addSyms (S K) ss m = Some m'.
Proof using OK.
  revert m. induction ss as [|s ss IH]; intros m; [by eexists|]. cbn [addSyms].
  destruct (addSym_total_K s m) as [m1 ->]. apply IH.
Qed.

Lemma visit_total c m : exists m', visit (S K) c m = Some m'.
Proof using OK.
  unfold visit. destruct (addSyms_total (omap id (ml_symbols (section L c))) m) as [m1 ->].
  cbn [mbind option_bind]. destruct (ml_entryThunk (section L c)); [apply addSym_total_K|by eexists].
Qed.

Lemma sym_node_bound s c : sym_node s (NSec c) -> c < N.
Proof using OK.
  remember (NSec c) as n eqn:En. induction 1 as [s c' H|s f H|s f t H|s f t H|s f e n' H1 _ He H2 IH];
    simplify_eq; [|by apply IH]. by eapply lo_regular.
Qed.

(** What the loop still has to do: the worklist and the sections not live. *)
Definition universe : gset nat := set_seq 0 N.
Definition todo (m : marks) : nat := length (worklist m) + size (universe ∖ live m).

Lemma extends_todo P m m' :
  extends P m m' -> (forall c, P (NSec c) -> c < N) -> todo m' = todo m.
Proof.
  intros [Hm (new & Hw & Hnd & Hin)] HP. unfold todo. rewrite Hw, length_app.
  assert (E : universe ∖ live m = list_to_set new ∪ (universe ∖ live m')).
  { apply set_eq. intros c. rewrite elem_of_union, elem_of_list_to_set, !elem_of_difference, Hin.
    unfold universe. rewrite elem_of_set_seq.
    pose proof (Hm (NSec c)) as Hc. simpl in Hc. specialize (HP c).
    destruct (decide (c ∈ live m)), (decide (c ∈ live m')); naive_solver lia. }
  rewrite E. rewrite (size_union (list_to_set new) (universe ∖ live m')) by set_solver.
  rewrite (size_list_to_set (C := gset nat)) by done. lia.
Qed.

Lemma sec_node_bound c c' : sec_node c (NSec c') -> c' < N.
Proof using OK.
  intros H. inversion H; subst; [by eapply sym_node_bound|by eapply lo_children|by eapply sym_node_bound].
Qed.

Lemma drain_total fuel m : todo m <= fuel -> exists m', drain fuel (S K) m = Some m'.
Proof using OK.
  revert m. induction fuel as [|fuel IH]; intros m H; cbn [drain];
    destruct (worklist m) as [|c rest] eqn:E; try by eexists.
  - unfold todo in H. rewrite E in H. simpl in H. lia.
  - destruct (visit_total c {| live := live m; fileLive := fileLive m; thunkLive := thunkLive m;
                               worklist := rest |}) as [m' Hv]. rewrite Hv. apply IH.
    apply visit_extends in Hv. rewrite (extends_todo _ _ _ Hv) by apply sec_node_bound.
    unfold todo in *. rewrite E in H. simpl in H |- *. lia.
Qed.

Lemma markLive_total live0 files0 thunks0 :
  exists m, markLive (N + N) (S K) live0 files0 thunks0 = Some m.
Proof using OK.
  unfold markLive. set (m0 := {| live := live0 |}).
  destruct (addSyms_total (gcroot L) m0) as [m Hm]. rewrite Hm. cbn [mbind option_bind].
  apply drain_total. apply addSyms_extends in Hm.
  rewrite (extends_todo _ _ _ Hm) by (intros c (s & _ & Hs); by eapply sym_node_bound).
  unfold todo. apply Nat.add_le_mono.
  - cbn [worklist m0]. unfold initial_worklist. rewrite length_reverse.
    etrans; [apply length_filter|].
    rewrite <- (length_seq N 0). apply submseteq_length, NoDup_submseteq; [apply OK|].
    intros c Hc. apply elem_of_seq. pose proof (lo_bound _ _ _ OK c Hc). lia.
  - etrans; [apply subseteq_size, subseteq_difference_l; reflexivity|].
    unfold universe. by rewrite size_set_seq.
Qed.

End Total.

End Code.

(** ** Properties *)

(** C21: [markLive] terminates, and marks exactly what was live at the start
    and what is reached: named by a GC root or by a visited section, where the
    visited sections are the ones live at the start that hold no DWARF and
    every section marked since, following relocations, associative children,
    entry thunks and, for imports, exit thunks. *)
Theorem markLive_marks_reached L N K rank live0 files0 thunks0 :
  link_ok L N K rank ->
  exists m, markLive L (N + N) (S K) live0 files0 thunks0 = Some m /\
  forall n, marked m n <->
    marked {| live := live0; fileLive := files0; thunkLive := thunks0; worklist := [] |} n \/
    reached L live0 n.
Proof.
  intros OK. destruct (markLive_total L OK live0 files0 thunks0) as [m Hm]. exists m. split; [done|].
  unfold markLive in Hm. destruct (addSyms _ _ _ _) as [m1|] eqn:E; [|done].
  cbn [mbind option_bind] in Hm. pose proof (initial_inv L live0 files0 thunks0 _ _ E) as HI.
  intros n. rewrite (drain_inv_done L _ _ _ _ _ _ HI Hm n). by destruct n.
Qed.

(** Section 0 is live and names section 1 through a relocation and an import
    whose exit thunk is in section 2; section 3 is DWARF and names section 4;
    section 1 has the child 5. *)
Definition sample_link : link :=
  {| getChunks := [0; 1; 2; 3; 4; 5; 6];
     section := fun c =>
       match c with
       | 0 => {| ml_isDWARF := false; ml_symbols := [Some 1; None; Some 7]; ml_children := []; ml_entryThunk := None |}
       | 1 => {| ml_isDWARF := false; ml_symbols := []; ml_children := [5]; ml_entryThunk := None |}
       | 3 => {| ml_isDWARF := true; ml_symbols := [Some 4]; ml_children := []; ml_entryThunk := None |}
       | _ => {| ml_isDWARF := false; ml_symbols := []; ml_children := []; ml_entryThunk := None |}
       end;
     getDefined := fun s =>
       match s with
       | 1 => Some (DefinedRegular 1) | 2 => Some (DefinedRegular 2) | 4 => Some (DefinedRegular 4)
       | 7 => Some (DefinedImportThunk 0 0) | _ => None
       end;
     exitThunk := fun f => match f with 0 => Some 2 | _ => None end;
     gcroot := [] |}.

Lemma markLive_marks_reached_witness :
  (exists m, markLive sample_link (7 + 7) 2 {[0; 3]} ∅ ∅ = Some m /\
     forall n, marked m n <->
       marked {| live := {[0; 3]}; fileLive := ∅; thunkLive := ∅; worklist := [] |} n \/
       reached sample_link {[0; 3]} n) /\
  (elements ∘ live <$> markLive sample_link (7 + 7) 2 {[0; 3]} ∅ ∅) = Some [2; 5; 3; 1; 0].
Proof.
  split; [|vm_compute; reflexivity].
  apply (markLive_marks_reached sample_link 7 1 (fun _ => 0)). split.
  - apply (bool_decide_unpack _). by vm_compute.
  - intros c Hc. simpl in Hc. apply list_elem_of_In in Hc. simpl in Hc. lia.
  - intros s c. simpl. do 8 (destruct s as [|s]; [intros; simplify_eq; lia|]). done.
  - intros c c'. simpl. do 4 (destruct c as [|c]; simpl; [intros H; apply list_elem_of_In in H; simpl in H; lia|]).
    intros H. by apply elem_of_nil in H.
  - lia.
  - intros f e f' Hf Hd. simpl in Hf. destruct f; [|done]. simplify_eq. simpl in Hd.
    destruct Hd as [Hd|[t Hd]]; discriminate.
Defined.
