(* ===== verification/ICF.v ===== *)
(** * Identical code folding (lld/COFF/ICF.cpp)

    [ICF::run]: sections are put into classes by hash, the classes are split by
    constant contents and then by relocation targets until nothing splits, and
    each class is folded into its first section. The two slots of [eqClass] are
    read and written alternately; the content hash is a parameter. *)

From S2P Require Import Prelude.

#[local] Open Scope string_scope.
#[local] Open Scope list_scope.
#[local] Open Scope Z_scope.

Definition IMAGE_SCN_MEM_WRITE := 0x80000000.
Definition ICF_SCN_MEM_EXECUTE := 0x20000000.

(** ** Data *)

Record icf_reloc := { r_Type : Z; r_VirtualAddress : Z; r_symbol : option nat }.

Record icf_section := {
  outputCharacteristics : Z;
  isCOMDAT : bool;
  isLive : bool;
  sectionName : string;
  rawSize : Z;
  checksum : Z;
  sectionContents : list Z;
  machine : Z;
  leaderName : option string;
  keepUnique : bool;
  sectionRelocs : list icf_reloc;
  children : list nat;
  getEntryThunk : option nat
}.

(** The link: sections and symbols by number; [regular s] is the value and the
    section of a [DefinedRegular]. *)
Record icf_input := {
  sec : nat -> icf_section;
  regular : nat -> option (Z * nat);
  allChunks : list nat;
  mergeSections : list nat;
  doICF_All : bool;
  isI386 : bool
}.

(** [eqClass] by slot and section; [chunks], [cnt] and [repeat] of [ICF]; and
    the calls of [replace], as (kept, removed), in order. *)
Record icf_state := {
  chunks : list nat;
  eqClass : bool -> nat -> Z;
  cnt : nat;
  repeat_ : bool;
  merged : list (nat * nat)
}.

Section Code.
  Context (I : icf_input) (xxh3_64bits : list Z -> Z).

(** ** Eligibility *)

Definition isEligible (c : nat) : bool :=
  let s := sec I c in
  let writable := negb ((outputCharacteristics s &&& IMAGE_SCN_MEM_WRITE) =? 0) in
  if negb (isCOMDAT s) || negb (isLive s) || writable then false
  else if doICF_All I && negb ((outputCharacteristics s &&& ICF_SCN_MEM_EXECUTE) =? 0) then true
  else
    let outSecName := hd "" (str_split (Ascii.ascii_of_nat 36) (sectionName s)) in
    if String.eqb outSecName ".pdata" || String.eqb outSecName ".xdata" then true
    else
      let itaniumVtablePrefix := if isI386 I then "__ZTV" else "_ZTV" in
      if match leaderName s with
         | Some n => starts_with "??_7" n || starts_with itaniumVtablePrefix n
         | None => false
         end then true
      else negb (keepUnique s).

(** ** Comparison; [ec] is the slot that is read *)

Definition considerForICF (c : nat) : bool :=
  let n := sectionName (sec I c) in
  negb (starts_with ".debug" n || String.eqb n ".gfids$y" || String.eqb n ".giats$y" ||
        String.eqb n ".gljmp$y").

(** [std::equal] over two whole ranges, and over one range and the start of
    another. *)
Fixpoint equal4 {A} (eq : A -> A -> bool) (l1 l2 : list A) : bool :=
  match l1, l2 with
  | [], [] => true
  | x :: l1, y :: l2 => eq x y && equal4 eq l1 l2
  | _, _ => false
  end.
Fixpoint equal3 {A} (eq : A -> A -> bool) (l1 l2 : list A) : bool :=
  match l1, l2 with
  | [], _ => true
  | x :: l1, y :: l2 => eq x y && equal3 eq l1 l2
  | _ :: _, [] => false
  end.

Definition assocEquals (ec : nat -> Z) (a b : nat) : bool :=
  let ra := List.filter considerForICF (children (sec I a)) in
  let rb := List.filter considerForICF (children (sec I b)) in
  equal4 (fun ia ib => ec ia =? ec ib) ra rb.

Definition sym_eq (same : Z * nat -> Z * nat -> bool) (b1 b2 : option nat) : bool :=
  bool_decide (b1 = b2) ||
  match b1 ≫= regular I, b2 ≫= regular I with
  | Some d1, Some d2 => same d1 d2
  | _, _ => false
  end.

Definition equalsConstant (ec : nat -> Z) (a b : nat) : bool :=
  let sa := sec I a in let sb := sec I b in
  if negb (length (sectionRelocs sa) =? length (sectionRelocs sb))%nat then false
  else
    let eq r1 r2 :=
      if negb (r_Type r1 =? r_Type r2) || negb (r_VirtualAddress r1 =? r_VirtualAddress r2)
      then false
      else sym_eq (fun d1 d2 => (d1.1 =? d2.1) && (ec d1.2 =? ec d2.2)) (r_symbol r1) (r_symbol r2) in
    if negb (equal3 eq (sectionRelocs sa) (sectionRelocs sb)) then false
    else
      (outputCharacteristics sa =? outputCharacteristics sb) &&
      String.eqb (sectionName sa) (sectionName sb) &&
      (rawSize sa =? rawSize sb) && (checksum sa =? checksum sb) &&
      bool_decide (sectionContents sa = sectionContents sb) &&
      (machine sa =? machine sb) && assocEquals ec a b.

Definition equalsVariable (ec : nat -> Z) (a b : nat) : bool :=
  let eqSym := sym_eq (fun d1 d2 => ec d1.2 =? ec d2.2) in
  let eq r1 r2 := eqSym (r_symbol r1) (r_symbol r2) in
  let e1 := getEntryThunk (sec I a) in
  let e2 := getEntryThunk (sec I b) in
  if match e1, e2 with
     | None, None => false
     | Some _, Some _ => negb (eqSym e1 e2)
     | _, _ => true
     end then false
  else equal3 eq (sectionRelocs (sec I a)) (sectionRelocs (sec I b)) && assocEquals ec a b.

(** ** Classes *)

Definition slot (n : nat) : bool := Nat.odd n.
Definition set_class (sl : bool) (c : nat) (v : Z) (st : icf_state) : icf_state :=
  {| chunks := chunks st;
     eqClass := fun sl' c' => if Bool.eqb sl' sl && (c' =? c)%nat then v else eqClass st sl' c';
     cnt := cnt st; repeat_ := repeat_ st; merged := merged st |}.
Definition set_chunks (l : list nat) (st : icf_state) : icf_state :=
  {| chunks := l; eqClass := eqClass st; cnt := cnt st; repeat_ := repeat_ st; merged := merged st |}.
Definition set_repeat (b : bool) (st : icf_state) : icf_state :=
  {| chunks := chunks st; eqClass := eqClass st; cnt := cnt st; repeat_ := b; merged := merged st |}.
Definition incr_cnt (st : icf_state) : icf_state :=
  {| chunks := chunks st; eqClass := eqClass st; cnt := S (cnt st); repeat_ := repeat_ st;
     merged := merged st |}.

(** [segregate(begin, end, constant)]; every turn takes at least one section,
    so [end - begin] turns are enough. *)
Fixpoint segregate (fuel : nat) (begin end_ : nat) (constant : bool) (st : icf_state) : icf_state :=
  match fuel with
  | O => st
  | S fuel =>
      if (begin <? end_)%nat then
        let l := chunks st in
        let ec := eqClass st (slot (cnt st)) in
        let wr := slot (cnt st + 1) in
        let lead := nth begin l O in
        let pred := (if constant then equalsConstant else equalsVariable) ec lead in
        let range := take (end_ - S begin) (drop (S begin) l) in
        let yes := List.filter pred range in
        let no := List.filter (fun s => negb (pred s)) range in
        let mid := (S begin + length yes)%nat in
        let l := take (S begin) l ++ yes ++ no ++ drop end_ l in
        let st := set_chunks l st in
        let st := fold_left (fun st c => set_class wr c (Z.of_nat mid) st)
                    (take (mid - begin) (drop begin l)) st in
        let st := if (mid =? end_)%nat then st else set_repeat true st in
        segregate fuel mid end_ constant st
      else st
  end.

Fixpoint findBoundary_from (ec : nat -> Z) (first : Z) (i : nat) (l : list nat) : nat :=
  match l with
  | [] => i
  | c :: l => if first =? ec c then findBoundary_from ec first (S i) l else i
  end.

Definition findBoundary (begin end_ : nat) (st : icf_state) : nat :=
  let ec := eqClass st (slot (cnt st)) in
  findBoundary_from ec (ec (nth begin (chunks st) O)) (S begin)
    (take (end_ - S begin) (drop (S begin) (chunks st))).

Fixpoint forEachClassRange (fuel begin end_ : nat) (fn : nat -> nat -> icf_state -> icf_state)
    (st : icf_state) : icf_state :=
  match fuel with
  | O => st
  | S fuel =>
      if (begin <? end_)%nat then
        let mid := findBoundary begin end_ st in
        forEachClassRange fuel mid end_ fn (fn begin mid st)
      else st
  end.

(** [forEachClass]: one range, or 256 shards one after the other (they touch
    disjoint ranges; the boundaries are computed before any call). *)
Definition numShards : nat := 256.
Definition boundary (st : icf_state) (i : nat) : nat :=
  let n := length (chunks st) in
  let step := (n / numShards)%nat in
  if (i =? 0)%nat then O else if (i =? numShards)%nat then n
  else findBoundary ((i - 1) * step) n st.

Definition forEachClass (fn : nat -> nat -> icf_state -> icf_state) (st : icf_state) : icf_state :=
  let n := length (chunks st) in
  if (n <? 1024)%nat then incr_cnt (forEachClassRange n 0 n fn st)
  else
    let bs := map (boundary st) (seq 0 (S numShards)) in
    incr_cnt (fold_left (fun st' i =>
      let b := nth (i - 1) bs O in
      let e := nth i bs O in
      if (b <? e)%nat then forEachClassRange n b e fn st' else st') (seq 1 numShards) st).

Definition split_pass (constant : bool) : icf_state -> icf_state :=
  forEachClass (fun b e => segregate (e - b) b e constant).

(** ** [run] *)

Definition no_class : icf_state :=
  {| chunks := []; eqClass := fun _ _ => 0; cnt := 0; repeat_ := false; merged := [] |}.

(** Collect the eligible sections and number the others. *)
Definition collect : icf_state * Z :=
  fold_left (fun '(st, nextId) sc =>
    if isEligible sc then (set_chunks (chunks st ++ [sc]) st, nextId)
    else (set_class false sc nextId st, u32 (nextId + 1))) (allChunks I) (no_class, 1).

Definition number_merged (s : icf_state * Z) : icf_state :=
  (fold_left (fun '(st, nextId) sc => (set_class false sc nextId st, u32 (nextId + 1)))
    (mergeSections I) s).1.

Definition hash_contents (st : icf_state) : icf_state :=
  fold_left (fun st sc => set_class false sc (u32 (xxh3_64bits (sectionContents (sec I sc)))) st)
    (chunks st) st.

(** Round [cnt] of combining hashes: reads slot [cnt % 2], writes the other. *)
Definition combine_hash (cnt : nat) (st : icf_state) : icf_state :=
  fold_left (fun st' sc =>
    let hash := fold_left (fun h r =>
        match r_symbol r ≫= regular I with
        | Some (_, c) => u32 (h + eqClass st (slot cnt) c)
        | None => h
        end) (sectionRelocs (sec I sc)) (eqClass st (slot cnt) sc) in
    set_class (slot (cnt + 1)) sc (hash ||| (1 <<< 31)) st') (chunks st) st.

Definition sort_chunks (st : icf_state) : icf_state :=
  set_chunks (stable_sort (fun a b => eqClass st false a <? eqClass st false b) (chunks st)) st.

Definition initial : icf_state :=
  sort_chunks (combine_hash 1 (combine_hash 0 (hash_contents (number_merged collect)))).

(** The loop that splits by relocation targets. *)
Fixpoint converge (fuel : nat) (st : icf_state) : option icf_state :=
  match fuel with
  | O => None
  | S fuel =>
      let st := split_pass false (set_repeat false st) in
      if repeat_ st then converge fuel st else Some st
  end.

(** Folding one class: every section after the first is replaced by it. *)
Definition merge_class (begin end_ : nat) (st : icf_state) : icf_state :=
  if (end_ - begin =? 1)%nat then st
  else
    let lead := nth begin (chunks st) O in
    {| chunks := chunks st; eqClass := eqClass st; cnt := cnt st; repeat_ := repeat_ st;
       merged := merged st ++
         map (fun c => (lead, c)) (take (end_ - S begin) (drop (S begin) (chunks st))) |}.

Definition run : option icf_state :=
  let st := split_pass true initial in
  st ← converge (S (length (chunks st))) st;
  Some (forEachClass merge_class st).

End Code.
