(* ===== verification/ICFProps.v ===== *)
(** * Identical code folding: what [ICF::run] folds

    [run] terminates, and the sections it folds into one are equal in all that
    does not move and, relocation by relocation, refer to the same symbol, the
    same section or sections that are folded into one as well. *)

From Stdlib Require Import FunctionalExtensionality.
From S2P Require Import Prelude ICF.

#[local] Open Scope Z_scope.

(** ** Comparison as equality of keys *)

Section Keys.
  Context (I : icf_input).

Lemma equal3_forall2 {A} (eq : A -> A -> bool) l1 l2 :
  length l1 = length l2 -> equal3 eq l1 l2 = true <-> Forall2 (fun x y => eq x y = true) l1 l2.
Proof.
  revert l2. induction l1 as [|x l1 IH]; intros [|y l2] Hl; simpl in *; try discriminate.
  - split; [constructor|done].
  - rewrite andb_true_iff, IH by lia. split; [by intros []; constructor|by inversion 1].
Qed.

Lemma equal4_forall2 {A} (eq : A -> A -> bool) l1 l2 :
  equal4 eq l1 l2 = true <-> Forall2 (fun x y => eq x y = true) l1 l2.
Proof.
  revert l2. induction l1 as [|x l1 IH]; intros [|y l2]; simpl.
  - by split; [constructor|].
  - split; [done|by inversion 1].
  - split; [done|by inversion 1].
  - rewrite andb_true_iff, IH. split; [by intros []; constructor|by inversion 1].
Qed.

Lemma forall2_map_eq {A B} (f : A -> B) l1 l2 :
  Forall2 (fun x y => f x = f y) l1 l2 <-> map f l1 = map f l2.
Proof.
  revert l2. induction l1 as [|x l1 IH]; intros [|y l2]; simpl.
  - by split; [|constructor].
  - split; [by inversion 1|done].
  - split; [by inversion 1|done].
  - split.
    + inversion 1; subst. f_equal; [done|by apply IH].
    + intros [= E1 E2]. constructor; [done|by apply IH].
Qed.

(** A symbol, or what replaces it when it is a regular one. *)
Definition sym_key {K} (k : Z * nat -> K) (b : option nat) : K + option nat :=
  match b ≫= regular I with Some d => inl (k d) | None => inr b end.

Lemma sym_eq_key {K} (k : Z * nat -> K) same b1 b2 :
  (forall d1 d2, same d1 d2 = true <-> k d1 = k d2) ->
  sym_eq I same b1 b2 = true <-> sym_key k b1 = sym_key k b2.
Proof.
  intros Hs. unfold sym_eq, sym_key. rewrite orb_true_iff, bool_decide_eq_true.
  destruct (b1 ≫= regular I) as [d1|] eqn:E1, (b2 ≫= regular I) as [d2|] eqn:E2; rewrite ?Hs.
  - split; [intros [->|H]; [congruence|by rewrite H]|intros [= H]; by right].
  - split; [intros [->|?]; congruence|discriminate].
  - split; [intros [->|?]; congruence|discriminate].
  - split; [intros [->|?]; congruence|intros [= H]; by left].
Qed.

Definition assoc_key (ec : nat -> Z) (a : nat) : list Z :=
  map ec (List.filter (considerForICF I) (children (sec I a))).

Definition reloc_key (ec : nat -> Z) (r : icf_reloc) : Z * Z * (Z * Z + option nat) :=
  (r_Type r, r_VirtualAddress r, sym_key (fun d => (d.1, ec d.2)) (r_symbol r)).

(** All that does not move. *)
Definition data_key (a : nat) :=
  let s := sec I a in
  (outputCharacteristics s, sectionName s, rawSize s, checksum s, sectionContents s, machine s).

Definition const_key (ec : nat -> Z) (a : nat) :=
  (data_key a, map (reloc_key ec) (sectionRelocs (sec I a)), assoc_key ec a).

Definition var_key (ec : nat -> Z) (a : nat) :=
  (sym_key (fun d => ec d.2) <$> (Some <$> getEntryThunk (sec I a)),
   map (fun r => sym_key (fun d => ec d.2) (r_symbol r)) (sectionRelocs (sec I a)), assoc_key ec a).

Lemma assocEquals_key ec a b : assocEquals I ec a b = true <-> assoc_key ec a = assoc_key ec b.
Proof.
  unfold assocEquals, assoc_key. rewrite equal4_forall2, <- forall2_map_eq.
  split; intros H; (eapply Forall2_impl; [exact H|]); intros x y; apply Z.eqb_eq.
Qed.

Lemma equalsConstant_key ec a b :
  equalsConstant I ec a b = true <-> const_key ec a = const_key ec b.
Proof.
  unfold equalsConstant, const_key, data_key. cbv zeta. split.
  - destruct (Nat.eqb_spec (length (sectionRelocs (sec I a))) (length (sectionRelocs (sec I b))))
      as [Hl|]; [|done]. simpl negb. cbv iota.
    destruct (equal3 _ _ _) eqn:E; [|done]. simpl. rewrite !andb_true_iff, !Z.eqb_eq, String.eqb_eq,
      bool_decide_eq_true, assocEquals_key. intros ((((((H1 & H2) & H3) & H4) & H5) & H6) & H7).
    apply equal3_forall2 in E; [|done].
    assert (Hr : map (reloc_key ec) (sectionRelocs (sec I a)) = map (reloc_key ec) (sectionRelocs (sec I b))).
    { apply forall2_map_eq. eapply Forall2_impl; [exact E|]. intros r1 r2 Hr. simpl in Hr. unfold reloc_key.
      destruct (Z.eqb_spec (r_Type r1) (r_Type r2)) as [->|]; [|done].
      destruct (Z.eqb_spec (r_VirtualAddress r1) (r_VirtualAddress r2)) as [->|]; [|done]. simpl in Hr.
      f_equal. apply (sym_eq_key (fun d => (d.1, ec d.2))) in Hr; [done|].
      intros d1 d2. rewrite andb_true_iff, !Z.eqb_eq. split; [by intros [-> ->]|by intros [= -> ->]]. }
    rewrite Hr, H1, H2, H3, H4, H5, H6, H7. done.
  - intros [= H1 H2 H3 H4 H5 H6 Hr H7]. pose proof (f_equal length Hr) as Hl. rewrite !length_map in Hl.
    rewrite (proj2 (Nat.eqb_eq _ _)) by done. simpl negb. cbv iota.
    assert (E : equal3 (fun r1 r2 : icf_reloc =>
      if negb (r_Type r1 =? r_Type r2) || negb (r_VirtualAddress r1 =? r_VirtualAddress r2) then false
      else sym_eq I (fun d1 d2 => (d1.1 =? d2.1) && (ec d1.2 =? ec d2.2)) (r_symbol r1) (r_symbol r2))
      (sectionRelocs (sec I a)) (sectionRelocs (sec I b)) = true).
    { apply equal3_forall2; [done|]. apply forall2_map_eq in Hr. eapply Forall2_impl; [exact Hr|].
      intros r1 r2 [= E1 E2 E3]. rewrite E1, E2, !Z.eqb_refl. simpl.
      apply (sym_eq_key (fun d => (d.1, ec d.2))); [|done].
      intros d1 d2. rewrite andb_true_iff, !Z.eqb_eq. split; [by intros [-> ->]|by intros [= -> ->]]. }
    rewrite E. simpl. rewrite !andb_true_iff, !Z.eqb_eq, String.eqb_eq, bool_decide_eq_true,
      assocEquals_key. repeat split; done.
Qed.

Lemma equalsVariable_key ec a b :
  length (sectionRelocs (sec I a)) = length (sectionRelocs (sec I b)) ->
  equalsVariable I ec a b = true <-> var_key ec a = var_key ec b.
Proof.
  intros Hl. unfold equalsVariable, var_key.
  assert (Hs : forall d1 d2 : Z * nat, (ec d1.2 =? ec d2.2) = true <-> ec d1.2 = ec d2.2)
    by (intros; apply Z.eqb_eq).
  assert (He : (match getEntryThunk (sec I a), getEntryThunk (sec I b) with
      | None, None => false
      | Some _, Some _ => negb (sym_eq I (fun d1 d2 => ec d1.2 =? ec d2.2)
          (getEntryThunk (sec I a)) (getEntryThunk (sec I b)))
      | _, _ => true end = false) <->
    sym_key (fun d => ec d.2) <$> (Some <$> getEntryThunk (sec I a)) =
    sym_key (fun d => ec d.2) <$> (Some <$> getEntryThunk (sec I b))).
  { destruct (getEntryThunk (sec I a)), (getEntryThunk (sec I b)); simpl; try (split; congruence).
    rewrite negb_false_iff, (sym_eq_key _ _ _ _ Hs). split; [by intros ->|by intros [= ->]]. }
  destruct (match getEntryThunk _ with Some _ => _ | None => _ end) eqn:Ee.
  { split; [done|]. intros [= E1 _ _]. apply He in E1. done. }
  rewrite andb_true_iff, assocEquals_key, equal3_forall2 by done.
  assert (Hr : Forall2 (fun x y => sym_eq I (fun d1 d2 => ec d1.2 =? ec d2.2) (r_symbol x) (r_symbol y) = true)
      (sectionRelocs (sec I a)) (sectionRelocs (sec I b)) <->
    map (fun r => sym_key (fun d => ec d.2) (r_symbol r)) (sectionRelocs (sec I a)) =
    map (fun r => sym_key (fun d => ec d.2) (r_symbol r)) (sectionRelocs (sec I b))).
  { rewrite <- forall2_map_eq. split; intros H; (eapply Forall2_impl; [exact H|]); intros x y;
      by rewrite (sym_eq_key _ _ _ _ Hs). }
  rewrite Hr. pose proof (proj1 He eq_refl) as E1. rewrite E1. split; [by intros [-> ->]|by intros [= -> ->]].
Qed.

End Keys.

(** ** Splitting one class *)

Fixpoint seg_groups (eqf : nat -> nat -> bool) (fuel : nat) (g : list nat) : list (list nat) :=
  match fuel, g with
  | S fuel, x :: rest =>
      (x :: List.filter (eqf x) rest) ::
      seg_groups eqf fuel (List.filter (fun s => negb (eqf x s)) rest)
  | _, _ => []
  end.

Definition split_group (eqf : nat -> nat -> bool) (g : list nat) : list (list nat) :=
  seg_groups eqf (length g) g.

(** Each group carries the index of its end as its class. *)
Fixpoint tagged (b : nat) (gs : list (list nat)) (ec : nat -> Z) : Prop :=
  match gs with
  | [] => True
  | g :: gs => (forall c, c ∈ g -> ec c = Z.of_nat (b + length g)) /\ tagged (b + length g) gs ec
  end.

Lemma filter_partition_perm {A} (p : A -> bool) l :
  List.filter p l ++ List.filter (fun x => negb (p x)) l ≡ₚ l.
Proof.
  induction l as [|x l IH]; [done|]. simpl. destruct (p x); simpl; [by rewrite IH|].
  rewrite <- Permutation_middle. by rewrite IH.
Qed.

Lemma filter_partition_length {A} (p : A -> bool) l :
  (length (List.filter p l) + length (List.filter (fun x => negb (p x)) l) = length l)%nat.
Proof. rewrite <- length_app. apply Permutation_length, filter_partition_perm. Qed.

Lemma seg_groups_perm eqf fuel g : (length g <= fuel)%nat -> concat (seg_groups eqf fuel g) ≡ₚ g.
Proof.
  revert g. induction fuel as [|fuel IH]; intros [|x g] H; simpl in *; [done|lia|done|].
  rewrite IH; [|pose proof (filter_partition_length (eqf x) g); lia].
  constructor. apply filter_partition_perm.
Qed.

Lemma seg_groups_leader eqf fuel g h :
  In h (seg_groups eqf fuel g) ->
  exists x rest, h = x :: rest /\ Forall (fun s => eqf x s = true) rest.
Proof.
  revert g. induction fuel as [|fuel IH]; intros [|x g]; simpl; try done.
  intros [<-|H]; [|by eapply IH]. exists x, (List.filter (eqf x) g). split; [done|].
  apply Forall_forall. intros s Hs. apply list_elem_of_In, filter_In in Hs. tauto.
Qed.

Lemma split_group_perm eqf g : concat (split_group eqf g) ≡ₚ g.
Proof. by apply seg_groups_perm. Qed.

Lemma split_group_one eqf g :
  length (split_group eqf g) = 1%nat -> split_group eqf g = [g].
Proof.
  unfold split_group. destruct g as [|x g]; [done|]. simpl. intros [= H].
  pose proof (seg_groups_perm eqf (length g) (List.filter (fun s => negb (eqf x s)) g)) as Hp.
  pose proof (filter_partition_length (eqf x) g) as Hl.
  destruct (seg_groups _ _ _); [|done]. simpl in Hp. specialize (Hp ltac:(lia)).
  apply Permutation_length in Hp. simpl in Hp. do 2 f_equal.
  assert (Hall : forall l, length (List.filter (eqf x) l) = length l -> List.filter (eqf x) l = l).
  { induction l as [|y l IH]; [done|]. simpl. destruct (eqf x y); simpl.
    - intros [= E]. f_equal. by apply IH.
    - intros E. pose proof (filter_partition_length (eqf x) l). lia. }
  apply Hall. lia.
Qed.

Lemma split_group_pos eqf g : g <> [] -> (1 <= length (split_group eqf g))%nat.
Proof. unfold split_group. destruct g; [done|]. simpl. lia. Qed.

Section Segregate.
  Context (I : icf_input).

Definition read_class (st : icf_state) : nat -> Z := eqClass st (slot (cnt st)).
Definition write_class (st : icf_state) : nat -> Z := eqClass st (slot (cnt st + 1)).

Lemma slot_other n : slot (n + 1) = negb (slot n).
Proof. unfold slot. by rewrite Nat.add_1_r, Nat.odd_succ, <- Nat.negb_odd. Qed.

(** What splitting [g], the chunks from [length pre] on, into [gs] does. *)
Record seg_result (st : icf_state) (pre : list nat) (gs : list (list nat)) (post : list nat)
    (st' : icf_state) : Prop := {
  sr_chunks : chunks st' = pre ++ concat gs ++ post;
  sr_cnt : cnt st' = cnt st;
  sr_merged : merged st' = merged st;
  sr_read : read_class st' = read_class st;
  sr_keep c : c ∉ concat gs -> write_class st' c = write_class st c;
  sr_tagged : tagged (length pre) gs (write_class st')
}.

(** Assigning one class to a list of sections. *)
Lemma set_classes st l sl v :
  let st' := fold_left (fun st c => set_class sl c v st) l st in
  chunks st' = chunks st /\ cnt st' = cnt st /\ merged st' = merged st /\ repeat_ st' = repeat_ st /\
  eqClass st' (negb sl) = eqClass st (negb sl) /\
  (forall c, eqClass st' sl c = if bool_decide (c ∈ l) then v else eqClass st sl c).
Proof.
  revert st. induction l as [|x l IH]; intros st; cbn [fold_left].
  { do 5 (split; [done|]). intros c. by rewrite bool_decide_false by apply not_elem_of_nil. }
  destruct (IH (set_class sl x v st)) as (H1 & H2 & H3 & H4 & H5 & H6).
  cbv zeta. cbn [set_class chunks cnt merged repeat_ eqClass] in *.
  do 4 (split; [done|]). split.
  - rewrite H5. apply functional_extensionality. intros c. by destruct sl.
  - intros c. rewrite H6, Bool.eqb_reflx. cbn [andb].
    destruct (Nat.eqb_spec c x) as [->|Hne].
    + rewrite (bool_decide_true (x ∈ x :: l)) by left. by case_bool_decide.
    + do 2 case_bool_decide; set_solver.
Qed.

Lemma tagged_keep b gs ec ec' :
  (forall c, c ∈ concat gs -> ec' c = ec c) -> tagged b gs ec -> tagged b gs ec'.
Proof.
  revert b. induction gs as [|g gs IH]; intros b H; [done|]. simpl in *. intros [Hg Hgs]. split.
  - intros c Hc. rewrite H by (apply elem_of_app; by left). by apply Hg.
  - apply IH; [|done]. intros c Hc. apply H. apply elem_of_app. by right.
Qed.

Definition pass_eq (constant : bool) (ec : nat -> Z) : nat -> nat -> bool :=
  (if constant then equalsConstant I else equalsVariable I) ec.

Lemma segregate_spec constant fuel : forall st pre g post,
  chunks st = pre ++ g ++ post -> NoDup (chunks st) -> (length g <= fuel)%nat ->
  let gs := seg_groups (pass_eq constant (read_class st)) fuel g in
  let st' := segregate I fuel (length pre) (length pre + length g) constant st in
  seg_result st pre gs post st' /\
  repeat_ st' = repeat_ st || (1 <? length gs)%nat.
Proof.
  induction fuel as [|fuel IH]; intros st pre g post Hch Hnd Hf gs st'.
  { destruct g; [|simpl in Hf; lia]. simpl in *. split; [|by rewrite orb_false_r].
    by split. }
  destruct g as [|x g].
  { unfold st', gs. cbn [segregate seg_groups length]. rewrite Nat.add_0_r, Nat.ltb_irrefl.
    split; [by split|by rewrite orb_false_r]. }
  set (eqf := pass_eq constant (read_class st)) in *.
  assert (Hlead : nth (length pre) (chunks st) O = x) by (rewrite Hch, app_nth2, Nat.sub_diag by lia; done).
  assert (Hrange : take (length pre + length (x :: g) - S (length pre)) (drop (S (length pre)) (chunks st)) = g).
  { rewrite Hch. replace (S (length pre)) with (length (pre ++ [x])) by (rewrite length_app; simpl; lia).
    replace (pre ++ (x :: g) ++ post) with ((pre ++ [x]) ++ g ++ post) by by rewrite <- app_assoc.
    rewrite drop_app_length, length_app. apply take_app_length'. simpl. lia. }
  set (yes := List.filter (eqf x) g). set (no := List.filter (fun s => negb (eqf x s)) g).
  pose proof (filter_partition_length (eqf x) g) as Hlen. fold yes no in Hlen.
  set (mid := (S (length pre) + length yes)%nat).
  assert (Hl' : take (S (length pre)) (chunks st) ++ yes ++ no ++ drop (length pre + length (x :: g)) (chunks st) =
    (pre ++ x :: yes) ++ no ++ post).
  { rewrite Hch. replace (S (length pre)) with (length (pre ++ [x])) by (rewrite length_app; simpl; lia).
    replace (pre ++ (x :: g) ++ post) with ((pre ++ [x]) ++ g ++ post) by by rewrite <- app_assoc.
    rewrite take_app_length.
    replace ((pre ++ [x]) ++ g ++ post) with ((pre ++ x :: g) ++ post) by by rewrite <- !app_assoc.
    rewrite drop_app_length' by (rewrite length_app; done). by rewrite <- !app_assoc. }
  unfold st'. cbn [segregate].
  rewrite (proj2 (Nat.ltb_lt _ _)) by (simpl; lia). cbv zeta. rewrite Hlead, Hrange.
  fold (read_class st). fold (pass_eq constant (read_class st)). fold eqf.
  fold yes no mid. rewrite Hl'.
  set (st1 := set_chunks ((pre ++ x :: yes) ++ no ++ post) st).
  assert (Htk : take (mid - length pre) (drop (length pre) ((pre ++ x :: yes) ++ no ++ post)) = x :: yes).
  { rewrite <- app_assoc, drop_app_length. apply take_app_length'. unfold mid. simpl. lia. }
  rewrite Htk. destruct (set_classes st1 (x :: yes) (slot (cnt st1 + 1)) (Z.of_nat mid))
    as (S1 & S2 & S3 & S4 & S5 & S6).
  change (cnt st1) with (cnt st) in *. set (st2 := fold_left _ (x :: yes) st1) in *.
  rewrite slot_other, negb_involutive in S5. rewrite slot_other in S6.
  set (st3 := if (mid =? length pre + length (x :: g))%nat then st2 else set_repeat true st2).
  assert (E3 : chunks st3 = (pre ++ x :: yes) ++ no ++ post /\ cnt st3 = cnt st /\ merged st3 = merged st /\
    read_class st3 = read_class st /\ eqClass st3 = eqClass st2 /\
    repeat_ st3 = repeat_ st || negb (length no =? 0)%nat).
  { unfold st3, read_class.
    replace (mid =? length pre + length (x :: g))%nat with (length no =? 0)%nat.
    - destruct (length no =? 0)%nat; simpl; rewrite S1, S2, ?S3, ?S4, ?S5; simpl;
        rewrite ?orb_false_r, ?orb_true_r; done.
    - apply eq_iff_eq_true. rewrite !Nat.eqb_eq. unfold mid. simpl. lia. }
  destruct E3 as (C1 & C2 & C3 & C4 & C5 & C6).
  assert (Hnd3 : NoDup (chunks st3)).
  { rewrite C1. rewrite Hch in Hnd. rewrite <- app_assoc.
    assert (Hp : pre ++ (x :: yes) ++ no ++ post ≡ₚ pre ++ (x :: g) ++ post).
    { apply Permutation_app_head. simpl. constructor. rewrite app_assoc.
      by rewrite (filter_partition_perm (eqf x) g : yes ++ no ≡ₚ g). }
    by rewrite Hp. }
  assert (Hmid : mid = length (pre ++ x :: yes)) by (unfold mid; rewrite length_app; simpl; lia).
  assert (Hend : (length pre + length (x :: g) = mid + length no)%nat) by (unfold mid; simpl; lia).
  rewrite Hend, Hmid.
  destruct (IH st3 (pre ++ x :: yes) no post C1 Hnd3 ltac:(simpl in Hf; lia)) as [[R1 R2 R3 R4 R5 R6] R7].
  rewrite C4 in *. fold eqf in R1, R5, R6, R7.
  set (gs' := seg_groups eqf fuel no) in *.
  assert (Hgs : gs = (x :: yes) :: gs') by done.
  assert (Hperm : concat gs' ≡ₚ no) by (apply seg_groups_perm; simpl in Hf; lia).
  split; [split|].
  - rewrite R1, Hgs. simpl. by rewrite <- !app_assoc.
  - by rewrite R2.
  - by rewrite R3.
  - by rewrite R4.
  - intros c Hc. rewrite Hgs in Hc. simpl in Hc. apply not_elem_of_cons in Hc as [Hx Hc].
    apply not_elem_of_app in Hc as [Hy Hc]. rewrite R5 by done.
    unfold write_class. rewrite C5, C2, slot_other, S6. rewrite bool_decide_false by set_solver. done.
  - rewrite Hgs. simpl. split.
    + intros c Hc. rewrite R5.
      * unfold write_class. rewrite C5, C2, slot_other, S6, bool_decide_true by done.
        unfold mid. f_equal. simpl. lia.
      * rewrite Hperm. intros Hn. rewrite C1 in Hnd3. rewrite <- app_assoc in Hnd3.
        apply NoDup_app in Hnd3 as (_ & _ & Hnd3). change ((x :: yes) ++ no ++ post) with ((x :: yes) ++ (no ++ post)) in Hnd3.
        apply NoDup_app in Hnd3 as (_ & Hd & _). apply (Hd c Hc). apply elem_of_app. by left.
    + replace (length pre + S (length yes))%nat with (length (pre ++ x :: yes)) by (rewrite length_app; simpl; lia).
      done.
  - rewrite R7, C6, Hgs. rewrite <- orb_assoc. f_equal. simpl length.
    unfold gs'. destruct no as [|y no']; [by destruct fuel|].
    destruct fuel as [|fuel']; [simpl in Hf, Hlen; lia|]. done.
Qed.

End Segregate.

(** ** Walking the classes *)

(** Consecutive nonempty groups, each of one class, neighbours of different
    classes. *)
Fixpoint runs (ec : nat -> Z) (gs : list (list nat)) : Prop :=
  match gs with
  | [] => True
  | g :: gs' =>
      g <> [] /\ (forall c c', c ∈ g -> c' ∈ g -> ec c = ec c') /\
      match gs' with
      | [] => True
      | g' :: _ => forall c c', c ∈ g -> c' ∈ g' -> ec c <> ec c'
      end /\ runs ec gs'
  end.

Lemma runs_app ec gs1 gs2 : runs ec (gs1 ++ gs2) -> runs ec gs1 /\ runs ec gs2.
Proof.
  induction gs1 as [|g gs1 IH]; [done|]. simpl. intros (H1 & H2 & H3 & H4).
  apply IH in H4 as [H4 H5]. split; [|done]. split; [done|]. split; [done|]. split; [|done].
  by destruct gs1.
Qed.

Lemma findBoundary_from_run ec v g l i :
  (forall c, c ∈ g -> v = ec c) -> match l with [] => True | c :: _ => v <> ec c end ->
  findBoundary_from ec v i (g ++ l) = (i + length g)%nat.
Proof.
  revert i. induction g as [|c g IH]; intros i Hg Hl; simpl.
  - destruct l as [|c l]; simpl; [lia|]. rewrite (proj2 (Z.eqb_neq _ _)) by done. lia.
  - rewrite (proj2 (Z.eqb_eq _ _)) by (apply Hg; left). rewrite IH; [lia| |done].
    intros c' Hc. apply Hg. by right.
Qed.

(** From any position inside a group the boundary is the group's end. *)
Lemma findBoundary_run st b g gs post :
  drop b (chunks st) = g ++ concat gs ++ post -> runs (read_class st) (g :: gs) ->
  findBoundary b (b + length g + length (concat gs)) st = (b + length g)%nat.
Proof.
  intros Hd (Hne & Hg & Hn & Hr). destruct g as [|x g]; [done|].
  unfold findBoundary. fold (read_class st).
  assert (Hx : nth b (chunks st) O = x).
  { rewrite <- (Nat.add_0_r b), <- nth_skipn. change (skipn b (chunks st)) with (drop b (chunks st)). by rewrite Hd. }
  rewrite Hx.
  assert (Ht : take (b + length (x :: g) + length (concat gs) - S b) (drop (S b) (chunks st)) = g ++ concat gs).
  { rewrite <- Nat.add_1_r, <- drop_drop, Hd. simpl. rewrite app_assoc. apply take_app_length'.
    rewrite length_app. lia. }
  rewrite Ht, findBoundary_from_run; [simpl; lia| |].
  - intros c Hc. apply Hg; [left|by right].
  - destruct gs as [|[|y g'] gs]; simpl; [done| |].
    + by destruct Hr.
    + apply Hn; left.
Qed.

Section Classes.
  Context (fn : nat -> nat -> icf_state -> icf_state).

Definition fn_local : Prop := forall b e st,
  (b < e <= length (chunks st))%nat -> NoDup (chunks st) ->
  length (chunks (fn b e st)) = length (chunks st) /\ NoDup (chunks (fn b e st)) /\
  drop e (chunks (fn b e st)) = drop e (chunks st) /\ read_class (fn b e st) = read_class st.

Fixpoint fold_groups (b : nat) (gs : list (list nat)) (st : icf_state) : icf_state :=
  match gs with
  | [] => st
  | g :: gs => fold_groups (b + length g) gs (fn b (b + length g) st)
  end.

Lemma fold_groups_app b gs1 gs2 st :
  fold_groups b (gs1 ++ gs2) st = fold_groups (b + length (concat gs1)) gs2 (fold_groups b gs1 st).
Proof.
  revert b st. induction gs1 as [|g gs1 IH]; intros b st; simpl; [by rewrite Nat.add_0_r|].
  by rewrite IH, length_app, Nat.add_assoc.
Qed.

Context (Hfn : fn_local).

Lemma fold_groups_local gs : forall b st,
  Forall (fun g => g <> []) gs -> (b + length (concat gs) <= length (chunks st))%nat ->
  NoDup (chunks st) ->
  let st' := fold_groups b gs st in
  length (chunks st') = length (chunks st) /\ NoDup (chunks st') /\
  drop (b + length (concat gs)) (chunks st') = drop (b + length (concat gs)) (chunks st) /\
  read_class st' = read_class st.
Proof using Hfn.
  induction gs as [|g gs IH]; intros b st Hne Hl Hnd; [done|]. simpl in *. rewrite length_app in *.
  apply Forall_cons in Hne as [Hg Hne].
  assert (0 < length g)%nat by (destruct g; [done|simpl; lia]).
  destruct (Hfn b (b + length g)%nat st ltac:(lia) Hnd) as (H1 & H2 & H3 & H4).
  destruct (IH (b + length g)%nat (fn b (b + length g) st) Hne ltac:(lia) H2) as (I1 & I2 & I3 & I4).
  rewrite <- Nat.add_assoc in *. split; [by rewrite I1|]. split; [done|]. split; [|by rewrite I4].
  rewrite I3, Nat.add_assoc.
  by rewrite <- (drop_drop _ _ (b + length g)%nat), H3, drop_drop.
Qed.

Lemma runs_nonempty ec gs : runs ec gs -> Forall (fun g => g <> []) gs.
Proof. induction gs as [|g gs IH]; [constructor|]. simpl. intros (H1 & _ & _ & H4). constructor; auto. Qed.

Lemma forEachClassRange_groups gs : forall fuel b post st,
  runs (read_class st) gs -> NoDup (chunks st) -> (b <= length (chunks st))%nat ->
  drop b (chunks st) = concat gs ++ post -> (length gs <= fuel)%nat ->
  forEachClassRange fuel b (b + length (concat gs)) fn st = fold_groups b gs st.
Proof using Hfn.
  induction gs as [|g gs IH]; intros fuel b post st Hr Hnd Hb Hd Hf.
  { simpl. rewrite Nat.add_0_r. destruct fuel; [done|]. simpl. by rewrite Nat.ltb_irrefl. }
  destruct fuel as [|fuel]; [simpl in Hf; lia|]. cbn [forEachClassRange fold_groups].
  pose proof Hr as (Hg & _ & _ & Hr').
  assert (0 < length g)%nat by (destruct g; [done|simpl; lia]).
  simpl concat in *. rewrite length_app. rewrite (proj2 (Nat.ltb_lt _ _)) by lia.
  rewrite <- app_assoc in Hd.
  assert (Hlen : (b + length g + length (concat gs) <= length (chunks st))%nat).
  { apply (f_equal length) in Hd. rewrite length_drop, !length_app in Hd. lia. }
  rewrite Nat.add_assoc, (findBoundary_run st b g gs post Hd Hr).
  destruct (Hfn b (b + length g)%nat st ltac:(lia) Hnd) as (H1 & H2 & H3 & H4).
  apply (IH fuel (b + length g)%nat post); [by rewrite H4|done|lia| |simpl in Hf; lia].
  rewrite H3, <- drop_drop, Hd. apply drop_app_length.
Qed.

(** The end of the [k]-th group. *)
Definition pos (gs : list (list nat)) (k : nat) : nat := length (concat (take k gs)).

Lemma pos_S gs k g : gs !! k = Some g -> pos gs (S k) = (pos gs k + length g)%nat.
Proof.
  intros H. unfold pos. rewrite (take_S_r _ _ _ H), concat_app, length_app. simpl. by rewrite app_nil_r.
Qed.

Lemma pos_mono gs k k' : (k <= k')%nat -> (pos gs k <= pos gs k')%nat.
Proof.
  intros H. unfold pos. replace k' with (k + (k' - k))%nat by lia.
  rewrite <- take_take_drop, concat_app, length_app. lia.
Qed.

Lemma pos_all gs k : (length gs <= k)%nat -> pos gs k = length (concat gs).
Proof. intros H. unfold pos. by rewrite take_ge. Qed.

Lemma pos_strict gs k k' :
  Forall (fun g => g <> []) gs -> (k < k')%nat -> (k' <= length gs)%nat -> (pos gs k < pos gs k')%nat.
Proof.
  intros Hne Hk Hl. destruct (lookup_lt_is_Some_2 gs k ltac:(lia)) as [g Hg].
  pose proof (pos_mono gs (S k) k' ltac:(lia)). rewrite (pos_S _ _ _ Hg) in H.
  rewrite Forall_lookup in Hne. specialize (Hne _ _ Hg). destruct g; [done|]. simpl in H. lia.
Qed.

Lemma pos_find gs p : (p < length (concat gs))%nat ->
  exists k, (k < length gs)%nat /\ (pos gs k <= p < pos gs (S k))%nat.
Proof.
  induction gs as [|g gs IH] using rev_ind; simpl; [lia|].
  rewrite concat_app, !length_app. simpl. rewrite app_nil_r. intros Hp.
  destruct (decide (p < length (concat gs))%nat) as [H|H].
  - destruct (IH H) as (k & Hk & Hp1). exists k. split; [lia|]. unfold pos in *.
    by rewrite !take_app_le by lia.
  - exists (length gs). split; [lia|]. unfold pos. rewrite take_app_length, take_ge by (rewrite length_app; simpl; lia).
    rewrite concat_app, length_app. simpl. rewrite app_nil_r. lia.
Qed.

(** A boundary of the sharded walk is the end of a group. *)
Lemma boundary_pos st gs i :
  runs (read_class st) gs -> chunks st = concat gs -> (numShards <= length (chunks st))%nat ->
  (i <= numShards)%nat -> exists k, (k <= length gs)%nat /\ boundary st i = pos gs k /\
    ((0 < i < numShards)%nat -> (pos gs (k - 1) <= (i - 1) * (length (chunks st) / numShards) < pos gs k)%nat).
Proof.
  intros Hr Hc Hn Hi. unfold boundary. destruct (Nat.eqb_spec i 0) as [->|H0].
  { exists O. split; [lia|]. split; [done|]. intros H. lia. }
  destruct (Nat.eqb_spec i numShards) as [->|H1].
  { exists (length gs). split; [lia|]. split; [rewrite pos_all by lia; by rewrite Hc|]. intros H. lia. }
  set (p := ((i - 1) * (length (chunks st) / numShards))%nat).
  assert (Hp : (p < length (concat gs))%nat).
  { rewrite <- Hc. unfold p. pose proof (Nat.div_mod_eq (length (chunks st)) numShards).
    assert (0 < length (chunks st) / numShards)%nat by (apply Nat.div_str_pos; unfold numShards in *; lia).
    assert (i - 1 < numShards)%nat by (unfold numShards in *; lia).
    nia. }
  destruct (pos_find gs p Hp) as (k & Hk & Hpk). exists (S k). split; [lia|].
  split; [|intros _; by replace (S k - 1)%nat with k by lia].
  destruct (lookup_lt_is_Some_2 gs k Hk) as [g Hg].
  assert (Hgs : gs = take k gs ++ g :: drop (S k) gs) by (symmetry; by apply take_drop_middle).
  rewrite (pos_S _ _ _ Hg) in Hpk |- *.
  set (d := (p - pos gs k)%nat). assert (Hd : (d < length g)%nat) by lia.
  assert (Hdrop : drop p (chunks st) = drop d g ++ concat (drop (S k) gs) ++ []).
  { rewrite Hc, Hgs at 1. rewrite concat_app. simpl. replace p with (pos gs k + d)%nat by lia.
    unfold pos. rewrite <- drop_drop, drop_app_length, drop_app_le by lia. by rewrite app_nil_r. }
  assert (Hl : length (chunks st) = (p + length (drop d g) + length (concat (drop (S k) gs)))%nat).
  { apply (f_equal length) in Hdrop. rewrite length_drop, app_nil_r, length_app in Hdrop. rewrite Hc in *. lia. }
  rewrite Hl. rewrite (findBoundary_run st p (drop d g) (drop (S k) gs) [] Hdrop).
  - rewrite length_drop. lia.
  - rewrite Hgs in Hr. apply runs_app in Hr as [_ (Hr1 & Hr2 & Hr3 & Hr4)]. split.
    { intros E. apply (f_equal length) in E. rewrite length_drop in E. simpl in E. lia. }
    assert (Hsub : forall c, c ∈ drop d g -> c ∈ g) by (intros c; apply subseteq_drop).
    split; [intros; apply Hr2; by apply Hsub|]. split; [|done].
    destruct (drop (S k) gs); [done|]. intros c c' Hcc. apply Hr3. by apply Hsub.
Qed.

Lemma boundary_mono st gs i j ki kj :
  runs (read_class st) gs -> chunks st = concat gs -> (numShards <= length (chunks st))%nat ->
  (i <= j <= numShards)%nat -> (ki <= length gs)%nat -> (kj <= length gs)%nat ->
  boundary st i = pos gs ki -> boundary st j = pos gs kj -> (ki <= kj)%nat.
Proof.
  intros Hr Hc Hn Hij Hki Hkj Ei Ej. pose proof (runs_nonempty _ _ Hr) as Hne.
  destruct (Nat.le_gt_cases ki kj) as [|Hgt]; [done|]. exfalso.
  destruct (boundary_pos st gs i Hr Hc Hn ltac:(lia)) as (k1 & Hk1 & B1 & P1).
  destruct (boundary_pos st gs j Hr Hc Hn ltac:(lia)) as (k2 & Hk2 & B2 & P2).
  assert (k1 = ki).
  { destruct (lt_eq_lt_dec k1 ki) as [[H|]|H]; [|done|];
      pose proof (pos_strict gs _ _ Hne H ltac:(lia)); lia. }
  assert (k2 = kj).
  { destruct (lt_eq_lt_dec k2 kj) as [[H'|]|H']; [|done|];
      pose proof (pos_strict gs _ _ Hne H' ltac:(lia)); lia. }
  subst k1 k2. pose proof (pos_strict gs _ _ Hne Hgt ltac:(lia)) as Hlt.
  destruct (decide (i = 0)%nat) as [->|]; [unfold boundary in Ei; simpl in Ei; lia|].
  destruct (decide (j = numShards)) as [->|].
  { unfold boundary in Ej. simpl in Ej. rewrite Hc in Ej.
    pose proof (pos_mono gs ki (length gs) ltac:(lia)) as Hm. rewrite (pos_all gs (length gs)) in Hm by lia. lia. }
  specialize (P1 ltac:(lia)). specialize (P2 ltac:(lia)).
  pose proof (pos_mono gs kj (ki - 1) ltac:(lia)).
  assert ((i - 1) * (length (chunks st) / numShards) <= (j - 1) * (length (chunks st) / numShards))%nat
    by (apply Nat.mul_le_mono_r; lia). lia.
Qed.

Lemma nth_boundaries st i :
  (i <= numShards)%nat -> nth i (map (boundary st) (seq 0 (S numShards))) O = boundary st i.
Proof.
  intros H. rewrite (nth_indep _ _ (boundary st O)) by (rewrite length_map, length_seq; lia).
  rewrite (map_nth (boundary st)). by rewrite seq_nth by lia.
Qed.

Lemma shards_groups st gs :
  runs (read_class st) gs -> chunks st = concat gs -> NoDup (chunks st) ->
  (numShards <= length (chunks st))%nat ->
  let bs := map (boundary st) (seq 0 (S numShards)) in
  forall m, (m <= numShards)%nat -> exists k, (k <= length gs)%nat /\ boundary st m = pos gs k /\
  fold_left (fun st' i =>
      let b := nth (i - 1) bs O in
      let e := nth i bs O in
      if (b <? e)%nat then forEachClassRange (length (chunks st)) b e fn st' else st') (seq 1 m) st =
  fold_groups 0 (take k gs) st.
Proof using Hfn.
  intros Hr Hc Hnd Hn bs. pose proof (runs_nonempty _ _ Hr) as Hne.
  induction m as [|m IH]; intros Hm.
  { destruct (boundary_pos st gs 0 Hr Hc Hn ltac:(lia)) as (k & Hk & Hb & _). exists O.
    split; [lia|]. done. }
  destruct (IH ltac:(lia)) as (k & Hk & Hb & Hst). clear IH.
  destruct (boundary_pos st gs (S m) Hr Hc Hn ltac:(lia)) as (k' & Hk' & Hb' & _).
  assert (Hkk : (k <= k')%nat) by (eapply (boundary_mono st gs m (S m)); eauto with lia).
  exists k'. split; [done|]. split; [done|].
  rewrite seq_S, fold_left_app, Hst. cbn [fold_left]. cbv zeta.
  replace (1 + m - 1)%nat with m by lia. unfold bs. rewrite !nth_boundaries by lia.
  change (1 + m)%nat with (S m). rewrite Hb, Hb'.
  destruct (decide (k = k')) as [<-|Hkne].
  { by rewrite Nat.ltb_irrefl. }
  pose proof (pos_strict gs k k' Hne ltac:(lia) Hk') as Hlt.
  rewrite (proj2 (Nat.ltb_lt _ _)) by done.
  set (st1 := fold_groups 0 (take k gs) st).
  set (mid := take (k' - k) (drop k gs)).
  assert (Hsplit : gs = take k gs ++ mid ++ drop k' gs).
  { unfold mid. rewrite <- (take_drop k gs) at 1. f_equal.
    rewrite <- (take_drop (k' - k) (drop k gs)) at 1. f_equal. rewrite drop_drop. f_equal. lia. }
  assert (Htk : take k' gs = take k gs ++ mid).
  { unfold mid. rewrite take_take_drop. f_equal. lia. }
  assert (Hloc : let st' := st1 in length (chunks st') = length (chunks st) /\ NoDup (chunks st') /\
      drop (0 + length (concat (take k gs))) (chunks st') = drop (0 + length (concat (take k gs))) (chunks st) /\
      read_class st' = read_class st).
  { apply fold_groups_local; [by apply Forall_take| |done].
    rewrite Hc. rewrite (f_equal (fun l => length (@concat nat l)) Hsplit), concat_app, length_app. simpl. lia. }
  destruct Hloc as (L1 & L2 & L3 & L4). simpl in L3. fold (pos gs k) in L3.
  assert (Hd : drop (pos gs k) (chunks st1) = concat mid ++ concat (drop k' gs)).
  { rewrite L3, Hc. rewrite (f_equal (@concat nat) Hsplit), !concat_app. unfold pos. apply drop_app_length. }
  assert (He : pos gs k' = (pos gs k + length (concat mid))%nat).
  { unfold pos. rewrite Htk, concat_app, length_app. done. }
  rewrite He, Htk, fold_groups_app. fold st1. simpl.
  apply (forEachClassRange_groups mid _ _ (concat (drop k' gs))).
  - rewrite L4. rewrite Hsplit in Hr. apply runs_app in Hr as [_ Hr]. by apply runs_app in Hr as [Hr _].
  - done.
  - rewrite L1, Hc. rewrite <- (pos_all gs (length gs)) by lia. apply pos_mono. lia.
  - exact Hd.
  - rewrite Hc. transitivity (length gs).
    + unfold mid. rewrite length_take, length_drop. lia.
    + clear -Hne. induction Hne as [|g gs Hg _ IH]; [done|]. simpl. rewrite length_app.
      destruct g; [done|]. simpl. lia.
Qed.

(** [forEachClass] visits the classes in order, whether or not it shards. *)
Lemma forEachClass_groups st gs :
  runs (read_class st) gs -> chunks st = concat gs -> NoDup (chunks st) ->
  forEachClass fn st = incr_cnt (fold_groups 0 gs st).
Proof using Hfn.
  intros Hr Hc Hnd. unfold forEachClass. destruct (Nat.ltb_spec (length (chunks st)) 1024) as [Hs|Hs].
  - f_equal. rewrite Hc at 2. apply (forEachClassRange_groups gs _ 0 []); [done|done|lia| |].
    + by rewrite Hc, app_nil_r.
    + rewrite Hc. pose proof (runs_nonempty _ _ Hr) as Hne. clear -Hne.
      induction Hne as [|g gs Hg _ IH]; [done|]. simpl. rewrite length_app.
      destruct g; [done|]. simpl. lia.
  - f_equal. assert (Hn : (numShards <= length (chunks st))%nat) by (unfold numShards; lia).
    destruct (shards_groups st gs Hr Hc Hnd Hn numShards ltac:(lia)) as (k & Hk & Hb & Hst).
    etrans; [exact Hst|]. f_equal. unfold boundary in Hb. simpl in Hb. rewrite Hc in Hb.
    destruct (decide (k = length gs)) as [->|Hne]; [by rewrite take_ge|].
    pose proof (pos_strict gs k (length gs) (runs_nonempty _ _ Hr) ltac:(lia) ltac:(lia)) as Hlt.
    rewrite (pos_all gs (length gs)) in Hlt by lia. lia.
Qed.

End Classes.

(** ** One pass *)

Section Pass.
  Context (I : icf_input) (constant : bool).

Definition seg_fn (b e : nat) : icf_state -> icf_state := segregate I (e - b) b e constant.
Abbreviation splits st := (split_group (pass_eq I constant (read_class st))).

Lemma segregate_at st b e :
  (b < e <= length (chunks st))%nat -> NoDup (chunks st) ->
  let g := take (e - b) (drop b (chunks st)) in
  seg_result st (take b (chunks st)) (splits st g) (drop e (chunks st)) (seg_fn b e st) /\
  repeat_ (seg_fn b e st) = repeat_ st || (1 <? length (splits st g))%nat.
Proof.
  intros Hb Hnd g.
  assert (Hg : length g = (e - b)%nat) by (unfold g; rewrite length_take, length_drop; lia).
  pose proof (segregate_spec I constant (e - b) st (take b (chunks st)) g (drop e (chunks st))) as H.
  rewrite length_take, Nat.min_l, Hg in H by lia. replace (b + (e - b))%nat with e in H by lia.
  unfold split_group. rewrite Hg. apply H; [|done|lia]. unfold g.
  rewrite <- (take_drop b (chunks st)) at 1. f_equal.
  rewrite <- (take_drop (e - b) (drop b (chunks st))) at 1. f_equal. rewrite drop_drop. f_equal. lia.
Qed.

Lemma seg_local : fn_local seg_fn.
Proof.
  intros b e st Hb Hnd. destruct (segregate_at st b e Hb Hnd) as [[R1 _ _ R4 _ _] _].
  assert (Hp : chunks (seg_fn b e st) ≡ₚ chunks st).
  { rewrite R1, split_group_perm. rewrite <- (take_drop b (chunks st)) at 4.
    apply Permutation_app_head.
    rewrite <- (take_drop (e - b) (drop b (chunks st))) at 2. apply Permutation_app_head.
    rewrite drop_drop. by replace (b + (e - b))%nat with e by lia. }
  split; [by apply Permutation_length|]. split; [by rewrite Hp|]. split; [|done].
  rewrite R1, app_assoc. apply drop_app_length'.
  rewrite length_app, (Permutation_length (split_group_perm _ _)), !length_take, length_drop. lia.
Qed.

Lemma tagged_app b gs1 gs2 ec :
  tagged b (gs1 ++ gs2) ec <-> tagged b gs1 ec /\ tagged (b + length (concat gs1)) gs2 ec.
Proof.
  revert b. induction gs1 as [|g gs1 IH]; intros b; simpl; [rewrite Nat.add_0_r; tauto|].
  rewrite IH, length_app, Nat.add_assoc. tauto.
Qed.

Lemma fold_segregate gs : forall st pre post,
  chunks st = pre ++ concat gs ++ post -> NoDup (chunks st) -> Forall (fun g => g <> []) gs ->
  let st' := fold_groups seg_fn (length pre) gs st in
  seg_result st pre (flat_map (splits st) gs) post st' /\
  repeat_ st' = repeat_ st || existsb (fun g => 1 <? length (splits st g))%nat gs.
Proof.
  induction gs as [|g gs IH]; intros st pre post Hc Hnd Hne st'.
  { simpl in *. split; [by split|by rewrite orb_false_r]. }
  apply Forall_cons in Hne as [Hg Hne]. simpl in Hc. rewrite <- app_assoc in Hc.
  assert (0 < length g)%nat by (destruct g; [done|simpl; lia]).
  assert (Hlen : (length pre < length pre + length g <= length (chunks st))%nat)
    by (rewrite Hc, !length_app; lia).
  destruct (segregate_at st _ _ Hlen Hnd) as [HR HRr].
  replace (length pre + length g - length pre)%nat with (length g) in * by lia.
  assert (T1 : take (length pre) (chunks st) = pre) by (rewrite Hc; apply take_app_length).
  assert (T2 : take (length g) (drop (length pre) (chunks st)) = g)
    by (rewrite Hc, drop_app_length; apply take_app_length).
  assert (T3 : drop (length pre + length g) (chunks st) = concat gs ++ post).
  { rewrite Hc, app_assoc. apply drop_app_length'. by rewrite length_app. }
  rewrite T1, T2, T3 in HR. rewrite T2 in HRr.
  set (st1 := seg_fn (length pre) (length pre + length g) st) in *.
  destruct HR as [R1 R2 R3 R4 R5 R6].
  set (gg := splits st g) in *.
  assert (Hgg : length (concat gg) = length g) by apply Permutation_length, split_group_perm.
  assert (Hnd1 : NoDup (chunks st1)) by by apply (seg_local _ _ _ Hlen Hnd).
  destruct (IH st1 (pre ++ concat gg) post) as [[S1 S2 S3 S4 S5 S6] S7];
    [by rewrite R1, <- app_assoc|done|done|].
  rewrite length_app, Hgg, R4 in *. unfold st'. cbn [fold_groups]. fold st1.
  set (st2 := fold_groups seg_fn (length pre + length g) gs st1) in *.
  set (rest := flat_map (splits st) gs) in *.
  assert (Hrest : concat rest ≡ₚ concat gs).
  { unfold rest. clear. induction gs as [|g gs IH]; [done|]. simpl. rewrite concat_app.
    apply Permutation_app; [apply split_group_perm|done]. }
  assert (Hdisj : forall c, c ∈ concat gg -> c ∉ concat rest).
  { intros c Hcg Hcr. rewrite R1 in Hnd1. apply NoDup_app in Hnd1 as (_ & _ & Hnd1).
    apply NoDup_app in Hnd1 as (_ & Hd & _). apply (Hd c Hcg). apply elem_of_app. left. by rewrite <- Hrest. }
  split; [split|].
  - cbn [flat_map]. fold gg rest. rewrite S1, concat_app, <- !app_assoc. done.
  - by rewrite S2.
  - by rewrite S3.
  - by rewrite S4.
  - cbn [flat_map]. fold gg rest. intros c Hcc. rewrite concat_app in Hcc.
    apply not_elem_of_app in Hcc as [Hc1 Hc2]. by rewrite S5, R5.
  - cbn [flat_map]. fold gg rest. apply tagged_app. rewrite Hgg. split; [|done].
    eapply tagged_keep; [|exact R6]. intros c Hcc. apply S5. by apply Hdisj.
  - rewrite S7, HRr. cbn [existsb]. by rewrite orb_assoc.
Qed.

Lemma split_pass_spec st gs :
  runs (read_class st) gs -> chunks st = concat gs -> NoDup (chunks st) ->
  let st' := split_pass I constant st in
  let gs' := flat_map (splits st) gs in
  chunks st' = concat gs' /\ NoDup (chunks st') /\ cnt st' = S (cnt st) /\ merged st' = merged st /\
  eqClass st' (slot (cnt st)) = read_class st /\
  (forall c, c ∉ concat gs -> read_class st' c = write_class st c) /\
  tagged 0 gs' (read_class st') /\
  repeat_ st' = repeat_ st || existsb (fun g => 1 <? length (splits st g))%nat gs.
Proof.
  intros Hr Hc Hnd. unfold split_pass. change (fun b e => segregate I (e - b) b e constant) with seg_fn.
  rewrite (forEachClass_groups seg_fn seg_local st gs Hr Hc Hnd).
  destruct (fold_segregate gs st [] []) as [[S1 S2 S3 S4 S5 S6] S7];
    [by rewrite Hc, app_nil_r|done|by eapply runs_nonempty|].
  destruct (fold_groups_local seg_fn seg_local gs 0 st) as (_ & L2 & _);
    [by eapply runs_nonempty|by rewrite Hc|done|].
  simpl length in *. set (st1 := fold_groups seg_fn 0 gs st) in *. rewrite app_nil_r in S1.
  assert (Hread : read_class (incr_cnt st1) = write_class st1).
  { unfold read_class, write_class. simpl. by rewrite Nat.add_1_r. }
  split; [done|]. split; [done|]. split; [simpl; by rewrite S2|]. split; [done|].
  split; [simpl; rewrite <- S2; exact S4|]. rewrite Hread. split; [|done].
  intros c Hcc. apply S5. intros Hin. apply Hcc.
  assert (Hp : concat (flat_map (splits st) gs) ≡ₚ concat gs).
  { clear. induction gs as [|g gs IH]; [done|]. simpl. rewrite concat_app.
    apply Permutation_app; [apply split_group_perm|done]. }
  by rewrite <- Hp.
Qed.

End Pass.

(** Tags of one numbering are runs. *)
Lemma tagged_runs b gs ec : Forall (fun g => g <> []) gs -> tagged b gs ec -> runs ec gs.
Proof.
  revert b. induction gs as [|g gs IH]; intros b Hne Ht; [done|].
  apply Forall_cons in Hne as [Hg Hne]. simpl in Ht. destruct Ht as [Hg1 Ht].
  simpl. split; [done|]. split; [intros c c' Hc Hc'; by rewrite !Hg1|].
  split; [|by eapply IH]. destruct gs as [|g' gs]; [done|]. apply Forall_cons in Hne as [Hg' _].
  destruct Ht as [Hg2 _]. intros c c' Hc Hc'. rewrite Hg1, Hg2 by done.
  destruct g'; [done|]. simpl. lia.
Qed.

Lemma tagged_above b gs ec x : tagged b gs ec -> x ∈ concat gs -> Z.of_nat b < ec x.
Proof.
  revert b. induction gs as [|g gs IH]; intros b Ht Hx; [by apply elem_of_nil in Hx|].
  simpl in *. destruct Ht as [H1 Ht]. apply elem_of_app in Hx as [Hx|Hx].
  - rewrite H1 by done. destruct g; [by apply elem_of_nil in Hx|]. simpl. lia.
  - specialize (IH _ Ht Hx). lia.
Qed.

(** Equal tags, same group. *)
Lemma tagged_same b gs ec g c c' :
  tagged b gs ec -> g ∈ gs -> c ∈ g -> c' ∈ concat gs -> ec c = ec c' -> c' ∈ g.
Proof.
  revert b. induction gs as [|g0 gs IH]; intros b Ht Hg Hc Hc' He; [by apply elem_of_nil in Hg|].
  simpl in *. destruct Ht as [H0 Ht]. apply elem_of_app in Hc'. apply elem_of_cons in Hg as [->|Hg].
  - destruct Hc' as [Hc'|Hc']; [done|]. pose proof (tagged_above _ _ _ _ Ht Hc').
    rewrite <- He, H0 in H by done. lia.
  - destruct Hc' as [Hc'|Hc']; [|by eapply IH].
    assert (Hcg : c ∈ concat gs) by (apply list_elem_of_In, in_concat; exists g; split; by apply list_elem_of_In).
    pose proof (tagged_above _ _ _ _ Ht Hcg). rewrite He, H0 in H by done. lia.
Qed.

(** ** The classes before the first pass *)

Section Initial.
  Context (I : icf_input) (hash : list Z -> Z).

(** Sections of the link have numbers, each once, and fewer than 2^31. *)
Record input_ok : Prop := {
  io_nodup : NoDup (allChunks I ++ mergeSections I);
  io_size : Z.of_nat (length (allChunks I ++ mergeSections I)) < 2 ^ 31 - 1
}.

Abbreviation elig := (fun c => isEligible I c = true).
Definition eligible_chunks : list nat := List.filter (isEligible I) (allChunks I).

(** Numbering, after [done] sections: those not eligible have distinct small
    numbers. *)
Record numbered (done : list nat) (P : nat -> Prop) (s : icf_state * Z) : Prop := {
  nu_next : s.2 <= 1 + Z.of_nat (length done) /\ 1 <= s.2;
  nu_range c : c ∈ done -> P c -> 1 <= eqClass s.1 false c < s.2;
  nu_inj c c' : c ∈ done -> P c -> c' ∈ done -> P c' ->
    eqClass s.1 false c = eqClass s.1 false c' -> c = c'
}.

Lemma numbered_step done (P : nat -> Prop) s c :
  numbered done P s -> c ∉ done -> P c -> Z.of_nat (length done) < 2 ^ 31 - 1 ->
  numbered (done ++ [c]) P (set_class false c s.2 s.1, u32 (s.2 + 1)).
Proof.
  intros [[N1 N1'] N2 N3] Hc HP Hl.
  assert (Hu : u32 (s.2 + 1) = s.2 + 1) by (apply wrap_small; unfold word_ok; lia).
  split; simpl; rewrite ?Hu.
  - rewrite length_app. simpl. lia.
  - intros c0 Hc0 HP0. destruct (Nat.eqb_spec c0 c) as [->|Hne]; [lia|].
    apply elem_of_app in Hc0 as [Hc0|Hc0%list_elem_of_singleton]; [|done].
    specialize (N2 c0 Hc0 HP0). lia.
  - intros c1 c2 H1 P1 H2 P2. apply elem_of_app in H1, H2. rewrite !list_elem_of_singleton in *.
    destruct (Nat.eqb_spec c1 c) as [->|Hn1], (Nat.eqb_spec c2 c) as [->|Hn2]; [done| | |].
    + destruct H2 as [H2|]; [|done]. specialize (N2 c2 H2 P2). lia.
    + destruct H1 as [H1|]; [|done]. specialize (N2 c1 H1 P1). lia.
    + destruct H1 as [H1|], H2 as [H2|]; try done. by apply N3.
Qed.

Lemma numbered_skip done (P : nat -> Prop) s c st' :
  numbered done P s -> ~ P c -> eqClass st' = eqClass s.1 ->
  numbered (done ++ [c]) P (st', s.2).
Proof.
  intros [[N1 N1'] N2 N3] HP He. split; simpl; rewrite ?He.
  - rewrite length_app. simpl. lia.
  - intros c0 Hc0 HP0. apply N2; [|done]. apply elem_of_app in Hc0 as [|Hc0%list_elem_of_singleton]; [done|].
    by subst.
  - intros c1 c2 H1 P1 H2 P2. apply elem_of_app in H1, H2. rewrite !list_elem_of_singleton in *.
    destruct H1 as [H1| ->], H2 as [H2| ->]; try done. by apply N3.
Qed.

Definition kept_apart (c : nat) : Prop := ~ (c ∈ allChunks I /\ isEligible I c = true).

Lemma collect_numbered : input_ok ->
  numbered (allChunks I) kept_apart (collect I) /\ chunks (collect I).1 = eligible_chunks /\
  cnt (collect I).1 = O /\ repeat_ (collect I).1 = false /\ merged (collect I).1 = [].
Proof.
  intros [Hnd Hsz]. unfold collect, eligible_chunks. rewrite length_app in Hsz.
  apply NoDup_app in Hnd as (Hnd & _ & _).
  assert (Hgen : forall l done s, done ++ l = allChunks I ->
    numbered done kept_apart s -> chunks s.1 = List.filter (isEligible I) done ->
    cnt s.1 = O -> repeat_ s.1 = false -> merged s.1 = [] ->
    let s' := fold_left (fun '(st, nextId) sc =>
      if isEligible I sc then (set_chunks (chunks st ++ [sc]) st, nextId)
      else (set_class false sc nextId st, u32 (nextId + 1))) l s in
    numbered (allChunks I) kept_apart s' /\ chunks s'.1 = List.filter (isEligible I) (allChunks I) /\
    cnt s'.1 = O /\ repeat_ s'.1 = false /\ merged s'.1 = []).
  { induction l as [|c l IH]; intros done s Hl Hs Hch Hcnt Hrep Hmer.
    { rewrite app_nil_r in Hl. subst done. done. }
    cbn [fold_left]. destruct s as [st nextId]. simpl in *.
    assert (Hcd : c ∉ done).
    { rewrite <- Hl in Hnd. apply NoDup_app in Hnd as (_ & Hd & _). intros Hin. apply (Hd c Hin). left. }
    assert (Hlen : Z.of_nat (length done) < 2 ^ 31 - 1).
    { apply (f_equal length) in Hl. rewrite length_app in Hl. lia. }
    assert (Hl' : (done ++ [c]) ++ l = allChunks I) by by rewrite <- app_assoc.
    assert (Hin : c ∈ allChunks I) by (rewrite <- Hl; apply elem_of_app; right; left).
    destruct (isEligible I c) eqn:E.
    - apply (IH (done ++ [c])); [done| |simpl; rewrite Hch, List.filter_app; simpl; by rewrite E|done..].
      apply (numbered_skip done kept_apart (st, nextId)); [done|unfold kept_apart; tauto|done].
    - apply (IH (done ++ [c])); [done| |simpl; rewrite Hch, List.filter_app; simpl; by rewrite E, app_nil_r|done..].
      apply (numbered_step done kept_apart (st, nextId)); [done|done| |done].
      unfold kept_apart. rewrite E. intros [_ ?]. discriminate. }
  apply (Hgen (allChunks I) [] (no_class, 1)); try done.
  split; simpl; [lia|by intros c ?%elem_of_nil|by intros c c' ?%elem_of_nil].
Qed.

End Initial.

(** ** The state before the first pass *)

Lemma set_classes_fun st l sl (f : nat -> Z) :
  let st' := fold_left (fun st c => set_class sl c (f c) st) l st in
  chunks st' = chunks st /\ cnt st' = cnt st /\ merged st' = merged st /\ repeat_ st' = repeat_ st /\
  (forall sl' c, eqClass st' sl' c =
     if Bool.eqb sl' sl && bool_decide (c ∈ l) then f c else eqClass st sl' c).
Proof.
  revert st. induction l as [|x l IH]; intros st; cbn [fold_left].
  { do 4 (split; [done|]). intros sl' c. rewrite bool_decide_false by apply not_elem_of_nil.
    by rewrite andb_false_r. }
  destruct (IH (set_class sl x (f x) st)) as (H1 & H2 & H3 & H4 & H5).
  do 4 (split; [done|]). intros sl' c. cbv zeta in H5. rewrite H5. cbn [set_class eqClass].
  destruct (Bool.eqb sl' sl); [|done]. cbn [andb]. destruct (Nat.eqb_spec c x) as [->|Hne].
  - rewrite (bool_decide_true (x ∈ x :: l)) by left. by case_bool_decide.
  - do 2 case_bool_decide; set_solver.
Qed.

Section InitialState.
  Context (I : icf_input) (hash : list Z -> Z) (OK : input_ok I).

Lemma number_merged_spec :
  let st := number_merged I (collect I) in
  chunks st = eligible_chunks I /\ cnt st = O /\ merged st = [] /\
  exists next, next < 2 ^ 31 /\
    numbered (allChunks I ++ mergeSections I) (kept_apart I) (st, next).
Proof using OK.
  destruct (collect_numbered I OK) as (Hn & Hch & Hcnt & _ & Hmer). destruct OK as [Hnd Hsz].
  unfold number_merged.
  assert (Hgen : forall l done s, done ++ l = allChunks I ++ mergeSections I ->
    (forall c, c ∈ l -> c ∈ mergeSections I) ->
    numbered done (kept_apart I) s -> chunks s.1 = eligible_chunks I -> cnt s.1 = O -> merged s.1 = [] ->
    let s' := fold_left (fun '(st, nextId) sc => (set_class false sc nextId st, u32 (nextId + 1))) l s in
    chunks s'.1 = eligible_chunks I /\ cnt s'.1 = O /\ merged s'.1 = [] /\
    numbered (allChunks I ++ mergeSections I) (kept_apart I) s').
  { induction l as [|c l IH]; intros done s Hl Hm Hs H1 H2 H3.
    { rewrite app_nil_r in Hl. subst done. done. }
    cbn [fold_left]. destruct s as [st nextId]. simpl in *.
    apply (IH (done ++ [c])); try done.
    - by rewrite <- app_assoc.
    - intros c' Hc'. apply Hm. by right.
    - apply (numbered_step done (kept_apart I) (st, nextId)); [done| | |].
      + rewrite <- Hl in Hnd. apply NoDup_app in Hnd as (_ & Hd & _). intros Hin. apply (Hd c Hin). left.
      + intros [Hin _]. apply NoDup_app in Hnd as (_ & Hd & _). apply (Hd c Hin). apply Hm. left.
      + apply (f_equal length) in Hl. rewrite !length_app in Hl. rewrite length_app in Hsz. simpl in Hl. lia. }
  destruct (Hgen (mergeSections I) (allChunks I) (collect I)) as (H1 & H2 & H3 & H4); try done.
  split; [done|]. split; [done|]. split; [done|].
  exists ((fold_left (fun '(st, nextId) sc => (set_class false sc nextId st, u32 (nextId + 1)))
    (mergeSections I) (collect I)).2). split; [|by destruct (fold_left _ _ _)].
  destruct H4 as [[N _] _ _]. lia.
Qed.

Lemma lor_msb h : 0 <= h -> 2 ^ 31 <= h ||| (1 <<< 31).
Proof.
  intros Hh. destruct (Z.le_gt_cases (2 ^ 31) (h ||| (1 <<< 31))) as [|Hlt]; [done|]. exfalso.
  assert (H0 : 0 <= h ||| (1 <<< 31)) by (apply Z.lor_nonneg; split; [done|by vm_compute]).
  assert (Hb : Z.testbit (h ||| (1 <<< 31)) 31 = true).
  { rewrite Z.lor_spec. change (Z.testbit (1 <<< 31) 31) with true. apply orb_true_r. }
  rewrite (testbit_high 31) in Hb by (unfold word_ok; lia). done.
Qed.

Lemma combine_spec k st :
  (forall c, c ∈ chunks st -> 0 <= eqClass st (slot k) c) ->
  let st' := combine_hash I k st in
  chunks st' = chunks st /\ cnt st' = cnt st /\ merged st' = merged st /\
  (forall c, c ∈ chunks st -> 2 ^ 31 <= eqClass st' (slot (k + 1)) c) /\
  (forall sl c, c ∉ chunks st \/ sl = slot k -> eqClass st' sl c = eqClass st sl c).
Proof.
  intros H0 st'.
  set (f := fun sc => fold_left (fun h r =>
      match r_symbol r ≫= regular I with
      | Some (_, c) => u32 (h + eqClass st (slot k) c)
      | None => h
      end) (sectionRelocs (sec I sc)) (eqClass st (slot k) sc) ||| (1 <<< 31)).
  assert (E : st' = fold_left (fun st c => set_class (slot (k + 1)) c (f c) st) (chunks st) st) by done.
  rewrite E. clear E st'.
  destruct (set_classes_fun st (chunks st) (slot (k + 1)) f) as (H1 & H2 & H3 & _ & H5).
  split; [exact H1|]. split; [exact H2|]. split; [exact H3|]. split.
  - intros c Hc. rewrite (H5 (slot (k + 1)) c). rewrite Bool.eqb_reflx, bool_decide_true by done. simpl.
    apply lor_msb. generalize (sectionRelocs (sec I c)). specialize (H0 c Hc). revert H0.
    generalize (eqClass st (slot k) c). intros h Hh l. revert h Hh.
    induction l as [|r l IH]; intros h Hh; [done|]. apply IH.
    destruct (r_symbol r ≫= regular I) as [[v c']|]; [|done]. apply wrap_ok. lia.
  - intros sl c Hc. rewrite (H5 sl c). destruct Hc as [Hc| ->].
    + rewrite bool_decide_false by done. by rewrite andb_false_r.
    + rewrite slot_other. by destruct (slot k).
Qed.

(** The slot the first pass reads. *)
Definition ec0 : nat -> Z := eqClass (initial I hash) false.

Lemma initial_spec :
  let st := initial I hash in
  chunks st ≡ₚ eligible_chunks I /\ cnt st = O /\ merged st = [] /\
  (forall c, c ∈ eligible_chunks I -> 2 ^ 31 <= ec0 c) /\
  (forall c, c ∈ allChunks I ++ mergeSections I -> kept_apart I c -> ec0 c < 2 ^ 31) /\
  (forall c c', c ∈ allChunks I ++ mergeSections I -> kept_apart I c ->
     c' ∈ allChunks I ++ mergeSections I -> kept_apart I c' -> ec0 c = ec0 c' -> c = c').
Proof using OK.
  destruct number_merged_spec as (C1 & C2 & C3 & next & Hnext & N).
  unfold ec0, initial. set (st0 := number_merged I (collect I)) in *.
  set (st1 := hash_contents I hash st0).
  destruct (set_classes_fun st0 (chunks st0) false (fun sc => u32 (hash (sectionContents (sec I sc)))))
    as (D1 & D2 & D3 & _ & D5). fold (hash_contents I hash st0) in *. fold st1 in D1, D2, D3, D5.
  assert (P1 : forall c, c ∈ chunks st1 -> 0 <= eqClass st1 (slot 0) c).
  { intros c Hc. rewrite D1 in Hc. rewrite (D5 (slot 0) c). rewrite bool_decide_true by done. simpl.
    apply wrap_ok. lia. }
  destruct (combine_spec 0 st1 P1) as (E1 & E2 & E3 & E4 & E5).
  set (st2 := combine_hash I 0 st1) in *.
  assert (P2 : forall c, c ∈ chunks st2 -> 0 <= eqClass st2 (slot 1) c).
  { intros c Hc. rewrite E1 in Hc. specialize (E4 c Hc). simpl in E4. lia. }
  destruct (combine_spec 1 st2 P2) as (F1 & F2 & F3 & F4 & F5).
  set (st3 := combine_hash I 1 st2) in *.
  assert (Hch : chunks st3 = eligible_chunks I) by by rewrite F1, E1, D1, C1.
  assert (Hkeep : forall c, c ∉ eligible_chunks I -> eqClass st3 false c = eqClass st0 false c).
  { intros c Hc. rewrite F5 by (left; by rewrite E1, D1, C1).
    rewrite E5 by by right. rewrite (D5 false c). by rewrite C1, bool_decide_false. }
  assert (Hapart : forall c, kept_apart I c -> c ∉ eligible_chunks I).
  { intros c Hk Hc. apply Hk. unfold eligible_chunks in Hc. apply list_elem_of_In, filter_In in Hc as [Hc He].
    split; [by apply list_elem_of_In|done]. }
  cbn [sort_chunks chunks cnt merged eqClass set_chunks].
  split; [rewrite stable_sort_perm; by rewrite Hch|].
  split; [by rewrite F2, E2, D2|]. split; [by rewrite F3, E3, D3|]. destruct N as [_ N2 N3]. simpl in N2, N3.
  split; [intros c Hc; apply (F4 c); by rewrite E1, D1, C1|]. split.
  - intros c Hc Hk. rewrite Hkeep by by apply Hapart. specialize (N2 c Hc Hk). lia.
  - intros c c' Hc Hk Hc' Hk'. rewrite !Hkeep by by apply Hapart. by apply N3.
Qed.

End InitialState.

Lemma runs_exist (ec : nat -> Z) l : exists gs, concat gs = l /\ runs ec gs.
Proof.
  induction l as [|c l (gs & Hc & Hr)]; [by exists []|].
  destruct gs as [|g gs].
  { exists [[c]]. simpl in *. split; [by rewrite <- Hc|]. split; [done|]. split; [|done].
    intros x y Hx%list_elem_of_singleton Hy%list_elem_of_singleton. by subst. }
  pose proof Hr as (Hg & Hsame & Hn & Hr'). destruct g as [|d g]; [done|].
  destruct (decide (ec c = ec d)) as [E|E].
  - exists ((c :: d :: g) :: gs). simpl in *. split; [by rewrite <- Hc|]. split; [done|].
    assert (Hall : forall x, x ∈ c :: d :: g -> ec x = ec d).
    { intros x Hx. apply elem_of_cons in Hx as [->|Hx]; [done|]. apply Hsame; [done|left]. }
    split; [intros x y Hx Hy; by rewrite (Hall x Hx), (Hall y Hy)|]. split; [|done].
    destruct gs as [|g' gs]; [done|]. intros x y Hx Hy. rewrite (Hall x Hx). apply Hn; [left|done].
  - exists ([c] :: (d :: g) :: gs). simpl in *. split; [by rewrite <- Hc|]. split; [done|].
    split; [intros x y Hx%list_elem_of_singleton Hy%list_elem_of_singleton; by subst|].
    split; [|done]. intros x y Hx%list_elem_of_singleton Hy. subst x.
    by rewrite (Hsame y d Hy) by left.
Qed.

(** ** The loop *)

Section Converge.
  Context (I : icf_input) (hash : list Z -> Z) (OK : input_ok I).
Abbreviation E0 := (ec0 I hash).

(** The chunks lie in groups of equal constant part, numbered by the slot that
    is read next. *)
Record good (st : icf_state) (gs : list (list nat)) : Prop := {
  gd_chunks : chunks st = concat gs;
  gd_nodup : NoDup (chunks st);
  gd_nonempty : Forall (fun g => g <> []) gs;
  gd_tagged : tagged 0 gs (read_class st);
  gd_elig : concat gs ≡ₚ eligible_chunks I;
  gd_const g a b : g ∈ gs -> a ∈ g -> b ∈ g -> const_key I E0 a = const_key I E0 b;
  gd_merged : merged st = []
}.

Lemma flat_split_nonempty eqf gs : Forall (fun g => g <> []) (flat_map (split_group eqf) gs).
Proof.
  apply Forall_forall. intros h Hh. apply list_elem_of_In, in_flat_map in Hh as (g & _ & Hh).
  apply seg_groups_leader in Hh as (x & rest & -> & _). done.
Qed.

Lemma flat_split_perm eqf gs : concat (flat_map (split_group eqf) gs) ≡ₚ concat gs.
Proof.
  induction gs as [|g gs IH]; [done|]. simpl. rewrite concat_app.
  apply Permutation_app; [apply split_group_perm|done].
Qed.

(** A group of the result, and the group it was part of. *)
Lemma flat_split_member eqf gs h :
  h ∈ flat_map (split_group eqf) gs -> exists g x rest, g ∈ gs /\ h = x :: rest /\
    (forall c, c ∈ h -> c ∈ g) /\ Forall (fun s => eqf x s = true) rest.
Proof.
  intros Hh. apply list_elem_of_In, in_flat_map in Hh as (g & Hg & Hh).
  pose proof Hh as Hh'. apply seg_groups_leader in Hh' as (x & rest & Hx & Hr).
  exists g, x, rest. split; [by apply list_elem_of_In|]. split; [done|]. split; [|done].
  intros c Hc. rewrite <- (split_group_perm eqf g). apply list_elem_of_In, in_concat.
  exists h. split; [done|by apply list_elem_of_In].
Qed.

Lemma constant_pass_good : exists gs, good (split_pass I true (initial I hash)) gs.
Proof using OK.
  destruct (initial_spec I hash OK) as (Hch & Hcnt & Hmer & _).
  set (st := initial I hash) in *.
  destruct (runs_exist (read_class st) (chunks st)) as (gs & Hc & Hr).
  assert (Hnd : NoDup (chunks st)).
  { rewrite Hch. unfold eligible_chunks. destruct OK as [Hnd _]. apply NoDup_app in Hnd as (Hnd & _).
    by apply NoDup_ListNoDup, List.NoDup_filter, NoDup_ListNoDup. }
  destruct (split_pass_spec I true st gs Hr (eq_sym Hc) Hnd) as (P1 & P2 & P3 & P4 & P5 & P6 & P7 & _).
  eexists. split; [exact P1|exact P2|apply flat_split_nonempty|exact P7| | |by rewrite P4].
  - by rewrite flat_split_perm, Hc.
  - assert (Hec : read_class st = E0) by (unfold read_class, ec0; by rewrite Hcnt).
    intros h a b Hh Ha Hb. apply flat_split_member in Hh as (g & x & rest & _ & -> & _ & Hl).
    assert (Hall : forall c, c ∈ x :: rest -> const_key I E0 x = const_key I E0 c).
    { intros c Hcx. apply elem_of_cons in Hcx as [->|Hcx]; [done|].
      rewrite Forall_forall in Hl. specialize (Hl c Hcx). rewrite Hec in Hl.
      by apply equalsConstant_key. }
    by rewrite <- (Hall a Ha), <- (Hall b Hb).
Qed.

(** A pass over targets: finer groups, or no change and equal targets. *)
Lemma variable_pass_good st gs :
  good st gs ->
  let st' := split_pass I false (set_repeat false st) in
  exists gs', good st' gs' /\
  (repeat_ st' = true -> (length gs < length gs')%nat) /\
  (repeat_ st' = false -> gs' = gs /\ exists ec, tagged 0 gs ec /\
     forall g a b, g ∈ gs -> a ∈ g -> b ∈ g -> var_key I ec a = var_key I ec b).
Proof.
  intros [G1 G2 G3 G4 G5 G6 G7] st'.
  pose proof (tagged_runs 0 gs _ G3 G4) as Hr.
  set (st0 := set_repeat false st) in *. change (read_class st) with (read_class st0) in *.
  destruct (split_pass_spec I false st0 gs Hr G1 G2) as (P1 & P2 & P3 & P4 & P5 & P6 & P7 & P8).
  set (eqf := pass_eq I false (read_class st0)) in *.
  exists (flat_map (split_group eqf) gs). split; [split|split].
  - exact P1.
  - exact P2.
  - apply flat_split_nonempty.
  - exact P7.
  - by rewrite flat_split_perm.
  - intros h a b Hh Ha Hb. apply flat_split_member in Hh as (g & x & rest & Hg & _ & Hsub & _).
    apply (G6 g); auto.
  - etrans; [exact P4|exact G7].
  - intros Hrep. change (repeat_ st') with (repeat_ (split_pass I false st0)) in Hrep.
    rewrite P8 in Hrep. simpl in Hrep. clear -Hrep G3.
    assert (Hle : forall gs, Forall (fun g => g <> []) gs ->
      (length gs <= length (flat_map (split_group eqf) gs))%nat).
    { induction 1 as [|g gs' Hg _ IH]; [done|]. simpl. rewrite length_app.
      pose proof (split_group_pos eqf g Hg). lia. }
    induction G3 as [|g gs Hg Hgs IH]; [done|]. cbn [existsb flat_map length] in *. rewrite length_app.
    pose proof (split_group_pos eqf g Hg). specialize (Hle gs Hgs).
    apply orb_true_iff in Hrep as [Hrep|Hrep]; [apply Nat.ltb_lt in Hrep; lia|].
    specialize (IH Hrep). lia.
  - intros Hrep. change (repeat_ st') with (repeat_ (split_pass I false st0)) in Hrep.
    rewrite P8 in Hrep. simpl in Hrep.
    assert (Hone : forall g, g ∈ gs -> split_group eqf g = [g]).
    { intros g Hg. apply split_group_one. rewrite Forall_forall in G3.
      pose proof (split_group_pos eqf g (G3 g Hg)).
      assert (Hlt : (1 <? length (split_group eqf g))%nat = false).
      { destruct (1 <? length (split_group eqf g))%nat eqn:E; [|done]. exfalso.
        rewrite <- not_true_iff_false in Hrep. apply Hrep, existsb_exists.
        exists g. split; [by apply list_elem_of_In|done]. }
      apply Nat.ltb_ge in Hlt. lia. }
    split.
    { clear -Hone. induction gs as [|g gs IH]; [done|]. simpl. rewrite Hone by left. simpl. f_equal.
      apply IH. intros g' Hg'. apply Hone. by right. }
    exists (read_class st0). split; [done|]. intros g a b Hg Ha Hb.
    assert (Hin : In g (split_group eqf g)) by (rewrite (Hone g Hg); by left).
    apply seg_groups_leader in Hin as (x & rest & Hx & Hl).
    assert (Hall : forall c, c ∈ g -> var_key I (read_class st0) x = var_key I (read_class st0) c).
    { intros c Hc. assert (Hxg : x ∈ g) by (rewrite Hx; left).
      pose proof (G6 g x c Hg Hxg Hc) as Hk. rewrite Hx in Hc.
      apply elem_of_cons in Hc as [->|Hc]; [done|]. rewrite Forall_forall in Hl. specialize (Hl c Hc).
      apply equalsVariable_key; [|exact Hl]. injection Hk as _ _ _ _ _ _ Hk _.
      apply (f_equal length) in Hk. by rewrite !length_map in Hk. }
    by rewrite <- (Hall a Ha), <- (Hall b Hb).
Qed.

Lemma groups_le gs : Forall (fun g : list nat => g <> []) gs -> (length gs <= length (concat gs))%nat.
Proof.
  induction 1 as [|g gs Hg _ IH]; [done|]. simpl. rewrite length_app. destruct g; [done|]. simpl. lia.
Qed.

(** The loop ends, with groups whose members agree on their targets. *)
Lemma converge_spec fuel : forall st gs,
  good st gs -> (length (chunks st) < fuel + length gs)%nat ->
  exists st' gs' ec, converge I fuel st = Some st' /\ good st' gs' /\ tagged 0 gs' ec /\
    forall g a b, g ∈ gs' -> a ∈ g -> b ∈ g -> var_key I ec a = var_key I ec b.
Proof.
  induction fuel as [|fuel IH]; intros st gs HG Hf.
  { pose proof (groups_le gs (gd_nonempty _ _ HG)). rewrite (gd_chunks _ _ HG) in Hf. lia. }
  cbn [converge]. cbv zeta. destruct (variable_pass_good st gs HG) as (gs' & HG' & Hyes & Hno).
  set (st' := split_pass I false (set_repeat false st)) in *.
  destruct (repeat_ st') eqn:E.
  - apply (IH st' gs' HG').
    assert (Hl : length (chunks st') = length (chunks st)).
    { rewrite (gd_chunks _ _ HG), (gd_chunks _ _ HG').
      apply Permutation_length. by rewrite (gd_elig _ _ HG), (gd_elig _ _ HG'). }
    specialize (Hyes eq_refl). lia.
  - destruct (Hno eq_refl) as [-> (ec & Ht & Hv)]. by exists st', gs, ec.
Qed.

End Converge.

(** ** Folding *)

Lemma merge_local : fn_local merge_class.
Proof.
  intros b e st _ Hnd. unfold merge_class. by destruct (e - b =? 1)%nat.
Qed.

Definition group_pairs (g : list nat) : list (nat * nat) :=
  match g with [] => [] | x :: rest => map (fun c => (x, c)) rest end.

Lemma fold_merge gs : forall st pre post,
  chunks st = pre ++ concat gs ++ post -> Forall (fun g => g <> []) gs ->
  let st' := fold_groups merge_class (length pre) gs st in
  chunks st' = chunks st /\ merged st' = merged st ++ flat_map group_pairs gs.
Proof.
  induction gs as [|g gs IH]; intros st pre post Hc Hne st'.
  { by rewrite app_nil_r. }
  apply Forall_cons in Hne as [Hg Hne]. destruct g as [|x g]; [done|]. cbn [concat] in Hc.
  unfold st'. cbn [fold_groups].
  set (st1 := merge_class (length pre) (length pre + length (x :: g)) st).
  assert (H1 : chunks st1 = chunks st /\ merged st1 = merged st ++ map (fun c => (x, c)) g).
  { unfold st1, merge_class. replace (length pre + length (x :: g) - length pre)%nat with (S (length g)) by (simpl; lia).
    destruct (Nat.eqb_spec (S (length g)) 1) as [E|E].
    { split; [done|]. destruct g; [|simpl in E; lia]. by rewrite app_nil_r. }
    split; [done|]. cbn [merged]. f_equal.
    rewrite Hc, <- app_assoc, app_nth2, Nat.sub_diag by lia. cbn [nth app].
    replace (length pre + length (x :: g) - S (length pre))%nat with (length g) by (simpl; lia).
    replace (S (length pre)) with (length (pre ++ [x])) by (rewrite length_app; simpl; lia).
    replace (pre ++ x :: g ++ concat gs ++ post) with ((pre ++ [x]) ++ g ++ (concat gs ++ post)) by by rewrite <- app_assoc.
    by rewrite drop_app_length, take_app_length. }
  destruct H1 as [H1 H2].
  destruct (IH st1 (pre ++ x :: g) post) as [I1 I2]; [by rewrite H1, Hc, <- !app_assoc|done|].
  rewrite length_app in I1, I2. rewrite I1, I2, H1, H2. split; [done|].
  by rewrite <- app_assoc.
Qed.

(** ** What folding means *)

(** Two sections that the pairs identify. *)
Definition same_fold (m : list (nat * nat)) (a b : nat) : Prop :=
  a = b \/ (a, b) ∈ m \/ (b, a) ∈ m \/ exists k, (k, a) ∈ m /\ (k, b) ∈ m.

(** The same symbol, or regular symbols at the same offset of sections that are
    the same after folding. *)
Definition target_same (I : icf_input) (same : nat -> nat -> Prop) (b1 b2 : option nat) : Prop :=
  b1 = b2 \/ exists d1 d2, b1 ≫= regular I = Some d1 /\ b2 ≫= regular I = Some d2 /\
    d1.1 = d2.1 /\ same d1.2 d2.2.

Definition entry_same (I : icf_input) (same : nat -> nat -> Prop) (e1 e2 : option nat) : Prop :=
  e1 = e2 \/ exists s1 s2 d1 d2, e1 = Some s1 /\ e2 = Some s2 /\
    regular I s1 = Some d1 /\ regular I s2 = Some d2 /\ same d1.2 d2.2.

Record foldable (I : icf_input) (same : nat -> nat -> Prop) (a b : nat) : Prop := {
  fd_data : data_key I a = data_key I b;
  fd_relocs : Forall2 (fun r1 r2 => r_Type r1 = r_Type r2 /\ r_VirtualAddress r1 = r_VirtualAddress r2 /\
    target_same I same (r_symbol r1) (r_symbol r2)) (sectionRelocs (sec I a)) (sectionRelocs (sec I b));
  fd_children : Forall2 same (List.filter (considerForICF I) (children (sec I a)))
    (List.filter (considerForICF I) (children (sec I b)));
  fd_entry : entry_same I same (getEntryThunk (sec I a)) (getEntryThunk (sec I b))
}.

(** Everything compared has a class of its own or takes part: relocation
    targets and associated sections are sections of the link, entry thunks are
    in sections that take part. *)
Record targets_known (I : icf_input) : Prop := {
  tk_reloc c r d : c ∈ eligible_chunks I -> r ∈ sectionRelocs (sec I c) ->
    r_symbol r ≫= regular I = Some d -> d.2 ∈ allChunks I ++ mergeSections I;
  tk_child c c' : c ∈ eligible_chunks I -> c' ∈ children (sec I c) -> considerForICF I c' = true ->
    c' ∈ allChunks I ++ mergeSections I;
  tk_entry c e d : c ∈ eligible_chunks I -> getEntryThunk (sec I c) = Some e ->
    regular I e = Some d -> d.2 ∈ eligible_chunks I
}.

Section Sound.
  Context (I : icf_input) (hash : list Z -> Z) (OK : input_ok I) (TK : targets_known I).
  Context (gs : list (list nat)) (ec : nat -> Z).
  Hypothesis Hperm : concat gs ≡ₚ eligible_chunks I.
  Hypothesis Htag : tagged 0 gs ec.
  Hypothesis Hconst : forall g a b, g ∈ gs -> a ∈ g -> b ∈ g ->
    const_key I (ec0 I hash) a = const_key I (ec0 I hash) b.
  Hypothesis Hvar : forall g a b, g ∈ gs -> a ∈ g -> b ∈ g -> var_key I ec a = var_key I ec b.
Abbreviation pairs := (flat_map group_pairs gs).

Lemma in_group g c : g ∈ gs -> c ∈ g -> c ∈ eligible_chunks I.
Proof using Hperm.
  intros Hg Hc. rewrite <- Hperm. apply list_elem_of_In, in_concat.
  exists g. split; by apply list_elem_of_In.
Qed.

Lemma group_of c : c ∈ eligible_chunks I -> exists g, g ∈ gs /\ c ∈ g.
Proof using Hperm.
  rewrite <- Hperm. intros Hc. apply list_elem_of_In, in_concat in Hc as (g & Hg & Hc).
  exists g. split; by apply list_elem_of_In.
Qed.

Lemma same_group_fold g a b : g ∈ gs -> a ∈ g -> b ∈ g -> same_fold pairs a b.
Proof.
  intros Hg Ha Hb. destruct g as [|x rest]; [by apply elem_of_nil in Ha|].
  assert (Hp : forall c, c ∈ rest -> (x, c) ∈ pairs).
  { intros c Hc. apply list_elem_of_In, in_flat_map. exists (x :: rest).
    split; [by apply list_elem_of_In|]. simpl. apply in_map_iff. exists c. split; [done|by apply list_elem_of_In]. }
  unfold same_fold. apply elem_of_cons in Ha as [->|Ha], Hb as [->|Hb]; [by left| | |].
  - right. left. by apply Hp.
  - right. right. left. by apply Hp.
  - right. right. right. exists x. split; by apply Hp.
Qed.

(** Equal classes before and in the last pass. *)
Lemma classes_same c1 c2 :
  c1 ∈ allChunks I ++ mergeSections I -> c2 ∈ allChunks I ++ mergeSections I ->
  ec0 I hash c1 = ec0 I hash c2 -> ec c1 = ec c2 -> same_fold pairs c1 c2.
Proof using OK Hperm Htag.
  intros K1 K2 H0 H1. destruct (initial_spec I hash OK) as (_ & _ & _ & Hbig & Hsmall & Hinj).
  assert (Hdec : forall c, c ∈ eligible_chunks I \/ kept_apart I c).
  { intros c. unfold kept_apart, eligible_chunks. rewrite list_elem_of_In, filter_In, <- list_elem_of_In.
    destruct (decide (c ∈ allChunks I)), (isEligible I c); naive_solver. }
  destruct (Hdec c1) as [P1|P1], (Hdec c2) as [P2|P2].
  - destruct (group_of c1 P1) as (g & Hg & Hc1). apply (same_group_fold g); [done|done|].
    eapply tagged_same; [exact Htag|exact Hg|exact Hc1|by rewrite Hperm|done].
  - specialize (Hbig c1 P1). specialize (Hsmall c2 K2 P2). lia.
  - specialize (Hbig c2 P2). specialize (Hsmall c1 K1 P1). lia.
  - left. by apply Hinj.
Qed.

Lemma key_target c1 c2 r1 r2 :
  c1 ∈ eligible_chunks I -> c2 ∈ eligible_chunks I ->
  r1 ∈ sectionRelocs (sec I c1) -> r2 ∈ sectionRelocs (sec I c2) ->
  sym_key I (fun d => (d.1, ec0 I hash d.2)) (r_symbol r1) = sym_key I (fun d => (d.1, ec0 I hash d.2)) (r_symbol r2) ->
  sym_key I (fun d => ec d.2) (r_symbol r1) = sym_key I (fun d => ec d.2) (r_symbol r2) ->
  target_same I (same_fold pairs) (r_symbol r1) (r_symbol r2).
Proof using OK TK Hperm Htag.
  intros P1 P2 R1 R2 H0 H1. unfold sym_key in *.
  destruct (r_symbol r1 ≫= regular I) as [d1|] eqn:D1, (r_symbol r2 ≫= regular I) as [d2|] eqn:D2;
    try discriminate.
  - right. exists d1, d2. injection H0 as H0v H0c. injection H1 as H1c.
    do 3 (split; [done|]). apply classes_same; [| |done|done].
    + by eapply (tk_reloc _ TK c1 r1).
    + by eapply (tk_reloc _ TK c2 r2).
  - left. by injection H0.
Qed.

Lemma key_entry c1 c2 :
  c1 ∈ eligible_chunks I -> c2 ∈ eligible_chunks I ->
  sym_key I (fun d => ec d.2) <$> (Some <$> getEntryThunk (sec I c1)) =
  sym_key I (fun d => ec d.2) <$> (Some <$> getEntryThunk (sec I c2)) ->
  entry_same I (same_fold pairs) (getEntryThunk (sec I c1)) (getEntryThunk (sec I c2)).
Proof using TK Hperm Htag.
  intros P1 P2 H. destruct (getEntryThunk (sec I c1)) as [e1|] eqn:E1, (getEntryThunk (sec I c2)) as [e2|] eqn:E2;
    try discriminate; [|by left].
  simpl in H. injection H as H. unfold sym_key in H. simpl in H.
  destruct (regular I e1) as [d1|] eqn:D1, (regular I e2) as [d2|] eqn:D2; try discriminate.
  - right. exists e1, e2, d1, d2. do 4 (split; [done|]).
    pose proof (tk_entry _ TK c1 e1 d1 P1 E1 D1) as K1. pose proof (tk_entry _ TK c2 e2 d2 P2 E2 D2) as K2.
    injection H as H. destruct (group_of _ K1) as (g & Hg & Hc1). apply (same_group_fold g); [done|done|].
    eapply tagged_same; [exact Htag|exact Hg|exact Hc1|by rewrite Hperm|done].
  - left. by injection H as ->.
Qed.

Lemma map_eq_lookup {A B C} (f : A -> B) (f' : A -> C) l1 l2 :
  map f l1 = map f l2 -> map f' l1 = map f' l2 ->
  Forall2 (fun x y => x ∈ l1 /\ y ∈ l2 /\ f x = f y /\ f' x = f' y) l1 l2.
Proof.
  revert l2. induction l1 as [|x l1 IH]; intros [|y l2]; simpl; try discriminate; [constructor|].
  intros [= E1 E2] [= E3 E4]. constructor; [repeat split; try done; left|].
  eapply Forall2_impl; [by apply IH|]. intros a b (Ha & Hb & ?). split; [by right|]. split; [by right|done].
Qed.

Lemma group_foldable g a b : g ∈ gs -> a ∈ g -> b ∈ g -> foldable I (same_fold pairs) a b.
Proof using OK TK Hperm Htag Hconst Hvar.
  intros Hg Ha Hb. pose proof (in_group g a Hg Ha) as Pa. pose proof (in_group g b Hg Hb) as Pb.
  pose proof (Hconst g a b Hg Ha Hb) as Hc. pose proof (Hvar g a b Hg Ha Hb) as Hv.
  unfold const_key in Hc. unfold var_key in Hv. apply pair_eq in Hc as [Hc Hca].
  apply pair_eq in Hc as [Hcd Hcr]. apply pair_eq in Hv as [Hv Hva]. apply pair_eq in Hv as [Hve Hvr].
  split; [done| | |by apply key_entry].
  - eapply Forall2_impl; [apply (map_eq_lookup _ _ _ _ Hcr Hvr)|]. intros r1 r2 (R1 & R2 & K & V).
    unfold reloc_key in K. apply pair_eq in K as [K K3]. apply pair_eq in K as [K1 K2].
    split; [done|]. split; [done|]. by eapply (key_target a b).
  - eapply Forall2_impl; [apply (map_eq_lookup _ _ _ _ Hca Hva)|]. intros c1 c2 (R1 & R2 & K & V).
    apply list_elem_of_In, filter_In in R1 as [R1 C1]. apply list_elem_of_In, filter_In in R2 as [R2 C2].
    apply classes_same; [by apply (tk_child _ TK a); [|apply list_elem_of_In|]
      |by apply (tk_child _ TK b); [|apply list_elem_of_In|]|done|done].
Qed.

End Sound.

(** The first section of a group is in no group's tail. *)
Lemma leader_not_member gs (x : nat) rest y rest' :
  NoDup (concat gs) -> (x :: rest) ∈ gs -> (y :: rest') ∈ gs -> x ∉ rest'.
Proof.
  induction gs as [|g gs IH]; intros Hnd H1 H2 Hx; [by apply elem_of_nil in H1|]. simpl in Hnd.
  apply NoDup_app in Hnd as (N1 & N2 & N3).
  assert (Hcat : forall h c, h ∈ gs -> c ∈ h -> c ∈ concat gs).
  { intros h c Hh Hc. apply list_elem_of_In, in_concat. exists h. split; by apply list_elem_of_In. }
  apply elem_of_cons in H1 as [<-|H1], H2 as [E|H2].
  - injection E as -> ->. by apply NoDup_cons in N1 as [N1 _].
  - apply (N2 x); [left|]. eapply Hcat; [exact H2|by right].
  - subst g. apply (N2 x); [by right|]. eapply Hcat; [exact H1|left].
  - by apply IH.
Qed.

(** ** Properties *)

(** C3: [ICF::run] terminates, whatever the hash, and folds only sections that
    take part and that are interchangeable: equal attributes, name, contents
    and machine, and relocation by relocation the same type and place and the
    same symbol, or symbols at the same offset of sections folded into one;
    likewise for associated sections and entry thunks. A section is removed at
    most once and never kept and removed. *)
Theorem icf_run_sound I hash :
  input_ok I -> targets_known I ->
  exists st, run I hash = Some st /\ NoDup (map snd (merged st)) /\
  forall k r, (k, r) ∈ merged st ->
    k ∈ eligible_chunks I /\ r ∈ eligible_chunks I /\ (forall k', (k', k) ∉ merged st) /\
    foldable I (same_fold (merged st)) k r.
Proof.
  intros OK TK. destruct (constant_pass_good I hash OK) as (gs0 & G0).
  destruct (converge_spec I hash (S (length (chunks (split_pass I true (initial I hash))))) _ gs0 G0 ltac:(lia))
    as (st & gs & ec & Hst & [G1 G2 G3 G4 G5 G6 G7] & Ht & Hv).
  pose proof (tagged_runs 0 gs _ G3 G4) as Hr.
  set (st' := forEachClass merge_class st).
  assert (Hm : merged st' = flat_map group_pairs gs).
  { unfold st'. rewrite (forEachClass_groups merge_class merge_local st gs Hr G1 G2).
    destruct (fold_merge gs st [] []) as [_ M]; [by rewrite G1, app_nil_r|done|].
    simpl in *. by rewrite M, G7. }
  exists st'. split; [unfold run; cbv zeta; by rewrite Hst|]. rewrite Hm.
  rewrite G1 in G2.
  split.
  - clear -G2. induction gs as [|g gs IH]; [constructor|]. simpl in *. apply NoDup_app in G2 as (N1 & N2 & N3).
    rewrite map_app. apply NoDup_app. split; [|split; [|by apply IH]].
    + destruct g as [|x g]; [constructor|]. simpl. rewrite map_map. simpl. rewrite map_id.
      by apply NoDup_cons in N1 as [_ N1].
    + intros c Hc Hc'. apply (N2 c).
      * destruct g as [|x g]; [by apply elem_of_nil in Hc|]. simpl in Hc. rewrite map_map in Hc. simpl in Hc.
        rewrite map_id in Hc. by right.
      * clear -Hc'. apply list_elem_of_In, in_map_iff in Hc' as ([k c'] & <- & Hin).
        apply in_flat_map in Hin as (g & Hg & Hin). apply list_elem_of_In, in_concat. exists g. split; [done|].
        destruct g as [|x g]; [done|]. simpl in Hin. apply in_map_iff in Hin as (c & [= <- <-] & Hin). by right.
  - intros k r Hkr. apply list_elem_of_In, in_flat_map in Hkr as (g & Hg & Hin).
    destruct g as [|x rest]; [done|]. simpl in Hin. apply in_map_iff in Hin as (c & [= <- <-] & Hc).
    apply list_elem_of_In in Hg, Hc.
    assert (Hx : x ∈ x :: rest) by left. assert (Hcr : c ∈ x :: rest) by by right.
    split; [by eapply in_group|]. split; [by eapply in_group|]. split.
    + intros k' Hk'. apply list_elem_of_In, in_flat_map in Hk' as (g' & Hg' & Hin').
      destruct g' as [|y rest']; [done|]. simpl in Hin'. apply in_map_iff in Hin' as (c' & [= <- <-] & Hc').
      apply list_elem_of_In in Hg', Hc'.
      eapply (leader_not_member gs c' rest y rest'); [exact G2|exact Hg|exact Hg'|exact Hc'].
    + by eapply (group_foldable I hash OK TK gs ec G5 Ht G6 Hv (x :: rest)).
Qed.

(** Three COMDAT functions with the same bytes and one relocation each: 0 and 1
    call themselves, 2 calls section 3, which takes no part. *)
Definition sample_code (relocs : list icf_reloc) (entry : option nat) : icf_section :=
  {| outputCharacteristics := 0x60000020; isCOMDAT := true; isLive := true; sectionName := ".text$mn";
     rawSize := 2; checksum := 7; sectionContents := [0xe8; 0]; machine := 0x8664; leaderName := None;
     keepUnique := false; sectionRelocs := relocs; children := []; getEntryThunk := entry |}.
Definition sample_data : icf_section :=
  {| outputCharacteristics := 0x40000040; isCOMDAT := false; isLive := true; sectionName := ".rdata";
     rawSize := 0; checksum := 0; sectionContents := []; machine := 0x8664; leaderName := None;
     keepUnique := false; sectionRelocs := []; children := []; getEntryThunk := None |}.
Definition sample_icf : icf_input :=
  {| sec := fun c =>
       match c with
       | 0%nat | 1%nat | 2%nat =>
           sample_code [ {| r_Type := 4; r_VirtualAddress := 1; r_symbol := Some c |} ] None
       | _ => sample_data
       end;
     regular := fun s =>
       match s with 0%nat => Some (0, 0%nat) | 1%nat => Some (0, 1%nat) | 2%nat => Some (0, 3%nat) | _ => None end;
     allChunks := [0; 1; 2; 3]%nat; mergeSections := []; doICF_All := true; isI386 := false |}.

(** A section of the sample is one of its first few. *)
Ltac sample_cases H :=
  apply list_elem_of_In in H; vm_compute in H;
  repeat match type of H with _ \/ _ => destruct H as [H|H] end; try contradiction; subst.

Lemma icf_run_sound_witness :
  merged <$> run sample_icf (fun _ => 5) = Some [(0%nat, 1%nat)] /\
  exists st, run sample_icf (fun _ => 5) = Some st /\ NoDup (map snd (merged st)) /\
  forall k r, (k, r) ∈ merged st ->
    k ∈ eligible_chunks sample_icf /\ r ∈ eligible_chunks sample_icf /\ (forall k', (k', k) ∉ merged st) /\
    foldable sample_icf (same_fold (merged st)) k r.
Proof.
  split; [vm_compute; reflexivity|].
  apply (icf_run_sound sample_icf (fun _ => 5)).
  - split; [|by vm_compute]. apply (bool_decide_unpack _). by vm_compute.
  - split.
    + intros c r d Hc Hr Hd. sample_cases Hc; sample_cases Hr; vm_compute in Hd;
        injection Hd as <-; apply (bool_decide_unpack _); by vm_compute.
    + intros c c' Hc Hc'. sample_cases Hc; vm_compute in Hc'; by apply elem_of_nil in Hc'.
    + intros c e d Hc He. sample_cases Hc; discriminate He.
Defined.

(** Two functions that differ in their entry thunks only, the thunks in
    different sections that take no part in folding. *)
Definition entry_icf : icf_input :=
  {| sec := fun c =>
       match c with 0%nat => sample_code [] (Some 0%nat) | 1%nat => sample_code [] (Some 1%nat) | _ => sample_data end;
     regular := fun s => match s with 0%nat => Some (0, 2%nat) | 1%nat => Some (0, 3%nat) | _ => None end;
     allChunks := [0; 1; 2; 3]%nat; mergeSections := []; doICF_All := true; isI386 := false |}.

(** Entry thunks are compared by the class of their section, and the first
    pass that compares them reads slot 1, which is never set for a section that
    takes no part. So functions whose entry thunks are in different such
    sections are folded all the same: the hypothesis on entry thunks of the
    soundness theorem is needed. *)
Theorem icf_entry_thunk_folded :
  merged <$> run entry_icf (fun _ => 5) = Some [(0%nat, 1%nat)] /\
  ~ entry_same entry_icf (same_fold [(0%nat, 1%nat)])
      (getEntryThunk (sec entry_icf 0)) (getEntryThunk (sec entry_icf 1)).
Proof.
  split.
  - vm_compute. reflexivity.
  - intros [H|(s1 & s2 & d1 & d2 & [= <-] & [= <-] & [= <-] & [= <-] & H)]; [discriminate|].
    destruct H as [H|[H|[H|(k & H1 & H2)]]]; [discriminate|..].
    + by apply list_elem_of_singleton in H.
    + by apply list_elem_of_singleton in H.
    + by apply list_elem_of_singleton in H1.
Qed.
