(* ===== verification/Layout.v ===== *)
(** * Section layout (lld/COFF/Writer.cpp)

    From the chunks of the link to addresses: merging and ordering output
    sections, ordering chunks inside them, the ARM64EC code map, and
    [assignAddresses]. A chunk is known by a number and what the writer asks
    of it. *)

From S2P Require Import Prelude.

#[local] Open Scope string_scope.
#[local] Open Scope list_scope.
#[local] Open Scope Z_scope.

Definition IMAGE_SCN_CNT_CODE := 0x00000020.
Definition IMAGE_SCN_CNT_INITIALIZED_DATA := 0x00000040.
Definition IMAGE_SCN_CNT_UNINITIALIZED_DATA := 0x00000080.
Definition IMAGE_SCN_MEM_SHARED := 0x10000000.
Definition SCN_MEM_EXECUTE := 0x20000000.
Definition IMAGE_SCN_MEM_READ := 0x40000000.
Definition permMask := 0xFE000000.

(** ** Data *)

(** What the writer asks of a chunk; [c_range] is [getArm64ECRangeType]. *)
Record lchunk := {
  c_id : nat;
  c_align : Z;
  c_size : Z;
  c_hasData : bool;
  c_isSection : bool;
  c_hotPatchable : bool;
  c_entryThunk : bool;
  c_amd64 : bool;
  c_range : option Z;
  c_object : string;
  c_sectionNumber : Z
}.

Record osection := {
  os_name : string;
  os_Characteristics : Z;
  os_isReloc : bool;
  os_chunks : list lchunk;
  VirtualAddress_ : Z;
  VirtualSize : Z;
  SizeOfRawData_ : Z;
  PointerToRawData : Z
}.

Record config := {
  fileAlign : Z;
  align : Z;
  is64 : bool;
  isEC : bool;
  functionPadMin : Z;
  dosStubSize : Z;
  merge_ : list (string * string);
  sectionAttrs : list (string * Z);
  sectionOrder : list (string * Z)
}.

Definition with_chunks (l : list lchunk) (s : osection) : osection :=
  {| os_name := os_name s; os_Characteristics := os_Characteristics s; os_isReloc := os_isReloc s;
     os_chunks := l; VirtualAddress_ := VirtualAddress_ s; VirtualSize := VirtualSize s;
     SizeOfRawData_ := SizeOfRawData_ s; PointerToRawData := PointerToRawData s |}.
Definition with_characteristics (c : Z) (s : osection) : osection :=
  {| os_name := os_name s; os_Characteristics := c; os_isReloc := os_isReloc s;
     os_chunks := os_chunks s; VirtualAddress_ := VirtualAddress_ s; VirtualSize := VirtualSize s;
     SizeOfRawData_ := SizeOfRawData_ s; PointerToRawData := PointerToRawData s |}.
Definition with_name (n : string) (s : osection) : osection :=
  {| os_name := n; os_Characteristics := os_Characteristics s; os_isReloc := os_isReloc s;
     os_chunks := os_chunks s; VirtualAddress_ := VirtualAddress_ s; VirtualSize := VirtualSize s;
     SizeOfRawData_ := SizeOfRawData_ s; PointerToRawData := PointerToRawData s |}.

(** ** Operations of [OutputSection] *)

Definition addChunk (c : lchunk) (s : osection) : osection := with_chunks (os_chunks s ++ [c]) s.
Definition insertChunkAtStart (c : lchunk) (s : osection) : osection := with_chunks (c :: os_chunks s) s.

Definition has_flag (chars flag : Z) : bool := negb ((chars &&& flag) =? 0).

Definition setPermissions (c : Z) (s : osection) : osection :=
  with_characteristics ((os_Characteristics s &&& u32 (Z.lnot permMask)) ||| c) s.

Definition isCodeSection (s : osection) : bool :=
  has_flag (os_Characteristics s) IMAGE_SCN_CNT_CODE &&
  has_flag (os_Characteristics s) IMAGE_SCN_MEM_READ &&
  has_flag (os_Characteristics s) SCN_MEM_EXECUTE.

(** [merge]: the new target; [other] is left without chunks. *)
Definition merge (to other : osection) : osection :=
  let to := with_chunks (os_chunks to ++ os_chunks other) to in
  if has_flag (os_Characteristics other) IMAGE_SCN_CNT_CODE then
    let chars := os_Characteristics to ||| IMAGE_SCN_CNT_CODE in
    with_characteristics
      (chars &&& u32 (Z.lnot (IMAGE_SCN_CNT_INITIALIZED_DATA ||| IMAGE_SCN_CNT_UNINITIALIZED_DATA))) to
  else to.

(** ** Names and order *)

Fixpoint find_dot (from : nat) (s : string) : option nat :=
  match s with
  | EmptyString => None
  | String c s' =>
      match from with
      | O => if Ascii.eqb c (Ascii.ascii_of_nat 46) then Some O else S <$> find_dot O s'
      | S from => S <$> find_dot from s'
      end
  end.

Definition getOutputSectionName (name : string) (isMinGW : bool) : string :=
  let s := hd "" (str_split (Ascii.ascii_of_nat 36) name) in
  if negb isMinGW then s
  else match find_dot 1 s with Some n => str_take n s | None => s end.

Definition shouldStripSectionSuffix (isSection isCOMDAT : bool) (name : string) (isMinGW : bool) : bool :=
  if negb isMinGW then false
  else if negb isSection || negb isCOMDAT then false
  else starts_with ".text$" name || starts_with ".data$" name || starts_with ".rdata$" name ||
       starts_with ".pdata$" name || starts_with ".xdata$" name || starts_with ".eh_frame$" name.

(** /order: symbols by name, 0 for a chunk without one. *)
Definition sortBySectionOrder (priority : lchunk -> Z) (chunks : list lchunk) : list lchunk :=
  stable_sort (fun a b => priority a <? priority b) chunks.

Definition splitECChunks (isARM64 : lchunk -> bool) (chunks : list lchunk) : list lchunk :=
  stable_sort (fun a b => Z.b2z (negb (isARM64 a)) <? Z.b2z (negb (isARM64 b))) chunks.

Fixpoint lookup_name {A} (n : string) (l : list (string * A)) : option A :=
  match l with
  | [] => None
  | (k, v) :: l => if String.eqb k n then Some v else lookup_name n l
  end.

Definition section_before (order : list (string * Z)) (a b : osection) : bool :=
  match lookup_name (os_name a) order, lookup_name (os_name b) order with
  | Some x, Some y => x <? y
  | Some _, None => true
  | _, _ => false
  end.

Definition layoutSections (cfg : config) (secs : list osection) : list osection :=
  match sectionOrder cfg with
  | [] => secs
  | order => stable_sort (section_before order) secs
  end.

Definition removeUnusedSections (secs : list osection) : list osection :=
  List.filter (fun s => negb (if os_isReloc s then false else
    match os_chunks s with [] => true | _ => false end)) secs.

Definition removeEmptySections (secs : list osection) : list osection :=
  List.filter (fun s => negb (VirtualSize s =? 0)) secs.

(** [sectionIndex] of each section, one based, and the index given to its
    chunks. *)
Definition assignOutputSectionIndices (secs : list osection) : list (nat * list nat) :=
  combine (seq 1 (length secs)) (map (fun s => map c_id (os_chunks s)) secs).

(** .CRT: chunks of one object in section order. *)
Definition crt_before (a b : lchunk) : bool :=
  String.eqb (c_object a) (c_object b) && (c_sectionNumber a <? c_sectionNumber b).
Definition sortCRTSectionChunks (chunks : list lchunk) : list lchunk := stable_sort crt_before chunks.

(** The optional range types order like their comparison in [sortECChunks]. *)
Definition ec_before (a b : lchunk) : bool :=
  match c_range b with
  | None => false
  | Some y => match c_range a with None => true | Some x => x <? y end
  end.
Definition sortECChunks (cfg : config) (secs : list osection) : list osection :=
  if negb (isEC cfg) then secs
  else map (fun s => if isCodeSection s then with_chunks (stable_sort ec_before (os_chunks s)) s else s) secs.

(** ** /merge *)

(** Follows the map from [toSection]; a name seen twice is fatal ([None]).
    Every turn but the last sees a new key of the map, so [S (length m)]
    turns are enough. *)
Fixpoint getMergeDestination_loop (fuel : nat) (m : list (string * string)) (names : list string)
    (toSection : string) : option string :=
  match fuel with
  | O => None
  | S fuel =>
      if existsb (String.eqb toSection) names then None
      else match lookup_name toSection m with
           | None => Some toSection
           | Some next => getMergeDestination_loop fuel m (toSection :: names) next
           end
  end.
Definition getMergeDestination (cfg : config) (toSection : string) : option string :=
  getMergeDestination_loop (S (S (length (merge_ cfg)))) (merge_ cfg) [] toSection.

Fixpoint find_section (n : string) (secs : list osection) : option (nat * osection) :=
  match secs with
  | [] => None
  | s :: secs =>
      if String.eqb (os_name s) n then Some (O, s)
      else prod_map S id <$> find_section n secs
  end.

(** [mergeSection(p)]; [None] when [getMergeDestination] is fatal. *)
Definition mergeSection (cfg : config) (p : string * string) (secs : list osection)
    : option (list osection) :=
  if String.eqb p.1 p.2 then Some secs
  else
    toSection ← getMergeDestination cfg p.2;
    match find_section p.1 secs, find_section toSection secs with
    | None, _ => Some secs
    | Some (i, from), None => Some (<[i := with_name toSection from]> secs)
    | Some (i, from), Some (j, to) =>
        Some (<[i := with_chunks [] from]> (<[j := merge to from]> secs))
    end.

Fixpoint merge_all (cfg : config) (l : list (string * string)) (secs : list osection)
    : option (list osection) :=
  match l with
  | [] => Some secs
  | p :: l => secs ← mergeSection cfg p secs; merge_all cfg l secs
  end.

(** [mergeSections] after the .pdata bookkeeping. *)
Definition mergeSections (cfg : config) (secs : list osection) : option (list osection) :=
  secs ← merge_all cfg (List.filter (fun p => negb (String.eqb p.1 ".bss")) (merge_ cfg)) secs;
  match lookup_name ".bss" (merge_ cfg) with
  | None => Some secs
  | Some to =>
      toSection ← getMergeDestination cfg to;
      if match lookup_name toSection (sectionAttrs cfg) with
         | None => true
         | Some chars => negb (has_flag chars IMAGE_SCN_MEM_SHARED)
         end
      then mergeSection cfg (".bss", toSection) secs
      else Some secs
  end.

(** The .pdata bookkeeping: (first, last) of the native and of the x64 entries;
    on ARM64EC the chunks are sorted first. *)
Definition pdata_ranges (cfg : config) (pdataChunks : list lchunk)
    : option (lchunk * lchunk) * option (lchunk * lchunk) * list lchunk :=
  match pdataChunks with
  | [] => (None, None, [])
  | c0 :: _ =>
      if isEC cfg then
        let l := stable_sort (fun a b => Z.b2z (c_amd64 a) <? Z.b2z (c_amd64 b)) pdataChunks in
        let native := (fix go l := match l with
                       | c :: l => if c_amd64 c then [] else c :: go l
                       | [] => [] end) l in
        let hybrid := drop (length native) l in
        (match native with [] => None | c :: _ => Some (c, List.last native c) end,
         match hybrid with [] => None | c :: _ => Some (c, List.last l c) end, l)
      else (Some (c0, List.last pdataChunks c0), None, pdataChunks)
  end.

(** ** The ARM64EC code map *)

Record code_map_state := {
  cm_done : list (lchunk * lchunk * Z);
  cm_open : option (lchunk * Z);  (* first, type *)
  cm_last : option lchunk
}.

Definition closeRange (st : code_map_state) : code_map_state :=
  match cm_open st, cm_last st with
  | Some (first, ty), Some last =>
      {| cm_done := cm_done st ++ [(first, last, ty)]; cm_open := None; cm_last := cm_last st |}
  | _, _ => {| cm_done := cm_done st; cm_open := None; cm_last := cm_last st |}
  end.

Definition code_map_step (st : code_map_state) (c : lchunk) : code_map_state :=
  if c_isSection c && (c_size c =? 0) then st
  else
    let lastType := snd <$> cm_open st in
    let st :=
      if bool_decide (c_range c = lastType) then st
      else
        let st := closeRange st in
        {| cm_done := cm_done st; cm_open := pair c <$> c_range c; cm_last := cm_last st |} in
    {| cm_done := cm_done st; cm_open := cm_open st; cm_last := Some c |}.

Definition createECCodeMap (secs : list osection) : list (lchunk * lchunk * Z) :=
  cm_done (closeRange (fold_left code_map_step (concat (map os_chunks secs))
    {| cm_done := []; cm_open := None; cm_last := None |})).

(** ** Addresses *)

(** The state of the chunk loop: the section's sizes so far, the EC range of
    the chunk before, and the placements. *)
Record place_state := {
  virtualSize : Z;
  rawSize : Z;
  prevECRange : option Z;
  placed : list (lchunk * Z)
}.

Definition place_chunk (cfg : config) (rva padding : Z) (isCode : bool) (st : place_state) (c : lchunk)
    : place_state :=
  let vs := virtualSize st in
  let ranges := isEC cfg && isCode in
  let vs := if ranges && negb (bool_decide (c_range c = prevECRange st)) then alignTo vs 4096 else vs in
  let prev := if ranges then c_range c else prevECRange st in
  let vs := if negb (padding =? 0) && c_hotPatchable c then vs + padding else vs in
  let vs := if c_entryThunk c then vs + 4 else vs in
  let vs := alignTo vs (c_align c) in
  let addr := rva + vs in
  let vs := vs + c_size c in
  {| virtualSize := vs;
     rawSize := if c_hasData c then alignTo vs (fileAlign cfg) else rawSize st;
     prevECRange := prev;
     placed := placed st ++ [(c, u32 addr)] |}.

Definition place_section (cfg : config) (rva : Z) (s : osection) : place_state :=
  let padding := if isCodeSection s then functionPadMin cfg else 0 in
  fold_left (place_chunk cfg rva padding (isCodeSection s)) (os_chunks s)
    {| virtualSize := 0; rawSize := 0; prevECRange := None; placed := [] |}.

Record layout := {
  l_sections : list osection;
  l_rvas : list (lchunk * Z);
  l_rva : Z;
  l_fileSize : Z;
  l_tooLarge : list string
}.

(** The chunks that .reloc gets depend on the addresses given before it. *)
Section Addresses.
  Context (cfg : config) (relocChunks : list (lchunk * Z) -> list lchunk).

Definition assign_section (L : layout) (s : osection) : layout :=
  let s := if os_isReloc s then with_chunks (relocChunks (l_rvas L)) s else s in
  let st := place_section cfg (l_rva L) s in
  let s := {| os_name := os_name s; os_Characteristics := os_Characteristics s; os_isReloc := os_isReloc s;
              os_chunks := os_chunks s; VirtualAddress_ := u32 (l_rva L);
              VirtualSize := u32 (virtualSize st); SizeOfRawData_ := u32 (rawSize st);
              PointerToRawData := if rawSize st =? 0 then PointerToRawData s else u32 (l_fileSize L) |} in
  {| l_sections := l_sections L ++ [s]; l_rvas := l_rvas L ++ placed st;
     l_rva := l_rva L + alignTo (virtualSize st) (align cfg);
     l_fileSize := l_fileSize L + alignTo (rawSize st) (fileAlign cfg);
     l_tooLarge := if 2 ^ 32 - 1 <? virtualSize st then l_tooLarge L ++ [os_name s] else l_tooLarge L |}.

Definition sizeOfHeaders (nsections : nat) : Z :=
  let n := dosStubSize cfg + 4 + 20 + 8 * 16 + 40 * Z.of_nat nsections in
  alignTo (n + (if is64 cfg then 112 else 96)) (fileAlign cfg).

(** The RVAs of the sections inside merge chunks, set at the end of the function,
    are [assign_merged] of StrTab.v. *)
Definition assignAddresses (secs : list osection) : layout * Z :=
  let hdr := sizeOfHeaders (length secs) in
  let L := fold_left assign_section secs
    {| l_sections := []; l_rvas := []; l_rva := alignTo hdr (align cfg); l_fileSize := hdr; l_tooLarge := [] |} in
  (L, alignTo (l_rva L) (align cfg)).

End Addresses.

Definition getSizeOfInitializedData (secs : list osection) : Z :=
  fold_left (fun res s => if has_flag (os_Characteristics s) IMAGE_SCN_CNT_INITIALIZED_DATA
    then u32 (res + SizeOfRawData_ s) else res) secs 0.
