(* ===== verification/LayoutProps.v ===== *)
(** * What the layout guarantees (theorems on Layout.v)

    Addresses: chunks in order and disjoint, inside their sections, sections
    disjoint in the image and in the file. Merging: no chunk is lost. *)

From S2P Require Import Prelude Layout.

#[local] Open Scope string_scope.
#[local] Open Scope list_scope.
#[local] Open Scope Z_scope.

(** ** Chunks in order *)

(** The offset to an EC entry thunk goes just before the chunk. *)
Definition entry_space (c : lchunk) : Z := if c_entryThunk c then 4 else 0.

(** The chunks of [l] lie in [lo, hi) at the addresses given, in order and
    without overlap, each with the space for its entry thunk before it. *)
Fixpoint in_order (lo : Z) (l : list (lchunk * Z)) (hi : Z) : Prop :=
  match l with
  | [] => lo <= hi
  | (c, a) :: l => lo + entry_space c <= a /\ in_order (a + c_size c) l hi
  end.

Lemma entry_space_range c : 0 <= entry_space c <= 4.
Proof. unfold entry_space. case_match; lia. Qed.

Definition chunk_ok (c : lchunk) : Prop := 0 < c_align c /\ 0 <= c_size c.

Lemma in_order_app lo l1 mid lo' l2 hi :
  in_order lo l1 mid -> mid <= lo' -> in_order lo' l2 hi -> in_order lo (l1 ++ l2) hi.
Proof.
  revert lo. induction l1 as [|[c a] l1 IH]; intros lo H Hm H2; simpl in *.
  - destruct l2 as [|[c a] l2]; simpl in *; [lia|]. destruct H2. split; [lia|done].
  - destruct H as [? H]. split; [done|]. by apply IH.
Qed.

Lemma in_order_lo lo lo' l hi : lo' <= lo -> in_order lo l hi -> in_order lo' l hi.
Proof. destruct l as [|[c a] l]; simpl; [lia|]. intros ? [? ?]. split; [lia|done]. Qed.

Lemma in_order_hi lo l hi hi' : hi <= hi' -> in_order lo l hi -> in_order lo l hi'.
Proof.
  revert lo. induction l as [|[c a] l IH]; intros lo Hh; simpl; [lia|].
  intros [? ?]. split; [done|]. by apply IH.
Qed.

Lemma in_order_shift d lo l hi :
  in_order lo l hi -> in_order (d + lo) (prod_map id (Z.add d) <$> l) (d + hi).
Proof.
  revert lo. induction l as [|[c a] l IH]; intros lo; simpl; [lia|].
  intros [? H]. split; [lia|]. apply IH in H. by replace (d + a + c_size c) with (d + (a + c_size c)) by lia.
Qed.

Lemma in_order_le lo l hi :
  Forall (fun x => 0 <= c_size x.1) l -> in_order lo l hi -> lo <= hi.
Proof.
  revert lo. induction l as [|[c a] l IH]; intros lo Hs H; simpl in *; [done|].
  apply Forall_cons in Hs as [Hc Hs]. destruct H as [? H]. pose proof (entry_space_range c).
  apply IH in H; [simpl in Hc; lia|done].
Qed.

Lemma chunk_sizes (offs : list (lchunk * Z)) l :
  offs.*1 = l -> Forall chunk_ok l -> Forall (fun x => 0 <= c_size x.1) offs.
Proof.
  intros <- H. rewrite Forall_fmap in H. eapply Forall_impl; [exact H|]. by intros ? [_ ?].
Qed.

Lemma in_order_bounds lo l hi c a :
  Forall (fun x => 0 <= c_size x.1) l -> in_order lo l hi -> (c, a) ∈ l ->
  lo <= a /\ a + c_size c <= hi.
Proof.
  revert lo. induction l as [|[c' a'] l IH]; intros lo Hs; [by intros _ ?%elem_of_nil|].
  apply Forall_cons in Hs as [Hc Hs]. intros [Hlo H] Hin. simpl in Hc. pose proof (entry_space_range c').
  apply elem_of_cons in Hin as [[= -> ->]|Hin].
  - split; [lia|]. by eapply in_order_le.
  - destruct (IH _ Hs H Hin). split; [lia|done].
Qed.

(** ** One section *)

Section Place.
Context (cfg : config) (rva padding : Z) (isCode : bool).
Context (Hfa : 0 < fileAlign cfg) (Hpad : 0 <= padding).

Abbreviation place := (place_chunk cfg rva padding isCode).

(** Where one chunk goes, as an offset in its section. *)
Lemma place_chunk_spec st c :
  chunk_ok c -> exists o,
    virtualSize st + entry_space c <= o /\ o mod c_align c = 0 /\
    virtualSize (place st c) = o + c_size c /\
    placed (place st c) = placed st ++ [(c, u32 (rva + o))] /\
    rawSize (place st c) =
      (if c_hasData c then alignTo (o + c_size c) (fileAlign cfg) else rawSize st).
Proof using Hpad.
  intros [Hal Hsz]. unfold place_chunk. cbv zeta.
  match goal with |- context [alignTo ?x (c_align c)] => set (v := x) end.
  exists (alignTo v (c_align c)). cbn [virtualSize placed rawSize].
  destruct (alignTo_spec v _ Hal) as [[H1 _] H2]. repeat split; try done.
  enough (virtualSize st + entry_space c <= v) by lia. subst v. unfold entry_space.
  assert (virtualSize st <= alignTo (virtualSize st) 4096) by (apply alignTo_spec; lia).
  repeat case_match; lia.
Qed.

Lemma place_fold_spec l st :
  Forall chunk_ok l -> rawSize st <= alignTo (virtualSize st) (fileAlign cfg) ->
  let st' := fold_left place l st in
  exists offs,
    offs.*1 = l /\ placed st' = placed st ++ (prod_map id (fun o => u32 (rva + o)) <$> offs) /\
    in_order (virtualSize st) offs (virtualSize st') /\
    Forall (fun x => x.2 mod c_align x.1 = 0) offs /\
    Forall (fun x => c_hasData x.1 = true -> x.2 + c_size x.1 <= rawSize st') offs /\
    rawSize st <= rawSize st' <= alignTo (virtualSize st') (fileAlign cfg).
Proof using Hpad Hfa.
  revert st. induction l as [|c l IH]; intros st Hl Hraw; cbn zeta.
  - exists []. simpl. rewrite app_nil_r. repeat split; try done; lia.
  - apply Forall_cons in Hl as [Hc Hl]. cbn [fold_left].
    destruct (place_chunk_spec st c Hc) as (o & Ho & Hmod & Hvs & Hpl & Hrs).
    destruct Hc as [Hal Hsz]. pose proof (entry_space_range c).
    assert (Hmono : alignTo (virtualSize st) (fileAlign cfg) <= alignTo (o + c_size c) (fileAlign cfg))
      by (apply alignTo_mono; lia).
    destruct (IH (place st c) Hl) as (offs & E1 & E2 & E3 & E4 & E5 & E6).
    { rewrite Hvs, Hrs. case_match; [done|lia]. }
    exists ((c, o) :: offs). rewrite Hvs in E3.
    split; [by rewrite fmap_cons, E1|].
    split; [rewrite E2, Hpl, <- app_assoc; done|].
    split; [by split|]. split; [by constructor|]. split.
    + constructor; [|done]. cbn. intros Hd. rewrite Hd in Hrs.
      pose proof (alignTo_spec (o + c_size c) _ Hfa). lia.
    + split; [|lia]. rewrite Hrs in E6. case_match; lia.
Qed.
End Place.

Lemma alignTo_0 a : 0 < a -> alignTo 0 a = 0.
Proof. intros. apply alignTo_id; [done|]. by apply Z.mod_0_l; lia. Qed.

Lemma place_section_spec cfg rva s :
  0 < fileAlign cfg -> 0 <= functionPadMin cfg -> Forall chunk_ok (os_chunks s) ->
  let st := place_section cfg rva s in
  exists offs,
    offs.*1 = os_chunks s /\ placed st = (prod_map id (fun o => u32 (rva + o)) <$> offs) /\
    in_order 0 offs (virtualSize st) /\
    Forall (fun x => x.2 mod c_align x.1 = 0) offs /\
    Forall (fun x => c_hasData x.1 = true -> x.2 + c_size x.1 <= rawSize st) offs /\
    0 <= rawSize st <= alignTo (virtualSize st) (fileAlign cfg).
Proof.
  intros Hfa Hpad Hc. apply (place_fold_spec cfg rva _ _ Hfa); [by case_match|done|].
  simpl. by rewrite alignTo_0.
Qed.

(** ** The image *)

(** A section header and the addresses of its chunks. *)
Record section_ok (cfg : config) (s : osection) (rvas : list (lchunk * Z)) : Prop := {
  so_chunks : rvas.*1 = os_chunks s;
  so_aligned : VirtualAddress_ s mod align cfg = 0;
  so_inside : in_order (VirtualAddress_ s) rvas (VirtualAddress_ s + VirtualSize s);
  so_chunk_aligned : Forall (fun x => (x.2 - VirtualAddress_ s) mod c_align x.1 = 0) rvas;
  so_data : Forall (fun x => c_hasData x.1 = true ->
    x.2 + c_size x.1 <= VirtualAddress_ s + SizeOfRawData_ s) rvas;
  so_rawSize : 0 <= SizeOfRawData_ s <= alignTo (VirtualSize s) (fileAlign cfg)
}.

(** Section headers in ascending, disjoint order of addresses. *)
Fixpoint sections_in_order (lo : Z) (l : list osection) (hi : Z) : Prop :=
  match l with
  | [] => lo <= hi
  | s :: l => lo <= VirtualAddress_ s /\ sections_in_order (VirtualAddress_ s + VirtualSize s) l hi
  end.

(** The same for the ranges in the file of the sections with raw data. *)
Fixpoint files_in_order (fa lo : Z) (l : list osection) (hi : Z) : Prop :=
  match l with
  | [] => lo <= hi
  | s :: l =>
      if SizeOfRawData_ s =? 0 then files_in_order fa lo l hi
      else lo <= PointerToRawData s /\ PointerToRawData s mod fa = 0 /\
           files_in_order fa (PointerToRawData s + SizeOfRawData_ s) l hi
  end.

Record image_ok (cfg : config) (hdr : Z) (L : layout) : Prop := {
  io_sections : exists rvas, l_rvas L = concat rvas /\ Forall2 (section_ok cfg) (l_sections L) rvas;
  io_order : sections_in_order hdr (l_sections L) (l_rva L);
  io_chunks : in_order hdr (l_rvas L) (l_rva L);
  io_file : files_in_order (fileAlign cfg) hdr (l_sections L) (l_fileSize L)
}.

Lemma sections_in_order_snoc lo l mid s hi :
  sections_in_order lo l mid -> mid <= VirtualAddress_ s ->
  VirtualAddress_ s + VirtualSize s <= hi -> sections_in_order lo (l ++ [s]) hi.
Proof.
  revert lo. induction l as [|t l IH]; intros lo H ? ?; simpl in *; [lia|].
  destruct H. split; [done|]. by apply IH.
Qed.

Lemma files_in_order_snoc fa lo l mid s hi :
  files_in_order fa lo l mid -> mid <= hi ->
  (SizeOfRawData_ s <> 0 -> mid <= PointerToRawData s /\ PointerToRawData s mod fa = 0 /\
     PointerToRawData s + SizeOfRawData_ s <= hi) ->
  files_in_order fa lo (l ++ [s]) hi.
Proof.
  revert lo. induction l as [|t l IH]; intros lo H Hm Hs; simpl in *.
  - destruct (Z.eqb_spec (SizeOfRawData_ s) 0); [lia|]. specialize (Hs ltac:(done)). lia.
  - case_match; [by apply IH|]. destruct H as (? & ? & ?). repeat split; try done. by apply IH.
Qed.

Section Assign.
Context (cfg : config) (relocChunks : list (lchunk * Z) -> list lchunk) (hdr : Z).

Record config_ok : Prop := {
  ok_fileAlign : 0 < fileAlign cfg;
  ok_align : 0 < align cfg;
  ok_padding : 0 <= functionPadMin cfg;
  ok_stub : 0 <= dosStubSize cfg
}.

(** Every chunk a section can get, the ones of .reloc included. *)
Definition chunks_ok (secs : list osection) : Prop :=
  Forall (fun s => Forall chunk_ok (os_chunks s)) secs /\ forall r, Forall chunk_ok (relocChunks r).

Abbreviation assign := (assign_section cfg relocChunks).

(** The invariant of the section loop. *)
Record assign_inv (L : layout) : Prop := {
  ai_ok : image_ok cfg hdr L;
  ai_rva : 0 <= l_rva L /\ l_rva L mod align cfg = 0;
  ai_file : 0 <= l_fileSize L /\ l_fileSize L mod fileAlign cfg = 0
}.

Lemma mod_add_0 a b m : 0 < m -> a mod m = 0 -> b mod m = 0 -> (a + b) mod m = 0.
Proof. intros Hm Ha Hb. rewrite Z.add_mod, Ha, Hb by lia. by apply Z.mod_0_l; lia. Qed.

(** What one section adds to the layout. *)
Lemma assign_section_grows L s :
  config_ok -> Forall chunk_ok (os_chunks s) -> (forall r, Forall chunk_ok (relocChunks r)) ->
  l_rva L <= l_rva (assign L s) /\ l_fileSize L <= l_fileSize (assign L s).
Proof.
  intros [Hfa Hal Hp _] Hs Hr. unfold assign_section. cbn zeta.
  set (s' := if os_isReloc s then _ else s).
  assert (Hs' : Forall chunk_ok (os_chunks s')) by (subst s'; case_match; simpl; auto).
  destruct (place_section_spec cfg (l_rva L) s' Hfa Hp Hs') as (offs & E1 & _ & E3 & _ & _ & E6).
  apply in_order_le in E3; [|by eapply chunk_sizes].
  cbn [l_rva l_fileSize].
  pose proof (alignTo_spec (virtualSize (place_section cfg (l_rva L) s')) _ Hal).
  pose proof (alignTo_spec (rawSize (place_section cfg (l_rva L) s')) _ Hfa). lia.
Qed.

Lemma assign_fold_grows secs L :
  config_ok -> chunks_ok secs ->
  l_rva L <= l_rva (fold_left assign secs L) /\ l_fileSize L <= l_fileSize (fold_left assign secs L).
Proof.
  intros Hc [Hs Hr]. revert L. induction Hs as [|s secs H Hs IH]; intros L; cbn [fold_left]; [lia|].
  pose proof (assign_section_grows L s Hc H Hr). specialize (IH (assign L s)). lia.
Qed.

Lemma place_inside rva offs hi :
  0 <= rva -> rva + hi < 2 ^ 32 -> Forall (fun x => 0 <= c_size x.1) offs -> in_order 0 offs hi ->
  prod_map id (fun o => u32 (rva + o)) <$> offs = (prod_map id (Z.add rva) <$> offs : list (lchunk * Z)).
Proof.
  intros Hrva Hhi Hs Ho. apply list_fmap_ext. intros i [c o] Hl.
  destruct (in_order_bounds 0 offs hi c o Hs Ho (list_elem_of_lookup_2 _ _ _ Hl)).
  rewrite Forall_lookup in Hs. specialize (Hs _ _ Hl). simpl in Hs.
  unfold prod_map. simpl. rewrite wrap_small; [done|split; lia].
Qed.

Lemma assign_section_inv L s :
  config_ok -> 0 < l_rva L -> Forall chunk_ok (os_chunks s) -> (forall r, Forall chunk_ok (relocChunks r)) ->
  assign_inv L -> l_rva (assign L s) < 2 ^ 32 -> l_fileSize (assign L s) < 2 ^ 32 ->
  assign_inv (assign L s).
Proof.
  intros [Hfa Hal Hp _] Hpos Hs Hr [[(rvas & Ervas & Hall) Hsec Hch Hfile] [Hr0 Hrm] [Hf0 Hfm]].
  unfold assign_section. cbn zeta.
  set (s' := if os_isReloc s then _ else s).
  assert (Hs' : Forall chunk_ok (os_chunks s')) by (subst s'; case_match; simpl; auto).
  destruct (place_section_spec cfg (l_rva L) s' Hfa Hp Hs') as (offs & E1 & E2 & E3 & E4 & E5 & E6).
  set (st := place_section cfg (l_rva L) s') in *. cbn [l_rva l_fileSize l_rvas l_sections].
  pose proof (alignTo_spec (virtualSize st) _ Hal) as [Ha1 Ha2].
  pose proof (alignTo_spec (rawSize st) _ Hfa) as [Hb1 Hb2]. intros HrvaN HfileN.
  pose proof (chunk_sizes _ _ E1 Hs') as Hsz. pose proof (in_order_le _ _ _ Hsz E3) as Hvs0.
  assert (Eva : u32 (l_rva L) = l_rva L) by (apply wrap_small; split; lia).
  assert (Evs : u32 (virtualSize st) = virtualSize st) by (apply wrap_small; split; lia).
  assert (Ers : u32 (rawSize st) = rawSize st) by (apply wrap_small; split; lia).
  assert (Efs : u32 (l_fileSize L) = l_fileSize L) by (apply wrap_small; split; lia).
  rewrite (place_inside _ _ (virtualSize st)) in E2 by (done || lia).
  pose proof (in_order_shift (l_rva L) _ _ _ E3) as Hin. rewrite <- E2, Z.add_0_r in Hin.
  split; cbn [l_rva l_fileSize l_rvas l_sections].
  - split; cbn [l_rva l_fileSize l_rvas l_sections].
    + exists (rvas ++ [placed st]). split; [by rewrite Ervas, concat_app; simpl; rewrite app_nil_r|].
      apply Forall2_app; [done|]. constructor; [|done].
      split; cbn [os_chunks VirtualAddress_ VirtualSize SizeOfRawData_]; rewrite ?Eva, ?Evs, ?Ers;
        try done; rewrite ?E2, ?Forall_fmap.
      * by rewrite <- list_fmap_compose.
      * eapply Forall_impl; [exact E4|]. intros [c o] H. simpl in *. by replace (_ + o - _) with o by lia.
      * eapply Forall_impl; [exact E5|]. intros [c o] H Hd. simpl in *. specialize (H Hd). unfold id in *. lia.
    + eapply sections_in_order_snoc; [done|cbn; lia..].
    + eapply in_order_app; [done|reflexivity|]. by eapply in_order_hi; [|exact Hin]; lia.
    + eapply files_in_order_snoc; [done|lia|]. cbn [SizeOfRawData_ PointerToRawData]. rewrite Ers. intros Hn.
      rewrite (proj2 (Z.eqb_neq _ _) Hn), Efs. lia.
  - split; [lia|]. by apply mod_add_0.
  - split; [lia|]. by apply mod_add_0.
Qed.

Lemma assign_fold_inv secs L :
  config_ok -> chunks_ok secs -> 0 < l_rva L -> assign_inv L ->
  l_rva (fold_left assign secs L) < 2 ^ 32 -> l_fileSize (fold_left assign secs L) < 2 ^ 32 ->
  assign_inv (fold_left assign secs L).
Proof.
  intros Hc [Hs Hr]. revert L. induction Hs as [|s secs H Hs IH]; intros L Hpos Hinv; cbn [fold_left]; [done|].
  intros H1 H2. pose proof (assign_section_grows L s Hc H Hr).
  pose proof (assign_fold_grows secs (assign L s) Hc (conj Hs Hr)).
  apply IH; [lia| |done..]. apply assign_section_inv; [done..|lia|lia].
Qed.
End Assign.

Lemma assignAddresses_ok (cfg : config) (relocChunks : list (lchunk * Z) -> list lchunk)
    (secs : list osection) (Hcfg : config_ok cfg) (Hchunks : chunks_ok relocChunks secs)
    (Himage : l_rva (assignAddresses cfg relocChunks secs).1 < 2 ^ 32)
    (Hfile : l_fileSize (assignAddresses cfg relocChunks secs).1 < 2 ^ 32) :
  image_ok cfg (sizeOfHeaders cfg (length secs)) (assignAddresses cfg relocChunks secs).1.
Proof.
  pose proof Hcfg as [Hfa Hal Hp Hd]. unfold assignAddresses in *. cbn [fst] in *.
  set (hdr := sizeOfHeaders cfg (length secs)) in *.
  assert (Hh : 0 < hdr /\ hdr mod fileAlign cfg = 0).
  { subst hdr. unfold sizeOfHeaders.
    match goal with |- context [alignTo ?x _] => set (n := x) end.
    assert (0 < n) by (subst n; case_match; lia). pose proof (alignTo_spec n _ Hfa). lia. }
  pose proof (alignTo_spec hdr _ Hal).
  apply ai_ok. apply assign_fold_inv; cbn [l_rva l_fileSize]; try done; [lia|].
  split; cbn [l_rva l_fileSize]; [|lia..].
  split; cbn [l_rva l_fileSize l_sections l_rvas in_order sections_in_order files_in_order]; [|lia..].
  by exists [].
Qed.

(** C5: assignAddresses lays the image out correctly: when the image and the
    file stay below 4 GiB, the chunks are at ascending, disjoint addresses after
    the headers, each inside its section at an offset that is a multiple of its
    alignment; sections start at multiples of /align and do not overlap; every
    chunk with contents is within its section's raw data; and the raw data are
    at ascending, disjoint, aligned file offsets after the headers. *)
Theorem assignAddresses_image_ok (cfg : config) (relocChunks : list (lchunk * Z) -> list lchunk)
    (secs : list osection) (Hcfg : config_ok cfg) (Hchunks : chunks_ok relocChunks secs)
    (Himage : l_rva (assignAddresses cfg relocChunks secs).1 < 2 ^ 32)
    (Hfile : l_fileSize (assignAddresses cfg relocChunks secs).1 < 2 ^ 32) :
  image_ok cfg (sizeOfHeaders cfg (length secs)) (assignAddresses cfg relocChunks secs).1.
Proof. by apply assignAddresses_ok. Qed.

Definition mk_chunk (id : nat) (al size : Z) (data : bool) : lchunk :=
  {| c_id := id; c_align := al; c_size := size; c_hasData := data; c_isSection := true;
     c_hotPatchable := false; c_entryThunk := false; c_amd64 := true; c_range := None;
     c_object := ""; c_sectionNumber := Z.of_nat id |}.
Definition mk_section (name : string) (chars : Z) (l : list lchunk) : osection :=
  {| os_name := name; os_Characteristics := chars; os_isReloc := String.eqb name ".reloc"; os_chunks := l;
     VirtualAddress_ := 0; VirtualSize := 0; SizeOfRawData_ := 0; PointerToRawData := 0 |}.
Definition mk_config (merge : list (string * string)) : config :=
  {| fileAlign := 512; align := 4096; is64 := true; isEC := false; functionPadMin := 6; dosStubSize := 120;
     merge_ := merge; sectionAttrs := []; sectionOrder := [] |}.

Definition demo_sections : list osection :=
  [mk_section ".text" 0x60000020 [mk_chunk 0 16 100 true; mk_chunk 1 16 33 true];
   mk_section ".data" 0xC0000040 [mk_chunk 2 8 20 true; mk_chunk 3 4096 70000 false];
   mk_section ".reloc" 0x42000040 []].
Definition demo_relocs (_ : list (lchunk * Z)) : list lchunk := [mk_chunk 4 4 12 true].

Lemma assignAddresses_image_ok_witness :
  image_ok (mk_config []) 512 (assignAddresses (mk_config []) demo_relocs demo_sections).1 /\
  map snd (l_rvas (assignAddresses (mk_config []) demo_relocs demo_sections).1) =
    [0x1000; 0x1070; 0x2000; 0x3000; 0x15000].
Proof.
  split; [|by vm_compute].
  refine (assignAddresses_image_ok (mk_config []) demo_relocs demo_sections _ _ _ _).
  - split; by vm_compute.
  - split; [repeat constructor; vm_compute; discriminate|].
    intros r. repeat constructor; vm_compute; discriminate.
  - by vm_compute.
  - by vm_compute.
Defined.

(** Two sections of less than 4 GiB each: the file is small, nothing is
    reported, and the second section's chunk wraps around to address 0x1000,
    where the first one already is. *)
Lemma rva_wraps_unreported :
  let big n id := mk_section n 0xC0000080 [mk_chunk id 16 0x80000000 false] in
  let L := (assignAddresses (mk_config []) (fun _ => []) [big ".bss" 0%nat; big ".bss2" 1%nat; big ".bss3" 2%nat]).1 in
  map snd (l_rvas L) = [0x1000; 0x80001000; 0x1000] /\ l_tooLarge L = [] /\ l_fileSize L = 512.
Proof. by vm_compute. Qed.

(** A chunk's alignment is applied to its offset in the section: above /align
    it does not hold for the address. *)
Lemma overaligned_chunk :
  let L := (assignAddresses (mk_config []) (fun _ => [])
    [mk_section ".data" 0xC0000040 [mk_chunk 0 8192 16 true]]).1 in
  map snd (l_rvas L) = [0x1000] /\ 0x1000 mod 8192 <> 0.
Proof. by vm_compute. Qed.

(** [sortCRTSectionChunks]: chunks of different objects are never ordered, so
    the comparison is not a weak order, and one object's chunks can stay out of
    order around a chunk of another object. *)
Lemma crt_not_weak_order : ~ StrictWeak crt_before.
Proof.
  intros [_ Htrans _].
  set (c := fun o n => {| c_id := 0; c_align := 1; c_size := 8; c_hasData := true; c_isSection := true;
    c_hotPatchable := false; c_entryThunk := false; c_amd64 := true; c_range := None;
    c_object := o; c_sectionNumber := n |}).
  specialize (Htrans (c "a.obj" 2) (c "b.obj" 1) (c "a.obj" 1)). vm_compute in Htrans. by specialize (Htrans eq_refl eq_refl).
Qed.

Lemma crt_out_of_order :
  let c o n := {| c_id := 0; c_align := 1; c_size := 8; c_hasData := true; c_isSection := true;
    c_hotPatchable := false; c_entryThunk := false; c_amd64 := true; c_range := None;
    c_object := o; c_sectionNumber := n |} in
  sortCRTSectionChunks [c "a.obj" 2; c "b.obj" 1; c "a.obj" 1] = [c "a.obj" 2; c "b.obj" 1; c "a.obj" 1].
Proof. by vm_compute. Qed.

(** ** /merge *)

Abbreviation chunks_of := (fun secs => concat (map os_chunks secs)).

Definition keys (m : list (string * string)) : list string := m.*1.

Lemma lookup_name_None {A} n (l : list (string * A)) : lookup_name n l = None <-> n ∉ l.*1.
Proof.
  induction l as [|[k v] l IH]; simpl; [split; [by intros _ ?%elem_of_nil|done]|].
  destruct (String.eqb_spec k n) as [->|Hne].
  - split; [done|]. intros H. destruct H. apply list_elem_of_here.
  - rewrite IH. split; intros H; [|by intros ?; apply H, list_elem_of_further].
    intros [?|?]%elem_of_cons; [by subst|done].
Qed.

Lemma existsb_String_eqb n l : existsb (String.eqb n) l = bool_decide (n ∈ l).
Proof.
  apply eq_true_iff_eq. rewrite existsb_exists, bool_decide_eq_true. split.
  - intros (x & Hx & ->%String.eqb_eq). by apply list_elem_of_In.
  - intros H. exists n. split; [by apply list_elem_of_In|by apply String.eqb_refl].
Qed.

(** [next] follows one entry of the map. *)
Definition next (m : list (string * string)) (a b : string) : Prop := lookup_name a m = Some b.

Lemma getMergeDestination_sound fuel m names s d :
  getMergeDestination_loop fuel m names s = Some d -> rtc (next m) s d /\ lookup_name d m = None.
Proof.
  revert names s. induction fuel as [|fuel IH]; intros names s; simpl; [done|].
  case_match; [done|]. destruct (lookup_name s m) as [t|] eqn:E.
  - intros H0%IH. destruct H0. split; [by eapply rtc_l|done].
  - intros [= ->]. by split.
Qed.

Lemma next_no_cycle m s t d :
  next m s t -> rtc (next m) t s -> rtc (next m) t d -> lookup_name d m = None -> False.
Proof.
  intros Hst Hts Htd Hd. assert (Hall : rtc (next m) d s).
  { refine (rtc_ind_r (fun x => rtc (next m) x s) t Hts _ d Htd). intros x y _ Hxy IH.
    inversion IH as [|? z ? Hz Hzs]; subst; unfold next in *; by simplify_eq. }
  inversion Hall; subst; unfold next in *; congruence.
Qed.

(** The names seen are distinct keys of the map, so fuel never runs out. *)
Lemma getMergeDestination_complete fuel m names s d :
  rtc (next m) s d -> lookup_name d m = None -> NoDup names -> Forall (fun n => n ∈ keys m) names ->
  (forall n, n ∈ names -> ~ rtc (next m) s n) ->
  (S (length m) < fuel + length names)%nat ->
  getMergeDestination_loop fuel m names s = Some d.
Proof.
  intros Hrtc Hd. revert fuel names. induction Hrtc as [s|s t d Hst Hrtc IH]; intros fuel names Hnd Hk Hsep Hfuel.
  - assert (length names <= length m)%nat.
    { rewrite <- (length_fmap fst m). apply submseteq_length, NoDup_submseteq; [done|]. by apply Forall_forall. }
    destruct fuel as [|fuel]; simpl; [lia|].
    rewrite existsb_String_eqb, bool_decide_eq_false_2, Hd; [done|]. intros H1. by apply (Hsep _ H1).
  - assert (length names <= length m)%nat.
    { rewrite <- (length_fmap fst m). apply submseteq_length, NoDup_submseteq; [done|]. by apply Forall_forall. }
    destruct fuel as [|fuel]; simpl; [lia|].
    rewrite existsb_String_eqb, bool_decide_eq_false_2, Hst by (intros H1; by apply (Hsep _ H1)).
    apply IH; [done| | | |simpl; lia].
    + constructor; [|done]. intros H1. by apply (Hsep _ H1).
    + constructor; [|done]. unfold next in Hst. destruct (decide (s ∈ keys m)) as [|Hn]; [done|].
      apply lookup_name_None in Hn. congruence.
    + intros n [->|Hn]%elem_of_cons Hr.
      * exact (next_no_cycle _ _ _ _ Hst Hr Hrtc Hd).
      * apply (Hsep _ Hn). by eapply rtc_l.
Qed.

Lemma getMergeDestination_spec cfg s d :
  getMergeDestination cfg s = Some d <-> rtc (next (merge_ cfg)) s d /\ lookup_name d (merge_ cfg) = None.
Proof.
  split; [apply getMergeDestination_sound|]. intros [H1 H2].
  apply getMergeDestination_complete; [done|done|constructor|constructor|by intros n ?%elem_of_nil|].
  simpl. lia.
Qed.

Lemma find_section_Some n secs i s :
  find_section n secs = Some (i, s) -> secs !! i = Some s /\ os_name s = n.
Proof.
  revert i. induction secs as [|t secs IH]; intros i; simpl; [done|].
  destruct (String.eqb_spec (os_name t) n); [by intros [= <- <-]|].
  destruct (find_section n secs) as [[j u]|]; [|done]. intros [= <- <-]. by apply IH.
Qed.

Lemma find_section_None n secs : find_section n secs = None -> n ∉ map os_name secs.
Proof.
  induction secs as [|t secs IH]; simpl; [by intros _ ?%elem_of_nil|].
  destruct (String.eqb_spec (os_name t) n); [done|].
  destruct (find_section n secs) as [[j u]|]; [done|]. intros _ [?|?]%elem_of_cons; [done|by apply IH].
Qed.

Lemma chunks_insert secs i (s t : osection) (l : list lchunk) :
  secs !! i = Some s ->
  Permutation (os_chunks t) (l ++ os_chunks s) ->
  Permutation (chunks_of (<[i := t]> secs)) (l ++ chunks_of secs).
Proof.
  intros Hi Hp. pose proof (lookup_lt_Some _ _ _ Hi).
  rewrite <- (take_drop_middle secs i s Hi) at 2.
  rewrite insert_take_drop by done. rewrite !map_app, !concat_app. simpl.
  rewrite Hp. rewrite <- !app_assoc. rewrite !(app_assoc (concat _)), (Permutation_app_comm (concat _) l).
  by rewrite <- !app_assoc.
Qed.

(** One mergeSection: what the list becomes. *)
Inductive merge_result (cfg : config) (p : string * string) (secs : list osection) : list osection -> Prop :=
  | MergeSelf : p.1 = p.2 -> merge_result cfg p secs secs
  | MergeNone d : p.1 <> p.2 -> getMergeDestination cfg p.2 = Some d -> find_section p.1 secs = None ->
      merge_result cfg p secs secs
  | MergeRename d i from : p.1 <> p.2 -> getMergeDestination cfg p.2 = Some d ->
      find_section p.1 secs = Some (i, from) -> find_section d secs = None ->
      merge_result cfg p secs (<[i := with_name d from]> secs)
  | MergeInto d i from j to : p.1 <> p.2 -> getMergeDestination cfg p.2 = Some d ->
      find_section p.1 secs = Some (i, from) -> find_section d secs = Some (j, to) ->
      merge_result cfg p secs (<[i := with_chunks [] from]> (<[j := merge to from]> secs)).

Lemma mergeSection_result cfg p secs secs' :
  mergeSection cfg p secs = Some secs' -> merge_result cfg p secs secs'.
Proof.
  unfold mergeSection. destruct (String.eqb_spec p.1 p.2); [intros [= <-]; by constructor|].
  destruct (getMergeDestination cfg p.2) as [d|] eqn:E; simpl; [|done].
  destruct (find_section p.1 secs) as [[i from]|] eqn:E1; [destruct (find_section d secs) as [[j to]|] eqn:E2|];
    intros [= <-]; [by eapply MergeInto|by eapply MergeRename|by eapply MergeNone].
Qed.

Lemma os_chunks_merge to from : os_chunks (merge to from) = os_chunks to ++ os_chunks from.
Proof. unfold merge. by case_match. Qed.
Lemma os_name_merge to from : os_name (merge to from) = os_name to.
Proof. unfold merge. by case_match. Qed.

(** The two sections of a merge are different: a destination is no key. *)
Lemma merge_indices cfg (p : string * string) d secs i j from to :
  p.1 ∈ keys (merge_ cfg) -> getMergeDestination cfg p.2 = Some d ->
  find_section p.1 secs = Some (i, from) -> find_section d secs = Some (j, to) -> i <> j.
Proof.
  intros Hk [_ Hd]%getMergeDestination_spec [H1 N1]%find_section_Some [H2 N2]%find_section_Some ->.
  apply (proj1 (lookup_name_None d _) Hd). rewrite <- N2. assert (to = from) as -> by congruence. by rewrite N1.
Qed.

Lemma mergeSection_chunks cfg p secs secs' :
  p.1 ∈ keys (merge_ cfg) -> mergeSection cfg p secs = Some secs' ->
  Permutation (chunks_of secs') (chunks_of secs).
Proof.
  intros Hk [| | d i from Hn Hd Hf Ht|d i from j to Hn Hd Hf Ht]%mergeSection_result; [done|done| |].
  - apply find_section_Some in Hf as [Hf _]. by apply (chunks_insert _ _ _ _ [] Hf).
  - pose proof (merge_indices _ _ _ _ _ _ _ _ Hk Hd Hf Ht) as Hij.
    apply find_section_Some in Hf as [Hf _]. apply find_section_Some in Ht as [Ht _].
    apply (Permutation_app_inv_l (os_chunks from)).
    rewrite <- (chunks_insert secs j to (merge to from) (os_chunks from) Ht)
      by (rewrite os_chunks_merge; apply Permutation_app_comm).
    symmetry. set (secs1 := <[j:=merge to from]> secs).
    assert (Hi1 : secs1 !! i = Some from) by (subst secs1; by rewrite list_lookup_insert_ne).
    assert (E : secs1 = <[i:=from]> (<[i:=with_chunks [] from]> secs1))
      by (rewrite list_insert_insert_eq; by rewrite list_insert_id).
    rewrite E at 1.
    apply chunks_insert with (with_chunks [] from); [|by rewrite app_nil_r].
    apply list_lookup_insert_eq. by eapply lookup_lt_Some.
Qed.

(** Nothing is left in a section that /merge moved. *)
Definition emptied (secs : list osection) (k : string) : Prop :=
  forall s, s ∈ secs -> os_name s = k -> os_chunks s = [].

Abbreviation names_of := (map os_name).

Lemma names_insert secs i (s : osection) n :
  secs !! i = Some n -> names_of (<[i := s]> secs) = <[i := os_name s]> (names_of secs).
Proof. intros _. apply (list_fmap_insert os_name). Qed.

Lemma names_insert_same secs i (s t : osection) :
  secs !! i = Some s -> os_name t = os_name s -> names_of (<[i := t]> secs) = names_of secs.
Proof.
  intros Hi E. rewrite (names_insert _ _ _ _ Hi), E. apply list_insert_id. by apply (list_lookup_fmap_Some_2 os_name).
Qed.

Lemma elem_of_insert {A} (l : list A) i x y : y ∈ <[i := x]> l -> y = x \/ exists j, j <> i /\ l !! j = Some y.
Proof.
  intros (j & Hj)%list_elem_of_lookup. apply list_lookup_insert_Some in Hj as [(_ & ? & _)|[? ?]]; [by left|].
  right. exists j. by split.
Qed.

Lemma NoDup_rename (l : list string) i d : NoDup l -> d ∉ l -> NoDup (<[i := d]> l).
Proof.
  rewrite !NoDup_alt. intros H Hd a b x Ha Hb. apply list_lookup_insert_Some in Ha, Hb.
  destruct Ha as [(? & ? & ?)|[? Ha]], Hb as [(? & ? & ?)|[? Hb]]; subst; [done| | |by eapply H];
    destruct Hd; by eapply list_elem_of_lookup_2.
Qed.

Lemma name_unique secs i j (s t : osection) :
  NoDup (names_of secs) -> secs !! i = Some s -> secs !! j = Some t -> os_name s = os_name t -> i = j.
Proof.
  intros Hnd Hi Hj E. rewrite NoDup_alt in Hnd.
  apply (Hnd i j (os_name s)); [|rewrite E]; by apply (list_lookup_fmap_Some_2 os_name).
Qed.

Lemma mergeSection_empties cfg p secs secs' :
  p.1 ∈ keys (merge_ cfg) -> mergeSection cfg p secs = Some secs' -> NoDup (names_of secs) ->
  NoDup (names_of secs') /\ (p.1 <> p.2 -> emptied secs' p.1) /\
  forall k, k ∈ keys (merge_ cfg) -> emptied secs k -> emptied secs' k.
Proof.
  intros Hk [|d Hn Hd Hf| d i from Hn Hd Hf Ht|d i from j to Hn Hd Hf Ht]%mergeSection_result Hnd.
  - done.
  - split; [done|]. split; [|done]. intros _ s Hs E. destruct (find_section_None _ _ Hf). rewrite <- E.
    by apply (list_elem_of_fmap_2 os_name).
  - pose proof Hd as [_ Hkey]%getMergeDestination_spec. apply lookup_name_None in Hkey.
    apply find_section_Some in Hf as [Hf Ef]. apply find_section_None in Ht.
    split; [|split].
    + rewrite (names_insert _ _ _ _ Hf). by apply NoDup_rename.
    + intros _ s [->|(j & Hj & Hl)]%elem_of_insert E.
      * simpl in E. by subst d.
      * destruct Hj. eapply name_unique; [exact Hnd|exact Hl|exact Hf|congruence].
    + intros k Hkk H s [->|(j & Hj & Hl)]%elem_of_insert E.
      * simpl in E. by subst d.
      * apply (H s); [by eapply list_elem_of_lookup_2|done].
  - pose proof (merge_indices _ _ _ _ _ _ _ _ Hk Hd Hf Ht) as Hij.
    pose proof Hd as [_ Hkey]%getMergeDestination_spec. apply lookup_name_None in Hkey.
    apply find_section_Some in Hf as [Hf Ef]. apply find_section_Some in Ht as [Ht Et].
    assert (Hi1 : <[j:=merge to from]> secs !! i = Some from) by (by rewrite list_lookup_insert_ne).
    split; [|split].
    + rewrite (names_insert_same _ i from (with_chunks [] from) Hi1 eq_refl).
      by rewrite (names_insert_same _ _ _ _ Ht (os_name_merge to from)).
    + intros _ s [->|(l & Hl & Hs)]%elem_of_insert E; [done|].
      apply list_lookup_insert_Some in Hs as [(<- & <- & _)|[? Hs]].
      * rewrite os_name_merge in E. destruct Hkey. by rewrite <- Et, E.
      * destruct Hl. eapply name_unique; [exact Hnd|exact Hs|exact Hf|congruence].
    + intros k Hkk H s [->|(l & Hl & Hs)]%elem_of_insert E; [done|].
      apply list_lookup_insert_Some in Hs as [(<- & <- & _)|[? Hs]].
      * rewrite os_name_merge in E. destruct Hkey. by rewrite <- Et, E.
      * apply (H s); [by eapply list_elem_of_lookup_2|done].
Qed.

Lemma merge_all_spec cfg l secs secs' :
  Forall (fun p => p.1 ∈ keys (merge_ cfg)) l -> merge_all cfg l secs = Some secs' ->
  Permutation (chunks_of secs') (chunks_of secs) /\
  (NoDup (names_of secs) -> NoDup (names_of secs') /\
    Forall (fun p => p.1 <> p.2 -> emptied secs' p.1) l /\
    forall k, k ∈ keys (merge_ cfg) -> emptied secs k -> emptied secs' k).
Proof.
  intros Hl. revert secs. induction Hl as [|p l Hp Hl IH]; intros secs; simpl.
  - intros [= <-]. by split.
  - destruct (mergeSection cfg p secs) as [secs1|] eqn:E; simpl; [|done]. intros (P & Q)%IH.
    split; [rewrite P; by eapply mergeSection_chunks|].
    intros (N1 & E1 & K1)%(mergeSection_empties _ _ _ _ Hp E). destruct (Q N1) as (N2 & E2 & K2).
    split; [done|]. split; [|auto]. constructor; auto.
Qed.

(** MergeSections: every chunk of the link is in exactly one section
    afterwards; and when section names are distinct they stay distinct and every
    /merge source (but .bss, which waits for the end and stays apart from a shared
    section) is left without chunks, even when merges are chained. *)
Theorem mergeSections_spec (cfg : config) (secs secs' : list osection)
    (Hrun : mergeSections cfg secs = Some secs') :
  Permutation (chunks_of secs') (chunks_of secs) /\
  (NoDup (names_of secs) -> NoDup (names_of secs') /\
     Forall (fun p => p.1 <> ".bss" -> p.1 <> p.2 -> emptied secs' p.1) (merge_ cfg)).
Proof.
  unfold mergeSections in Hrun.
  set (l := List.filter (fun p => negb (String.eqb p.1 ".bss")) (merge_ cfg)) in *.
  destruct (merge_all cfg l secs) as [secs1|] eqn:E; simpl in Hrun; [|done].
  apply merge_all_spec in E as [P1 Q1].
  2:{ apply Forall_forall. intros p Hp. apply list_elem_of_In, filter_In in Hp as [Hp _].
      by apply (list_elem_of_fmap_2 fst), list_elem_of_In. }
  assert (Hfin : exists to, mergeSection cfg (".bss", to) secs1 = Some secs' /\ ".bss" ∈ keys (merge_ cfg) \/ secs1 = secs').
  { destruct (lookup_name ".bss" (merge_ cfg)) as [to|] eqn:Eb; [|exists ""; right; congruence].
    assert (Hk : ".bss" ∈ keys (merge_ cfg)).
    { destruct (decide (".bss" ∈ keys (merge_ cfg))) as [|Hn]; [done|]. apply lookup_name_None in Hn. congruence. }
    destruct (getMergeDestination cfg to) as [d|]; simpl in Hrun; [|done]. exists d.
    case_match; simplify_eq; by auto. }
  assert (Hpairs : NoDup (names_of secs) ->
    Forall (fun p => p.1 <> ".bss" -> p.1 <> p.2 -> emptied secs1 p.1) (merge_ cfg)).
  { intros (_ & Hall & _)%Q1. rewrite Forall_forall in Hall |- *. intros p Hp Hb. apply Hall.
    apply list_elem_of_In, filter_In. split; [by apply list_elem_of_In|].
    by destruct (String.eqb_spec p.1 ".bss"). }
  destruct Hfin as [to [[Hb Hk]| ->]]; [|split; [done|]; intros Hnd; split; [by apply Q1|auto]].
  split; [rewrite <- P1; exact (mergeSection_chunks cfg (".bss", to) _ _ Hk Hb)|]. intros Hnd.
  destruct (mergeSection_empties cfg (".bss", to) _ _ Hk Hb (proj1 (Q1 Hnd))) as (N & _ & K). split; [done|].
  specialize (Hpairs Hnd). rewrite Forall_forall in Hpairs |- *. intros p Hp H1 H2.
  apply K; [by apply (list_elem_of_fmap_2 fst)|]. by apply Hpairs.
Qed.

Definition demo_merge : config := mk_config [(".bss", ".data"); (".rdata", ".text"); (".xdata", ".rdata")].
Definition demo_merge_sections : list osection :=
  [mk_section ".text" 0x60000020 [mk_chunk 0 16 100 true]; mk_section ".rdata" 0x40000040 [mk_chunk 1 16 10 true];
   mk_section ".xdata" 0x40000040 [mk_chunk 2 4 8 true]; mk_section ".bss" 0xC0000080 [mk_chunk 3 4 800 false];
   mk_section ".data" 0xC0000040 [mk_chunk 4 4 8 true]].

Lemma mergeSections_spec_witness :
  exists secs', mergeSections demo_merge demo_merge_sections = Some secs' /\
    map (fun s => map c_id (os_chunks s)) secs' = [[0; 1; 2]; []; []; []; [4; 3]]%nat /\
    Permutation (chunks_of secs') (chunks_of demo_merge_sections).
Proof.
  eexists. split; [vm_compute; reflexivity|]. split; [by vm_compute|].
  refine (proj1 (mergeSections_spec demo_merge demo_merge_sections _ _)). vm_compute. reflexivity.
Defined.
