(* ===== verification/RangeThunks.v ===== *)
(** * Range extension thunks (lld/COFF/Writer.cpp)

    ARM and ARM64 branches reach a limited distance. [finalizeAddresses] lays
    the image out, adds thunks next to the branches that do not reach, and
    repeats with a wider margin until every branch does. The chunks are the ids
    of a heap; a thunk is a new chunk of it and a new symbol of the object file
    whose relocation is redirected. *)

From S2P Require Import Prelude Memory Reloc SectionChunk Thunks Layout.

#[local] Open Scope list_scope.
#[local] Open Scope Z_scope.

(** ** Data *)

Inductive MachineTypes := ARMNT | ARM64 | ARM64EC | ARM64X | OtherMachine.

Definition isAnyArm64 (m : MachineTypes) : bool :=
  match m with ARM64 | ARM64EC | ARM64X => true | _ => false end.

(** A defined symbol: an offset in a chunk, or (without one) an RVA. *)
Record symbol_def := { sd_chunk : option nat; sd_value : Z }.

Inductive chunk_kind :=
  | KSection (machine : MachineTypes) (file : nat) (originalRelocs : list coff_relocation)
  | KThunk (machine : MachineTypes) (target : symbol_def)
  | KImportEC (helper : symbol_def)
  | KOther.

(** [b_chunk] is the chunk as [assignAddresses] sees it. *)
Record body := { b_kind : chunk_kind; b_chunk : lchunk }.

Record heap := {
  bodies : list body;
  rva_ : nat -> Z;
  extended_ : nat -> bool;
  relocs_ : gmap nat (list coff_relocation);      (* setRelocs *)
  symbols_ : list (list (option symbol_def))       (* ObjFile::symbols, by file *)
}.

Definition set_rva (f : nat -> Z) (h : heap) : heap :=
  {| bodies := bodies h; rva_ := f; extended_ := extended_ h; relocs_ := relocs_ h; symbols_ := symbols_ h |}.
Definition set_extended (c : nat) (h : heap) : heap :=
  {| bodies := bodies h; rva_ := rva_ h; extended_ := fun i => if (i =? c)%nat then true else extended_ h i;
     relocs_ := relocs_ h; symbols_ := symbols_ h |}.
Definition setRelocs (c : nat) (l : list coff_relocation) (h : heap) : heap :=
  {| bodies := bodies h; rva_ := rva_ h; extended_ := extended_ h; relocs_ := <[c := l]> (relocs_ h);
     symbols_ := symbols_ h |}.

Definition getRVA (h : heap) (d : symbol_def) : Z :=
  match sd_chunk d with Some c => rva_ h c + sd_value d | None => sd_value d end.

Definition getSymbol (h : heap) (file i : nat) : option symbol_def :=
  match symbols_ h !! file with Some l => mjoin (l !! i) | None => None end.

(** [addRangeThunkSymbol]: the new index, and the file with the symbol. *)
Definition addRangeThunkSymbol (file : nat) (d : symbol_def) (h : heap) : nat * heap :=
  let l := default [] (symbols_ h !! file) in
  (length l,
   {| bodies := bodies h; rva_ := rva_ h; extended_ := extended_ h; relocs_ := relocs_ h;
      symbols_ := <[file := l ++ [Some d]]> (symbols_ h) |}).

(** ** Ranges *)

Definition isInRange (relType s p margin : Z) (machine : MachineTypes) : bool :=
  match machine with
  | ARMNT =>
      let diff := Z.abs (s - (p + 4)) + margin in
      if relType =? IMAGE_REL_ARM_BRANCH20T then isInt 21 diff
      else if (relType =? IMAGE_REL_ARM_BRANCH24T) || (relType =? IMAGE_REL_ARM_BLX23T) then isInt 25 diff
      else true
  | ARM64 | ARM64EC | ARM64X =>
      let diff := Z.abs (s - p) + margin in
      if relType =? IMAGE_REL_ARM64_BRANCH26 then isInt 28 diff
      else if relType =? IMAGE_REL_ARM64_BRANCH19 then isInt 21 diff
      else if relType =? IMAGE_REL_ARM64_BRANCH14 then isInt 16 diff
      else true
  | OtherMachine => true
  end.

(** ** Thunks *)

Definition thunk_size (machine : MachineTypes) : Z :=
  match machine with ARMNT => Z.of_nat (length armThunk) | _ => Z.of_nat (length arm64Thunk) end.
Definition thunk_align (machine : MachineTypes) : Z := match machine with ARMNT => 2 | _ => 4 end.

(** [getArm64ECRangeType] of code of that machine. *)
Definition range_type (machine : MachineTypes) : option Z :=
  match machine with ARM64EC => Some 1 | _ => Some 0 end.

(** The chunk [make<RangeExtensionThunk...>(target)]. *)
Definition thunk_body (machine : MachineTypes) (target : symbol_def) : body :=
  {| b_kind := KThunk machine target;
     b_chunk := {| c_id := 0; c_align := thunk_align machine; c_size := thunk_size machine; c_hasData := true;
       c_isSection := false; c_hotPatchable := false; c_entryThunk := false; c_amd64 := false;
       c_range := range_type machine; c_object := EmptyString; c_sectionNumber := 0 |} |}.

Definition new_chunk (b : body) (h : heap) : nat * heap :=
  (length (bodies h),
   {| bodies := bodies h ++ [b]; rva_ := rva_ h; extended_ := extended_ h; relocs_ := relocs_ h;
      symbols_ := symbols_ h |}).

Definition thunk_symbol (t : nat) : symbol_def := {| sd_chunk := Some t; sd_value := 0 |}.

(** [getThunk]: the thunk (by its chunk), whether it is new, the map and heap. *)
Definition getThunk (lastThunks : gmap Z nat) (target : symbol_def) (p type margin : Z)
    (machine : MachineTypes) (h : heap) : nat * bool * gmap Z nat * heap :=
  let fresh :=
    let '(t, h') := new_chunk (thunk_body machine target) h in
    (t, true, <[getRVA h target := t]> lastThunks, h') in
  match lastThunks !! getRVA h target with
  | Some t => if isInRange type (getRVA h (thunk_symbol t)) p margin machine
              then (t, false, lastThunks, h) else fresh
  | None => fresh
  end.

(** ** createThunks *)

Record ct_state := {
  ct_heap : heap;
  lastThunks : gmap Z nat;
  thunkSymtabIndices : gmap (nat * nat) nat;
  thunksSize : Z;
  addressesChanged : bool
}.

(** What the loop over one section's relocations keeps besides. *)
Record rel_state := {
  rs_ct : ct_state;
  inserted : list nat;
  thunkInsertionRVA : Z;
  relocReplacements : list (nat * nat)
}.

Definition relocate_step (margin : Z) (c file : nat) (machine : MachineTypes) (st : rel_state)
    (jr : nat * coff_relocation) : rel_state :=
  let '(j, rel) := jr in
  let ct := rs_ct st in
  let h := ct_heap ct in
  let p := rva_ h c + VirtualAddress rel + thunksSize ct in
  match getSymbol h file (SymbolTableIndex rel) with
  | None => st
  | Some sym =>
      if isInRange (Type_ rel) (getRVA h sym) p margin machine then st
      else
        let '(t, wasNew, last, h) := getThunk (lastThunks ct) sym p (Type_ rel) margin machine h in
        let size := thunk_size machine in
        let h := if wasNew then set_rva (fun i => if (i =? t)%nat then thunkInsertionRVA st else rva_ h i) h
                 else h in
        let '(idx, indices, h) :=
          match thunkSymtabIndices ct !! (file, t) with
          | Some idx => (idx, thunkSymtabIndices ct, h)
          | None =>
              let '(idx, h) := addRangeThunkSymbol file (thunk_symbol t) h in
              (idx, <[(file, t) := idx]> (thunkSymtabIndices ct), h)
          end in
        {| rs_ct := {| ct_heap := h; lastThunks := last; thunkSymtabIndices := indices;
                       thunksSize := if wasNew then thunksSize ct + size else thunksSize ct;
                       addressesChanged := wasNew || addressesChanged ct |};
           inserted := if wasNew then inserted st ++ [t] else inserted st;
           thunkInsertionRVA := if wasNew then thunkInsertionRVA st + size else thunkInsertionRVA st;
           relocReplacements := relocReplacements st ++ [(j, idx)] |}
  end.

Definition with_index (i : nat) (r : coff_relocation) : coff_relocation :=
  {| VirtualAddress := VirtualAddress r; SymbolTableIndex := i; Type_ := Type_ r |}.

(** The copy with the replacements, which are in order of their indices. *)
Fixpoint copy_relocs (i : nat) (rels : list coff_relocation) (repl : list (nat * nat))
    : list coff_relocation :=
  match rels with
  | [] => []
  | r :: rels =>
      match repl with
      | (j, idx) :: repl' =>
          if (j =? i)%nat then with_index idx r :: copy_relocs (S i) rels repl'
          else r :: copy_relocs (S i) rels repl
      | [] => r :: copy_relocs (S i) rels []
      end
  end.

Definition on_heap (f : heap -> heap) (ct : ct_state) : ct_state :=
  {| ct_heap := f (ct_heap ct); lastThunks := lastThunks ct; thunkSymtabIndices := thunkSymtabIndices ct;
     thunksSize := thunksSize ct; addressesChanged := addressesChanged ct |}.

Definition getSize (h : heap) (c : nat) (b : body) : Z :=
  match b_kind b with
  | KImportEC _ => ImportThunkChunkARM64EC_getSize (extended_ h c)
  | _ => c_size (b_chunk b)
  end.

(** One turn of the loop over [os->chunks]: the chunks inserted after [c]. *)
Definition visitChunk (margin : Z) (ct : ct_state) (c : nat) : ct_state * list nat :=
  let h := ct_heap ct in
  match bodies h !! c with
  | None => (ct, [])
  | Some b =>
      match b_kind b with
      | KSection machine file rels =>
          let st := fold_left (relocate_step margin c file machine) (combine (seq 0 (length rels)) rels)
            {| rs_ct := ct; inserted := []; thunkInsertionRVA := rva_ h c + getSize h c b + thunksSize ct;
               relocReplacements := [] |} in
          (on_heap (setRelocs c (copy_relocs 0 rels (relocReplacements st))) (rs_ct st), inserted st)
      | KImportEC helper =>
          let '(size, _) := ImportThunkChunkARM64EC_extendRanges (getRVA h helper) (rva_ h c) (extended_ h c) in
          if size =? 0 then (ct, [])
          else ({| ct_heap := set_extended c h; lastThunks := lastThunks ct;
                   thunkSymtabIndices := thunkSymtabIndices ct; thunksSize := thunksSize ct + size;
                   addressesChanged := true |}, [])
      | KThunk _ _ | KOther => (ct, [])
      end
  end.

(** The inserted thunks would be visited next; [extendRanges] of a thunk is 0,
    so the loop goes on with the rest. *)
Fixpoint visitChunks (margin : Z) (ct : ct_state) (chunks : list nat) : ct_state * list nat :=
  match chunks with
  | [] => (ct, [])
  | c :: chunks =>
      let '(ct, ins) := visitChunk margin ct c in
      let '(ct, l) := visitChunks margin ct chunks in
      (ct, c :: ins ++ l)
  end.

Definition createThunks (margin : Z) (chunks : list nat) (h : heap) : bool * list nat * heap :=
  let '(ct, l) := visitChunks margin
    {| ct_heap := h; lastThunks := ∅; thunkSymtabIndices := ∅; thunksSize := 0; addressesChanged := false |} chunks in
  (addressesChanged ct, l, ct_heap ct).

(** ** verifyRanges *)

Definition getRelocs (h : heap) (c : nat) (originalRelocs : list coff_relocation) : list coff_relocation :=
  default originalRelocs (relocs_ h !! c).

Definition verify_reloc (h : heap) (c file : nat) (machine : MachineTypes) (rel : coff_relocation) : bool :=
  match getSymbol h file (SymbolTableIndex rel) with
  | None => true
  | Some sym => isInRange (Type_ rel) (getRVA h sym) (rva_ h c + VirtualAddress rel) 0 machine
  end.

Definition verify_chunk (h : heap) (c : nat) : bool :=
  match bodies h !! c with
  | Some b =>
      match b_kind b with
      | KSection machine file rels => forallb (verify_reloc h c file machine) (getRelocs h c rels)
      | KImportEC helper =>
          ImportThunkChunkARM64EC_verifyRanges (getRVA h helper) (rva_ h c) (extended_ h c)
      | KThunk _ _ | KOther => true
      end
  | None => true
  end.

Definition verifyRanges (h : heap) (chunks : list nat) : bool := forallb (verify_chunk h) chunks.

(** ** finalizeAddresses *)

(** The chunk as the layout sees it now. *)
Definition chunk_of (h : heap) (c : nat) : option lchunk :=
  b ← bodies h !! c;
  let l := b_chunk b in
  Some {| c_id := c; c_align := c_align l; c_size := getSize h c b; c_hasData := c_hasData l;
          c_isSection := c_isSection l; c_hotPatchable := c_hotPatchable l; c_entryThunk := c_entryThunk l;
          c_amd64 := c_amd64 l; c_range := c_range l; c_object := c_object l;
          c_sectionNumber := c_sectionNumber l |}.

Inductive outcome (A : Type) :=
  | Done (a : A)
  | NotConverged (passes : nat)   (* Fatal *)
  | OutOfFuel.
Arguments Done {A}. Arguments NotConverged {A}. Arguments OutOfFuel {A}.

Section Finalize.
  Context (cfg : config) (relocChunks : heap -> list (lchunk * Z) -> list lchunk).

(** [assignAddresses] on the heap; an output section is its header and chunks. *)
Definition assign_heap (secs : list (osection * list nat)) (h : heap) : heap :=
  let L := (assignAddresses cfg (relocChunks h)
    (map (fun '(s, l) => with_chunks (omap (chunk_of h) l) s) secs)).1 in
  set_rva (fun c => match List.find (fun '(l, _) => (c_id l =? c)%nat) (l_rvas L) with
                    | Some (_, a) => a
                    | None => rva_ h c
                    end) h.

Fixpoint createThunks_all (margin : Z) (secs : list (osection * list nat)) (h : heap)
    : bool * list (osection * list nat) * heap :=
  match secs with
  | [] => (false, [], h)
  | (s, l) :: secs =>
      let '(changed, l', h) := createThunks margin l h in
      let '(changed', secs', h) := createThunks_all margin secs h in
      (changed || changed', (s, l') :: secs', h)
  end.

(** The loop; [orig] is [origChunks]. *)
Fixpoint finalize_loop (fuel pass : nat) (margin : Z) (orig secs : list (osection * list nat)) (h : heap)
    : outcome (list (osection * list nat) * heap) :=
  match fuel with
  | O => OutOfFuel
  | S fuel =>
      if forallb (fun s => verifyRanges h s.2) secs then Done (secs, h)
      else if (10 <=? pass)%nat then NotConverged pass
      else
        let '(secs, margin) := if (0 <? pass)%nat then (orig, margin * 2) else (secs, margin) in
        let '(_, secs, h) := createThunks_all margin secs h in
        finalize_loop fuel (S pass) margin orig secs (assign_heap secs h)
  end.

Definition finalizeAddresses (machine : MachineTypes) (secs : list (osection * list nat)) (h : heap)
    : outcome (list (osection * list nat) * heap) :=
  let h := assign_heap secs h in
  match machine with
  | OtherMachine => Done (secs, h)
  | _ => finalize_loop 11 0 (1024 * 100) secs secs h
  end.

End Finalize.
