(* ===== verification/RangeThunksProps.v ===== *)
(** * What range extension thunks guarantee (theorems on RangeThunks.v)

    Branches that pass the range check are encoded without a diagnostic;
    createThunks keeps the order of the chunks and redirects a relocation only to
    a thunk for the same address; finalizeAddresses ends, with every branch in
    range. *)

From S2P Require Import Prelude Memory Reloc SectionChunk Thunks Layout RangeThunks.

#[local] Open Scope list_scope.
#[local] Open Scope Z_scope.

(** ** The range check and the encoders *)

Definition is_branch (machine : MachineTypes) (type : Z) : bool :=
  match machine with
  | ARMNT => (type =? IMAGE_REL_ARM_BRANCH20T) || (type =? IMAGE_REL_ARM_BRANCH24T) || (type =? IMAGE_REL_ARM_BLX23T)
  | ARM64 | ARM64EC | ARM64X =>
      (type =? IMAGE_REL_ARM64_BRANCH26) || (type =? IMAGE_REL_ARM64_BRANCH19) || (type =? IMAGE_REL_ARM64_BRANCH14)
  | OtherMachine => false
  end.

(** [applyRelARM] and [applyRelARM64] by the machine. *)
Definition apply_branch (machine : MachineTypes) (sec : reloc_ctx) (off type : Z) (os : option OutputSection)
    (s p imageBase : Z) (st : rstate) : rstate :=
  match machine with
  | ARMNT => applyRelARM sec off type os s p imageBase st
  | ARM64 | ARM64EC | ARM64X => applyRelARM64 sec off type os s p imageBase st
  | OtherMachine => st
  end.

Lemma isInt_abs n d margin : 0 <= margin -> isInt n (Z.abs d + margin) = true -> isInt n d = true.
Proof. unfold isInt. rewrite !andb_true_iff, !Z.leb_le, !Z.ltb_lt. lia. Qed.

Lemma s32_small v : - 2 ^ 31 <= v < 2 ^ 31 -> s32 v = v.
Proof. intros. by apply sext_unique. Qed.
Lemma s64_small v : - 2 ^ 63 <= v < 2 ^ 63 -> s64 v = v.
Proof. intros. by apply sext_unique. Qed.

Lemma branch20T_errs off v st : isInt 21 v = true -> errs (applyBranch20T off v st) = errs st.
Proof.
  intros H. unfold applyBranch20T. rewrite s32_small, H; [done|].
  revert H. unfold isInt. rewrite andb_true_iff, Z.leb_le, Z.ltb_lt. lia.
Qed.
Lemma branch24T_errs off v st : isInt 25 v = true -> errs (applyBranch24T off v st) = errs st.
Proof.
  intros H. unfold applyBranch24T. rewrite s32_small, H; [done|].
  revert H. unfold isInt. rewrite andb_true_iff, Z.leb_le, Z.ltb_lt. lia.
Qed.

(** The Thumb bit of the target keeps the branch in range. *)
Lemma thumb_bit n s p :
  0 < n -> p mod 2 = 0 -> isInt (n + 1) (s - (p + 4)) = true -> isInt (n + 1) ((s ||| 1) - p - 4) = true.
Proof.
  intros Hn Hp. unfold isInt. rewrite !andb_true_iff, !Z.leb_le, !Z.ltb_lt. replace (n + 1 - 1) with n by lia.
  assert (H2 : 2 ^ n = 2 * 2 ^ (n - 1)) by (rewrite <- Z.pow_succ_r by lia; f_equal; lia).
  assert (E : s ||| 1 = 2 * (s / 2) + 1).
  { pose proof (Z.div_mod s 2 ltac:(lia)) as Hd. pose proof (Z.mod_pos_bound s 2 ltac:(lia)) as Hm.
    assert (Es : s = ((s / 2) <<< 1) ||| (s mod 2)) by (rewrite shl_or_add; unfold word_ok; lia).
    rewrite Es at 1. rewrite <- Z.lor_assoc.
    replace (s mod 2 ||| 1) with 1 by (assert (s mod 2 = 0 \/ s mod 2 = 1) as [-> | ->] by lia; done).
    rewrite shl_or_add; unfold word_ok; lia. }
  rewrite E. apply Z.mod_divide in Hp as [k ->]; [|done].
  pose proof (Z.div_mod s 2 ltac:(lia)). pose proof (Z.mod_pos_bound s 2 ltac:(lia)). lia.
Qed.

Lemma isInRange_no_error machine sec off type os s p imageBase margin st :
  0 <= margin -> word_ok 32 s -> word_ok 32 p -> (machine = ARMNT -> p mod 2 = 0) ->
  is_branch machine type = true -> isInRange type s p margin machine = true ->
  errs (apply_branch machine sec off type os s p imageBase st) = errs st.
Proof.
  intros Hm Hs Hp Heven Hb Hr. unfold word_ok in *.
  assert (H64 : s64 (s - p) = s - p) by (apply s64_small; lia).
  destruct machine; [|idtac..|done]; cbn [is_branch isInRange apply_branch] in *.
  1:{ specialize (Heven eq_refl). unfold applyRelARM.
      set (sx := match os with Some _ => _ | None => _ end).
      assert (Hsx : forall n, 0 < n -> isInt (n + 1) (s - (p + 4)) = true -> isInt (n + 1) (sx - p - 4) = true).
      { intros n Hn H. subst sx. destruct os as [o|]; [destruct (_ =? 0)|]; [|by apply thumb_bit|];
          by replace (s - p - 4) with (s - (p + 4)) by lia. }
      rewrite !orb_true_iff, !Z.eqb_eq in Hb; destruct Hb as [[-> | ->] | ->]; cbn in Hr;
        apply isInt_abs in Hr; try done.
      - change (errs (applyBranch20T off (sx - p - 4) st) = errs st). by apply branch20T_errs, (Hsx 20).
      - change (errs (applyBranch24T off (sx - p - 4) st) = errs st). by apply branch24T_errs, (Hsx 24).
      - change (errs (applyBranch24T off (sx - p - 4) st) = errs st). by apply branch24T_errs, (Hsx 24). }
  all: rewrite !orb_true_iff, !Z.eqb_eq in Hb; destruct Hb as [[-> | ->] | ->]; cbn in Hr;
    apply isInt_abs in Hr; try done.
  all: lazymatch type of Hr with
    | isInt 28 _ = _ => change (errs (applyArm64Branch26 off (s - p) st) = errs st)
    | isInt 21 _ = _ => change (errs (applyArm64Branch19 off (s - p) st) = errs st)
    | isInt 16 _ = _ => change (errs (applyArm64Branch14 off (s - p) st) = errs st)
    end.
  all: unfold applyArm64Branch26, applyArm64Branch19, applyArm64Branch14; by rewrite H64, Hr.
Qed.

(** ** The heap grows *)

(** New chunks and symbols are added at the end; the chunks there were keep
    their addresses. *)
Record grows (h h' : heap) : Prop := {
  gr_bodies : bodies h `prefix_of` bodies h';
  gr_rva : forall i, (i < length (bodies h))%nat -> rva_ h' i = rva_ h i;
  gr_files : length (symbols_ h') = length (symbols_ h);
  gr_symbols : forall f l, symbols_ h !! f = Some l -> exists l', symbols_ h' !! f = Some l' /\ l `prefix_of` l'
}.

#[export] Instance grows_preorder : PreOrder grows.
Proof.
  split.
  - intros h. split; [done|done|done|]. intros f l H. by exists l.
  - intros h1 h2 h3 [B1 R1 F1 S1] [B2 R2 F2 S2]. split; [by trans (bodies h2)| |congruence|].
    + intros i Hi. rewrite R2, R1; [done|done|]. apply prefix_length in B1. lia.
    + intros f l (l2 & E2 & P2)%S1. apply S2 in E2 as (l3 & E3 & P3). exists l3. split; [done|]. by trans l2.
Qed.

Lemma grows_same h h' :
  bodies h' = bodies h -> rva_ h' = rva_ h -> symbols_ h' = symbols_ h -> grows h h'.
Proof. intros Eb Er Es. split; rewrite ?Eb, ?Er, ?Es; [done|done|done|]. intros f l H. by exists l. Qed.

Lemma grows_body h h' c b : grows h h' -> bodies h !! c = Some b -> bodies h' !! c = Some b.
Proof. intros [B _ _ _] H. by eapply prefix_lookup_Some. Qed.

Lemma grows_symbol h h' f i d : grows h h' -> getSymbol h f i = Some d -> getSymbol h' f i = Some d.
Proof.
  intros [_ _ _ S]. unfold getSymbol. destruct (symbols_ h !! f) as [l|] eqn:E; [|done].
  destruct (S _ _ E) as (l' & -> & P). destruct (l !! i) as [o|] eqn:Ei; [|done]. intros H.
  by rewrite (prefix_lookup_Some _ _ _ _ Ei P).
Qed.

(** ** Well-formed inputs *)

Definition sym_ok (h : heap) (d : symbol_def) : Prop :=
  match sd_chunk d with Some c => (c < length (bodies h))%nat | None => True end.

Definition index_ok (h : heap) (f i : nat) : Prop :=
  exists l, symbols_ h !! f = Some l /\ (i < length l)%nat.

(** Every symbol is in a chunk of the heap, and relocations have symbols. *)
Record heap_ok (h : heap) : Prop := {
  ho_symbols : forall f i d, getSymbol h f i = Some d -> sym_ok h d;
  ho_relocs : forall c b m f rels, bodies h !! c = Some b -> b_kind b = KSection m f rels ->
    Forall (fun r => index_ok h f (SymbolTableIndex r)) rels
}.

Lemma grows_getRVA h h' d : grows h h' -> sym_ok h d -> getRVA h' d = getRVA h d.
Proof. intros [_ R _ _]. unfold getRVA, sym_ok. destruct (sd_chunk d) as [c|]; [|done]. intros H. by rewrite R. Qed.

Lemma grows_getSymbol h h' f i : grows h h' -> index_ok h f i -> getSymbol h' f i = getSymbol h f i.
Proof.
  intros [_ _ _ S] (l & E & Hi). unfold getSymbol. rewrite E. destruct (S _ _ E) as (l' & -> & P).
  apply lookup_lt_is_Some in Hi as [o Ho]. by rewrite Ho, (prefix_lookup_Some _ _ _ _ Ho P).
Qed.

(** ** The invariant of createThunks *)

Section Create.
Context (h0 : heap) (Hok : heap_ok h0).
Abbreviation n0 := (length (bodies h0)).

(** Chunk [t] is a thunk made here that goes to the address [a]. *)
Definition thunk_to (h : heap) (t : nat) (a : Z) : Prop :=
  (n0 <= t)%nat /\ exists m target, bodies h !! t = Some (thunk_body m target) /\
    sym_ok h0 target /\ getRVA h0 target = a.

Record ct_inv (ct : ct_state) : Prop := {
  ci_grows : grows h0 (ct_heap ct);
  ci_last : forall a t, lastThunks ct !! a = Some t -> thunk_to (ct_heap ct) t a;
  ci_index : forall f t i, thunkSymtabIndices ct !! (f, t) = Some i ->
    getSymbol (ct_heap ct) f i = Some (thunk_symbol t);
  ci_size : 0 <= thunksSize ct
}.

Lemma thunk_to_grows h h' t a : grows h h' -> thunk_to h t a -> thunk_to h' t a.
Proof. intros Hg (? & m & d & Hb & ?). split; [done|]. exists m, d. split; [by eapply grows_body|done]. Qed.

Lemma new_chunk_grows b h t h' v :
  new_chunk b h = (t, h') ->
  t = length (bodies h) /\ grows h (set_rva (fun i => if (i =? t)%nat then v else rva_ h' i) h') /\
  bodies h' !! t = Some b.
Proof.
  intros [= <- <-]. split; [done|]. split; [|by apply list_lookup_middle].
  split; cbn; [by eexists| |done|intros f l H; by exists l].
  intros i Hi. by rewrite (proj2 (Nat.eqb_neq _ _)) by lia.
Qed.

Lemma getThunk_spec last sym p type margin m h t new last' h' v :
  getThunk last sym p type margin m h = (t, new, last', h') ->
  grows h0 h -> sym_ok h0 sym ->
  (forall a t, last !! a = Some t -> thunk_to h t a) ->
  let h2 := if new then set_rva (fun i => if (i =? t)%nat then v else rva_ h' i) h' else h' in
  grows h h2 /\ thunk_to h2 t (getRVA h0 sym) /\
  (forall a t, last' !! a = Some t -> thunk_to h2 t a).
Proof.
  intros Hget Hg Hs Hl. pose proof (grows_getRVA _ _ _ Hg Hs) as Er.
  assert (Hfresh : forall t new last' h',
    (let '(t, h') := new_chunk (thunk_body m sym) h in (t, true, <[getRVA h sym := t]> last, h')) = (t, new, last', h') ->
    let h2 := if new then set_rva (fun i => if (i =? t)%nat then v else rva_ h' i) h' else h' in
    grows h h2 /\ thunk_to h2 t (getRVA h0 sym) /\ (forall a t, last' !! a = Some t -> thunk_to h2 t a)).
  { clear Hget. intros t1 new1 last1 h1. destruct (new_chunk (thunk_body m sym) h) as [t2 h2] eqn:En.
    intros [= <- <- <- <-]. destruct (new_chunk_grows _ _ _ _ v En) as (Et & Hg2 & Hb). cbv zeta.
    assert (Ht : thunk_to (set_rva (fun i => if (i =? t2)%nat then v else rva_ h2 i) h2) t2 (getRVA h0 sym)).
    { split; [subst t2; pose proof (prefix_length _ _ (gr_bodies _ _ Hg)); lia|]. by exists m, sym. }
    split; [done|]. split; [done|]. rewrite Er. intros a t3 [[<- <-]|[Hne Hlk]]%lookup_insert_Some; [done|].
    eapply thunk_to_grows; [exact Hg2|by apply Hl]. }
  unfold getThunk in Hget. destruct (last !! getRVA h sym) as [t1|] eqn:E; [|by apply Hfresh].
  destruct (isInRange _ _ _ _ _); [|by apply Hfresh].
  injection Hget as <- <- <- <-. cbv zeta. split; [done|]. split; [rewrite <- Er; by apply Hl|done].
Qed.

Lemma addRangeThunkSymbol_spec f d h idx h' l :
  symbols_ h !! f = Some l -> addRangeThunkSymbol f d h = (idx, h') ->
  grows h h' /\ getSymbol h' f idx = Some d.
Proof.
  intros Hl. unfold addRangeThunkSymbol. rewrite Hl. intros [= <- <-]. cbn. split.
  - split; cbn; [done|done|by rewrite length_insert|]. intros f' l' H'.
    destruct (decide (f = f')) as [<-|].
    + exists (l ++ [Some d]). rewrite list_lookup_insert_eq by (by eapply lookup_lt_Some).
      split; [done|]. simplify_eq. by eexists.
    + exists l'. by rewrite list_lookup_insert_ne.
  - unfold getSymbol. cbn. rewrite list_lookup_insert_eq by (by eapply lookup_lt_Some).
    by rewrite list_lookup_middle.
Qed.

(** What becomes of one relocation. *)
Inductive redirected (h : heap) (f c : nat) (machine : MachineTypes) (margin : Z) (rel rel' : coff_relocation)
    : Prop :=
  | KeptUndefined : rel' = rel -> getSymbol h0 f (SymbolTableIndex rel) = None ->
      redirected h f c machine margin rel rel'
  | KeptInRange sym tsz : rel' = rel -> getSymbol h0 f (SymbolTableIndex rel) = Some sym -> 0 <= tsz ->
      isInRange (Type_ rel) (getRVA h0 sym) (rva_ h0 c + VirtualAddress rel + tsz) margin machine = true ->
      redirected h f c machine margin rel rel'
  | ToThunk sym i t : rel' = with_index i rel -> getSymbol h0 f (SymbolTableIndex rel) = Some sym ->
      getSymbol h f i = Some (thunk_symbol t) -> thunk_to h t (getRVA h0 sym) ->
      redirected h f c machine margin rel rel'.

Lemma redirected_grows h h' f c machine margin rel rel' :
  grows h h' -> redirected h f c machine margin rel rel' -> redirected h' f c machine margin rel rel'.
Proof.
  intros Hg [? ?|sym tsz ? ? ? ?|sym i t ? ? Hs Ht].
  - by apply KeptUndefined.
  - by eapply KeptInRange.
  - eapply ToThunk; [done|done|by eapply grows_symbol|by eapply thunk_to_grows].
Qed.

Abbreviation heap_of := (fun st => ct_heap (rs_ct st)).

Record step_spec (f c : nat) (machine : MachineTypes) (margin : Z) (j : nat) (rel : coff_relocation)
    (st st' : rel_state) : Prop := {
  ss_inv : ct_inv (rs_ct st');
  ss_grows : grows (heap_of st) (heap_of st');
  ss_inserted : exists ins, inserted st' = inserted st ++ ins /\ Forall (fun t => (n0 <= t)%nat) ins;
  ss_rel : (relocReplacements st' = relocReplacements st /\ redirected (heap_of st') f c machine margin rel rel) \/
    (exists i, relocReplacements st' = relocReplacements st ++ [(j, i)] /\
               redirected (heap_of st') f c machine margin rel (with_index i rel))
}.

(** The symbol index of thunk [t] in the file, entered when it is new. *)
Lemma thunk_index_spec (indices : gmap (nat * nat) nat) f t h l :
  symbols_ h !! f = Some l ->
  (forall f t i, indices !! (f, t) = Some i -> getSymbol h f i = Some (thunk_symbol t)) ->
  let '(idx, indices', h') :=
    match indices !! (f, t) with
    | Some idx => (idx, indices, h)
    | None => let '(idx, h) := addRangeThunkSymbol f (thunk_symbol t) h in (idx, <[(f, t) := idx]> indices, h)
    end in
  grows h h' /\ getSymbol h' f idx = Some (thunk_symbol t) /\
  (forall f t i, indices' !! (f, t) = Some i -> getSymbol h' f i = Some (thunk_symbol t)).
Proof.
  intros Hl Hidx. destruct (indices !! (f, t)) as [idx|] eqn:E; [split; [done|]; split; [by apply Hidx|done]|].
  destruct (addRangeThunkSymbol f (thunk_symbol t) h) as [idx h'] eqn:Ea.
  destruct (addRangeThunkSymbol_spec _ _ _ _ _ _ Hl Ea) as [Hg Hs]. split; [done|]. split; [done|].
  intros f' t' i [[[= <- <-] <-]|[Hne Hlk]]%lookup_insert_Some; [done|]. apply (grows_symbol h); [done|]. by apply Hidx.
Qed.

Lemma relocate_step_spec margin c f machine st j rel :
  ct_inv (rs_ct st) -> index_ok h0 f (SymbolTableIndex rel) -> (c < n0)%nat ->
  step_spec f c machine margin j rel st (relocate_step margin c f machine st (j, rel)).
Proof.
  intros Hinv Hidx Hc. pose proof Hinv as [Hg Hlast Hind Hsize]. destruct st as [[h last indices tsz ch] ins tir repl].
  cbn in Hg, Hlast, Hind, Hsize. unfold relocate_step. cbn [rs_ct ct_heap lastThunks thunkSymtabIndices thunksSize].
  rewrite (grows_getSymbol _ _ _ _ Hg Hidx).
  destruct (getSymbol h0 f (SymbolTableIndex rel)) as [sym|] eqn:Esym.
  2:{ split; [done|done|exists []; by rewrite app_nil_r|]. left. split; [done|]. by apply KeptUndefined. }
  pose proof (ho_symbols _ Hok _ _ _ Esym) as Hsym.
  rewrite (grows_getRVA _ _ _ Hg Hsym), (gr_rva _ _ Hg c Hc).
  destruct (isInRange _ _ _ _ _) eqn:Er.
  { split; [done|done|exists []; by rewrite app_nil_r|]. left. split; [done|]. by eapply KeptInRange. }
  destruct (getThunk _ _ _ _ _ _ _) as [[[t new] last'] h'] eqn:Eget.
  destruct (getThunk_spec _ _ _ _ _ _ _ _ _ _ _ tir Eget Hg Hsym Hlast) as (Hg2 & Ht & Hlast2).
  set (h2 := if new then _ else h') in *.
  destruct Hidx as (l & El & _). destruct (gr_symbols _ _ (transitivity Hg Hg2) _ _ El) as (l' & El' & _).
  pose proof (thunk_index_spec indices f t h2 l' El') as Hi.
  destruct (match indices !! (f, t) with Some _ => _ | None => _ end) as [[idx indices'] h3].
  destruct Hi as (Hg3 & Hs3 & Hind3).
  { intros f' t' i H. eapply grows_symbol; [exact Hg2|by apply Hind]. }
  split; cbn.
  - split; cbn; [by trans h2; [trans h|]| |done|].
    + intros a t' H. eapply thunk_to_grows; [exact Hg3|by apply Hlast2].
    + assert (0 <= thunk_size machine) by (by destruct machine). destruct new; lia.
  - by trans h2.
  - exists (if new then [t] else []). split; [destruct new; [done|by rewrite app_nil_r]|].
    destruct new; constructor; [|done]. by destruct Ht.
  - right. exists idx. split; [done|]. eapply ToThunk; [done|done|done|by eapply thunk_to_grows].
Qed.

Lemma copy_relocs_skip i rels repl :
  Forall (fun x => (i < x.1)%nat) repl -> forall r, copy_relocs i (r :: rels) repl = r :: copy_relocs (S i) rels repl.
Proof.
  intros H r. simpl. destruct H as [|[j idx] repl Hj H]; [done|]. simpl in Hj.
  by rewrite (proj2 (Nat.eqb_neq _ _)) by lia.
Qed.

(** The loop over one section's relocations. *)
Lemma relocate_fold_spec margin c f machine rels i st :
  ct_inv (rs_ct st) -> Forall (fun r => index_ok h0 f (SymbolTableIndex r)) rels -> (c < n0)%nat ->
  let st' := fold_left (relocate_step margin c f machine) (combine (seq i (length rels)) rels) st in
  ct_inv (rs_ct st') /\ grows (heap_of st) (heap_of st') /\
  (exists ins, inserted st' = inserted st ++ ins /\ Forall (fun t => (n0 <= t)%nat) ins) /\
  exists repl, relocReplacements st' = relocReplacements st ++ repl /\
    Forall (fun x => (i <= x.1)%nat) repl /\
    Forall2 (redirected (heap_of st') f c machine margin) rels (copy_relocs i rels repl).
Proof.
  revert i st. induction rels as [|r rels IH]; intros i st Hinv Hidx Hc; cbn zeta.
  - split; [done|]. split; [done|]. split; [exists []; by rewrite app_nil_r|].
    exists []. rewrite app_nil_r. by repeat constructor.
  - apply Forall_cons in Hidx as [Hr Hidx]. cbn [length seq combine fold_left].
    destruct (relocate_step_spec margin c f machine st i r Hinv Hr Hc) as [Hinv1 Hg1 (ins1 & E1 & F1) Hrel].
    set (st1 := relocate_step margin c f machine st (i, r)) in *.
    destruct (IH (S i) st1 Hinv1 Hidx Hc) as (Hinv2 & Hg2 & (ins2 & E2 & F2) & repl & Er & Fr & Hall).
    split; [done|]. split; [by trans (heap_of st1)|].
    split; [exists (ins1 ++ ins2); rewrite E2, E1, app_assoc; split; [done|by apply Forall_app]|].
    destruct Hrel as [[Erel Hrel]|(idx & Erel & Hrel)].
    + exists repl. rewrite Er, Erel. split; [done|]. split; [eapply Forall_impl; [exact Fr|cbn; lia]|].
      rewrite copy_relocs_skip by (eapply Forall_impl; [exact Fr|cbn; lia]).
      constructor; [by eapply redirected_grows|done].
    + exists ((i, idx) :: repl). rewrite Er, Erel, <- app_assoc. split; [done|].
      split; [constructor; [cbn; lia|]; eapply Forall_impl; [exact Fr|cbn; lia]|].
      cbn [copy_relocs]. rewrite Nat.eqb_refl. constructor; [by eapply redirected_grows|done].
Qed.

Lemma relocate_step_relocs margin c f machine st x :
  relocs_ (heap_of (relocate_step margin c f machine st x)) = relocs_ (heap_of st).
Proof.
  destruct x as [j rel]. unfold relocate_step. destruct (getSymbol _ _ _) as [sym|]; [|done].
  destruct (isInRange _ _ _ _ _); [done|].
  destruct (getThunk _ _ _ _ _ _ _) as [[[t new] last'] h'] eqn:E.
  assert (relocs_ h' = relocs_ (heap_of st)).
  { revert E. unfold getThunk, new_chunk. repeat case_match; intros [= <- <- <- <-]; done. }
  destruct (thunkSymtabIndices _ !! _) as [idx|]; cbn; by destruct new.
Qed.

Lemma relocate_fold_relocs margin c f machine l st :
  relocs_ (heap_of (fold_left (relocate_step margin c f machine) l st)) = relocs_ (heap_of st).
Proof. revert st. induction l as [|x l IH]; intros st; [done|]. cbn [fold_left]. by rewrite IH, relocate_step_relocs. Qed.

(** Chunk [c] was dealt with. *)
Definition chunk_done (margin : Z) (h : heap) (c : nat) : Prop :=
  forall b m f rels, bodies h0 !! c = Some b -> b_kind b = KSection m f rels ->
    Forall2 (redirected h f c m margin) rels (getRelocs h c rels).

Lemma chunk_done_grows margin h h' c :
  grows h h' -> relocs_ h' !! c = relocs_ h !! c -> chunk_done margin h c -> chunk_done margin h' c.
Proof.
  intros Hg Er H b m f rels Hb Hk. specialize (H b m f rels Hb Hk). unfold getRelocs in *. rewrite Er.
  eapply Forall2_impl; [exact H|]. intros x y. by apply redirected_grows.
Qed.

Record visit_ok (margin : Z) (ct : ct_state) (c : nat) (ct' : ct_state) (ins : list nat) : Prop := {
  vo_inv : ct_inv ct';
  vo_grows : grows (ct_heap ct) (ct_heap ct');
  vo_inserted : Forall (fun t => (n0 <= t)%nat) ins;
  vo_other : forall c', c' <> c -> relocs_ (ct_heap ct') !! c' = relocs_ (ct_heap ct) !! c';
  vo_done : chunk_done margin (ct_heap ct') c
}.

Lemma visit_spec margin ct c :
  ct_inv ct -> (c < n0)%nat -> visit_ok margin ct c (visitChunk margin ct c).1 (visitChunk margin ct c).2.
Proof.
  intros Hinv Hc. pose proof Hinv as [Hg Hl Hi Hs].
  destruct (lookup_lt_is_Some_2 _ _ Hc) as [b Hb]. pose proof (grows_body _ _ _ _ Hg Hb) as Hb'.
  unfold visitChunk. rewrite Hb'. destruct (b_kind b) as [m f rels|m d|helper|] eqn:Ek.
  2,4: split; [done|done|constructor|done|]; intros b' m' f' rels' Hb2 Hk2; simplify_eq; congruence.
  - set (st0 := {| rs_ct := ct; inserted := []; thunkInsertionRVA := _; relocReplacements := [] |}).
    destruct (relocate_fold_spec margin c f m rels 0 st0 Hinv (ho_relocs _ Hok _ _ _ _ _ Hb Ek) Hc)
      as (Hinv' & Hg' & (ins & E1 & F1) & repl & E2 & _ & Hall).
    pose proof (relocate_fold_relocs margin c f m (combine (seq 0 (length rels)) rels) st0) as Erel.
    set (st := fold_left _ _ st0) in *. cbn in E1, E2. rewrite E1, E2. cbn [fst snd].
    set (h' := setRelocs c (copy_relocs 0 rels repl) (heap_of st)).
    assert (Hgh : grows (heap_of st) h') by (by apply grows_same).
    split; cbn [on_heap ct_heap lastThunks thunkSymtabIndices thunksSize].
    + destruct Hinv' as [G1 G2 G3 G4]. split; cbn; [by trans (heap_of st)| |done|done].
      intros a t H. eapply thunk_to_grows; [exact Hgh|by apply G2].
    + by trans (heap_of st).
    + done.
    + intros c' Hne. cbn. rewrite lookup_insert_ne by done. by rewrite Erel.
    + intros b' m' f' rels' Hb2 Hk2. rewrite Hb in Hb2. injection Hb2 as <-. rewrite Ek in Hk2. injection Hk2 as <- <- <-.
      unfold getRelocs. cbn. rewrite lookup_insert_eq. cbn.
      eapply Forall2_impl; [exact Hall|]. intros x y. by apply redirected_grows.
  - assert (Hno : chunk_done margin (ct_heap ct) c).
    { intros b' m' f' rels' Hb2 Hk2. simplify_eq. congruence. }
    unfold ImportThunkChunkARM64EC_extendRanges. destruct (_ || _); [by split|].
    change (Z.of_nat (length arm64Thunk) - 4) with 8. cbn [Z.eqb fst snd].
    assert (Hge : grows (ct_heap ct) (set_extended c (ct_heap ct))) by (by apply grows_same).
    split; cbn [ct_heap]; [|done|constructor|done|by eapply chunk_done_grows].
    split; cbn [ct_heap lastThunks thunkSymtabIndices thunksSize]; [by trans (ct_heap ct)| |done|lia].
    intros a t H. eapply thunk_to_grows; [exact Hge|by apply Hl].
Qed.

Lemma visit_all_spec margin ct chunks :
  ct_inv ct -> Forall (fun c => (c < n0)%nat) chunks ->
  let '(ct', l) := visitChunks margin ct chunks in
  ct_inv ct' /\ grows (ct_heap ct) (ct_heap ct') /\
  List.filter (fun c => (c <? n0)%nat) l = chunks /\
  (forall c, c ∉ chunks -> relocs_ (ct_heap ct') !! c = relocs_ (ct_heap ct) !! c) /\
  (forall c, c ∈ chunks -> chunk_done margin (ct_heap ct') c).
Proof.
  revert ct. induction chunks as [|c chunks IH]; intros ct Hinv Hall; cbn [visitChunks].
  { do 4 (split; [done|]). by intros c ?%elem_of_nil. }
  apply Forall_cons in Hall as [Hc Hall].
  destruct (visit_spec margin ct c Hinv Hc) as [Hinv1 Hg1 Hins Hoth Hdone].
  destruct (visitChunk margin ct c) as [ct1 ins]. cbn [fst snd] in *. specialize (IH ct1 Hinv1 Hall).
  destruct (visitChunks margin ct1 chunks) as [ct2 l]. destruct IH as (Hinv2 & Hg2 & Hf & Hr & Hd).
  split; [done|]. split; [by trans (ct_heap ct1)|]. split; [|split].
  - cbn [List.filter]. rewrite (proj2 (Nat.ltb_lt c n0) Hc). f_equal. rewrite List.filter_app, Hf.
    assert (E : List.filter (fun c => (c <? n0)%nat) ins = []); [|by rewrite E].
    clear -Hins. induction Hins as [|t ins Ht _ IH]; [done|]. cbn [List.filter]. by rewrite (proj2 (Nat.ltb_ge t n0) Ht).
  - intros c' [Hne Hni]%not_elem_of_cons. by rewrite Hr, Hoth.
  - intros c' [->|Hin]%elem_of_cons; [|by apply Hd].
    destruct (decide (c ∈ chunks)) as [Hin|Hni]; [by apply Hd|].
    eapply chunk_done_grows; [exact Hg2|by apply Hr|done].
Qed.
End Create.

(** CreateThunks keeps the chunks and their order and only adds thunks;
    afterwards each relocation of each section is as in the object file, with an
    undefined symbol or in range with the margin (for the estimate of its place),
    or is redirected to a symbol of the file that is a thunk chunk for a target
    at the address of its own target. Chunks keep their addresses, and symbols
    and chunks that were there are untouched. *)
Theorem createThunks_redirects (h : heap) (margin : Z) (chunks : list nat)
    (Hok : heap_ok h) (Hchunks : Forall (fun c => (c < length (bodies h))%nat) chunks) :
  let '(_, chunks', h') := createThunks margin chunks h in
  grows h h' /\
  List.filter (fun c => (c <? length (bodies h))%nat) chunks' = chunks /\
  forall c b m f rels, c ∈ chunks -> bodies h !! c = Some b -> b_kind b = KSection m f rels ->
    Forall2 (redirected h h' f c m margin) rels (getRelocs h' c rels).
Proof.
  unfold createThunks. set (ct := {| ct_heap := h; lastThunks := ∅; thunkSymtabIndices := ∅; thunksSize := 0; addressesChanged := false |}).
  assert (Hinv : ct_inv h ct).
  { split; cbn; [done| | |done]; intros *; by rewrite lookup_empty. }
  pose proof (visit_all_spec h Hok margin ct chunks Hinv Hchunks) as H.
  destruct (visitChunks margin ct chunks) as [ct' l]. destruct H as (_ & Hg & Hf & _ & Hd).
  split; [done|]. split; [done|]. intros c b m f rels Hin. exact (Hd c Hin b m f rels).
Qed.

(** ** finalizeAddresses *)

Section Order.
Context (n0 : nat).

(** Only fresh chunks are inserted. *)
Definition fresh_only (st st' : rel_state) : Prop :=
  (length (bodies (ct_heap (rs_ct st))) <= length (bodies (ct_heap (rs_ct st'))))%nat /\
  exists ins, inserted st' = inserted st ++ ins /\ Forall (fun t => (n0 <= t)%nat) ins.

Lemma relocate_step_fresh margin c f m st x :
  (n0 <= length (bodies (ct_heap (rs_ct st))))%nat -> fresh_only st (relocate_step margin c f m st x).
Proof.
  intros Hn. assert (Hsame : fresh_only st st) by (split; [done|exists []; by rewrite app_nil_r]).
  destruct x as [j rel]. unfold relocate_step. destruct (getSymbol _ _ _) as [sym|]; [|done].
  destruct (isInRange _ _ _ _ _); [done|].
  destruct (getThunk _ _ _ _ _ _ _) as [[[t new] last'] h'] eqn:E.
  assert (Hb : (length (bodies (ct_heap (rs_ct st))) <= length (bodies h'))%nat /\ (new = true -> (n0 <= t)%nat)).
  { revert E. unfold getThunk, new_chunk. repeat case_match; intros [= <- <- <- <-]; split; try done; cbn;
      rewrite ?length_app; lia. }
  destruct Hb as [Hb Ht]. unfold fresh_only, addRangeThunkSymbol.
  destruct (thunkSymtabIndices _ !! _); cbn; (destruct new; (split; [done|]));
    [exists [t]|exists []|exists [t]|exists []]; (split; [by rewrite ?app_nil_r|by auto]).
Qed.

Lemma relocate_fold_fresh margin c f m l st :
  (n0 <= length (bodies (ct_heap (rs_ct st))))%nat ->
  fresh_only st (fold_left (relocate_step margin c f m) l st).
Proof.
  revert st. induction l as [|x l IH]; intros st Hn; cbn [fold_left].
  - split; [done|exists []; by rewrite app_nil_r].
  - destruct (relocate_step_fresh margin c f m st x Hn) as [H1 (i1 & E1 & F1)].
    destruct (IH (relocate_step margin c f m st x)) as [H2 (i2 & E2 & F2)]; [lia|].
    split; [lia|]. exists (i1 ++ i2). rewrite E2, E1, app_assoc. split; [done|by apply Forall_app].
Qed.

Lemma visit_fresh margin ct c :
  (n0 <= length (bodies (ct_heap ct)))%nat ->
  (n0 <= length (bodies (ct_heap (visitChunk margin ct c).1)))%nat /\ Forall (fun t => (n0 <= t)%nat) (visitChunk margin ct c).2.
Proof.
  intros Hn. unfold visitChunk. destruct (bodies (ct_heap ct) !! c) as [b|]; [|by split].
  destruct (b_kind b) as [m f rels|m d|helper|]; [|by split| |by split].
  - match goal with |- context [fold_left _ _ ?s] => set (st0 := s) end.
    destruct (relocate_fold_fresh margin c f m (combine (seq 0 (length rels)) rels) st0 Hn) as [H (ins & E & F)].
    cbn in *. rewrite E. split; [lia|done].
  - destruct (ImportThunkChunkARM64EC_extendRanges _ _ _) as [size e]. by destruct (size =? 0).
Qed.

Abbreviation originals := (List.filter (fun c => (c <? n0)%nat)).

Lemma visit_all_order margin ct chunks :
  (n0 <= length (bodies (ct_heap ct)))%nat -> Forall (fun c => (c < n0)%nat) chunks ->
  let '(ct', l) := visitChunks margin ct chunks in
  (n0 <= length (bodies (ct_heap ct')))%nat /\ originals l = chunks.
Proof.
  revert ct. induction chunks as [|c chunks IH]; intros ct Hn Hall; cbn [visitChunks]; [done|].
  apply Forall_cons in Hall as [Hc Hall]. destruct (visit_fresh margin ct c Hn) as [Hn1 Hins].
  destruct (visitChunk margin ct c) as [ct1 ins]. specialize (IH ct1 Hn1 Hall).
  destruct (visitChunks margin ct1 chunks) as [ct2 l]. destruct IH as [Hn2 Hl]. split; [done|].
  cbn [List.filter]. rewrite (proj2 (Nat.ltb_lt c n0) Hc). f_equal. rewrite List.filter_app, Hl.
  assert (E : originals ins = []); [|by rewrite E].
  cbn [snd] in Hins. clear -Hins. induction Hins as [|t ins Ht _ IH]; [done|].
  cbn [List.filter]. by rewrite (proj2 (Nat.ltb_ge t n0) Ht).
Qed.

Definition same_chunks (s s' : osection * list nat) : Prop := s'.1 = s.1 /\ originals s'.2 = originals s.2.

Lemma originals_id l : Forall (fun c => (c < n0)%nat) l -> originals l = l.
Proof. induction 1 as [|c l Hc _ IH]; [done|]. cbn [List.filter]. by rewrite (proj2 (Nat.ltb_lt c n0) Hc), IH. Qed.

Lemma createThunks_all_order margin secs h :
  (n0 <= length (bodies h))%nat -> Forall (fun s => Forall (fun c => (c < n0)%nat) s.2) secs ->
  let '(_, secs', h') := createThunks_all margin secs h in
  (n0 <= length (bodies h'))%nat /\ Forall2 same_chunks secs secs'.
Proof.
  revert h. induction secs as [|[s l] secs IH]; intros h Hn Hall; cbn [createThunks_all]; [by split|].
  apply Forall_cons in Hall as [Hl Hall]. cbn in Hl. unfold createThunks.
  match goal with |- context [visitChunks _ ?s _] => pose proof (visit_all_order margin s l Hn Hl) as H end.
  destruct (visitChunks _ _ _) as [ct l']. destruct H as [Hn1 E]. specialize (IH (ct_heap ct) Hn1 Hall).
  destruct (createThunks_all _ _ _) as [[ch secs'] h']. destruct IH as [Hn2 Hsecs].
  split; [done|]. constructor; [|done]. split; [done|]. cbn [fst snd]. by rewrite E, originals_id.
Qed.

(** The loop: what holds when it ends, and that it ends. *)
Lemma finalize_loop_spec cfg rc fuel pass margin orig secs h :
  (pass + fuel = 11)%nat -> (n0 <= length (bodies h))%nat ->
  Forall (fun s => Forall (fun c => (c < n0)%nat) s.2) orig -> (pass = 0%nat -> secs = orig) ->
  Forall2 same_chunks orig secs ->
  match finalize_loop cfg rc fuel pass margin orig secs h with
  | Done (secs', h') => Forall2 same_chunks orig secs' /\ Forall (fun s => verifyRanges h' s.2 = true) secs'
  | NotConverged passes => passes = 10%nat
  | OutOfFuel => pass = 11%nat
  end.
Proof.
  revert pass margin secs h. induction fuel as [|fuel IH]; intros pass margin secs h Hf Hn Ho H0 Hs; [cbn; lia|].
  cbn [finalize_loop]. destruct (forallb _ secs) eqn:Ev.
  { split; [done|]. apply Forall_forall. intros s Hin. rewrite forallb_forall in Ev. by apply Ev, list_elem_of_In. }
  destruct (Nat.leb_spec 10 pass); [lia|].
  assert (Esel : exists mg, (if (0 <? pass)%nat then (orig, margin * 2) else (secs, margin)) = (orig, mg)).
  { destruct (Nat.ltb_spec 0 pass); [by eexists|]. exists margin. by rewrite H0 by lia. }
  destruct Esel as [mg ->]. pose proof (createThunks_all_order mg orig h Hn Ho) as H1.
  destruct (createThunks_all mg orig h) as [[ch secs1] h1]. destruct H1 as [Hn1 Hs1].
  specialize (IH (S pass) mg secs1 (assign_heap cfg rc secs1 h1) ltac:(lia) Hn1 Ho ltac:(done) Hs1).
  destruct (finalize_loop _ _ _ _ _ _ _ _) as [[secs2 h2]| |]; [done|done|lia].
Qed.
End Order.

(** C39: finalizeAddresses ends within ten passes: it returns or reports that it
    has not converged after ten; and what it returns are the sections it was
    given, with their chunks in order and only thunks added. *)
Theorem finalizeAddresses_terminates (cfg : config) (rc : heap -> list (lchunk * Z) -> list lchunk)
    (machine : MachineTypes) (secs : list (osection * list nat)) (h : heap)
    (Hsecs : Forall (fun s => Forall (fun c => (c < length (bodies h))%nat) s.2) secs) :
  match finalizeAddresses cfg rc machine secs h with
  | Done (secs', _) => Forall2 (same_chunks (length (bodies h))) secs secs'
  | NotConverged passes => passes = 10%nat
  | OutOfFuel => False
  end.
Proof.
  assert (Hrefl : Forall2 (same_chunks (length (bodies h))) secs secs) by (by apply Forall_Forall2_diag, Forall_true).
  unfold finalizeAddresses. destruct machine; [| | | |done].
  all: match goal with |- context [finalize_loop ?c ?r ?fu ?pa ?m ?o ?s ?h1] =>
    pose proof (finalize_loop_spec (length (bodies h)) c r fu pa m o s h1 eq_refl ltac:(done) Hsecs ltac:(done) Hrefl) as H;
    destruct (finalize_loop c r fu pa m o s h1) as [[secs' h']|p|]; [by destruct H|done|done] end.
Qed.

(** C9: When finalizeAddresses returns on an ARM or ARM64 link, every branch
    relocation that the sections of the image then have is encoded without an
    out-of-range diagnostic at the addresses assigned. *)
Theorem finalizeAddresses_in_range (cfg : config) (rc : heap -> list (lchunk * Z) -> list lchunk)
    (machine m : MachineTypes) (secs secs' : list (osection * list nat)) (h h' : heap)
    (c f : nat) (b : body) (l : list nat) (s : osection) (rels : list coff_relocation)
    (rel : coff_relocation) (sym : symbol_def)
    (Hsecs : Forall (fun s => Forall (fun c => (c < length (bodies h))%nat) s.2) secs)
    (Hmachine : machine <> OtherMachine)
    (Hdone : finalizeAddresses cfg rc machine secs h = Done (secs', h'))
    (Hsec : (s, l) ∈ secs') (Hc : c ∈ l) (Hb : bodies h' !! c = Some b) (Hk : b_kind b = KSection m f rels)
    (Hrel : rel ∈ getRelocs h' c rels) (Hsym : RangeThunks.getSymbol h' f (SymbolTableIndex rel) = Some sym)
    (Hbranch : is_branch m (Type_ rel) = true)
    (Hs32 : word_ok 32 (getRVA h' sym)) (Hp32 : word_ok 32 (rva_ h' c + VirtualAddress rel))
    (Heven : m = ARMNT -> (rva_ h' c + VirtualAddress rel) mod 2 = 0) :
  forall sec off os imageBase st,
    errs (apply_branch m sec off (Type_ rel) os (getRVA h' sym) (rva_ h' c + VirtualAddress rel) imageBase st)
    = errs st.
Proof.
  assert (Hv : verifyRanges h' l = true).
  { assert (Hrefl : Forall2 (same_chunks (length (bodies h))) secs secs) by (by apply Forall_Forall2_diag, Forall_true).
    assert (Hall : Forall (fun s => verifyRanges h' s.2 = true) secs'); [|rewrite Forall_forall in Hall; exact (Hall _ Hsec)].
    unfold finalizeAddresses in Hdone. destruct machine; [| | | |done].
    all: match type of Hdone with finalize_loop ?c ?r ?fu ?pa ?m ?o ?s ?h1 = _ =>
      pose proof (finalize_loop_spec (length (bodies h)) c r fu pa m o s h1 eq_refl ltac:(done) Hsecs ltac:(done) Hrefl) as H;
      rewrite Hdone in H; by destruct H end. }
  unfold verifyRanges in Hv. rewrite forallb_forall in Hv. specialize (Hv c (proj1 (list_elem_of_In _ _) Hc)).
  unfold verify_chunk in Hv. rewrite Hb, Hk, forallb_forall in Hv.
  specialize (Hv rel (proj1 (list_elem_of_In _ _) Hrel)). unfold verify_reloc in Hv. rewrite Hsym in Hv.
  intros. by apply isInRange_no_error with 0.
Qed.

(** ** An image with a branch that does not reach *)

Definition demo_chunk (al size : Z) (sec : bool) : lchunk :=
  {| c_id := 0; c_align := al; c_size := size; c_hasData := true; c_isSection := sec; c_hotPatchable := false;
     c_entryThunk := false; c_amd64 := false; c_range := Some 0; c_object := EmptyString; c_sectionNumber := 1 |}.
Definition demo_config : config :=
  {| fileAlign := 512; align := 4096; is64 := true; isEC := false; functionPadMin := 0; dosStubSize := 120;
     merge_ := []; sectionAttrs := []; sectionOrder := [] |}.
Definition demo_rel (i : nat) : coff_relocation :=
  {| VirtualAddress := 4; SymbolTableIndex := i; Type_ := IMAGE_REL_ARM64_BRANCH26 |}.

(** A caller, 256 MiB of other code, and the function called. *)
Definition demo_heap : heap :=
  {| bodies := [ {| b_kind := KSection ARM64 0 [demo_rel 0; demo_rel 1]; b_chunk := demo_chunk 4 16 true |};
                 {| b_kind := KOther; b_chunk := demo_chunk 16 0x10000000 false |};
                 {| b_kind := KSection ARM64 0 []; b_chunk := demo_chunk 4 8 true |} ];
     rva_ := fun _ => 0; extended_ := fun _ => false; relocs_ := ∅;
     symbols_ := [[Some {| sd_chunk := Some 2%nat; sd_value := 4 |}; None]] |}.
Definition demo_secs : list (osection * list nat) :=
  [({| os_name := String.EmptyString; os_Characteristics := 0x60000020; os_isReloc := false; os_chunks := [];
       VirtualAddress_ := 0; VirtualSize := 0; SizeOfRawData_ := 0; PointerToRawData := 0 |}, [0; 1; 2]%nat)].

Definition demo_run := finalizeAddresses demo_config (fun _ _ => []) ARM64 demo_secs demo_heap.

Lemma finalizeAddresses_terminates_witness :
  exists secs' h', demo_run = Done (secs', h') /\ map snd secs' = [[0; 3; 1; 2]%nat] /\
    Forall2 (same_chunks 3) demo_secs secs'.
Proof.
  unfold demo_run. pose proof (finalizeAddresses_terminates demo_config (fun _ _ => []) ARM64 demo_secs demo_heap) as H.
  assert (E : exists secs' h', finalizeAddresses demo_config (fun _ _ => []) ARM64 demo_secs demo_heap = Done (secs', h') /\
    map snd secs' = [[0; 3; 1; 2]%nat]) by (eexists; eexists; split; vm_compute; reflexivity).
  destruct E as (secs' & h' & E & Es). rewrite E in H. exists secs', h'. split; [done|]. split; [done|].
  apply H. repeat constructor; vm_compute; lia.
Defined.

Lemma createThunks_redirects_witness :
  heap_ok demo_heap /\
  let h := assign_heap demo_config (fun _ _ => []) demo_secs demo_heap in
  exists chunks' h', createThunks 102400 [0; 1; 2]%nat h = (true, chunks', h') /\ chunks' = [0; 3; 1; 2]%nat /\
    map SymbolTableIndex (getRelocs h' 0 []) = [2; 1]%nat /\ grows h h'.
Proof.
  assert (Hok : forall f, heap_ok (set_rva f demo_heap)).
  { intros g. split.
    - intros f i d. unfold RangeThunks.getSymbol. destruct f as [|f]; [|by destruct f]. destruct i as [|[|i]]; cbn; [|done..].
      intros [= <-]. cbn. lia.
    - intros c b m f rels. destruct c as [|[|[|c]]]; cbn; intros [= <-]; [|done|]; intros [= <- <- <-]; [|constructor].
      repeat constructor; eexists; (split; [reflexivity|cbn; lia]). }
  split; [exact (Hok (fun _ => 0))|]. cbv zeta.
  set (h := assign_heap demo_config (fun _ _ => []) demo_secs demo_heap).
  pose proof (createThunks_redirects h 102400 [0; 1; 2]%nat) as H.
  destruct (createThunks 102400 [0; 1; 2]%nat h) as [[ch l] h'] eqn:E.
  assert (Ev : (fst (fst (createThunks 102400 [0; 1; 2]%nat h)), snd (fst (createThunks 102400 [0; 1; 2]%nat h)),
    map SymbolTableIndex (getRelocs (snd (createThunks 102400 [0; 1; 2]%nat h)) 0 [])) = (true, [0; 3; 1; 2], [2; 1])%nat)
    by (vm_compute; reflexivity).
  rewrite E in Ev. injection Ev as -> -> Er. exists [0; 3; 1; 2]%nat, h'.
  split; [done|]. split; [done|]. split; [done|]. apply H; [exact (Hok _)|]. repeat constructor; vm_compute; lia.
Defined.

Lemma finalizeAddresses_in_range_witness :
  exists secs' h', demo_run = Done (secs', h') /\
    rva_ h' 2 - rva_ h' 0 > 2 ^ 27 /\
    forall off st, errs (apply_branch ARM64 {| isCodeView := false; numOutputSections := 1 |} off
      IMAGE_REL_ARM64_BRANCH26 None (rva_ h' 3 + 0) (rva_ h' 0 + 4) 0 st) = errs st.
Proof.
  assert (E : exists secs' h', demo_run = Done (secs', h') /\ map snd secs' = [[0; 3; 1; 2]%nat] /\
    (rva_ h' 0, rva_ h' 2, rva_ h' 3) = (0x1000, 0x10001020, 0x1010) /\
    (exists b, bodies h' !! 0%nat = Some b /\ b_kind b = KSection ARM64 0 [demo_rel 0; demo_rel 1] /\
       with_index 2 (demo_rel 0) ∈ getRelocs h' 0 [demo_rel 0; demo_rel 1]) /\
    RangeThunks.getSymbol h' 0 2 = Some (thunk_symbol 3)).
  { eexists. eexists. split; [vm_compute; reflexivity|]. split; [vm_compute; reflexivity|].
    split; [vm_compute; reflexivity|]. split; [|vm_compute; reflexivity].
    eexists. split; [reflexivity|]. split; [reflexivity|]. vm_compute. apply list_elem_of_here. }
  destruct E as (secs' & h' & E & Es & Er & (b & Hb & Hk & Hin) & Hs). injection Er as Er0 Er2 Er3.
  exists secs', h'. split; [done|]. split; [rewrite Er0, Er2; lia|]. intros off st.
  destruct secs' as [|[s l] [|]]; [done| |done]. injection Es as ->.
  refine (finalizeAddresses_in_range demo_config (fun _ _ => []) ARM64 ARM64 demo_secs _ demo_heap h' 0 0 b
    [0; 3; 1; 2]%nat s _ (with_index 2 (demo_rel 0)) (thunk_symbol 3) _ _ E _ _ Hb Hk Hin Hs _ _ _ _ _ off None 0 st).
  - repeat constructor; vm_compute; lia.
  - done.
  - apply list_elem_of_here.
  - apply list_elem_of_here.
  - vm_compute. reflexivity.
  - unfold getRVA. cbn [thunk_symbol sd_chunk sd_value]. rewrite Er3. split; vm_compute; done.
  - rewrite Er0. split; vm_compute; done.
  - done.
Defined.
