(* ===== verification/SymbolTable.v ===== *)
(** * The symbol table (lld/COFF/SymbolTable.cpp, Symbols.h, Symbols.cpp)

    One symbol per name, replaced in place as files are parsed: [add*] decide
    between what is there and what comes. Symbols are known by reference:
    [Global n] for the symbol the table has for the name [n] (it never binds a
    name anew), [Local i] for a symbol of one file. What the operations do
    outside of the table, and what they report, goes to a log. Loading a lazy
    object parses it at once, as the last thing the operation does: its symbols
    are the operations that follow. *)

From S2P Require Import Prelude.

#[local] Open Scope string_scope.
#[local] Open Scope list_scope.
#[local] Open Scope Z_scope.

(** ** Data *)

Inductive sref := Global (n : string) | Local (i : nat).

#[export] Instance sref_eq_dec : EqDecision sref.
Proof. solve_decision. Defined.

#[export] Instance sref_countable : Countable sref.
Proof.
  refine (inj_countable' (fun r => match r with Global n => inl n | Local i => inr i end)
            (fun s => match s with inl n => Global n | inr i => Local i end) _).
  by intros [].
Qed.

(** A symbol of an archive's index: the member that has it. *)
Record archive_symbol := { as_name : string; as_childOffset : Z }.

Inductive kind :=
  | Undefined (weakAlias : option sref)
  | LazyArchive (file : nat) (sym : archive_symbol)
  | LazyObject (file : nat)
  | LazyDLLSymbol (file : nat) (symbolName : string)
  | DefinedRegular (file : option nat) (isCOMDAT : bool) (chunk : option nat) (value : Z)
  | DefinedCommon (file : option nat) (size : Z)
  | DefinedAbsolute (va : Z)
  | DefinedSynthetic (chunk : option nat)
  | DefinedImportData (file : nat)
  | DefinedImportThunk (wrappedSym : sref)
  | DefinedLocalImport (target : sref).

Record symbol := {
  s_kind : kind;
  isUsedInRegularObj : bool;
  pendingArchiveLoad : bool;
  isGCRoot : bool;
  isRuntimePseudoReloc : bool;
  deferUndefined : bool;
  canInline : bool;
  isWeak : bool;
  isAntiDep : bool
}.

Inductive event :=
  | EnqueueArchiveMember (file : nat) (childOffset : Z)
  | AddFile (file : nat)
  | MakeImport (file : nat) (symbolName : string)
  | ReportDuplicate (existing : sref) (newFile : option nat)
  | UnexpectedImport (sym imp : sref)
  | LoadLazy (sym : sref)
  | ReportUndefinedRoot (sym : sref)
  | ReportUndefined (sym : sref)
  | LocalImported (sym imp : sref).

Inductive machine := I386 | AMD64 | ARMNT | ARM64 | ARM64EC.

Record st_config := {
  st_machine : machine;
  hybridEC : bool;              (* isArm64EC(ctx.config.machine) *)
  wordsize : Z;
  stdcallFixup : bool;
  autoImport : bool;
  forceUnresolved : bool;
  allowDuplicateWeak : bool;
  warnLocallyDefinedImported : bool
}.

(** What is read of a section chunk: its size, and the targets of its relocations. *)
Record chunk_info := { ch_isSection : bool; ch_size : Z; ch_relocs : list sref; ch_live : bool }.

Record symtab := {
  symMap : gmap string symbol;
  locals : gmap nat symbol;
  lazyFiles : gset nat;                     (* InputFile::lazy *)
  archiveSeen : gset (nat * Z);             (* ArchiveFile::seen *)
  dllSeen : gset (nat * string);            (* DLLFile::seen *)
  chunks : gmap nat chunk_info;
  gcroot : list sref;
  expSymbols : list string;
  log : list event
}.

Definition with_symMap (m : gmap string symbol) (T : symtab) : symtab :=
  {| symMap := m; locals := locals T; lazyFiles := lazyFiles T; archiveSeen := archiveSeen T;
     dllSeen := dllSeen T; chunks := chunks T; gcroot := gcroot T; expSymbols := expSymbols T; log := log T |}.
Definition with_locals (m : gmap nat symbol) (T : symtab) : symtab :=
  {| symMap := symMap T; locals := m; lazyFiles := lazyFiles T; archiveSeen := archiveSeen T;
     dllSeen := dllSeen T; chunks := chunks T; gcroot := gcroot T; expSymbols := expSymbols T; log := log T |}.
Definition emit (e : event) (T : symtab) : symtab :=
  {| symMap := symMap T; locals := locals T; lazyFiles := lazyFiles T; archiveSeen := archiveSeen T;
     dllSeen := dllSeen T; chunks := chunks T; gcroot := gcroot T; expSymbols := expSymbols T;
     log := log T ++ [e] |}.

Definition deref (T : symtab) (r : sref) : option symbol :=
  match r with Global n => symMap T !! n | Local i => locals T !! i end.
Definition store (r : sref) (s : symbol) (T : symtab) : symtab :=
  match r with
  | Global n => with_symMap (<[n := s]> (symMap T)) T
  | Local i => with_locals (<[i := s]> (locals T)) T
  end.
Definition modify (r : sref) (f : symbol -> symbol) (T : symtab) : symtab :=
  match deref T r with Some s => store r (f s) T | None => T end.

Definition isUndefined (k : kind) : bool := match k with Undefined _ => true | _ => false end.
Definition isLazy (k : kind) : bool :=
  match k with LazyArchive _ _ | LazyObject _ | LazyDLLSymbol _ _ => true | _ => false end.
Definition isDefined (k : kind) : bool := negb (isUndefined k || isLazy k).
Definition isRegular (k : kind) : bool := match k with DefinedRegular _ _ _ _ => true | _ => false end.
Definition isCOFF (k : kind) : bool :=
  match k with DefinedRegular _ _ _ _ | DefinedCommon _ _ => true | _ => false end.

(** ** Weak aliases *)

Definition weakAliasOf (s : symbol) : option sref :=
  match s_kind s with Undefined a => a | _ => None end.

Definition with_kind (k : kind) (s : symbol) : symbol :=
  {| s_kind := k; isUsedInRegularObj := isUsedInRegularObj s; pendingArchiveLoad := pendingArchiveLoad s;
     isGCRoot := isGCRoot s; isRuntimePseudoReloc := isRuntimePseudoReloc s; deferUndefined := deferUndefined s;
     canInline := canInline s; isWeak := isWeak s; isAntiDep := isAntiDep s |}.
Definition with_antiDep (b : bool) (s : symbol) : symbol :=
  {| s_kind := s_kind s; isUsedInRegularObj := isUsedInRegularObj s; pendingArchiveLoad := pendingArchiveLoad s;
     isGCRoot := isGCRoot s; isRuntimePseudoReloc := isRuntimePseudoReloc s; deferUndefined := deferUndefined s;
     canInline := canInline s; isWeak := isWeak s; isAntiDep := b |}.
Definition with_used (b : bool) (s : symbol) : symbol :=
  {| s_kind := s_kind s; isUsedInRegularObj := b; pendingArchiveLoad := pendingArchiveLoad s;
     isGCRoot := isGCRoot s; isRuntimePseudoReloc := isRuntimePseudoReloc s; deferUndefined := deferUndefined s;
     canInline := canInline s; isWeak := isWeak s; isAntiDep := isAntiDep s |}.
Definition with_pending (b : bool) (s : symbol) : symbol :=
  {| s_kind := s_kind s; isUsedInRegularObj := isUsedInRegularObj s; pendingArchiveLoad := b;
     isGCRoot := isGCRoot s; isRuntimePseudoReloc := isRuntimePseudoReloc s; deferUndefined := deferUndefined s;
     canInline := canInline s; isWeak := isWeak s; isAntiDep := isAntiDep s |}.
Definition with_gcroot (b : bool) (s : symbol) : symbol :=
  {| s_kind := s_kind s; isUsedInRegularObj := isUsedInRegularObj s; pendingArchiveLoad := pendingArchiveLoad s;
     isGCRoot := b; isRuntimePseudoReloc := isRuntimePseudoReloc s; deferUndefined := deferUndefined s;
     canInline := canInline s; isWeak := isWeak s; isAntiDep := isAntiDep s |}.
Definition with_pseudo (b : bool) (s : symbol) : symbol :=
  {| s_kind := s_kind s; isUsedInRegularObj := isUsedInRegularObj s; pendingArchiveLoad := pendingArchiveLoad s;
     isGCRoot := isGCRoot s; isRuntimePseudoReloc := b; deferUndefined := deferUndefined s;
     canInline := canInline s; isWeak := isWeak s; isAntiDep := isAntiDep s |}.

Definition setWeakAlias (sym : sref) (antiDep : bool) (s : symbol) : symbol :=
  with_antiDep antiDep (with_kind (Undefined (Some sym)) s).

(** [getWeakAlias]: the chain of aliases up to a symbol that is not undefined;
    none through an anti-dependency or around a cycle. [weakChain] is a set of
    symbols, so the chain is at most one longer than their number. *)
Fixpoint weakChain_loop (fuel : nat) (T : symtab) (weakChain : gset sref) (a : option sref) : option sref :=
  match fuel, a with
  | S fuel, Some a =>
      match deref T a with
      | None => None
      | Some s =>
          if isAntiDep s then None
          else if negb (isUndefined (s_kind s)) then Some a
          else if decide (a ∈ weakChain) then None
          else weakChain_loop fuel T ({[a]} ∪ weakChain) (weakAliasOf s)
      end
  | _, _ => None
  end.

Definition symbol_count (T : symtab) : nat := (size (symMap T) + size (locals T))%nat.

Definition getWeakAlias (T : symtab) (s : symbol) : option sref :=
  weakChain_loop (S (S (symbol_count T))) T ∅ (weakAliasOf s).

Definition definedRef (T : symtab) (r : sref) : option sref :=
  match deref T r with Some s => if isDefined (s_kind s) then Some r else None | None => None end.

Definition getDefinedWeakAlias (T : symtab) (s : symbol) : option sref :=
  getWeakAlias T s ≫= definedRef T.

Definition getDefined (T : symtab) (r : sref) : option sref :=
  s ← deref T r;
  if isDefined (s_kind s) then Some r
  else if isUndefined (s_kind s) then getDefinedWeakAlias T s
  else None.

(** [resolveWeakAlias]: the whole symbol is copied, the name and [isAntiDep] kept. *)
Definition resolveWeakAlias (T : symtab) (r : sref) : bool * symtab :=
  match s ← deref T r; d ← getDefinedWeakAlias T s; ds ← deref T d; Some (with_antiDep (isAntiDep s) ds) with
  | Some new => (true, store r new T)
  | None => (false, T)
  end.

(** ** Inserting and replacing *)

(** [make<SymbolUnion>()] zeroed, before the replacement that always follows. *)
Definition raw_symbol : symbol :=
  {| s_kind := Undefined None; isUsedInRegularObj := false; pendingArchiveLoad := false; isGCRoot := false;
     isRuntimePseudoReloc := false; deferUndefined := false; canInline := true; isWeak := false;
     isAntiDep := false |}.

(** [replaceSymbol<T>]: a new symbol that keeps two bits of the old one. *)
Definition replaced (k : kind) (weak : bool) (s : symbol) : symbol :=
  {| s_kind := k; isUsedInRegularObj := isUsedInRegularObj s; pendingArchiveLoad := false; isGCRoot := false;
     isRuntimePseudoReloc := false; deferUndefined := false; canInline := canInline s; isWeak := weak;
     isAntiDep := false |}.
Definition replaceSymbol (r : sref) (k : kind) (weak : bool) (T : symtab) : symtab :=
  modify r (replaced k weak) T.

Section Table.
  Context (cfg : st_config) (insertion_point : string -> option nat).

Definition isEC : bool := match st_machine cfg with ARM64EC => true | _ => false end.

Definition find (n : string) (T : symtab) : option symbol := symMap T !! n.

(** [insert(name)]: whether the symbol is new; it is then a raw symbol. *)
Definition insert (n : string) (T : symtab) : bool * symtab :=
  match symMap T !! n with
  | Some _ => (false, T)
  | None =>
      let T := with_symMap (<[n := raw_symbol]> (symMap T)) T in
      (true, if isEC && starts_with "EXP+" n
             then {| symMap := symMap T; locals := locals T; lazyFiles := lazyFiles T;
                     archiveSeen := archiveSeen T; dllSeen := dllSeen T; chunks := chunks T; gcroot := gcroot T;
                     expSymbols := expSymbols T ++ [n]; log := log T |}
             else T)
  end.

(** [insert(name, file)]: [bitcode] says that the file is a BitcodeFile. *)
Definition insert_file (n : string) (bitcode : bool) (T : symtab) : bool * symtab :=
  let '(new, T) := insert n T in
  (new, if bitcode then T else modify (Global n) (with_used true) T).

(** ** Loading lazy symbols *)

Definition addMember (file : nat) (sym : archive_symbol) (T : symtab) : symtab :=
  if decide ((file, as_childOffset sym) ∈ archiveSeen T) then T
  else emit (EnqueueArchiveMember file (as_childOffset sym))
    {| symMap := symMap T; locals := locals T; lazyFiles := lazyFiles T;
       archiveSeen := {[(file, as_childOffset sym)]} ∪ archiveSeen T; dllSeen := dllSeen T; chunks := chunks T;
       gcroot := gcroot T; expSymbols := expSymbols T; log := log T |}.

Definition makeImport (file : nat) (sym : string) (T : symtab) : symtab :=
  if decide ((file, sym) ∈ dllSeen T) then T
  else emit (MakeImport file sym)
    {| symMap := symMap T; locals := locals T; lazyFiles := lazyFiles T; archiveSeen := archiveSeen T;
       dllSeen := {[(file, sym)]} ∪ dllSeen T; chunks := chunks T; gcroot := gcroot T;
       expSymbols := expSymbols T; log := log T |}.

(** [file->lazy = false; driver.addFile(file)]. *)
Definition loadObject (file : nat) (T : symtab) : symtab :=
  emit (AddFile file)
    {| symMap := symMap T; locals := locals T; lazyFiles := lazyFiles T ∖ {[file]}; archiveSeen := archiveSeen T;
       dllSeen := dllSeen T; chunks := chunks T; gcroot := gcroot T; expSymbols := expSymbols T; log := log T |}.

Definition forceLazy (r : sref) (T : symtab) : symtab :=
  match deref T r with
  | None => T
  | Some s =>
      let T := store r (with_pending true s) T in
      match s_kind s with
      | LazyArchive file sym => addMember file sym T
      | LazyObject file => if decide (file ∈ lazyFiles T) then loadObject file T else T
      | LazyDLLSymbol file sym => makeImport file sym T
      | _ => T
      end
  end.

(** ** Undefined symbols *)

Definition addUndefined (n : string) (bitcode overrideLazy : bool) (T : symtab) : symtab :=
  let '(new, T) := insert_file n bitcode T in
  match find n T with
  | None => T
  | Some s =>
      if new || (isLazy (s_kind s) && overrideLazy) then replaceSymbol (Global n) (Undefined None) false T
      else if isLazy (s_kind s) then forceLazy (Global n) T
      else T
  end.

(** ** ARM64EC names (llvm/lib/IR/Mangler.cpp)

    [insertion_point] is the demangler's [getArm64ECInsertionPointInMangledName]. *)

Definition getArm64ECMangledFunctionName (n : string) : option string :=
  if negb (starts_with "?" n) then
    if starts_with "#" n then None else Some ("#" ++ n)%string
  else if str_contains "$$h" n then None
  else if starts_with "??@" n && ends_with "@" n then Some (n ++ "$$h@")%string
  else i ← insertion_point n; Some (str_take i n ++ "$$h" ++ str_drop i n)%string.

Definition getArm64ECDemangledFunctionName (n : string) : option string :=
  if starts_with "#" n then Some (str_drop 1 n)
  else if negb (starts_with "?" n) then None
  else if starts_with "??@" n && ends_with "@$$h@" n then Some (str_take (String.length n - 4) n)
  else let '(a, b) := split_at "$$h" n in
       if String.eqb b "" then None else Some (a ++ b)%string.

Definition isArm64ECMangledFunctionName (n : string) : bool :=
  starts_with "#" n || (starts_with "?" n && str_contains "@$$h" n).

Definition addGCRoot (n : string) (aliasEC : bool) (T : symtab) : symtab :=
  let T := addUndefined n false false T in
  let T := match find n T with
           | Some s => if isGCRoot s then T
               else let T := store (Global n) (with_gcroot true s) T in
                    {| symMap := symMap T; locals := locals T; lazyFiles := lazyFiles T;
                       archiveSeen := archiveSeen T; dllSeen := dllSeen T; chunks := chunks T;
                       gcroot := gcroot T ++ [Global n]; expSymbols := expSymbols T; log := log T |}
           | None => T
           end in
  let no_alias m T := match find m T with Some s => isUndefined (s_kind s) && bool_decide (weakAliasOf s = None)
                                        | None => false end in
  if aliasEC && isEC then
    match getArm64ECMangledFunctionName n with
    | Some m =>
        if no_alias n T then modify (Global n) (setWeakAlias (Global m) true) (addUndefined m false false T) else T
    | None =>
        match getArm64ECDemangledFunctionName n with
        | Some d =>
            let T := addUndefined d false false T in
            if no_alias d T then modify (Global d) (setWeakAlias (Global n) true) T else T
        | None => T
        end
    end
  else T.

(** ** Lazy symbols *)

(** [checkLazyECPair<T>]; [same] tells a lazy symbol of kind T of the file. *)
Definition checkLazyECPair (same : kind -> bool) (n : string) (T : symtab) : bool :=
  if starts_with "__imp_" n then true
  else
    match (match getArm64ECMangledFunctionName n with
           | Some m => Some m | None => getArm64ECDemangledFunctionName n end) with
    | None => true
    | Some pairName =>
        match find pairName T with
        | None => true
        | Some s =>
            if pendingArchiveLoad s then false
            else match s_kind s with
                 | Undefined a => match a with None => true | Some _ => isAntiDep s end
                 | k => same k
                 end
        end
    end.

Definition isECAlias (s : symbol) : bool :=
  match weakAliasOf s with None => false | Some _ => isAntiDep s && match st_machine cfg with ARM64EC => true | _ => false end end.

(** The common part of the three [addLazy*]: a new symbol is lazy, an undefined
    one is loaded unless it has a weak alias or a load is under way. *)
Definition addLazy (new : bool) (n : string) (k : kind) (load : symtab -> symtab) (T : symtab) : symtab :=
  if new then replaceSymbol (Global n) k false T
  else match find n T with
       | None => T
       | Some s =>
           if negb (isUndefined (s_kind s)) || (bool_decide (weakAliasOf s <> None) && negb (isECAlias s)) ||
              pendingArchiveLoad s
           then T
           else load (store (Global n) (with_pending true s) T)
       end.

Definition addLazyArchive (file : nat) (sym : archive_symbol) (T : symtab) : symtab :=
  let n := as_name sym in
  if isEC && negb (checkLazyECPair
       (fun k => match k with LazyArchive f _ => (f =? file)%nat | _ => false end) n T) then T
  else let '(new, T) := insert n T in
       addLazy new n (LazyArchive file sym) (addMember file sym) T.

Definition addLazyObject (file : nat) (bitcode : bool) (n : string) (T : symtab) : symtab :=
  if isEC && negb (checkLazyECPair
       (fun k => match k with LazyObject f => (f =? file)%nat | _ => false end) n T) then T
  else let '(new, T) := insert_file n bitcode T in
       addLazy new n (LazyObject file) (loadObject file) T.

Definition addLazyDLLSymbol (file : nat) (sym n : string) (T : symtab) : symtab :=
  let '(new, T) := insert n T in
  addLazy new n (LazyDLLSymbol file sym) (makeImport file sym) T.

(** ** Definitions *)

Definition reportDuplicate (n : string) (newFile : option nat) : symtab -> symtab :=
  emit (ReportDuplicate (Global n) newFile).

(** [wasInserted || isa<Undefined>(s) || s->isLazy()] *)
Definition open_ (new : bool) (k : kind) : bool := new || isUndefined k || isLazy k.

Definition addAbsolute (n : string) (va : Z) (T : symtab) : symtab :=
  let '(new, T) := insert_file n false T in
  match find n T with
  | None => T
  | Some s =>
      if open_ new (s_kind s) then replaceSymbol (Global n) (DefinedAbsolute va) false T
      else match s_kind s with
           | DefinedAbsolute va' => if va' =? va then T else reportDuplicate n None T
           | k => if isCOFF k then T else reportDuplicate n None T
           end
  end.

Definition addSynthetic (n : string) (c : option nat) (T : symtab) : symtab :=
  let '(new, T) := insert_file n false T in
  match find n T with
  | None => T
  | Some s =>
      if open_ new (s_kind s) then replaceSymbol (Global n) (DefinedSynthetic c) false T
      else if isCOFF (s_kind s) then T else reportDuplicate n None T
  end.

Definition addRegular (file : option nat) (bitcode : bool) (n : string) (c : option nat) (value : Z)
    (weak : bool) (T : symtab) : symtab :=
  let '(new, T) := insert_file n bitcode T in
  match find n T with
  | None => T
  | Some s =>
      if new || negb (isRegular (s_kind s)) || isWeak s
      then replaceSymbol (Global n) (DefinedRegular file false c value) weak T
      else if negb weak then reportDuplicate n file T else T
  end.

(** [addComdat]: the table, and whether this definition was taken. *)
Definition addComdat (file : option nat) (bitcode : bool) (n : string) (value : Z) (T : symtab)
    : symtab * bool :=
  let '(new, T) := insert_file n bitcode T in
  match find n T with
  | None => (T, false)
  | Some s =>
      if new || negb (isRegular (s_kind s))
      then (replaceSymbol (Global n) (DefinedRegular file true None value) false T, true)
      else (match s_kind s with
            | DefinedRegular _ true _ _ => T
            | _ => reportDuplicate n file T
            end, false)
  end.

Definition addCommon (file : option nat) (bitcode : bool) (n : string) (size : Z) (T : symtab) : symtab :=
  let '(new, T) := insert_file n bitcode T in
  match find n T with
  | None => T
  | Some s =>
      if new || negb (isCOFF (s_kind s)) then replaceSymbol (Global n) (DefinedCommon file size) false T
      else match s_kind s with
           | DefinedCommon _ size' =>
               if size' <? size then replaceSymbol (Global n) (DefinedCommon file size) false T else T
           | _ => T
           end
  end.

(** [addImportData] and [addImportThunk]; false for the null pointer. *)
Definition addImport (n : string) (k : kind) (file : option nat) (T : symtab) : symtab * bool :=
  let '(new, T) := insert_file n false T in
  match find n T with
  | None => (T, false)
  | Some s =>
      if open_ new (s_kind s) then (replaceSymbol (Global n) k false T, true)
      else (reportDuplicate n file T, false)
  end.
Definition addImportData (n : string) (file : nat) : symtab -> symtab * bool :=
  addImport n (DefinedImportData file) (Some file).
Definition addImportThunk (n : string) (id : sref) (file : nat) : symtab -> symtab * bool :=
  addImport n (DefinedImportThunk id) (Some file).

(** ** Weak externals ([checkAndSetWeakAlias] of InputFiles.cpp) *)

Definition isAbsZero (T : symtab) (r : sref) : bool :=
  match s_kind <$> deref T r with Some (DefinedAbsolute va) => va =? 0 | _ => false end.

Definition checkAndSetWeakAlias (file : option nat) (source target : sref) (antiDep : bool) (T : symtab)
    : symtab :=
  match deref T source with
  | None => T
  | Some u =>
      let set := modify source (setWeakAlias target antiDep) in
      match s_kind u with
      | Undefined (Some old) =>
          if decide (old = target) then set T
          else if antiDep then T
          else if negb (isAntiDep u) then
            if allowDuplicateWeak cfg
            then if isAbsZero T old && negb (isAbsZero T target) then set T else T
            else set (emit (ReportDuplicate source file) T)
          else set T
      | Undefined None => set T
      | _ => T
      end
  end.

(** ** Remaining undefined symbols

    [order] is the order in which the table's map is walked. *)

Definition str_index (c : Ascii.ascii) (s : string) : option nat :=
  (fix go s := match s with
   | EmptyString => None
   | String d s => if Ascii.eqb d c then Some O else S <$> go s
   end) s.

Definition ltrim1 (s : string) (chars : list Ascii.ascii) : string :=
  match s with
  | String c s' => if existsb (Ascii.eqb c) chars then s' else s
  | EmptyString => s
  end.

Definition ch (n : nat) : Ascii.ascii := Ascii.ascii_of_nat n.

(** The undecorated cdecl name of a stdcall, fastcall or vectorcall name. *)
Definition stdcallBase (n : string) : string :=
  let b := ltrim1 n [ch 95; ch 64] in
  ("_" ++ match str_index (ch 64) b with Some i => str_take i b | None => b end)%string.

Definition loadMinGWSymbol (T : symtab) (n : string) : symtab :=
  match find n T with
  | None => T
  | Some u =>
      if negb (isUndefined (s_kind u)) then T
      else match getWeakAlias T u with
      | Some _ => T
      | None =>
          let auto T :=
            if autoImport cfg && negb (starts_with "__imp_" n) then
              let imp := ("__imp_" ++ n)%string in
              match find imp T with
              | Some l => if negb (pendingArchiveLoad l) && isLazy (s_kind l)
                          then forceLazy (Global imp) (emit (LoadLazy (Global imp)) T) else T
              | None => T
              end
            else T in
          let newName := stdcallBase n in
          match st_machine cfg, stdcallFixup cfg with
          | I386, true =>
              if String.eqb newName n then auto T
              else match find newName T with
                   | None => auto T
                   | Some l =>
                       let T := if isLazy (s_kind l) && negb (pendingArchiveLoad l)
                                then forceLazy (Global newName) (emit (LoadLazy (Global newName)) T) else T in
                       match find newName T with
                       | Some l' => if isLazy (s_kind l') || isDefined (s_kind l')
                                    then modify (Global n) (setWeakAlias (Global newName) false) T
                                    else auto T
                       | None => auto T
                       end
                   end
          | _, _ => auto T
          end
      end
  end.

Definition loadMinGWSymbols (order : list string) (T : symtab) : symtab :=
  let undefs := List.filter (fun n => match find n T with
    | Some s => isUndefined (s_kind s) && bool_decide (getWeakAlias T s = None)
    | None => false end) order in
  fold_left loadMinGWSymbol undefs T.

Definition impSymbol (n : string) (T : symtab) : option sref :=
  if starts_with "__imp_" n then None
  else definedRef T (Global ("__imp_" ++ n)%string).

(** [replaceKeepingName] copies the other symbol. The .refptr.<name> chunk, a
    single pointer to <name>, is dropped and its symbol redirected as well. *)
Definition handleMinGWAutomaticImport (n : string) (T : symtab) : bool * symtab :=
  let sym := Global n in
  match impSymbol n T with
  | None => (false, T)
  | Some imp =>
      match deref T imp with
      | None => (false, T)
      | Some i =>
          if match s_kind i with DefinedImportData _ | DefinedRegular _ _ _ _ => true | _ => false end then
            let T := store sym (with_pseudo true i) T in
            let ref := Global (".refptr." ++ n)%string in
            match s_kind <$> deref T ref with
            | Some (DefinedRegular _ _ (Some c) _) =>
                match chunks T !! c with
                | Some ci =>
                    if (ch_size ci =? wordsize cfg) && ch_isSection ci &&
                       bool_decide (ch_relocs ci = [sym])
                    then (true, store ref i
                           {| symMap := symMap T; locals := locals T; lazyFiles := lazyFiles T;
                              archiveSeen := archiveSeen T; dllSeen := dllSeen T;
                              chunks := <[c := {| ch_isSection := ch_isSection ci; ch_size := ch_size ci;
                                                  ch_relocs := ch_relocs ci; ch_live := false |}]> (chunks T);
                              gcroot := gcroot T; expSymbols := expSymbols T; log := log T |})
                    else (true, T)
                | None => (true, T)
                end
            | _ => (true, T)
            end
          else (false, emit (UnexpectedImport sym imp) T)
      end
  end.

(** One symbol of [reportUnresolvable]: reported, and the table. *)
Definition unresolvable (T : symtab) (n : string) : bool * symtab :=
  match find n T with
  | None => (false, T)
  | Some s =>
      if negb (isUndefined (s_kind s)) || deferUndefined s then (false, T)
      else match getWeakAlias T s with
      | Some _ => (false, T)
      | None =>
          let def := if starts_with "__imp_" n then definedRef T (Global (str_drop 6 n)) else None in
          match def with
          | Some d => (false, modify d (with_used true) T)
          | None =>
              if str_contains "_PchSym_" n then (false, T)
              else if autoImport cfg && bool_decide (impSymbol n T <> None) then (false, T)
              else (true, T)
          end
      end
  end.

(** A walk that collects the names a step reports. *)
Fixpoint walk (step : symtab -> string -> bool * symtab) (order : list string) (T : symtab)
    : list string * symtab :=
  match order with
  | [] => ([], T)
  | n :: order =>
      let '(b, T) := step T n in
      let '(l, T) := walk step order T in
      (if b then n :: l else l, T)
  end.

Definition emit_all (es : list event) (T : symtab) : symtab := fold_left (fun T e => emit e T) es T.

(** The symbols of [l] in [p], once each, as they first occur. *)
Fixpoint first_uses (p : sref -> bool) (seen : list sref) (l : list sref) : list sref :=
  match l with
  | [] => []
  | r :: l => if p r && negb (bool_decide (r ∈ seen)) then r :: first_uses p (r :: seen) l else first_uses p seen l
  end.

(** [reportProblemSymbols]: the symbols of the sets are only reported where they
    are roots, or in the symbols of a file. [files]: the symbols of the objects,
    and of the bitcode files when they are asked for. *)
Section Problems.
  Context (undefs : list string) (localImports : list (string * sref)) (files : list (list (option sref))).

Definition is_problem (r : sref) : bool :=
  match r with Global n => bool_decide (n ∈ undefs) | Local _ => false end.
Definition local_import (r : sref) : option sref :=
  match r with Global n => snd <$> List.find (fun p => String.eqb p.1 n) localImports | Local _ => None end.
Definition import_events (r : sref) : list event :=
  match local_import r with Some imp => [LocalImported r imp] | None => [] end.
Definition root_events (b : sref) : list event :=
  (if is_problem b then [ReportUndefinedRoot b] else []) ++ import_events b.

Definition reportProblemSymbols (T : symtab) : symtab :=
  if bool_decide (undefs = []) && bool_decide (localImports = []) then T
  else
    let syms := omap id (concat files) in
    emit_all (flat_map root_events (gcroot T) ++ flat_map import_events syms ++
              map ReportUndefined (first_uses is_problem [] syms)) T.

End Problems.

Definition reportUnresolvable (files : list (list (option sref))) (order : list string) (T : symtab) : symtab :=
  let '(undefs, T) := walk unresolvable order T in reportProblemSymbols undefs [] files T.

(** The symbol without __imp_ for a local import, by its ARM64EC names too. *)
Definition findLocalImport (T : symtab) (impName : string) : option sref :=
  let findLocalSym n := getDefined T (Global n) in
  let mangled n := getArm64ECMangledFunctionName n ≫= findLocalSym in
  match findLocalSym impName with
  | Some d => Some d
  | None =>
      if isEC then
        match mangled impName with
        | Some d => Some d
        | None =>
            if starts_with "aux_" impName then
              let n := str_drop 4 impName in
              match findLocalSym n with Some d => Some d | None => mangled n end
            else None
        end
      else None
  end.

(** What [resolveRemainingUndefines] does with a symbol. *)
Inductive resolution :=
  | NotUndefined | Unused | Alias | LocalImport (d : sref) | PchSymbol | AutoImported | Unresolved.

Definition remaining (T : symtab) (n : string) : resolution * symtab :=
  match find n T with
  | None => (NotUndefined, T)
  | Some s =>
      if negb (isUndefined (s_kind s)) then (NotUndefined, T)
      else if negb (isUsedInRegularObj s) then (Unused, T)
      else match getWeakAlias T s with
      | Some _ => (Alias, T)
      | None =>
          match (if starts_with "__imp_" n then findLocalImport T (str_drop 6 n) else None) with
          | Some d => (LocalImport d, replaceSymbol (Global n) (DefinedLocalImport d) false T)
          | None =>
              if str_contains "_PchSym_" n then (PchSymbol, T)
              else
                let '(imported, T) := if autoImport cfg then handleMinGWAutomaticImport n T else (false, T) in
                if imported then (AutoImported, T)
                else (Unresolved,
                      if forceUnresolved cfg then replaceSymbol (Global n) (DefinedAbsolute 0) false T else T)
          end
      end
  end.

Fixpoint remaining_all (order : list string) (T : symtab) : list (string * resolution) * symtab :=
  match order with
  | [] => ([], T)
  | n :: order =>
      let '(r, T) := remaining T n in
      let '(l, T) := remaining_all order T in
      ((n, r) :: l, T)
  end.

Definition is_unresolved (r : resolution) : bool := match r with Unresolved => true | _ => false end.
Definition is_alias (r : resolution) : bool := match r with Alias => true | _ => false end.

Definition local_import_of (x : string * resolution) : option (string * sref) :=
  match x.2 with LocalImport d => Some (x.1, d) | _ => None end.

(** The aliases to resolve later, and the table with the reports. *)
Definition resolveRemainingUndefines (files : list (list (option sref))) (order : list string) (T : symtab)
    : list string * symtab :=
  let '(l, T) := remaining_all order T in
  (map fst (List.filter (fun x => is_alias x.2) l),
   reportProblemSymbols (map fst (List.filter (fun x => is_unresolved x.2) l))
     (if warnLocallyDefinedImported cfg then omap local_import_of l else []) files T).

(** ** Alternate names *)

(** The map of [parseAlternateName]; [None] for a fatal error. *)
Definition parseAlternateName (s : string) (alternateNames : gmap string string)
    : option (gmap string string) :=
  let '(from, to) := split_at "=" s in
  if String.eqb from "" || String.eqb to "" then None
  else match alternateNames !! from with
       | Some to' => if String.eqb to' to then Some alternateNames else None
       | None => Some (<[from := to]> alternateNames)
       end.

Definition resolveAlternateName (T : symtab) (p : string * string) : symtab :=
  let '(from, to) := p in
  match find from T with
  | None => T
  | Some u =>
      if negb (isUndefined (s_kind u)) then T
      else
        let skip :=
          match weakAliasOf u with
          | None => false
          | Some a =>
              if negb isEC || negb (isAntiDep u) then true
              else match deref T a with
                   | Some t => negb (isUndefined (s_kind t)) && negb (isArm64ECMangledFunctionName from)
                   | None => false
                   end
          end in
        if skip then T
        else match find to T with
        | None => T
        | Some t =>
            if isUndefined (s_kind t) && (bool_decide (weakAliasOf t = None) || isAntiDep t) then T
            else
              let T := store (Global to) (with_used true t) T in
              let T := if isLazy (s_kind t) then forceLazy (Global to) T else T in
              modify (Global from) (setWeakAlias (Global to) false) T
        end
  end.

(** [pairs]: the entries of alternateNames, by name. *)
Definition resolveAlternateNames (pairs : list (string * string)) (T : symtab) : symtab :=
  fold_left resolveAlternateName pairs T.

(** ** Mangled names and the entry point *)

Definition findUnderscore (n : string) (T : symtab) : option symbol :=
  match st_machine cfg with I386 => find ("_" ++ n)%string T | _ => find n T end.

Definition mangle (n : string) : string :=
  match st_machine cfg with I386 => ("_" ++ n)%string | _ => n end.

Definition getSymsWithPrefix (order : list string) (prefix : string) : list string :=
  List.filter (fun n => starts_with prefix n || starts_with (str_drop 1 prefix) n ||
    starts_with prefix (str_drop 1 n) || starts_with (str_drop 1 prefix) (str_drop 1 n)) order.

Definition findByPrefix (syms : list string) (prefix : string) : option sref :=
  Global <$> List.find (starts_with prefix) syms.

Definition first_of {A} (l : list (option A)) : option A :=
  fold_right (fun o r => match o with Some x => Some x | None => r end) None l.

Definition findMangle (order : list string) (n : string) (T : symtab) : option sref :=
  let exact :=
    match find n T with
    | Some s => if isUndefined (s_kind s) then getWeakAlias T s else Some (Global n)
    | None => None
    end in
  match exact with
  | Some r => Some r
  | None =>
      let syms := getSymsWithPrefix order n in
      match st_machine cfg with
      | I386 =>
          if negb (starts_with "_" n) then None
          else let m := str_drop 1 n in
               first_of (map (findByPrefix syms)
                 [n ++ "@"; "@" ++ m ++ "@"; m ++ "@@"; "?" ++ m ++ "@@Y"]%string)
      | _ => findByPrefix syms ("?" ++ n ++ "@@Y")%string
      end
  end.

Definition findUnderscoreMangle (order : list string) (n : string) (T : symtab) : bool :=
  match findMangle order (mangle n) T with
  | Some r => match deref T r with Some s => negb (isUndefined (s_kind s)) | None => false end
  | None => false
  end.

(** [mangleMaybe]: the name it found (empty otherwise), and the table. *)
Definition mangleMaybe (order : list string) (n : string) (T : symtab) : string * symtab :=
  match find n T with
  | None => ("", T)
  | Some s =>
      if negb (isUndefined (s_kind s)) then ("", T)
      else match findMangle order n T with
           | Some (Global m) =>
               (m, modify (Global n) (setWeakAlias (Global m) false) (addUndefined m false false T))
           | _ => ("", T)
           end
  end.

Inductive WindowsSubsystem := WINDOWS_UNKNOWN | WINDOWS_GUI | WINDOWS_CUI | OtherSubsystem.

(** The entry point's name, and whether both mains were found. *)
Definition findDefaultEntry (order : list string) (mingw : bool) (subsystem : WindowsSubsystem) (T : symtab)
    : string * bool :=
  let has n := findUnderscoreMangle order n T in
  match mingw, subsystem with
  | true, WINDOWS_GUI => (mangle "WinMainCRTStartup", false)
  | true, _ => (mangle "mainCRTStartup", false)
  | false, WINDOWS_GUI =>
      if has "wWinMain" then
        if has "WinMain" then (mangle "WinMainCRTStartup", true) else (mangle "wWinMainCRTStartup", false)
      else (mangle "WinMainCRTStartup", false)
  | false, _ =>
      if has "wmain" then
        if has "main" then (mangle "mainCRTStartup", true) else (mangle "wmainCRTStartup", false)
      else (mangle "mainCRTStartup", false)
  end.

Definition inferSubsystem (order : list string) (dll mingw : bool) (T : symtab) : WindowsSubsystem * bool :=
  let has n := findUnderscoreMangle order n T in
  if dll then (WINDOWS_GUI, false)
  else if mingw then (WINDOWS_CUI, false)
  else if has "main" || has "wmain" then (WINDOWS_CUI, has "WinMain" || has "wWinMain")
  else if has "WinMain" || has "wWinMain" then (WINDOWS_GUI, false)
  else (WINDOWS_UNKNOWN, false).

End Table.
