(* ===== verification/SymbolTableProps.v ===== *)
(** * What the symbol table guarantees (theorems on SymbolTable.v)

    Whatever order the files come in: the strongest definition of a name wins,
    a name that is asked for and offered is loaded, once; and undefined symbols
    do not pass unreported. *)

From S2P Require Import Prelude SymbolTable.

#[local] Open Scope string_scope.
#[local] Open Scope list_scope.
#[local] Open Scope Z_scope.

(** ** Operations of the files *)

Inductive op :=
  | OpUndefined (n : string) (bitcode overrideLazy : bool)
  | OpLazyArchive (file : nat) (sym : archive_symbol)
  | OpLazyObject (file : nat) (bitcode : bool) (n : string)
  | OpLazyDLL (file : nat) (sym n : string)
  | OpAbsolute (n : string) (va : Z)
  | OpSynthetic (n : string) (c : option nat)
  | OpRegular (file : option nat) (bitcode : bool) (n : string) (c : option nat) (value : Z) (weak : bool)
  | OpComdat (file : option nat) (bitcode : bool) (n : string) (value : Z)
  | OpCommon (file : option nat) (bitcode : bool) (n : string) (size : Z)
  | OpImportData (n : string) (file : nat)
  | OpImportThunk (n : string) (id : sref) (file : nat).

Definition op_name (o : op) : string :=
  match o with
  | OpUndefined n _ _ | OpLazyObject _ _ n | OpLazyDLL _ _ n | OpAbsolute n _ | OpSynthetic n _
  | OpRegular _ _ n _ _ _ | OpComdat _ _ n _ | OpCommon _ _ n _ | OpImportData n _ | OpImportThunk n _ _ => n
  | OpLazyArchive _ sym => as_name sym
  end.

(** The definition an operation brings. *)
Definition candidate (o : op) : option kind :=
  match o with
  | OpAbsolute _ va => Some (DefinedAbsolute va)
  | OpSynthetic _ c => Some (DefinedSynthetic c)
  | OpRegular f _ _ c v _ => Some (DefinedRegular f false c v)
  | OpComdat f _ _ v => Some (DefinedRegular f true None v)
  | OpCommon f _ _ size => Some (DefinedCommon f size)
  | OpImportData _ f => Some (DefinedImportData f)
  | OpImportThunk _ id _ => Some (DefinedImportThunk id)
  | _ => None
  end.

Definition is_weak_op (o : op) : bool := match o with OpRegular _ _ _ _ _ w => w | _ => false end.

Section Run.
  Context (cfg : st_config) (ip : string -> option nat).

Definition step (T : symtab) (o : op) : symtab :=
  match o with
  | OpUndefined n b ov => addUndefined cfg n b ov T
  | OpLazyArchive f sym => addLazyArchive cfg ip f sym T
  | OpLazyObject f b n => addLazyObject cfg ip f b n T
  | OpLazyDLL f sym n => addLazyDLLSymbol cfg f sym n T
  | OpAbsolute n va => addAbsolute cfg n va T
  | OpSynthetic n c => addSynthetic cfg n c T
  | OpRegular f b n c v w => addRegular cfg f b n c v w T
  | OpComdat f b n v => (addComdat cfg f b n v T).1
  | OpCommon f b n size => addCommon cfg f b n size T
  | OpImportData n f => (addImportData cfg n f T).1
  | OpImportThunk n id f => (addImportThunk cfg n id f T).1
  end.

Definition replay (ops : list op) (T : symtab) : symtab := fold_left step ops T.

(** ** What an operation touches *)

(** The symbol map changes at [n] only. *)
Definition touches (n : string) (T T' : symtab) : Prop :=
  forall m, m <> n -> symMap T' !! m = symMap T !! m.

Lemma touches_refl n T : touches n T T.
Proof. done. Qed.
Lemma touches_trans n T1 T2 T3 : touches n T1 T2 -> touches n T2 T3 -> touches n T1 T3.
Proof. intros H1 H2 m Hm. by rewrite H2, H1. Qed.
Lemma touches_same n T T' : symMap T' = symMap T -> touches n T T'.
Proof. intros E m _. by rewrite E. Qed.

Lemma store_touches n s T : touches n T (store (Global n) s T).
Proof. intros m Hm. by apply lookup_insert_ne. Qed.
Lemma modify_touches n f T : touches n T (modify (Global n) f T).
Proof. unfold modify. destruct (deref T (Global n)); [apply store_touches|done]. Qed.

Lemma insert_lookup n T :
  let '(new, T') := insert cfg n T in
  symMap T' !! n = Some (default raw_symbol (symMap T !! n)) /\ new = bool_decide (symMap T !! n = None) /\
  touches n T T' /\ log T' = log T.
Proof.
  unfold insert. destruct (symMap T !! n) as [s|] eqn:E; [done|]. case_match; cbn; rewrite lookup_insert_eq;
    (split; [done|]; split; [done|]; split; [|done]; intros m Hm; by apply lookup_insert_ne).
Qed.

Lemma insert_file_lookup n bitcode T :
  let '(new, T') := insert_file cfg n bitcode T in
  symMap T' !! n = Some (let s := default raw_symbol (symMap T !! n) in if bitcode then s else with_used true s) /\
  new = bool_decide (symMap T !! n = None) /\ touches n T T' /\ log T' = log T.
Proof.
  unfold insert_file. pose proof (insert_lookup n T) as H. destruct (insert cfg n T) as [new T'].
  destruct H as (Hs & Hn & Ht & Hl). destruct bitcode; [done|]. unfold modify. cbn. rewrite Hs.
  split; [cbn; by rewrite lookup_insert_eq|]. split; [done|]. split; [|done].
  eapply touches_trans; [exact Ht|]. apply (store_touches n).
Qed.

Lemma replace_lookup n k w T s :
  symMap T !! n = Some s ->
  symMap (replaceSymbol (Global n) k w T) !! n = Some (replaced k w s) /\
  touches n T (replaceSymbol (Global n) k w T) /\ log (replaceSymbol (Global n) k w T) = log T.
Proof.
  intros Hs. unfold replaceSymbol, modify. cbn. rewrite Hs. split; [cbn; by rewrite lookup_insert_eq|].
  split; [apply (store_touches n)|done].
Qed.

Lemma addMember_symMap f sym T : symMap (addMember f sym T) = symMap T.
Proof. unfold addMember. by case_decide. Qed.
Lemma makeImport_symMap f sym T : symMap (makeImport f sym T) = symMap T.
Proof. unfold makeImport. by case_decide. Qed.

Lemma forceLazy_lookup n T s :
  symMap T !! n = Some s ->
  symMap (forceLazy (Global n) T) !! n = Some (with_pending true s) /\ touches n T (forceLazy (Global n) T).
Proof.
  intros Hs. unfold forceLazy. cbn [deref]. rewrite Hs. set (T1 := store (Global n) (with_pending true s) T).
  assert (E1 : symMap T1 !! n = Some (with_pending true s)) by apply lookup_insert_eq.
  assert (Ht : touches n T T1) by apply store_touches.
  assert (H : forall T2, symMap T2 = symMap T1 -> symMap T2 !! n = Some (with_pending true s) /\ touches n T T2).
  { intros T2 E. rewrite E. split; [done|]. eapply touches_trans; [exact Ht|by apply touches_same]. }
  destruct (s_kind s); apply H; [done|by rewrite addMember_symMap| |by rewrite makeImport_symMap|done..].
  by case_decide.
Qed.

(** ** Definitions *)

Definition definition (T : symtab) (n : string) : option kind :=
  s ← symMap T !! n; if isDefined (s_kind s) then Some (s_kind s) else None.

(** [beats a b]: [a] replaces [b]: a section's symbol replaces any other kind, a
    common symbol other kinds and smaller common symbols. *)
Definition beats (a b : kind) : bool :=
  match a, b with
  | DefinedRegular _ _ _ _, DefinedRegular _ _ _ _ => false
  | DefinedRegular _ _ _ _, _ => true
  | DefinedCommon _ x, DefinedCommon _ y => y <? x
  | DefinedCommon _ _, DefinedRegular _ _ _ _ => false
  | DefinedCommon _ _, _ => true
  | _, _ => false
  end.

Definition pick (d c : option kind) : option kind :=
  match d, c with
  | None, _ => c
  | Some d, None => Some d
  | Some d, Some c => Some (if beats c d then c else d)
  end.

Definition not_weak (T : symtab) (n : string) : Prop := forall s, symMap T !! n = Some s -> isWeak s = false.

Lemma definition_touches n m T T' : touches n T T' -> m <> n -> definition T' m = definition T m.
Proof. intros H Hm. unfold definition. by rewrite H. Qed.

Lemma definition_at T n s :
  symMap T !! n = Some s -> definition T n = if isDefined (s_kind s) then Some (s_kind s) else None.
Proof. intros E. unfold definition. by rewrite E. Qed.

(** What an operation does at its own name: the symbol there afterwards. *)
Definition after (T T' : symtab) (n : string) (d : option kind) : Prop :=
  exists s, symMap T' !! n = Some s /\ isWeak s = false /\ touches n T T' /\
    (if isDefined (s_kind s) then Some (s_kind s) else None) = d.

Lemma after_replace n k T0 T s d :
  symMap T !! n = Some s -> touches n T0 T -> (if isDefined k then Some k else None) = d ->
  after T0 (replaceSymbol (Global n) k false T) n d.
Proof.
  intros Hs Ht Hd. destruct (replace_lookup n k false T s Hs) as (E & Ht2 & _).
  exists (replaced k false s). split; [done|]. split; [done|]. split; [by eapply touches_trans|done].
Qed.

Lemma after_same n T0 T T' s d :
  symMap T !! n = Some s -> symMap T' = symMap T -> isWeak s = false -> touches n T0 T ->
  (if isDefined (s_kind s) then Some (s_kind s) else None) = d -> after T0 T' n d.
Proof.
  intros Hs E Hw Ht Hd. exists s. rewrite E. split; [done|]. split; [done|]. split; [|done].
  eapply touches_trans; [exact Ht|by apply touches_same].
Qed.

(** The symbol found after the insertion of a name: its kind tells what is there,
    and a new symbol is undefined. *)
Lemma insert_file_found n bitcode T :
  not_weak T n ->
  exists new T1 s, insert_file cfg n bitcode T = (new, T1) /\ symMap T1 !! n = Some s /\ touches n T T1 /\
    isWeak s = false /\ definition T n = (if isDefined (s_kind s) then Some (s_kind s) else None) /\
    (new = true -> s_kind s = Undefined None).
Proof.
  intros Hw. pose proof (insert_file_lookup n bitcode T) as H. destruct (insert_file cfg n bitcode T) as [new T1].
  destruct H as (Hs & Hn & Ht & _). eexists new, T1, _. split; [done|]. split; [exact Hs|]. split; [done|].
  unfold definition, not_weak in *. destruct (symMap T !! n) as [s0|] eqn:E; cbn.
  - specialize (Hw s0 eq_refl). rewrite bool_decide_eq_false_2 in Hn by done. subst new.
    by destruct bitcode.
  - by destruct bitcode.
Qed.

Lemma insert_found n T :
  not_weak T n ->
  exists new T1 s, insert cfg n T = (new, T1) /\ symMap T1 !! n = Some s /\ touches n T T1 /\
    isWeak s = false /\ definition T n = (if isDefined (s_kind s) then Some (s_kind s) else None) /\
    (new = true -> s_kind s = Undefined None).
Proof.
  intros Hw. pose proof (insert_lookup n T) as H. destruct (insert cfg n T) as [new T1].
  destruct H as (Hs & Hn & Ht & _). eexists new, T1, _. split; [done|]. split; [exact Hs|]. split; [done|].
  unfold definition, not_weak in *. destruct (symMap T !! n) as [s0|] eqn:E; cbn; [|done].
  specialize (Hw s0 eq_refl). rewrite bool_decide_eq_false_2 in Hn by done. by subst new.
Qed.

Lemma addLazy_after new n k load T0 T s d :
  (forall T, symMap (load T) = symMap T) -> isDefined k = false ->
  symMap T !! n = Some s -> touches n T0 T -> isWeak s = false ->
  (if isDefined (s_kind s) then Some (s_kind s) else None) = d -> (new = true -> s_kind s = Undefined None) ->
  after T0 (addLazy cfg new n k load T) n d.
Proof.
  intros Hload Hk Hs Ht Hw Hd Hnew. unfold addLazy, find. destruct new.
  { rewrite (Hnew eq_refl) in Hd. subst d. eapply after_replace; [done|done|by rewrite Hk]. }
  rewrite Hs. destruct (_ || _); [by eapply after_same|].
  eapply (after_same n T0 (store (Global n) (with_pending true s) T)); [by apply lookup_insert_eq|by rewrite Hload|done| |done].
  eapply touches_trans; [exact Ht|by apply store_touches].
Qed.

(** Each operation: the definition of its name afterwards is picked from what
    was there and what it brings. *)
Abbreviation picks := (fun n c T T' => after T T' n (pick (definition T n) c)).

Ltac found n b T Hw :=
  destruct (insert_file_found n b T Hw) as (new & T1 & s & -> & Hs & Ht & Hws & Hd & Hnew);
  unfold find; rewrite Hs, Hd; clear Hd.
Ltac keep := eapply after_same; [eassumption|reflexivity|assumption|assumption|].
Ltac put := eapply after_replace; [eassumption|assumption|].
(** The kinds of the symbol found; a new one is undefined. *)
Ltac kinds :=
  match goal with Hnew : ?new = true -> s_kind ?s = _ |- _ =>
    destruct new; [rewrite (Hnew eq_refl)|destruct (s_kind s) eqn:Heqk; clear Hnew] end;
  cbn [orb negb isUndefined isLazy isDefined isRegular isCOFF andb pick beats].

Lemma addUndefined_picks n b ov T : not_weak T n -> picks n None T (addUndefined cfg n b ov T).
Proof.
  intros Hw. unfold addUndefined. found n b T Hw.
  assert (Hf : isLazy (s_kind s) = true -> after T (forceLazy (Global n) T1) n None).
  { intros Hl. destruct (forceLazy_lookup n T1 s Hs) as [E Ht2]. exists (with_pending true s).
    split; [done|]. split; [done|]. split; [by eapply touches_trans|]. cbn. by destruct (s_kind s). }
  kinds; try (put; done); try (keep; by rewrite Heqk); (destruct ov; [put; done|by apply Hf]).
Qed.

Lemma addLazyArchive_picks f sym T : not_weak T (as_name sym) ->
  addLazyArchive cfg ip f sym T = T \/ picks (as_name sym) None T (addLazyArchive cfg ip f sym T).
Proof.
  intros Hw. unfold addLazyArchive. destruct (isEC cfg && _); [by left|right].
  destruct (insert_found (as_name sym) T Hw) as (new & T1 & s & -> & Hs & Ht & Hws & Hd & Hnew).
  replace (pick _ None) with (definition T (as_name sym)) by (by destruct (definition T (as_name sym))).
  eapply addLazy_after; try done. intros. apply addMember_symMap.
Qed.

Lemma addLazyObject_picks f b n T : not_weak T n ->
  addLazyObject cfg ip f b n T = T \/ picks n None T (addLazyObject cfg ip f b n T).
Proof.
  intros Hw. unfold addLazyObject. destruct (isEC cfg && _); [by left|right].
  destruct (insert_file_found n b T Hw) as (new & T1 & s & -> & Hs & Ht & Hws & Hd & Hnew).
  replace (pick _ None) with (definition T n) by (by destruct (definition T n)).
  by eapply addLazy_after.
Qed.

Lemma addLazyDLLSymbol_picks f sym n T : not_weak T n -> picks n None T (addLazyDLLSymbol cfg f sym n T).
Proof.
  intros Hw. unfold addLazyDLLSymbol.
  destruct (insert_found n T Hw) as (new & T1 & s & -> & Hs & Ht & Hws & Hd & Hnew).
  replace (pick _ None) with (definition T n) by (by destruct (definition T n)).
  eapply addLazy_after; try done. intros. apply makeImport_symMap.
Qed.

Lemma addAbsolute_picks n va T : not_weak T n -> picks n (Some (DefinedAbsolute va)) T (addAbsolute cfg n va T).
Proof.
  intros Hw. unfold addAbsolute, open_. found n false T Hw.
  kinds; try (put; done); try (keep; by rewrite Heqk). case_match; keep; by rewrite Heqk.
Qed.

Lemma addSynthetic_picks n c T : not_weak T n -> picks n (Some (DefinedSynthetic c)) T (addSynthetic cfg n c T).
Proof.
  intros Hw. unfold addSynthetic, open_. found n false T Hw.
  kinds; try (put; done); keep; by rewrite Heqk.
Qed.

Lemma addRegular_picks f b n c v T :
  not_weak T n -> picks n (Some (DefinedRegular f false c v)) T (addRegular cfg f b n c v false T).
Proof.
  intros Hw. unfold addRegular. found n b T Hw. rewrite Hws.
  kinds; try (put; done); keep; by rewrite Heqk.
Qed.

Lemma addComdat_picks f b n v T :
  not_weak T n -> picks n (Some (DefinedRegular f true None v)) T (addComdat cfg f b n v T).1.
Proof.
  intros Hw. unfold addComdat. found n b T Hw.
  kinds; try (put; done); cbn [fst]; case_match; keep; by rewrite Heqk.
Qed.

Lemma addCommon_picks f b n sz T :
  not_weak T n -> picks n (Some (DefinedCommon f sz)) T (addCommon cfg f b n sz T).
Proof.
  intros Hw. unfold addCommon. found n b T Hw.
  kinds; try (put; done); try (keep; by rewrite Heqk). case_match; [put; done|keep; by rewrite Heqk].
Qed.

Lemma addImport_picks n k f T :
  not_weak T n -> isDefined k = true -> isCOFF k = false -> picks n (Some k) T (addImport cfg n k f T).1.
Proof.
  intros Hw Hk Hc. unfold addImport, open_. found n false T Hw.
  assert (Hb : forall d, beats k d = false) by (by intros []; destruct k).
  kinds; cbn [fst]; rewrite ?Hb; try (put; by rewrite Hk); keep; by rewrite Heqk.
Qed.

Lemma after_not_weak T T' n d : after T T' n d -> not_weak T' n.
Proof. intros (s & E & Hw & _) s' E'. congruence. Qed.
Lemma after_definition T T' n d : after T T' n d -> definition T' n = d.
Proof. intros (s & E & _ & _ & <-). by apply definition_at. Qed.
Lemma after_touches T T' n d : after T T' n d -> touches n T T'.
Proof. by intros (s & _ & _ & Ht & _). Qed.

Lemma step_picks T o :
  not_weak T (op_name o) -> is_weak_op o = false ->
  (step T o = T /\ candidate o = None) \/ picks (op_name o) (candidate o) T (step T o).
Proof.
  intros Hw Ho. destruct o; cbn [op_name candidate step is_weak_op] in *.
  - right. by apply addUndefined_picks.
  - destruct (addLazyArchive_picks file sym T Hw); [by left|by right].
  - destruct (addLazyObject_picks file bitcode n T Hw); [by left|by right].
  - right. by apply addLazyDLLSymbol_picks.
  - right. by apply addAbsolute_picks.
  - right. by apply addSynthetic_picks.
  - right. subst weak. by apply addRegular_picks.
  - right. by apply addComdat_picks.
  - right. by apply addCommon_picks.
  - right. by apply addImport_picks.
  - right. by apply addImport_picks.
Qed.

(** Operations touch the symbol of their name only, weak ones included. *)
Lemma addLazy_touches new n k load T :
  (forall T, symMap (load T) = symMap T) -> touches n T (addLazy cfg new n k load T).
Proof.
  intros Hl. unfold addLazy, find. destruct new; [apply modify_touches|].
  destruct (symMap T !! n); [|done]. destruct (_ || _); [done|].
  eapply touches_trans; [apply store_touches|by apply touches_same].
Qed.

Lemma forceLazy_touches n T : touches n T (forceLazy (Global n) T).
Proof.
  destruct (symMap T !! n) as [s|] eqn:E; [by eapply forceLazy_lookup|]. unfold forceLazy. cbn. by rewrite E.
Qed.

Lemma step_touches T o : touches (op_name o) T (step T o).
Proof.
  destruct o as [n b ov|f sym|f b n|f sym n|n va|n c|f b n c v w|f b n v|f b n sz|n f|n id f]; cbn [step op_name];
    unfold addUndefined, addLazyArchive, addLazyObject, addLazyDLLSymbol, addAbsolute, addSynthetic, addRegular,
      addComdat, addCommon, addImportData, addImportThunk, addImport.
  2,3: destruct (isEC cfg && _); [done|].
  2,4: match goal with |- context [insert cfg ?n ?U] => pose proof (insert_lookup n U) as H;
      destruct (insert cfg n U) as [new T1] end; destruct H as (_ & _ & Ht & _);
    (eapply touches_trans; [exact Ht|]); apply addLazy_touches; intros;
    first [apply addMember_symMap|apply makeImport_symMap].
  all: match goal with |- context [insert_file cfg ?n ?b ?U] => pose proof (insert_file_lookup n b U) as H;
      destruct (insert_file cfg n b U) as [new T1] end; destruct H as (_ & _ & Ht & _);
    (eapply touches_trans; [exact Ht|]).
  2: by apply addLazy_touches.
  all: match goal with |- context [find ?n ?U] => destruct (find n U) as [s|]; [|done] end;
    repeat case_match; cbn [fst]; first [done|apply forceLazy_touches|apply modify_touches].
Qed.

Lemma pick_None_r d : pick d None = d.
Proof. by destruct d. Qed.

(** One operation of the history, at a name that it defines by no weak symbol. *)
Lemma step_definition T o n :
  not_weak T n -> (op_name o = n -> is_weak_op o = false) ->
  definition (step T o) n = pick (definition T n) (if String.eqb (op_name o) n then candidate o else None) /\
  not_weak (step T o) n.
Proof.
  intros Hw Ho. destruct (String.eqb_spec (op_name o) n) as [<-|Hne].
  - destruct (step_picks T o Hw (Ho eq_refl)) as [[E Hc]|H]; [by rewrite E, Hc, pick_None_r|].
    split; [by apply after_definition in H|by eapply after_not_weak].
  - pose proof (step_touches T o) as Ht. rewrite pick_None_r. split; [by eapply definition_touches|].
    intros s Hs. rewrite Ht in Hs by done. by apply Hw.
Qed.

(** The definitions of [n] in a history, in order. *)
Definition candidates (n : string) (ops : list op) : list kind :=
  omap (fun o => if String.eqb (op_name o) n then candidate o else None) ops.

(** [d] is the first of the strongest of [l]. *)
Definition first_strongest (l : list kind) (d : kind) : Prop :=
  exists l1 l2, l = l1 ++ d :: l2 /\ Forall (fun c => beats d c = true) l1 /\ Forall (fun c => beats c d = false) l2.

Lemma beats_trans a b c : beats a b = true -> beats b c = true -> beats a c = true.
Proof. destruct a, b; try done; destruct c; try done; cbn; rewrite ?Z.ltb_lt; lia. Qed.
Lemma beats_weak a b c : beats a b = true -> beats c b = false -> beats a c = true.
Proof. destruct a, b; try done; destruct c; try done; cbn; rewrite ?Z.ltb_lt, ?Z.ltb_ge; lia. Qed.

Lemma first_strongest_snoc l d c :
  first_strongest l d -> first_strongest (l ++ [c]) (if beats c d then c else d).
Proof.
  intros (l1 & l2 & -> & H1 & H2). destruct (beats c d) eqn:E.
  - exists (l1 ++ d :: l2), []. split; [done|]. split; [|done].
    apply Forall_app. split; [eapply Forall_impl; [exact H1|]; intros x; by apply beats_trans|].
    constructor; [done|]. eapply Forall_impl; [exact H2|]. intros x Hx. by eapply beats_weak.
  - exists l1, (l2 ++ [c]). split; [by rewrite <- app_assoc|]. split; [done|]. apply Forall_app. by repeat constructor.
Qed.

Lemma run_snoc ops o T : replay (ops ++ [o]) T = step (replay ops T) o.
Proof. unfold replay. by rewrite fold_left_app. Qed.

(** C2: The symbol a name ends up with does not depend on how lookups,
    references and archives were interleaved with the definitions: after any
    history of operations, a name that no weak section symbol defines in it is
    defined exactly if some operation defined it, and then by the first of its
    strongest definitions: symbols of sections (COMDAT or not) before common symbols, the
    largest common symbol, and then absolute, synthetic and imported ones. *)
Theorem resolution_strongest (ops : list op) (n : string)
    (Hweak : Forall (fun o => op_name o = n -> is_weak_op o = false) ops) (T : symtab) (Hempty : symMap T = ∅) :
  match definition (replay ops T) n with
  | None => candidates n ops = []
  | Some d => first_strongest (candidates n ops) d
  end.
Proof.
  enough (H : not_weak (replay ops T) n /\ match definition (replay ops T) n with
    | None => candidates n ops = [] | Some d => first_strongest (candidates n ops) d end) by apply H.
  induction ops as [|o ops IH] using rev_ind.
  - cbn. unfold not_weak, definition. rewrite Hempty. split; [|by rewrite lookup_empty].
    intros s. by rewrite lookup_empty.
  - apply Forall_app in Hweak as [Hweak [Ho _]%Forall_cons]. destruct (IH Hweak) as [Hw Hd].
    destruct (step_definition (replay ops T) o n Hw Ho) as [Es Hw']. rewrite run_snoc. split; [done|].
    rewrite Es. unfold candidates. rewrite omap_app. fold (candidates n ops). cbn [omap list_omap].
    destruct (if String.eqb (op_name o) n then candidate o else None) as [c|] eqn:Ec;
      destruct (definition (replay ops T) n) as [d|]; cbn [pick]; rewrite ?app_nil_r; [|..|done|done].
    + by apply first_strongest_snoc.
    + rewrite Hd. exists [], []. by repeat constructor.
Qed.

(** ** Loading *)

Definition is_load (e : event) : bool :=
  match e with EnqueueArchiveMember _ _ | AddFile _ | MakeImport _ _ => true | _ => false end.

(** The assertion of [addLazyObject]: the file is still lazy. *)
Definition asserted (T : symtab) (o : op) : Prop :=
  match o with OpLazyObject f _ _ => f ∈ lazyFiles T | _ => True end.
Fixpoint all_asserted (T : symtab) (ops : list op) : Prop :=
  match ops with [] => True | o :: ops => asserted T o /\ all_asserted (step T o) ops end.

Lemma all_asserted_snoc ops T o : all_asserted T (ops ++ [o]) -> all_asserted T ops /\ asserted (replay ops T) o.
Proof. revert T. induction ops as [|o' ops IH]; intros T; cbn; [tauto|]. intros [? ?%IH]. unfold replay in *. cbn. tauto. Qed.

(** The books on what was loaded: the sets are what the log says, a lazy file
    was not loaded, and nothing is loaded twice. *)
Record loads_ok (lazy0 : gset nat) (T : symtab) : Prop := {
  lo_archive : forall f off, (f, off) ∈ archiveSeen T <-> EnqueueArchiveMember f off ∈ log T;
  lo_dll : forall f s, (f, s) ∈ dllSeen T <-> MakeImport f s ∈ log T;
  lo_lazy : forall f, f ∈ lazy0 <-> f ∈ lazyFiles T \/ AddFile f ∈ log T;
  lo_fresh : forall f, f ∈ lazyFiles T -> AddFile f ∉ log T;
  lo_once : NoDup (List.filter is_load (log T))
}.

Record progress (T T' : symtab) : Prop := {
  pr_log : log T `prefix_of` log T';
  pr_ok : forall lazy0, loads_ok lazy0 T -> loads_ok lazy0 T'
}.

#[local] Instance progress_preorder : PreOrder progress.
Proof.
  split; [by intros T; split|]. intros T1 T2 T3 [L1 O1] [L2 O2]. split; [by trans (log T2)|auto].
Qed.

Lemma progress_quiet T T' es :
  log T' = log T ++ es -> Forall (fun e => is_load e = false) es ->
  archiveSeen T' = archiveSeen T -> dllSeen T' = dllSeen T -> lazyFiles T' = lazyFiles T -> progress T T'.
Proof.
  intros El Hes Ea Ed Ez. split; [by exists es|]. intros lazy0 [A D Z F N].
  assert (Hin : forall e, is_load e = true -> e ∈ log T' <-> e ∈ log T).
  { intros e He. rewrite El, elem_of_app. split; [|by left]. intros [|Hin]; [done|].
    rewrite Forall_forall in Hes. by rewrite Hes in He. }
  split.
  - intros f off. by rewrite Ea, A, Hin.
  - intros f s. by rewrite Ed, D, Hin.
  - intros f. by rewrite Ez, Z, Hin.
  - intros f. rewrite Ez, Hin by done. apply F.
  - rewrite El, List.filter_app.
    assert (E : List.filter is_load es = []); [|by rewrite E, app_nil_r].
    clear -Hes. induction Hes as [|e es He _ IH]; [done|]. cbn. by rewrite He.
Qed.

Lemma progress_store r s T : progress T (store r s T).
Proof. destruct r; (eapply progress_quiet with []; [by rewrite app_nil_r|done..]). Qed.
Lemma progress_modify r f T : progress T (modify r f T).
Proof. unfold modify. destruct (deref T r); [apply progress_store|done]. Qed.
Lemma progress_emit e T : is_load e = false -> progress T (emit e T).
Proof. intros He. eapply progress_quiet with [e]; [done|by repeat constructor|done..]. Qed.
Lemma progress_insert n T : progress T (insert cfg n T).2.
Proof.
  unfold insert. destruct (symMap T !! n); [done|]. cbn.
  case_match; (eapply progress_quiet with []; [by rewrite app_nil_r|done..]).
Qed.
Lemma progress_insert_file n b T : progress T (insert_file cfg n b T).2.
Proof.
  unfold insert_file. pose proof (progress_insert n T) as H. destruct (insert cfg n T) as [new T1].
  destruct b; [done|]. cbn in *. trans T1; [done|apply progress_modify].
Qed.

Lemma progress_load e T T' :
  is_load e = true -> (forall f, e <> AddFile f) -> e ∉ log T -> log T' = log T ++ [e] -> lazyFiles T' = lazyFiles T ->
  (forall f off, (f, off) ∈ archiveSeen T' <-> (f, off) ∈ archiveSeen T \/ e = EnqueueArchiveMember f off) ->
  (forall f s, (f, s) ∈ dllSeen T' <-> (f, s) ∈ dllSeen T \/ e = MakeImport f s) ->
  forall lazy0, loads_ok lazy0 T -> loads_ok lazy0 T'.
Proof.
  intros He Hne Hn El Ez Ea Ed lazy0 [A D Z F N].
  assert (Hin : forall e', e' ∈ log T' <-> e' ∈ log T \/ e = e').
  { intros e'. rewrite El, elem_of_app, list_elem_of_singleton. naive_solver. }
  split.
  - intros f off. by rewrite Ea, A, Hin.
  - intros f s. by rewrite Ed, D, Hin.
  - intros f. rewrite Ez, Z, Hin. specialize (Hne f). tauto.
  - intros f Hf. rewrite Hin. rewrite Ez in Hf. intros [H|H]; [by eapply F|by eapply Hne].
  - rewrite El, List.filter_app. cbn. rewrite He. apply NoDup_app. split; [done|]. split; [|apply NoDup_singleton].
    intros x Hx Hx'. apply list_elem_of_singleton in Hx' as ->. destruct Hn.
    apply list_elem_of_In, filter_In in Hx as [Hx _]. by apply list_elem_of_In.
Qed.

Lemma addMember_progress f sym T :
  progress T (addMember f sym T) /\
  forall lazy0, loads_ok lazy0 T -> EnqueueArchiveMember f (as_childOffset sym) ∈ log (addMember f sym T).
Proof.
  unfold addMember. case_decide as Hin.
  - split; [done|]. intros lazy0 [A _ _ _ _]. by apply A.
  - split; [split; [by eexists|]|].
    + intros lazy0 Hok. pose proof Hok as [A _ _ _ _].
      apply (progress_load (EnqueueArchiveMember f (as_childOffset sym)) T); try done; [by rewrite <- A|..].
      * intros f' off'. cbn. set_solver.
      * intros f' s'. cbn. naive_solver.
    + intros _ _. cbn. apply elem_of_app. right. by apply list_elem_of_singleton.
Qed.

Lemma makeImport_progress f sym T :
  progress T (makeImport f sym T) /\
  forall lazy0, loads_ok lazy0 T -> MakeImport f sym ∈ log (makeImport f sym T).
Proof.
  unfold makeImport. case_decide as Hin.
  - split; [done|]. intros lazy0 [_ D _ _ _]. by apply D.
  - split; [split; [by eexists|]|].
    + intros lazy0 Hok. pose proof Hok as [_ D _ _ _].
      apply (progress_load (MakeImport f sym) T); try done; [by rewrite <- D|..].
      * intros f' off'. cbn. naive_solver.
      * intros f' s'. cbn. set_solver.
    + intros _ _. cbn. apply elem_of_app. right. by apply list_elem_of_singleton.
Qed.

Lemma loadObject_progress f T : f ∈ lazyFiles T ->
  progress T (loadObject f T) /\ AddFile f ∈ log (loadObject f T).
Proof.
  intros Hlz. split; [|cbn; apply elem_of_app; right; by apply list_elem_of_singleton].
  split; [by eexists|]. intros lazy0 [A D Z F N]. split; cbn.
  - intros f' off. rewrite A, elem_of_app, list_elem_of_singleton. naive_solver.
  - intros f' s. rewrite D, elem_of_app, list_elem_of_singleton. naive_solver.
  - intros f'. rewrite Z, elem_of_app, list_elem_of_singleton, elem_of_difference, elem_of_singleton.
    destruct (decide (f' = f)) as [->|Hne]; naive_solver.
  - intros f'. rewrite elem_of_difference, elem_of_singleton, elem_of_app, list_elem_of_singleton.
    intros [Hf Hne] [H|[= ->]]; [by eapply F|done].
  - rewrite List.filter_app. cbn. apply NoDup_app. split; [done|]. split; [|apply NoDup_singleton].
    intros x Hx Hx'. apply list_elem_of_singleton in Hx' as ->. apply (F f Hlz).
    apply list_elem_of_In, filter_In in Hx as [Hx _]. by apply list_elem_of_In.
Qed.

(** The event that loads a lazy symbol. *)
Definition lazy_event (k : kind) : option event :=
  match k with
  | LazyArchive f sym => Some (EnqueueArchiveMember f (as_childOffset sym))
  | LazyObject f => Some (AddFile f)
  | LazyDLLSymbol f sym => Some (MakeImport f sym)
  | _ => None
  end.

Definition lazy_file_ok (lazy0 : gset nat) (k : kind) : Prop :=
  match k with LazyObject f => f ∈ lazy0 | _ => True end.

Lemma forceLazy_progress n T : progress T (forceLazy (Global n) T).
Proof.
  unfold forceLazy. cbn [deref]. destruct (symMap T !! n) as [s|]; [|done].
  trans (store (Global n) (with_pending true s) T); [apply progress_store|].
  destruct (s_kind s); try done; [apply addMember_progress| |apply makeImport_progress].
  case_decide; [by apply loadObject_progress|done].
Qed.

Lemma forceLazy_loads n T s e lazy0 :
  symMap T !! n = Some s -> lazy_event (s_kind s) = Some e -> lazy_file_ok lazy0 (s_kind s) ->
  loads_ok lazy0 T -> e ∈ log (forceLazy (Global n) T).
Proof.
  intros Hs He Hf Hok. unfold forceLazy. cbn [deref]. rewrite Hs.
  pose proof (pr_ok _ _ (progress_store (Global n) (with_pending true s) T) lazy0 Hok) as Hok'.
  set (T1 := store (Global n) (with_pending true s) T) in *.
  destruct (s_kind s); try done; injection He as <-.
  - by eapply addMember_progress.
  - case_decide as Hin; [by apply loadObject_progress|]. by apply (lo_lazy _ _ Hok') in Hf as [Hf|Hf].
  - by eapply makeImport_progress.
Qed.

Lemma addLazy_progress new n k load T :
  (forall T', lazyFiles T' = lazyFiles T -> progress T' (load T')) -> progress T (addLazy cfg new n k load T).
Proof.
  intros Hl. unfold addLazy, find. destruct new; [apply progress_modify|].
  destruct (symMap T !! n); [|done]. destruct (_ || _); [done|].
  trans (store (Global n) (with_pending true s) T); [apply progress_store|by apply Hl].
Qed.

Lemma insert_lazyFiles n T : lazyFiles (insert cfg n T).2 = lazyFiles T.
Proof. unfold insert. destruct (symMap T !! n); [done|]. by case_match. Qed.
Lemma modify_lazyFiles r f T : lazyFiles (modify r f T) = lazyFiles T.
Proof. unfold modify, store. by destruct (deref T r), r. Qed.
Lemma insert_file_lazyFiles n b T : lazyFiles (insert_file cfg n b T).2 = lazyFiles T.
Proof.
  unfold insert_file. pose proof (insert_lazyFiles n T) as H. destruct (insert cfg n T) as [new T1]. cbn in *.
  destruct b; [done|]. by rewrite modify_lazyFiles.
Qed.

Lemma step_progress T o : asserted T o -> progress T (step T o).
Proof.
  intros Ha. destruct o as [n b ov|f sym|f b n|f sym n|n va|n c|f b n c v w|f b n v|f b n sz|n f|n id f]; cbn [step];
    unfold addUndefined, addLazyArchive, addLazyObject, addLazyDLLSymbol, addAbsolute, addSynthetic, addRegular,
      addComdat, addCommon, addImportData, addImportThunk, addImport.
  2,3: destruct (isEC cfg && _); [done|].
  2,4: match goal with |- context [insert cfg ?n ?U] => pose proof (progress_insert n U) as Hp;
      destruct (insert cfg n U) as [new T1]; cbn in Hp; trans T1; [done|] end; apply addLazy_progress;
    intros; first [apply addMember_progress|apply makeImport_progress].
  all: match goal with |- context [insert_file cfg ?n ?b ?U] => pose proof (progress_insert_file n b U) as Hp;
      pose proof (insert_file_lazyFiles n b U) as Hz; destruct (insert_file cfg n b U) as [new T1]; cbn in Hp, Hz;
      (trans T1; [done|]) end.
  2: apply addLazy_progress; intros T' ET; apply loadObject_progress; by rewrite ET, Hz.
  all: match goal with |- context [find ?n ?U] => destruct (find n U) as [s|]; [|done] end;
    repeat case_match; cbn [fst];
    first [done|apply forceLazy_progress|apply progress_modify|by apply progress_emit].
Qed.

(** ** Demand and offer *)

Definition demands (n : string) (o : op) : Prop := exists b, o = OpUndefined n b false.

(** The event that an offer of [n] leads to. *)
Definition offer (n : string) (o : op) : option event :=
  if String.eqb (op_name o) n then
    match o with
    | OpLazyArchive f sym => Some (EnqueueArchiveMember f (as_childOffset sym))
    | OpLazyObject f _ _ => Some (AddFile f)
    | OpLazyDLL f sym _ => Some (MakeImport f sym)
    | _ => None
    end
  else None.

(** A load that was offered for [n] was asked for. *)
Definition loaded (n : string) (ops : list op) (T : symtab) : Prop :=
  exists o e, o ∈ ops /\ offer n o = Some e /\ e ∈ log T.

(** What the symbol of [n] remembers of the history. *)
Definition remembers (lazy0 : gset nat) (n : string) (ops : list op) (T : symtab) : Prop :=
  match symMap T !! n with
  | None => Forall (fun o => op_name o <> n) ops
  | Some s =>
      isDefined (s_kind s) = true \/
      (s_kind s = Undefined None /\
       (if pendingArchiveLoad s then loaded n ops T else Forall (fun o => offer n o = None) ops)) \/
      (exists o e, o ∈ ops /\ offer n o = Some e /\ lazy_event (s_kind s) = Some e /\
         lazy_file_ok lazy0 (s_kind s) /\
         (if pendingArchiveLoad s then loaded n ops T else Forall (fun o => ~ demands n o) ops))
  end.

Lemma loaded_more n ops o T T' : progress T T' -> loaded n ops T -> loaded n (ops ++ [o]) T'.
Proof.
  intros [L _] (o' & e & Ho & He & Hl). exists o', e. split; [apply elem_of_app; by left|]. split; [done|].
  by eapply elem_of_prefix.
Qed.

(** Operations on other names. *)
Lemma remembers_frame lazy0 n ops o T T' :
  progress T T' -> symMap T' !! n = symMap T !! n -> op_name o <> n ->
  remembers lazy0 n ops T -> remembers lazy0 n (ops ++ [o]) T'.
Proof.
  intros Hp E Hn. unfold remembers. rewrite E. destruct (symMap T !! n) as [s|].
  2:{ intros H. apply Forall_app. by repeat constructor. }
  assert (Ho : offer n o = None) by (unfold offer; by destruct (String.eqb_spec (op_name o) n)).
  intros [?|[[Hk H]|(o' & e & Hin & Ho' & He & Hf & H)]]; [by left|right; left|right; right].
  - split; [done|]. destruct (pendingArchiveLoad s); [by eapply loaded_more|]. apply Forall_app. by repeat constructor.
  - exists o', e. split; [apply elem_of_app; by left|]. do 3 (split; [done|]).
    destruct (pendingArchiveLoad s); [by eapply loaded_more|]. apply Forall_app. split; [done|]. repeat constructor.
    intros [b ->]. by apply Hn.
Qed.

(** The symbol found after the insertion of a name, with its kind and its bit. *)
Lemma insert_file_kept n b T :
  exists new T1 s1, insert_file cfg n b T = (new, T1) /\ symMap T1 !! n = Some s1 /\ progress T T1 /\
    match symMap T !! n with
    | None => new = true
    | Some s => new = false /\ s_kind s1 = s_kind s /\ pendingArchiveLoad s1 = pendingArchiveLoad s
    end.
Proof.
  pose proof (insert_file_lookup n b T) as H. pose proof (progress_insert_file n b T) as Hp.
  destruct (insert_file cfg n b T) as [new T1]. destruct H as (Hs & Hn & _ & _). cbn in Hp.
  eexists new, T1, _. split; [done|]. split; [exact Hs|]. split; [done|].
  destruct (symMap T !! n) as [s|]; [|by subst]. subst new. by destruct b.
Qed.

Lemma insert_kept n T :
  exists new T1 s1, insert cfg n T = (new, T1) /\ symMap T1 !! n = Some s1 /\ progress T T1 /\
    match symMap T !! n with
    | None => new = true
    | Some s => new = false /\ s_kind s1 = s_kind s /\ pendingArchiveLoad s1 = pendingArchiveLoad s
    end.
Proof.
  pose proof (insert_lookup n T) as H. pose proof (progress_insert n T) as Hp.
  destruct (insert cfg n T) as [new T1]. destruct H as (Hs & Hn & _ & _). cbn in Hp.
  eexists new, T1, _. split; [done|]. split; [exact Hs|]. split; [done|].
  destruct (symMap T !! n) as [s|]; by subst.
Qed.

Lemma step_defines T o :
  candidate o <> None -> exists s, symMap (step T o) !! op_name o = Some s /\ isDefined (s_kind s) = true.
Proof.
  destruct o as [n b ov|f sym|f b n|f sym n|n va|n c|f b n c v w|f b n v|f b n sz|n f|n id f]; try done; intros _;
    cbn [step op_name]; unfold addAbsolute, addSynthetic, addRegular, addComdat, addCommon, addImportData,
      addImportThunk, addImport, open_, find.
  all: match goal with |- context [insert_file cfg ?n ?b ?U] =>
      destruct (insert_file_kept n b U) as (new & T1 & s & -> & Hs & _) end; rewrite Hs.
  all: destruct new; [|destruct (s_kind s) eqn:Hk]; cbn [orb negb isUndefined isLazy isRegular isCOFF fst];
    repeat case_match; cbn [fst];
    first [ by eexists; split; [exact Hs|by rewrite Hk]
          | match goal with |- context [replaceSymbol (Global ?n) ?k ?w ?U] =>
              destruct (replace_lookup n k w U s Hs) as [E _]; eexists; split; [exact E|done] end ].
Qed.

Lemma addLazy_remembers lazy0 n ops o new k e load T T1 s1 :
  progress T T1 -> loads_ok lazy0 T -> remembers lazy0 n ops T ->
  symMap T1 !! n = Some s1 ->
  match symMap T !! n with
  | None => new = true
  | Some s => new = false /\ s_kind s1 = s_kind s /\ pendingArchiveLoad s1 = pendingArchiveLoad s
  end ->
  op_name o = n -> offer n o = Some e -> lazy_event k = Some e -> lazy_file_ok lazy0 k ->
  (forall T, symMap (load T) = symMap T) ->
  (forall T', lazyFiles T' = lazyFiles T1 -> loads_ok lazy0 T' -> e ∈ log (load T')) ->
  remembers lazy0 n (ops ++ [o]) (addLazy cfg new n k load T1).
Proof.
  intros Hp1 Hok Hr Hs1 Hs Hn Ho Hk Hf Hmap Hload. unfold remembers in Hr. unfold addLazy, find.
  assert (Hnd : ~ demands n o) by (intros [b ->]; unfold offer in Ho; by destruct (String.eqb _ n)).
  destruct (symMap T !! n) as [s|].
  2:{ subst new. destruct (replace_lookup n k false T1 s1 Hs1) as [E _]. unfold remembers. rewrite E.
      right; right. exists o, e. split; [apply elem_of_app; right; by apply list_elem_of_singleton|].
      do 3 (split; [done|]). cbn. apply Forall_app. split; [|by repeat constructor].
      eapply Forall_impl; [exact Hr|]. intros o' Hne [b ->]. by apply Hne. }
  destruct Hs as (-> & Ek & Ep). rewrite Hs1.
  set (T2 := store (Global n) (with_pending true s1) T1).
  assert (Hkeep : forall T', T' = T1 -> (isUndefined (s_kind s1) = true -> pendingArchiveLoad s1 = true) ->
    remembers lazy0 n (ops ++ [o]) T').
  { intros T' -> Hpend. unfold remembers. rewrite Hs1, Ek, Ep.
    destruct Hr as [?|[[Hu H]|(o' & e' & Hin & Ho' & He & Hf' & H)]]; [by left|right; left|right; right].
    - split; [done|]. rewrite <- Ep in *. rewrite Hpend in * by (by rewrite Ek, Hu). by eapply loaded_more.
    - exists o', e'. split; [apply elem_of_app; by left|]. do 3 (split; [done|]).
      destruct (pendingArchiveLoad s); [by eapply loaded_more|]. apply Forall_app. by repeat constructor. }
  destruct (isUndefined (s_kind s1)) eqn:Eu; cbn [negb orb]; [|by apply Hkeep].
  destruct Hr as [Hd|[[Hu H]|(o' & e' & _ & _ & He & _)]].
  1:{ rewrite Ek in Eu. by destruct (s_kind s). }
  2:{ rewrite Ek in Eu. by destruct (s_kind s). }
  unfold weakAliasOf. rewrite Ek, Hu. cbn.
  destruct (pendingArchiveLoad s1) eqn:Epend; [by apply Hkeep|].
  unfold remembers. rewrite Hmap. cbn. rewrite lookup_insert_eq. right; left. cbn. split; [by rewrite Ek|].
  exists o, e. split; [apply elem_of_app; right; by apply list_elem_of_singleton|]. split; [done|].
  apply Hload; [done|]. apply (pr_ok _ _ (progress_store (Global n) (with_pending true s1) T1)). by apply (pr_ok _ _ Hp1).
Qed.

Lemma addUndefined_remembers lazy0 n ops b T :
  loads_ok lazy0 T -> remembers lazy0 n ops T ->
  remembers lazy0 n (ops ++ [OpUndefined n b false]) (addUndefined cfg n b false T).
Proof.
  intros Hok Hr. pose proof (step_progress T (OpUndefined n b false) I) as Hp. cbn in Hp.
  unfold addUndefined, find in *.
  destruct (insert_file_kept n b T) as (new & T1 & s1 & Ei & Hs1 & Hp1 & Hs). rewrite Ei, Hs1 in *.
  unfold remembers in Hr.
  assert (Ho : offer n (OpUndefined n b false) = None) by (unfold offer; by destruct (String.eqb _ n)).
  destruct (symMap T !! n) as [s|].
  2:{ subst new. destruct (replace_lookup n (Undefined None) false T1 s1 Hs1) as [E _]. unfold remembers. cbn [orb].
      rewrite E. right; left. split; [done|]. cbn. apply Forall_app. split; [|by repeat constructor].
      eapply Forall_impl; [exact Hr|]. intros o Hne. unfold offer. by destruct (String.eqb_spec (op_name o) n). }
  destruct Hs as (-> & Ek & Ep). rewrite andb_false_r in *. cbn [orb] in *.
  destruct (isLazy (s_kind s1)) eqn:El.
  - destruct Hr as [Hd|[[Hu H]|(o & e & Hin & Ho' & He & Hf & H)]]; [rewrite Ek in El; by destruct (s_kind s)|
      rewrite Ek, Hu in El; done|].
    destruct (forceLazy_lookup n T1 s1 Hs1) as [E _]. unfold remembers. rewrite E. right; right.
    exists o, e. split; [apply elem_of_app; by left|]. cbn. rewrite Ek. do 3 (split; [done|]).
    exists o, e. split; [apply elem_of_app; by left|]. split; [done|].
    apply (forceLazy_loads n T1 s1 e lazy0); [done|by rewrite Ek|by rewrite Ek|by apply (pr_ok _ _ Hp1)].
  - unfold remembers. rewrite Hs1, Ek, Ep. destruct Hr as [?|[[Hu H]|(o & e & _ & _ & He & _)]]; [by left|right; left|].
    + split; [done|]. destruct (pendingArchiveLoad s); [by eapply loaded_more|]. apply Forall_app. by repeat constructor.
    + rewrite Ek in El. by destruct (s_kind s).
Qed.

Lemma step_remembers lazy0 n ops o T :
  isEC cfg = false -> (forall b, o <> OpUndefined n b true) ->
  asserted T o ->
  loads_ok lazy0 T -> remembers lazy0 n ops T -> remembers lazy0 n (ops ++ [o]) (step T o).
Proof.
  intros Hec Hov Hlz Hok Hr. destruct (decide (op_name o = n)) as [Hn|Hn].
  2:{ apply (remembers_frame lazy0 n ops o T); [by apply step_progress| |done|done].
    apply step_touches. by apply not_eq_sym. }
  destruct (candidate o) as [k|] eqn:Ec.
  { destruct (step_defines T o ltac:(by rewrite Ec)) as (s & E & Hd). rewrite Hn in E. unfold remembers. rewrite E. by left. }
  destruct o as [m b ov|f sym|f b m|f sym m|n' va|n' c|f b n' c v w|f b n' v|f b n' sz|n' f|n' id f]; try done;
    cbn [op_name] in Hn; subst; cbn [step].
  - destruct ov; [by destruct (Hov b)|]. by apply addUndefined_remembers.
  - unfold addLazyArchive. rewrite Hec. cbn [andb].
    destruct (insert_kept (as_name sym) T) as (new & T1 & s1 & -> & Hs1 & Hp1 & Hs).
    eapply (addLazy_remembers lazy0 _ ops _ new _ (EnqueueArchiveMember f (as_childOffset sym)) _ T); try done.
    + unfold offer. cbn. by rewrite String.eqb_refl.
    + intros. apply addMember_symMap.
    + intros. by eapply addMember_progress.
  - unfold addLazyObject. rewrite Hec. cbn [andb].
    destruct (insert_file_kept n b T) as (new & T1 & s1 & Ei & Hs1 & Hp1 & Hs). rewrite Ei.
    eapply (addLazy_remembers lazy0 _ ops _ new _ (AddFile f) _ T); try done.
    + unfold offer. cbn. by rewrite String.eqb_refl.
    + cbn. apply (lo_lazy _ _ Hok). by left.
    + intros T' ET _. pose proof (insert_file_lazyFiles n b T) as Hz. apply loadObject_progress.
      rewrite ET. rewrite Ei in Hz. cbn in Hz. by rewrite Hz.
  - unfold addLazyDLLSymbol.
    destruct (insert_kept n T) as (new & T1 & s1 & -> & Hs1 & Hp1 & Hs).
    eapply (addLazy_remembers lazy0 _ ops _ new _ (MakeImport f sym) _ T); try done.
    + unfold offer. cbn. by rewrite String.eqb_refl.
    + intros. apply makeImport_symMap.
    + intros. by eapply makeImport_progress.
Qed.

(** C11: What is asked for and offered is loaded, in whatever order the reference
    and the archive, lazy object or DLL come: outside ARM64EC, after any history in
    which a name is referenced, some file offers it and no weak external overrides
    a lazy symbol, the name is defined or the load of one of its offers is in the
    log. Nothing is loaded twice: no archive member, no lazy object and no DLL
    symbol, when lazy objects only offer names while they are lazy, as
    [addLazyObject] asserts. *)
Theorem demand_meets_offer (ops : list op) (n : string) (T : symtab)
    (Hec : isEC cfg = false) (Hempty : symMap T = ∅) (Hstart : archiveSeen T = ∅ /\ dllSeen T = ∅ /\ log T = [])
    (Hlazy : all_asserted T ops)
    (Hoverride : Forall (fun o => match o with OpUndefined _ _ true => False | _ => True end) ops)
    (Hdemand : exists o, o ∈ ops /\ demands n o) (Hoffer : exists o e, o ∈ ops /\ offer n o = Some e) :
  (is_Some (definition (replay ops T) n) \/ loaded n ops (replay ops T)) /\
  NoDup (List.filter is_load (log (replay ops T))).
Proof.
  destruct Hstart as (Ha & Hd & Hl).
  assert (H0 : loads_ok (lazyFiles T) T).
  { split; rewrite ?Ha, ?Hd, ?Hl; try constructor; try set_solver; auto. }
  assert (H : loads_ok (lazyFiles T) (replay ops T) /\ remembers (lazyFiles T) n ops (replay ops T)).
  { clear Hdemand Hoffer. induction ops as [|o ops IH] using rev_ind.
    - split; [done|]. unfold remembers. cbn. by rewrite Hempty, lookup_empty.
    - apply all_asserted_snoc in Hlazy as [Hlazy Hlo]. apply Forall_app in Hoverride as [Hov [Ho _]%Forall_cons].
      destruct (IH Hlazy Hov) as [Hok Hr]. rewrite run_snoc. split; [by apply (pr_ok _ _ (step_progress _ _ Hlo))|].
      apply step_remembers; try done. by intros b ->. }
  destruct H as [Hok Hr]. split; [|by eapply lo_once].
  unfold definition. unfold remembers in Hr. destruct Hdemand as (od & Hod & Hdem), Hoffer as (oo & e & Hoo & Hoff).
  destruct (symMap (replay ops T) !! n) as [s|]; cbn.
  2:{ rewrite Forall_forall in Hr. destruct (Hr _ Hod). by destruct Hdem as [b ->]. }
  destruct Hr as [Hdef|[[Hk H]|(o' & e' & _ & _ & _ & _ & H)]]; [rewrite Hdef; by left; eexists|right..].
  - destruct (pendingArchiveLoad s); [done|]. rewrite Forall_forall in H. specialize (H _ Hoo). congruence.
  - destruct (pendingArchiveLoad s); [done|]. rewrite Forall_forall in H. by destruct (H _ Hod).
Qed.

(** ** Remaining undefined symbols *)

(** A symbol stays as it is, or stays defined. *)
Definition steady (T T' : symtab) (n : string) : Prop :=
  forall s, symMap T !! n = Some s -> exists s', symMap T' !! n = Some s' /\
    (s' = s \/ (isDefined (s_kind s) = true /\ isDefined (s_kind s') = true)).

Lemma steady_refl T n : steady T T n.
Proof. intros s Hs. exists s. auto. Qed.

Lemma steady_trans T1 T2 T3 n : steady T1 T2 n -> steady T2 T3 n -> steady T1 T3 n.
Proof.
  intros H1 H2 s Hs. destruct (H1 s Hs) as (s2 & E2 & D2). destruct (H2 s2 E2) as (s3 & E3 & D3).
  exists s3. split; [done|]. destruct D2 as [->|[? ?]], D3 as [->|[? ?]]; auto.
Qed.

Lemma steady_touches m n T T' : touches m T T' -> n <> m -> steady T T' n.
Proof. intros H Hn s Hs. exists s. rewrite H by done. auto. Qed.

Lemma store_defined_steady r s' T n :
  isDefined (s_kind s') = true ->
  (forall s, deref T r = Some s -> isDefined (s_kind s) = true) -> steady T (store r s' T) n.
Proof.
  intros Hd Hr s Hs. destruct r as [m|i]; [|exists s; auto]. cbn in *.
  destruct (decide (m = n)) as [->|Hne].
  - exists s'. rewrite lookup_insert_eq. split; [done|]. right. auto.
  - exists s. rewrite lookup_insert_ne by done. auto.
Qed.

Lemma definedRef_Some T r d : definedRef T r = Some d -> exists s, d = r /\ deref T r = Some s /\ isDefined (s_kind s) = true.
Proof. unfold definedRef. destruct (deref T r) as [s|]; [|done]. case_match; [|done]. intros [= <-]. by exists s. Qed.

(** An automatic import: the symbol is defined if it succeeds, and others are steady. *)
Lemma handleMinGW_spec m T b T' :
  handleMinGWAutomaticImport cfg m T = (b, T') ->
  (forall n, n <> m -> steady T T' n) /\ (exists es, log T' = log T ++ es) /\
  (if b then exists s, symMap T' !! m = Some s /\ isDefined (s_kind s) = true else symMap T' = symMap T).
Proof.
  unfold handleMinGWAutomaticImport. destruct (impSymbol m T) as [imp|] eqn:Ei.
  2:{ intros [= <- <-]. split; [by intros; apply steady_refl|]. split; [by exists []; rewrite app_nil_r|done]. }
  assert (Hi : exists i, deref T imp = Some i /\ isDefined (s_kind i) = true).
  { unfold impSymbol in Ei. destruct (starts_with _ _); [done|]. apply definedRef_Some in Ei as (i & -> & Hi & Hd). by exists i. }
  destruct Hi as (i & -> & Hd). destruct (match s_kind i with DefinedImportData _ | DefinedRegular _ _ _ _ => true | _ => false end).
  2:{ intros [= <- <-]. split; [intros n Hn; by eapply steady_touches; [apply (touches_same m)|]|]. split; [by eexists|done]. }
  set (T1 := store (Global m) (with_pseudo true i) T).
  assert (E1 : symMap T1 !! m = Some (with_pseudo true i)) by apply lookup_insert_eq.
  assert (S1 : forall n, n <> m -> steady T T1 n) by (intros n Hn; eapply steady_touches; [apply store_touches|done]).
  assert (Hdone : forall T', T' = T1 -> (forall n, n <> m -> steady T T' n) /\ (exists es, log T' = log T ++ es) /\
    exists s, symMap T' !! m = Some s /\ isDefined (s_kind s) = true).
  { intros T2 ->. split; [done|]. split; [by exists []; rewrite app_nil_r|]. by eexists. }
  set (ref := Global (".refptr." ++ m)). destruct (deref T1 ref) as [rs|] eqn:Er; cbn [fmap option_fmap option_map];
    [|intros [= <- <-]; by apply Hdone].
  destruct (s_kind rs) as [| | | |rf rc [c|] rv| | | | | |] eqn:Ek; try (intros [= <- <-]; by apply Hdone).
  destruct (chunks T1 !! c) as [ci|]; [|intros [= <- <-]; by apply Hdone].
  destruct (_ && _ && _); [|intros [= <- <-]; by apply Hdone]. intros [= <- <-].
  assert (Hst : forall n, steady T1 (store ref i T1) n).
  { intros n. apply store_defined_steady; [done|]. intros s Hs. rewrite Er in Hs. injection Hs as <-. by rewrite Ek. }
  split; [intros n Hn; eapply steady_trans; [by apply S1|]; apply (Hst n)|]. split; [by exists []; rewrite app_nil_r|].
  destruct (Hst m _ E1) as (s' & E & [->|[_ ?]]); by eexists.
Qed.

(** The outcome for an undefined symbol that objects use. *)
Definition settled (n : string) (r : resolution) (T' : symtab) : Prop :=
  match r with
  | Alias | Unresolved => True
  | PchSymbol => str_contains "_PchSym_" n = true
  | LocalImport _ | AutoImported => exists s, symMap T' !! n = Some s /\ isDefined (s_kind s) = true
  | NotUndefined | Unused => False
  end.

Lemma remaining_spec T m r T' :
  remaining cfg ip T m = (r, T') ->
  (forall n, n <> m -> steady T T' n) /\ (exists es, log T' = log T ++ es) /\
  (forall s, symMap T !! m = Some s -> isUndefined (s_kind s) = true -> isUsedInRegularObj s = true ->
     settled m r T').
Proof.
  unfold remaining, find. destruct (symMap T !! m) as [s|] eqn:Es.
  2:{ intros [= <- <-]. split; [by intros; apply steady_refl|]. split; [by exists []; rewrite app_nil_r|done]. }
  assert (Hsame : forall (P : Prop), P -> (forall n, n <> m -> steady T T n) /\ (exists es, log T = log T ++ es) /\ P).
  { intros P HP. split; [by intros; apply steady_refl|]. split; [by exists []; rewrite app_nil_r|done]. }
  destruct (isUndefined (s_kind s)) eqn:Eu; cbn [negb].
  2:{ intros [= <- <-]. apply Hsame. intros s' [= <-] Hu. congruence. }
  destruct (isUsedInRegularObj s) eqn:Eo; cbn [negb].
  2:{ intros [= <- <-]. apply Hsame. intros s' [= <-] _ Ho. congruence. }
  destruct (getWeakAlias T s); [intros [= <- <-]; by apply Hsame|].
  destruct (if starts_with "__imp_" m then _ else None) as [d|].
  { destruct (replace_lookup m (DefinedLocalImport d) false T s Es) as (E & Ht & El). intros [= <- <-].
    split; [|split].
    - intros n Hn. by eapply steady_touches.
    - exists []. by rewrite app_nil_r.
    - intros ? _ _ _. by exists (replaced (DefinedLocalImport d) false s). }
  destruct (str_contains "_PchSym_" m) eqn:Ep; [intros [= <- <-]; by apply Hsame|].
  assert (Hun : forall T1, (forall n, n <> m -> steady T T1 n) -> (exists es, log T1 = log T ++ es) -> symMap T1 = symMap T ->
    let T2 := if forceUnresolved cfg then replaceSymbol (Global m) (DefinedAbsolute 0) false T1 else T1 in
    (forall n, n <> m -> steady T T2 n) /\ (exists es, log T2 = log T ++ es)).
  { intros T1 S1 [es L1] M1. cbv zeta. destruct (forceUnresolved cfg); [|by split; [|exists es]].
    destruct (replace_lookup m (DefinedAbsolute 0) false T1 s ltac:(by rewrite M1)) as (_ & Ht & El).
    split; [|exists es; by rewrite El]. intros n Hn. eapply steady_trans; [by apply S1|by eapply steady_touches]. }
  destruct (autoImport cfg).
  - destruct (handleMinGWAutomaticImport cfg m T) as [b T1] eqn:Em.
    destruct (handleMinGW_spec m T b T1 Em) as (S1 & L1 & D1). destruct b; intros [= <- <-].
    + split; [done|]. split; [done|]. intros ? _ _ _. exact D1.
    + destruct (Hun T1 S1 L1 D1). by split.
  - intros [= <- <-]. destruct (Hun T) as [S2 L2]; [by intros; apply steady_refl|by exists []; rewrite app_nil_r|done|].
    by split.
Qed.

Lemma remaining_all_spec order T l T' :
  remaining_all cfg ip order T = (l, T') -> NoDup order ->
  l.*1 = order /\ (forall n, n ∉ order -> steady T T' n) /\ (exists es, log T' = log T ++ es) /\
  forall n s, n ∈ order -> symMap T !! n = Some s -> isUndefined (s_kind s) = true -> isUsedInRegularObj s = true ->
    exists r, (n, r) ∈ l /\ settled n r T'.
Proof.
  revert T l T'. induction order as [|m order IH]; intros T l T'; cbn [remaining_all].
  { intros [= <- <-] _. split; [done|]. split; [by intros; apply steady_refl|].
    split; [by exists []; rewrite app_nil_r|]. by intros n s ?%elem_of_nil. }
  destruct (remaining cfg ip T m) as [r T1] eqn:Em. destruct (remaining_all cfg ip order T1) as [l1 T2] eqn:El.
  intros [= <- <-] [Hm Hnd]%NoDup_cons. destruct (remaining_spec _ _ _ _ Em) as (S1 & [es1 L1] & D1).
  destruct (IH _ _ _ El Hnd) as (F2 & S2 & [es2 L2] & D2).
  split; [by rewrite fmap_cons, F2|]. split; [|split].
  - intros n [Hn Hni]%not_elem_of_cons. eapply steady_trans; [by apply S1|by apply S2].
  - exists (es1 ++ es2). by rewrite L2, L1, app_assoc.
  - intros n s [->|Hin]%elem_of_cons Hs Hu Ho.
    + exists r. split; [apply list_elem_of_here|]. specialize (D1 s Hs Hu Ho).
      destruct r; try done; destruct D1 as (s1 & E1 & Hd1); destruct (S2 m Hm s1 E1) as (s2 & E2 & [->|[_ ?]]); by eexists.
    + assert (Hne : n <> m) by (intros ->; done). destruct (S1 n Hne s Hs) as (s1 & E1 & D).
      destruct D as [->|[Hd _]]; [|unfold isDefined in Hd; by rewrite Hu in Hd].
      destruct (D2 n s Hin E1 Hu Ho) as (r' & Hr & Hset). exists r'. split; [by apply list_elem_of_further|done].
Qed.

(** While the symbols are walked the roots stay, and nothing is reported. *)
Definition is_report (e : event) : bool :=
  match e with ReportUndefinedRoot _ | ReportUndefined _ => true | _ => false end.
Definition quiet (T T' : symtab) : Prop :=
  gcroot T' = gcroot T /\ exists es, log T' = log T ++ es /\ Forall (fun e => is_report e = false) es.

#[local] Instance quiet_preorder : PreOrder quiet.
Proof.
  split; [intros T; split; [done|]; exists []; by rewrite app_nil_r|].
  intros T1 T2 T3 [G1 (es1 & L1 & F1)] [G2 (es2 & L2 & F2)]. split; [congruence|].
  exists (es1 ++ es2). by rewrite L2, L1, app_assoc, Forall_app.
Qed.

Lemma quiet_same T T' : gcroot T' = gcroot T -> log T' = log T -> quiet T T'.
Proof. intros Hg Hl. split; [done|]. exists []. by rewrite app_nil_r. Qed.
Lemma quiet_store r s T : quiet T (store r s T).
Proof. by destruct r; apply quiet_same. Qed.
Lemma quiet_modify r f T : quiet T (modify r f T).
Proof. unfold modify. destruct (deref T r); [apply quiet_store|reflexivity]. Qed.

Lemma handleMinGW_quiet m T : quiet T (handleMinGWAutomaticImport cfg m T).2.
Proof.
  unfold handleMinGWAutomaticImport. destruct (impSymbol m T) as [imp|]; [|reflexivity].
  destruct (deref T imp) as [i|]; [|reflexivity]. destruct (match s_kind i with DefinedImportData _ | DefinedRegular _ _ _ _ => true | _ => false end).
  2:{ split; [done|]. eexists. split; [reflexivity|]. by repeat constructor. }
  set (T1 := store (Global m) (with_pseudo true i) T). trans T1; [apply quiet_store|].
  destruct (s_kind <$> deref T1 _) as [[| | | |rf rc [c|] rv| | | | | |]|]; try reflexivity.
  destruct (chunks T1 !! c) as [ci|]; [|reflexivity]. case_match; [|reflexivity]. cbn [snd].
  etrans; [|apply quiet_store]. by apply quiet_same.
Qed.

Lemma remaining_quiet T m : quiet T (remaining cfg ip T m).2.
Proof.
  unfold remaining. destruct (find m T) as [s|]; [|reflexivity]. do 2 (case_match; [reflexivity|]).
  destruct (getWeakAlias T s); [reflexivity|]. destruct (if starts_with "__imp_" m then _ else None); [apply quiet_modify|].
  case_match; [reflexivity|].
  assert (Hm : quiet T (if autoImport cfg then handleMinGWAutomaticImport cfg m T else (false, T)).2)
    by (destruct (autoImport cfg); [apply handleMinGW_quiet|reflexivity]).
  destruct (if autoImport cfg then _ else _) as [b T1]. cbn [snd] in Hm. etrans; [exact Hm|]. destruct b; [reflexivity|].
  cbn [snd]. destruct (forceUnresolved cfg); [apply quiet_modify|reflexivity].
Qed.

Lemma remaining_all_quiet order T : quiet T (remaining_all cfg ip order T).2.
Proof.
  revert T. induction order as [|m order IH]; intros T; cbn [remaining_all]; [reflexivity|].
  pose proof (remaining_quiet T m) as H. destruct (remaining cfg ip T m) as [r T1]. specialize (IH T1).
  destruct (remaining_all cfg ip order T1) as [l T2]. cbn in *. by trans T1.
Qed.

Lemma emit_all_spec es T : symMap (emit_all es T) = symMap T /\ log (emit_all es T) = log T ++ es.
Proof.
  unfold emit_all. revert T. induction es as [|e es IH]; intros T; cbn [fold_left]; [by rewrite app_nil_r|].
  destruct (IH (emit e T)) as [-> ->]. split; [done|]. cbn. by rewrite <- app_assoc.
Qed.

Lemma elem_of_first_uses p seen l r : r ∈ first_uses p seen l <-> r ∈ l /\ p r = true /\ r ∉ seen.
Proof.
  revert seen. induction l as [|x l IH]; intros seen; cbn [first_uses].
  { rewrite !elem_of_nil. tauto. }
  rewrite elem_of_cons. destruct (p x) eqn:Ex; cbn [andb]; [case_bool_decide as Hx|]; cbn [negb].
  - rewrite IH. split; [intros (?&?&?); auto|]. intros ([->|?]&?&?); [done|auto].
  - rewrite elem_of_cons, IH, not_elem_of_cons. split; [naive_solver|]. intros ([->|?]&?&?); [by left|].
    destruct (decide (r = x)); auto.
  - rewrite IH. split; [intros (?&?&?); auto|]. intros ([->|?]&?&?); [congruence|auto].
Qed.

(** Where a symbol is reported: at a root, or in the symbols of a file. *)
Definition referenced (files : list (list (option sref))) (T : symtab) (r : sref) : Prop :=
  r ∈ gcroot T \/ exists f, f ∈ files /\ Some r ∈ f.
Definition reported (T : symtab) (r : sref) : Prop := ReportUndefinedRoot r ∈ log T \/ ReportUndefined r ∈ log T.

Lemma reportProblemSymbols_spec undefs imports files T :
  symMap (reportProblemSymbols undefs imports files T) = symMap T /\
  exists es, log (reportProblemSymbols undefs imports files T) = log T ++ es /\
    forall r, (ReportUndefinedRoot r ∈ es <-> r ∈ gcroot T /\ exists n, r = Global n /\ n ∈ undefs) /\
      (ReportUndefined r ∈ es <-> (exists f, f ∈ files /\ Some r ∈ f) /\ exists n, r = Global n /\ n ∈ undefs).
Proof.
  assert (Hp : forall r, is_problem undefs r = true <-> exists n, r = Global n /\ n ∈ undefs).
  { intros [n|i]; cbn; [rewrite bool_decide_eq_true|]; naive_solver. }
  assert (Hi : forall r e, e ∈ import_events imports r -> exists i, e = LocalImported r i).
  { intros r e. unfold import_events. destruct (local_import imports r) as [i|]; [|by intros ?%elem_of_nil].
    intros ->%list_elem_of_singleton. by eexists. }
  assert (Hsym : forall r, r ∈ omap id (concat files) <-> exists f, f ∈ files /\ Some r ∈ f).
  { intros r. rewrite list_elem_of_omap. split.
    - intros (x & Hx & E). cbn in E. subst x. apply list_elem_of_In, in_concat in Hx as (f & Hf & Hx).
      exists f. by rewrite !list_elem_of_In.
    - intros (f & Hf & Hr). exists (Some r). split; [|done]. apply list_elem_of_In, in_concat. exists f.
      by rewrite <- !list_elem_of_In. }
  unfold reportProblemSymbols. destruct (bool_decide (undefs = []) && bool_decide (imports = [])) eqn:E0.
  { apply andb_true_iff in E0 as [->%bool_decide_eq_true _]. split; [done|]. exists []. split; [by rewrite app_nil_r|].
    intros r. split; (split; [by intros ?%elem_of_nil|intros (_ & n & _ & ?%elem_of_nil); done]). }
  set (es := _ ++ _ ++ _). destruct (emit_all_spec es T) as [-> ->]. split; [done|]. exists es. split; [done|]. intros r.
  assert (Hroots : forall e, e ∈ flat_map (root_events undefs imports) (gcroot T) <->
    exists b, b ∈ gcroot T /\ e ∈ root_events undefs imports b).
  { intros e. rewrite list_elem_of_In, in_flat_map. by setoid_rewrite list_elem_of_In. }
  assert (Himps : forall e, e ∈ flat_map (import_events imports) (omap id (concat files)) -> exists x i, e = LocalImported x i).
  { intros e (x & _ & Hx)%list_elem_of_In%in_flat_map. apply list_elem_of_In, Hi in Hx as [i ->]. by eexists _, _. }
  unfold es. rewrite !elem_of_app, !Hroots. setoid_rewrite elem_of_app. split.
  - rewrite <- Hp. split.
    + intros [(b & Hb & [He|(i & [=])%Hi])|[(x & i & [=])%Himps|(x & [=] & _)%list_elem_of_fmap]].
      destruct (is_problem undefs b) eqn:Eb; [|by apply elem_of_nil in He]. apply list_elem_of_singleton in He as [= ->]. done.
    + intros [Hr Hpr]. left. exists r. split; [done|]. left. rewrite Hpr. by apply list_elem_of_singleton.
  - rewrite <- Hp, <- Hsym. split.
    + intros [(b & Hb & [He|(i & [=])%Hi])|[(x & i & [=])%Himps|(x & [= ->] & Hx)%list_elem_of_fmap]].
      * destruct (is_problem undefs b); [apply list_elem_of_singleton in He as [=]|by apply elem_of_nil in He].
      * apply elem_of_first_uses in Hx. tauto.
    + intros [Hr Hpr]. right; right. apply list_elem_of_fmap. exists r. split; [done|]. apply elem_of_first_uses.
      split_and!; [done|done|apply not_elem_of_nil].
Qed.

End Run.

(** ** Concrete tables *)

Definition empty_table (lazy : gset nat) : symtab :=
  {| symMap := ∅; locals := ∅; lazyFiles := lazy; archiveSeen := ∅; dllSeen := ∅; chunks := ∅; gcroot := [];
     expSymbols := []; log := [] |}.
Definition demo_cfg : st_config :=
  {| st_machine := AMD64; hybridEC := false; wordsize := 8; stdcallFixup := false; autoImport := true;
     forceUnresolved := false; allowDuplicateWeak := false; warnLocallyDefinedImported := false |}.
Definition no_insertion (_ : string) : option nat := None.

Definition demo_member : archive_symbol := {| as_name := "buf"; as_childOffset := 68 |}.
Definition demo_history : list op :=
  [OpUndefined "buf" false false; OpLazyArchive 7 demo_member; OpCommon (Some 1%nat) false "buf" 16;
   OpAbsolute "buf" 4096; OpCommon (Some 2%nat) false "buf" 64; OpCommon (Some 3%nat) false "buf" 64;
   OpLazyObject 9 false "other"; OpUndefined "other" false false].

Lemma resolution_strongest_witness :
  definition (replay demo_cfg no_insertion demo_history (empty_table {[9%nat]})) "buf" = Some (DefinedCommon (Some 2%nat) 64) /\
  first_strongest (candidates "buf" demo_history) (DefinedCommon (Some 2%nat) 64).
Proof.
  pose proof (resolution_strongest demo_cfg no_insertion demo_history "buf") as H.
  assert (E : definition (replay demo_cfg no_insertion demo_history (empty_table {[9%nat]})) "buf" =
    Some (DefinedCommon (Some 2%nat) 64)) by (vm_compute; reflexivity).
  split; [exact E|]. specialize (H ltac:(repeat constructor) (empty_table {[9%nat]}) eq_refl).
  rewrite E in H. exact H.
Defined.

Lemma demand_meets_offer_witness :
  log (replay demo_cfg no_insertion demo_history (empty_table {[9%nat]})) = [EnqueueArchiveMember 7 68; AddFile 9] /\
  (is_Some (definition (replay demo_cfg no_insertion demo_history (empty_table {[9%nat]})) "other") \/
   loaded "other" demo_history (replay demo_cfg no_insertion demo_history (empty_table {[9%nat]}))) /\
  NoDup (List.filter is_load (log (replay demo_cfg no_insertion demo_history (empty_table {[9%nat]})))).
Proof.
  split; [vm_compute; reflexivity|].
  apply (demand_meets_offer demo_cfg no_insertion demo_history "other" (empty_table {[9%nat]})).
  - reflexivity.
  - reflexivity.
  - done.
  - unfold demo_history. cbn [all_asserted asserted]. repeat (split; [try exact I|]); [|exact I].
    apply (bool_decide_unpack _). vm_compute. exact I.
  - repeat constructor.
  - exists (OpUndefined "other" false false). split; [|by exists false].
    unfold demo_history. do 7 apply list_elem_of_further. apply list_elem_of_here.
  - exists (OpLazyObject 9 false "other"), (AddFile 9). split; [|reflexivity].
    unfold demo_history. do 6 apply list_elem_of_further. apply list_elem_of_here.
Defined.

Definition demo_undefined : symtab :=
  replay demo_cfg no_insertion [OpUndefined "missing" false false; OpImportData "__imp_var" 3; OpUndefined "var" false false]
    (empty_table ∅).

Definition demo_objects : list (list (option sref)) := [[None; Some (Global "missing"); Some (Global "var")]].


(** A weak section symbol followed by a COMDAT definition of the same name is
    reported as a duplicate and the weak one stays; the other way round nothing is
    reported and the COMDAT definition stays: with weak symbols the outcome depends
    on the order of the files. *)
Theorem weak_before_comdat (n : string) (f g : option nat) (c : option nat) (v v' : Z) :
  let weak := OpRegular f false n c v true in
  let comdat := OpComdat g false n v' in
  let first := replay demo_cfg no_insertion [weak; comdat] (empty_table ∅) in
  let second := replay demo_cfg no_insertion [comdat; weak] (empty_table ∅) in
  (definition first n = Some (DefinedRegular f false c v) /\ log first = [ReportDuplicate (Global n) g]) /\
  (definition second n = Some (DefinedRegular g true None v') /\ log second = []).
Proof.
  cbn zeta. unfold replay. cbn [fold_left step].
  pose proof (insert_file_lookup demo_cfg n false (empty_table ∅)) as H0.
  destruct (insert_file demo_cfg n false (empty_table ∅)) as [new T0] eqn:E0. destruct H0 as (Hs0 & Hn0 & _ & Hl0).
  cbn in Hs0, Hn0, Hl0. rewrite lookup_empty in Hs0, Hn0. subst new. cbn in Hs0.
  assert (Hagain : forall T s, symMap T !! n = Some s -> exists T1, insert_file demo_cfg n false T = (false, T1) /\
    symMap T1 !! n = Some (with_used true s) /\ log T1 = log T).
  { intros T s Hs. pose proof (insert_file_lookup demo_cfg n false T) as H.
    destruct (insert_file demo_cfg n false T) as [new T1]. rewrite Hs in H. destruct H as (H1 & -> & _ & H2). by exists T1. }
  split.
  - assert (Ea : addRegular demo_cfg f false n c v true (empty_table ∅) =
      replaceSymbol (Global n) (DefinedRegular f false c v) true T0)
      by (unfold addRegular; rewrite E0; unfold find; by rewrite Hs0).
    rewrite Ea. destruct (replace_lookup n (DefinedRegular f false c v) true T0 _ Hs0) as (E1 & _ & L1).
    destruct (Hagain _ _ E1) as (T2 & Ei & E2 & L2). unfold addComdat. rewrite Ei. unfold find. rewrite E2.
    cbn. unfold definition. cbn. rewrite E2, L2, L1, Hl0. by split.
  - assert (Ea : addComdat demo_cfg g false n v' (empty_table ∅) =
      (replaceSymbol (Global n) (DefinedRegular g true None v') false T0, true))
      by (unfold addComdat; rewrite E0; unfold find; by rewrite Hs0).
    rewrite Ea. cbn [fst]. destruct (replace_lookup n (DefinedRegular g true None v') false T0 _ Hs0) as (E1 & _ & L1).
    destruct (Hagain _ _ E1) as (T2 & Ei & E2 & L2). unfold addRegular. rewrite Ei. unfold find. rewrite E2.
    cbn. unfold definition. rewrite E2, L2, L1, Hl0. by split.
Qed.
