(* ===== verification/Exports.v ===== *)
(** * Exports (lld/COFF/SymbolTable.cpp, DLL.cpp)

    [fixupExports] names and deduplicates the exports, [assignExportOrdinals]
    numbers them, and [createEdataChunks] makes the export directory and its
    tables, here written to memory as the chunks' [writeTo] do. *)

From S2P Require Import Prelude Memory SymbolTable.

#[local] Open Scope string_scope.
#[local] Open Scope list_scope.
#[local] Open Scope Z_scope.

(** ** Data *)

Inductive ExportSource := Directives | ExportOption | ModuleDefinition | ExportAll.

Record Export := {
  e_name : string;
  extName : string;
  exportAs : string;
  importName : string;
  e_sym : option sref;
  ordinal : Z;
  noname : bool;
  data : bool;
  isPrivate : bool;
  constant : bool;
  forwardTo : string;
  source : ExportSource;
  symbolName : string;
  exportName : string
}.

(** [Export::operator==]. *)
Definition export_eqb (a b : Export) : bool :=
  String.eqb (e_name a) (e_name b) && String.eqb (extName a) (extName b) &&
  String.eqb (exportAs a) (exportAs b) && String.eqb (importName a) (importName b) &&
  (ordinal a =? ordinal b) && Bool.eqb (noname a) (noname b) && Bool.eqb (data a) (data b) &&
  Bool.eqb (isPrivate a) (isPrivate b).

Inductive export_warning :=
  | DuplicateOption (s : ExportSource) (n : string)
  | DuplicateExport (n : string) (first second : ExportSource).

Definition with_names (name ext sym exp : string) (e : Export) : Export :=
  {| e_name := name; extName := ext; exportAs := exportAs e; importName := importName e; e_sym := e_sym e;
     ordinal := ordinal e; noname := noname e; data := data e; isPrivate := isPrivate e; constant := constant e;
     forwardTo := forwardTo e; source := source e; symbolName := sym; exportName := exp |}.
Definition with_exportName (n : string) (e : Export) : Export :=
  with_names (e_name e) (extName e) (symbolName e) n e.
Definition with_ordinal (o : Z) (e : Export) : Export :=
  {| e_name := e_name e; extName := extName e; exportAs := exportAs e; importName := importName e; e_sym := e_sym e;
     ordinal := o; noname := noname e; data := data e; isPrivate := isPrivate e; constant := constant e;
     forwardTo := forwardTo e; source := source e; symbolName := symbolName e; exportName := exportName e |}.

(** ** Names *)

(** [find(c, from)]. *)
Fixpoint find_from (c : Ascii.ascii) (from : nat) (s : string) : option nat :=
  match s with
  | EmptyString => None
  | String d s =>
      match from with
      | O => if Ascii.eqb d c then Some O else S <$> find_from c O s
      | S from => S <$> find_from c from s
      end
  end.

Definition killAt (sym : string) (prefix : bool) : string :=
  if String.eqb sym "" then sym
  else
    let sym := match find_from (ch 64) 1 sym with Some n => str_take n sym | None => sym end in
    if negb (starts_with "@" sym) then
      if prefix && negb (starts_with "_" sym) then ("_" ++ sym)%string else sym
    else
      let sym := str_drop 1 sym in
      if prefix then ("_" ++ sym)%string else sym.

Definition exportSourcePriority (s : ExportSource) : Z :=
  match s with Directives => 1 | ExportAll => 2 | ExportOption | ModuleDefinition => 3 end.

Definition source_eqb (a b : ExportSource) : bool :=
  match a, b with
  | Directives, Directives | ExportOption, ExportOption | ModuleDefinition, ModuleDefinition
  | ExportAll, ExportAll => true
  | _, _ => false
  end.

Section Fixup.
  Context (cfg : st_config) (mingw killAt_ : bool).

Definition is_I386 : bool := match st_machine cfg with I386 => true | _ => false end.

(** The name in the DLL. *)
Definition export_name (e : Export) : string :=
  if negb (String.eqb (exportAs e) "") then exportAs e
  else
    let sym := if negb (String.eqb (forwardTo e) "") || String.eqb (extName e) "" then e_name e else extName e in
    if is_I386 && starts_with "_" sym && (mingw || negb (str_contains "@" sym)) then str_drop 1 sym
    else if isEC cfg && negb (data e) && negb (constant e) then
      match getArm64ECDemangledFunctionName sym with Some d => d | None => sym end
    else sym.

(** Whether two of the explicit ordinals are the same. *)
Fixpoint duplicate_ordinal (ords : list Z) (l : list Export) : bool :=
  match l with
  | [] => false
  | e :: l =>
      if ordinal e =? 0 then duplicate_ordinal ords l
      else if existsb (Z.eqb (ordinal e)) ords then true
      else duplicate_ordinal (ordinal e :: ords) l
  end.

Definition kill_at_export (e : Export) : Export :=
  with_names (killAt (e_name e) true) (killAt (extName e) true) (killAt (symbolName e) true)
    (killAt (exportName e) false) e.

Fixpoint find_export (n : string) (v : list Export) : option (nat * Export) :=
  match v with
  | [] => None
  | e :: v => if String.eqb (exportName e) n then Some (O, e) else prod_map S id <$> find_export n v
  end.

(** "Uniquefy by name": the vector so far, and the warnings. *)
Definition uniq_step (st : list Export * list export_warning) (e : Export) : list Export * list export_warning :=
  let '(v, w) := st in
  match find_export (exportName e) v with
  | None => (v ++ [e], w)
  | Some (i, existing) =>
      if export_eqb e existing || negb (String.eqb (e_name e) (e_name existing)) then (v, w)
      else if exportSourcePriority (source existing) <? exportSourcePriority (source e) then (<[i := e]> v, w)
      else if exportSourcePriority (source e) <? exportSourcePriority (source existing) then (v, w)
      else (v, w ++ [if source_eqb (source existing) (source e) then DuplicateOption (source existing) (e_name e)
                     else DuplicateExport (e_name e) (source existing) (source e)])
  end.

Definition uniquefy (l : list Export) : list Export * list export_warning := fold_left uniq_step l ([], []).

Definition name_lt (a b : Export) : bool :=
  match String.compare (exportName a) (exportName b) with Lt => true | _ => false end.

(** [None] for the fatal error on ordinals. *)
Definition fixupExports (exports : list Export) : option (list Export * list export_warning) :=
  if duplicate_ordinal [] exports then None
  else
    let l := map (fun e => with_exportName (export_name e) e) exports in
    let l := if killAt_ && is_I386 then map kill_at_export l else l in
    let '(v, w) := uniquefy l in
    Some (stable_sort name_lt v, w).

End Fixup.

(** ** Ordinals *)

Definition max_ordinal (l : list Export) : Z := fold_left (fun m e => Z.max m (ordinal e)) l 0.

(** The field is 16 bits wide; the counter is not. *)
Fixpoint assign_ordinals (max : Z) (l : list Export) : list Export * Z :=
  match l with
  | [] => ([], max)
  | e :: l =>
      let '(e, max) := if ordinal e =? 0 then (with_ordinal (u16 (max + 1)) e, max + 1) else (e, max) in
      let '(l, max) := assign_ordinals max l in
      (e :: l, max)
  end.

(** [None]: too many exported symbols. *)
Definition assignExportOrdinals (exports : list Export) : option (list Export) :=
  let '(l, max) := assign_ordinals (max_ordinal exports) exports in
  if 65535 <? max then None else Some l.

(** ** The export tables

    The addresses of the chunks are given: of a name's string by its position
    among the names, of the forward strings and symbols by export. *)

Record edata := {
  dllName : Z;
  addressTab : Z;
  nameTab : Z;
  ordinalTab : Z;
  nameRVA : nat -> Z;
  exportRVA : Export -> Z      (* of forwardChunk, or of the symbol *)
}.

Definition ordinal_base (exports : list Export) : Z :=
  fold_left (fun m e => Z.min m (ordinal e)) exports (2 ^ 16).
Definition named (exports : list Export) : list Export := List.filter (fun e => negb (noname e)) exports.

Section Tables.
  Context (armnt : bool) (ed : edata) (exports : list Export).

Definition ExportDirectoryChunk_writeTo (buf : Z) (m : mem) : mem :=
  let m := memcpy m buf (repeat 0 40) in
  let m := write32le m (buf + 12) (dllName ed) in
  let m := write32le m (buf + 16) (u16 (ordinal_base exports)) in
  let m := write32le m (buf + 20) (u16 (max_ordinal exports) - u16 (ordinal_base exports) + 1) in
  let m := write32le m (buf + 24) (u16 (Z.of_nat (length (named exports)))) in
  let m := write32le m (buf + 28) (addressTab ed) in
  let m := write32le m (buf + 32) (nameTab ed) in
  write32le m (buf + 36) (ordinalTab ed).

Definition AddressTableChunk_getSize : Z := (max_ordinal exports - ordinal_base exports + 1) * 4.

Definition address_entry (e : Export) : Z :=
  exportRVA ed e ||| (if armnt && negb (data e) then 1 else 0).

Definition AddressTableChunk_writeTo (buf : Z) (m : mem) : mem :=
  fold_left (fun m e => write32le m (buf + (ordinal e - ordinal_base exports) * 4) (address_entry e)) exports
    (memcpy m buf (repeat 0 (Z.to_nat AddressTableChunk_getSize))).

Definition NamePointersChunk_getSize : Z := Z.of_nat (length (named exports)) * 4.

Definition write_names (buf : Z) (start n : nat) (m : mem) : mem :=
  fold_left (fun m i => write32le m (buf + Z.of_nat i * 4) (nameRVA ed i)) (seq start n) m.
Definition NamePointersChunk_writeTo (buf : Z) : mem -> mem := write_names buf 0 (length (named exports)).

Definition ExportOrdinalChunk_getSize : Z := Z.of_nat (length (named exports)) * 2.

Fixpoint write_ordinals (buf base : Z) (l : list Export) (m : mem) : mem :=
  match l with
  | [] => m
  | e :: l =>
      if noname e then write_ordinals buf base l m
      else write_ordinals (buf + 2) base l (write16le m buf (ordinal e - base))
  end.
Definition ExportOrdinalChunk_writeTo (buf : Z) : mem -> mem :=
  write_ordinals buf (ordinal_base exports) exports.

Definition write_strings (l : list (nat * Export)) (m : mem) : mem :=
  fold_left (fun m x => put_string (exportName x.2) (nameRVA ed x.1) m) l m.

Definition forwards : list Export := List.filter (fun e => negb (String.eqb (forwardTo e) "")) exports.
Definition write_forwards (m : mem) : mem :=
  fold_left (fun m e => put_string (forwardTo e) (exportRVA ed e) m) forwards m.

(** The chunks of [createEdataChunks] in their order, each written at its
    address. *)
Definition write_edata (dll : string) (dir : Z) (m : mem) : mem :=
  let m := ExportDirectoryChunk_writeTo dir m in
  let m := put_string dll (dllName ed) m in
  let m := AddressTableChunk_writeTo (addressTab ed) m in
  let m := NamePointersChunk_writeTo (nameTab ed) m in
  let m := ExportOrdinalChunk_writeTo (ordinalTab ed) m in
  let m := write_strings (combine (seq 0 (length (named exports))) (named exports)) m in
  write_forwards m.

End Tables.
