(* ===== verification/ExportsProps.v ===== *)
(** * What the export tables guarantee (theorems on Exports.v)

    Names and ordinals are unique, names are sorted, and a loader that searches
    the written tables for a name finds the export of that name. *)

From S2P Require Import Prelude Memory SymbolTable Exports.

#[local] Open Scope string_scope.
#[local] Open Scope list_scope.
#[local] Open Scope Z_scope.

(** ** The order of names *)

Lemma ascii_compare_lt a b : Ascii.compare a b = Lt <-> (Ascii.N_of_ascii a < Ascii.N_of_ascii b)%N.
Proof. apply N.compare_lt_iff. Qed.
Lemma ascii_compare_eq a b : Ascii.compare a b = Eq <-> a = b.
Proof. split; [apply Ascii.compare_eq_iff|intros ->; apply N.compare_refl]. Qed.

Lemma string_compare_trans a b c :
  String.compare a b = Lt -> String.compare b c = Lt -> String.compare a c = Lt.
Proof.
  revert b c. induction a as [|x a IH]; intros [|y b] [|z c]; cbn; try done.
  destruct (Ascii.compare x y) eqn:Exy, (Ascii.compare y z) eqn:Eyz; try done; intros H1 H2.
  - apply ascii_compare_eq in Exy as ->. rewrite Eyz. by eapply IH.
  - apply ascii_compare_eq in Exy as ->. by rewrite Eyz.
  - apply ascii_compare_eq in Eyz as <-. by rewrite Exy.
  - assert (E : Ascii.compare x z = Lt); [|by rewrite E].
    apply ascii_compare_lt in Exy, Eyz. apply ascii_compare_lt. by eapply N.lt_trans.
Qed.

Lemma string_compare_refl a : String.compare a a = Eq.
Proof. induction a as [|x a IH]; [done|]. cbn. by rewrite (proj2 (ascii_compare_eq x x) eq_refl). Qed.

Lemma name_lt_spec a b : name_lt a b = true <-> String.compare (exportName a) (exportName b) = Lt.
Proof. unfold name_lt. by destruct (String.compare _ _). Qed.

Lemma name_lt_false a b :
  name_lt a b = false <-> exportName a = exportName b \/ String.compare (exportName b) (exportName a) = Lt.
Proof.
  unfold name_lt. rewrite (String.compare_antisym (exportName b)).
  destruct (String.compare (exportName a) (exportName b)) eqn:E; cbn.
  - apply String.compare_eq_iff in E. rewrite E. tauto.
  - split; [done|]. intros [H|H]; [|done]. rewrite H, string_compare_refl in E. done.
  - tauto.
Qed.

#[export] Instance name_lt_weak : StrictWeak name_lt.
Proof.
  split.
  - intros a. apply name_lt_false. by left.
  - intros a b c. rewrite !name_lt_false. intros [->|H1] [E|H2]; [by left|right|right|right].
    + done.
    + congruence.
    + by eapply string_compare_trans.
  - intros a b. rewrite name_lt_spec, name_lt_false. auto.
Qed.

(** ** Unique names *)

Abbreviation names := (map exportName).
Abbreviation before := (fun a b => String.compare (exportName a) (exportName b) = Lt).

Lemma find_export_Some n v i e : find_export n v = Some (i, e) -> v !! i = Some e /\ exportName e = n.
Proof.
  revert i. induction v as [|x v IH]; intros i; cbn; [done|].
  destruct (String.eqb_spec (exportName x) n); [by intros [= <- <-]|].
  destruct (find_export n v) as [[j y]|]; [|done]. intros [= <- <-]. by apply IH.
Qed.

Lemma find_export_None n v : find_export n v = None -> n ∉ names v.
Proof.
  induction v as [|x v IH]; cbn; [by intros _ ?%elem_of_nil|].
  destruct (String.eqb_spec (exportName x) n); [done|].
  destruct (find_export n v) as [[j y]|]; [done|]. intros _ [?|?]%elem_of_cons; [done|by apply IH].
Qed.

Lemma insert_submseteq (v l : list Export) i old e :
  v !! i = Some old -> v ⊆+ l -> <[i := e]> v ⊆+ l ++ [e].
Proof.
  intros Hi Hs. rewrite <- (take_drop_middle v i old Hi) in Hs.
  rewrite insert_take_drop by (by eapply lookup_lt_Some).
  rewrite (Permutation_app_comm l [e]). cbn. rewrite <- Permutation_middle. apply submseteq_skip.
  etrans; [|exact Hs]. apply submseteq_app; [done|]. by apply submseteq_cons.
Qed.

(** The vector: names are unique, its exports are among those seen, and no name
    is lost. *)
Lemma uniquefy_spec l v w :
  uniquefy l = (v, w) -> NoDup (names v) /\ v ⊆+ l /\ (forall n, n ∈ names l -> n ∈ names v).
Proof.
  unfold uniquefy. revert v w. induction l as [|e l IH] using rev_ind; intros v w.
  { intros [= <- <-]. split; [constructor|]. split; [constructor|done]. }
  rewrite fold_left_app. cbn [fold_left]. destruct (fold_left uniq_step l ([], [])) as [v0 w0].
  destruct (IH v0 w0 eq_refl) as (Hnd & Hs & Hn). unfold uniq_step.
  assert (Hskip : NoDup (names v0) /\ v0 ⊆+ l ++ [e] /\
    (exportName e ∈ names v0 -> forall n, n ∈ names (l ++ [e]) -> n ∈ names v0)).
  { split; [done|]. split; [by apply submseteq_inserts_r|]. intros He n. rewrite map_app, elem_of_app.
    intros [H| ->%list_elem_of_singleton]; auto. }
  destruct (find_export (exportName e) v0) as [[i old]|] eqn:Ef.
  - apply find_export_Some in Ef as [Hi Ho].
    assert (He : exportName e ∈ names v0) by (rewrite <- Ho; by apply (list_elem_of_fmap_2 exportName), list_elem_of_lookup_2 with i).
    assert (Hk : forall v (w w' : list export_warning), (v0, w') = (v, w) -> NoDup (names v) /\ v ⊆+ l ++ [e] /\
      (forall n, n ∈ names (l ++ [e]) -> n ∈ names v)).
    { intros v2 w2 w' [= <- <-]. destruct Hskip as (A & B & C). auto. }
    destruct (_ || _); [apply Hk|]. case_match; [|case_match; apply Hk].
    intros [= <- <-].
    assert (En : names (<[i:=e]> v0) = names v0).
    { rewrite (list_fmap_insert exportName). apply list_insert_id. rewrite <- Ho. by apply (list_lookup_fmap_Some_2 exportName). }
    rewrite En. split; [done|]. split; [by eapply insert_submseteq|]. by apply Hskip.
  - intros [= <- <-]. apply find_export_None in Ef. rewrite map_app. split; [|split].
    + apply NoDup_app. split; [done|]. split; [|apply NoDup_singleton].
      intros n Hin ->%list_elem_of_singleton. done.
    + by apply submseteq_app.
    + intros n. rewrite map_app, !elem_of_app. naive_solver.
Qed.

Lemma sorted_strict v : NoDup (names v) -> StronglySorted (sorted_le name_lt) v -> StronglySorted before v.
Proof.
  intros Hnd Hs. induction Hs as [|e v Hs IH Hall]; [constructor|].
  cbn in Hnd. apply NoDup_cons in Hnd as [He Hnd]. constructor; [by apply IH|].
  apply Forall_forall. intros x Hx. rewrite Forall_forall in Hall. specialize (Hall x Hx).
  apply name_lt_false in Hall as [E|H]; [|done]. destruct He. rewrite <- E.
  by apply (list_elem_of_fmap_2 exportName).
Qed.

(** ** Unique ordinals *)

Definition explicit (l : list Export) : list Z := List.filter (fun o => negb (o =? 0)) (map ordinal l).

Lemma duplicate_ordinal_NoDup ords l :
  duplicate_ordinal ords l = false -> NoDup ords -> NoDup (ords ++ explicit l).
Proof.
  revert ords. induction l as [|e l IH]; intros ords; cbn; [by rewrite app_nil_r|].
  destruct (ordinal e =? 0); cbn; [apply IH|]. destruct (existsb _ ords) eqn:E; [done|]. intros H Hnd.
  assert (Hni : ordinal e ∉ ords).
  { intros Hin. assert (Ht : existsb (Z.eqb (ordinal e)) ords = true); [|congruence].
    apply existsb_exists. exists (ordinal e). split; [by apply list_elem_of_In|apply Z.eqb_refl]. }
  specialize (IH (ordinal e :: ords) H ltac:(by constructor)). cbn in IH. by rewrite Permutation_middle in IH.
Qed.

Lemma explicit_submseteq v l : v ⊆+ l -> explicit v ⊆+ explicit l.
Proof.
  intros [k Hk]%submseteq_Permutation. unfold explicit.
  assert (E : forall a b : list Z, Permutation a b ->
    Permutation (List.filter (fun o => negb (o =? 0)) a) (List.filter (fun o => negb (o =? 0)) b)).
  { induction 1 as [|x a b _ IH|x y a|a b c _ IH1 _ IH2]; cbn; [done|by case_match; rewrite ?IH|
      repeat case_match; try done; apply perm_swap|by rewrite IH1]. }
  rewrite (E _ _ (Permutation_map ordinal Hk)), map_app, List.filter_app. by apply submseteq_inserts_r.
Qed.

(** Numbering one export. *)
Definition numbered (max max' : Z) (e e' : Export) : Prop :=
  (ordinal e <> 0 /\ e' = e) \/ (ordinal e = 0 /\ exists o, e' = with_ordinal o e /\ max < o <= max').

Lemma assign_ordinals_spec max l l' max' :
  assign_ordinals max l = (l', max') -> 0 <= max -> max' <= 65535 ->
  Forall (fun e => 0 <= ordinal e <= max) l -> NoDup (explicit l) ->
  max <= max' /\ Forall2 (numbered max max') l l' /\ NoDup (map ordinal l') /\
  forall o, o ∈ map ordinal l' -> o ∈ explicit l \/ max < o.
Proof.
  revert max l' max'. induction l as [|e l IH]; intros max l' max'; cbn [assign_ordinals].
  { intros [= <- <-] _ _ _ _. split; [lia|]. split; [done|]. split; [constructor|]. by intros o ?%elem_of_nil. }
  intros H H0 Hmax [He Hl]%Forall_cons Hnd. unfold explicit in Hnd. cbn in Hnd. fold (explicit l) in Hnd.
  assert (Hmono : forall m l2 m2, assign_ordinals m l = (l2, m2) -> m <= m2).
  { clear. induction l as [|x l IH]; intros m l2 m2; cbn; [intros [= <- <-]; lia|].
    destruct (ordinal x =? 0); destruct (assign_ordinals _ l) as [l3 m3] eqn:E; intros [= <- <-]; apply IH in E; lia. }
  destruct (Z.eqb_spec (ordinal e) 0) as [E0|E0]; cbn in Hnd.
  - destruct (assign_ordinals (max + 1) l) as [l2 m2] eqn:El. injection H as <- <-. pose proof (Hmono _ _ _ El) as Hm.
    destruct (IH _ _ _ El) as (H1 & H2 & H3 & H4); [lia|lia| |done|].
    { eapply Forall_impl; [exact Hl|]. cbn. lia. }
    assert (Eu : u16 (max + 1) = max + 1) by (apply wrap_small; split; lia). rewrite Eu.
    split; [lia|]. split; [|split].
    + constructor; [right; split; [done|]; exists (max + 1); split; [done|lia]|].
      eapply Forall2_impl; [exact H2|]. intros a b [?|(? & o & ? & ?)]; [by left|right].
      split; [done|]. exists o. split; [done|lia].
    + cbn. constructor; [|done]. intros Hin. destruct (H4 _ Hin) as [Hx|]; [|lia].
      apply list_elem_of_In, filter_In in Hx as [Hx _]. apply in_map_iff in Hx as (x & Ex & Hx).
      rewrite Forall_forall in Hl. specialize (Hl x (proj2 (list_elem_of_In _ _) Hx)). lia.
    + cbn. intros o [->|Hin]%elem_of_cons; [right; lia|]. unfold explicit. cbn. rewrite E0. cbn. fold (explicit l).
      destruct (H4 _ Hin); [by left|right; lia].
  - destruct (assign_ordinals max l) as [l2 m2] eqn:El. injection H as <- <-.
    apply NoDup_cons in Hnd as [Hni Hnd].
    destruct (IH _ _ _ El H0 Hmax Hl Hnd) as (H1 & H2 & H3 & H4).
    split; [done|]. split; [constructor; [by left|done]|]. split.
    + cbn. constructor; [|done]. intros Hin. destruct (H4 _ Hin); [done|lia].
    + cbn. unfold explicit. cbn. rewrite (proj2 (Z.eqb_neq _ _) E0). cbn. fold (explicit l).
      intros o [->|Hin]%elem_of_cons; [left; apply list_elem_of_here|].
      destruct (H4 _ Hin); [left; by apply list_elem_of_further|by right].
Qed.

Lemma max_ordinal_spec l : 0 <= max_ordinal l /\ forall e, e ∈ l -> ordinal e <= max_ordinal l.
Proof.
  unfold max_ordinal. induction l as [|e l IH] using rev_ind; [split; [done|]; by intros e ?%elem_of_nil|].
  rewrite fold_left_app. cbn [fold_left]. destruct IH as [H0 H]. split; [lia|].
  intros x [Hx| ->%list_elem_of_singleton]%elem_of_app; [specialize (H x Hx)|]; lia.
Qed.

(** C35: When fixupExports and assignExportOrdinals succeed, the exports are
    strictly sorted by their names in the DLL, so that names are unique; their
    ordinals are unique and fit the 16-bit field above 0; explicit ordinals are
    kept; and every name the options and objects asked for is there. *)
Theorem exports_numbered (cfg : st_config) (mingw killAt_ : bool) (l v l' : list Export) (w : list export_warning)
    (Hrange : Forall (fun e => 0 <= ordinal e < 2 ^ 16) l)
    (Hfix : fixupExports cfg mingw killAt_ l = Some (v, w)) (Hassign : assignExportOrdinals v = Some l') :
  StronglySorted before l' /\ NoDup (map ordinal l') /\ Forall (fun e => 1 <= ordinal e <= 65535) l' /\
  Forall2 (numbered (max_ordinal v) 65535) v l' /\
  (killAt_ && is_I386 cfg = false -> forall e, e ∈ l -> export_name cfg mingw e ∈ map exportName l').
Proof.
  unfold fixupExports in Hfix. destruct (duplicate_ordinal [] l) eqn:Ed; [done|].
  set (l1 := map _ l) in Hfix. set (l2 := if killAt_ && is_I386 cfg then map kill_at_export l1 else l1) in *.
  destruct (uniquefy l2) as [v0 w0] eqn:Eu. injection Hfix as <- <-.
  destruct (uniquefy_spec _ _ _ Eu) as (Hnd & Hsub & Hnames).
  assert (Eord : map ordinal l2 = map ordinal l).
  { subst l2 l1. case_match; rewrite ?map_map; by apply map_ext. }
  assert (Hexp : NoDup (explicit (stable_sort name_lt v0))).
  { apply duplicate_ordinal_NoDup in Ed; [|constructor].
    assert (Hs : explicit (stable_sort name_lt v0) ⊆+ explicit l).
    { unfold explicit at 2. rewrite <- Eord. fold (explicit l2). apply explicit_submseteq.
      by rewrite (stable_sort_perm name_lt v0). }
    apply submseteq_Permutation in Hs as [k Hk]. cbn [app] in Ed. rewrite Hk in Ed. by apply NoDup_app in Ed as [? _]. }
  assert (Hrange2 : Forall (fun e => 0 <= ordinal e < 2 ^ 16) (stable_sort name_lt v0)).
  { rewrite Forall_forall in Hrange |- *. intros e He. rewrite (stable_sort_perm name_lt v0) in He.
    eapply elem_of_submseteq in Hsub; [|exact He]. apply (list_elem_of_fmap_2 ordinal) in Hsub.
    change (ordinal <$> l2) with (map ordinal l2) in Hsub. rewrite Eord in Hsub.
    apply list_elem_of_fmap in Hsub as (x & -> & Hx). by apply Hrange. }
  set (vs := stable_sort name_lt v0) in *. unfold assignExportOrdinals in Hassign.
  destruct (assign_ordinals (max_ordinal vs) vs) as [l3 m3] eqn:Ea. destruct (Z.ltb_spec 65535 m3); [done|].
  injection Hassign as <-. destruct (max_ordinal_spec vs) as [Hm0 Hm].
  destruct (assign_ordinals_spec _ _ _ _ Ea Hm0) as (H1 & H2 & H3 & H4); [done| |done|].
  { rewrite Forall_forall in Hrange2 |- *. intros e He. specialize (Hrange2 e He). specialize (Hm e He). lia. }
  assert (En : map exportName l3 = map exportName vs).
  { clear -H2. induction H2 as [|a b l l' [[_ ->]|(_ & o & -> & _)] _ IH]; cbn; [done|by rewrite IH|by rewrite IH]. }
  assert (Hsorted : StronglySorted before vs).
  { apply sorted_strict; [|apply stable_sort_sorted, _]. unfold vs. rewrite (Permutation_map exportName (stable_sort_perm name_lt v0)). done. }
  split; [|split; [done|split; [|split]]].
  - assert (Hgen : forall a b, map exportName a = map exportName b -> StronglySorted before a -> StronglySorted before b).
    { clear. induction a as [|x a IH]; intros [|y b]; cbn; try done. intros [= E1 E2] Hs.
      apply StronglySorted_inv in Hs as [Hs Hall]. constructor; [by apply IH|]. rewrite <- E1.
      assert (Forall (fun n => String.compare (exportName x) n = Lt) (map exportName b)) as Hb by (rewrite <- E2; by apply Forall_map).
      by apply Forall_map in Hb. }
    by apply (Hgen vs).
  - apply Forall_forall. intros e He. apply list_elem_of_lookup_1 in He as [i Hi].
    destruct (Forall2_lookup_r _ _ _ _ _ H2 Hi) as (e0 & He0 & Hn).
    rewrite Forall_forall in Hrange2. pose proof (Hrange2 e0 (list_elem_of_lookup_2 _ _ _ He0)).
    destruct Hn as [[Hne ->]|(_ & o & -> & Ho)]; cbn; lia.
  - eapply Forall2_impl; [exact H2|]. intros a b [?|(? & o & ? & ?)]; [by left|right]. split; [done|].
    exists o. split; [done|lia].
  - intros Hk e He. rewrite En. unfold vs. rewrite (Permutation_map exportName (stable_sort_perm name_lt v0)).
    apply Hnames. unfold l2. rewrite Hk. unfold l1. rewrite map_map. cbn.
    by apply (list_elem_of_fmap_2 (export_name cfg mingw)).
Qed.

Definition demo_export (n e : string) (o : Z) (d : bool) (s : ExportSource) : Export :=
  {| e_name := n; extName := e; exportAs := ""; importName := ""; e_sym := Some (Global n); ordinal := o;
     noname := false; data := d; isPrivate := false; constant := false; forwardTo := ""; source := s;
     symbolName := n; exportName := "" |}.
Definition demo_exports : list Export :=
  [demo_export "beta" "" 0 false Directives; demo_export "alpha" "" 7 false ExportOption;
   demo_export "beta" "" 0 true ModuleDefinition; demo_export "impl" "gamma" 0 true ExportOption].
Definition demo_ecfg : st_config :=
  {| st_machine := AMD64; hybridEC := false; wordsize := 8; stdcallFixup := false; autoImport := false;
     forceUnresolved := false; allowDuplicateWeak := false; warnLocallyDefinedImported := false |}.

Lemma exports_numbered_witness :
  exists v l', fixupExports demo_ecfg false false demo_exports = Some (v, []) /\ assignExportOrdinals v = Some l' /\
    map (fun e => (exportName e, ordinal e, data e)) l' =
      [("alpha", 7, false); ("beta", 8, true); ("gamma", 9, true)] /\ NoDup (map ordinal l').
Proof.
  eexists. eexists. split; [vm_compute; reflexivity|]. split; [vm_compute; reflexivity|].
  split; [vm_compute; reflexivity|].
  refine (proj1 (proj2 (exports_numbered demo_ecfg false false demo_exports _ _ [] _ _ _))).
  - repeat constructor; vm_compute; done.
  - vm_compute. reflexivity.
  - vm_compute. reflexivity.
Defined.

(** ** A loader

    What [GetProcAddress] does with the tables of an image at address 0: a binary
    search in the name pointers, the ordinal table, the address table. *)

Fixpoint bsearch (fuel : nat) (get : nat -> string) (n : string) (lo hi : nat) : option nat :=
  match fuel with
  | O => None
  | S fuel =>
      if (hi <=? lo)%nat then None
      else
        let mid := ((lo + hi) / 2)%nat in
        match String.compare n (get mid) with
        | Eq => Some mid
        | Lt => bsearch fuel get n lo mid
        | Gt => bsearch fuel get n (S mid) hi
        end
  end.

Definition GetProcAddress (m : mem) (dir : Z) (n : string) : option Z :=
  let count := Z.to_nat (read32le m (dir + 24)) in
  let functions := read32le m (dir + 28) in
  let pointers := read32le m (dir + 32) in
  let ordinals := read32le m (dir + 36) in
  i ← bsearch (S count) (fun i => cstring name_limit m (read32le m (pointers + Z.of_nat i * 4))) n 0 count;
  Some (read32le m (functions + read16le m (ordinals + Z.of_nat i * 2) * 4)).

(** The same by ordinal. *)
Definition GetProcAddress_ordinal (m : mem) (dir ord : Z) : Z :=
  read32le m (read32le m (dir + 28) + (ord - read32le m (dir + 16)) * 4).

Lemma bsearch_correct fuel get ns n i lo hi :
  StronglySorted (fun a b => String.compare a b = Lt) ns -> (forall j s, ns !! j = Some s -> get j = s) ->
  ns !! i = Some n -> (lo <= i < hi)%nat -> (hi <= length ns)%nat -> (hi - lo < fuel)%nat ->
  bsearch fuel get n lo hi = Some i.
Proof.
  intros Hs Hget Hi. assert (Hlt : forall a b x y, (a < b)%nat -> ns !! a = Some x -> ns !! b = Some y ->
    String.compare x y = Lt).
  { clear -Hs. induction Hs as [|z l Hs IH Hall]; intros a b x y Hab Ha Hb; [done|].
    destruct b as [|b]; [lia|]. destruct a as [|a]; cbn in *; [|eapply (IH a b); [lia|done..]].
    injection Ha as <-. rewrite Forall_forall in Hall. apply Hall. by eapply list_elem_of_lookup_2. }
  revert lo hi. induction fuel as [|fuel IH]; intros lo hi Hlo Hhi Hf; [lia|]. cbn [bsearch].
  destruct (Nat.leb_spec hi lo); [lia|].
  pose proof (Nat.div_mod (lo + hi) 2 ltac:(lia)) as Hd. pose proof (Nat.mod_upper_bound (lo + hi) 2 ltac:(lia)) as Hm.
  set (mid := ((lo + hi) / 2)%nat) in *.
  destruct (lookup_lt_is_Some_2 ns mid ltac:(lia)) as [s Hs']. rewrite (Hget _ _ Hs').
  destruct (decide (mid = i)) as [->|Hne].
  { assert (s = n) as -> by congruence. by rewrite string_compare_refl. }
  destruct (decide (mid < i)%nat).
  - pose proof (Hlt mid i s n ltac:(lia) Hs' Hi) as Hc. rewrite String.compare_antisym, Hc. cbn [CompOpp]. apply IH; try lia.
  - pose proof (Hlt i mid n s ltac:(lia) Hi Hs') as Hc. rewrite Hc. apply IH; lia.
Qed.

(** ** The tables in memory *)

Lemma has_forwards ed s a l m :
  has_string m a s -> (forall e, e ∈ l -> a + Z.of_nat (String.length s) < exportRVA ed e) ->
  has_string (fold_left (fun m e => put_string (forwardTo e) (exportRVA ed e) m) l m) a s.
Proof.
  revert m. induction l as [|e l IH]; intros m Hs H; [done|]. cbn [fold_left]. apply IH.
  - apply has_put_other; [done|]. left. apply H, list_elem_of_here.
  - intros x Hx. apply H. by apply list_elem_of_further.
Qed.

(** The positions of a list. *)
Lemma elem_of_combine_seq {A} (l : list A) k i x :
  (i, x) ∈ combine (seq k (length l)) l <-> (k <= i)%nat /\ l !! (i - k)%nat = Some x.
Proof.
  revert k. induction l as [|y l IH]; intros k; cbn.
  - split; [by intros ?%elem_of_nil|by intros [_ ?]].
  - rewrite elem_of_cons, IH. split.
    + intros [[= -> ->]|[H H']]; [split; [lia|by rewrite Nat.sub_diag]|].
      split; [lia|]. by replace (i - k)%nat with (S (i - S k)) by lia.
    + intros [H H']. destruct (decide (i = k)) as [->|Hne].
      * rewrite Nat.sub_diag in H'. cbn in H'. left. congruence.
      * right. split; [lia|]. by replace (i - k)%nat with (S (i - S k)) in H' by lia.
Qed.

Lemma named_in l i e : named l !! i = Some e -> e ∈ l.
Proof.
  intros H%list_elem_of_lookup_2%list_elem_of_In. apply filter_In in H as [H _]. by apply list_elem_of_In.
Qed.

Lemma write_ordinals_fold buf base l k m :
  write_ordinals (buf + Z.of_nat k * 2) base l m =
  fold_left (fun m x => write 2 m (buf + Z.of_nat x.1 * 2) (ordinal x.2 - base))
    (combine (seq k (length (named l))) (named l)) m.
Proof.
  revert k m. induction l as [|e l IH]; intros k m; [done|]. cbn [write_ordinals]. unfold named. cbn [List.filter].
  destruct (noname e); cbn [negb]; [apply IH|]. cbn [length seq combine fold_left fst snd].
  replace (buf + Z.of_nat k * 2 + 2) with (buf + Z.of_nat (S k) * 2) by lia. apply IH.
Qed.

Lemma ordinal_base_spec l : ordinal_base l <= 2 ^ 16 /\ forall e, e ∈ l -> ordinal_base l <= ordinal e.
Proof.
  unfold ordinal_base. induction l as [|e l IH] using rev_ind; [split; [done|]; by intros e ?%elem_of_nil|].
  rewrite fold_left_app. cbn [fold_left]. destruct IH as [H0 H]. split; [lia|].
  intros x [Hx| ->%list_elem_of_singleton]%elem_of_app; [specialize (H x Hx)|]; lia.
Qed.

Lemma ordinal_base_pos l : Forall (fun e => 1 <= ordinal e <= 65535) l -> 1 <= ordinal_base l.
Proof.
  unfold ordinal_base. induction l as [|e l IH] using rev_ind; [done|].
  rewrite fold_left_app. cbn [fold_left]. rewrite Forall_app, Forall_singleton. intros [H ?]. specialize (IH H). lia.
Qed.

Lemma ordinal_base_bound l : l <> [] -> Forall (fun e => 1 <= ordinal e <= 65535) l -> ordinal_base l <= 65535.
Proof.
  destruct l as [|e l]; [done|]. intros _ H. pose proof (proj2 (ordinal_base_spec (e :: l)) e (list_elem_of_here _ _)).
  apply Forall_cons in H as [H _]. lia.
Qed.

Lemma ordinals_count l : NoDup (map ordinal l) -> Forall (fun e => 1 <= ordinal e <= 65535) l -> Z.of_nat (length l) <= 65535.
Proof.
  intros Hnd Hr. assert (length (map ordinal l) <= length (map Z.of_nat (seq 1 (Z.to_nat 65535))))%nat as H.
  { apply NoDup_incl_length; [by apply NoDup_ListNoDup|]. intros o Ho%list_elem_of_In.
    apply list_elem_of_fmap in Ho as (e & -> & He). rewrite Forall_forall in Hr. specialize (Hr e He).
    apply in_map_iff. exists (Z.to_nat (ordinal e)). split; [lia|]. apply in_seq. lia. }
  rewrite !length_map, length_seq in H. lia.
Qed.

(** Where the tables are: one after the other, as the chunks of [.edata] are, in
    an image whose addresses are 32 bits wide. *)
Record placed (armnt : bool) (ed : edata) (exports : list Export) (dll : string) (dir : Z) : Prop := {
  p_dll : dir + 40 <= dllName ed;
  p_addr : dllName ed + Z.of_nat (String.length dll) < addressTab ed;
  p_names : addressTab ed + AddressTableChunk_getSize exports <= nameTab ed;
  p_ords : nameTab ed + NamePointersChunk_getSize exports <= ordinalTab ed;
  p_str : forall i, (i < length (named exports))%nat ->
    ordinalTab ed + ExportOrdinalChunk_getSize exports <= nameRVA ed i;
  p_disj : forall i j e, (i < j < length (named exports))%nat -> named exports !! i = Some e ->
    nameRVA ed i + Z.of_nat (String.length (exportName e)) < nameRVA ed j;
  p_forwards : forall e, e ∈ forwards exports ->
    ordinalTab ed + ExportOrdinalChunk_getSize exports <= exportRVA ed e /\
    (forall i e', named exports !! i = Some e' ->
       nameRVA ed i + Z.of_nat (String.length (exportName e')) < exportRVA ed e) /\
    (forall e', e' ∈ forwards exports ->
       e' = e \/ exportRVA ed e' + Z.of_nat (String.length (forwardTo e')) < exportRVA ed e \/
       exportRVA ed e + Z.of_nat (String.length (forwardTo e)) < exportRVA ed e');
  p_words : Forall (word_ok 32) [addressTab ed; nameTab ed; ordinalTab ed];
  p_rvas : forall i, (i < length (named exports))%nat -> word_ok 32 (nameRVA ed i);
  p_entries : Forall (fun e => word_ok 32 (address_entry armnt ed e)) exports
}.

Lemma table_size_pos l : l <> [] -> 0 <= AddressTableChunk_getSize l.
Proof.
  destruct l as [|e l]; [done|]. intros _. unfold AddressTableChunk_getSize.
  pose proof (proj2 (ordinal_base_spec (e :: l)) e (list_elem_of_here _ _)).
  pose proof (proj2 (max_ordinal_spec (e :: l)) e (list_elem_of_here _ _)). lia.
Qed.

Section Roundtrip.
  Context (armnt : bool) (ed : edata) (exports : list Export) (dll : string) (dir : Z) (m : mem).
  Context (Hnd : NoDup (map ordinal exports)).
  Context (Hord : Forall (fun e => 1 <= ordinal e <= 65535) exports).
  Context (Hplaced : placed armnt ed exports dll dir).

#[local] Abbreviation out := (write_edata armnt ed exports dll dir m).
#[local] Abbreviation base := (ordinal_base exports).
#[local] Abbreviation count := (length (named exports)).

Lemma from_strings : from (ordinalTab ed + ExportOrdinalChunk_getSize exports) (write_strings ed (combine (seq 0 count) (named exports))).
Proof.
  apply from_fold. intros [i e] [_ Hi]%elem_of_combine_seq. rewrite Nat.sub_0_r in Hi.
  eapply from_le; [|apply from_memcpy]. cbn. by eapply p_str, lookup_lt_Some.
Qed.

Lemma from_forwards : from (ordinalTab ed + ExportOrdinalChunk_getSize exports) (write_forwards ed exports).
Proof.
  apply from_fold. intros e He. eapply from_le; [|apply from_memcpy]. by apply (p_forwards _ _ _ _ _ Hplaced).
Qed.

Lemma from_ordinals : from (ordinalTab ed) (ExportOrdinalChunk_writeTo exports (ordinalTab ed)).
Proof.
  intros m' x Hx. unfold ExportOrdinalChunk_writeTo.
  rewrite <- (Z.add_0_r (ordinalTab ed)). change 0 with (Z.of_nat 0 * 2). rewrite write_ordinals_fold.
  revert m' x Hx. apply from_fold. intros y _. eapply from_le; [|apply from_write]. lia.
Qed.

Lemma from_names : from (nameTab ed) (NamePointersChunk_writeTo ed exports (nameTab ed)).
Proof. apply from_fold. intros i _. eapply from_le; [|apply from_write]. lia. Qed.

Lemma from_addresses : from (addressTab ed) (AddressTableChunk_writeTo armnt ed exports (addressTab ed)).
Proof.
  intros m' x Hx. unfold AddressTableChunk_writeTo.
  rewrite (from_fold (addressTab ed)); [apply memcpy_other; lia| |done].
  intros e He. pose proof (proj2 (ordinal_base_spec exports) e He). eapply from_le; [|apply from_write]. lia.
Qed.

Lemma address_inside e : e ∈ exports ->
  0 <= ordinal e - base < 65536 /\ (ordinal e - base) * 4 + 4 <= AddressTableChunk_getSize exports.
Proof.
  intros He. pose proof (proj2 (ordinal_base_spec exports) e He). pose proof (proj2 (max_ordinal_spec exports) e He).
  pose proof (ordinal_base_pos _ Hord). pose proof (proj1 (Forall_forall _ _) Hord e He) as Hr. cbn in Hr.
  unfold AddressTableChunk_getSize. lia.
Qed.

Lemma out_address e : e ∈ exports ->
  read 4 out (addressTab ed + (ordinal e - base) * 4) = address_entry armnt ed e.
Proof.
  intros He. destruct (address_inside e He) as [Hr Hin]. unfold write_edata.
  pose proof (p_names _ _ _ _ _ Hplaced). pose proof (p_ords _ _ _ _ _ Hplaced).
  unfold NamePointersChunk_getSize, ExportOrdinalChunk_getSize in *.
  rewrite (read_from 4 _ _ _ _ from_forwards), (read_from 4 _ _ _ _ from_strings) by (unfold ExportOrdinalChunk_getSize; lia).
  rewrite (read_from 4 _ _ _ _ from_ordinals) by lia. rewrite (read_from 4 _ _ _ _ from_names) by lia.
  unfold AddressTableChunk_writeTo.
  rewrite (read_slot 4 (fun e => addressTab ed + (ordinal e - base) * 4) (address_entry armnt ed) _ _ e He).
  - apply wrap_small. by apply (proj1 (Forall_forall _ _) (p_entries _ _ _ _ _ Hplaced)).
  - intros y Hy. destruct (decide (ordinal y = ordinal e)) as [E|]; [left|right; cbn; lia].
    apply list_elem_of_lookup_1 in He as [i Hi]. apply list_elem_of_lookup_1 in Hy as [j Hj].
    assert (i = j) as ->; [|congruence].
    eapply (NoDup_lookup (map ordinal exports)); [done|rewrite list_lookup_fmap, Hi; reflexivity|].
    rewrite list_lookup_fmap, Hj. cbn. by rewrite E.
Qed.

Context (Hne : exports <> []).

Lemma table_order : dllName ed <= addressTab ed /\ addressTab ed <= nameTab ed /\ nameTab ed <= ordinalTab ed.
Proof.
  pose proof (p_addr _ _ _ _ _ Hplaced). pose proof (p_names _ _ _ _ _ Hplaced). pose proof (p_ords _ _ _ _ _ Hplaced).
  unfold NamePointersChunk_getSize in *. pose proof (table_size_pos _ Hne). lia.
Qed.

Lemma out_below n p : p + Z.of_nat n <= dllName ed -> read n out p = read n (ExportDirectoryChunk_writeTo ed exports dir m) p.
Proof.
  intros Hp. pose proof table_order. unfold write_edata.
  rewrite (read_from n _ _ _ _ from_forwards), (read_from n _ _ _ _ from_strings) by (unfold ExportOrdinalChunk_getSize; lia).
  rewrite (read_from n _ _ _ _ from_ordinals), (read_from n _ _ _ _ from_names), (read_from n _ _ _ _ from_addresses) by lia.
  by rewrite (read_from n _ (put_string dll (dllName ed)) _ _ (from_memcpy _ _)).
Qed.

Lemma out_directory :
  read32le out (dir + 16) = base /\ read32le out (dir + 24) = Z.of_nat count /\ read32le out (dir + 28) = addressTab ed /\
  read32le out (dir + 32) = nameTab ed /\ read32le out (dir + 36) = ordinalTab ed.
Proof.
  pose proof (p_dll _ _ _ _ _ Hplaced). pose proof (p_words _ _ _ _ _ Hplaced) as Hw.
  apply Forall_cons in Hw as [? Hw]. apply Forall_cons in Hw as [? Hw]. apply Forall_cons in Hw as [? _].
  assert (Z.of_nat count <= 65535).
  { pose proof (ordinals_count _ Hnd Hord). pose proof (filter_length_le (fun e => negb (noname e)) exports). unfold named. lia. }
  pose proof (ordinal_base_pos _ Hord). pose proof (ordinal_base_bound _ Hne Hord).
  rewrite !out_below by lia. unfold ExportDirectoryChunk_writeTo.
  repeat split; rewrite ?(read_write_other 4 4) by lia; rewrite read_write.
  all: try (by apply wrap_small).
  - rewrite (wrap_small 16) by (split; [lia|]; change (2 ^ 16) with 65536; lia).
    apply wrap_small. split; [lia|]. change (2 ^ (8 * Z.of_nat 4)) with 4294967296. lia.
  - rewrite (wrap_small 16) by (split; [lia|]; change (2 ^ 16) with 65536; lia).
    apply wrap_small. split; [lia|]. change (2 ^ (8 * Z.of_nat 4)) with 4294967296. lia.
Qed.

Lemma out_name i : (i < count)%nat -> read32le out (nameTab ed + Z.of_nat i * 4) = nameRVA ed i.
Proof.
  intros Hi. unfold write_edata. pose proof (p_ords _ _ _ _ _ Hplaced).
  unfold NamePointersChunk_getSize, ExportOrdinalChunk_getSize in *.
  rewrite (read_from 4 _ _ _ _ from_forwards), (read_from 4 _ _ _ _ from_strings) by (unfold ExportOrdinalChunk_getSize; lia).
  rewrite (read_from 4 _ _ _ _ from_ordinals) by lia. unfold NamePointersChunk_writeTo, write_names.
  rewrite (read_slot 4 (fun i => nameTab ed + Z.of_nat i * 4) (nameRVA ed) _ _ i).
  - by apply wrap_small, (p_rvas _ _ _ _ _ Hplaced).
  - apply elem_of_seq. lia.
  - intros j _. destruct (decide (j = i)); [by left|right; lia].
Qed.

Lemma out_ordinal i e : named exports !! i = Some e ->
  read16le out (ordinalTab ed + Z.of_nat i * 2) = ordinal e - base.
Proof.
  intros Hi. pose proof (lookup_lt_Some _ _ _ Hi). unfold write_edata.
  rewrite (read_from 2 _ _ _ _ from_forwards), (read_from 2 _ _ _ _ from_strings) by (unfold ExportOrdinalChunk_getSize; lia).
  unfold ExportOrdinalChunk_writeTo. rewrite <- (Z.add_0_r (ordinalTab ed)) at 1. change 0 with (Z.of_nat 0 * 2) at 1.
  rewrite write_ordinals_fold.
  rewrite (read_slot 2 (fun x : nat * Export => ordinalTab ed + Z.of_nat x.1 * 2) (fun x => ordinal x.2 - base) _ _ (i, e)).
  - apply wrap_small. assert (e ∈ exports) as He.
    { by eapply named_in. }
    destruct (address_inside e He). unfold word_ok. change (2 ^ (8 * Z.of_nat 2)) with 65536. lia.
  - apply elem_of_combine_seq. split; [lia|]. by rewrite Nat.sub_0_r.
  - intros [j e'] [_ Hj]%elem_of_combine_seq. rewrite Nat.sub_0_r in Hj. cbn.
    destruct (decide (j = i)) as [->|]; [left; congruence|right; lia].
Qed.

Lemma out_string i e : named exports !! i = Some e -> has_string out (nameRVA ed i) (exportName e).
Proof.
  intros Hi. unfold write_edata, write_forwards.
  apply has_forwards; [|intros e' He'; by eapply (p_forwards _ _ _ _ _ Hplaced)].
  apply (strings_slot (fun x : nat * Export => nameRVA ed x.1) (fun x => exportName x.2) _ _ (i, e)).
  - apply elem_of_combine_seq. split; [lia|]. by rewrite Nat.sub_0_r.
  - intros [j e'] [_ Hj]%elem_of_combine_seq. rewrite Nat.sub_0_r in Hj. cbn.
    pose proof (lookup_lt_Some _ _ _ Hi). pose proof (lookup_lt_Some _ _ _ Hj).
    destruct (decide (j = i)) as [->|]; [left; congruence|right].
    destruct (decide (j < i)%nat); [left; eapply (p_disj _ _ _ _ _ Hplaced j i); [lia|done]|right; eapply (p_disj _ _ _ _ _ Hplaced i j); [lia|done]].
Qed.

Lemma out_forward e : e ∈ forwards exports -> has_string out (exportRVA ed e) (forwardTo e).
Proof.
  intros He. apply (strings_slot (exportRVA ed) forwardTo); [done|]. intros y Hy.
  by apply (p_forwards _ _ _ _ _ Hplaced e He).
Qed.

End Roundtrip.

Lemma sorted_filter {A} (R : A -> A -> Prop) f l : StronglySorted R l -> StronglySorted R (List.filter f l).
Proof.
  induction 1 as [|x l Hs IH Hall]; cbn; [constructor|]. case_match; [|done]. constructor; [done|].
  rewrite Forall_forall in Hall |- *. intros y Hy%list_elem_of_In. apply filter_In in Hy as [Hy _].
  by apply Hall, list_elem_of_In.
Qed.

Lemma sorted_map {A B} (R : B -> B -> Prop) (f : A -> B) l :
  StronglySorted (fun a b => R (f a) (f b)) l -> StronglySorted R (map f l).
Proof. induction 1; cbn; constructor; [done|]. by apply Forall_map. Qed.

Lemma bsearch_none fuel get ns n lo hi :
  (forall j s, ns !! j = Some s -> get j = s) -> n ∉ ns -> (hi <= length ns)%nat ->
  bsearch fuel get n lo hi = None.
Proof.
  intros Hget Hn. revert lo hi. induction fuel as [|fuel IH]; intros lo hi Hhi; [done|]. cbn [bsearch].
  destruct (Nat.leb_spec hi lo); [done|].
  pose proof (Nat.div_mod (lo + hi) 2 ltac:(lia)). pose proof (Nat.mod_upper_bound (lo + hi) 2 ltac:(lia)).
  set (mid := ((lo + hi) / 2)%nat) in *.
  destruct (lookup_lt_is_Some_2 ns mid ltac:(lia)) as [s Hs]. rewrite (Hget _ _ Hs).
  destruct (String.compare n s) eqn:E; [|apply IH; lia..].
  apply String.compare_eq_iff in E as ->. destruct Hn. by eapply list_elem_of_lookup_2.
Qed.

(** C17: The export tables are read back as the loader reads them: looking up
    the name of an export that has one, or the ordinal of any export, in the
    image [createEdataChunks] writes gives that export's address (with the Thumb
    bit on ARM32), a name that is not exported is not found, and a forwarder's
    string is where its address says. *)
Theorem export_tables_roundtrip (armnt : bool) (ed : edata) (exports : list Export) (dll : string) (dir : Z) (m : mem)
    (Hsorted : StronglySorted before exports) (Hnd : NoDup (map ordinal exports))
    (Hord : Forall (fun e => 1 <= ordinal e <= 65535) exports) (Hne : exports <> [])
    (Hplaced : placed armnt ed exports dll dir)
    (Hnames : Forall (fun e => no_nul (exportName e) /\ (String.length (exportName e) < name_limit)%nat /\
                                 no_nul (forwardTo e) /\ (String.length (forwardTo e) < name_limit)%nat) exports) :
  let image := write_edata armnt ed exports dll dir m in
  (forall e, e ∈ exports -> GetProcAddress_ordinal image dir (ordinal e) = address_entry armnt ed e /\
     (noname e = false -> GetProcAddress image dir (exportName e) = Some (address_entry armnt ed e))) /\
  (forall n, n ∉ map exportName (named exports) -> GetProcAddress image dir n = None) /\
  (forall e, e ∈ exports -> forwardTo e <> "" -> cstring name_limit image (exportRVA ed e) = forwardTo e).
Proof.
  intros image. destruct (out_directory armnt ed exports dll dir m Hnd Hord Hplaced Hne) as (E1 & E2 & E3 & E4 & E5).
  fold image in E1, E2, E3, E4, E5.
  assert (Hget : forall j s, map exportName (named exports) !! j = Some s ->
    cstring name_limit image (read32le image (nameTab ed + Z.of_nat j * 4)) = s).
  { intros j s Hj. apply list_lookup_fmap_Some in Hj as (e & -> & He).
    rewrite (out_name armnt ed exports dll dir m Hplaced) by (by eapply lookup_lt_Some).
    assert (e ∈ exports) as Hin.
    { by eapply named_in. }
    destruct (proj1 (Forall_forall _ _) Hnames e Hin) as (? & ? & _). apply cstring_has; [by apply out_string|done..]. }
  subst image. unfold GetProcAddress, GetProcAddress_ordinal. rewrite E1, E2, E3, E4, E5, Nat2Z.id. split; [|split].
  - intros e He. split; [by apply out_address|]. intros Hn.
    assert (e ∈ named exports) as [i Hi]%list_elem_of_lookup_1.
    { apply list_elem_of_In, filter_In. split; [by apply list_elem_of_In|]. by rewrite Hn. }
    rewrite (bsearch_correct _ _ (map exportName (named exports)) _ i); cbn [mbind option_bind].
    + rewrite (out_ordinal armnt ed exports dll dir m Hord Hplaced _ _ Hi). f_equal. by apply out_address.
    + by apply sorted_map, sorted_filter.
    + apply Hget.
    + by rewrite list_lookup_fmap, Hi.
    + split; [lia|by eapply lookup_lt_Some].
    + by rewrite length_map.
    + lia.
  - intros n Hn. rewrite (bsearch_none _ _ (map exportName (named exports))); [done|apply Hget|done|by rewrite length_map].
  - intros e He Hf. destruct (proj1 (Forall_forall _ _) Hnames e He) as (_ & _ & ? & ?).
    apply cstring_has; [|done..]. apply out_forward; [done|]. apply list_elem_of_In, filter_In.
    split; [by apply list_elem_of_In|]. by destruct (String.eqb_spec (forwardTo e) "").
Qed.

(** On ARM32 the Thumb bit is also set in the address of a forwarder, which then
    leaves out the string's first character (strings have even addresses only by
    chance; chunks of names are one byte aligned). *)
Lemma forwarder_thumb_bit ed e m c s :
  data e = false -> Z.even (exportRVA ed e) = true -> forwardTo e = String c s ->
  has_string m (exportRVA ed e) (forwardTo e) -> has_string m (address_entry true ed e) s.
Proof.
  intros Hd Hev Hf Hs k Hk. rewrite Hf in Hs. specialize (Hs (S k) ltac:(cbn; lia)).
  replace (address_entry true ed e + Z.of_nat k) with (exportRVA ed e + Z.of_nat (S k)); [exact Hs|].
  unfold address_entry. rewrite Hd. cbn [andb negb]. apply Z.even_spec in Hev as [h Hh]. rewrite Hh.
  rewrite Z.lor_comm. replace (1 ||| 2 * h) with (2 * h + 1); [lia|].
  apply Z.bits_inj'. intros n Hn. rewrite Z.lor_spec. destruct (decide (n = 0)) as [->|Hn0].
  - by rewrite Z.testbit_odd_0.
  - rewrite (Z.bits_above_log2 1 n) by (cbn; lia).
    replace n with (Z.succ (n - 1)) by lia. by rewrite Z.testbit_odd_succ, Z.testbit_even_succ by lia.
Qed.

Definition demo_edata : edata :=
  {| dllName := 1040; addressTab := 1048; nameTab := 1060; ordinalTab := 1068;
     nameRVA := fun i => match i with O => 1072 | _ => 1078 end;
     exportRVA := fun e => if String.eqb (forwardTo e) "" then 4096 + 16 * ordinal e else 1083 |}.
Definition demo_row (n : string) (o : Z) (nn : bool) (fwd : string) : Export :=
  {| e_name := n; extName := ""; exportAs := ""; importName := ""; e_sym := Some (Global n);
     ordinal := o; noname := nn; data := false; isPrivate := false; constant := false; forwardTo := fwd;
     source := ExportOption; symbolName := n; exportName := n |}.
Definition demo_alpha : Export := demo_row "alpha" 9 false "".
Definition demo_beta : Export := demo_row "beta" 7 false "k.f".
Definition demo_hidden : Export := demo_row "hidden" 8 true "".
Definition demo_table : list Export := [demo_alpha; demo_beta; demo_hidden].

Lemma export_tables_roundtrip_witness :
  let image := write_edata false demo_edata demo_table "a.dll" 1000 (fun _ => 204) in
  GetProcAddress image 1000 "alpha" = Some 4240 /\ GetProcAddress image 1000 "beta" = Some 1083 /\
  GetProcAddress image 1000 "hidden" = None /\ GetProcAddress_ordinal image 1000 8 = 4224.
Proof.
  assert (H := export_tables_roundtrip false demo_edata demo_table "a.dll" 1000 (fun _ => 204)).
  destruct H as (H & Hn & _).
  - repeat constructor.
  - apply (bool_decide_unpack _). vm_compute. exact I.
  - repeat first [apply Forall_nil_2|apply Forall_cons_2; [by vm_compute|]].
  - done.
  - constructor.
    1-4: by vm_compute.
    + intros [|[|i]] Hi; [vm_compute; done..|cbn in Hi; lia].
    + intros i j e Hij Hi. destruct i as [|i]; [|cbn in Hij; lia]. destruct j as [|[|j]]; [lia| |cbn in Hij; lia].
      injection Hi as <-. vm_compute. done.
    + intros e He. assert (e = demo_beta) as ->.
      { apply list_elem_of_In in He. by destruct He as [<-|[]]. }
      split; [vm_compute; done|]. split.
      * intros [|[|i]] e' Hi; [injection Hi as <-; vm_compute; done..|done].
      * intros e' He'. left. apply list_elem_of_In in He'. by destruct He' as [<-|[]].
    + repeat first [apply Forall_nil_2|apply Forall_cons_2; [by vm_compute|]].
    + intros [|[|i]] Hi; [vm_compute; done..|cbn in Hi; lia].
    + repeat first [apply Forall_nil_2|apply Forall_cons_2; [by vm_compute|]].
  - repeat first [apply Forall_nil_2|apply Forall_cons_2; [apply names_fit; vm_compute; reflexivity|]].
  - refine (conj _ (conj _ (conj _ _))).
    + exact (proj2 (H (demo_alpha) ltac:(apply list_elem_of_here)) eq_refl).
    + exact (proj2 (H (demo_beta) ltac:(apply list_elem_of_further, list_elem_of_here)) eq_refl).
    + apply Hn. apply (bool_decide_unpack _). vm_compute. exact I.
    + exact (proj1 (H (demo_hidden) ltac:(do 2 apply list_elem_of_further; apply list_elem_of_here))).
Defined.
