(* ===== verification/ObjFile.v ===== *)
(** * Reading an object's sections and symbols (lld/COFF/InputFiles.cpp)

    [ObjFile::parse] from the parsed COFF file on: which sections are read and
    into which of the file's lists, COMDAT selection, associative sections, and
    the symbols the file adds to the table. The file is what llvm/Object reads:
    its section headers with names and contents, and its raw symbol records. *)

From S2P Require Import Prelude Layout SymbolTable.

#[local] Open Scope string_scope.
#[local] Open Scope list_scope.
#[local] Open Scope Z_scope.

(** ** Data *)

Record coff_section := {
  sec_name : string;
  SizeOfRawData : Z;
  NumberOfRelocations : Z;
  Characteristics : Z;
  sec_contents : list Z
}.

Record coff_aux_section_definition := {
  Length : Z;
  CheckSum : Z;
  NumberLowPart : Z;
  Selection : Z;
  NumberHighPart : Z
}.

Record coff_aux_weak_external := { TagIndex : nat; weak_Characteristics : Z }.

(** A record of the symbol table; [aux_def] and [aux_weak] are what the record
    after it reads as. *)
Record coff_symbol := {
  cs_name : string;
  cs_value : Z;
  cs_section : Z;
  cs_class : Z;
  cs_naux : nat;
  aux_def : coff_aux_section_definition;
  aux_weak : coff_aux_weak_external
}.

Record coff_object := {
  obj_machine : Z;
  isBigObj : bool;
  obj_sections : list coff_section;
  obj_symbols : list coff_symbol
}.

Record obj_config := {
  oc_st : st_config;
  oc_mingw : bool;
  discardSection : list string;
  includeDwarfChunks : bool;
  tailMerge : bool;
  oc_doGC : bool
}.

(** The vectors of an ObjFile; [MergeChunks] are the string tail merging
    sections of the whole link. *)
Inductive vector :=
  | Chunks | DebugChunks | GuardFidChunks | GuardIATChunks | GuardLJmpChunks | GuardEHContChunks
  | SxDataChunks | HybmpChunks | MergeChunks | ResourceChunks.

Record schunk := {
  sc_file : nat;
  sc_number : Z;
  sc_header : coff_section;
  sc_checksum : Z;
  sc_selection : Z;
  sc_sym : option sref;
  sc_live : bool;
  assocChildren : option nat
}.

(** [pendingComdat], null, or a chunk. *)
Inductive sparse := Pending | Discarded | Present (c : nat).

Inductive fatal :=
  | NoSuchSection (i : Z)
  | NoSuchSymbol (i : nat)
  | ReservedSection (n : string) (i : Z)
  | NonExistentSection (n : string) (i : Z)
  | UnknownComdat (sel : Z) (n : string)
  | NullDereference           (* undefined behaviour: a null pointer *)
  | OutOfBounds               (* undefined behaviour: a vector's end *)
  | Unreachable.

Inductive outcome (A : Type) := Done (a : A) | Stop (f : fatal).
Arguments Done {A}. Arguments Stop {A}.

#[export] Instance outcome_ret : MRet outcome := fun _ => Done.
#[export] Instance outcome_bind : MBind outcome :=
  fun _ _ k m => match m with Done a => k a | Stop f => Stop f end.

(** A step whose several results are named. *)
Definition and_then {A B} (m : outcome A) (k : A -> outcome B) : outcome B := m ≫= k.
Notation "'let*' p := m 'in' k" := (and_then m (fun p => k))
  (at level 10, p strict pattern, m at level 99, k at level 200).

Inductive obj_event :=
  | AssocInvalidParent (n : string) (sec : Z) (parent : Z)
  | DiscardUnassociated (n : string)
  | InvalidHybmpSize (c : nat)
  | UnknownThunkType (t : Z).

(** The sections of a file. *)
Record sections := {
  o_store : gmap nat schunk;
  o_next : nat;   (* the next chunk *)
  sparseChunks : list sparse;
  o_vectors : list (vector * nat);   (* in the order of the push_backs *)
  o_directives : option (list Z);
  addrsigSec : option Z;
  callgraphSec : option Z
}.

Definition set_o_store (x : gmap nat schunk) (F : sections) : sections :=
  {| o_store := x; o_next := o_next F; sparseChunks := sparseChunks F; o_vectors := o_vectors F; o_directives
     := o_directives F; addrsigSec := addrsigSec F; callgraphSec := callgraphSec F |}.
Definition set_o_next (x : nat) (F : sections) : sections :=
  {| o_store := o_store F; o_next := x; sparseChunks := sparseChunks F; o_vectors := o_vectors F; o_directives
     := o_directives F; addrsigSec := addrsigSec F; callgraphSec := callgraphSec F |}.
Definition set_sparseChunks (x : list sparse) (F : sections) : sections :=
  {| o_store := o_store F; o_next := o_next F; sparseChunks := x; o_vectors := o_vectors F; o_directives :=
     o_directives F; addrsigSec := addrsigSec F; callgraphSec := callgraphSec F |}.
Definition set_o_vectors (x : list (vector * nat)) (F : sections) : sections :=
  {| o_store := o_store F; o_next := o_next F; sparseChunks := sparseChunks F; o_vectors := x; o_directives :=
     o_directives F; addrsigSec := addrsigSec F; callgraphSec := callgraphSec F |}.
Definition set_o_directives (x : option (list Z)) (F : sections) : sections :=
  {| o_store := o_store F; o_next := o_next F; sparseChunks := sparseChunks F; o_vectors := o_vectors F;
     o_directives := x; addrsigSec := addrsigSec F; callgraphSec := callgraphSec F |}.
Definition set_addrsigSec (x : option Z) (F : sections) : sections :=
  {| o_store := o_store F; o_next := o_next F; sparseChunks := sparseChunks F; o_vectors := o_vectors F;
     o_directives := o_directives F; addrsigSec := x; callgraphSec := callgraphSec F |}.
Definition set_callgraphSec (x : option Z) (F : sections) : sections :=
  {| o_store := o_store F; o_next := o_next F; sparseChunks := sparseChunks F; o_vectors := o_vectors F;
     o_directives := o_directives F; addrsigSec := addrsigSec F; callgraphSec := x |}.

(** A file being parsed, with the symbol table; the last four fields are the
    variables of [initializeSymbols]. *)
Record objstate := {
  o_sections : sections;
  o_table : symtab;
  o_symbols : gmap nat sref;   (* null where absent *)
  o_local : nat;   (* the next symbol of a file *)
  o_commons : gmap nat Z;   (* the CommonChunks *)
  feat00Flags : Z;
  entryThunks : list (option sref * option sref);
  exitThunks : gmap (option sref) (option sref);
  o_events : list obj_event;
  comdatDefs : gmap Z coff_aux_section_definition;
  prevailingSectionMap : gmap string Z;
  pendingIndexes : list nat;
  weakAliases : list (sref * coff_aux_weak_external)
}.

Definition set_o_sections (x : sections) (P : objstate) : objstate :=
  {| o_sections := x; o_table := o_table P; o_symbols := o_symbols P; o_local := o_local P; o_commons :=
     o_commons P; feat00Flags := feat00Flags P; entryThunks := entryThunks P; exitThunks := exitThunks P;
     o_events := o_events P; comdatDefs := comdatDefs P; prevailingSectionMap := prevailingSectionMap P;
     pendingIndexes := pendingIndexes P; weakAliases := weakAliases P |}.
Definition set_o_table (x : symtab) (P : objstate) : objstate :=
  {| o_sections := o_sections P; o_table := x; o_symbols := o_symbols P; o_local := o_local P; o_commons :=
     o_commons P; feat00Flags := feat00Flags P; entryThunks := entryThunks P; exitThunks := exitThunks P;
     o_events := o_events P; comdatDefs := comdatDefs P; prevailingSectionMap := prevailingSectionMap P;
     pendingIndexes := pendingIndexes P; weakAliases := weakAliases P |}.
Definition set_o_symbols (x : gmap nat sref) (P : objstate) : objstate :=
  {| o_sections := o_sections P; o_table := o_table P; o_symbols := x; o_local := o_local P; o_commons :=
     o_commons P; feat00Flags := feat00Flags P; entryThunks := entryThunks P; exitThunks := exitThunks P;
     o_events := o_events P; comdatDefs := comdatDefs P; prevailingSectionMap := prevailingSectionMap P;
     pendingIndexes := pendingIndexes P; weakAliases := weakAliases P |}.
Definition set_o_local (x : nat) (P : objstate) : objstate :=
  {| o_sections := o_sections P; o_table := o_table P; o_symbols := o_symbols P; o_local := x; o_commons :=
     o_commons P; feat00Flags := feat00Flags P; entryThunks := entryThunks P; exitThunks := exitThunks P;
     o_events := o_events P; comdatDefs := comdatDefs P; prevailingSectionMap := prevailingSectionMap P;
     pendingIndexes := pendingIndexes P; weakAliases := weakAliases P |}.
Definition set_o_commons (x : gmap nat Z) (P : objstate) : objstate :=
  {| o_sections := o_sections P; o_table := o_table P; o_symbols := o_symbols P; o_local := o_local P;
     o_commons := x; feat00Flags := feat00Flags P; entryThunks := entryThunks P; exitThunks := exitThunks P;
     o_events := o_events P; comdatDefs := comdatDefs P; prevailingSectionMap := prevailingSectionMap P;
     pendingIndexes := pendingIndexes P; weakAliases := weakAliases P |}.
Definition set_feat00Flags (x : Z) (P : objstate) : objstate :=
  {| o_sections := o_sections P; o_table := o_table P; o_symbols := o_symbols P; o_local := o_local P;
     o_commons := o_commons P; feat00Flags := x; entryThunks := entryThunks P; exitThunks := exitThunks P;
     o_events := o_events P; comdatDefs := comdatDefs P; prevailingSectionMap := prevailingSectionMap P;
     pendingIndexes := pendingIndexes P; weakAliases := weakAliases P |}.
Definition set_entryThunks (x : list (option sref * option sref)) (P : objstate) : objstate :=
  {| o_sections := o_sections P; o_table := o_table P; o_symbols := o_symbols P; o_local := o_local P;
     o_commons := o_commons P; feat00Flags := feat00Flags P; entryThunks := x; exitThunks := exitThunks P;
     o_events := o_events P; comdatDefs := comdatDefs P; prevailingSectionMap := prevailingSectionMap P;
     pendingIndexes := pendingIndexes P; weakAliases := weakAliases P |}.
Definition set_exitThunks (x : gmap (option sref) (option sref)) (P : objstate) : objstate :=
  {| o_sections := o_sections P; o_table := o_table P; o_symbols := o_symbols P; o_local := o_local P;
     o_commons := o_commons P; feat00Flags := feat00Flags P; entryThunks := entryThunks P; exitThunks := x;
     o_events := o_events P; comdatDefs := comdatDefs P; prevailingSectionMap := prevailingSectionMap P;
     pendingIndexes := pendingIndexes P; weakAliases := weakAliases P |}.
Definition set_o_events (x : list obj_event) (P : objstate) : objstate :=
  {| o_sections := o_sections P; o_table := o_table P; o_symbols := o_symbols P; o_local := o_local P;
     o_commons := o_commons P; feat00Flags := feat00Flags P; entryThunks := entryThunks P; exitThunks :=
     exitThunks P; o_events := x; comdatDefs := comdatDefs P; prevailingSectionMap := prevailingSectionMap P;
     pendingIndexes := pendingIndexes P; weakAliases := weakAliases P |}.
Definition set_comdatDefs (x : gmap Z coff_aux_section_definition) (P : objstate) : objstate :=
  {| o_sections := o_sections P; o_table := o_table P; o_symbols := o_symbols P; o_local := o_local P;
     o_commons := o_commons P; feat00Flags := feat00Flags P; entryThunks := entryThunks P; exitThunks :=
     exitThunks P; o_events := o_events P; comdatDefs := x; prevailingSectionMap := prevailingSectionMap P;
     pendingIndexes := pendingIndexes P; weakAliases := weakAliases P |}.
Definition set_prevailingSectionMap (x : gmap string Z) (P : objstate) : objstate :=
  {| o_sections := o_sections P; o_table := o_table P; o_symbols := o_symbols P; o_local := o_local P;
     o_commons := o_commons P; feat00Flags := feat00Flags P; entryThunks := entryThunks P; exitThunks :=
     exitThunks P; o_events := o_events P; comdatDefs := comdatDefs P; prevailingSectionMap := x;
     pendingIndexes := pendingIndexes P; weakAliases := weakAliases P |}.
Definition set_pendingIndexes (x : list nat) (P : objstate) : objstate :=
  {| o_sections := o_sections P; o_table := o_table P; o_symbols := o_symbols P; o_local := o_local P;
     o_commons := o_commons P; feat00Flags := feat00Flags P; entryThunks := entryThunks P; exitThunks :=
     exitThunks P; o_events := o_events P; comdatDefs := comdatDefs P; prevailingSectionMap :=
     prevailingSectionMap P; pendingIndexes := x; weakAliases := weakAliases P |}.
Definition set_weakAliases (x : list (sref * coff_aux_weak_external)) (P : objstate) : objstate :=
  {| o_sections := o_sections P; o_table := o_table P; o_symbols := o_symbols P; o_local := o_local P;
     o_commons := o_commons P; feat00Flags := feat00Flags P; entryThunks := entryThunks P; exitThunks :=
     exitThunks P; o_events := o_events P; comdatDefs := comdatDefs P; prevailingSectionMap :=
     prevailingSectionMap P; pendingIndexes := pendingIndexes P; weakAliases := x |}.

(** ** Symbols (llvm/Object/COFF.h) *)

Definition CLASS_EXTERNAL : Z := 2.
Definition CLASS_STATIC : Z := 3.
Definition CLASS_SECTION : Z := 104.
Definition CLASS_WEAK_EXTERNAL : Z := 105.

Definition getSectionDefinition (s : coff_symbol) : option coff_aux_section_definition :=
  if (cs_naux s =? 0)%nat || negb (cs_class s =? CLASS_STATIC) then None else Some (aux_def s).
Definition getNumber (big : bool) (d : coff_aux_section_definition) : Z :=
  s32 (if big then NumberLowPart d ||| (NumberHighPart d <<< 16) else NumberLowPart d).

Definition isAbsolute (s : coff_symbol) : bool := cs_section s =? -1.
Definition isExternal (s : coff_symbol) : bool := cs_class s =? CLASS_EXTERNAL.
Definition isCommon (s : coff_symbol) : bool :=
  isExternal s && (cs_section s =? 0) && negb (cs_value s =? 0).
Definition cs_isUndefined (s : coff_symbol) : bool :=
  isExternal s && (cs_section s =? 0) && (cs_value s =? 0).
Definition isSection (s : coff_symbol) : bool := cs_class s =? CLASS_SECTION.
Definition isEmptySectionDeclaration (s : coff_symbol) : bool := isSection s && (cs_section s =? 0).
Definition isWeakExternal (s : coff_symbol) : bool := cs_class s =? CLASS_WEAK_EXTERNAL.
Definition isAnyUndefined (s : coff_symbol) : bool := cs_isUndefined s || isWeakExternal s.
Definition isReservedSectionNumber (n : Z) : bool := n <=? 0.

(** ** Sections *)

Definition MACHINE_AMD64 : Z := 34404.                      (* 0x8664 *)
Definition isArm64EC_machine (m : Z) : bool := (m =? 42561) || (m =? 42574).   (* 0xA641, 0xA64E *)

Definition SCN_CNT_INITIALIZED_DATA : Z := 2 ^ 6.
Definition SCN_LNK_INFO : Z := 2 ^ 9.
Definition SCN_LNK_REMOVE : Z := 2 ^ 11.
Definition SCN_LNK_COMDAT : Z := 2 ^ 12.
Definition SCN_ALIGN_4BYTES : Z := 3 * 2 ^ 20.
Definition SCN_MEM_READ : Z := 2 ^ 30.
Definition SCN_MEM_WRITE : Z := 2 ^ 31.

Definition sc_name (c : schunk) : string := sec_name (sc_header c).
Definition sc_getSize (c : schunk) : Z := SizeOfRawData (sc_header c).
Definition isCodeView (n : string) : bool := String.eqb n ".debug" || starts_with ".debug$" n.
Definition typeMask : Z := 224.                             (* 0xE0 *)
Definition getOutputCharacteristics (c : schunk) : Z := Characteristics (sc_header c) &&& (permMask ||| typeMask).

Section Obj.
  Context (cfg : obj_config) (insertion_point : string -> option nat) (file : nat) (obj : coff_object).

(** [ObjFile::getSection]: a fatal error past the end, null for reserved numbers. *)
Definition getSection (i : Z) : outcome (option coff_section) :=
  if isReservedSectionNumber i then Done None
  else match obj_sections obj !! Z.to_nat (i - 1) with Some s => Done (Some s) | None => Stop (NoSuchSection i) end.

Definition getSection_exn (i : Z) : outcome coff_section :=
  s ← getSection i; match s with Some s => Done s | None => Stop NullDereference end.

(** Where a section goes, by name and characteristics; none for no list. *)
Definition vector_of (sec : coff_section) (leaderName : string) : option vector :=
  let name := sec_name sec in
  if isCodeView name then Some DebugChunks
  else if String.eqb name ".gfids$y" then Some GuardFidChunks
  else if String.eqb name ".giats$y" then Some GuardIATChunks
  else if String.eqb name ".gljmp$y" then Some GuardLJmpChunks
  else if String.eqb name ".gehcont$y" then Some GuardEHContChunks
  else if String.eqb name ".sxdata" then Some SxDataChunks
  else if isArm64EC_machine (obj_machine obj) && String.eqb name ".hybmp$x" then Some HybmpChunks
  else if tailMerge cfg && (NumberOfRelocations sec =? 0) && String.eqb name ".rdata" &&
          starts_with "??_C@" leaderName then Some MergeChunks
  else if String.eqb name ".rsrc" || starts_with ".rsrc$" name then Some ResourceChunks
  else if negb (has_flag (Characteristics sec) SCN_LNK_INFO) then Some Chunks
  else None.

(** A new chunk, alive at once unless it is a COMDAT under /opt:ref. *)
Definition new_schunk (num : Z) (sec : coff_section) (checksum : Z) : schunk :=
  {| sc_file := file; sc_number := num; sc_header := sec; sc_checksum := checksum; sc_selection := 0;
     sc_sym := None; sc_live := negb (oc_doGC cfg) || negb (has_flag (Characteristics sec) SCN_LNK_COMDAT);
     assocChildren := None |}.

Definition add_schunk (c : schunk) (v : option vector) (F : sections) : nat * sections :=
  let id := o_next F in
  let F := set_o_next (id + 1)%nat (set_o_store (<[id := c]> (o_store F)) F) in
  (id, match v with Some v => set_o_vectors (o_vectors F ++ [(v, id)]) F | None => F end).

Definition readSection (sectionNumber : Z) (def : option coff_aux_section_definition) (leaderName : string)
    (F : sections) : outcome (option nat * sections) :=
  sec ← getSection_exn sectionNumber;
  let name := sec_name sec in
  if String.eqb name ".drectve" then Done (None, set_o_directives (Some (sec_contents sec)) F)
  else if String.eqb name ".llvm_addrsig" then Done (None, set_addrsigSec (Some sectionNumber) F)
  else if String.eqb name ".llvm.call-graph-profile" then Done (None, set_callgraphSec (Some sectionNumber) F)
  else if existsb (String.eqb name) (discardSection cfg) then Done (None, F)
  else if negb (includeDwarfChunks cfg) && starts_with ".debug_" name then Done (None, F)
  else if has_flag (Characteristics sec) SCN_LNK_REMOVE then Done (None, F)
  else
    let checksum := match def with Some d => CheckSum d | None => 0 end in
    let '(id, F) := add_schunk (new_schunk sectionNumber sec checksum) (vector_of sec leaderName) F in
    Done (Some id, F).

Definition of_chunk (c : option nat) : sparse := match c with Some c => Present c | None => Discarded end.

(** [initializeChunks]: [i] is the number of the first of the sections left. *)
Fixpoint initializeChunks_loop (i : Z) (l : list coff_section) (F : sections) : outcome sections :=
  match l with
  | [] => Done F
  | sec :: l =>
      if has_flag (Characteristics sec) SCN_LNK_COMDAT
      then initializeChunks_loop (i + 1) l (set_sparseChunks (sparseChunks F ++ [Pending]) F)
      else '(c, F) ← readSection i None "" F;
           initializeChunks_loop (i + 1) l (set_sparseChunks (sparseChunks F ++ [of_chunk c]) F)
  end.

Definition initializeChunks (F : sections) : outcome sections :=
  initializeChunks_loop 1 (obj_sections obj) (set_sparseChunks [Discarded] F).

(** ** Associative sections *)

(** [SectionChunk::addAssociative]: the list of the children is threaded through
    [assocChildren]; it is as long as there are chunks at most. *)
Definition set_assoc (n : option nat) (c : schunk) : schunk :=
  {| sc_file := sc_file c; sc_number := sc_number c; sc_header := sc_header c; sc_checksum := sc_checksum c;
     sc_selection := sc_selection c; sc_sym := sc_sym c; sc_live := sc_live c; assocChildren := n |}.
Definition set_selection (s : Z) (c : schunk) : schunk :=
  {| sc_file := sc_file c; sc_number := sc_number c; sc_header := sc_header c; sc_checksum := sc_checksum c;
     sc_selection := s; sc_sym := sc_sym c; sc_live := sc_live c; assocChildren := assocChildren c |}.
Definition set_leader (r : sref) (c : schunk) : schunk :=
  {| sc_file := sc_file c; sc_number := sc_number c; sc_header := sc_header c; sc_checksum := sc_checksum c;
     sc_selection := sc_selection c; sc_sym := Some r; sc_live := sc_live c; assocChildren := assocChildren c |}.

Definition chunk_name (H : gmap nat schunk) (c : nat) : string :=
  match H !! c with Some c => sc_name c | None => "" end.

Fixpoint addAssociative_loop (fuel : nat) (H : gmap nat schunk) (child prev : nat) (next : option nat)
    : gmap nat schunk :=
  let link := alter (set_assoc next) child (alter (set_assoc (Some child)) prev H) in
  match fuel, next with
  | Datatypes.S fuel, Some n =>
      if String.leb (chunk_name H n) (chunk_name H child) then link
      else addAssociative_loop fuel H child n (c ← H !! n; assocChildren c)
  | _, _ => link
  end.

Definition addAssociative (parent child : nat) (H : gmap nat schunk) : gmap nat schunk :=
  addAssociative_loop (size H) H child parent (c ← H !! parent; assocChildren c).

(** [SectionChunk::children]. *)
Fixpoint assoc_list (fuel : nat) (H : gmap nat schunk) (c : option nat) : list nat :=
  match fuel, c with
  | Datatypes.S fuel, Some c => c :: assoc_list fuel H (s ← H !! c; assocChildren s)
  | _, _ => []
  end.

Definition SELECT_NODUPLICATES : Z := 1.
Definition SELECT_ANY : Z := 2.
Definition SELECT_SAME_SIZE : Z := 3.
Definition SELECT_EXACT_MATCH : Z := 4.
Definition SELECT_ASSOCIATIVE : Z := 5.
Definition SELECT_LARGEST : Z := 6.

Definition children (H : gmap nat schunk) (c : nat) : list nat :=
  match H !! c with
  | Some s => if sc_selection s =? SELECT_ASSOCIATIVE then [] else assoc_list (size H) H (assocChildren s)
  | None => []
  end.

Definition obj_emit (e : obj_event) (P : objstate) : objstate := set_o_events (o_events P ++ [e]) P.
Definition sparse_at (i : Z) (P : objstate) : outcome sparse :=
  match sparseChunks (o_sections P) !! Z.to_nat i with Some s => Done s | None => Stop OutOfBounds end.
Definition set_sparse (i : Z) (s : sparse) (F : sections) : sections :=
  set_sparseChunks (<[Z.to_nat i := s]> (sparseChunks F)) F.
Definition update_store (f : gmap nat schunk -> gmap nat schunk) (F : sections) : sections :=
  set_o_store (f (o_store F)) F.
Definition with_sections (f : sections -> sections) (P : objstate) : objstate :=
  set_o_sections (f (o_sections P)) P.
Definition with_table (f : symtab -> symtab) (P : objstate) : objstate := set_o_table (f (o_table P)) P.

Definition readAssociativeDefinition (sym : coff_symbol) (def : coff_aux_section_definition) (parentIndex : Z)
    (P : objstate) : outcome objstate :=
  let sectionNumber := cs_section sym in
  parent ← sparse_at parentIndex P;
  match parent with
  | Pending => Done (obj_emit (AssocInvalidParent (cs_name sym) sectionNumber parentIndex) P)
  | Present p =>
      '(c, F) ← readSection sectionNumber (Some def) "" (o_sections P);
      let F := set_sparse sectionNumber (of_chunk c) F in
      Done (set_o_sections
        match c with
        | Some c => update_store (fun H => addAssociative p c (alter (set_selection SELECT_ASSOCIATIVE) c H)) F
        | None => F
        end P)
  | Discarded => Done (with_sections (set_sparse sectionNumber Discarded) P)
  end.

Definition recordPrevailingSymbolForMingw (sym : coff_symbol) (P : objstate) : outcome objstate :=
  let sectionNumber := cs_section sym in
  sc ← sparse_at sectionNumber P;
  match sc with
  | Present c =>
      match o_store (o_sections P) !! c with
      | Some s =>
          if has_flag (getOutputCharacteristics s) SCN_MEM_EXECUTE
          then Done (set_prevailingSectionMap
                 (<[(split_at "$" (sc_name s)).2 := sectionNumber]> (prevailingSectionMap P)) P)
          else Done P
      | None => Done P
      end
  | Discarded => Done P
  | Pending => Stop NullDereference
  end.

(** The name after the first of the prefixes it has. *)
Fixpoint consume_front (ps : list string) (n : string) : option string :=
  match ps with
  | [] => None
  | p :: ps => if starts_with p n then Some (str_drop (String.length p) n) else consume_front ps n
  end.

Definition maybeAssociateSEHForMingw (sym : coff_symbol) (def : coff_aux_section_definition) (P : objstate)
    : outcome objstate :=
  match n ← consume_front [".pdata$"; ".xdata$"; ".eh_frame$"] (cs_name sym); prevailingSectionMap P !! n with
  | Some parent => readAssociativeDefinition sym def parent P
  | None => Done P
  end.

(** ** Symbols *)

(** [make<T>(...)] of a symbol that is not in the table. *)
Definition add_local (k : kind) (P : objstate) : sref * objstate :=
  let r := Local (o_local P) in
  (r, with_table (store r (replaced k false raw_symbol)) (set_o_local (o_local P + 1)%nat P)).

Definition createRegular (sym : coff_symbol) (P : objstate) : outcome (option sref * objstate) :=
  sc ← sparse_at (cs_section sym) P;
  let name := cs_name sym in
  match sc with
  | Pending => Stop Unreachable
  | Present c =>
      if isExternal sym
      then Done (Some (Global name), with_table (addRegular cfg.(oc_st) (Some file) false name (Some c) (cs_value sym) false) P)
      else let '(r, P) := add_local
             (DefinedRegular (Some file) false (Some c) (if isSection sym then 0 else cs_value sym)) P in
           Done (Some r, P)
  | Discarded =>
      if isExternal sym
      then if oc_mingw cfg && starts_with ".weak." name then Done (None, P)
           else Done (Some (Global name), with_table (addUndefined cfg.(oc_st) name false false) P)
      else Done (None, P)
  end.

Definition createUndefined (sym : coff_symbol) (overrideLazy : bool) (P : objstate) : sref * objstate :=
  let name := cs_name sym in
  let P := with_table (addUndefined cfg.(oc_st) name false overrideLazy) P in
  (Global name,
   if isEC cfg.(oc_st) && (obj_machine obj =? MACHINE_AMD64) then
     match find name (o_table P) with
     | Some u =>
         if isUndefined (s_kind u) && bool_decide (weakAliasOf u = None) then
           match getArm64ECMangledFunctionName insertion_point name with
           | Some m => with_table (fun T =>
               modify (Global name) (setWeakAlias (Global m) true) (addUndefined cfg.(oc_st) m false false T)) P
           | None => P
           end
         else P
     | None => P
     end
   else P).

(** ** COMDAT selection

    [objs] are the object files of the link, [isBitcode] its LTO files. *)

Context (objs : nat -> option coff_object) (isBitcode : nat -> bool).

Definition findSectionDef (o : coff_object) (section : Z) : option coff_aux_section_definition :=
  (fix go l := match l with
   | [] => None
   | s :: l => if negb (cs_section s =? section) then go l
               else match getSectionDefinition s with Some d => Some d | None => go l end
   end) (obj_symbols o).

(** The selections of the new section and of the leader's, as they are compared. *)
Definition merge_selections (bitcode : bool) (sel leaderSel : Z) : Z * Z :=
  let '(sel, leaderSel) := if bitcode then (SELECT_ANY, SELECT_ANY) else (sel, leaderSel) in
  let '(sel, leaderSel) :=
    if ((sel =? SELECT_ANY) && (leaderSel =? SELECT_LARGEST)) || ((sel =? SELECT_LARGEST) && (leaderSel =? SELECT_ANY))
    then (SELECT_LARGEST, SELECT_LARGEST) else (sel, leaderSel) in
  if oc_mingw cfg &&
     (((sel =? SELECT_ANY) && (leaderSel =? SELECT_SAME_SIZE)) || ((sel =? SELECT_SAME_SIZE) && (leaderSel =? SELECT_ANY)))
  then (SELECT_SAME_SIZE, SELECT_SAME_SIZE) else (sel, leaderSel).

Definition duplicate (leader : sref) : objstate -> objstate :=
  with_table (SymbolTable.emit (ReportDuplicate leader (Some file))).

Definition leader_length (leaderChunk : schunk) : option Z :=
  o ← objs (sc_file leaderChunk); d ← findSectionDef o (sc_number leaderChunk); Some (Length d).

(** The selection, whether the new symbol prevails, and the state. *)
Definition handleComdatSelection (sym : coff_symbol) (selection : Z) (prevailing : bool) (leader : sref)
    (def : coff_aux_section_definition) (P : objstate) : outcome (Z * bool * objstate) :=
  if prevailing then Done (selection, true, P)
  else
    match s_kind <$> deref (o_table P) leader with
    | Some (DefinedRegular lfile _ (Some c) _) =>
        match o_store (o_sections P) !! c with
        | None => Stop NullDereference
        | Some leaderChunk =>
            let bitcode := match lfile with Some f => isBitcode f | None => false end in
            let '(selection, leaderSelection) := merge_selections bitcode selection (sc_selection leaderChunk) in
            if negb (selection =? leaderSelection) then Done (selection, false, duplicate leader P)
            else if selection =? SELECT_NODUPLICATES then Done (selection, false, duplicate leader P)
            else if selection =? SELECT_ANY then Done (selection, false, P)
            else
              sec ← getSection_exn (cs_section sym);
              if selection =? SELECT_SAME_SIZE then
                Done (selection, false,
                  if sc_getSize leaderChunk =? SizeOfRawData sec then P
                  else if negb (oc_mingw cfg) then duplicate leader P
                  else match leader_length leaderChunk with
                       | Some l => if l =? Length def then P else duplicate leader P
                       | None => duplicate leader P
                       end)
              else if selection =? SELECT_EXACT_MATCH then
                Done (selection, false,
                  if bool_decide (sec_contents (sc_header leaderChunk) = sec_contents sec) then P
                  else duplicate leader P)
              else if selection =? SELECT_LARGEST then
                if sc_getSize leaderChunk <? SizeOfRawData sec then
                  Done (selection, true,
                    with_table (replaceSymbol leader (DefinedRegular (Some file) true None (cs_value sym)) false) P)
                else Done (selection, false, P)
              else Stop Unreachable
        end
    | _ => Stop NullDereference
    end.

(** ** Definitions *)

Definition ignoredSymbolName (n : string) : bool := String.eqb n "@feat.00" || String.eqb n "@comp.id".

(** The header made up for an empty section. *)
Definition empty_section (sym : coff_symbol) : coff_section :=
  {| sec_name := str_take 8 (cs_name sym); SizeOfRawData := 0; NumberOfRelocations := 0;
     Characteristics :=
       if negb (cs_value sym =? 0) then cs_value sym ||| SCN_ALIGN_4BYTES
       else SCN_CNT_INITIALIZED_DATA ||| SCN_MEM_READ ||| SCN_MEM_WRITE ||| SCN_ALIGN_4BYTES;
     sec_contents := [] |}.

(** [if (leader->isCOMDAT) handleComdatSelection(...)]. *)
Definition selectLeader (sym : coff_symbol) (leader : sref) (prevailing : bool) (def : coff_aux_section_definition)
    (P : objstate) : outcome (Z * bool * objstate) :=
  match s_kind <$> deref (o_table P) leader with
  | Some (DefinedRegular _ true _ _) => handleComdatSelection sym (Selection def) prevailing leader def P
  | _ => Done (Selection def, prevailing, P)
  end.

(** The COMDAT leader: the symbol after the definition [def] of its section. *)
Definition createLeader (sym : coff_symbol) (def : coff_aux_section_definition) (P : objstate)
    : outcome (option sref * bool * objstate) :=
  let sectionNumber := cs_section sym in
  let name := cs_name sym in
  let P := set_comdatDefs (delete sectionNumber (comdatDefs P)) P in
  let '(leader, prevailing, P) :=
    if isExternal sym then
      let '(T, prevailing) := addComdat (oc_st cfg) (Some file) false name (cs_value sym) (o_table P) in
      (Global name, prevailing, set_o_table T P)
    else
      let '(r, P) := add_local (DefinedRegular (Some file) false None (cs_value sym)) P in (r, true, P) in
  if (Selection def <? SELECT_NODUPLICATES) || (SELECT_LARGEST <? Selection def)
  then Stop (UnknownComdat (Selection def) name)
  else
    let* (selection, prevailing, P) := selectLeader sym leader prevailing def P in
    if prevailing then
      '(c, F) ← readSection sectionNumber (Some def) name (o_sections P);
      let P := set_o_sections (set_sparse sectionNumber (of_chunk c) F) P in
      match c with
      | None => Done (None, prevailing, P)
      | Some c =>
          let P := with_sections (update_store (alter (fun s => set_selection selection (set_leader leader s)) c)) P in
          let set_data s := match s_kind s with
            | DefinedRegular f b _ v => with_kind (DefinedRegular f b (Some c) v) s
            | _ => s
            end in
          Done (Some leader, prevailing, with_table (modify leader set_data) P)
      end
    else Done (Some leader, prevailing, with_sections (set_sparse sectionNumber Discarded) P).

(** [createDefined]: no symbol when the section is pending, perhaps a null one
    otherwise; and whether it prevails as a COMDAT leader. *)
Definition createDefined (sym : coff_symbol) (P : objstate)
    : outcome (option (option sref) * bool * objstate) :=
  let name := cs_name sym in
  if isCommon sym then
    let c := o_next (o_sections P) in
    let P := with_sections (fun F =>
      set_o_vectors (o_vectors F ++ [(Chunks, c)]) (set_o_next (c + 1)%nat F)) P in
    let P := set_o_commons (<[c := cs_value sym]> (o_commons P)) P in
    Done (Some (Some (Global name)), false,
          with_table (addCommon (oc_st cfg) (Some file) false name (cs_value sym)) P)
  else if isAbsolute sym then
    let P := if String.eqb name "@feat.00" then set_feat00Flags (cs_value sym) P else P in
    if ignoredSymbolName name then Done (Some None, false, P)
    else if isExternal sym
      then Done (Some (Some (Global name)), false, with_table (addAbsolute (oc_st cfg) name (cs_value sym)) P)
      else let '(r, P) := add_local (DefinedAbsolute (cs_value sym)) P in Done (Some (Some r), false, P)
  else
    let sectionNumber := cs_section sym in
    if sectionNumber =? -2 then Done (Some None, false, P)
    else if isEmptySectionDeclaration sym then
      let '(c, F) := add_schunk (new_schunk 0 (empty_section sym) 0) (Some Chunks) (o_sections P) in
      let '(r, P) := add_local (DefinedRegular (Some file) false (Some c) 0) (set_o_sections F P) in
      Done (Some (Some r), false, P)
    else if isReservedSectionNumber sectionNumber then Stop (ReservedSection name sectionNumber)
    else if Z.of_nat (length (sparseChunks (o_sections P))) <=? sectionNumber
      then Stop (NonExistentSection name sectionNumber)
    else
      match comdatDefs P !! sectionNumber with
      | Some def =>
          let* (r, prevailing, P) := createLeader sym def P in
          Done (Some r, prevailing, P)
      | None =>
          sc ← sparse_at sectionNumber P;
          match sc with
          | Pending =>
              Done (None, false,
                match getSectionDefinition sym with
                | Some def => if Selection def =? SELECT_ASSOCIATIVE then P
                              else set_comdatDefs (<[sectionNumber := def]> (comdatDefs P)) P
                | None => P
                end)
          | _ => '(r, P) ← createRegular sym P; Done (Some r, false, P)
          end
      end.

(** ** The symbol table of the object *)

Definition numSymbols : nat := length (obj_symbols obj).
Definition getSymbolRecord (i : nat) : outcome coff_symbol :=
  match obj_symbols obj !! i with Some s => Done s | None => Stop (NoSuchSymbol i) end.

Definition set_symbol (i : nat) (r : option sref) (P : objstate) : objstate :=
  set_o_symbols (partial_alter (fun _ => r) i (o_symbols P)) P.

(** [symbols[i]], unchecked. *)
Definition symbol_at (i : nat) (P : objstate) : outcome (option sref) :=
  if (i <? numSymbols)%nat then Done (o_symbols P !! i) else Stop OutOfBounds.

(** Whether a weak external replaces a lazy symbol. *)
Definition overrides_lazy (sym : coff_symbol) : outcome bool :=
  if isArm64EC_machine (obj_machine obj) && (weak_Characteristics (aux_weak sym) =? 4) then
    targetSym ← getSymbolRecord (TagIndex (aux_weak sym));
    if negb (isAnyUndefined targetSym)
    then Done (bool_decide (getArm64ECMangledFunctionName insertion_point (cs_name sym) = Some (cs_name targetSym)))
    else Done false
  else Done true.

Definition visit_symbol (i : nat) (sym : coff_symbol) (P : objstate) : outcome objstate :=
  if cs_isUndefined sym then
    let '(r, P) := createUndefined sym false P in Done (set_symbol i (Some r) P)
  else if isWeakExternal sym then
    overrideLazy ← overrides_lazy sym;
    let '(r, P) := createUndefined sym overrideLazy P in
    Done (set_weakAliases (weakAliases P ++ [(r, aux_weak sym)]) (set_symbol i (Some r) P))
  else
    let* (r, prevailing, P) := createDefined sym P in
    match r with
    | Some r =>
        let P := set_symbol i r P in
        if oc_mingw cfg && prevailing then recordPrevailingSymbolForMingw sym P else Done P
    | None => Done (set_pendingIndexes (pendingIndexes P ++ [i]) P)
    end.

(** Auxiliary records are skipped; [fuel] is the number of records. *)
Fixpoint first_pass (fuel i : nat) (P : objstate) : outcome objstate :=
  match fuel, obj_symbols obj !! i with
  | Datatypes.S fuel, Some sym =>
      P ← visit_symbol i sym P;
      first_pass fuel (i + 1 + cs_naux sym)%nat P
  | _, _ => Done P
  end.

Definition visit_pending (P : objstate) (i : nat) : outcome objstate :=
  sym ← getSymbolRecord i;
  P ← match getSectionDefinition sym with
      | Some def =>
          if Selection def =? SELECT_ASSOCIATIVE
          then readAssociativeDefinition sym def (u32 (getNumber (isBigObj obj) def)) P
          else if oc_mingw cfg then maybeAssociateSEHForMingw sym def P
          else Done P
      | None => Done P
      end;
  sc ← sparse_at (cs_section sym) P;
  match sc with
  | Pending => Done (obj_emit (DiscardUnassociated (cs_name sym)) P)
  | _ => '(r, P) ← createRegular sym P; Done (set_symbol i r P)
  end.

Fixpoint fold_outcome {A B} (f : A -> B -> outcome A) (l : list B) (a : A) : outcome A :=
  match l with
  | [] => Done a
  | x :: l => a ← f a x; fold_outcome f l a
  end.

(** [checkAndSetWeakAlias] for a target that may be null. *)
Definition set_weak_target (source : sref) (target : option sref) (antiDep : bool) (T : symtab) : outcome symtab :=
  match target with
  | Some target => Done (checkAndSetWeakAlias (oc_st cfg) (Some file) source target antiDep T)
  | None =>
      let set := modify source (fun s => with_antiDep antiDep (with_kind (Undefined None) s)) in
      match deref T source with
      | None => Done T
      | Some u =>
          match s_kind u with
          | Undefined (Some old) =>
              if antiDep then Done T
              else if negb (isAntiDep u) then
                if allowDuplicateWeak (oc_st cfg)
                then if isAbsZero T old then Stop NullDereference else Done T
                else Done (set (SymbolTable.emit (ReportDuplicate source (Some file)) T))
              else Done (set T)
          | Undefined None => Done (set T)
          | _ => Done T
          end
      end
  end.

Definition visit_weak (P : objstate) (x : sref * coff_aux_weak_external) : outcome objstate :=
  let '(source, aux) := x in
  target ← symbol_at (TagIndex aux) P;
  T ← set_weak_target source target (weak_Characteristics aux =? 4) (o_table P);
  Done (set_o_table T P).

Definition initializeSymbols (P : objstate) : outcome objstate :=
  P ← first_pass numSymbols 0 P;
  P ← fold_outcome visit_pending (pendingIndexes P) P;
  P ← fold_outcome visit_weak (weakAliases P) P;
  Done (with_sections (set_sparseChunks []) P).

(** ** ARM64EC thunks *)

Definition hybmp_chunks (F : sections) : list nat :=
  omap (fun x => match x with (HybmpChunks, c) => Some c | _ => None end) (o_vectors F).

Fixpoint ec_entries (fuel : nat) (bs : list Z) : list (Z * Z * Z) :=
  match fuel, bs with
  | Datatypes.S fuel, _ :: _ =>
      (le_value (firstn 4 bs), le_value (firstn 4 (skipn 4 bs)), le_value (firstn 4 (skipn 8 bs)))
        :: ec_entries fuel (skipn 12 bs)
  | _, _ => []
  end.

Definition ec_entry (P : objstate) (e : Z * Z * Z) : outcome objstate :=
  let '(src, dst, type) := e in
  if type =? 1 then
    from ← symbol_at (Z.to_nat src) P; to ← symbol_at (Z.to_nat dst) P;
    Done (set_entryThunks (entryThunks P ++ [(from, to)]) P)
  else if type =? 4 then
    from ← symbol_at (Z.to_nat src) P; to ← symbol_at (Z.to_nat dst) P;
    Done (set_exitThunks (<[from := to]> (exitThunks P)) P)
  else if type =? 0 then Done P
  else Done (obj_emit (UnknownThunkType type) P).

Definition ec_chunk (P : objstate) (c : nat) : outcome objstate :=
  let contents := match o_store (o_sections P) !! c with Some s => sec_contents (sc_header s) | None => [] end in
  if negb (Z.of_nat (length contents) mod 12 =? 0) then Done (obj_emit (InvalidHybmpSize c) P)
  else fold_outcome ec_entry (ec_entries (length contents) contents) P.

Definition initializeECThunks (P : objstate) : outcome objstate :=
  fold_outcome ec_chunk (hybmp_chunks (o_sections P)) P.

(** ** The file *)

(** [parse], but for the debug information. *)
Definition parse (P : objstate) : outcome objstate :=
  F ← initializeChunks (o_sections P);
  P ← initializeSymbols (set_o_sections F P);
  initializeECThunks P.

(** [parseLazy]: stops as soon as the file has been asked for. *)
Fixpoint parseLazy_loop (fuel i : nat) (T : symtab) : symtab :=
  match fuel, obj_symbols obj !! i with
  | Datatypes.S fuel, Some sym =>
      if cs_isUndefined sym || negb (isExternal sym) || isWeakExternal sym ||
         (isAbsolute sym && ignoredSymbolName (cs_name sym))
      then parseLazy_loop fuel (i + 1)%nat T
      else
        let T := addLazyObject (oc_st cfg) insertion_point file false (cs_name sym) T in
        if decide (file ∈ lazyFiles T) then parseLazy_loop fuel (i + 1 + cs_naux sym)%nat T else T
  | _, _ => T
  end.

Definition parseLazy (T : symtab) : symtab := parseLazy_loop numSymbols 0 T.

End Obj.
