(* ===== verification/ObjFileProps.v ===== *)
(** * Properties of object files

    Each section of a well-formed object is read at most once; an associative
    section is kept exactly when its parent is, and is found among the parent's
    children. *)

From S2P Require Import Prelude Layout SymbolTable ObjFile.

#[local] Open Scope string_scope.
#[local] Open Scope list_scope.
#[local] Open Scope Z_scope.

#[local] Instance sparse_eq_dec : EqDecision sparse.
Proof. solve_decision. Defined.

(** ** Outcomes *)

Lemma bind_Done {A B} (m : outcome A) (k : A -> outcome B) b :
  (m ≫= k) = Done b -> exists a, m = Done a /\ k a = Done b.
Proof. destruct m as [a|f]; [|done]. intros H. by exists a. Qed.

Lemma Done_bind {A B} (a : A) (k : A -> outcome B) : (Done a ≫= k) = k a.
Proof. done. Qed.

Ltac outcome_step H :=
  match type of H with
  | (?m ≫= ?k) = Done _ => let a := fresh "a" in let E := fresh "E" in apply bind_Done in H as (a & E & H)
  | and_then ?m ?k = Done _ => let a := fresh "a" in let E := fresh "E" in apply bind_Done in H as (a & E & H)
  end.

Lemma fold_outcome_cons {A B} (f : A -> B -> outcome A) x l a b :
  fold_outcome f (x :: l) a = Done b -> exists a', f a x = Done a' /\ fold_outcome f l a' = Done b.
Proof. cbn. apply bind_Done. Qed.

Lemma fold_outcome_inv {A B} (Q : A -> Prop) (f : A -> B -> outcome A) l a b :
  (forall a x a', x ∈ l -> Q a -> f a x = Done a' -> Q a') -> Q a -> fold_outcome f l a = Done b -> Q b.
Proof.
  revert a. induction l as [|x l IH]; intros a H HQ Hf; [by injection Hf as <-|].
  apply fold_outcome_cons in Hf as (a' & Hx & Hf). eapply IH; [|eapply H; [apply list_elem_of_here|done..]|done].
  intros. eapply H; [by apply list_elem_of_further|done..].
Qed.

Section Props.
  Context (cfg : obj_config) (insertion_point : string -> option nat) (file : nat) (obj : coff_object).
  Context (objs : nat -> option coff_object) (isBitcode : nat -> bool).

(** ** Sections *)

(** The sections [readSection] makes a chunk of. *)
Definition linked (sec : coff_section) : bool :=
  let name := sec_name sec in
  negb (String.eqb name ".drectve" || String.eqb name ".llvm_addrsig" || String.eqb name ".llvm.call-graph-profile" ||
        existsb (String.eqb name) (discardSection cfg) || (negb (includeDwarfChunks cfg) && starts_with ".debug_" name) ||
        has_flag (Characteristics sec) SCN_LNK_REMOVE).

Definition section (s : nat) : option coff_section :=
  match s with O => None | Datatypes.S i => obj_sections obj !! i end.

(** What one [readSection] does. *)
Lemma readSection_spec n def l F c F' :
  readSection cfg file obj n def l F = Done (c, F') ->
  exists sec, 0 < n /\ section (Z.to_nat n) = Some sec /\ sparseChunks F' = sparseChunks F /\
    if linked sec
    then c = Some (o_next F) /\ o_next F' = (o_next F + 1)%nat /\
         exists ck, o_store F' = <[o_next F := new_schunk cfg file n sec ck]> (o_store F)
    else c = None /\ o_next F' = o_next F /\ o_store F' = o_store F.
Proof.
  unfold readSection, getSection_exn, getSection, isReservedSectionNumber. intros H. outcome_step H. outcome_step E.
  destruct (Z.leb_spec n 0); [by injection E0 as <-|].
  destruct (obj_sections obj !! Z.to_nat (n - 1)) as [sec|] eqn:Es; [|done].
  injection E0 as <-. injection E as <-. exists sec. split; [lia|].
  split. { unfold section. by replace (Z.to_nat n) with (Datatypes.S (Z.to_nat (n - 1))) by lia. }
  unfold linked. destruct (String.eqb (sec_name sec) ".drectve"); [by injection H as <- <-|].
  destruct (String.eqb (sec_name sec) ".llvm_addrsig"); [by injection H as <- <-|].
  destruct (String.eqb (sec_name sec) ".llvm.call-graph-profile"); [by injection H as <- <-|].
  destruct (existsb _ _); [by injection H as <- <-|].
  destruct (negb (includeDwarfChunks cfg) && _); [by injection H as <- <-|].
  destruct (has_flag _ SCN_LNK_REMOVE); [by injection H as <- <-|]. cbn [negb orb].
  unfold add_schunk in H. destruct (vector_of cfg obj sec l); injection H as <- <-; split; try done;
    split; try done; split; try done; by eexists.
Qed.

(** ** The invariant *)

Definition chunk_of (F : sections) (c : nat) (s : Z) : Prop :=
  exists sc, o_store F !! c = Some sc /\ sc_file sc = file /\ sc_number sc = s.

Definition next_child (F : sections) (a b : nat) : Prop :=
  exists sc, o_store F !! a = Some sc /\ assocChildren sc = Some b.

(** A section that is settled is so by its chunk, and no chunk of the file is
    for a section that is not. *)
Record sections_ok (F : sections) : Prop := {
  ok_zero : sparseChunks F !! O = Some Discarded;
  ok_present : forall s c, sparseChunks F !! s = Some (Present c) -> chunk_of F c (Z.of_nat s);
  ok_chunks : forall c s, chunk_of F c s -> 0 < s -> sparseChunks F !! Z.to_nat s = Some (Present c);
  ok_fresh : forall c, (o_next F <= c)%nat -> o_store F !! c = None;
  ok_edges : forall a b, next_child F a b -> is_Some (o_store F !! b)
}.

(** Settled sections, chunks and children stay. *)
Record later (F F' : sections) : Prop := {
  la_settled : forall s x, sparseChunks F !! s = Some x -> x <> Pending -> sparseChunks F' !! s = Some x;
  la_len : length (sparseChunks F') = length (sparseChunks F);
  la_chunk : forall c s, chunk_of F c s -> chunk_of F' c s;
  la_child : forall a b, tc (next_child F) a b -> tc (next_child F') a b
}.

Lemma later_refl F : later F F.
Proof. by split. Qed.

Lemma later_trans F1 F2 F3 : later F1 F2 -> later F2 F3 -> later F1 F3.
Proof.
  intros [A1 A2 A3 A4] [B1 B2 B3 B4]. split; [|congruence|auto|auto].
  intros s x Hx Hn. apply B1; [|done]. by apply A1.
Qed.

(** A new chunk of the file for section [s]. *)
Definition grown (s : Z) (F F' : sections) : Prop :=
  exists sc, sc_file sc = file /\ sc_number sc = s /\ assocChildren sc = None /\
    o_store F' = <[o_next F := sc]> (o_store F) /\ o_next F' = (o_next F + 1)%nat.

Lemma grown_chunks s F F' c t : sections_ok F -> grown s F F' ->
  chunk_of F' c t <-> chunk_of F c t \/ c = o_next F /\ t = s.
Proof.
  intros Hok (sc & Hf & Hn & _ & Hs & _). unfold chunk_of. rewrite Hs. destruct (decide (c = o_next F)) as [->|Hne].
  - rewrite lookup_insert_eq. split.
    + intros (sc' & [= <-] & _ & <-). by right.
    + intros [(sc' & Hc & _)|[_ ->]]; [|by exists sc]. by rewrite (ok_fresh _ Hok) in Hc by lia.
  - rewrite lookup_insert_ne by done. split; [by left|]. by intros [?|[? _]].
Qed.

Lemma grown_edges s F F' a b : sections_ok F -> grown s F F' -> next_child F' a b <-> next_child F a b.
Proof.
  intros Hok (sc & _ & _ & Ha & Hs & _). unfold next_child. rewrite Hs. destruct (decide (a = o_next F)) as [->|Hne].
  - rewrite lookup_insert_eq. split; [intros (sc' & [= <-] & H); congruence|].
    intros (sc' & Hc & _). by rewrite (ok_fresh _ Hok) in Hc by lia.
  - by rewrite lookup_insert_ne.
Qed.

Lemma tc_iff {A} (R R' : A -> A -> Prop) : (forall a b, R a b -> R' a b) -> forall a b, tc R a b -> tc R' a b.
Proof. intros H a b. induction 1; [apply tc_once; auto|eapply tc_l; eauto]. Qed.

Lemma grown_ok s x F F' : sections_ok F -> grown s F F' ->
  (forall t, sparseChunks F' !! t = if decide (t = Z.to_nat s) then Some x else sparseChunks F !! t) ->
  0 < s -> x = Present (o_next F) -> (forall y, sparseChunks F !! Z.to_nat s = Some y -> y = Pending) ->
  sections_ok F'.
Proof.
  intros Hok Hg Hsp Hs -> Hp. pose proof (fun c t => grown_chunks s F F' c t Hok Hg) as Hc. split.
  - rewrite Hsp. destruct (decide _); [lia|]. by apply ok_zero.
  - intros t c Ht. rewrite Hsp in Ht. apply Hc. destruct (decide (t = Z.to_nat s)) as [->|]; [|left; by apply ok_present].
    injection Ht as <-. right. split; [done|lia].
  - intros c t Ht Hpos. rewrite Hsp. apply Hc in Ht as [Ht|[-> ->]]; [|by destruct (decide _)].
    pose proof (ok_chunks _ Hok _ _ Ht Hpos) as Hl. destruct (decide _) as [E|]; [|done].
    rewrite E in Hl. by apply Hp in Hl.
  - destruct Hg as (sc & _ & _ & _ & Hst & Hnx). intros c Hle. rewrite Hst, lookup_insert_ne by lia.
    apply (ok_fresh _ Hok). lia.
  - intros a b Hab. apply (grown_edges _ _ _ _ _ Hok Hg) in Hab. apply (ok_edges _ Hok) in Hab.
    destruct Hg as (sc & _ & _ & _ & -> & _). apply lookup_insert_is_Some. destruct (decide (o_next F = b)); auto.
Qed.

Lemma grown_later s F F' : sections_ok F -> grown s F F' ->
  (forall t y, sparseChunks F !! t = Some y -> y <> Pending -> sparseChunks F' !! t = Some y) ->
  length (sparseChunks F') = length (sparseChunks F) -> later F F'.
Proof.
  intros Hok Hg Hsp Hl. split; [done|done| |].
  - intros c t Ht. apply (grown_chunks s F F' c t Hok Hg). by left.
  - apply tc_iff. intros a b. apply (grown_edges s F F' a b Hok Hg).
Qed.

(** The same chunks and lists. *)
Record same_shape (F F' : sections) : Prop := {
  sh_chunk : forall c s, chunk_of F' c s <-> chunk_of F c s;
  sh_child : forall a b, next_child F' a b <-> next_child F a b;
  sh_next : o_next F' = o_next F;
  sh_none : forall c, o_store F' !! c = None <-> o_store F !! c = None
}.

Lemma shape_ok F F' : sections_ok F -> same_shape F F' -> sparseChunks F' = sparseChunks F -> sections_ok F'.
Proof.
  intros Hok [H1 H2 H3 H4] Hs. split; rewrite ?Hs.
  - by apply ok_zero.
  - intros s c Hc. by apply H1, ok_present.
  - intros c s Hc. apply H1 in Hc. by apply ok_chunks.
  - intros c Hc. apply H4, (ok_fresh _ Hok). lia.
  - intros a b Hab. apply H2, (ok_edges _ Hok) in Hab. rewrite <- not_eq_None_Some in *. by rewrite H4.
Qed.

Lemma shape_later F F' : same_shape F F' -> sparseChunks F' = sparseChunks F -> later F F'.
Proof.
  intros [H1 H2 H3 H4] Hs. split; rewrite ?Hs; [done|done| |].
  - intros c s. apply H1.
  - apply tc_iff. intros a b. apply H2.
Qed.

Lemma shape_alter f c F : (forall s, sc_file (f s) = sc_file s) -> (forall s, sc_number (f s) = sc_number s) ->
  (forall s, assocChildren (f s) = assocChildren s) -> same_shape F (update_store (alter f c) F).
Proof.
  intros Hf Hn Ha. unfold update_store. split; cbn [set_o_store o_store o_next]; try done.
  - intros d s. unfold chunk_of. cbn [set_o_store o_store]. destruct (decide (d = c)) as [->|].
    + rewrite lookup_alter_eq. destruct (o_store F !! c) as [sc|]; cbn; [|by split; intros (? & ? & _)].
      split; intros (sc' & [= <-] & H1 & H2); [exists sc|exists (f sc)]; rewrite ?Hf, ?Hn in *; done.
    + by rewrite lookup_alter_ne.
  - intros d b. unfold next_child. cbn [set_o_store o_store]. destruct (decide (d = c)) as [->|].
    + rewrite lookup_alter_eq. destruct (o_store F !! c) as [sc|]; cbn; [|by split; intros (? & ? & _)].
      split; intros (sc' & [= <-] & H1); [exists sc|exists (f sc)]; rewrite ?Ha in *; done.
    + by rewrite lookup_alter_ne.
  - intros d. destruct (decide (d = c)) as [->|]; [by rewrite lookup_alter_eq, fmap_None|by rewrite lookup_alter_ne].
Qed.

Lemma discard_ok s F : sections_ok F -> sparseChunks F !! Z.to_nat s = Some Pending ->
  sections_ok (set_sparse s Discarded F) /\ later F (set_sparse s Discarded F).
Proof.
  intros Hok Hp. pose proof (lookup_lt_Some _ _ _ Hp) as Hlt.
  assert (Hne : Z.to_nat s <> O) by (intros E; rewrite E, (ok_zero _ Hok) in Hp; done).
  split; split; try done; cbn [set_sparse set_sparseChunks sparseChunks o_store o_next].
  - rewrite list_lookup_insert_ne by done. by apply ok_zero.
  - intros t c. destruct (decide (Z.to_nat s = t)) as [<-|]; [by rewrite list_lookup_insert_eq|].
    rewrite list_lookup_insert_ne by done. apply (ok_present _ Hok).
  - intros c t Hc Ht. destruct (decide (Z.to_nat s = Z.to_nat t)) as [E|].
    + pose proof (ok_chunks _ Hok _ _ Hc Ht) as H. rewrite <- E in H. congruence.
    + rewrite list_lookup_insert_ne by done. by apply (ok_chunks _ Hok).
  - apply (ok_fresh _ Hok).
  - apply (ok_edges _ Hok).
  - intros t x Hx Hn. rewrite list_lookup_insert_ne; [done|]. intros <-. congruence.
  - by rewrite length_insert.
Qed.

(** ** Associative children *)

Definition edge (H : gmap nat schunk) (a b : nat) : Prop := exists sc, H !! a = Some sc /\ assocChildren sc = Some b.

Definition same_chunk (c c' : schunk) : Prop := sc_file c' = sc_file c /\ sc_number c' = sc_number c.

Lemma link_spec H prev child next :
  is_Some (H !! prev) -> is_Some (H !! child) -> prev <> child ->
  (c ← H !! prev; assocChildren c) = next -> (forall a, ~ edge H a child) -> (c ← H !! child; assocChildren c) = None ->
  let H' := alter (set_assoc next) child (alter (set_assoc (Some child)) prev H) in
  edge H' prev child /\ (forall a b, edge H a b -> tc (edge H') a b) /\
  (forall a b, edge H' a b -> b = child \/ exists a', edge H a' b) /\ (forall c, option_Forall2 same_chunk (H !! c) (H' !! c)).
Proof.
  intros [sp Hp] [sc Hc] Hne Hn Hin Hout H'. rewrite Hp in Hn. rewrite Hc in Hout. cbn in Hn, Hout.
  assert (Lp : H' !! prev = Some (set_assoc (Some child) sp)).
  { unfold H'. by rewrite lookup_alter_ne, lookup_alter_eq, Hp by done. }
  assert (Lc : H' !! child = Some (set_assoc next sc)).
  { unfold H'. by rewrite lookup_alter_eq, lookup_alter_ne, Hc by done. }
  assert (Lo : forall a, a <> prev -> a <> child -> H' !! a = H !! a).
  { intros a ??. unfold H'. by rewrite !lookup_alter_ne by done. }
  split; [by exists (set_assoc (Some child) sp)|]. split; [|split].
  - intros a b (s & Ha & Hb). destruct (decide (a = prev)) as [->|Hap].
    + assert (next = Some b) as Hnb by congruence.
      apply (tc_l _ _ child); [by exists (set_assoc (Some child) sp)|apply tc_once; by exists (set_assoc next sc)].
    + destruct (decide (a = child)) as [->|Hac]; [congruence|]. apply tc_once. exists s. by rewrite Lo.
  - intros a b (s & Ha & Hb). destruct (decide (a = prev)) as [->|Hap].
    + left. rewrite Lp in Ha. injection Ha as <-. cbn in Hb. congruence.
    + right. destruct (decide (a = child)) as [->|Hac].
      * rewrite Lc in Ha. injection Ha as <-. cbn in Hb. exists prev, sp. split; congruence.
      * rewrite Lo in Ha by done. by exists a, s.
  - intros c. destruct (decide (c = prev)) as [->|]; [rewrite Lp, Hp; by constructor|].
    destruct (decide (c = child)) as [->|]; [rewrite Lc, Hc; by constructor|].
    rewrite Lo by done. destruct (H !! c); by constructor.
Qed.

Lemma addAssociative_spec fuel H child prev next :
  is_Some (H !! prev) -> is_Some (H !! child) -> prev <> child ->
  (c ← H !! prev; assocChildren c) = next -> (forall a, ~ edge H a child) -> (c ← H !! child; assocChildren c) = None ->
  (forall a b, edge H a b -> is_Some (H !! b)) ->
  let H' := addAssociative_loop fuel H child prev next in
  tc (edge H') prev child /\ (forall a b, edge H a b -> tc (edge H') a b) /\
  (forall a b, edge H' a b -> b = child \/ exists a', edge H a' b) /\ (forall c, option_Forall2 same_chunk (H !! c) (H' !! c)).
Proof.
  intros Hp Hc Hne Hn Hin Hout Hd.
  revert prev next Hp Hne Hn. induction fuel as [|fuel IH]; intros prev next Hp Hne Hn.
  - destruct (link_spec H prev child next) as (? & ? & ? & ?); try done. cbn. repeat split; try done. by apply tc_once.
  - assert (Hlink := link_spec H prev child next Hp Hc Hne Hn Hin Hout). cbn [addAssociative_loop].
    destruct next as [n|].
    2: { destruct Hlink as (? & ? & ? & ?). repeat split; try done. by apply tc_once. }
    destruct (String.leb _ _).
    { destruct Hlink as (? & ? & ? & ?). repeat split; try done. by apply tc_once. }
    assert (En : edge H prev n).
    { destruct Hp as [sp Hsp]. rewrite Hsp in Hn. by exists sp. }
    destruct (IH n _ ltac:(by eapply Hd) ltac:(intros ->; by apply (Hin prev)) eq_refl) as (A & B & C & D).
    split; [|by repeat split]. eapply tc_transitive; [by apply B|done].
Qed.

(** A pending section is read. *)
Lemma read_settle s def l F c F1 : sections_ok F -> sparseChunks F !! Z.to_nat s = Some Pending ->
  readSection cfg file obj s def l F = Done (c, F1) ->
  let F2 := set_sparse s (of_chunk c) F1 in
  sections_ok F2 /\ later F F2 /\ sparseChunks F2 = <[Z.to_nat s := of_chunk c]> (sparseChunks F) /\
  exists sec, section (Z.to_nat s) = Some sec /\
    (linked sec = true /\ c = Some (o_next F) /\ grown s F F2 \/ linked sec = false /\ c = None).
Proof.
  intros Hok Hp Hr F2. pose proof (lookup_lt_Some _ _ _ Hp) as Hlt.
  apply readSection_spec in Hr as (sec & Hs & Hsec & Hsp & Hr).
  assert (E : sparseChunks F2 = <[Z.to_nat s := of_chunk c]> (sparseChunks F)).
  { unfold F2. cbn [set_sparse set_sparseChunks sparseChunks]. by rewrite Hsp. }
  destruct (linked sec) eqn:Hl.
  - destruct Hr as (-> & Hnx & ck & Hst).
    assert (Hg : grown s F F2) by (exists (new_schunk cfg file s sec ck); by repeat split).
    split; [|split; [|split; [done|exists sec; split; [done|left; done]]]].
    + eapply (grown_ok s (Present (o_next F))); [done..| |done|done|].
      * intros t. rewrite E. cbn [of_chunk]. destruct (decide (t = Z.to_nat s)) as [->|]; [by rewrite list_lookup_insert_eq|].
        by rewrite list_lookup_insert_ne.
      * intros y Hy. congruence.
    + apply (grown_later s); [done..| |by rewrite E, length_insert].
      intros t y Hy Hn. rewrite E, list_lookup_insert_ne; [done|]. intros <-. congruence.
  - destruct Hr as (-> & Hnx & Hst). destruct (discard_ok s F Hok Hp) as [A B].
    assert (Sh : same_shape (set_sparse s Discarded F) F2).
    { unfold F2. split; cbn [set_sparse set_sparseChunks o_store o_next]; try done.
      - intros d t. unfold chunk_of. cbn [set_sparse set_sparseChunks o_store]. by rewrite Hst.
      - intros d t. unfold next_child. cbn [set_sparse set_sparseChunks o_store]. by rewrite Hst.
      - intros d. cbn [set_sparse set_sparseChunks o_store]. by rewrite Hst. }
    assert (E2 : sparseChunks F2 = sparseChunks (set_sparse s Discarded F)) by (by rewrite E).
    split; [by eapply shape_ok|]. split; [eapply later_trans; [done|by apply shape_later]|].
    split; [done|]. exists sec. split; [done|by right].
Qed.

Lemma edge_next_child F a b : next_child F a b <-> edge (o_store F) a b.
Proof. done. Qed.

Lemma assoc_settle s p cp def F c F1 : sections_ok F -> sparseChunks F !! Z.to_nat s = Some Pending ->
  sparseChunks F !! p = Some (Present cp) -> readSection cfg file obj s def "" F = Done (c, F1) ->
  let F2 := set_sparse s (of_chunk c) F1 in
  let F3 := match c with
    | Some c => update_store (fun H => addAssociative cp c (alter (set_selection SELECT_ASSOCIATIVE) c H)) F2
    | None => F2
    end in
  sections_ok F3 /\ later F F3 /\ sparseChunks F3 = <[Z.to_nat s := of_chunk c]> (sparseChunks F) /\
  exists sec, section (Z.to_nat s) = Some sec /\
    (linked sec = true /\ (exists d, c = Some d /\ tc (next_child F3) cp d) \/ linked sec = false /\ c = None).
Proof.
  intros Hok Hp Hcp Hr F2. destruct (read_settle _ _ _ _ _ _ Hok Hp Hr) as (A & B & E & sec & Hsec & H).
  fold F2 in A, B, E, H. destruct H as [(Hl & -> & Hg)|[Hl ->]].
  2: { split; [done|]. split; [done|]. split; [done|]. exists sec. split; [done|]. by right. }
  set (d := o_next F) in *. set (F2' := update_store (alter (set_selection SELECT_ASSOCIATIVE) d) F2).
  assert (Sh : same_shape F2 F2') by (by apply shape_alter).
  assert (Ok' : sections_ok F2') by (by apply (shape_ok F2)).
  assert (Hchunk : chunk_of F2' cp (Z.of_nat p)).
  { apply Sh, B, (ok_present _ Hok). done. }
  assert (Hd : chunk_of F2' d s).
  { apply Sh, (grown_chunks s F F2 d s Hok Hg). by right. }
  assert (Hne : cp <> d).
  { intros ->. apply (ok_present _ Hok) in Hcp as (sc & Hsc & _). rewrite (ok_fresh _ Hok) in Hsc by done. done. }
  assert (Hin : forall a b, next_child F2' a b -> next_child F a b).
  { intros a b Hab. by apply (grown_edges s F F2 a b Hok Hg), Sh. }
  destruct (addAssociative_spec (size (o_store F2')) (o_store F2') d cp (c ← o_store F2' !! cp; assocChildren c))
    as (T1 & T2 & T3 & T4); try done.
  - destruct Hchunk as (sc & -> & _). by eexists.
  - destruct Hd as (sc & -> & _). by eexists.
  - intros a Ha. apply Hin, (ok_edges _ Hok) in Ha as [sc Hsc]. by rewrite (ok_fresh _ Hok) in Hsc by done.
  - destruct (o_store F2' !! d) as [sc|] eqn:Ed; [|done]. cbn. destruct (assocChildren sc) as [b|] eqn:Eb; [|done].
    assert (next_child F d b) as (sc' & Hsc' & _) by (apply Hin; by exists sc).
    by rewrite (ok_fresh _ Hok) in Hsc' by done.
  - intros a b Hab. by apply (ok_edges _ Ok' a b).
  - set (F3 := update_store _ F2).
    assert (E3 : o_store F3 = addAssociative_loop (size (o_store F2')) (o_store F2') d cp (c ← o_store F2' !! cp; assocChildren c))
      by done.
    rewrite <- E3 in T1, T2, T3, T4.
    assert (Hch : forall c t, chunk_of F3 c t <-> chunk_of F2' c t).
    { intros c t. specialize (T4 c). unfold chunk_of. destruct T4 as [x y Hxy|].
      - destruct Hxy as [H1 H2]. split; intros (sc & [= <-] & ? & ?); [exists x|exists y]; by rewrite ?H1, ?H2 in *.
      - by split; intros (? & ? & _). }
    assert (Hnone : forall c, o_store F3 !! c = None <-> o_store F2' !! c = None).
    { intros c. specialize (T4 c). by destruct T4. }
    split; [|split; [|split; [done|]]].
    + split.
      * apply (ok_zero _ Ok').
      * intros t c Hc. by apply Hch, (ok_present _ Ok').
      * intros c t Hc. by apply (ok_chunks _ Ok'), Hch.
      * intros c Hc. apply Hnone, (ok_fresh _ Ok'). done.
      * intros a b [->|[a' Ha']]%T3; rewrite <- not_eq_None_Some, Hnone, not_eq_None_Some.
        -- destruct Hd as (sc & -> & _). by eexists.
        -- by apply (ok_edges _ Ok' a' b).
    + eapply (later_trans _ F2'); [eapply later_trans; [exact B|by apply shape_later]|]. split; [done|done| |].
      * intros c t. apply Hch.
      * intros a b Hab. induction Hab as [a b Hab|a b c Hab _ IH]; [by apply T2|].
        eapply tc_transitive; [by apply T2|exact IH].
    + exists sec. split; [done|]. left. split; [done|]. exists d. split; [done|exact T1].
Qed.

(** ** The two passes *)

(** What the passes over the symbols have in common: all but the table and the symbols. *)
Record same_file (P P' : objstate) : Prop := {
  sf_sections : o_sections P' = o_sections P;
  sf_defs : comdatDefs P' = comdatDefs P;
  sf_pending : pendingIndexes P' = pendingIndexes P;
  sf_events : o_events P' = o_events P
}.

Lemma same_file_refl P : same_file P P.
Proof. by split. Qed.
Lemma same_file_trans P1 P2 P3 : same_file P1 P2 -> same_file P2 P3 -> same_file P1 P3.
Proof. intros [] []. split; congruence. Qed.
#[local] Hint Resolve same_file_refl : core.

Lemma createUndefined_same sym b P : same_file P (createUndefined cfg insertion_point obj sym b P).2.
Proof. unfold createUndefined. cbn [snd]. repeat case_match; by split. Qed.

Lemma createRegular_same sym P r P' : createRegular cfg file sym P = Done (r, P') -> same_file P P'.
Proof.
  unfold createRegular, add_local. intros H. outcome_step H. repeat case_match; try done; injection H as <- <-; by split.
Qed.

Lemma createRegular_settled sym P r P' : createRegular cfg file sym P = Done (r, P') ->
  sparseChunks (o_sections P) !! Z.to_nat (cs_section sym) <> Some Pending.
Proof.
  unfold createRegular, sparse_at. intros H. outcome_step H. destruct (sparseChunks _ !! _) as [x|]; [|done].
  injection E as <-. intros [= ->]. done.
Qed.

Lemma handleComdatSelection_same sym sel pr leader def P sel' pr' P' :
  handleComdatSelection cfg file obj objs isBitcode sym sel pr leader def P = Done (sel', pr', P') -> same_file P P'.
Proof.
  unfold handleComdatSelection. destruct pr; [by intros [= <- <- <-]|].
  destruct (s_kind <$> deref (o_table P) leader) as [k|]; [|done]. destruct k; try done. destruct chunk; [|done].
  destruct (o_store (o_sections P) !! n) as [lc|]; [|done]. destruct (merge_selections _ _ _ _) as [a b].
  repeat (case_match; [by intros [= <- <- <-]|]). intros Hd. outcome_step Hd.
  repeat case_match; try done; injection Hd as <- <- <-; by split.
Qed.

Lemma selectLeader_same sym leader pr def P sel' pr' P' :
  selectLeader cfg file obj objs isBitcode sym leader pr def P = Done (sel', pr', P') -> same_file P P'.
Proof.
  unfold selectLeader. repeat case_match; try (by intros [= <- <- <-]). apply handleComdatSelection_same.
Qed.

Lemma recordPrevailing_same sym P P' : recordPrevailingSymbolForMingw sym P = Done P' -> same_file P P'.
Proof.
  unfold recordPrevailingSymbolForMingw. intros H. outcome_step H. repeat case_match; try done; injection H as <-; by split.
Qed.

Fixpoint indices (fuel i : nat) : list nat :=
  match fuel, obj_symbols obj !! i with
  | Datatypes.S fuel, Some sym => i :: indices fuel (i + 1 + cs_naux sym)%nat
  | _, _ => []
  end.
(** The records that are symbols. *)
Definition visited : list nat := indices (numSymbols obj) 0.

Definition def_at (i : nat) (s : Z) (d : coff_aux_section_definition) : Prop :=
  exists sym, obj_symbols obj !! i = Some sym /\ cs_section sym = s /\ getSectionDefinition sym = Some d.

Lemma def_static i s d sym : def_at i s d -> obj_symbols obj !! i = Some sym -> cs_class sym = CLASS_STATIC.
Proof.
  intros (sym' & H1 & _ & H2) H3. replace sym' with sym in H2 by congruence. unfold getSectionDefinition in H2.
  destruct (Z.eqb_spec (cs_class sym) CLASS_STATIC); [done|]. by rewrite orb_true_r in H2.
Qed.

(** The leaders to come are of pending sections with a definition of their own. *)
Record pass_ok (P : objstate) : Prop := {
  po_sections : sections_ok (o_sections P);
  po_defs : forall s d, comdatDefs P !! s = Some d -> sparseChunks (o_sections P) !! Z.to_nat s = Some Pending /\
    0 < s /\ Selection d <> SELECT_ASSOCIATIVE /\ exists i, i ∈ visited /\ def_at i s d
}.

(** One symbol of the first pass. *)
Record visits (i : nat) (sym : coff_symbol) (P P' : objstate) : Prop := {
  vi_ok : pass_ok P';
  vi_later : later (o_sections P) (o_sections P');
  vi_pending : pendingIndexes P' = pendingIndexes P \/
    pendingIndexes P' = pendingIndexes P ++ [i] /\ 0 < cs_section sym /\
    sparseChunks (o_sections P) !! Z.to_nat (cs_section sym) = Some Pending;
  vi_settles : forall s, sparseChunks (o_sections P) !! s = Some Pending ->
    sparseChunks (o_sections P') !! s = Some Pending \/ is_Some (comdatDefs P !! Z.of_nat s);
  vi_assoc : forall d, getSectionDefinition sym = Some d -> comdatDefs P !! cs_section sym = None ->
    sparseChunks (o_sections P) !! Z.to_nat (cs_section sym) = Some Pending -> 0 < cs_section sym ->
    pendingIndexes P' = pendingIndexes P ++ [i];
  vi_events : o_events P' = o_events P
}.

Lemma visits_same i sym P P' P'' : visits i sym P P' -> same_file P' P'' -> visits i sym P P''.
Proof.
  intros [H1 H2 H3 H4 H5 H6] [E1 E2 E3 E4]. split; rewrite ?E1, ?E2, ?E3, ?E4; try done.
  destruct H1 as [A B]. split; rewrite ?E1; [done|]. intros s d. rewrite E2. apply B.
Qed.

Lemma same_visits i sym P P' : pass_ok P -> same_file P P' ->
  (forall d, getSectionDefinition sym = Some d -> comdatDefs P !! cs_section sym = None ->
     sparseChunks (o_sections P) !! Z.to_nat (cs_section sym) = Some Pending -> 0 < cs_section sym -> False) ->
  visits i sym P P'.
Proof.
  intros Hok Hs Hn. eapply visits_same; [|done]. split; try done.
  - by left.
  - intros s Hp. by left.
  - intros d Hd H1 H2 H3. destruct (Hn d Hd H1 H2 H3).
Qed.

Lemma settle_pass_ok s x P F' P' : pass_ok P -> sections_ok F' ->
  sparseChunks F' = <[Z.to_nat s := x]> (sparseChunks (o_sections P)) -> 0 < s ->
  o_sections P' = F' -> comdatDefs P' = delete s (comdatDefs P) -> pass_ok P'.
Proof.
  intros [Hok Hd] Hf Hsp Hs E1 E2. split; rewrite E1; [done|]. intros t d. rewrite E2.
  rewrite lookup_delete_Some. intros [Hne Ht]. destruct (Hd t d Ht) as (A & B & C). split; [|done].
  rewrite Hsp, list_lookup_insert_ne; [done|]. intros E. apply Hne. lia.
Qed.

Lemma createLeader_settles sym def P r pr P' : pass_ok P -> comdatDefs P !! cs_section sym = Some def ->
  createLeader cfg file obj objs isBitcode sym def P = Done (r, pr, P') ->
  pass_ok P' /\ later (o_sections P) (o_sections P') /\ pendingIndexes P' = pendingIndexes P /\
  o_events P' = o_events P /\
  exists x, sparseChunks (o_sections P') = <[Z.to_nat (cs_section sym) := x]> (sparseChunks (o_sections P)).
Proof.
  intros Hok Hdef H. destruct (po_defs _ Hok _ _ Hdef) as (Hp & Hs & _). unfold createLeader in H.
  set (P1 := set_comdatDefs (delete (cs_section sym) (comdatDefs P)) P) in H.
  destruct (if isExternal sym then _ else _) as [[leader pr1] P2] eqn:E2 in H.
  assert (S2 : same_file P1 P2).
  { destruct (isExternal sym).
    - destruct (addComdat _ _ _ _ _ _) as [T p] in E2. injection E2 as <- <- <-. by split.
    - injection E2 as <- <- <-. by split. }
  case_match; [done|]. outcome_step H. destruct a as [[sel pr2] P3].
  apply selectLeader_same in E. pose proof (same_file_trans _ _ _ S2 E) as S3.
  assert (Efin : forall F' P4, sections_ok F' -> later (o_sections P) F' ->
    (exists x, sparseChunks F' = <[Z.to_nat (cs_section sym) := x]> (sparseChunks (o_sections P))) ->
    same_file (set_o_sections F' P3) P4 -> 
    pass_ok P4 /\ later (o_sections P) (o_sections P4) /\ pendingIndexes P4 = pendingIndexes P /\ o_events P4 = o_events P /\
    exists x, sparseChunks (o_sections P4) = <[Z.to_nat (cs_section sym) := x]> (sparseChunks (o_sections P))).
  { intros F' P4 HF HL [x Hx] HS. destruct S3 as [A B C D], HS as [A' B' C' D'].
    cbn [set_o_sections o_sections comdatDefs pendingIndexes o_events] in A', B', C', D'.
    rewrite A', C', D', C, D. split; [|split; [done|split; [done|split; [done|by exists x]]]].
    eapply (settle_pass_ok (cs_section sym) x P F'); try done. by rewrite B', B. }
  assert (ES : o_sections P3 = o_sections P) by apply S3.
  destruct pr2.
  - outcome_step H. destruct a as [c F1]. rewrite ES in E0.
    destruct (read_settle _ _ _ _ _ _ (po_sections _ Hok) Hp E0) as (A & B & C & _).
    destruct c as [c|]; injection H as <- <- <-.
    + set (F2 := set_sparse _ _ _) in *.
      assert (Sh := shape_alter (fun s => set_selection sel (set_leader leader s)) c F2
        ltac:(done) ltac:(done) ltac:(done)).
      eapply (Efin (update_store (alter (fun s => set_selection sel (set_leader leader s)) c) F2)).
      * by eapply shape_ok.
      * eapply later_trans; [exact B|by apply shape_later].
      * by eexists.
      * by split.
    + eapply Efin; [exact A|exact B|by eexists|by split].
  - injection H as <- <- <-. rewrite <- ES in *.
    destruct (discard_ok (cs_section sym) (o_sections P3)) as [A B]; [rewrite ES; apply Hok|done|].
    eapply (Efin (set_sparse (cs_section sym) Discarded (o_sections P3))); [exact A|exact B|by eexists|by split].
Qed.

(** Sections that only gained a chunk of no section. *)
Lemma aside_ok P P' : pass_ok P -> comdatDefs P' = comdatDefs P ->
  sparseChunks (o_sections P') = sparseChunks (o_sections P) ->
  grown 0 (o_sections P) (o_sections P') \/
    o_store (o_sections P') = o_store (o_sections P) /\ o_next (o_sections P') = (o_next (o_sections P) + 1)%nat ->
  pass_ok P' /\ later (o_sections P) (o_sections P').
Proof.
  intros [Hok Hd] E1 E2 Hg. assert (Hs : sections_ok (o_sections P') /\ later (o_sections P) (o_sections P')).
  { destruct Hg as [Hg|[E3 E4]].
    - split; [|apply (grown_later 0); rewrite ?E2; done].
      pose proof (fun c t => grown_chunks 0 _ _ c t Hok Hg) as Hc. split; rewrite ?E2.
      + apply (ok_zero _ Hok).
      + intros s c H. apply Hc. left. by apply (ok_present _ Hok).
      + intros c s H Hpos. apply Hc in H as [H|[_ ->]]; [by apply (ok_chunks _ Hok)|lia].
      + destruct Hg as (sc & _ & _ & _ & Hst & Hnx). intros c Hle. rewrite Hst, lookup_insert_ne by lia.
        apply (ok_fresh _ Hok). lia.
      + intros a b Hab. apply (grown_edges 0 _ _ _ _ Hok Hg), (ok_edges _ Hok) in Hab.
        destruct Hg as (sc & _ & _ & _ & -> & _). apply lookup_insert_is_Some. destruct (decide (o_next (o_sections P) = b)); auto.
    - assert (Hc : forall c t, chunk_of (o_sections P') c t <-> chunk_of (o_sections P) c t)
        by (intros; unfold chunk_of; by rewrite E3).
      assert (He : forall a b, next_child (o_sections P') a b <-> next_child (o_sections P) a b)
        by (intros; unfold next_child; by rewrite E3).
      split; split; rewrite ?E2; try done.
      + apply (ok_zero _ Hok).
      + intros s c H. by apply Hc, (ok_present _ Hok).
      + intros c s H. by apply (ok_chunks _ Hok), Hc.
      + intros c H. rewrite E3. apply (ok_fresh _ Hok). lia.
      + intros a b H. rewrite E3. by eapply (ok_edges _ Hok), He.
      + intros c s. apply Hc.
      + apply tc_iff. intros a b. apply He. }
  destruct Hs as [Hs Hl]. split; [|done]. split; [done|]. intros s d. rewrite E1, E2. apply Hd.
Qed.

Lemma createDefined_spec i sym P r pr P' : pass_ok P -> i ∈ visited -> obj_symbols obj !! i = Some sym ->
  createDefined cfg file obj objs isBitcode sym P = Done (r, pr, P') ->
  pass_ok P' /\ later (o_sections P) (o_sections P') /\ pendingIndexes P' = pendingIndexes P /\
  o_events P' = o_events P /\
  (forall s, sparseChunks (o_sections P) !! s = Some Pending ->
     sparseChunks (o_sections P') !! s = Some Pending \/ is_Some (comdatDefs P !! Z.of_nat s)) /\
  (forall d, getSectionDefinition sym = Some d -> comdatDefs P !! cs_section sym = None ->
     sparseChunks (o_sections P) !! Z.to_nat (cs_section sym) = Some Pending -> 0 < cs_section sym -> r = None) /\
  (r = None -> 0 < cs_section sym /\ sparseChunks (o_sections P) !! Z.to_nat (cs_section sym) = Some Pending).
Proof.
  intros Hok Hi Hsym H. unfold createDefined in H.
  assert (Hstatic : forall d, getSectionDefinition sym = Some d -> cs_class sym = CLASS_STATIC).
  { intros d Hd. eapply (def_static i (cs_section sym) d); [|done]. by exists sym. }
  assert (Hsame : forall P'', same_file P P'' -> pass_ok P'' /\ later (o_sections P) (o_sections P'') /\
    pendingIndexes P'' = pendingIndexes P /\ o_events P'' = o_events P /\
    (forall s, sparseChunks (o_sections P) !! s = Some Pending ->
       sparseChunks (o_sections P'') !! s = Some Pending \/ is_Some (comdatDefs P !! Z.of_nat s))).
  { intros P'' [E1 E2 E3 E4]. rewrite E1, E3, E4. split; [|split; [done|split; [done|split; [done|by left]]]].
    destruct Hok as [A B]. split; rewrite E1; [done|]. intros s d. rewrite E2. apply B. }
  destruct (isCommon sym) eqn:Hcom.
  { injection H as <- <- <-. match goal with |- pass_ok ?Q /\ _ => set (P'' := Q) end.
    destruct (aside_ok P P'' Hok eq_refl eq_refl) as [A B]; [by right|].
    split; [exact A|split; [exact B|split; [done|split; [done|split; [by left|split; [|done]]]]]].
    intros d Hd. specialize (Hstatic d Hd). unfold isCommon, isExternal in Hcom. by rewrite Hstatic in Hcom. }
  destruct (isAbsolute sym) eqn:Habs.
  { assert (S1 : same_file P P').
    { unfold add_local in H. repeat case_match; injection H as <- <- <-; by split. }
    destruct (Hsame P' S1) as (A & B & C & D & E). do 5 (split; [done|]).
    split; [|intros ->; unfold add_local in H; by repeat case_match]. intros d _ _ _ Hpos. unfold isAbsolute in Habs. apply Z.eqb_eq in Habs. lia. }
  destruct (Z.eqb_spec (cs_section sym) (-2)) as [Hm2|_].
  { injection H as <- <- <-. destruct (Hsame P) as (A & B & C & D & E); [done|]. do 5 (split; [done|]). split; [lia|done]. }
  destruct (isEmptySectionDeclaration sym) eqn:Hemp.
  { unfold add_schunk, add_local in H. injection H as <- <- <-. match goal with |- pass_ok ?Q /\ _ => set (P'' := Q) end.
    destruct (aside_ok P P'' Hok eq_refl eq_refl) as [A B].
    { left. exists (new_schunk cfg file 0 (empty_section sym) 0). by repeat split. }
    split; [exact A|split; [exact B|split; [done|split; [done|split; [by left|split; [|done]]]]]].
    intros d Hd. specialize (Hstatic d Hd). unfold isEmptySectionDeclaration, isSection in Hemp. by rewrite Hstatic in Hemp. }
  unfold isReservedSectionNumber in H. destruct (Z.leb_spec (cs_section sym) 0) as [|Hpos]; [done|].
  destruct (Z.of_nat _ <=? _); [done|]. destruct (comdatDefs P !! cs_section sym) as [def|] eqn:Hdef.
  { outcome_step H. destruct a as [[r' pr'] P'']. injection H as <- <- <-.
    destruct (createLeader_settles _ _ _ _ _ _ Hok Hdef E) as (A & B & C & D & x & Hx). do 4 (split; [done|]). split; [|by split].
    intros s Hs. destruct (decide (s = Z.to_nat (cs_section sym))) as [->|].
    - right. rewrite Z2Nat.id by lia. by exists def.
    - left. by rewrite Hx, list_lookup_insert_ne. }
  outcome_step H. unfold sparse_at in E. destruct (sparseChunks _ !! _) as [x|] eqn:Hx; [injection E as ->|done].
  destruct a as [| |c].
  - injection H as <- <- <-. split; [|split; [|split; [|split; [|split; [|by split]]]]].
    2-4: by repeat case_match.
    2: { intros s Hs. left. by repeat case_match. }
    destruct (getSectionDefinition sym) as [def|] eqn:Hd; [|done].
    destruct (Z.eqb_spec (Selection def) SELECT_ASSOCIATIVE); [done|]. destruct Hok as [A B]. split; [done|].
    intros s d. cbn [set_comdatDefs comdatDefs o_sections]. rewrite lookup_insert_Some. intros [[<- <-]|[_ Hs]]; [|by apply B].
    repeat (split; [done|]). exists i. split; [done|]. by exists sym.
  - outcome_step H. destruct a as [r' P'']. injection H as <- <- <-. apply createRegular_same in E.
    destruct (Hsame P'' E) as (A & B & C & D & G). do 5 (split; [done|]). split; [|done]. intros d _ _ Hc. congruence.
  - outcome_step H. destruct a as [r' P'']. injection H as <- <- <-. apply createRegular_same in E.
    destruct (Hsame P'' E) as (A & B & C & D & G). do 5 (split; [done|]). split; [|done]. intros d _ _ Hc. congruence.
Qed.

Lemma visit_symbol_visits i sym P P' : pass_ok P -> i ∈ visited -> obj_symbols obj !! i = Some sym ->
  visit_symbol cfg insertion_point file obj objs isBitcode i sym P = Done P' -> visits i sym P P'.
Proof.
  intros Hok Hi Hsym H. unfold visit_symbol in H.
  assert (Hstatic : forall d, getSectionDefinition sym = Some d -> cs_class sym = CLASS_STATIC).
  { intros d Hd. eapply (def_static i (cs_section sym) d); [|done]. by exists sym. }
  destruct (cs_isUndefined sym) eqn:Hu.
  { destruct (createUndefined _ _ _ _ _ _) as [r P1] eqn:E. injection H as <-.
    pose proof (createUndefined_same sym false P) as S1. rewrite E in S1. cbn in S1.
    apply same_visits; [done|eapply same_file_trans; [exact S1|by split]|].
    intros d Hd. specialize (Hstatic d Hd). unfold cs_isUndefined, isExternal in Hu. by rewrite Hstatic in Hu. }
  destruct (isWeakExternal sym) eqn:Hw.
  { outcome_step H. destruct (createUndefined _ _ _ _ _ _) as [r P1] eqn:E1. injection H as <-.
    pose proof (createUndefined_same sym a P) as S1. rewrite E1 in S1. cbn in S1.
    apply same_visits; [done|eapply same_file_trans; [exact S1|by split]|].
    intros d Hd. specialize (Hstatic d Hd). unfold isWeakExternal in Hw. by rewrite Hstatic in Hw. }
  outcome_step H. destruct a as [[r pr] P1].
  destruct (createDefined_spec i sym P r pr P1 Hok Hi Hsym E) as (A & B & C & D & G & I & J).
  destruct r as [r|].
  - assert (S1 : same_file P1 P').
    { destruct (oc_mingw cfg && pr); [|by injection H as <-].
      apply recordPrevailing_same in H. eapply same_file_trans; [|exact H]. by split. }
    eapply visits_same; [|exact S1]. split; try done; [by left|].
    intros d H1 H2 H3 H4. by specialize (I d H1 H2 H3 H4).
  - injection H as <-. destruct (J eq_refl). split; try done; [by destruct A|by right; cbn; rewrite C|].
    intros d H1 H2 H3 H4. cbn. by rewrite C.
Qed.

Lemma indices_spec fuel k : NoDup (indices fuel k) /\
  forall i, i ∈ indices fuel k -> (k <= i)%nat /\ is_Some (obj_symbols obj !! i).
Proof.
  revert k. induction fuel as [|fuel IH]; intros k; cbn; [split; [constructor|by intros i ?%elem_of_nil]|].
  destruct (obj_symbols obj !! k) as [sym|] eqn:E; [|split; [constructor|by intros i ?%elem_of_nil]].
  destruct (IH (k + 1 + cs_naux sym)%nat) as [A B]. split.
  - constructor; [|done]. intros H%B. lia.
  - intros i [->|H]%elem_of_cons; [by rewrite E|]. apply B in H as [? ?]. split; [lia|done].
Qed.

Lemma first_pass_fold fuel k P :
  first_pass cfg insertion_point file obj objs isBitcode fuel k P =
  fold_outcome (fun P i => sym ← getSymbolRecord obj i;
                           visit_symbol cfg insertion_point file obj objs isBitcode i sym P) (indices fuel k) P.
Proof.
  revert k P. induction fuel as [|fuel IH]; intros k P; [done|]. cbn [first_pass indices].
  destruct (obj_symbols obj !! k) as [sym|] eqn:E; [|done]. cbn [fold_outcome].
  assert (getSymbolRecord obj k = Done sym) as -> by (unfold getSymbolRecord; by rewrite E). rewrite Done_bind. destruct (visit_symbol _ _ _ _ _ _ _ _ _) as [P1|]; [|done]. apply IH.
Qed.

Context (Hunique : forall i j s d d', i ∈ visited -> j ∈ visited -> def_at i s d -> def_at j s d' -> i = j).

Definition assoc_at (i : nat) (s : Z) (d : coff_aux_section_definition) : Prop :=
  def_at i s d /\ Selection d = SELECT_ASSOCIATIVE.

Lemma assoc_no_leader P i s d : pass_ok P -> i ∈ visited -> assoc_at i s d -> comdatDefs P !! s = None.
Proof.
  intros Hok Hi [Hd Ha]. destruct (comdatDefs P !! s) as [d'|] eqn:E; [|done].
  destruct (po_defs _ Hok _ _ E) as (_ & _ & Hn & j & Hj & Hdj).
  assert (i = j) as <- by (by eapply Hunique). destruct Hd as (sym & ? & ? & ?), Hdj as (sym' & ? & ? & ?). congruence.
Qed.

Lemma pass_spec l P P' : pass_ok P -> l ⊆ visited ->
  fold_outcome (fun P i => sym ← getSymbolRecord obj i;
                           visit_symbol cfg insertion_point file obj objs isBitcode i sym P) l P = Done P' ->
  pass_ok P' /\ later (o_sections P) (o_sections P') /\ o_events P' = o_events P /\
  (exists l', pendingIndexes P' = pendingIndexes P ++ l' /\ sublist l' l /\
     forall i s d, i ∈ l' -> def_at i s d -> 0 < s /\ sparseChunks (o_sections P) !! Z.to_nat s = Some Pending) /\
  (forall i s d, i ∈ visited -> assoc_at i s d -> 0 < s -> sparseChunks (o_sections P) !! Z.to_nat s = Some Pending ->
     sparseChunks (o_sections P') !! Z.to_nat s = Some Pending /\ (i ∈ l -> i ∈ pendingIndexes P')).
Proof.
  revert P. induction l as [|k l IH]; intros P Hok Hl H.
  { injection H as <-. split; [done|split; [done|split; [done|split; [exists []; rewrite app_nil_r; split; [done|split; [done|by intros i s d ?%elem_of_nil]]|]]]].
    intros i s d _ _ _ Hp. split; [done|]. by intros ?%elem_of_nil. }
  apply fold_outcome_cons in H as (P1 & Hk & H). outcome_step Hk. unfold getSymbolRecord in E.
  destruct (obj_symbols obj !! k) as [sym|] eqn:Ek; [injection E as <-|done].
  assert (Hkv : k ∈ visited) by (apply Hl, list_elem_of_here).
  destruct (visit_symbol_visits _ _ _ _ Hok Hkv Ek Hk) as [V1 V2 V3 V4 V5 V6].
  destruct (IH P1 V1 ltac:(intros x Hx; apply Hl; by apply list_elem_of_further) H) as (A & B & C & (l' & D1 & D2 & D3) & G).
  split; [done|]. split; [by eapply later_trans|]. split; [congruence|]. split.
  { assert (D3' : forall i s d, i ∈ l' -> def_at i s d -> 0 < s /\ sparseChunks (o_sections P) !! Z.to_nat s = Some Pending).
    { intros i s d Hi Hd. destruct (D3 i s d Hi Hd) as [Hs Hp]. split; [done|].
      destruct (sparseChunks (o_sections P) !! Z.to_nat s) as [x|] eqn:E.
      - destruct (decide (x = Pending)) as [->|Hx]; [done|]. rewrite (la_settled _ _ V2 _ _ E Hx) in Hp. congruence.
      - apply lookup_ge_None in E. apply lookup_lt_Some in Hp. rewrite (la_len _ _ V2) in Hp. lia. }
    rewrite D1. destruct V3 as [->|(-> & V3 & V3')]; [exists l'; split; [done|split; [by constructor|done]]|].
    exists (k :: l'). rewrite <- app_assoc. split; [done|]. split; [by constructor|].
    intros i s d [->|Hi]%elem_of_cons Hd; [|by eapply D3']. destruct Hd as (sym' & S1 & <- & _).
    by replace sym' with sym by congruence. }
  intros i s d Hi Ha Hs Hp. pose proof (assoc_no_leader P i s d Hok Hi Ha) as Hn.
  assert (Hp1 : sparseChunks (o_sections P1) !! Z.to_nat s = Some Pending).
  { destruct (V4 _ Hp) as [|[d' Hd']]; [done|]. rewrite Z2Nat.id in Hd' by lia. congruence. }
  destruct (G i s d Hi Ha Hs Hp1) as [G1 G2]. split; [done|]. intros [->|Hil]%elem_of_cons; [|by apply G2].
  rewrite D1. apply elem_of_app. left. destruct Ha as [(sym' & S1 & S2 & S3) _].
  replace sym' with sym in * by congruence.
  rewrite (V5 d) by (try done; congruence). apply elem_of_app. right. apply list_elem_of_here.
Qed.

(** ** The pending symbols *)

Context (Hmingw : oc_mingw cfg = false).

Definition parent_of (d : coff_aux_section_definition) : nat := Z.to_nat (u32 (getNumber (isBigObj obj) d)).

(** What became of the associative section [s] with the parent [p]. *)
Definition follows (sym : coff_symbol) (p : nat) (F : sections) (events : list obj_event) : Prop :=
  let s := Z.to_nat (cs_section sym) in
  (exists cp, sparseChunks F !! p = Some (Present cp) /\
     exists sec, section s = Some sec /\
       if linked sec then exists c, sparseChunks F !! s = Some (Present c) /\ tc (next_child F) cp c
       else sparseChunks F !! s = Some Discarded) \/
  (sparseChunks F !! p = Some Discarded /\ sparseChunks F !! s = Some Discarded) \/
  (sparseChunks F !! s = Some Pending /\ exists q, Z.to_nat q = p /\ AssocInvalidParent (cs_name sym) (cs_section sym) q ∈ events).

Lemma visit_pending_assoc P i sym d P' : sections_ok (o_sections P) -> obj_symbols obj !! i = Some sym ->
  getSectionDefinition sym = Some d -> Selection d = SELECT_ASSOCIATIVE ->
  sparseChunks (o_sections P) !! Z.to_nat (cs_section sym) = Some Pending ->
  visit_pending cfg file obj P i = Done P' ->
  sections_ok (o_sections P') /\ later (o_sections P) (o_sections P') /\
  (exists ev, o_events P' = o_events P ++ ev) /\ follows sym (parent_of d) (o_sections P') (o_events P') /\
  exists x, sparseChunks (o_sections P') = <[Z.to_nat (cs_section sym) := x]> (sparseChunks (o_sections P)).
Proof.
  intros Hok Hsym Hd Ha Hp H. unfold visit_pending in H. unfold getSymbolRecord in H. rewrite Hsym in H.
  rewrite Done_bind in H. rewrite Hd, Ha in H. cbn [Z.eqb Pos.eqb SELECT_ASSOCIATIVE] in H.
  pose proof (lookup_lt_Some _ _ _ Hp) as Hlt.
  outcome_step H. unfold readAssociativeDefinition, sparse_at in E. fold (parent_of d) in E. outcome_step E.
  destruct (sparseChunks (o_sections P) !! parent_of d) as [x|] eqn:Hpar; [injection E0 as ->|done].
  destruct a0 as [| |cp].
  - injection E as <-. unfold sparse_at in H. cbn [obj_emit set_o_events o_sections] in H. rewrite Hp in H. injection H as <-.
    cbn [obj_emit set_o_events o_sections o_events]. split; [done|]. split; [done|]. split; [by rewrite <- app_assoc; eexists|].
    split; [|exists Pending; by rewrite list_insert_id]. right. right. split; [done|].
    exists (u32 (getNumber (isBigObj obj) d)). split; [done|]. apply elem_of_app. left. apply elem_of_app. right. apply list_elem_of_here.
  - injection E as <-. unfold sparse_at in H. cbn [with_sections set_sparse set_o_sections set_sparseChunks o_sections sparseChunks] in H.
    rewrite list_lookup_insert_eq in H by done. rewrite Done_bind in H.
    outcome_step H. destruct a as [r P2]. injection H as <-. apply createRegular_same in E as [E1 _ _ E4].
    cbn [set_symbol set_o_symbols o_sections o_events] in *. rewrite E1, E4.
    destruct (discard_ok (cs_section sym) (o_sections P) Hok Hp) as [A B].
    split; [exact A|]. split; [exact B|]. split; [by exists []; rewrite app_nil_r|]. split; [|by exists Discarded].
    right. left. cbn [with_sections set_o_sections o_sections set_sparse set_sparseChunks sparseChunks].
    rewrite list_lookup_insert_eq by done. split; [|done]. rewrite list_lookup_insert_ne; [done|]. intros E. rewrite E in Hp. congruence.
  - outcome_step E. destruct a0 as [c F1]. injection E as <-.
    destruct (assoc_settle _ _ _ _ _ _ _ Hok Hp Hpar E0) as (A & B & C & sec & Hsec & D).
    set (F3 := match c with Some _ => _ | None => _ end) in *.
    assert (Hs3 : sparseChunks F3 !! Z.to_nat (cs_section sym) = Some (of_chunk c)) by (by rewrite C, list_lookup_insert_eq).
    unfold sparse_at in H. cbn [set_o_sections o_sections] in H. change (sparseChunks _) with (sparseChunks F3) in H.
    rewrite Hs3 in H. rewrite Done_bind in H.
    assert (exists r P2, createRegular cfg file sym (set_o_sections F3 P) = Done (r, P2) /\ P' = set_symbol i r P2) as (r & P2 & E1 & ->).
    { destruct c; cbn [of_chunk] in H; outcome_step H; destruct a as [r P2]; injection H as <-; by exists r, P2. }
    apply createRegular_same in E1 as [E1 _ _ E4]. cbn [set_symbol set_o_symbols o_sections o_events set_o_sections] in *.
    rewrite E1, E4. split; [exact A|]. split; [exact B|]. split; [by exists []; rewrite app_nil_r|]. split; [|by eexists].
    left. exists cp. split; [by apply (la_settled _ _ B)|]. exists sec. split; [done|].
    destruct D as [(-> & d' & -> & Ht)|[-> ->]]; [by exists d'|done].
Qed.

Lemma visit_pending_other P i sym P' : sections_ok (o_sections P) -> obj_symbols obj !! i = Some sym ->
  (forall d, getSectionDefinition sym = Some d -> Selection d <> SELECT_ASSOCIATIVE) ->
  visit_pending cfg file obj P i = Done P' ->
  o_sections P' = o_sections P /\ exists ev, o_events P' = o_events P ++ ev.
Proof.
  intros Hok Hsym Hd H. unfold visit_pending in H. unfold getSymbolRecord in H. rewrite Hsym, Done_bind in H.
  assert (exists sc, sparse_at (cs_section sym) P = Done sc /\
    match sc with
    | Pending => Done (obj_emit (DiscardUnassociated (cs_name sym)) P)
    | _ => '(r, P) ← createRegular cfg file sym P; Done (set_symbol i r P)
    end = Done P') as (sc & Hsc & H').
  { outcome_step H. assert (E' : Done P = Done a).
    { destruct (getSectionDefinition sym) as [d|] eqn:Ed; [|done]. specialize (Hd d eq_refl).
      destruct (Z.eqb_spec (Selection d) SELECT_ASSOCIATIVE); [done|]. by rewrite Hmingw in E. }
    injection E' as <-. outcome_step H. by exists a. }
  destruct sc as [| |c]; [injection H' as <-; split; [done|by eexists]|..].
  all: outcome_step H'; destruct a as [r P2]; injection H' as <-; apply createRegular_same in E as [E1 _ _ E4].
  all: split; [done|]; exists []; cbn; by rewrite E4, app_nil_r.
Qed.

Lemma follows_later sym p F F' ev ev' : follows sym p F ev -> later F F' -> ev ⊆ ev' ->
  (sparseChunks F !! Z.to_nat (cs_section sym) = Some Pending ->
   sparseChunks F' !! Z.to_nat (cs_section sym) = Some Pending) -> follows sym p F' ev'.
Proof.
  intros H [L1 L2 L3 L4] He Hp. destruct H as [(cp & Hcp & sec & Hs & H)|[[H1 H2]|(H & q & Hq & Hin)]].
  - left. exists cp. split; [by apply L1|]. exists sec. split; [done|]. destruct (linked sec); [|by apply L1].
    destruct H as (c & Hc & Ht). exists c. split; [by apply L1|by apply L4].
  - right. left. split; by apply L1.
  - right. right. split; [by apply Hp|]. exists q. split; [done|by apply He].
Qed.

Lemma pending_spec l P P' : sections_ok (o_sections P) -> l ⊆ visited -> NoDup l ->
  (forall i s d, i ∈ l -> assoc_at i s d -> sparseChunks (o_sections P) !! Z.to_nat s = Some Pending) ->
  fold_outcome (visit_pending cfg file obj) l P = Done P' ->
  sections_ok (o_sections P') /\ later (o_sections P) (o_sections P') /\ (exists ev, o_events P' = o_events P ++ ev) /\
  (forall t, (forall i s d, i ∈ l -> assoc_at i s d -> Z.to_nat s <> t) ->
     sparseChunks (o_sections P') !! t = sparseChunks (o_sections P) !! t) /\
  (forall i sym d, i ∈ l -> obj_symbols obj !! i = Some sym -> getSectionDefinition sym = Some d ->
     Selection d = SELECT_ASSOCIATIVE -> follows sym (parent_of d) (o_sections P') (o_events P')).
Proof.
  revert P. induction l as [|k l IH]; intros P Hok Hl Hnd Hpend H.
  { injection H as <-. split; [done|split; [done|split; [by exists []; rewrite app_nil_r|split; [done|]]]].
    by intros i sym d ?%elem_of_nil. }
  apply fold_outcome_cons in H as (P1 & Hk & H). apply NoDup_cons in Hnd as [Hkl Hnd].
  assert (Hkv : k ∈ visited) by apply Hl, list_elem_of_here.
  assert (Hl' : l ⊆ visited) by (intros x Hx; apply Hl; by apply list_elem_of_further).
  destruct (proj2 (indices_spec _ _) k Hkv) as [_ [sym Hsym]].
  assert (Hstep : sections_ok (o_sections P1) /\ later (o_sections P) (o_sections P1) /\
    (exists ev, o_events P1 = o_events P ++ ev) /\
    (forall t, (forall s d, assoc_at k s d -> Z.to_nat s <> t) ->
       sparseChunks (o_sections P1) !! t = sparseChunks (o_sections P) !! t) /\
    (forall d, getSectionDefinition sym = Some d -> Selection d = SELECT_ASSOCIATIVE ->
       follows sym (parent_of d) (o_sections P1) (o_events P1))).
  { destruct (getSectionDefinition sym) as [d|] eqn:Ed.
    - destruct (Z.eqb_spec (Selection d) SELECT_ASSOCIATIVE) as [Ha|Hna].
      + assert (Hka : assoc_at k (cs_section sym) d) by (split; [by exists sym|done]).
        destruct (visit_pending_assoc P k sym d P1 Hok Hsym Ed Ha ltac:(eapply Hpend; [apply list_elem_of_here|done]) Hk)
          as (A & B & C & D & x & Hx). repeat (split; [done|]). split; [|by intros d' [= <-] _].
        intros t Ht. rewrite Hx, list_lookup_insert_ne; [done|]. by eapply Ht.
      + destruct (visit_pending_other P k sym P1 Hok Hsym) as [E1 E2]; [by intros d' ? ?; simplify_eq|done|].
        rewrite E1. repeat (split; [done|]). intros d' [= <-]. done.
    - destruct (visit_pending_other P k sym P1 Hok Hsym) as [E1 E2]; [by rewrite Ed|done|].
      rewrite E1. by repeat (split; [done|]). }
  destruct Hstep as (A & B & [ev C] & D & G).
  assert (Hdisj : forall i s d s' d', i ∈ l -> assoc_at i s d -> assoc_at k s' d' -> Z.to_nat s' <> Z.to_nat s).
  { intros i s d s' d' Hi Hia Hka E.
    pose proof (Hpend i s d ltac:(by apply list_elem_of_further) Hia) as Hp.
    assert (Z.to_nat s <> O) by (intros E0; rewrite E0, (ok_zero _ Hok) in Hp; done).
    assert (s' = s) as -> by lia. apply Hkl.
    replace k with i; [done|]. eapply Hunique; [by apply Hl'|done|apply Hia|apply Hka]. }
  destruct (IH P1 A Hl' Hnd) as (A' & B' & [ev' C'] & D' & G'); [|done|].
  { intros i s d Hi Hia. rewrite D; [eapply Hpend; [by apply list_elem_of_further|done]|].
    intros s' d' Hka. by eapply Hdisj. }
  split; [done|]. split; [by eapply later_trans|]. split; [exists (ev ++ ev'); by rewrite C', C, app_assoc|]. split.
  - intros t Ht. rewrite D', D; [done| |].
    + intros s d Hka. eapply Ht; [apply list_elem_of_here|done].
    + intros i s d Hi. eapply Ht. by apply list_elem_of_further.
  - intros i sym' d [->|Hi]%elem_of_cons Hs Hd Ha; [|by eapply G'].
    assert (sym' = sym) as -> by congruence. eapply follows_later; [by apply G|done|rewrite C'; intros x Hx; apply elem_of_app; by left|].
    intros Hp. rewrite D'; [done|]. intros i s d' Hi Hia. apply not_eq_sym. eapply Hdisj; [done..|].
    split; [by exists sym|done].
Qed.

(** ** Parsing *)

(** Nothing of the file has been read. *)
Record unparsed (P : objstate) : Prop := {
  un_chunks : forall c s, ~ chunk_of (o_sections P) c s;
  un_fresh : forall c, (o_next (o_sections P) <= c)%nat -> o_store (o_sections P) !! c = None;
  un_edges : forall a b, next_child (o_sections P) a b -> is_Some (o_store (o_sections P) !! b);
  un_defs : comdatDefs P = ∅;
  un_pending : pendingIndexes P = []
}.

Definition is_comdat (sec : coff_section) : bool := has_flag (Characteristics sec) SCN_LNK_COMDAT.

Lemma lookup_snoc {A} (l : list A) x t : (l ++ [x]) !! t = if decide (t = length l) then Some x else l !! t.
Proof.
  destruct (decide (t = length l)) as [->|]; [by apply list_lookup_middle|].
  destruct (decide (t < length l)%nat); [by apply lookup_app_l|].
  rewrite (lookup_ge_None_2 l) by lia. apply lookup_ge_None_2. rewrite length_app. cbn. lia.
Qed.

Lemma append_ok i F F' x : sections_ok F -> 0 < i -> Z.to_nat i = length (sparseChunks F) ->
  sparseChunks F' = sparseChunks F ++ [x] ->
  (x = Present (o_next F) /\ grown i F F' \/
   (forall c, x <> Present c) /\ o_store F' = o_store F /\ o_next F' = o_next F) -> sections_ok F'.
Proof.
  intros Hok Hi Hl Hsp H. assert (Hlk : forall t, sparseChunks F' !! t = if decide (t = Z.to_nat i) then Some x else sparseChunks F !! t).
  { intros t. by rewrite Hsp, lookup_snoc, <- Hl. }
  assert (Hnone : sparseChunks F !! Z.to_nat i = None) by (apply lookup_ge_None_2; lia).
  destruct H as [[-> Hg]|(Hx & E1 & E2)].
  - eapply grown_ok; [done..|]. intros y. by rewrite Hnone.
  - split.
    + rewrite Hlk. destruct (decide _); [lia|]. by apply (ok_zero _ Hok).
    + intros s c. rewrite Hlk. destruct (decide _); [by intros [= ->]; destruct (Hx c)|]. unfold chunk_of. rewrite E1.
      apply (ok_present _ Hok).
    + intros c s Hc Hs. unfold chunk_of in Hc. rewrite E1 in Hc. pose proof (ok_chunks _ Hok _ _ Hc Hs) as H.
      rewrite Hlk. destruct (decide _) as [E|]; [|done]. by rewrite E, Hnone in H.
    + intros c. rewrite E1, E2. apply (ok_fresh _ Hok).
    + intros a b. unfold next_child. rewrite E1. apply (ok_edges _ Hok).
Qed.

Lemma initializeChunks_spec l i F F' : sections_ok F -> 0 < i -> Z.to_nat i = length (sparseChunks F) ->
  (forall k sec, l !! k = Some sec -> section (Z.to_nat i + k) = Some sec) ->
  initializeChunks_loop cfg file obj i l F = Done F' ->
  sections_ok F' /\ (forall t, (t < Z.to_nat i)%nat -> sparseChunks F' !! t = sparseChunks F !! t) /\
  forall k sec, l !! k = Some sec -> exists x, sparseChunks F' !! (Z.to_nat i + k)%nat = Some x /\
    if is_comdat sec then x = Pending else if linked sec then exists c, x = Present c else x = Discarded.
Proof.
  revert i F. induction l as [|sec l IH]; intros i F Hok Hi Hl Hsec H; cbn [initializeChunks_loop] in H.
  { injection H as <-. split; [done|]. split; [done|]. by intros k sec' ?. }
  assert (Hnext : forall F1 x, sections_ok F1 -> sparseChunks F1 = sparseChunks F ++ [x] ->
    initializeChunks_loop cfg file obj (i + 1) l F1 = Done F' ->
    (if is_comdat sec then x = Pending else if linked sec then exists c, x = Present c else x = Discarded) ->
    sections_ok F' /\ (forall t, (t < Z.to_nat i)%nat -> sparseChunks F' !! t = sparseChunks F !! t) /\
    forall k sec', (sec :: l) !! k = Some sec' -> exists x, sparseChunks F' !! (Z.to_nat i + k)%nat = Some x /\
      if is_comdat sec' then x = Pending else if linked sec' then exists c, x = Present c else x = Discarded).
  { intros F1 x Hok1 Hsp Hr Hx. destruct (IH (i + 1) F1 Hok1 ltac:(lia)) as (A & B & C); [| |done|].
    { rewrite Hsp, length_app. cbn. lia. }
    { intros k sec' Hk. replace (Z.to_nat (i + 1) + k)%nat with (Z.to_nat i + Datatypes.S k)%nat by lia. by apply Hsec. }
    split; [done|]. split.
    - intros t Ht. rewrite B, Hsp by lia. apply lookup_app_l. lia.
    - intros [|k] sec' Hk.
      + injection Hk as <-. exists x. split; [|done]. rewrite B by lia. rewrite Hsp, lookup_snoc, Nat.add_0_r.
        destruct (decide _); [done|lia].
      + replace (Z.to_nat i + Datatypes.S k)%nat with (Z.to_nat (i + 1) + k)%nat by lia. by apply C. }
  fold (is_comdat sec) in H. destruct (is_comdat sec) eqn:Hc.
  - apply (Hnext (set_sparseChunks (sparseChunks F ++ [Pending]) F) Pending); [|reflexivity|exact H|done].
    eapply (append_ok i F _ Pending); [done..|]. by right.
  - outcome_step H. destruct a as [c F1]. apply readSection_spec in E as (sec' & _ & Hs' & Hsp & E).
    assert (sec' = sec) as ->.
    { specialize (Hsec O sec eq_refl). rewrite Nat.add_0_r in Hsec. congruence. }
    apply (Hnext (set_sparseChunks (sparseChunks F1 ++ [of_chunk c]) F1) (of_chunk c)); [|cbn; by rewrite Hsp|exact H|].
    + eapply (append_ok i F _ (of_chunk c)); [done|done|done|cbn; by rewrite Hsp|]. destruct (linked sec).
      * left. destruct E as (-> & Hn & ck & Hst). split; [done|]. by exists (new_schunk cfg file i sec ck).
      * right. by destruct E as (-> & Hn & Hst).
    + destruct (linked sec); [destruct E as (-> & _); by eexists|by destruct E as (-> & _)].
Qed.

(** The sections as they are, and more events. *)
Definition same_sections (P P' : objstate) : Prop :=
  o_sections P' = o_sections P /\ exists ev, o_events P' = o_events P ++ ev.

Lemma same_sections_refl P : same_sections P P.
Proof. split; [done|]. exists []. by rewrite app_nil_r. Qed.
Lemma same_sections_same P P' : o_sections P' = o_sections P -> o_events P' = o_events P -> same_sections P P'.
Proof. intros H1 H2. split; [done|]. exists []. by rewrite H2, app_nil_r. Qed.
Lemma same_sections_emit P e : same_sections P (obj_emit e P).
Proof. split; [done|]. by exists [e]. Qed.
Lemma same_sections_trans P1 P2 P3 : same_sections P1 P2 -> same_sections P2 P3 -> same_sections P1 P3.
Proof.
  intros [A [ev B]] [C [ev' D]]. split; [congruence|]. exists (ev ++ ev'). by rewrite D, B, app_assoc.
Qed.

Lemma initializeECThunks_sections P P' : initializeECThunks obj P = Done P' -> same_sections P P'.
Proof.
  apply (fold_outcome_inv (same_sections P)); [|apply same_sections_refl].
  intros a c a' _ Ha. unfold ec_chunk. case_match.
  { intros [= <-]. eapply same_sections_trans; [exact Ha|apply same_sections_emit]. }
  apply (fold_outcome_inv (same_sections P)); [|done].
  intros b [[src dst] type] b' _ Hb. unfold ec_entry.
  repeat case_match; intros He; try outcome_step He; try outcome_step He; injection He as <-.
  all: eapply same_sections_trans; [exact Hb|]; first [apply same_sections_emit|by apply same_sections_same].
Qed.

Lemma visit_weak_sections l P P' : fold_outcome (visit_weak cfg file obj) l P = Done P' -> o_sections P' = o_sections P /\ o_events P' = o_events P.
Proof.
  apply (fold_outcome_inv (fun Q => o_sections Q = o_sections P /\ o_events Q = o_events P)); [|done].
  intros a [r aux] a' _ Ha H. unfold visit_weak in H. outcome_step H. outcome_step H. by injection H as <-.
Qed.

(** The file after its last pass. *)
Lemma parse_stages P P' : unparsed P -> parse cfg insertion_point file obj objs isBitcode P = Done P' ->
  exists F, sections_ok F /\ o_store (o_sections P') = o_store F /\
    (forall k sec, obj_sections obj !! k = Some sec -> is_comdat sec = false ->
       exists x, sparseChunks F !! Datatypes.S k = Some x /\ if linked sec then exists c, x = Present c else x = Discarded) /\
    (forall i sym d sec, i ∈ visited -> obj_symbols obj !! i = Some sym -> getSectionDefinition sym = Some d ->
       Selection d = SELECT_ASSOCIATIVE -> 0 < cs_section sym -> section (Z.to_nat (cs_section sym)) = Some sec ->
       is_comdat sec = true -> follows sym (parent_of d) F (o_events P')).
Proof.
  intros Hfresh Hparse. destruct Hfresh as [U1 U2 U3 U4 U5]. unfold parse in Hparse. outcome_step Hparse. outcome_step Hparse.
  rename a into F0, a0 into P3. apply initializeECThunks_sections in Hparse as [E1 [ev E2]].
  unfold initializeSymbols in E0. outcome_step E0. rename a into P1, E3 into Hp1.
  outcome_step E0. rename a into P2, E3 into Hp2. outcome_step E0. rename a into P2', E3 into Hw.
  injection E0 as <-. apply visit_weak_sections in Hw as [W1 W2].
  assert (Hok00 : sections_ok (set_sparseChunks [Discarded] (o_sections P))).
  { split; [done| |by intros c s ?%U1|done|done]. intros [|[|s]] c; done. }
  assert (Hsec0 : forall k sec, obj_sections obj !! k = Some sec -> section (Z.to_nat 1 + k) = Some sec) by done.
  destruct (initializeChunks_spec _ 1 _ _ Hok00 ltac:(lia) eq_refl Hsec0 E) as (Hok0 & _ & Hinit).
  rewrite first_pass_fold in Hp1.
  destruct (pass_spec visited (set_o_sections F0 P) P1) as (Hok1 & Hl1 & He1 & (l' & Hl' & Hsub & Hpos) & Ha1);
    [|done|exact Hp1|].
  { split; [done|]. intros s d. cbn. by rewrite U4. }
  cbn [set_o_sections o_sections pendingIndexes] in *. rewrite U5 in Hl'. cbn in Hl'.
  assert (Hnd : NoDup visited) by apply indices_spec.
  destruct (pending_spec (pendingIndexes P1) P1 P2) as (Hok2 & Hl2 & [ev2 He2] & Hfr2 & Hfo2); [apply Hok1| | | |exact Hp2|].
  { rewrite Hl'. intros x Hx. by eapply sublist_subseteq. }
  { rewrite Hl'. by eapply sublist_NoDup. }
  { intros i s d Hi Ha. rewrite Hl' in Hi. destruct (Hpos i s d Hi (proj1 Ha)) as [Hs Hp].
    assert (i ∈ visited) as Hv by (by eapply sublist_subseteq). apply (Ha1 i s d Hv Ha Hs Hp). }
  assert (Hlat : later F0 (o_sections P2)) by (by eapply later_trans).
  exists (o_sections P2). split; [done|]. split.
  { rewrite E1. cbn [with_sections set_o_sections o_sections set_sparseChunks o_store]. by rewrite W1. }
  split.
  - intros k sec Hk Hn. destruct (Hinit k sec Hk) as (x & Hx & H). rewrite Hn in H. exists x. split; [|done].
    apply (la_settled _ _ Hlat); [exact Hx|]. intros ->. destruct (linked sec); [by destruct H|done].
  - intros i sym d sec Hi Hsym Hd Hsel Hs Hsec Hc. assert (Ha : assoc_at i (cs_section sym) d) by (split; [by exists sym|done]).
    destruct (Z.to_nat (cs_section sym)) as [|k] eqn:Ek; [done|]. destruct (Hinit k sec Hsec) as (x & Hx & H).
    rewrite Hc in H. subst x. change (Z.to_nat 1 + k)%nat with (Datatypes.S k) in Hx. rewrite <- Ek in Hx.
    destruct (Ha1 i _ d Hi Ha Hs Hx) as [_ Hin]. eapply follows_later; [by eapply Hfo2; [apply Hin|..]|apply later_refl| |done].
    rewrite E2. cbn [with_sections set_o_sections o_events]. rewrite W2. intros y Hy. apply elem_of_app. by left.
Qed.

(** C6: Parsing a well-formed object (one section definition per section, not
    MinGW) reads each section at most once: no two chunks are of the same
    section. A section that is no COMDAT is kept exactly when [readSection] links
    it. An associative section that is kept has its parent kept and is among the
    children of the parent's chunk; when the parent is kept it is kept too, unless
    the parent was not yet resolved, which is reported. *)
Theorem parse_sections (P P' : objstate) (Hfresh : unparsed P)
    (Hparse : parse cfg insertion_point file obj objs isBitcode P = Done P') :
  let F := o_sections P' in
  (forall s c c', 0 < s -> chunk_of F c s -> chunk_of F c' s -> c = c') /\
  (forall s sec, section s = Some sec -> is_comdat sec = false ->
     (exists c, chunk_of F c (Z.of_nat s)) <-> linked sec = true) /\
  (forall i s sec d, i ∈ visited -> assoc_at i (Z.of_nat s) d -> section s = Some sec -> is_comdat sec = true ->
     (forall c, chunk_of F c (Z.of_nat s) ->
        exists cp, chunk_of F cp (Z.of_nat (parent_of d)) /\ tc (next_child F) cp c) /\
     (forall cp, (0 < parent_of d)%nat -> chunk_of F cp (Z.of_nat (parent_of d)) -> linked sec = true ->
        (exists c, chunk_of F c (Z.of_nat s)) \/
        exists n q, Z.to_nat q = parent_of d /\ AssocInvalidParent n (Z.of_nat s) q ∈ o_events P')).
Proof.
  intros F. destruct (parse_stages P P' Hfresh Hparse) as (F2 & Hok & Hst & Hplain & Hfollow).
  assert (Hch : forall c s, chunk_of F c s <-> chunk_of F2 c s) by (intros c s; unfold F, chunk_of; by rewrite Hst).
  assert (Htc : forall a b, tc (next_child F2) a b -> tc (next_child F) a b)
    by (apply tc_iff; intros a b; unfold F, next_child; by rewrite Hst).
  assert (Hat : forall c s, (0 < s)%nat -> chunk_of F c (Z.of_nat s) -> sparseChunks F2 !! s = Some (Present c)).
  { intros c s Hs Hc%Hch. apply (ok_chunks _ Hok) in Hc; [|lia]. by rewrite Nat2Z.id in Hc. }
  split; [|split].
  - intros s c c' Hs Hc Hc'. apply Hch in Hc, Hc'. pose proof (ok_chunks _ Hok _ _ Hc Hs).
    pose proof (ok_chunks _ Hok _ _ Hc' Hs). congruence.
  - intros [|s] sec Hsec Hn; [done|]. destruct (Hplain s sec Hsec Hn) as (x & Hx & Hk). split.
    + intros [c Hc]. apply Hat in Hc; [|lia]. rewrite Hx in Hc. by destruct (linked sec); [|subst].
    + intros Hlk. rewrite Hlk in Hk. destruct Hk as [c ->]. exists c. by apply Hch, (ok_present _ Hok).
  - intros i s sec d Hi [(sym & Hsym & Hcs & Hgd) Hsel] Hsec Hcd. destruct s as [|s]; [done|].
    pose proof (Hfollow i sym d sec Hi Hsym Hgd Hsel) as Hfol. unfold follows in Hfol. rewrite Hcs, Nat2Z.id in Hfol.
    specialize (Hfol ltac:(lia) Hsec Hcd). split.
    + intros c Hc%Hat; [|lia].
      destruct Hfol as [(cp & Hcp & sec' & _ & Hf)|[[_ Hf]|[Hf _]]]; [|congruence..].
      destruct (linked sec'); [|congruence]. destruct Hf as (c' & Hc' & Ht). assert (c' = c) as -> by congruence.
      exists cp. split; [by apply Hch, (ok_present _ Hok)|by apply Htc].
    + intros cp Hpp Hcp%Hat Hlk; [|lia].
      destruct Hfol as [(cp' & _ & sec' & Hs' & Hf)|[[Hf _]|(_ & q & Hq & Hq')]]; [|congruence|].
      * assert (sec' = sec) as -> by congruence. rewrite Hlk in Hf. destruct Hf as (c & Hc & _). left.
        exists c. by apply Hch, (ok_present _ Hok).
      * right. by exists (cs_name sym), q.
Qed.

End Props.

(** ** An object *)

(** The section definitions of the symbols that are read, by section. *)
Definition defined_sections (obj : coff_object) : list (nat * Z) :=
  omap (fun i => sym ← obj_symbols obj !! i; _ ← getSectionDefinition sym; Some (i, cs_section sym)) (visited obj).

Lemma unique_sections obj : NoDup (map snd (defined_sections obj)) ->
  forall i j s d d', i ∈ visited obj -> j ∈ visited obj -> def_at obj i s d -> def_at obj j s d' -> i = j.
Proof.
  intros Hnd i j s d d' Hi Hj (si & Hsi & Ei & Di) (sj & Hsj & Ej & Dj).
  assert (Hin : forall k sk dk, k ∈ visited obj -> obj_symbols obj !! k = Some sk -> getSectionDefinition sk = Some dk ->
    (k, cs_section sk) ∈ defined_sections obj).
  { intros k sk dk Hk Hsk Hdk. apply list_elem_of_omap. exists k. split; [done|]. rewrite Hsk. cbn. by rewrite Hdk. }
  pose proof (Hin _ _ _ Hi Hsi Di) as Hini. pose proof (Hin _ _ _ Hj Hsj Dj) as Hinj. rewrite Ei in Hini. rewrite Ej in Hinj.
  apply list_elem_of_lookup_1 in Hini as [a Ha]. apply list_elem_of_lookup_1 in Hinj as [b Hb].
  assert (a = b) as ->; [|congruence]. eapply (NoDup_lookup (map snd (defined_sections obj))); [done|..];
    rewrite list_lookup_fmap; [by rewrite Ha|by rewrite Hb].
Qed.

Definition demo_stconfig : st_config :=
  {| st_machine := AMD64; hybridEC := false; wordsize := 8; stdcallFixup := false; autoImport := false;
     forceUnresolved := false; allowDuplicateWeak := false; warnLocallyDefinedImported := false |}.
Definition demo_oconfig (mingw : bool) (discard : list string) : obj_config :=
  {| oc_st := demo_stconfig; oc_mingw := mingw; discardSection := discard; includeDwarfChunks := true;
     tailMerge := false; oc_doGC := true |}.
Definition demo_section (n : string) (size : Z) (comdat : bool) : coff_section :=
  {| sec_name := n; SizeOfRawData := size; NumberOfRelocations := 0;
     Characteristics := SCN_MEM_READ + SCN_MEM_EXECUTE + (if comdat then SCN_LNK_COMDAT else 0); sec_contents := [] |}.
Definition demo_def (sel number : Z) : coff_aux_section_definition :=
  {| Length := 0; CheckSum := 0; NumberLowPart := number; Selection := sel; NumberHighPart := 0 |}.
Definition demo_symbol (n : string) (sec cls : Z) (naux : nat) (d : coff_aux_section_definition) : coff_symbol :=
  {| cs_name := n; cs_value := 0; cs_section := sec; cs_class := cls; cs_naux := naux; aux_def := d;
     aux_weak := {| TagIndex := 0; weak_Characteristics := 0 |} |}.
Definition demo_aux : coff_symbol := demo_symbol "" 0 0 0 (demo_def 0 0).

(** A function, its unwind data, and plain data. *)
Definition demo_object : coff_object :=
  {| obj_machine := MACHINE_AMD64; isBigObj := false;
     obj_sections := [demo_section ".text$f" 16 true; demo_section ".xdata$f" 8 true; demo_section ".data" 4 false];
     obj_symbols := [demo_symbol ".text$f" 1 CLASS_STATIC 1 (demo_def SELECT_ANY 0); demo_aux;
                     demo_symbol "f" 1 CLASS_EXTERNAL 0 (demo_def 0 0);
                     demo_symbol ".xdata$f" 2 CLASS_STATIC 1 (demo_def SELECT_ASSOCIATIVE 1); demo_aux;
                     demo_symbol "d" 3 CLASS_EXTERNAL 0 (demo_def 0 0)] |}.

Definition empty_symtab : symtab :=
  {| symMap := ∅; locals := ∅; lazyFiles := ∅; archiveSeen := ∅; dllSeen := ∅; SymbolTable.chunks := ∅; gcroot := [];
     expSymbols := []; log := [] |}.
Definition empty_sections : sections :=
  {| o_store := ∅; o_next := 0; sparseChunks := []; o_vectors := []; o_directives := None; addrsigSec := None;
     callgraphSec := None |}.
Definition empty_objstate : objstate :=
  {| o_sections := empty_sections; o_table := empty_symtab; o_symbols := ∅; o_local := 0; o_commons := ∅;
     feat00Flags := 0; entryThunks := []; exitThunks := ∅; o_events := []; comdatDefs := ∅;
     prevailingSectionMap := ∅; pendingIndexes := []; weakAliases := [] |}.

Lemma empty_unparsed f : unparsed f empty_objstate.
Proof. split; try done; [by intros c s (sc & H & _)|by intros a b (sc & H & _)]. Qed.

Lemma parse_sections_witness :
  exists P', parse (demo_oconfig false []) (fun _ => None) 0 demo_object (fun _ => None) (fun _ => false) empty_objstate = Done P' /\
    (exists cp, chunk_of 0 (o_sections P') cp 1 /\ tc (next_child (o_sections P')) cp 2%nat) /\
    (exists c, chunk_of 0 (o_sections P') c 3).
Proof.
  destruct (parse (demo_oconfig false []) (fun _ => None) 0 demo_object (fun _ => None) (fun _ => false) empty_objstate)
    as [P'|] eqn:E; [|vm_compute in E; discriminate E].
  exists P'. split; [reflexivity|].
  pose proof (parse_sections (demo_oconfig false []) (fun _ => None) 0 demo_object (fun _ => None) (fun _ => false)
    (unique_sections demo_object ltac:(apply (bool_decide_unpack _); vm_compute; exact I)) eq_refl
    empty_objstate P' (empty_unparsed 0) E) as (_ & H2 & H3). split.
  - refine (proj1 (H3 3%nat 2%nat (demo_section ".xdata$f" 8 true) (demo_def SELECT_ASSOCIATIVE 1) _ _ eq_refl eq_refl) 2%nat _).
    + apply (bool_decide_unpack _). vm_compute. exact I.
    + split; [|reflexivity]. eexists. split; [reflexivity|]. split; reflexivity.
    + vm_compute in E. injection E as <-. eexists. split; [reflexivity|]. split; reflexivity.
  - apply (H2 3%nat (demo_section ".data" 4 false)); reflexivity.
Defined.
