(* ===== verification/ComdatProps.v ===== *)
(** * COMDAT selection does not depend on the order of the files

    [handleComdatSelection] for two COFF definitions of one COMDAT symbol, in
    both orders; and three definitions, where the order shows. *)

From S2P Require Import Prelude Layout SymbolTable ObjFile ObjFileProps.

#[local] Open Scope string_scope.
#[local] Open Scope list_scope.
#[local] Open Scope Z_scope.

(** A definition: the section, how it is to be selected, and its length. *)
Record offer := { of_sec : coff_section; of_sel : Z; of_len : Z }.

Definition of_size (o : offer) : Z := SizeOfRawData (of_sec o).
Definition selectable (o : offer) : Prop :=
  of_sel o = SELECT_NODUPLICATES \/ of_sel o = SELECT_ANY \/ of_sel o = SELECT_SAME_SIZE \/
  of_sel o = SELECT_EXACT_MATCH \/ of_sel o = SELECT_LARGEST.

Section Comdat.
  Context (cfg : obj_config) (objs : nat -> option coff_object) (isBitcode : nat -> bool).

(** The symbol [r] is led by the chunk of the definition [o]. *)
Definition leads (P : objstate) (r : sref) (o : offer) : Prop :=
  exists f c v sc, s_kind <$> deref (o_table P) r = Some (DefinedRegular (Some f) true (Some c) v) /\
    isBitcode f = false /\ o_store (o_sections P) !! c = Some sc /\ sc_header sc = of_sec o /\
    sc_selection sc = of_sel o /\ leader_length objs sc = Some (of_len o).

(** The object [obj] has the definition [o] at its symbol [sym]. *)
Definition brings (obj : coff_object) (sym : coff_symbol) (def : coff_aux_section_definition) (o : offer) : Prop :=
  0 < cs_section sym /\ obj_sections obj !! Z.to_nat (cs_section sym - 1) = Some (of_sec o) /\
  Selection def = of_sel o /\ Length def = of_len o.

(** Whether two definitions are duplicates. *)
Definition conflict (a b : offer) : bool :=
  let '(x, y) := merge_selections cfg false (of_sel b) (of_sel a) in
  negb (x =? y) || (x =? SELECT_NODUPLICATES) ||
  ((x =? SELECT_SAME_SIZE) && negb (of_size a =? of_size b) && (negb (oc_mingw cfg) || negb (of_len a =? of_len b))) ||
  ((x =? SELECT_EXACT_MATCH) && negb (bool_decide (sec_contents (of_sec a) = sec_contents (of_sec b)))).

Definition outgrows (a b : offer) : bool :=
  let '(x, y) := merge_selections cfg false (of_sel b) (of_sel a) in
  (x =? y) && (x =? SELECT_LARGEST) && (of_size a <? of_size b).

Lemma merge_swap a b : merge_selections cfg false a b = ((merge_selections cfg false b a).2, (merge_selections cfg false b a).1).
Proof.
  unfold merge_selections.
  destruct (a =? SELECT_ANY) eqn:E1, (b =? SELECT_ANY) eqn:E2, (a =? SELECT_LARGEST) eqn:E3, (b =? SELECT_LARGEST) eqn:E4;
    cbn; rewrite ?E1, ?E2; destruct (a =? SELECT_SAME_SIZE), (b =? SELECT_SAME_SIZE), (oc_mingw cfg); done.
Qed.

Lemma merge_selectable a b : selectable a -> selectable b ->
  (merge_selections cfg false (of_sel a) (of_sel b)).1 ∈ [1; 2; 3; 4; 6].
Proof.
  intros Ha Hb. unfold merge_selections. destruct (oc_mingw cfg);
    destruct Ha as [->|[->|[->|[->| ->]]]], Hb as [->|[->|[->|[->| ->]]]]; cbn; set_solver.
Qed.

Lemma conflict_sym a b : conflict a b = conflict b a.
Proof.
  unfold conflict. rewrite (merge_swap (of_sel b)). destruct (merge_selections cfg false (of_sel a) (of_sel b)) as [x y].
  cbn [fst snd]. rewrite (Z.eqb_sym y x). destruct (Z.eqb_spec x y) as [<-|]; [|done]. cbn [negb orb].
  rewrite (Z.eqb_sym (of_size a)), (Z.eqb_sym (of_len a)).
  by rewrite (bool_decide_ext (sec_contents (of_sec a) = sec_contents (of_sec b)) (sec_contents (of_sec b) = sec_contents (of_sec a))).
Qed.

(** The result in one of the two orders. *)
Lemma handle_spec file obj P r a b sym def :
  leads P r a -> brings obj sym def b -> selectable a -> selectable b ->
  exists P', handleComdatSelection cfg file obj objs isBitcode sym (Selection def) false r def P =
      Done ((merge_selections cfg false (of_sel b) (of_sel a)).1, outgrows a b, P') /\
    P' = if conflict a b then duplicate file r P
         else if outgrows a b
              then with_table (replaceSymbol r (DefinedRegular (Some file) true None (cs_value sym)) false) P
              else P.
Proof.
  intros (f & c & v & sc & Hk & Hf & Hc & Hh & Hs & Hl) (Hpos & Hsec & Hsel & Hlen) Ha Hb.
  pose proof (merge_selectable b a Hb Ha) as Hm.
  unfold handleComdatSelection, conflict, outgrows. rewrite Hk, Hc, Hf, Hs, Hsel.
  destruct (merge_selections cfg false (of_sel b) (of_sel a)) as [x y]. cbn [fst] in Hm |- *.
  assert (Hg : getSection_exn obj (cs_section sym) = Done (of_sec b)).
  { unfold getSection_exn, getSection, isReservedSectionNumber. destruct (Z.leb_spec (cs_section sym) 0); [lia|].
    by rewrite Hsec. }
  rewrite Hg. change (Done (of_sec b) ≫= ?k) with (k (of_sec b)). cbv beta.
  unfold sc_getSize, of_size. rewrite Hh, Hl, Hlen.
  destruct (Z.eqb_spec x y) as [<-|]; cbn [negb orb andb]; [|by eexists].
  repeat (apply elem_of_cons in Hm as [->|Hm]); [..|by apply elem_of_nil in Hm]; cbn [Z.eqb Pos.eqb negb orb andb
    SELECT_NODUPLICATES SELECT_ANY SELECT_SAME_SIZE SELECT_EXACT_MATCH SELECT_LARGEST].
  all: try by eexists.
  - eexists. split; [reflexivity|].
    destruct (SizeOfRawData (of_sec a) =? SizeOfRawData (of_sec b)); [done|]. cbn.
    destruct (oc_mingw cfg); [|done]. cbn. by destruct (of_len a =? of_len b).
  - eexists. split; [reflexivity|]. by destruct (bool_decide _).
  - destruct (_ <? _); by eexists.
Qed.

Lemma replace_log r k w T : SymbolTable.log (replaceSymbol r k w T) = SymbolTable.log T.
Proof. unfold replaceSymbol, modify, store. by repeat case_match. Qed.

(** C28: For two COFF definitions of a COMDAT symbol with any of the selections
    of the format, the outcome does not depend on which file comes first: neither
    order goes wrong, both report a duplicate or neither does, and the selection
    agreed on is the same if they do not; with LARGEST, the size kept is the
    larger of the two in both orders. *)
Theorem comdat_selection_symmetric (a b : offer) (r : sref) (fa fb : nat) (oa ob : coff_object) (P1 P2 : objstate)
    (sa sb : coff_symbol) (da db : coff_aux_section_definition)
    (Ha : selectable a) (Hb : selectable b) (Hlead1 : leads P1 r a) (Hb1 : brings ob sb db b)
    (Hlead2 : leads P2 r b) (Ha2 : brings oa sa da a) :
  exists s1 s2 p1 p2 P1' P2',
    handleComdatSelection cfg fb ob objs isBitcode sb (Selection db) false r db P1 = Done (s1, p1, P1') /\
    handleComdatSelection cfg fa oa objs isBitcode sa (Selection da) false r da P2 = Done (s2, p2, P2') /\
    (SymbolTable.log (o_table P1') = SymbolTable.log (o_table P1) <->
     SymbolTable.log (o_table P2') = SymbolTable.log (o_table P2)) /\
    (SymbolTable.log (o_table P1') = SymbolTable.log (o_table P1) -> s1 = s2) /\
    (s1 = SELECT_LARGEST -> s2 = SELECT_LARGEST ->
       (if p1 then of_size b else of_size a) = Z.max (of_size a) (of_size b) /\
       (if p2 then of_size a else of_size b) = Z.max (of_size a) (of_size b)).
Proof.
  destruct (handle_spec fb ob P1 r a b sb db Hlead1 Hb1 Ha Hb) as (P1' & E1 & F1).
  destruct (handle_spec fa oa P2 r b a sa da Hlead2 Ha2 Hb Ha) as (P2' & E2 & F2).
  do 6 eexists. split; [exact E1|]. split; [exact E2|].
  assert (Hlog : forall f rr k w P, SymbolTable.log (o_table (duplicate f r P)) = SymbolTable.log (o_table P) ++ [ReportDuplicate r (Some f)] /\
    SymbolTable.log (o_table (with_table (replaceSymbol rr k w) P)) = SymbolTable.log (o_table P)).
  { intros. split; [done|]. apply replace_log. }
  assert (Hno : forall (l : list event) e, l ++ [e] <> l) by (intros l e E; apply (f_equal length) in E; rewrite length_app in E; cbn in E; lia).
  assert (H1 : SymbolTable.log (o_table P1') = SymbolTable.log (o_table P1) <-> conflict a b = false).
  { rewrite F1. destruct (conflict a b); [split; [|done]; intros E; by destruct (Hno _ _ (eq_trans (eq_sym (proj1 (Hlog fb r (Undefined None) false P1))) E))|].
    split; [done|]. intros _. destruct (outgrows a b); [apply replace_log|done]. }
  assert (H2 : SymbolTable.log (o_table P2') = SymbolTable.log (o_table P2) <-> conflict b a = false).
  { rewrite F2. destruct (conflict b a); [split; [|done]; intros E; by destruct (Hno _ _ (eq_trans (eq_sym (proj1 (Hlog fa r (Undefined None) false P2))) E))|].
    split; [done|]. intros _. destruct (outgrows b a); [apply replace_log|done]. }
  split; [by rewrite H1, H2, conflict_sym|].
  unfold outgrows. rewrite H1. unfold conflict. rewrite (merge_swap (of_sel b)).
  destruct (merge_selections cfg false (of_sel a) (of_sel b)) as [x y]. cbn [fst snd]. split.
  - destruct (Z.eqb_spec y x) as [->|]; [done|done].
  - intros -> ->. cbn. split; (destruct (Z.ltb_spec (of_size a) (of_size b)), (Z.ltb_spec (of_size b) (of_size a)); lia).
Qed.

End Comdat.

(** ** Three files *)

(** An object with one COMDAT function. *)
Definition comdat_object (sel size : Z) : coff_object :=
  {| obj_machine := MACHINE_AMD64; isBigObj := false; obj_sections := [demo_section ".text$f" size true];
     obj_symbols := [demo_symbol ".text$f" 1 CLASS_STATIC 1 (demo_def sel 0); demo_aux;
                     demo_symbol "f" 1 CLASS_EXTERNAL 0 (demo_def 0 0)] |}.

(** The next file of a link, over the table and chunks so far. *)
Definition next_file (P : objstate) : objstate :=
  set_o_table (o_table P) (set_o_sections (set_o_next (o_next (o_sections P)) (set_o_store (o_store (o_sections P)) empty_sections))
    (set_o_local (o_local P) empty_objstate)).

Definition parse_all (cfg : obj_config) (l : list coff_object) : outcome objstate :=
  fold_outcome (fun P x => parse cfg (fun _ => None) x.1 x.2 (fun f => l !! f) (fun _ => false) (next_file P))
    (combine (seq 0 (length l)) l) empty_objstate.

(** The size of the section that leads a symbol, and how many duplicates were reported. *)
Definition led (n : string) (r : outcome objstate) : outcome (option Z * nat) :=
  match r with
  | Stop f => Stop f
  | Done P =>
      Done (s ← symMap (o_table P) !! n;
            match s_kind s with
            | DefinedRegular _ _ (Some c) _ => sc_getSize <$> o_store (o_sections P) !! c
            | _ => None
            end, length (SymbolTable.log (o_table P)))
  end.

(** With three files the order shows: "any" and "largest" are merged as
    "largest" for the comparison only, the leader's chunk keeps its own. *)
Lemma any_largest_any :
  let files := [comdat_object SELECT_ANY 8; comdat_object SELECT_LARGEST 4; comdat_object SELECT_ANY 16] in
  led "f" (parse_all (demo_oconfig false []) files) = Done (Some 8, O) /\
  led "f" (parse_all (demo_oconfig false []) (rev files)) = Done (Some 16, O) /\
  led "f" (parse_all (demo_oconfig false []) [comdat_object SELECT_LARGEST 4; comdat_object SELECT_ANY 8; comdat_object SELECT_ANY 16])
    = Done (Some 16, O).
Proof. split; [|split]; vm_compute; reflexivity. Qed.

(** A COMDAT function whose section is discarded leaves a leader without a
    chunk: the second file with it is compared with a null pointer. *)
Lemma discarded_leader_null :
  led "f" (parse_all (demo_oconfig false [".text$f"]) [comdat_object SELECT_ANY 8]) = Done (None, O) /\
  led "f" (parse_all (demo_oconfig false [".text$f"]) [comdat_object SELECT_ANY 8; comdat_object SELECT_ANY 8]) = Stop NullDereference.
Proof. split; vm_compute; reflexivity. Qed.

(** The parent of an associative section is not checked. *)
Lemma parent_out_of_bounds :
  parse_all (demo_oconfig false [])
    [{| obj_machine := MACHINE_AMD64; isBigObj := false; obj_sections := [demo_section ".xdata" 8 true];
        obj_symbols := [demo_symbol ".xdata" 1 CLASS_STATIC 1 (demo_def SELECT_ASSOCIATIVE 7); demo_aux] |}] = Stop OutOfBounds.
Proof. vm_compute. reflexivity. Qed.

(** For MinGW a COMDAT [.xdata$f] that has a leader of its own is read again as
    an associate of [f]: the section is in the file's chunks twice. *)
Lemma mingw_section_twice :
  match parse_all (demo_oconfig true [])
    [{| obj_machine := MACHINE_AMD64; isBigObj := false;
        obj_sections := [demo_section ".text$f" 16 true; demo_section ".xdata$f" 8 true];
        obj_symbols := [demo_symbol ".text$f" 1 CLASS_STATIC 1 (demo_def SELECT_ANY 0); demo_aux;
                        demo_symbol "f" 1 CLASS_EXTERNAL 0 (demo_def 0 0);
                        demo_symbol ".xdata$f" 2 CLASS_STATIC 1 (demo_def SELECT_ANY 0); demo_aux;
                        demo_symbol "g" 2 CLASS_EXTERNAL 0 (demo_def 0 0)] |}] with
  | Done P => omap (fun x => sc_number <$> o_store (o_sections P) !! x.2) (o_vectors (o_sections P)) = [1; 2; 2]
  | Stop _ => False
  end.
Proof. vm_compute. reflexivity. Qed.

(** [parseLazy] does not step over the auxiliary records of a symbol it passes
    by: here the record of a file's name reads as an external symbol. *)
Lemma parse_lazy_reads_aux :
  let o := {| obj_machine := MACHINE_AMD64; isBigObj := false; obj_sections := [];
              obj_symbols := [demo_symbol ".file" (-2) 103 1 (demo_def 0 0); demo_symbol "junk" 1 CLASS_EXTERNAL 0 (demo_def 0 0)] |} in
  is_Some (symMap (parseLazy (demo_oconfig false []) (fun _ => None) 0 o
                     {| symMap := ∅; locals := ∅; lazyFiles := {[0%nat]}; archiveSeen := ∅; dllSeen := ∅; SymbolTable.chunks := ∅;
                        gcroot := []; expSymbols := []; log := [] |}) !! "junk").
Proof. vm_compute. by eexists. Qed.

Definition demo_offer (sel size : Z) : offer :=
  {| of_sec := demo_section ".text$f" size true; of_sel := sel; of_len := 0 |}.

Definition comdat_objs (f : nat) : option coff_object :=
  [comdat_object SELECT_LARGEST 16; comdat_object SELECT_ANY 24] !! f.
Definition parse_one (f : nat) (o : coff_object) : outcome objstate :=
  parse (demo_oconfig false []) (fun _ => None) f o comdat_objs (fun _ => false) empty_objstate.

Lemma comdat_selection_symmetric_witness :
  exists P1 P2 s1 s2 p1 p2 P1' P2',
    handleComdatSelection (demo_oconfig false []) 1 (comdat_object SELECT_ANY 24) comdat_objs (fun _ => false)
      (demo_symbol "f" 1 CLASS_EXTERNAL 0 (demo_def 0 0)) SELECT_ANY false (Global "f") (demo_def SELECT_ANY 0) P1 = Done (s1, p1, P1') /\
    handleComdatSelection (demo_oconfig false []) 0 (comdat_object SELECT_LARGEST 16) comdat_objs (fun _ => false)
      (demo_symbol "f" 1 CLASS_EXTERNAL 0 (demo_def 0 0)) SELECT_LARGEST false (Global "f") (demo_def SELECT_LARGEST 0) P2 = Done (s2, p2, P2').
Proof.
  destruct (parse_one 0 (comdat_object SELECT_LARGEST 16)) as [P1|] eqn:E1; [|vm_compute in E1; discriminate E1].
  destruct (parse_one 1 (comdat_object SELECT_ANY 24)) as [P2|] eqn:E2; [|vm_compute in E2; discriminate E2].
  exists P1, P2.
  destruct (comdat_selection_symmetric (demo_oconfig false []) comdat_objs (fun _ => false)
    (demo_offer SELECT_LARGEST 16) (demo_offer SELECT_ANY 24) (Global "f") 0 1 (comdat_object SELECT_LARGEST 16)
    (comdat_object SELECT_ANY 24) P1 P2 (demo_symbol "f" 1 CLASS_EXTERNAL 0 (demo_def 0 0))
    (demo_symbol "f" 1 CLASS_EXTERNAL 0 (demo_def 0 0)) (demo_def SELECT_LARGEST 0) (demo_def SELECT_ANY 0))
    as (s1 & s2 & p1 & p2 & P1' & P2' & H1 & H2 & _).
  - by do 4 right.
  - by right; left.
  - vm_compute in E1. injection E1 as <-. do 4 eexists. repeat split; vm_compute; reflexivity.
  - repeat split.
  - vm_compute in E2. injection E2 as <-. do 4 eexists. repeat split; vm_compute; reflexivity.
  - repeat split.
  - by exists s1, s2, p1, p2, P1', P2'.
Defined.
