(* ===== verification/Imports.v ===== *)
(** * Import tables (lld/COFF/DLL.cpp, Writer.cpp)

    [createImportTables] sorts the imports of the live files into those loaded
    at once and those delayed, [binImports] groups them by DLL and
    [IdataContents::create] makes the chunks of the import tables. An import is
    known by its import file; chunks are the ids of a list in order of creation,
    and what the code mutates (a file's location, [hybridFile]) is state.
    [llvm::sort] is not stable: it is a parameter that sorts. *)

From S2P Require Import Prelude Memory.

#[local] Open Scope string_scope.
#[local] Open Scope list_scope.
#[local] Open Scope Z_scope.

(** ** Data *)

Record import_file := {
  if_live : bool;
  if_dllName : string;
  if_externalName : string;
  if_ordinalHint : Z;
  if_impName : string;          (* the name of impSym *)
  if_isEC : bool;
  if_thunkSym : bool;
  if_impReplaced : bool;       (* impSym is no import data any more *)
  if_impchkThunk : option Z     (* its RVA *)
}.

Inductive ichunk :=
  | HintNameChunk (name : string) (hint : Z)
  | LookupChunk (hintName : nat)
  | OrdinalOnlyChunk (ord : Z)
  | ImportDirectoryChunk (dllName lookupTab addressTab : nat)
  | NullChunk (size : Z)
  | AuxImportChunk (file : nat)
  | StringChunk (str : string).

Inductive relocval := RelocChunk (c : nat) | RelocConst (v : Z) | RelocNone.

(** An entry of the ARM64X relocations, at an offset of a chunk. *)
Record dynreloc := { dr_type : Z; dr_size : Z; dr_chunk : nat; dr_offset : Z; dr_value : relocval }.

(** The symbols of a file that have a location. *)
Inductive imp_symbol := ImpSym | ImpECSym | AuxImpCopySym.
#[export] Instance imp_symbol_eq_dec : EqDecision imp_symbol.
Proof. solve_decision. Defined.

Record idata := {
  made : list ichunk;
  dirs : list nat;
  lookups : list nat;
  addresses : list nat;
  hints : list nat;
  dllNames : list nat;
  auxIat : list nat;
  auxIatCopy : list nat;
  locations : list (nat * imp_symbol * nat);   (* the last one counts *)
  dynamicRelocs : list dynreloc;
  hybridFile : gmap nat nat
}.

Record idata_config := {
  id_wordsize : Z;
  id_is64 : bool;
  id_arm64x : bool;             (* config.machine == ARM64X *)
  id_hybrid : bool;             (* ctx.hybridSymtab *)
  id_symtabEC : bool;           (* ctx.symtab.isEC() *)
  id_imageBase : Z
}.

Definition set_made (x : list ichunk) (D : idata) : idata :=
  {| made := x; dirs := dirs D; lookups := lookups D; addresses := addresses D; hints := hints D; dllNames :=
     dllNames D; auxIat := auxIat D; auxIatCopy := auxIatCopy D; locations := locations D; dynamicRelocs :=
     dynamicRelocs D; hybridFile := hybridFile D |}.
Definition set_dirs (x : list nat) (D : idata) : idata :=
  {| made := made D; dirs := x; lookups := lookups D; addresses := addresses D; hints := hints D; dllNames :=
     dllNames D; auxIat := auxIat D; auxIatCopy := auxIatCopy D; locations := locations D; dynamicRelocs :=
     dynamicRelocs D; hybridFile := hybridFile D |}.
Definition set_lookups (x : list nat) (D : idata) : idata :=
  {| made := made D; dirs := dirs D; lookups := x; addresses := addresses D; hints := hints D; dllNames :=
     dllNames D; auxIat := auxIat D; auxIatCopy := auxIatCopy D; locations := locations D; dynamicRelocs :=
     dynamicRelocs D; hybridFile := hybridFile D |}.
Definition set_addresses (x : list nat) (D : idata) : idata :=
  {| made := made D; dirs := dirs D; lookups := lookups D; addresses := x; hints := hints D; dllNames :=
     dllNames D; auxIat := auxIat D; auxIatCopy := auxIatCopy D; locations := locations D; dynamicRelocs :=
     dynamicRelocs D; hybridFile := hybridFile D |}.
Definition set_hints (x : list nat) (D : idata) : idata :=
  {| made := made D; dirs := dirs D; lookups := lookups D; addresses := addresses D; hints := x; dllNames :=
     dllNames D; auxIat := auxIat D; auxIatCopy := auxIatCopy D; locations := locations D; dynamicRelocs :=
     dynamicRelocs D; hybridFile := hybridFile D |}.
Definition set_dllNames (x : list nat) (D : idata) : idata :=
  {| made := made D; dirs := dirs D; lookups := lookups D; addresses := addresses D; hints := hints D;
     dllNames := x; auxIat := auxIat D; auxIatCopy := auxIatCopy D; locations := locations D; dynamicRelocs :=
     dynamicRelocs D; hybridFile := hybridFile D |}.
Definition set_auxIat (x : list nat) (D : idata) : idata :=
  {| made := made D; dirs := dirs D; lookups := lookups D; addresses := addresses D; hints := hints D;
     dllNames := dllNames D; auxIat := x; auxIatCopy := auxIatCopy D; locations := locations D; dynamicRelocs
     := dynamicRelocs D; hybridFile := hybridFile D |}.
Definition set_auxIatCopy (x : list nat) (D : idata) : idata :=
  {| made := made D; dirs := dirs D; lookups := lookups D; addresses := addresses D; hints := hints D;
     dllNames := dllNames D; auxIat := auxIat D; auxIatCopy := x; locations := locations D; dynamicRelocs :=
     dynamicRelocs D; hybridFile := hybridFile D |}.
Definition set_locations (x : list (nat * imp_symbol * nat)) (D : idata) : idata :=
  {| made := made D; dirs := dirs D; lookups := lookups D; addresses := addresses D; hints := hints D;
     dllNames := dllNames D; auxIat := auxIat D; auxIatCopy := auxIatCopy D; locations := x; dynamicRelocs :=
     dynamicRelocs D; hybridFile := hybridFile D |}.
Definition set_dynamicRelocs (x : list dynreloc) (D : idata) : idata :=
  {| made := made D; dirs := dirs D; lookups := lookups D; addresses := addresses D; hints := hints D;
     dllNames := dllNames D; auxIat := auxIat D; auxIatCopy := auxIatCopy D; locations := locations D;
     dynamicRelocs := x; hybridFile := hybridFile D |}.
Definition set_hybridFile (x : gmap nat nat) (D : idata) : idata :=
  {| made := made D; dirs := dirs D; lookups := lookups D; addresses := addresses D; hints := hints D;
     dllNames := dllNames D; auxIat := auxIat D; auxIatCopy := auxIatCopy D; locations := locations D;
     dynamicRelocs := dynamicRelocs D; hybridFile := x |}.

(** [make<T>(...)]. *)
Definition make (c : ichunk) (D : idata) : nat * idata := (length (made D), set_made (made D ++ [c]) D).

Definition empty_idata (hybrid : gmap nat nat) : idata :=
  {| made := []; dirs := []; lookups := []; addresses := []; hints := []; dllNames := []; auxIat := [];
     auxIatCopy := []; locations := []; dynamicRelocs := []; hybridFile := hybrid |}.

Definition consume (p n : string) : string := if starts_with p n then str_drop (String.length p) n else n.

(** The position of each DLL. *)
Abbreviation dllOrder := (gmap string Z).

Section Idata.
  Context (cfg : idata_config) (files : nat -> import_file).
  Context (sort : (nat -> nat -> bool) -> list nat -> list nat).

(** ** The imports of the link *)

Definition dll_of (f : nat) : string := str_lower (if_dllName (files f)).

(** [try_emplace]. *)
Definition order_dll (o : dllOrder) (dll : string) : dllOrder :=
  match o !! dll with Some _ => o | None => <[dll := Z.of_nat (size o)]> o end.

(** The order of the DLLs, the delayed imports and the others; none, a fatal
    error, for an import whose symbol was replaced, and for one of data that
    cannot be delayed. *)
Fixpoint createImportTables (delayLoads : list string) (l : list nat) (o : dllOrder) (delayed now : list nat)
    : option (dllOrder * list nat * list nat) :=
  match l with
  | [] => Some (o, delayed, now)
  | f :: l =>
      if negb (if_live (files f)) then createImportTables delayLoads l o delayed now
      else
        let o := order_dll o (dll_of f) in
        if if_impReplaced (files f) then None
        else if existsb (String.eqb (dll_of f)) delayLoads then
          if if_thunkSym (files f) then createImportTables delayLoads l o (delayed ++ [f]) now else None
        else createImportTables delayLoads l o delayed (now ++ [f])
  end.

(** ** Grouping *)

Definition getBaseName (f : nat) : string :=
  let n := consume "__imp_" (if_impName (files f)) in
  if if_impchkThunk (files f) is Some _ then consume "aux_" n else n.

Definition base_lt (a b : nat) : bool :=
  match String.compare (getBaseName a) (getBaseName b) with Lt => true | _ => false end.

(** The map of [binImports], by the order of the DLL. *)
Fixpoint bin_insert (k : Z) (f : nat) (m : list (Z * list nat)) : list (Z * list nat) :=
  match m with
  | [] => [(k, [f])]
  | (k', g) :: m' =>
      if k <? k' then (k, [f]) :: m
      else if k' <? k then (k', g) :: bin_insert k f m'
      else (k', g ++ [f]) :: m'
  end.

Definition binImports (o : dllOrder) (imports : list nat) : list (list nat) :=
  let key f := default 0 (o !! dll_of f) in
  map (fun x => sort base_lt x.2) (fold_left (fun m f => bin_insert (key f) f m) imports []).

(** ** Hybrid images *)

Definition isSameImport (this other : nat) : bool :=
  if negb (String.eqb (if_externalName (files this)) "")
  then String.eqb (if_externalName (files other)) (if_externalName (files this))
  else if_ordinalHint (files this) =? if_ordinalHint (files other).

(** One symbol of a group: the symbols kept, the previous one that may be
    merged, and the merged pairs. *)
Definition merge_step (st : list nat * option nat * gmap nat nat) (f : nat) : list nat * option nat * gmap nat nat :=
  let '(kept, prev, h) := st in
  match prev with
  | None => (kept ++ [f], Some f, h)
  | Some p =>
      if Bool.eqb (if_isEC (files f)) (if_isEC (files p)) || negb (isSameImport f p)
      then (kept ++ [f], Some f, h)
      else (if if_isEC (files f) then removelast kept ++ [f] else kept, None, <[p := f]> (<[f := p]> h))
  end.

Definition hybrid_lt (h : gmap nat nat) (a b : nat) : bool :=
  match h !! a with
  | Some _ => match h !! b with Some _ => false | None => if_isEC (files b) end
  | None => negb (if_isEC (files a)) && if_isEC (files b)
  end.

Definition merge_group (g : list nat) (h : gmap nat nat) : list nat * gmap nat nat :=
  let '(kept, _, h) := fold_left merge_step g ([], None, h) in
  (stable_sort (hybrid_lt h) kept, h).

Fixpoint merge_groups (v : list (list nat)) (h : gmap nat nat) : list (list nat) * gmap nat nat :=
  match v with
  | [] => ([], h)
  | g :: v =>
      let '(g, h) := merge_group g h in
      let '(v, h) := merge_groups v h in
      (g :: v, h)
  end.

(** ** Chunks *)

Definition FIXUP_ZEROFILL : Z := 0.
Definition FIXUP_VALUE : Z := 1.
Definition FIXUP_DELTA : Z := 2.

Definition add_reloc (r : dynreloc) (D : idata) : idata := set_dynamicRelocs (dynamicRelocs D ++ [r]) D.
Definition setLocation (f : nat) (s : imp_symbol) (c : nat) (D : idata) : idata :=
  set_locations (locations D ++ [(f, s, c)]) D.
Definition push_lookup (c : nat) (D : idata) : idata := set_lookups (lookups D ++ [c]) D.
Definition push_address (c : nat) (D : idata) : idata := set_addresses (addresses D ++ [c]) D.
Definition push_auxIat (c : nat) (D : idata) : idata := set_auxIat (auxIat D ++ [c]) D.
Definition push_auxIatCopy (c : nat) (D : idata) : idata := set_auxIatCopy (auxIatCopy D ++ [c]) D.

Definition null_word : ichunk := NullChunk (id_wordsize cfg).

(** The lookup and address chunks of an import, and its hint/name if it has one. *)
Definition entry_chunks (f : nat) (D : idata) : nat * nat * option nat * idata :=
  let F := files f in
  if String.eqb (if_externalName F) "" then
    let '(l, D) := make (OrdinalOnlyChunk (if_ordinalHint F)) D in
    let '(a, D) := make (OrdinalOnlyChunk (if_ordinalHint F)) D in
    (l, a, None, D)
  else
    let '(h, D) := make (HintNameChunk (if_externalName F) (if_ordinalHint F)) D in
    let '(l, D) := make (LookupChunk h) D in
    let '(a, D) := make (LookupChunk h) D in
    (l, a, Some h, set_hints (hints D ++ [h]) D).

(** The first EC-only import of a hybrid image gives its place to a null chunk,
    which an ARM64X relocation replaces in the EC view. *)
Definition native_terminator (f l a : nat) (h : option nat) (D : idata) : nat * nat * idata :=
  let '(nl, D) := make null_word D in
  let '(na, D) := make null_word D in
  let v := match h with Some h => RelocChunk h | None => RelocConst (2 ^ 63 ||| if_ordinalHint (files f)) end in
  let D := add_reloc {| dr_type := FIXUP_VALUE; dr_size := 8; dr_chunk := nl; dr_offset := 0; dr_value := v |} D in
  let D := add_reloc {| dr_type := FIXUP_VALUE; dr_size := 8; dr_chunk := na; dr_offset := 0; dr_value := v |} D in
  let D := add_reloc {| dr_type := FIXUP_ZEROFILL; dr_size := 8; dr_chunk := l; dr_offset := 0; dr_value := RelocNone |} D in
  let D := add_reloc {| dr_type := FIXUP_ZEROFILL; dr_size := 8; dr_chunk := a; dr_offset := 0; dr_value := RelocNone |} D in
  (nl, na, D).

(** The auxiliary import tables; whether the import is native only. *)
Definition aux_chunks (f : nat) (D : idata) : bool * idata :=
  if if_isEC (files f) then
    let '(c, D) := make (AuxImportChunk f) D in
    let D := setLocation f ImpECSym c (push_auxIat c D) in
    let '(c, D) := make (AuxImportChunk f) D in
    (false, setLocation f AuxImpCopySym c (push_auxIatCopy c D))
  else if id_hybrid cfg then
    let '(c, D) := make null_word D in
    let D := push_auxIat c D in
    let '(c, D) := make null_word D in
    (true, push_auxIatCopy c D)
  else (false, D).

(** One import of a group: the group's terminators so far, the number of native
    only imports. *)
Definition import_step (st : option (nat * nat) * Z * idata) (f : nat) : option (nat * nat) * Z * idata :=
  let '(term, nativeOnly, D) := st in
  let '(l, a, h, D) := entry_chunks f D in
  let '(l, a, term, D) :=
    if id_arm64x cfg && bool_decide (term = None) && if_isEC (files f) && bool_decide (hybridFile D !! f = None)
    then let '(nl, na, D) := native_terminator f l a h D in (nl, na, Some (l, a), D)
    else (l, a, term, D) in
  let D := push_address a (push_lookup l D) in
  let '(native, D) := aux_chunks f D in
  (term, if native then nativeOnly + 1 else nativeOnly, D).

Definition make_null (D : idata) : nat * idata := make null_word D.

Fixpoint set_group_locations (base : nat) (l : list nat) (D : idata) : idata :=
  match l with
  | [] => D
  | f :: l =>
      let c := nth base (addresses D) O in
      let D := setLocation f ImpSym c D in
      let D := match hybridFile D !! f with Some f' => setLocation f' ImpSym c D | None => D end in
      set_group_locations (base + 1)%nat l D
  end.

(** The null words that end the tables of a DLL. *)
Definition end_tables (term : option (nat * nat)) (D : idata) : idata :=
  let '(l, D) := match term with Some (l, _) => (l, D) | None => make_null D end in
  let D := push_lookup l D in
  let '(a, D) := match term with Some (_, a) => (a, D) | None => make_null D end in
  let D := push_address a D in
  if id_symtabEC cfg then
    let '(c, D) := make_null D in let D := push_auxIat c D in
    let '(c, D) := make_null D in push_auxIatCopy c D
  else D.

(** The DLL's entry of the directory, past the native imports that the image does
    not show. *)
Definition add_directory (base : nat) (nativeOnly : Z) (syms : list nat) (D : idata) : idata :=
  let '(n, D) := make (StringChunk (if_dllName (files (nth 0 syms O)))) D in
  let D := set_dllNames (dllNames D ++ [n]) D in
  let dir := length (made D) in
  let '(base, D) :=
    if id_hybrid cfg && negb (nativeOnly =? 0) then
      if negb (id_arm64x cfg) then ((base + Z.to_nat nativeOnly)%nat, D)
      else (base, add_reloc {| dr_type := FIXUP_DELTA; dr_size := 0; dr_chunk := dir; dr_offset := 16;
                               dr_value := RelocConst (nativeOnly * 8) |}
                  (add_reloc {| dr_type := FIXUP_DELTA; dr_size := 0; dr_chunk := dir; dr_offset := 0;
                               dr_value := RelocConst (nativeOnly * 8) |} D))
    else (base, D) in
  let '(d, D) := make (ImportDirectoryChunk n (nth base (lookups D) O) (nth base (addresses D) O)) D in
  set_dirs (dirs D ++ [d]) D.

(** The tables of one DLL. *)
Definition create_group (D : idata) (syms : list nat) : idata :=
  let base := length (lookups D) in
  let '(term, nativeOnly, D) := fold_left import_step syms (None, 0, D) in
  let D := end_tables term D in
  let D := set_group_locations base syms D in
  add_directory base nativeOnly syms D.

Definition create (o : dllOrder) (imports : list nat) (hybrid : gmap nat nat) : idata :=
  let v := binImports o imports in
  let '(v, hybrid) := if id_hybrid cfg then merge_groups v hybrid else (v, hybrid) in
  let D := fold_left create_group v (empty_idata hybrid) in
  let '(c, D) := make (NullChunk 20) D in
  set_dirs (dirs D ++ [c]) D.

(** Where a symbol of a file is. *)
Definition location (D : idata) (f : nat) (s : imp_symbol) : option nat :=
  fold_left (fun r x => let '(f', s', c) := x in if decide (f' = f /\ s' = s) then Some c else r) (locations D) None.

(** ** Contents *)

Definition ic_getSize (c : ichunk) : Z :=
  match c with
  | HintNameChunk n _ => alignTo (Z.of_nat (String.length n) + 3) 2
  | LookupChunk _ | OrdinalOnlyChunk _ => id_wordsize cfg
  | ImportDirectoryChunk _ _ _ => 20
  | NullChunk n => n
  | AuxImportChunk _ => 8
  | StringChunk s => Z.of_nat (String.length s) + 1
  end.

Context (rva : nat -> Z).

Definition word_write (m : mem) (p v : Z) : mem := if id_is64 cfg then write64le m p v else write32le m p v.

Definition ic_writeTo (c : ichunk) (buf : Z) (m : mem) : mem :=
  match c with
  | HintNameChunk n hint =>
      let m := memcpy m buf (repeat 0 (Z.to_nat (ic_getSize c))) in
      memcpy (write16le m buf hint) (buf + 2) (str_bytes n)
  | LookupChunk h => word_write m buf (rva h)
  | OrdinalOnlyChunk ord =>
      if id_is64 cfg then write64le m buf (2 ^ 63 ||| ord) else write32le m buf (2 ^ 31 ||| ord)
  | ImportDirectoryChunk n l a =>
      let m := memcpy m buf (repeat 0 20%nat) in
      write32le (write32le (write32le m buf (rva l)) (buf + 12) (rva n)) (buf + 16) (rva a)
  | NullChunk n => memcpy m buf (repeat 0 (Z.to_nat n))
  | AuxImportChunk f =>
      write64le m buf (match if_impchkThunk (files f) with Some t => t + id_imageBase cfg | None => 0 end)
  | StringChunk s => put_string s buf m
  end.

(** The sections in the order of [addSyntheticIdata]. *)
Definition addSyntheticIdata (D : idata) : list nat :=
  dirs D ++ lookups D ++ addresses D ++ hints D ++ dllNames D ++ auxIat D ++ auxIatCopy D.

Definition write_chunks (D : idata) (l : list nat) (m : mem) : mem :=
  fold_left (fun m c => match made D !! c with Some x => ic_writeTo x (rva c) m | None => m end) l m.

End Idata.
