(* ===== verification/ImportsProps.v ===== *)
(** * What the import tables guarantee (theorems on Imports.v)

    A loader that walks the tables of an image binds, for every import, the slot
    its symbol is located at, and no other. *)

From S2P Require Import Prelude Memory Imports.

#[local] Open Scope string_scope.
#[local] Open Scope list_scope.
#[local] Open Scope Z_scope.

(** ** A loader

    The directory is read entry by entry up to one without a name, the lookup
    table up to a null word. A binding is a slot of the address table and what the
    loader puts there. *)

Inductive import := ByOrdinal (ord : Z) | ByName (hint : Z) (name : string).

Definition entry_size (is64 : bool) : nat := if is64 then 8%nat else 4%nat.

Definition read_import (is64 : bool) (m : mem) (a : Z) : option import :=
  let v := read (entry_size is64) m a in
  if v =? 0 then None
  else if Z.testbit v (8 * Z.of_nat (entry_size is64) - 1) then Some (ByOrdinal (v &&& 65535))
  else Some (ByName (read16le m v) (cstring name_limit m (v + 2))).

Fixpoint read_imports (fuel : nat) (is64 : bool) (m : mem) (a : Z) : list import :=
  match fuel with
  | O => []
  | S fuel =>
      match read_import is64 m a with
      | Some i => i :: read_imports fuel is64 m (a + Z.of_nat (entry_size is64))
      | None => []
      end
  end.

Fixpoint bindings (fuel : nat) (is64 : bool) (m : mem) (dir : Z) : list (Z * (string * import)) :=
  match fuel with
  | O => []
  | S fuel' =>
      if read32le m (dir + 12) =? 0 then []
      else
        let dll := cstring name_limit m (read32le m (dir + 12)) in
        imap (fun i e => (read32le m (dir + 16) + Z.of_nat i * Z.of_nat (entry_size is64), (dll, e)))
          (read_imports fuel is64 m (read32le m dir)) ++
        bindings fuel' is64 m (dir + 20)
  end.

(** What a file imports. *)
Definition import_of (F : import_file) : import :=
  if String.eqb (if_externalName F) "" then ByOrdinal (if_ordinalHint F)
  else ByName (if_ordinalHint F) (if_externalName F).

(** ** The chunks made *)

Section Made.
  Context (cfg : idata_config) (files : nat -> import_file).
  Context (sort : (nat -> nat -> bool) -> list nat -> list nat).
  Context (Hsort : forall lt l, Permutation (sort lt l) l).
  Context (Hhybrid : id_hybrid cfg = false) (Harm64x : id_arm64x cfg = false).

(** Chunks, tables and locations only grow. *)
Record grows (D D' : idata) : Prop := {
  g_made : prefix (made D) (made D');
  g_dirs : prefix (dirs D) (dirs D');
  g_lookups : prefix (lookups D) (lookups D');
  g_addresses : prefix (addresses D) (addresses D');
  g_hints : prefix (hints D) (hints D');
  g_names : prefix (dllNames D) (dllNames D');
  g_hybrid : hybridFile D' = hybridFile D
}.

#[local] Instance grows_preorder : PreOrder grows.
Proof.
  split; [intros D; by split|]. intros D1 D2 D3 [] []. split; first [by etrans|congruence].
Qed.

Lemma grows_make c D : grows D (make c D).2.
Proof. split; try done. by apply prefix_app_r. Qed.

Lemma made_make c D : made (make c D).2 !! (make c D).1 = Some c.
Proof. cbn. by apply list_lookup_middle. Qed.

Lemma grows_lookup D D' c x : grows D D' -> made D !! c = Some x -> made D' !! c = Some x.
Proof. intros H Hc. eapply prefix_lookup_Some; [exact Hc|apply H]. Qed.

(** The chunk [c] is the entry of the import [f]. *)
Definition entry_at (D : idata) (c f : nat) : Prop :=
  let F := files f in
  if String.eqb (if_externalName F) "" then made D !! c = Some (OrdinalOnlyChunk (if_ordinalHint F))
  else exists h, made D !! c = Some (LookupChunk h) /\
         made D !! h = Some (HintNameChunk (if_externalName F) (if_ordinalHint F)) /\ h ∈ hints D.

Lemma entry_grows D D' c f : grows D D' -> entry_at D c f -> entry_at D' c f.
Proof.
  intros H. unfold entry_at. case_match; [by apply grows_lookup|]. intros (h & A & B & C). exists h.
  split; [by eapply grows_lookup|]. split; [by eapply grows_lookup|].
  destruct (g_hints _ _ H) as [l ->]. apply elem_of_app. by left.
Qed.

(** Nothing but locations of the auxiliary symbols is added. *)
Definition same_locations (D D' : idata) : Prop := forall f, location D' f ImpSym = location D f ImpSym.

Lemma location_set D f s c f' s' :
  location (setLocation f s c D) f' s' = if decide (f = f' /\ s = s') then Some c else location D f' s'.
Proof. unfold location, setLocation. cbn [set_locations locations]. by rewrite fold_left_app. Qed.

Lemma entry_chunks_spec f D l a h D' : entry_chunks files f D = (l, a, h, D') ->
  grows D D' /\ entry_at D' l f /\ entry_at D' a f /\ lookups D' = lookups D /\ addresses D' = addresses D /\
  dirs D' = dirs D /\ locations D' = locations D.
Proof.
  unfold entry_chunks, entry_at. destruct (String.eqb (if_externalName (files f)) "") eqn:E; cbn; intros [= <- <- <- <-].
  - repeat split; cbn; try done; rewrite ?length_app; cbn.
    + rewrite <- app_assoc. by apply prefix_app_r.
    + rewrite <- app_assoc. by apply list_lookup_middle.
    + rewrite list_lookup_middle; [done|]. rewrite length_app. done.
  - assert (M : forall x y z (l : list ichunk), ((l ++ [x]) ++ [y]) ++ [z] = l ++ [x; y; z]) by (intros; by rewrite <- !app_assoc).
    rewrite !length_app, !M. cbn.
    assert (L0 : forall x y z, (made D ++ [x; y; z]) !! length (made D) = Some x) by (intros; by apply list_lookup_middle).
    assert (L1 : forall x y z, (made D ++ [x; y; z]) !! (length (made D) + 1)%nat = Some y)
      by (intros; rewrite lookup_app_r by lia; by replace (length (made D) + 1 - length (made D))%nat with 1%nat by lia).
    assert (L2 : forall x y z, (made D ++ [x; y; z]) !! (length (made D) + 1 + 1)%nat = Some z)
      by (intros; rewrite lookup_app_r by lia; by replace (length (made D) + 1 + 1 - length (made D))%nat with 2%nat by lia).
    split; [split; cbn; try done; by apply prefix_app_r|].
    split; [|split; [|done]]; exists (length (made D)); (split; [done|split; [done|apply elem_of_app; right; apply list_elem_of_here]]).
Qed.

Lemma aux_chunks_spec f D n D' : aux_chunks cfg files f D = (n, D') ->
  grows D D' /\ lookups D' = lookups D /\ addresses D' = addresses D /\ dirs D' = dirs D /\ same_locations D D'.
Proof.
  unfold aux_chunks. rewrite Hhybrid. destruct (if_isEC (files f)); cbn; intros [= <- <-]; [|by repeat split].
  split; [split; cbn; try done; rewrite <- app_assoc; by apply prefix_app_r|].
  do 3 (split; [done|]). intros f'. rewrite location_set, decide_False by (by intros [_ ?]).
  unfold location. cbn. rewrite fold_left_app. cbn. by rewrite decide_False by (by intros [_ ?]).
Qed.

Lemma import_step_spec f n D : exists l a n' D',
  import_step cfg files (None, n, D) f = (None, n', D') /\ grows D D' /\ entry_at D' l f /\ entry_at D' a f /\
  lookups D' = lookups D ++ [l] /\ addresses D' = addresses D ++ [a] /\ dirs D' = dirs D /\ same_locations D D'.
Proof.
  unfold import_step. destruct (entry_chunks files f D) as [[[l a] h] D1] eqn:E1.
  destruct (entry_chunks_spec _ _ _ _ _ _ E1) as (A & B & C & E & F & G & H). rewrite Harm64x. cbn [andb].
  destruct (aux_chunks cfg files f _) as [nat D2] eqn:E2. apply aux_chunks_spec in E2 as (A2 & B2 & C2 & G2 & L2).
  assert (A' : grows D1 (push_address a (push_lookup l D1))).
  { split; try done; by apply prefix_app_r. }
  exists l, a, (if nat then n + 1 else n), D2. split; [done|]. split; [by etrans; [|etrans]|].
  split; [by eapply entry_grows; [etrans|]|]. split; [by eapply entry_grows; [etrans|]|].
  rewrite B2, C2, G2. cbn. rewrite E, F, G. do 3 (split; [done|]). intros f'. rewrite L2.
  unfold location. cbn. by rewrite H.
Qed.

Lemma group_steps g n D : exists ls as_ n' D',
  fold_left (import_step cfg files) g (None, n, D) = (None, n', D') /\ grows D D' /\
  Forall2 (entry_at D') ls g /\ Forall2 (entry_at D') as_ g /\
  lookups D' = lookups D ++ ls /\ addresses D' = addresses D ++ as_ /\ dirs D' = dirs D /\ same_locations D D'.
Proof.
  revert n D. induction g as [|f g IH]; intros n D.
  { exists [], [], n, D. rewrite !app_nil_r. repeat split; done || constructor. }
  cbn [fold_left]. destruct (import_step_spec f n D) as (l & a & n1 & D1 & -> & A & B & C & E & F & G & H).
  destruct (IH n1 D1) as (ls & as_ & n2 & D2 & -> & A2 & B2 & C2 & E2 & F2 & G2 & H2).
  exists (l :: ls), (a :: as_), n2, D2. split; [done|]. split; [by etrans|].
  split; [constructor; [by eapply entry_grows|done]|]. split; [constructor; [by eapply entry_grows|done]|].
  rewrite E2, F2, G2, E, F, G, <- !app_assoc. do 3 (split; [done|]). intros f'. by rewrite H2, H.
Qed.

(** The locations of a group. *)
Lemma set_locations_spec b g D : hybridFile D = ∅ -> NoDup g ->
  grows D (set_group_locations b g D) /\ made (set_group_locations b g D) = made D /\
  lookups (set_group_locations b g D) = lookups D /\ addresses (set_group_locations b g D) = addresses D /\
  dirs (set_group_locations b g D) = dirs D /\ dllNames (set_group_locations b g D) = dllNames D /\
  (forall f, f ∉ g -> location (set_group_locations b g D) f ImpSym = location D f ImpSym) /\
  (forall j f, g !! j = Some f -> location (set_group_locations b g D) f ImpSym = Some (nth (b + j) (addresses D) O)).
Proof.
  revert b D. induction g as [|f g IH]; intros b D Hh Hnd; [by repeat split|]. cbn [set_group_locations].
  apply NoDup_cons in Hnd as [Hf Hnd]. change (hybridFile (setLocation _ _ _ _)) with (hybridFile D). rewrite Hh.
  change ((∅ : gmap nat nat) !! f) with (None : option nat). cbv iota.
  set (D1 := setLocation f ImpSym (nth b (addresses D) O) D).
  destruct (IH (b + 1)%nat D1 Hh Hnd) as (A & B & C & E & F & G & H & I).
  rewrite B, C, E, F, G. split; [by etrans; [|exact A]|]. do 5 (split; [done|]). split.
  - intros f' Hf'. rewrite H by (intros Hin; apply Hf'; by apply list_elem_of_further). unfold D1. rewrite location_set.
    rewrite decide_False; [done|]. intros [-> _]. apply Hf', list_elem_of_here.
  - intros [|j] f' Hj.
    + injection Hj as <-. rewrite H by done. unfold D1. rewrite location_set, decide_True by done. by rewrite Nat.add_0_r.
    + rewrite (I j f' Hj). by rewrite <- Nat.add_assoc.
Qed.

(** A group of imports in the tables: at [k] in the directory, from [b] on in
    the lookup and address tables. *)
Record group_at (D : idata) (k b : nat) (g : list nat) : Prop := {
  ga_dir : exists d n lb ab, dirs D !! k = Some d /\ made D !! d = Some (ImportDirectoryChunk n lb ab) /\
    lookups D !! b = Some lb /\ addresses D !! b = Some ab /\ n ∈ dllNames D /\
    made D !! n = Some (StringChunk (if_dllName (files (nth 0 g O))));
  ga_entries : forall j f, g !! j = Some f -> exists l a, lookups D !! (b + j)%nat = Some l /\
    addresses D !! (b + j)%nat = Some a /\ entry_at D l f /\ location D f ImpSym = Some a;
  ga_end : exists nl, lookups D !! (b + length g)%nat = Some nl /\ made D !! nl = Some (null_word cfg)
}.

Lemma group_grows D D' k b g : grows D D' -> (forall f, f ∈ g -> location D' f ImpSym = location D f ImpSym) ->
  group_at D k b g -> group_at D' k b g.
Proof.
  intros H Hl [(d & n & lb & ab & H1 & H2 & H3 & H4 & H5 & H6) He (nl & H7 & H8)]. split.
  - exists d, n, lb, ab. repeat split.
    + eapply prefix_lookup_Some; [done|apply H].
    + by eapply grows_lookup.
    + eapply prefix_lookup_Some; [done|apply H].
    + eapply prefix_lookup_Some; [done|apply H].
    + destruct (g_names _ _ H) as [x ->]. apply elem_of_app. by left.
    + by eapply grows_lookup.
  - intros j f Hf. destruct (He j f Hf) as (l & a & A & B & C & E). exists l, a. repeat split.
    + eapply prefix_lookup_Some; [done|apply H].
    + eapply prefix_lookup_Some; [done|apply H].
    + by eapply entry_grows.
    + rewrite Hl; [done|]. by eapply list_elem_of_lookup_2.
  - exists nl. split; [eapply prefix_lookup_Some; [done|apply H]|by eapply grows_lookup].
Qed.

Lemma end_tables_spec D : exists nl na, grows D (end_tables cfg None D) /\
  lookups (end_tables cfg None D) = lookups D ++ [nl] /\ addresses (end_tables cfg None D) = addresses D ++ [na] /\
  dirs (end_tables cfg None D) = dirs D /\ locations (end_tables cfg None D) = locations D /\
  made (end_tables cfg None D) !! nl = Some (null_word cfg).
Proof.
  exists (length (made D)), (length (made D ++ [null_word cfg])).
  unfold end_tables. destruct (id_symtabEC cfg); cbn; rewrite <- !app_assoc.
  all: repeat split; cbn; try done; rewrite <- ?app_assoc; first [by apply prefix_app_r|by apply list_lookup_middle].
Qed.

Lemma add_directory_spec b n g D : (b < length (lookups D))%nat -> length (addresses D) = length (lookups D) ->
  let D' := add_directory cfg files b n g D in
  grows D D' /\ lookups D' = lookups D /\ addresses D' = addresses D /\ locations D' = locations D /\
  length (dirs D') = S (length (dirs D)) /\
  exists d s lb ab, dirs D' !! length (dirs D) = Some d /\ made D' !! d = Some (ImportDirectoryChunk s lb ab) /\
    lookups D' !! b = Some lb /\ addresses D' !! b = Some ab /\ s ∈ dllNames D' /\
    made D' !! s = Some (StringChunk (if_dllName (files (nth 0 g O)))).
Proof.
  intros Hb Hl D'. subst D'. unfold add_directory. cbn [make]. rewrite Hhybrid. cbn [andb make].
  split; [|split; [done|split; [done|split; [done|split]]]].
  - split; cbn; try done; rewrite <- ?app_assoc; by apply prefix_app_r.
  - cbn. rewrite length_app. cbn. lia.
  - destruct (lookup_lt_is_Some_2 (lookups D) b Hb) as [lb Hlb].
    destruct (lookup_lt_is_Some_2 (addresses D) b ltac:(lia)) as [ab Hab].
    rewrite !nth_lookup. cbn. rewrite Hlb, Hab. cbn.
    eexists _, (length (made D)), lb, ab. split; [by apply list_lookup_middle|]. split; [by apply list_lookup_middle|].
    split; [done|]. split; [done|]. split; [apply elem_of_app; right; apply list_elem_of_here|].
    rewrite <- app_assoc. by apply list_lookup_middle.
Qed.

Lemma create_group_spec D g : hybridFile D = ∅ -> NoDup g -> g <> [] -> length (addresses D) = length (lookups D) ->
  let D' := create_group cfg files D g in
  grows D D' /\ group_at D' (length (dirs D)) (length (lookups D)) g /\ length (dirs D') = S (length (dirs D)) /\
  length (lookups D') = (length (lookups D) + length g + 1)%nat /\ length (addresses D') = length (lookups D') /\
  (forall f, f ∉ g -> location D' f ImpSym = location D f ImpSym).
Proof.
  intros Hh Hnd Hne Hlen D'. subst D'. unfold create_group.
  destruct (group_steps g 0 D) as (ls & as_ & n' & D1 & -> & A1 & B1 & C1 & L1 & L2 & L3 & L4).
  pose proof (Forall2_length _ _ _ B1) as Hls. pose proof (Forall2_length _ _ _ C1) as Has.
  destruct (end_tables_spec D1) as (nl & na & A2 & M1 & M2 & M3 & M4 & M5). set (D2 := end_tables cfg None D1) in *.
  assert (Hh2 : hybridFile D2 = ∅) by (by rewrite (g_hybrid _ _ A2), (g_hybrid _ _ A1)).
  destruct (set_locations_spec (length (lookups D)) g D2 Hh2 Hnd) as (A3 & S1 & S2 & S3 & S4 & S5 & S6 & S7).
  set (D3 := set_group_locations (length (lookups D)) g D2) in *.
  assert (Elk : lookups D3 = lookups D ++ ls ++ [nl]) by (by rewrite S2, M1, L1, app_assoc).
  assert (Ead : addresses D3 = addresses D ++ as_ ++ [na]) by (by rewrite S3, M2, L2, app_assoc).
  assert (Hlen3 : length (addresses D3) = length (lookups D3)) by (rewrite Elk, Ead, !length_app; cbn; lia).
  destruct (add_directory_spec (length (lookups D)) n' g D3) as (A4 & T1 & T2 & T3 & T4 & d & s & lb & ab & T5);
    [rewrite Elk, !length_app; cbn; lia|done|].
  set (D4 := add_directory cfg files (length (lookups D)) n' g D3) in *.
  assert (A14 : grows D1 D4) by (etrans; [exact A2|etrans; [exact A3|exact A4]]).
  assert (Edirs : length (dirs D3) = length (dirs D)) by (by rewrite S4, M3, L3).
  assert (Eloc : forall f, location D4 f ImpSym = location D3 f ImpSym) by (intros f; unfold location; by rewrite T3).
  split; [by etrans|]. split; [|split; [lia|split; [|split]]].
  - split.
    + rewrite Edirs in T5. by exists d, s, lb, ab.
    + intros j f Hj. destruct (Forall2_lookup_r _ _ _ _ _ B1 Hj) as (l & Hl & He).
      destruct (Forall2_lookup_r _ _ _ _ _ C1 Hj) as (a & Ha & _). exists l, a.
      pose proof (lookup_lt_Some _ _ _ Hl) as Hlt. pose proof (lookup_lt_Some _ _ _ Ha) as Hlt'.
      assert (Hadr : addresses D3 !! (length (lookups D) + j)%nat = Some a).
      { rewrite Ead, lookup_app_r by lia. replace (length (lookups D) + j - length (addresses D))%nat with j by lia.
        by rewrite lookup_app_l. }
      rewrite T1, T2. split; [|split; [done|split]].
      * rewrite Elk, lookup_app_r by lia. replace (length (lookups D) + j - length (lookups D))%nat with j by lia.
        by rewrite lookup_app_l.
      * by eapply entry_grows.
      * rewrite Eloc, (S7 j f Hj), nth_lookup, <- S3, Hadr. done.
    + exists nl. rewrite T1, Elk, lookup_app_r by lia. replace (length (lookups D) + length g - length (lookups D))%nat with (length g) by lia.
      split; [rewrite lookup_app_r by lia; by replace (length g - length ls)%nat with O by lia|].
      eapply grows_lookup; [|exact M5]. by etrans.
  - rewrite T1, Elk, !length_app. cbn. lia.
  - by rewrite T1, T2.
  - intros f Hf. rewrite Eloc, (S6 f Hf). unfold location. rewrite M4. apply L4.
Qed.

(** The position of the [k]th group in the tables. *)
Definition base_of (v : list (list nat)) (k : nat) : nat := (length (concat (take k v)) + k)%nat.

Lemma create_groups_spec v D : hybridFile D = ∅ -> NoDup (concat v) -> Forall (fun g => g <> []) v ->
  length (addresses D) = length (lookups D) ->
  let D' := fold_left (create_group cfg files) v D in
  grows D D' /\ length (dirs D') = (length (dirs D) + length v)%nat /\
  (forall f, f ∉ concat v -> location D' f ImpSym = location D f ImpSym) /\
  forall k g, v !! k = Some g -> group_at D' (length (dirs D) + k) (length (lookups D) + base_of v k) g.
Proof.
  revert D. induction v as [|g v IH]; intros D Hh Hnd Hne Hlen D'.
  { split; [done|]. split; [cbn; lia|]. done. }
  cbn in Hnd. apply NoDup_app in Hnd as (Hg & Hdisj & Hnd). apply Forall_cons in Hne as [Hgne Hne].
  destruct (create_group_spec D g Hh Hg Hgne Hlen) as (A & B & C & E & F & G). subst D'. cbn [fold_left].
  set (D1 := create_group cfg files D g) in *.
  destruct (IH D1) as (A2 & B2 & C2 & E2); [by rewrite (g_hybrid _ _ A)|done|done|done|].
  set (D2 := fold_left _ v D1) in *. split; [by etrans|]. split; [rewrite B2, C; cbn; lia|]. split.
  - intros f Hf. cbn in Hf. rewrite C2, G; [done| |]; intros Hin; apply Hf, elem_of_app; auto.
  - intros [|k] g' Hk.
    + injection Hk as <-. unfold base_of. cbn. rewrite !Nat.add_0_r. eapply group_grows; [done| |exact B].
      intros f Hf. apply C2. by apply Hdisj.
    + specialize (E2 k g' Hk). rewrite C, E in E2. unfold base_of in *. cbn [take concat length].
      rewrite length_app. replace (length (dirs D) + S k)%nat with (S (length (dirs D)) + k)%nat by lia.
      by replace (length (lookups D) + (length g + length (concat (take k v)) + S k))%nat
        with (length (lookups D) + length g + 1 + (length (concat (take k v)) + k))%nat by lia.
Qed.

(** ** Grouping *)

Lemma bin_insert_perm k f m : Permutation (concat (map snd (bin_insert k f m))) (f :: concat (map snd m)).
Proof.
  induction m as [|[k' g] m IH]; [done|]. cbn [bin_insert]. case_match; [done|]. case_match; cbn.
  - rewrite IH. symmetry. apply Permutation_middle.
  - rewrite <- app_assoc. symmetry. cbn. apply Permutation_middle.
Qed.

Lemma bin_insert_groups (key : nat -> Z) f m :
  Forall (fun x => x.2 <> [] /\ forall f, f ∈ x.2 -> key f = x.1) m ->
  Forall (fun x => x.2 <> [] /\ forall f, f ∈ x.2 -> key f = x.1) (bin_insert (key f) f m).
Proof.
  assert (H1 : (fun x : Z * list nat => x.2 <> [] /\ forall f, f ∈ x.2 -> key f = x.1) (key f, [f])).
  { split; [done|]. by intros f' ->%list_elem_of_singleton. }
  induction m as [|[k g] m IH]; intros H; [by constructor|]. apply Forall_cons in H as [[Hg Hk] H]. cbn [bin_insert].
  destruct (Z.ltb_spec (key f) k); [constructor; [done|by constructor]|]. destruct (Z.ltb_spec k (key f)).
  - constructor; [done|]. by apply IH.
  - constructor; [|done]. cbn in *. split; [by destruct g|]. intros f' [Hf| ->%list_elem_of_singleton]%elem_of_app; [by apply Hk|lia].
Qed.

Lemma binImports_spec o imports :
  Permutation (concat (binImports files sort o imports)) imports /\
  Forall (fun g => g <> [] /\ forall f f', f ∈ g -> f' ∈ g ->
    default 0 (o !! dll_of files f) = default 0 (o !! dll_of files f')) (binImports files sort o imports).
Proof.
  unfold binImports. set (key := fun f => default 0 (o !! dll_of files f)).
  assert (Hm : forall l m, Forall (fun x => x.2 <> [] /\ forall f, f ∈ x.2 -> key f = x.1) m ->
    let m' := fold_left (fun m f => bin_insert (key f) f m) l m in
    Permutation (concat (map snd m')) (l ++ concat (map snd m)) /\
    Forall (fun x => x.2 <> [] /\ forall f, f ∈ x.2 -> key f = x.1) m').
  { induction l as [|f l IH]; intros m Hm; [done|]. cbn. destruct (IH (bin_insert (key f) f m)) as [A B]; [by apply bin_insert_groups|].
    split; [|done]. rewrite A, bin_insert_perm. symmetry. apply Permutation_middle. }
  destruct (Hm imports [] (Forall_nil_2 _)) as [A B]. cbn in A. rewrite app_nil_r in A.
  set (m := fold_left _ imports []) in *. split.
  - rewrite <- A. clear -Hsort. induction m as [|[k g] m IH]; [done|]. cbn. by rewrite IH, Hsort.
  - apply Forall_map. eapply Forall_impl; [exact B|]. intros [k g] [Hne Hk]. cbn in *. split.
    + intros E. pose proof (Hsort (base_lt files) g) as Hp. rewrite E in Hp. by apply Permutation_nil in Hp.
    + intros f f' Hf Hf'. rewrite Hsort in Hf, Hf'. change (key f = key f'). rewrite (Hk f Hf). by rewrite (Hk f' Hf').
Qed.

(** The DLLs are numbered apart. *)
Definition order_ok (o : dllOrder) : Prop :=
  (forall a b x, o !! a = Some x -> o !! b = Some x -> a = b) /\ forall a x, o !! a = Some x -> 0 <= x < Z.of_nat (size o).

Lemma order_dll_ok o d : order_ok o -> order_ok (order_dll o d) /\ is_Some (order_dll o d !! d) /\
  forall d', is_Some (o !! d') -> order_dll o d !! d' = o !! d'.
Proof.
  intros [Hi Hr]. unfold order_dll. destruct (o !! d) as [x|] eqn:E; [split; [done|split; [by eexists|done]]|].
  split; [|split; [by rewrite lookup_insert_eq|]].
  - split.
    + intros a b x. rewrite !lookup_insert_Some. intros [[<- <-]|[Ha Ha']] [[<- Hb]|[Hb Hb']]; [done| | |by eapply Hi].
      * apply Hr in Hb'. lia.
      * subst x. apply Hr in Ha'. lia.
    + intros a x. rewrite map_size_insert_None by done. rewrite lookup_insert_Some. intros [[<- <-]|[_ H]]; [lia|].
      apply Hr in H. lia.
  - intros d' [y Hy]. rewrite lookup_insert_ne; [done|]. by intros ->; rewrite E in Hy.
Qed.

Lemma createImportTables_spec delay l : forall o delayed now o' delayed' now',
  createImportTables files delay l o delayed now = Some (o', delayed', now') ->
  order_ok o -> (forall f, f ∈ now -> is_Some (o !! dll_of files f)) ->
  order_ok o' /\ (forall f, f ∈ now' -> is_Some (o' !! dll_of files f)) /\
  now' = now ++ List.filter (fun f => if_live (files f) && negb (existsb (String.eqb (dll_of files f)) delay)) l.
Proof.
  induction l as [|f l IH]; intros o delayed now o' delayed' now' H Ho Hn; cbn in H.
  { injection H as <- <- <-. by rewrite app_nil_r. }
  destruct (if_live (files f)) eqn:El; cbn [negb] in H; cbn [List.filter]; rewrite El; cbn [andb]; [|by apply (IH _ _ _ _ _ _ H)].
  destruct (order_dll_ok o (dll_of files f) Ho) as (A & B & C).
  assert (Hn' : forall f', f' ∈ now -> is_Some (order_dll o (dll_of files f) !! dll_of files f')).
  { intros f' Hf'. rewrite C; by apply Hn. }
  destruct (if_impReplaced (files f)); [done|]. destruct (existsb _ delay); cbn [negb].
  - destruct (if_thunkSym (files f)); [|done]. by apply (IH _ _ _ _ _ _ H).
  - destruct (IH _ _ _ _ _ _ H A) as (A2 & B2 & ->).
    { intros f' [Hf'| ->%list_elem_of_singleton]%elem_of_app; [by apply Hn'|done]. }
    split; [done|]. rewrite <- app_assoc in B2 |- *. by split.
Qed.

(** ** The tables in memory *)

Context (rva : nat -> Z) (Hword : id_wordsize cfg = Z.of_nat (entry_size (id_is64 cfg))).

#[local] Abbreviation chunk_writes := (ic_writeTo cfg files rva).
#[local] Abbreviation size_of := (ic_getSize cfg).

Lemma word_write_eq m p v : word_write cfg m p v = write (entry_size (id_is64 cfg)) m p v.
Proof. unfold word_write. by destruct (id_is64 cfg). Qed.

Lemma hint_name_size n : Z.of_nat (String.length n) + 3 <= alignTo (Z.of_nat (String.length n) + 3) 2.
Proof.
  unfold alignTo. pose proof (Z.div_mod (Z.of_nat (String.length n) + 3 + 2 - 1) 2 ltac:(lia)).
  pose proof (Z.mod_pos_bound (Z.of_nat (String.length n) + 3 + 2 - 1) 2 ltac:(lia)). lia.
Qed.

Lemma ic_frame c buf m x : x < buf \/ buf + size_of c <= x -> chunk_writes c buf m x = m x.
Proof.
  intros H. destruct c as [n h|h|o|n l a|n|f|s]; cbn [ic_writeTo ic_getSize] in *.
  - pose proof (hint_name_size n) as Hsz.
    rewrite memcpy_other by (rewrite length_str_bytes; lia). rewrite write_other by lia.
    apply memcpy_other. rewrite repeat_length. lia.
  - rewrite word_write_eq. apply write_other. lia.
  - rewrite Hword in H. destruct (id_is64 cfg); apply write_other; cbn in H; lia.
  - rewrite !write_other by lia. apply memcpy_other. rewrite repeat_length. lia.
  - apply memcpy_other. rewrite repeat_length. lia.
  - apply write_other. lia.
  - unfold put_string. apply memcpy_other. rewrite length_app, length_str_bytes. cbn. lia.
Qed.

(** What is read where a chunk was written. *)
Definition written_at (image : mem) (p : Z) (c : ichunk) : Prop :=
  exists m', forall a, p <= a < p + size_of c -> image a = chunk_writes c p m' a.

Lemma hint_name_at image p n h : written_at image p (HintNameChunk n h) -> 0 <= h < 2 ^ 16 ->
  no_nul n -> (String.length n < name_limit)%nat -> read16le image p = h /\ cstring name_limit image (p + 2) = n.
Proof.
  intros [m' Hm'] Hh Hn Hl. pose proof (hint_name_size n) as Hsz. cbn [ic_getSize ic_writeTo] in Hm'. split.
  - rewrite (read_ext 2 _ (write16le (memcpy m' p (repeat 0 (Z.to_nat (ic_getSize cfg (HintNameChunk n h))))) p h) _ p).
    + rewrite read_write. by apply wrap_small.
    + intros k Hk. rewrite Hm' by lia. apply memcpy_other. lia.
  - apply cstring_has; [|done|done]. intros k Hk. rewrite Hm' by lia.
    destruct (decide (k = String.length n)) as [->|].
    + rewrite memcpy_other by (rewrite length_str_bytes; lia). rewrite write_other by lia.
      rewrite app_nth2, length_str_bytes, Nat.sub_diag by (rewrite length_str_bytes; lia). cbn [nth].
      replace (p + 2 + Z.of_nat (String.length n)) with (p + Z.of_nat (2 + String.length n)) by lia.
      rewrite memcpy_byte by (rewrite repeat_length; lia). by rewrite nth_repeat.
    + rewrite memcpy_byte by (rewrite length_str_bytes; lia). by rewrite app_nth1 by (rewrite length_str_bytes; lia).
Qed.

Lemma string_at image p s : written_at image p (StringChunk s) -> no_nul s -> (String.length s < name_limit)%nat ->
  cstring name_limit image p = s.
Proof.
  intros [m' Hm'] Hn Hl. apply cstring_has; [|done|done]. intros k Hk. rewrite Hm' by (cbn [ic_getSize]; lia). by apply has_put.
Qed.

Lemma ordinal_word b ord : 16 <= b -> 0 <= ord < 2 ^ 16 ->
  let v := wrap (b + 1) (2 ^ b ||| ord) in Z.testbit v b = true /\ v &&& 65535 = ord.
Proof.
  intros Hb Ho v. assert (Hbit : forall n, 0 <= n < b + 1 -> Z.testbit v n = (n =? b) || Z.testbit ord n).
  { intros n Hn. unfold v, wrap. rewrite Z.mod_pow2_bits_low by lia. rewrite Z.lor_spec. f_equal.
    destruct (Z.eqb_spec n b) as [->|]; [apply Z.pow2_bits_true; lia|apply Z.pow2_bits_false; lia]. }
  split; [by rewrite Hbit, Z.eqb_refl by lia|]. apply Z.bits_inj'. intros n Hn.
  change 65535 with (Z.ones 16). rewrite Z.land_spec. destruct (Z.ltb_spec n 16).
  - rewrite Z.ones_spec_low, Hbit by lia. destruct (Z.eqb_spec n b); [lia|]. by rewrite andb_true_r.
  - rewrite Z.ones_spec_high by lia. rewrite andb_false_r. symmetry. apply Z.bits_above_log2; [lia|].
    destruct (decide (ord = 0)) as [->|]; [cbn; lia|]. assert (Z.log2 ord < 16) by (apply Z.log2_lt_pow2; lia). lia.
Qed.

Lemma ordinal_at image p ord : written_at image p (OrdinalOnlyChunk ord) -> 0 <= ord < 2 ^ 16 ->
  read_import (id_is64 cfg) image p = Some (ByOrdinal ord).
Proof.
  intros [m' Hm'] Ho. unfold read_import. set (w := entry_size (id_is64 cfg)) in *. cbn [ic_getSize] in Hm'.
  assert (Hw : 32 <= 8 * Z.of_nat w) by (unfold w; destruct (id_is64 cfg); cbn; lia).
  assert (E : read w image p = wrap (8 * Z.of_nat w - 1 + 1) (2 ^ (8 * Z.of_nat w - 1) ||| ord)).
  { rewrite (read_ext w _ (chunk_writes (OrdinalOnlyChunk ord) p m') p p) by (intros; apply Hm'; lia).
    rewrite Z.sub_add. unfold w. cbn [ic_writeTo]. destruct (id_is64 cfg); apply read_write. }
  rewrite E. destruct (ordinal_word (8 * Z.of_nat w - 1) ord ltac:(lia) Ho) as [H1 H2].
  set (v := wrap _ _) in *. destruct (Z.eqb_spec v 0) as [Ev|_]; [by rewrite Ev, Z.bits_0 in H1|]. by rewrite H1, H2.
Qed.

Lemma lookup_at image p h : written_at image p (LookupChunk h) -> 0 < rva h < 2 ^ 31 ->
  read_import (id_is64 cfg) image p = Some (ByName (read16le image (rva h)) (cstring name_limit image (rva h + 2))).
Proof.
  intros [m' Hm'] Hh. unfold read_import. set (w := entry_size (id_is64 cfg)) in *. cbn [ic_getSize] in Hm'.
  assert (Hw : 32 <= 8 * Z.of_nat w) by (unfold w; destruct (id_is64 cfg); cbn; lia).
  assert (E : read w image p = rva h).
  { rewrite (read_ext w _ (chunk_writes (LookupChunk h) p m') p p) by (intros; apply Hm'; lia).
    cbn [ic_writeTo]. rewrite word_write_eq, read_write. apply wrap_small. split; [lia|].
    etrans; [apply Hh|]. apply Z.pow_lt_mono_r; lia. }
  rewrite E. destruct (Z.eqb_spec (rva h) 0); [lia|]. rewrite Z.bits_above_log2; [done|lia|].
  assert (Z.log2 (rva h) < 31) by (apply Z.log2_lt_pow2; lia). lia.
Qed.

(** Where the chunks are: each table in one piece and in order, all chunks apart,
    at 31-bit addresses that are not zero. *)
Record placed_imports (D : idata) (dir lk ad : Z) : Prop := {
  pi_dirs : forall i c, dirs D !! i = Some c -> rva c = dir + 20 * Z.of_nat i;
  pi_lookups : forall i c, lookups D !! i = Some c -> rva c = lk + id_wordsize cfg * Z.of_nat i;
  pi_addresses : forall i c, addresses D !! i = Some c -> rva c = ad + id_wordsize cfg * Z.of_nat i;
  pi_apart : forall c c' x x', c ∈ addSyntheticIdata D -> c' ∈ addSyntheticIdata D -> c <> c' ->
    made D !! c = Some x -> made D !! c' = Some x' -> rva c + size_of x <= rva c' \/ rva c' + size_of x' <= rva c;
  pi_range : forall c, c ∈ addSyntheticIdata D -> 0 < rva c < 2 ^ 31
}.

Context (D : idata) (dir lk ad : Z) (Hplaced : placed_imports D dir lk ad) (m : mem).

#[local] Abbreviation image := (write_chunks cfg files rva D (addSyntheticIdata D) m).

(** A chunk is in the image as it was written. *)
Lemma chunk_written c x : c ∈ addSyntheticIdata D -> made D !! c = Some x ->
  exists m', forall a, rva c <= a < rva c + size_of x -> image a = chunk_writes x (rva c) m' a.
Proof.
  intros Hc Hx. unfold write_chunks. assert (Hl : addSyntheticIdata D ⊆ addSyntheticIdata D) by done. revert Hl Hc.
  generalize (addSyntheticIdata D) at 1 3 4 as l. induction l as [|y l IH] using rev_ind; [by intros _ ?%elem_of_nil|].
  intros Hl Hc. rewrite fold_left_app. cbn [fold_left].
  assert (Hy : y ∈ addSyntheticIdata D) by (apply Hl, elem_of_app; right; apply list_elem_of_here).
  destruct (decide (c = y)) as [<-|Hne].
  - rewrite Hx. by eexists.
  - apply elem_of_app in Hc as [Hc| ->%list_elem_of_singleton]; [|done].
    destruct (IH ltac:(intros z Hz; apply Hl, elem_of_app; by left) Hc) as [m' Hm']. exists m'. intros a Ha. rewrite <- Hm' by done.
    destruct (made D !! y) as [x'|] eqn:Ey; [|done]. apply ic_frame.
    assert (Hcin : c ∈ addSyntheticIdata D) by (apply Hl, elem_of_app; by left).
    destruct (pi_apart _ _ _ _ Hplaced c y x x' Hcin Hy Hne Hx Ey); lia.
Qed.

Lemma read_chunk n c x k : c ∈ addSyntheticIdata D -> made D !! c = Some x -> 0 <= k -> k + Z.of_nat n <= size_of x ->
  exists m', read n image (rva c + k) = read n (chunk_writes x (rva c) m') (rva c + k).
Proof.
  intros Hc Hx Hk Hn. destruct (chunk_written c x Hc Hx) as [m' Hm']. exists m'. apply read_ext. intros j Hj. apply Hm'. lia.
Qed.

Lemma read_null c n k s : c ∈ addSyntheticIdata D -> made D !! c = Some (NullChunk s) -> 0 <= k -> k + Z.of_nat n <= s ->
  read n image (rva c + k) = 0.
Proof.
  intros Hc Hx Hk Hn. destruct (read_chunk n c _ k Hc Hx Hk Hn) as [m' ->]. cbn [ic_writeTo].
  replace k with (Z.of_nat (Z.to_nat k)) by lia. rewrite read_memcpy by (rewrite repeat_length; lia).
  assert (Hz : forall l, Forall (fun b => b = 0) l -> le_value l = 0).
  { induction 1 as [|b l -> _ IH]; cbn; lia. }
  apply Hz. apply Forall_take, Forall_drop. apply Forall_forall. intros b Hb%list_elem_of_In. by apply repeat_spec in Hb.
Qed.

(** ** The tables read back *)

Lemma in_lookups i c : lookups D !! i = Some c -> c ∈ addSyntheticIdata D.
Proof. intros H%list_elem_of_lookup_2. unfold addSyntheticIdata. rewrite !elem_of_app. auto. Qed.
Lemma in_dirs i c : dirs D !! i = Some c -> c ∈ addSyntheticIdata D.
Proof. intros H%list_elem_of_lookup_2. unfold addSyntheticIdata. rewrite !elem_of_app. auto. Qed.
Lemma in_hints c : c ∈ hints D -> c ∈ addSyntheticIdata D.
Proof. intros H. unfold addSyntheticIdata. rewrite !elem_of_app. auto 6. Qed.
Lemma in_names c : c ∈ dllNames D -> c ∈ addSyntheticIdata D.
Proof. intros H. unfold addSyntheticIdata. rewrite !elem_of_app. auto 7. Qed.

Definition fits (F : import_file) : Prop :=
  0 <= if_ordinalHint F < 2 ^ 16 /\ no_nul (if_externalName F) /\ (String.length (if_externalName F) < name_limit)%nat /\
  no_nul (if_dllName F) /\ (String.length (if_dllName F) < name_limit)%nat.

Lemma word_bits : 8 * Z.of_nat (entry_size (id_is64 cfg)) = if id_is64 cfg then 64 else 32.
Proof. by destruct (id_is64 cfg). Qed.

Lemma rva_word c n : c ∈ addSyntheticIdata D -> 31 < n -> wrap n (rva c) = rva c.
Proof.
  intros Hc Hn. apply wrap_small. pose proof (pi_range _ _ _ _ Hplaced c Hc).
  split; [lia|]. etrans; [apply H|]. apply Z.pow_lt_mono_r; lia.
Qed.

Lemma name_read c s : c ∈ addSyntheticIdata D -> made D !! c = Some (StringChunk s) -> no_nul s ->
  (String.length s < name_limit)%nat -> cstring name_limit image (rva c) = s.
Proof. intros Hc Hx. apply string_at. exact (chunk_written c _ Hc Hx). Qed.

Lemma entry_read i c f : lookups D !! i = Some c -> entry_at D c f -> fits (files f) ->
  read_import (id_is64 cfg) image (rva c) = Some (import_of (files f)).
Proof.
  intros Hi He (Ho & Hn & Hl & _). pose proof (in_lookups i c Hi) as Hc. unfold entry_at, import_of in *.
  destruct (String.eqb (if_externalName (files f)) ""); [apply ordinal_at; [exact (chunk_written c _ Hc He)|done]|].
  destruct He as (h & He & Hh & Hin). pose proof (in_hints h Hin) as Hhc.
  rewrite (lookup_at _ _ h (chunk_written c _ Hc He) (pi_range _ _ _ _ Hplaced h Hhc)).
  by destruct (hint_name_at _ _ _ _ (chunk_written h _ Hhc Hh) Ho Hn Hl) as [-> ->].
Qed.

Lemma null_read i c : lookups D !! i = Some c -> made D !! c = Some (null_word cfg) ->
  read_import (id_is64 cfg) image (rva c) = None.
Proof.
  intros Hi Hx. unfold read_import. pose proof (read_null c (entry_size (id_is64 cfg)) 0 _ (in_lookups i c Hi) Hx) as H.
  rewrite Z.add_0_r in H. rewrite H; [done|lia|lia].
Qed.

(** The lookup table of a group. *)
Lemma group_imports k b g fuel : group_at D k b g -> (forall f, f ∈ g -> fits (files f)) -> (length g < fuel)%nat ->
  read_imports fuel (id_is64 cfg) image (lk + id_wordsize cfg * Z.of_nat b) = map (fun f => import_of (files f)) g.
Proof.
  intros [_ He (nl & Hnl & Hnull)] Hf Hfuel.
  assert (H : forall j fuel, (j <= length g)%nat -> (length g - j < fuel)%nat ->
    read_imports fuel (id_is64 cfg) image (lk + id_wordsize cfg * Z.of_nat (b + j)) = map (fun f => import_of (files f)) (drop j g)).
  { intros j fl. revert j. induction fl as [|fl IH]; intros j Hj Hfl; [lia|]. cbn [read_imports].
    destruct (decide (j = length g)) as [->|].
    - rewrite drop_all. rewrite <- (pi_lookups _ _ _ _ Hplaced _ _ Hnl). by rewrite (null_read _ _ Hnl Hnull).
    - destruct (lookup_lt_is_Some_2 g j ltac:(lia)) as [f Hg]. destruct (He j f Hg) as (l & a & Hl & _ & Hent & _).
      rewrite <- (pi_lookups _ _ _ _ Hplaced _ _ Hl), (entry_read _ _ _ Hl Hent) by (apply Hf; by eapply list_elem_of_lookup_2).
      rewrite (drop_S _ _ _ Hg). cbn [map]. f_equal. rewrite (pi_lookups _ _ _ _ Hplaced _ _ Hl).
      rewrite <- IH by lia. f_equal. rewrite Hword. lia. }
  specialize (H O fuel ltac:(lia) ltac:(lia)). by rewrite Nat.add_0_r, drop_0 in H.
Qed.

(** The directory. *)
Lemma directory_read i c n l a : dirs D !! i = Some c -> made D !! c = Some (ImportDirectoryChunk n l a) ->
  n ∈ addSyntheticIdata D -> l ∈ addSyntheticIdata D -> a ∈ addSyntheticIdata D ->
  read32le image (rva c) = rva l /\ read32le image (rva c + 12) = rva n /\ read32le image (rva c + 16) = rva a.
Proof.
  intros Hi Hx Hn Hl Ha. pose proof (in_dirs i c Hi) as Hc. split; [|split].
  - destruct (read_chunk 4 c _ 0 Hc Hx ltac:(lia)) as [m' Hr]; [cbn [ic_getSize]; lia|]. rewrite Z.add_0_r in Hr. rewrite Hr.
    cbn [ic_writeTo]. rewrite !(read_write_other 4 4) by lia. rewrite read_write. by apply rva_word.
  - destruct (read_chunk 4 c _ 12 Hc Hx ltac:(lia)) as [m' Hr]; [cbn [ic_getSize]; lia|]. rewrite Hr.
    cbn [ic_writeTo]. rewrite (read_write_other 4 4) by lia. rewrite read_write. by apply rva_word.
  - destruct (read_chunk 4 c _ 16 Hc Hx ltac:(lia)) as [m' Hr]; [cbn [ic_getSize]; lia|]. rewrite Hr.
    cbn [ic_writeTo]. rewrite read_write. by apply rva_word.
Qed.

(** What the loader is to bind: the groups from position [b] on. *)
Fixpoint expected (v : list (list nat)) (b : nat) : list (Z * (string * import)) :=
  match v with
  | [] => []
  | g :: v =>
      imap (fun j f => (ad + id_wordsize cfg * Z.of_nat (b + j), (if_dllName (files (nth 0 g O)), import_of (files f)))) g ++
      expected v (b + length g + 1)
  end.

Lemma bindings_spec v fuel : (forall k g, v !! k = Some g -> g <> [] /\ group_at D k (base_of v k) g) ->
  (exists c, dirs D !! length v = Some c /\ made D !! c = Some (NullChunk 20)) ->
  (forall f, f ∈ concat v -> fits (files f)) -> (length v + length (concat v) < fuel)%nat ->
  bindings fuel (id_is64 cfg) image dir = expected v 0.
Proof.
  intros Hv (c0 & Hc0 & Hx0) Hf Hfuel.
  assert (H : forall k fuel, (k <= length v)%nat -> (length (drop k v) + length (concat (drop k v)) < fuel)%nat ->
    bindings fuel (id_is64 cfg) image (dir + 20 * Z.of_nat k) = expected (drop k v) (base_of v k)).
  { intros k fl. revert k. induction fl as [|fl IH]; intros k Hk Hfl; [lia|]. cbn [bindings].
    destruct (decide (k = length v)) as [->|].
    - rewrite drop_all. rewrite <- (pi_dirs _ _ _ _ Hplaced _ _ Hc0).
      by rewrite (read_null c0 4 12 _ (in_dirs _ _ Hc0) Hx0) by lia.
    - destruct (lookup_lt_is_Some_2 v k ltac:(lia)) as [g Hg]. destruct (Hv k g Hg) as [Hne Hga].
      rewrite (drop_S _ _ _ Hg) in Hfl |- *. cbn [concat length expected] in Hfl |- *. rewrite length_app in Hfl.
      assert (Hgc : forall f, f ∈ g -> f ∈ concat v).
      { intros f Hfg. apply list_elem_of_In, in_concat. exists g. split; apply list_elem_of_In; [by eapply list_elem_of_lookup_2|done]. }
      destruct (ga_dir _ _ _ _ Hga) as (d & nm & lb & ab & Hd & Hxd & Hlb & Hab & Hn & Hxn).
      assert (Hina : ab ∈ addSyntheticIdata D).
      { apply list_elem_of_lookup_2 in Hab. unfold addSyntheticIdata. rewrite !elem_of_app. auto. }
      destruct (directory_read _ _ _ _ _ Hd Hxd (in_names _ Hn) (in_lookups _ _ Hlb) Hina) as (R1 & R2 & R3).
      rewrite (pi_dirs _ _ _ _ Hplaced _ _ Hd) in R1, R2, R3. rewrite R1, R2, R3.
      pose proof (pi_range _ _ _ _ Hplaced nm (in_names _ Hn)). destruct (Z.eqb_spec (rva nm) 0); [lia|].
      destruct g as [|f0 g'] eqn:Eg; [done|]. rewrite <- Eg in *.
      assert (Hf0 : f0 ∈ g) by (rewrite Eg; apply list_elem_of_here).
      destruct (Hf f0 (Hgc f0 Hf0)) as (_ & _ & _ & Hdn & Hdl).
      rewrite (name_read nm _ (in_names _ Hn) Hxn); [|by rewrite Eg|by rewrite Eg].
      rewrite (pi_lookups _ _ _ _ Hplaced _ _ Hlb), (group_imports k _ g); [|done|intros; by apply Hf, Hgc|lia]. f_equal.
      + rewrite imap_fmap. apply imap_ext. intros j f Hj. cbn. f_equal.
        rewrite (pi_addresses _ _ _ _ Hplaced _ _ Hab), Hword. lia.
      + replace (dir + 20 * Z.of_nat k + 20) with (dir + 20 * Z.of_nat (S k)) by lia. rewrite IH by lia. f_equal.
        unfold base_of. rewrite (take_S_r _ _ _ Hg), concat_app, length_app. cbn. rewrite app_nil_r. lia. }
  specialize (H O fuel ltac:(lia)). rewrite drop_0 in H. replace (dir + 20 * Z.of_nat 0) with dir in H by lia. by apply H.
Qed.

Lemma expected_length v b : length (expected v b) = length (concat v).
Proof. revert b. induction v as [|g v IH]; intros b; cbn; [done|]. by rewrite !length_app, length_imap, IH. Qed.

Lemma expected_in v b k g j f : v !! k = Some g -> g !! j = Some f ->
  (ad + id_wordsize cfg * Z.of_nat (b + base_of v k + j), (if_dllName (files (nth 0 g O)), import_of (files f))) ∈ expected v b.
Proof.
  revert b k. induction v as [|g' v IH]; intros b k Hk Hj; [done|]. destruct k as [|k]; cbn [expected]; apply elem_of_app.
  - injection Hk as ->. left. apply elem_of_lookup_imap. exists j, f. split; [|done]. unfold base_of. cbn. by rewrite !Nat.add_0_r.
  - right. specialize (IH (b + length g' + 1)%nat k Hk Hj). unfold base_of in *. cbn [take concat]. rewrite length_app.
    by replace (b + (length g' + length (concat (take k v)) + S k) + j)%nat
      with (b + length g' + 1 + (length (concat (take k v)) + k) + j)%nat by lia.
Qed.

Lemma expected_slots v b : 0 < id_wordsize cfg -> NoDup (map fst (expected v b)) /\
  forall x, x ∈ map fst (expected v b) -> ad + id_wordsize cfg * Z.of_nat b <= x.
Proof.
  intros Hw. revert b. induction v as [|g v IH]; intros b; cbn [expected]; [split; [constructor|by intros x ?%elem_of_nil]|].
  destruct (IH (b + length g + 1)%nat) as [A B]. rewrite map_app.
  assert (Hin : forall x, x ∈ map fst (imap (fun j f => (ad + id_wordsize cfg * Z.of_nat (b + j),
      (if_dllName (files (nth 0 g O)), import_of (files f)))) g) ->
    ad + id_wordsize cfg * Z.of_nat b <= x < ad + id_wordsize cfg * Z.of_nat (b + length g)).
  { intros x Hx. apply list_elem_of_fmap in Hx as (y & -> & Hy). apply elem_of_lookup_imap in Hy as (j & f & -> & Hj).
    apply lookup_lt_Some in Hj. cbn. nia. }
  split.
  - apply NoDup_app. split; [|split; [|done]].
    + apply NoDup_alt. intros i j x Hi Hj. rewrite list_lookup_fmap, list_lookup_imap in Hi, Hj.
      destruct (g !! i), (g !! j); try done. cbn in Hi, Hj. simplify_eq. nia.
    + intros x Hx Hx'. apply Hin in Hx. apply B in Hx'. nia.
  - intros x [Hx|Hx]%elem_of_app; [apply Hin in Hx; lia|apply B in Hx; nia].
Qed.

End Made.

(** The tables of [create]. *)
Lemma create_spec cfg files sort o now (Hsort : forall lt l, Permutation (sort lt l) l)
    (Hhybrid : id_hybrid cfg = false) (Harm64x : id_arm64x cfg = false) : NoDup now ->
  let D := create cfg files sort o now ∅ in
  let v := binImports files sort o now in
  (forall k g, v !! k = Some g -> g <> [] /\ group_at cfg files D k (base_of v k) g) /\
  exists c, dirs D !! length v = Some c /\ made D !! c = Some (NullChunk 20).
Proof.
  intros Hnow D v. destruct (binImports_spec files sort Hsort o now) as [Hperm Hgroups]. fold v in Hperm, Hgroups.
  assert (Hnd : NoDup (concat v)) by (by rewrite Hperm).
  destruct (create_groups_spec cfg files Hhybrid Harm64x v (empty_idata ∅)) as (A & B & _ & C); [done|done| |done|].
  { eapply Forall_impl; [exact Hgroups|]. by intros g [? _]. }
  set (D0 := fold_left (create_group cfg files) v (empty_idata ∅)) in *.
  assert (ED : D = set_dirs (dirs D0 ++ [length (made D0)]) (set_made (made D0 ++ [NullChunk 20]) D0)).
  { unfold D, create. by rewrite Hhybrid. }
  assert (G : grows D0 D) by (rewrite ED; split; cbn; try done; by apply prefix_app_r).
  split.
  - intros k g Hk. split; [by apply (proj1 (Forall_forall _ _) Hgroups g); eapply list_elem_of_lookup_2|].
    eapply group_grows; [exact G| |by apply C]. intros f _. by rewrite ED.
  - exists (length (made D0)). rewrite ED. cbn. split; [|by apply list_lookup_middle]. apply list_lookup_middle. cbn in B. lia.
Qed.

(** C22: In an image that is not hybrid, a loader that walks the import tables
    binds, for every import of a live file whose DLL is not delayed, the very slot
    the symbol is located at, from the DLL of its file (up to case) by the
    ordinal or the hint and name of its file; and it binds nothing else and no
    slot twice. *)
Theorem import_tables_bound (cfg : idata_config) (files : nat -> import_file)
    (sort : (nat -> nat -> bool) -> list nat -> list nat) (rva : nat -> Z) (m : mem) (dir lk ad : Z)
    (delay : list string) (l delayed now : list nat) (o : dllOrder) (fuel : nat)
    (Hsort : forall lt l, Permutation (sort lt l) l) (Hhybrid : id_hybrid cfg = false) (Harm64x : id_arm64x cfg = false)
    (Hword : id_wordsize cfg = Z.of_nat (entry_size (id_is64 cfg))) (Hl : NoDup l)
    (Htables : createImportTables files delay l ∅ [] [] = Some (o, delayed, now))
    (Hfits : forall f, f ∈ now -> fits (files f))
    (Hplaced : placed_imports cfg rva (create cfg files sort o now ∅) dir lk ad) (Hfuel : (2 * length now < fuel)%nat) :
  let D := create cfg files sort o now ∅ in
  let bs := bindings fuel (id_is64 cfg) (write_chunks cfg files rva D (addSyntheticIdata D) m) dir in
  now = List.filter (fun f => if_live (files f) && negb (existsb (String.eqb (dll_of files f)) delay)) l /\
  (forall f, f ∈ now -> exists a dll, location D f ImpSym = Some a /\ (rva a, (dll, import_of (files f))) ∈ bs /\
     str_lower dll = dll_of files f) /\
  length bs = length now /\ NoDup (map fst bs).
Proof.
  intros D bs. destruct (createImportTables_spec files delay l _ _ _ _ _ _ Htables) as ([Hinj _] & Hdef & Hnow);
    [by split; intros *; rewrite lookup_empty|by intros f ?%elem_of_nil|]. cbn in Hnow.
  destruct (binImports_spec files sort Hsort o now) as [Hperm Hgroups]. set (v := binImports files sort o now) in *.
  destruct (create_spec cfg files sort o now Hsort Hhybrid Harm64x) as [Hga Hend].
  { rewrite Hnow. apply NoDup_ListNoDup, List.NoDup_filter. by apply NoDup_ListNoDup. }
  fold D v in Hga, Hend.
  assert (Hlen : (length v <= length (concat v))%nat).
  { clear -Hgroups. induction Hgroups as [|g v [Hg _] _ IH]; cbn; [lia|]. rewrite length_app. destruct g; [done|cbn; lia]. }
  assert (Hbs : bs = expected cfg files ad v 0).
  { apply (bindings_spec cfg files rva Hword D dir lk ad Hplaced m v fuel Hga Hend).
    - intros f Hf. apply Hfits. by rewrite <- Hperm.
    - pose proof (Permutation_length Hperm). lia. }
  split; [done|]. split; [|split].
  - intros f Hf. rewrite <- Hperm in Hf. apply list_elem_of_In, in_concat in Hf as (g & Hg & Hf).
    apply list_elem_of_In, list_elem_of_lookup_1 in Hg as [k Hk]. apply list_elem_of_In, list_elem_of_lookup_1 in Hf as [j Hj].
    destruct (Hga k g Hk) as [Hne Hat]. destruct (ga_entries _ _ _ _ _ _ Hat j f Hj) as (lc & a & _ & Ha & _ & Hloc).
    exists a, (if_dllName (files (nth 0 g O))). split; [done|]. split.
    + rewrite Hbs, (pi_addresses _ _ _ _ _ _ Hplaced _ _ Ha). by apply (expected_in cfg files ad v 0 k g j f).
    + destruct g as [|f0 g]; [done|]. cbn [nth]. change (str_lower (if_dllName (files f0))) with (dll_of files f0).
      pose proof (proj1 (Forall_forall _ _) Hgroups _ (list_elem_of_lookup_2 _ _ _ Hk)) as [_ Hkey].
      assert (Hin : forall x, x ∈ f0 :: g -> x ∈ now).
      { intros x Hx. rewrite <- Hperm. apply list_elem_of_In, in_concat. exists (f0 :: g).
        split; apply list_elem_of_In; [by eapply list_elem_of_lookup_2|done]. }
      pose proof (list_elem_of_lookup_2 _ _ _ Hj) as Hfg. pose proof (list_elem_of_here f0 g) as Hf0.
      specialize (Hkey f0 f Hf0 Hfg). destruct (Hdef f0 (Hin _ Hf0)) as [x0 E0], (Hdef f (Hin _ Hfg)) as [x E].
      rewrite E0, E in Hkey. cbn in Hkey. subst x0. by eapply Hinj.
  - rewrite Hbs, expected_length. by apply Permutation_length.
  - rewrite Hbs. apply expected_slots; [done|]. rewrite Hword. destruct (id_is64 cfg); cbn; lia.
Qed.

(** ** An image *)

Fixpoint index_of (c : nat) (l : list nat) : option Z :=
  match l with
  | [] => None
  | x :: l => if (x =? c)%nat then Some 0 else Z.succ <$> index_of c l
  end.

(** [placed_imports] as a check. *)
Definition placed_b (cfg : idata_config) (rva : nat -> Z) (D : idata) (dir lk ad : Z) : bool :=
  let row base size l := forallb (fun x => rva x.2 =? base + size * Z.of_nat x.1) (combine (seq 0 (length l)) l) in
  let all := addSyntheticIdata D in
  row dir 20 (dirs D) && row lk (id_wordsize cfg) (lookups D) && row ad (id_wordsize cfg) (addresses D) &&
  forallb (fun c => forallb (fun c' => (c =? c')%nat ||
    match made D !! c, made D !! c' with
    | Some x, Some x' => (rva c + ic_getSize cfg x <=? rva c') || (rva c' + ic_getSize cfg x' <=? rva c)
    | _, _ => true
    end) all) all &&
  forallb (fun c => (0 <? rva c) && (rva c <? 2 ^ 31)) all.

Lemma row_check (rva : nat -> Z) base size l :
  forallb (fun x => rva x.2 =? base + size * Z.of_nat x.1) (combine (seq 0 (length l)) l) = true ->
  forall i c, l !! i = Some c -> rva c = base + size * Z.of_nat i.
Proof.
  rewrite forallb_forall. intros H i c Hi. apply Z.eqb_eq. apply (H (i, c)). pose proof (lookup_lt_Some _ _ _ Hi) as Hlt.
  apply list_elem_of_In, list_elem_of_lookup. exists i. apply lookup_zip_with_Some. exists i, c.
  split; [done|]. split; [|done]. by apply lookup_seq_lt.
Qed.

Lemma placed_check cfg rva D dir lk ad : placed_b cfg rva D dir lk ad = true -> placed_imports cfg rva D dir lk ad.
Proof.
  unfold placed_b. rewrite !andb_true_iff, !forallb_forall. intros [[[[H1 H2] H3] H4] H5]. split.
  - apply row_check. by apply forallb_forall.
  - apply row_check. by apply forallb_forall.
  - apply row_check. by apply forallb_forall.
  - intros c c' x x' Hc%list_elem_of_In Hc'%list_elem_of_In Hne Hx Hx'. specialize (H4 c Hc). rewrite forallb_forall in H4.
    specialize (H4 c' Hc'). rewrite Hx, Hx' in H4. destruct (Nat.eqb_spec c c'); [done|]. cbn [orb] in H4.
    apply orb_true_iff in H4 as [H4|H4]; lia.
  - intros c Hc%list_elem_of_In. specialize (H5 c Hc). lia.
Qed.

Definition demo_import (live : bool) (dll ext : string) (hint : Z) (imp : string) : import_file :=
  {| if_live := live; if_dllName := dll; if_externalName := ext; if_ordinalHint := hint; if_impName := imp;
     if_isEC := false; if_thunkSym := true; if_impReplaced := false; if_impchkThunk := None |}.
Definition demo_files (f : nat) : import_file :=
  match f with
  | 0 => demo_import true "KERNEL32.dll" "Sleep" 3 "__imp_Sleep"
  | 1 => demo_import true "user32.dll" "" 77 "__imp_Beep"
  | 2 => demo_import false "dead.dll" "f" 0 "__imp_f"
  | _ => demo_import true "kernel32.dll" "Exit" 9 "__imp_Exit"
  end%nat.
Definition demo_idata_config : idata_config :=
  {| id_wordsize := 8; id_is64 := true; id_arm64x := false; id_hybrid := false; id_symtabEC := false; id_imageBase := 5368709120 |}.

Definition demo_idata : idata :=
  create demo_idata_config demo_files stable_sort (<["user32.dll" := 1]> (<["kernel32.dll" := 0]> ∅)) [0; 1; 3]%nat ∅.
Definition demo_rva (c : nat) : Z :=
  match index_of c (dirs demo_idata), index_of c (lookups demo_idata), index_of c (addresses demo_idata),
        index_of c (hints demo_idata), index_of c (dllNames demo_idata) with
  | Some i, _, _, _, _ => 4096 + 20 * i
  | _, Some i, _, _, _ => 4200 + 8 * i
  | _, _, Some i, _, _ => 4300 + 8 * i
  | _, _, _, Some i, _ => 4400 + 32 * i
  | _, _, _, _, Some i => 4600 + 32 * i
  | _, _, _, _, _ => 5000
  end.

Lemma import_tables_bound_witness :
  exists a dll, location demo_idata 1 ImpSym = Some a /\ str_lower dll = "user32.dll" /\
    (demo_rva a, (dll, ByOrdinal 77)) ∈
    bindings 10 true (write_chunks demo_idata_config demo_files demo_rva demo_idata (addSyntheticIdata demo_idata) (fun _ => 204)) 4096.
Proof.
  destruct (import_tables_bound demo_idata_config demo_files stable_sort demo_rva (fun _ => 204) 4096 4200 4300 []
    [0; 1; 2; 3]%nat [] [0; 1; 3]%nat (<["user32.dll" := 1]> (<["kernel32.dll" := 0]> ∅)) 10)
    as (_ & H & _).
  - intros lt l. apply stable_sort_perm.
  - reflexivity.
  - reflexivity.
  - reflexivity.
  - apply (bool_decide_unpack _). vm_compute. exact I.
  - vm_compute. reflexivity.
  - intros f Hf. apply list_elem_of_In in Hf as [<-|[<-|[<-|[]]]];
      (split; [vm_compute; done|]; apply names_fit; vm_compute; reflexivity).
  - apply placed_check. vm_compute. reflexivity.
  - cbn. lia.
  - destruct (H 1%nat) as (a & dll & H1 & H2 & H3).
    { apply (bool_decide_unpack _). vm_compute. exact I. }
    exists a, dll. split; [exact H1|]. split; [exact H3|exact H2].
Defined.

(** In a hybrid image an EC import by ordinal is merged with the native import by
    name before it, when the ordinal is the hint of that name: the slot of the
    native symbol is then bound by the ordinal. *)
Definition hybrid_idata_config : idata_config :=
  {| id_wordsize := 8; id_is64 := true; id_arm64x := true; id_hybrid := true; id_symtabEC := true; id_imageBase := 5368709120 |}.
Definition hybrid_files (f : nat) : import_file :=
  {| if_live := true; if_dllName := "a.dll"; if_externalName := match f with O => "Open" | _ => "" end; if_ordinalHint := 5;
     if_impName := match f with O => "__imp_Open" | _ => "__imp_Write" end; if_isEC := match f with O => false | _ => true end;
     if_thunkSym := true; if_impReplaced := false; if_impchkThunk := None |}.

Lemma ordinal_merged_with_name :
  let D := create hybrid_idata_config hybrid_files stable_sort (<["a.dll" := 0]> ∅) [0; 1]%nat ∅ in
  (a ← location D 0 ImpSym; made D !! a) = Some (OrdinalOnlyChunk 5) /\ hints D = [].
Proof. split; vm_compute; reflexivity. Qed.
