(* ===== verification/DelayThunks.v ===== *)
(** * The code that loads delayed DLLs (lld/COFF/DLL.cpp)

    An import whose DLL is delayed starts out with the address of a small thunk in
    its slot. The thunk passes the slot to the [__tailMerge] of its DLL, which
    saves the arguments of the call, has the run-time helper resolve the import,
    restores the arguments and jumps to the function. The specification of the x64
    code executes it: [x64_step] decodes and runs the instructions the thunks use. *)

From S2P Require Import Prelude Memory Reloc RelocProps SectionChunk Baserel Thunks.

(** ** Templates *)

Definition thunkX64 : list Z :=
  [0x48; 0x8D; 0x05; 0; 0; 0; 0; (* lea rax, [__imp_<FUNCNAME>] *)
   0xE9; 0; 0; 0; 0              (* jmp __tailMerge_<lib> *)].

Definition tailMergeX64 : list Z :=
  [0x48; 0x89; 0x4C; 0x24; 0x08;          (* mov    qword ptr [rsp+8], rcx *)
   0x48; 0x89; 0x54; 0x24; 0x10;          (* mov    qword ptr [rsp+10h], rdx *)
   0x4C; 0x89; 0x44; 0x24; 0x18;          (* mov    qword ptr [rsp+18h], r8 *)
   0x4C; 0x89; 0x4C; 0x24; 0x20;          (* mov    qword ptr [rsp+20h], r9 *)
   0x48; 0x83; 0xEC; 0x68;                (* sub    rsp, 68h *)
   0x66; 0x0F; 0x7F; 0x44; 0x24; 0x20;    (* movdqa xmmword ptr [rsp+20h], xmm0 *)
   0x66; 0x0F; 0x7F; 0x4C; 0x24; 0x30;    (* movdqa xmmword ptr [rsp+30h], xmm1 *)
   0x66; 0x0F; 0x7F; 0x54; 0x24; 0x40;    (* movdqa xmmword ptr [rsp+40h], xmm2 *)
   0x66; 0x0F; 0x7F; 0x5C; 0x24; 0x50;    (* movdqa xmmword ptr [rsp+50h], xmm3 *)
   0x48; 0x8B; 0xD0;                      (* mov    rdx, rax *)
   0x48; 0x8D; 0x0D; 0; 0; 0; 0;          (* lea    rcx, [___DELAY_IMPORT_...] *)
   0xE8; 0; 0; 0; 0;                      (* call   __delayLoadHelper2 *)
   0x66; 0x0F; 0x6F; 0x44; 0x24; 0x20;    (* movdqa xmm0, xmmword ptr [rsp+20h] *)
   0x66; 0x0F; 0x6F; 0x4C; 0x24; 0x30;    (* movdqa xmm1, xmmword ptr [rsp+30h] *)
   0x66; 0x0F; 0x6F; 0x54; 0x24; 0x40;    (* movdqa xmm2, xmmword ptr [rsp+40h] *)
   0x66; 0x0F; 0x6F; 0x5C; 0x24; 0x50;    (* movdqa xmm3, xmmword ptr [rsp+50h] *)
   0x48; 0x8B; 0x4C; 0x24; 0x70;          (* mov    rcx, qword ptr [rsp+70h] *)
   0x48; 0x8B; 0x54; 0x24; 0x78;          (* mov    rdx, qword ptr [rsp+78h] *)
   0x4C; 0x8B; 0x84; 0x24; 0x80; 0; 0; 0; (* mov    r8, qword ptr [rsp+80h] *)
   0x4C; 0x8B; 0x8C; 0x24; 0x88; 0; 0; 0; (* mov    r9, qword ptr [rsp+88h] *)
   0x48; 0x83; 0xC4; 0x68;                (* add    rsp, 68h *)
   0xFF; 0xE0                             (* jmp    rax *)].

Definition tailMergeUnwindInfoX64 : list Z := [0x01; 0x18; 0x01; 0x00; 0x18; 0xC2; 0x00; 0x00].

Definition thunkX86 : list Z := [0xB8; 0; 0; 0; 0; 0xE9; 0; 0; 0; 0].

Definition tailMergeX86 : list Z :=
  [0x51;             (* push  ecx *)
   0x52;             (* push  edx *)
   0x50;             (* push  eax *)
   0x68; 0; 0; 0; 0; (* push  offset ___DELAY_IMPORT_DESCRIPTOR_<DLLNAME>_dll *)
   0xE8; 0; 0; 0; 0; (* call  ___delayLoadHelper2@8 *)
   0x5A;             (* pop   edx *)
   0x59;             (* pop   ecx *)
   0xFF; 0xE0        (* jmp   eax *)].

Definition thunkARM : list Z :=
  [0x40; 0xf2; 0x00; 0x0c; (* mov.w   ip, #0 __imp_<FUNCNAME> *)
   0xc0; 0xf2; 0x00; 0x0c; (* mov.t   ip, #0 __imp_<FUNCNAME> *)
   0x00; 0xf0; 0x00; 0xb8  (* b.w     __tailMerge_<lib> *)].

Definition tailMergeARM : list Z :=
  [0x2d; 0xe9; 0x0f; 0x48; (* push.w  {r0, r1, r2, r3, r11, lr} *)
   0x0d; 0xf2; 0x10; 0x0b; (* addw    r11, sp, #16 *)
   0x2d; 0xed; 0x10; 0x0b; (* vpush   {d0, d1, d2, d3, d4, d5, d6, d7} *)
   0x61; 0x46;             (* mov     r1, ip *)
   0x40; 0xf2; 0x00; 0x00; (* mov.w   r0, #0 DELAY_IMPORT_DESCRIPTOR *)
   0xc0; 0xf2; 0x00; 0x00; (* mov.t   r0, #0 DELAY_IMPORT_DESCRIPTOR *)
   0x00; 0xf0; 0x00; 0xd0; (* bl      #0 __delayLoadHelper2 *)
   0x84; 0x46;             (* mov     ip, r0 *)
   0xbd; 0xec; 0x10; 0x0b; (* vpop    {d0, d1, d2, d3, d4, d5, d6, d7} *)
   0xbd; 0xe8; 0x0f; 0x48; (* pop.w   {r0, r1, r2, r3, r11, lr} *)
   0x60; 0x47              (* bx      ip *)].

Definition thunkARM64 : list Z :=
  [0x11; 0x00; 0x00; 0x90; (* adrp    x17, #0      __imp_<FUNCNAME> *)
   0x31; 0x02; 0x00; 0x91; (* add     x17, x17, #0 :lo12:__imp_<FUNCNAME> *)
   0x00; 0x00; 0x00; 0x14  (* b       __tailMerge_<lib> *)].

Definition tailMergeARM64 : list Z :=
  [0xfd; 0x7b; 0xb2; 0xa9; (* stp     x29, x30, [sp, #-224]! *)
   0xfd; 0x03; 0x00; 0x91; (* mov     x29, sp *)
   0xe0; 0x07; 0x01; 0xa9; (* stp     x0, x1, [sp, #16] *)
   0xe2; 0x0f; 0x02; 0xa9; (* stp     x2, x3, [sp, #32] *)
   0xe4; 0x17; 0x03; 0xa9; (* stp     x4, x5, [sp, #48] *)
   0xe6; 0x1f; 0x04; 0xa9; (* stp     x6, x7, [sp, #64] *)
   0xe8; 0x2b; 0x00; 0xf9; (* str     x8,     [sp, #80] *)
   0xe0; 0x07; 0x03; 0xad; (* stp     q0, q1, [sp, #96] *)
   0xe2; 0x0f; 0x04; 0xad; (* stp     q2, q3, [sp, #128] *)
   0xe4; 0x17; 0x05; 0xad; (* stp     q4, q5, [sp, #160] *)
   0xe6; 0x1f; 0x06; 0xad; (* stp     q6, q7, [sp, #192] *)
   0xe1; 0x03; 0x11; 0xaa; (* mov     x1, x17 *)
   0x00; 0x00; 0x00; 0x90; (* adrp    x0, #0     DELAY_IMPORT_DESCRIPTOR *)
   0x00; 0x00; 0x00; 0x91; (* add     x0, x0, #0 :lo12:DELAY_IMPORT_DESCRIPTOR *)
   0x02; 0x00; 0x00; 0x90; (* adrp    x2, #0     __delayLoadHelper2 *)
   0x42; 0x00; 0x00; 0x91; (* add     x2, x2, #0 :lo12:__delayLoadHelper2 *)
   0x40; 0x00; 0x3f; 0xd6; (* blr     x2 *)
   0xf0; 0x03; 0x00; 0xaa; (* mov     x16, x0 *)
   0xe6; 0x1f; 0x46; 0xad; (* ldp     q6, q7, [sp, #192] *)
   0xe4; 0x17; 0x45; 0xad; (* ldp     q4, q5, [sp, #160] *)
   0xe2; 0x0f; 0x44; 0xad; (* ldp     q2, q3, [sp, #128] *)
   0xe0; 0x07; 0x43; 0xad; (* ldp     q0, q1, [sp, #96] *)
   0xe8; 0x2b; 0x40; 0xf9; (* ldr     x8,     [sp, #80] *)
   0xe6; 0x1f; 0x44; 0xa9; (* ldp     x6, x7, [sp, #64] *)
   0xe4; 0x17; 0x43; 0xa9; (* ldp     x4, x5, [sp, #48] *)
   0xe2; 0x0f; 0x42; 0xa9; (* ldp     x2, x3, [sp, #32] *)
   0xe0; 0x07; 0x41; 0xa9; (* ldp     x0, x1, [sp, #16] *)
   0xfd; 0x7b; 0xce; 0xa8; (* ldp     x29, x30, [sp], #224 *)
   0x00; 0x02; 0x1f; 0xd6  (* br      x16 *)].

(** ** [writeTo] of each chunk, at [buf]; [rva] is the chunk's RVA *)

Definition ThunkChunkX64_writeTo (imp tailMerge rva buf : Z) (st : rstate) : rstate :=
  let st := put buf thunkX64 st in
  let st := on_mem (fun m => write32le m (buf + 3) (imp - rva - 7)) st in
  on_mem (fun m => write32le m (buf + 8) (tailMerge - rva - 12)) st.

Definition TailMergeChunkX64_writeTo (desc helper rva buf : Z) (st : rstate) : rstate :=
  let st := put buf tailMergeX64 st in
  let st := on_mem (fun m => write32le m (buf + 54) (desc - rva - 58)) st in
  on_mem (fun m => write32le m (buf + 59) (helper - rva - 63)) st.

Definition TailMergePDataChunkX64_writeTo (tm tmSize unwind buf : Z) (st : rstate) : rstate :=
  let st := on_mem (fun m => write32le m (buf + 0) tm) st in
  let st := on_mem (fun m => write32le m (buf + 4) (tm + tmSize)) st in
  on_mem (fun m => write32le m (buf + 8) unwind) st.

Definition TailMergeUnwindInfoX64_writeTo (buf : Z) : rstate -> rstate := put buf tailMergeUnwindInfoX64.

Definition ThunkChunkX86_writeTo (imageBase imp tailMerge rva buf : Z) (st : rstate) : rstate :=
  let st := put buf thunkX86 st in
  let st := on_mem (fun m => write32le m (buf + 1) (imp + imageBase)) st in
  on_mem (fun m => write32le m (buf + 6) (tailMerge - rva - 10)) st.

Definition TailMergeChunkX86_writeTo (imageBase desc helper rva buf : Z) (st : rstate) : rstate :=
  let st := put buf tailMergeX86 st in
  let st := on_mem (fun m => write32le m (buf + 4) (desc + imageBase)) st in
  on_mem (fun m => write32le m (buf + 9) (helper - rva - 13)) st.

Definition ThunkChunkARM_writeTo (imageBase imp tailMerge rva buf : Z) (st : rstate) : rstate :=
  let st := put buf thunkARM st in
  let st := applyMOV32T (buf + 0) (imp + imageBase) st in
  applyBranch24T (buf + 8) (tailMerge - rva - 12) st.

Definition TailMergeChunkARM_writeTo (imageBase desc helper rva buf : Z) (st : rstate) : rstate :=
  let st := put buf tailMergeARM st in
  let st := applyMOV32T (buf + 14) (desc + imageBase) st in
  applyBranch24T (buf + 22) (helper - rva - 26) st.

Definition ThunkChunkARM64_writeTo (imp tailMerge rva buf : Z) (st : rstate) : rstate :=
  let st := put buf thunkARM64 st in
  let st := applyArm64Addr (buf + 0) imp (rva + 0) 12 st in
  let st := applyArm64Imm (buf + 4) (imp &&& 0xfff) 0 st in
  applyArm64Branch26 (buf + 8) (tailMerge - rva - 8) st.

Definition TailMergeChunkARM64_writeTo (desc : Z) (helper : option Z) (rva buf : Z) (st : rstate) : rstate :=
  let st := put buf tailMergeARM64 st in
  let st := applyArm64Addr (buf + 48) desc (rva + 48) 12 st in
  let st := applyArm64Imm (buf + 52) (desc &&& 0xfff) 0 st in
  match helper with
  | Some h =>
      let st := applyArm64Addr (buf + 56) h (rva + 56) 12 st in
      applyArm64Imm (buf + 60) (h &&& 0xfff) 0 st
  | None => st
  end.

(** ** Base relocations of the chunks with absolute addresses *)

Definition ThunkChunkX86_getBaserels (rva : Z) : list Baserel := [{| br_rva := rva + 1; br_type := getDefaultType false |}].
Definition TailMergeChunkX86_getBaserels (rva : Z) : list Baserel := [{| br_rva := rva + 4; br_type := getDefaultType false |}].
Definition ThunkChunkARM_getBaserels (rva : Z) : list Baserel := [{| br_rva := rva + 0; br_type := IMAGE_REL_BASED_ARM_MOV32T |}].
Definition TailMergeChunkARM_getBaserels (rva : Z) : list Baserel := [{| br_rva := rva + 14; br_type := IMAGE_REL_BASED_ARM_MOV32T |}].

(** ** Executing x64 code

    Operands are registers, [rsp] plus a displacement, and displacements from the
    next instruction. *)

Inductive operand := Reg (r : Z) | Rsp (d : Z) | Rip (d : Z).

Inductive x64_instr :=
| MovStore (o : operand) (r : Z)     (* mov o, r *)
| MovLoad (r : Z) (o : operand)      (* mov r, o *)
| Lea (r : Z) (o : operand)
| AddImm (r imm : Z)
| SubImm (r imm : Z)
| DqaStore (o : operand) (x : Z)     (* movdqa o, xmm *)
| DqaLoad (x : Z) (o : operand)
| CallRel (d : Z)
| JmpRel (d : Z)
| JmpReg (r : Z).

Definition rax := 0.
Definition rcx := 1.
Definition rdx := 2.
Definition rsp := 4.
Definition r8 := 8.
Definition r9 := 9.

Definition disp8 (b : Z) : Z := if b <? 128 then b else b - 256.

(** ModRM at byte [i] of [l]; [rex_r] extends the register. The register, the
    operand and the length up to its end. *)
Definition modrm (l : list Z) (i : nat) (rex_r : Z) : option (Z * operand * nat) :=
  let b k := nth k l 0 in
  let mod_ := b i >>> 6 in
  let reg := ((b i >>> 3) &&& 7) + 8 * rex_r in
  let rm := b i &&& 7 in
  if mod_ =? 3 then Some (reg, Reg rm, S i)
  else if (mod_ =? 0) && (rm =? 5) then Some (reg, Rip (sext 32 (le_value (take 4 (drop (S i) l)))), i + 5)%nat
  else if (rm =? 4) && (b (S i) =? 0x24) then
    if mod_ =? 1 then Some (reg, Rsp (disp8 (b (i + 2)%nat)), i + 3)%nat
    else if mod_ =? 2 then Some (reg, Rsp (sext 32 (le_value (take 4 (drop (i + 2)%nat l)))), i + 6)%nat
    else None
  else None.

Definition decode (l : list Z) : option (x64_instr * nat) :=
  let b k := nth k l 0 in
  if b O =? 0xE8 then Some (CallRel (sext 32 (le_value (take 4 (drop 1 l)))), 5%nat)
  else if b O =? 0xE9 then Some (JmpRel (sext 32 (le_value (take 4 (drop 1 l)))), 5%nat)
  else if (b O =? 0xFF) && (b 1%nat =? 0xE0) then Some (JmpReg 0, 2%nat)
  else if (b O =? 0x66) && (b 1%nat =? 0x0F) then
    '(x, o, n) ← modrm l 3 0;
    if b 2%nat =? 0x7F then Some (DqaStore o x, n) else if b 2%nat =? 0x6F then Some (DqaLoad x o, n) else None
  else if (b O =? 0x48) || (b O =? 0x4C) then
    '(r, o, n) ← modrm l 2 (if b O =? 0x4C then 1 else 0);
    if b 1%nat =? 0x89 then Some (MovStore o r, n)
    else if b 1%nat =? 0x8B then Some (MovLoad r o, n)
    else if b 1%nat =? 0x8D then Some (Lea r o, n)
    else if b 1%nat =? 0x83 then
      match o with
      | Reg g => if r =? 0 then Some (AddImm g (disp8 (b n)), S n) else if r =? 5 then Some (SubImm g (disp8 (b n)), S n) else None
      | _ => None
      end
    else None
  else None.

Record x64 := { rip : Z; gpr : Z -> Z; xmm : Z -> Z; stk : mem }.

Definition address (s : x64) (next : Z) (o : operand) : option Z :=
  match o with Reg _ => None | Rsp d => Some (u64 (gpr s rsp + d)) | Rip d => Some (u64 (next + d)) end.

Definition exec (i : x64_instr) (next : Z) (s : x64) : option x64 :=
  let set r v := Some {| rip := next; gpr := set_reg r v (gpr s); xmm := xmm s; stk := stk s |} in
  match i with
  | MovStore (Reg r) r' => set r (gpr s r')
  | MovStore o r => a ← address s next o; Some {| rip := next; gpr := gpr s; xmm := xmm s; stk := write64le (stk s) a (gpr s r) |}
  | MovLoad r (Reg r') => set r (gpr s r')
  | MovLoad r o => a ← address s next o; set r (read64le (stk s) a)
  | Lea r o => a ← address s next o; set r a
  | AddImm r i => set r (u64 (gpr s r + i))
  | SubImm r i => set r (u64 (gpr s r - i))
  | DqaStore o x =>
      a ← address s next o;
      if a mod 16 =? 0 then Some {| rip := next; gpr := gpr s; xmm := xmm s; stk := write 16 (stk s) a (xmm s x) |} else None
  | DqaLoad x o =>
      a ← address s next o;
      if a mod 16 =? 0 then Some {| rip := next; gpr := gpr s; xmm := set_reg x (read 16 (stk s) a) (xmm s); stk := stk s |} else None
  | CallRel d =>
      let sp := u64 (gpr s rsp - 8) in
      Some {| rip := u64 (next + d); gpr := set_reg rsp sp (gpr s); xmm := xmm s; stk := write64le (stk s) sp next |}
  | JmpRel d => Some {| rip := u64 (next + d); gpr := gpr s; xmm := xmm s; stk := stk s |}
  | JmpReg r => Some {| rip := gpr s r; gpr := gpr s; xmm := xmm s; stk := stk s |}
  end.

(** One instruction of the code; no instruction here is longer than eight bytes. *)
Definition x64_step (code : mem) (s : x64) : option x64 :=
  '(i, n) ← decode (bytes_at code (rip s) 8); exec i (rip s + Z.of_nat n) s.

Fixpoint x64_steps (n : nat) (code : mem) (s : x64) : option x64 :=
  match n with O => Some s | S n => s ← x64_step code s; x64_steps n code s end.

(** ** The bytes of the code *)

Definition patch32 (k : nat) (v : Z) (l : list Z) : list Z := take k l ++ le_bytes 4 v ++ drop (k + 4) l.

Lemma nth_patch32 k v l j : (k + 4 <= length l)%nat ->
  nth j (patch32 k v l) 0 = if decide (k <= j < k + 4)%nat then nth (j - k) (le_bytes 4 v) 0 else nth j l 0.
Proof.
  intros Hk. unfold patch32. destruct (decide _) as [Hj|Hj].
  - rewrite app_nth2 by (rewrite length_take; lia). rewrite app_nth1 by (rewrite length_take, length_le_bytes; lia).
    f_equal. rewrite length_take. lia.
  - destruct (Nat.lt_ge_cases j k).
    + rewrite app_nth1 by (rewrite length_take; lia). rewrite !nth_lookup, lookup_take_lt by lia. done.
    + rewrite !app_nth2 by (rewrite ?length_le_bytes, length_take; lia). rewrite length_take, length_le_bytes.
      rewrite !nth_lookup, lookup_drop. do 2 f_equal. lia.
Qed.

Lemma nth_le_bytes n v k : (k < n)%nat -> nth k (le_bytes n v) 0 = u8 (v / 2 ^ (8 * Z.of_nat k)).
Proof.
  revert v k. induction n as [|n IH]; intros v k Hk; [lia|]. destruct k as [|k]; cbn [le_bytes nth].
  - change (2 ^ (8 * Z.of_nat 0)) with 1. by rewrite Z.div_1_r.
  - rewrite IH by lia. rewrite Z.div_div by (try apply Z.pow_pos_nonneg; lia).
    rewrite <- Z.pow_add_r by lia. do 3 f_equal. lia.
Qed.

(** The bytes [l] are at [buf]. *)
Definition has_bytes (m : mem) (buf : Z) (l : list Z) : Prop :=
  forall k, (k < length l)%nat -> m (buf + Z.of_nat k) = nth k l 0.

Lemma put_bytes buf l st : has_bytes (rmem (put buf l st)) buf l.
Proof. intros k Hk. unfold put, on_mem. cbn. by apply memcpy_byte. Qed.

Lemma patch_bytes m buf k v l : (k + 4 <= length l)%nat -> has_bytes m buf l ->
  has_bytes (write32le m (buf + Z.of_nat k) v) buf (patch32 k v l).
Proof.
  intros Hk Hl j Hj. assert (Elen : length (patch32 k v l) = length l).
  { unfold patch32. rewrite !length_app, length_take, length_drop, length_le_bytes. lia. }
  rewrite nth_patch32 by done. destruct (decide _) as [Hin|Hin].
  - replace (buf + Z.of_nat j) with (buf + Z.of_nat k + Z.of_nat (j - k)) by lia. rewrite write_byte by lia.
    by rewrite nth_le_bytes by lia.
  - rewrite write_other by lia. apply Hl. lia.
Qed.

(** The eight bytes that are fetched: those of the code, and whatever follows it. *)
Lemma fetch_bytes code start l k : has_bytes code start l -> exists rest,
  bytes_at code (start + Z.of_nat k) 8 = take 8 (drop k l) ++ rest.
Proof.
  intros Hl. set (n := Nat.min 8 (length l - k)). exists (bytes_at code (start + Z.of_nat k + Z.of_nat n) (8 - n)).
  replace 8%nat with (n + (8 - n))%nat at 1 by lia. rewrite bytes_at_add. f_equal.
  apply nth_ext with 0 0.
  - rewrite length_bytes_at, length_take, length_drop. lia.
  - intros j Hj. rewrite length_bytes_at in Hj. rewrite nth_bytes_at by done.
    rewrite !nth_lookup, lookup_take_lt, lookup_drop by lia. rewrite <- nth_lookup, <- Hl by lia. f_equal. lia.
Qed.

(** Instructions and their lengths at offsets of some code. *)
Definition decodes (l : list Z) (p : nat * x64_instr * nat) : Prop :=
  forall rest, decode (take 8 (drop p.1.1 l) ++ rest) = Some (p.1.2, p.2).

Lemma step_at code start l k i n s : has_bytes code start l -> decodes l (k, i, n) -> rip s = start + Z.of_nat k ->
  x64_step code s = exec i (start + Z.of_nat (k + n)) s.
Proof.
  intros Hl Hd Hr. unfold x64_step. rewrite Hr. destruct (fetch_bytes code start l k Hl) as [rest ->]. rewrite Hd.
  cbn. f_equal. lia.
Qed.

(** ** The x64 thunk and the tail *)

Definition thunk_code (imp tailMerge rva : Z) : list Z :=
  patch32 8 (tailMerge - rva - 12) (patch32 3 (imp - rva - 7) thunkX64).
Definition tail_code (desc helper rva : Z) : list Z :=
  patch32 59 (helper - rva - 63) (patch32 54 (desc - rva - 58) tailMergeX64).

Lemma thunk_written imp tm rva buf st : has_bytes (rmem (ThunkChunkX64_writeTo imp tm rva buf st)) buf (thunk_code imp tm rva).
Proof. unfold ThunkChunkX64_writeTo, thunk_code. cbn [on_mem rmem]. apply (patch_bytes _ buf 8); [cbn; lia|]. apply (patch_bytes _ buf 3); [cbn; lia|]. apply put_bytes. Qed.

Lemma tail_written desc helper rva buf st :
  has_bytes (rmem (TailMergeChunkX64_writeTo desc helper rva buf st)) buf (tail_code desc helper rva).
Proof. unfold TailMergeChunkX64_writeTo, tail_code. cbn [on_mem rmem]. apply (patch_bytes _ buf 59); [cbn; lia|]. apply (patch_bytes _ buf 54); [cbn; lia|]. apply put_bytes. Qed.

Lemma sext_le_bytes v : sext 32 (le_value (le_bytes 4 v)) = sext 32 v.
Proof. rewrite le_value_bytes. unfold sext, wrap. change (8 * Z.of_nat 4) with 32. by rewrite Z.mod_mod by lia. Qed.

Definition thunk_program (v1 v2 : Z) : list (nat * x64_instr * nat) :=
  [(0, Lea rax (Rip (sext 32 v1)), 7); (7, JmpRel (sext 32 v2), 5)]%nat.

Definition tail_program (v1 v2 : Z) : list (nat * x64_instr * nat) :=
  [(0, MovStore (Rsp 8) rcx, 5); (5, MovStore (Rsp 16) rdx, 5); (10, MovStore (Rsp 24) r8, 5); (15, MovStore (Rsp 32) r9, 5);
   (20, SubImm rsp 0x68, 4); (24, DqaStore (Rsp 0x20) 0, 6); (30, DqaStore (Rsp 0x30) 1, 6); (36, DqaStore (Rsp 0x40) 2, 6);
   (42, DqaStore (Rsp 0x50) 3, 6); (48, MovLoad rdx (Reg rax), 3); (51, Lea rcx (Rip (sext 32 v1)), 7); (58, CallRel (sext 32 v2), 5);
   (63, DqaLoad 0 (Rsp 0x20), 6); (69, DqaLoad 1 (Rsp 0x30), 6); (75, DqaLoad 2 (Rsp 0x40), 6); (81, DqaLoad 3 (Rsp 0x50), 6);
   (87, MovLoad rcx (Rsp 0x70), 5); (92, MovLoad rdx (Rsp 0x78), 5); (97, MovLoad r8 (Rsp 0x80), 8); (105, MovLoad r9 (Rsp 0x88), 8);
   (113, AddImm rsp 0x68, 4); (117, JmpReg rax, 2)]%nat.

Lemma thunk_decoded imp tm rva : Forall (decodes (thunk_code imp tm rva)) (thunk_program (imp - rva - 7) (tm - rva - 12)).
Proof.
  unfold thunk_code. generalize (imp - rva - 7), (tm - rva - 12). intros v1 v2. unfold thunk_program.
  rewrite <- (sext_le_bytes v1), <- (sext_le_bytes v2).
  repeat (constructor; [intros rest; cbv -[sext le_value wrap Z.div]; reflexivity|]). constructor.
Qed.

Lemma tail_decoded desc helper rva : Forall (decodes (tail_code desc helper rva)) (tail_program (desc - rva - 58) (helper - rva - 63)).
Proof.
  unfold tail_code. generalize (desc - rva - 58), (helper - rva - 63). intros v1 v2. unfold tail_program.
  rewrite <- (sext_le_bytes v1), <- (sext_le_bytes v2).
  repeat (constructor; [intros rest; cbv -[sext le_value wrap Z.div]; reflexivity|]). constructor.
Qed.

Lemma copied_bytes code p m buf l n : bytes_at code p n = bytes_at m buf n -> has_bytes m buf l -> length l = n -> has_bytes code p l.
Proof.
  intros E Hl Hn k Hk. rewrite <- Hl by done. apply (f_equal (fun x => nth k x 0)) in E. rewrite !nth_bytes_at in E by lia. done.
Qed.

Lemma x64_steps_add a b code s : x64_steps (a + b) code s = (s' ← x64_steps a code s; x64_steps b code s').
Proof. revert s. induction a as [|a IH]; intros s; [done|]. cbn. destruct (x64_step code s); [apply IH|done]. Qed.

(** ** Runs *)

Lemma set_reg_ne r v R x : x <> r -> set_reg r v R x = R x.
Proof. intros H. unfold set_reg. by rewrite (proj2 (Z.eqb_neq _ _) H). Qed.

#[local] Ltac regs := repeat first [rewrite set_reg_eq | rewrite set_reg_ne by discriminate].
#[local] Ltac words := repeat match goal with |- context [wrap 64 ?x] => rewrite (wrap_small 64 x) by (unfold word_ok; lia) end.
#[local] Ltac run_step Hcode Hprog j :=
  cbn [x64_steps]; rewrite (step_at _ _ _ _ _ _ _ Hcode (proj1 (Forall_lookup _ _) Hprog j _ eq_refl)) by (cbn [rip]; lia);
  cbn [exec address mbind option_bind rip gpr xmm stk]; regs;
  repeat match goal with |- context [sext 32 ?x] => rewrite (sext_small 32 x) by (simpl; lia) end; words.

#[local] Ltac aligned :=
  rewrite (proj2 (Z.eqb_eq _ 0)) by (Z.div_mod_to_equations; lia); cbn [mbind option_bind].

Section Runs.
Context (code : mem) (base : Z) (Hbase : 0 <= base /\ base + 2 ^ 32 < 2 ^ 64).

Lemma thunk_runs imp tm rva s : has_bytes code (base + rva) (thunk_code imp tm rva) ->
  0 <= imp < 2 ^ 31 -> 0 <= tm < 2 ^ 31 -> 0 <= rva < 2 ^ 31 - 16 -> rip s = base + rva ->
  x64_steps 2 code s = Some {| rip := base + tm; gpr := set_reg rax (base + imp) (gpr s); xmm := xmm s; stk := stk s |}.
Proof using Hbase.
  intros Hc Hi Ht Hr Hs. pose proof (thunk_decoded imp tm rva) as Hp.
  run_step Hc Hp 0%nat. run_step Hc Hp 1%nat. do 2 f_equal; [lia|]. f_equal. lia.
Qed.

Section Tail.
Context (desc helper rva sp : Z) (Hc : has_bytes code (base + rva) (tail_code desc helper rva)).
Context (Hrvas : 0 <= desc < 2 ^ 31 /\ 0 <= helper < 2 ^ 31 /\ 0 <= rva < 2 ^ 31 - 128).
Context (Hsp : 0x80 <= sp /\ sp + 0x30 <= 2 ^ 64) (Halign : sp mod 16 = 8).

(** The stack at the call of the helper. *)
Definition saved (s : x64) : mem :=
  let m := write64le (stk s) (sp + 8) (gpr s rcx) in
  let m := write64le m (sp + 16) (gpr s rdx) in
  let m := write64le m (sp + 24) (gpr s r8) in
  let m := write64le m (sp + 32) (gpr s r9) in
  let m := write 16 m (sp - 0x68 + 0x20) (xmm s 0) in
  let m := write 16 m (sp - 0x68 + 0x30) (xmm s 1) in
  let m := write 16 m (sp - 0x68 + 0x40) (xmm s 2) in
  let m := write 16 m (sp - 0x68 + 0x50) (xmm s 3) in
  write64le m (sp - 0x70) (base + rva + 63).

Lemma save_runs s : rip s = base + rva -> gpr s rsp = sp -> exists s1, x64_steps 12 code s = Some s1 /\
  rip s1 = base + helper /\ gpr s1 rcx = base + desc /\ gpr s1 rdx = gpr s rax /\ gpr s1 rsp = sp - 0x70 /\
  (forall r, r <> rcx -> r <> rdx -> r <> rsp -> gpr s1 r = gpr s r) /\ stk s1 = saved s.
Proof using Hbase Hc Hrvas Hsp Halign.
  intros Hr Hs. pose proof (tail_decoded desc helper rva) as Hp.
  run_step Hc Hp 0%nat. rewrite Hs. words. run_step Hc Hp 1%nat. rewrite Hs. words. run_step Hc Hp 2%nat. rewrite Hs. words.
  run_step Hc Hp 3%nat. rewrite Hs. words. run_step Hc Hp 4%nat. rewrite Hs. words.
  run_step Hc Hp 5%nat. aligned. run_step Hc Hp 6%nat. aligned. run_step Hc Hp 7%nat. aligned. run_step Hc Hp 8%nat. aligned.
  run_step Hc Hp 9%nat. run_step Hc Hp 10%nat. run_step Hc Hp 11%nat.
  eexists. split; [reflexivity|]. cbn [rip gpr stk]. split_and!.
  - lia.
  - regs. lia.
  - by regs.
  - regs. lia.
  - intros r H1 H2 H3. by rewrite !set_reg_ne by congruence.
  - unfold saved. cbn zeta. f_equal; lia.
Qed.

(** After the helper: its home area at [sp - 0x68] may hold anything. *)
Lemma restore_runs s2 : rip s2 = base + rva + 63 -> gpr s2 rsp = sp - 0x68 -> exists s3, x64_steps 10 code s2 = Some s3 /\
  rip s3 = gpr s2 rax /\ gpr s3 rsp = sp /\
  gpr s3 rcx = read64le (stk s2) (sp + 8) /\ gpr s3 rdx = read64le (stk s2) (sp + 16) /\
  gpr s3 r8 = read64le (stk s2) (sp + 24) /\ gpr s3 r9 = read64le (stk s2) (sp + 32) /\
  (forall i, 0 <= i < 4 -> xmm s3 i = read 16 (stk s2) (sp - 0x68 + 0x20 + 16 * i)) /\
  (forall r, r <> rcx -> r <> rdx -> r <> rsp -> r <> r8 -> r <> r9 -> gpr s3 r = gpr s2 r) /\ stk s3 = stk s2.
Proof using Hbase Hc Hrvas Hsp Halign.
  intros Hr Hs. pose proof (tail_decoded desc helper rva) as Hp.
  run_step Hc Hp 12%nat. rewrite Hs. words. aligned. run_step Hc Hp 13%nat. rewrite Hs. words. aligned.
  run_step Hc Hp 14%nat. rewrite Hs. words. aligned. run_step Hc Hp 15%nat. rewrite Hs. words. aligned.
  run_step Hc Hp 16%nat. rewrite Hs. words. run_step Hc Hp 17%nat. rewrite Hs. words. run_step Hc Hp 18%nat. rewrite Hs. words.
  run_step Hc Hp 19%nat. rewrite Hs. words. run_step Hc Hp 20%nat. rewrite Hs. words. run_step Hc Hp 21%nat.
  eexists. split; [reflexivity|]. cbn [rip gpr xmm stk]. split_and!.
  - done.
  - regs. lia.
  - regs. f_equal. lia.
  - regs. f_equal. lia.
  - regs. f_equal. lia.
  - regs. f_equal. lia.
  - intros i Hi. assert (i = 0 \/ i = 1 \/ i = 2 \/ i = 3) as [-> | [-> | [-> | ->]]] by lia; regs; f_equal; lia.
  - intros r H1 H2 H3 H4 H5. by rewrite !set_reg_ne by congruence.
  - done.
Qed.

(** What was saved. *)
Lemma saved_read n s q : n = 8%nat /\ (q = sp + 8 \/ q = sp + 16 \/ q = sp + 24 \/ q = sp + 32) \/
    n = 16%nat /\ (q = sp - 0x68 + 0x20 \/ q = sp - 0x68 + 0x30 \/ q = sp - 0x68 + 0x40 \/ q = sp - 0x68 + 0x50) ->
  read n (saved s) q = wrap (8 * Z.of_nat n)
    (if q =? sp + 8 then gpr s rcx else if q =? sp + 16 then gpr s rdx else if q =? sp + 24 then gpr s r8
     else if q =? sp + 32 then gpr s r9 else xmm s ((q - (sp - 0x68 + 0x20)) / 16)).
Proof using Type.
  unfold saved. cbn zeta.
  intros [[-> [-> | [-> | [-> | ->]]]]|[-> [-> | [-> | [-> | ->]]]]];
    repeat first [rewrite read_write | rewrite read_write_other by lia];
    repeat match goal with
    | |- context [?x =? ?x] => rewrite (Z.eqb_refl x)
    | |- context [?x =? ?y] => rewrite (proj2 (Z.eqb_neq x y)) by lia
    end; try done; f_equal; f_equal; Z.div_mod_to_equations; lia.
Qed.

Lemma saved_above s x : sp <= x < sp + 8 \/ sp + 40 <= x -> saved s x = stk s x.
Proof using Hsp. intros H. unfold saved. cbn zeta. rewrite !write_other by lia. done. Qed.

End Tail.
End Runs.

(** The x64 convention: the callee returns to the address on the stack and owns
    nothing above the 32 bytes next to it. *)
Definition returned (s1 s2 : x64) : Prop :=
  rip s2 = read64le (stk s1) (gpr s1 rsp) /\ gpr s2 rsp = gpr s1 rsp + 8 /\
  forall x, gpr s1 rsp + 40 <= x -> stk s2 x = stk s1 x.

Definition same_arguments (s s' : x64) : Prop :=
  gpr s' rcx = gpr s rcx /\ gpr s' rdx = gpr s rdx /\ gpr s' r8 = gpr s r8 /\ gpr s' r9 = gpr s r9 /\
  forall i, 0 <= i < 4 -> xmm s' i = xmm s i.

(** Registers at their width. *)
Definition registers_ok (s : x64) : Prop := (forall r, word_ok 64 (gpr s r)) /\ forall i, word_ok 128 (xmm s i).

(** C24: a call through the slot of a delayed import on x64 is transparent. From
    the thunk the code reaches the helper with the descriptor of the DLL and the
    slot as its two arguments and with an aligned stack; and whatever a helper that
    follows the calling convention does with registers, memory and its home area,
    the code afterwards jumps to the address it returned with the arguments of the
    call, in registers and on the stack, the return address and the stack pointer
    as they were; the other registers are the caller's for the helper and the
    helper's for the function. *)
Theorem delay_call_transparent (code : mem) (base imp desc helper trva mrva buf buf' : Z) (st st' : rstate) (s : x64)
    (Hbase : 0 <= base /\ base + 2 ^ 32 < 2 ^ 64) (Himp : 0 <= imp < 2 ^ 31)
    (Hrvas : 0 <= desc < 2 ^ 31 /\ 0 <= helper < 2 ^ 31 /\ 0 <= mrva < 2 ^ 31 - 128) (Htrva : 0 <= trva < 2 ^ 31 - 16)
    (Hthunk : bytes_at code (base + trva) 12 = bytes_at (rmem (ThunkChunkX64_writeTo imp mrva trva buf st)) buf 12)
    (Htail : bytes_at code (base + mrva) 119 = bytes_at (rmem (TailMergeChunkX64_writeTo desc helper mrva buf' st')) buf' 119)
    (Hok : registers_ok s) (Hrip : rip s = base + trva)
    (Hsp : 0x80 <= gpr s rsp /\ gpr s rsp + 0x30 <= 2 ^ 64) (Halign : gpr s rsp mod 16 = 8) :
  exists s1, x64_steps 14 code s = Some s1 /\
    rip s1 = base + helper /\ gpr s1 rcx = base + desc /\ gpr s1 rdx = base + imp /\ gpr s1 rsp mod 16 = 8 /\
    (forall r, r ∉ [rax; rcx; rdx; rsp] -> gpr s1 r = gpr s r) /\
    forall s2, returned s1 s2 -> exists s3, x64_steps 10 code s2 = Some s3 /\
      rip s3 = gpr s2 rax /\ gpr s3 rsp = gpr s rsp /\ same_arguments s s3 /\
      (forall r, r ∉ [rcx; rdx; rsp; r8; r9] -> gpr s3 r = gpr s2 r) /\
      forall x, gpr s rsp <= x < gpr s rsp + 8 \/ gpr s rsp + 40 <= x -> stk s3 x = stk s x.
Proof.
  assert (Hc1 : has_bytes code (base + trva) (thunk_code imp mrva trva)) by (eapply copied_bytes; [exact Hthunk|apply thunk_written|reflexivity]).
  assert (Hc2 : has_bytes code (base + mrva) (tail_code desc helper mrva)) by (eapply copied_bytes; [exact Htail|apply tail_written|reflexivity]).
  set (s0 := {| rip := base + mrva; gpr := set_reg rax (base + imp) (gpr s); xmm := xmm s; stk := stk s |}).
  assert (E0 : x64_steps 2 code s = Some s0) by (apply (thunk_runs code base Hbase imp mrva trva s Hc1); (done || lia)).
  destruct (save_runs code base Hbase desc helper mrva (gpr s rsp) Hc2 Hrvas Hsp Halign s0 eq_refl eq_refl)
    as (s1 & E1 & Hrip1 & Hrcx & Hrdx & Hrsp1 & Hregs1 & Hstk1).
  exists s1. change 14%nat with (2 + 12)%nat. rewrite x64_steps_add, E0. cbn [mbind option_bind]. split; [exact E1|].
  split; [done|]. split; [done|]. split; [rewrite Hrdx; apply set_reg_eq|].
  split; [rewrite Hrsp1; Z.div_mod_to_equations; lia|]. split.
  { intros r Hr. rewrite !not_elem_of_cons in Hr. destruct Hr as (H1 & H2 & H3 & H4 & _). rewrite Hregs1 by done. by apply set_reg_ne. }
  intros s2 (Hrip2 & Hrsp2 & Hstk2). rewrite Hrsp1 in *. set (sp := gpr s rsp) in *.
  assert (Hm : forall n q, sp - 0x48 <= q -> read n (stk s2) q = read n (saved base mrva sp s0) q).
  { intros n q Hq. rewrite <- Hstk1. apply read_ext. intros k Hk. apply Hstk2. lia. }
  destruct (restore_runs code base Hbase desc helper mrva sp Hc2 Hrvas Hsp Halign s2)
    as (s3 & E3 & Hrip3 & Hrsp3 & G1 & G2 & G3 & G4 & GX & Hregs3 & Hstk3).
  { rewrite Hrip2, Hstk1. unfold saved. cbn zeta. rewrite read_write. apply wrap_small. unfold word_ok. lia. }
  { lia. }
  exists s3. split; [exact E3|]. split; [done|]. split; [done|]. destruct Hok as [Hg Hx].
  split; [|split].
  - unfold same_arguments. rewrite G1, G2, G3, G4, !Hm by lia.
    split; [|split; [|split; [|split]]].
    + rewrite saved_read by (left; lia). rewrite Z.eqb_refl. apply wrap_small, Hg.
    + rewrite saved_read by (left; lia). rewrite Z.eqb_refl, (proj2 (Z.eqb_neq _ _)) by lia. apply wrap_small, Hg.
    + rewrite saved_read by (left; lia). rewrite Z.eqb_refl, !(proj2 (Z.eqb_neq (sp + 24) _)) by lia. apply wrap_small, Hg.
    + rewrite saved_read by (left; lia). rewrite Z.eqb_refl, !(proj2 (Z.eqb_neq (sp + 32) _)) by lia. apply wrap_small, Hg.
    + intros i Hi. rewrite GX, Hm by lia. rewrite saved_read by (right; lia). rewrite !(proj2 (Z.eqb_neq _ _)) by lia.
      replace (sp - 104 + 32 + 16 * i - (sp - 104 + 32)) with (i * 16) by lia. rewrite Z.div_mul by done. apply wrap_small, Hx.
  - intros r Hr. rewrite !not_elem_of_cons in Hr. destruct Hr as (? & ? & ? & ? & ? & _). by apply Hregs3.
  - intros x Hx2. rewrite Hstk3, Hstk2, Hstk1 by lia. by rewrite saved_above.
Qed.

(** A thunk and its tail in one piece of memory, and a call. *)
Definition demo_delay_code : mem :=
  rmem (TailMergeChunkX64_writeTo 0x2000 0x1800 0x1010 0x140001010
    (ThunkChunkX64_writeTo 0x3008 0x1010 0x1000 0x140001000 zero_state)).
Definition demo_call : x64 :=
  {| rip := 0x140001000; gpr := fun r => if r =? rsp then 0x7ff8 else r mod 16 + 5; xmm := fun x => x mod 16; stk := fun _ => 0 |}.

Lemma delay_call_transparent_witness :
  registers_ok demo_call /\
  exists s1, x64_steps 14 demo_delay_code demo_call = Some s1 /\ rip s1 = 0x140001800 /\ gpr s1 rdx = 0x140003008.
Proof.
  assert (Hok : registers_ok demo_call).
  { split; [intros r|intros i]; unfold word_ok; cbn [demo_call gpr xmm]; [destruct (r =? rsp); [split; vm_compute; congruence|]|].
    - pose proof (Z.mod_pos_bound r 16 ltac:(lia)). lia.
    - pose proof (Z.mod_pos_bound i 16 ltac:(lia)). lia. }
  split; [exact Hok|].
  destruct (delay_call_transparent demo_delay_code 0x140000000 0x3008 0x2000 0x1800 0x1000 0x1010 0x140001000 0x140001010
    zero_state (ThunkChunkX64_writeTo 0x3008 0x1010 0x1000 0x140001000 zero_state) demo_call) as (s1 & H1 & H2 & _ & H3 & _);
    [lia|lia|lia|lia|vm_compute; reflexivity|vm_compute; reflexivity|exact Hok|reflexivity|split; vm_compute; discriminate|reflexivity|].
  exists s1. split; [exact H1|]. split; [exact H2|exact H3].
Defined.

