(* ===== verification/Delay.v ===== *)
(** * Delay-load tables (lld/COFF/DLL.cpp)

    [DelayLoadContents::create] makes the tables of the imports whose DLL is loaded
    at the first call: a directory like that of Imports.v, whose address table
    starts out with thunks (DelayThunks.v), and the code and unwind data of each
    DLL. Chunks are ids in order of creation, as in Imports.v; the fields of a
    directory chunk that are set after it is made are kept apart. *)

From S2P Require Import Prelude Memory Reloc SectionChunk Baserel Thunks Imports DelayThunks.

#[local] Open Scope string_scope.
#[local] Open Scope list_scope.
#[local] Open Scope Z_scope.

(** ** Data *)

Inductive delay_machine := DM_AMD64 | DM_ARM64EC | DM_I386 | DM_ARMNT | DM_ARM64.
#[export] Instance delay_machine_eq_dec : EqDecision delay_machine.
Proof. solve_decision. Defined.

(** A symbol table: the machine it links for, and the RVA of its helper. *)
Record delay_symtab := { ds_machine : delay_machine; ds_isEC : bool; delayLoadHelper : option Z }.

(** [TableChunk] is a chunk of a kind that import tables have too; a tail names its
    symbol table by its position. *)
Inductive dchunk :=
| TableChunk (c : ichunk)
| DelayDirectoryChunk (dllName : nat)
| DelayAddressChunk (thunk : nat)
| ThunkChunk (imp : nat) (tailMerge : nat)
| TailMergeChunk (symtab : nat) (desc : nat)
| TailMergePDataChunk (tm unwind : nat)
| TailMergeUnwindInfo.

(** The vectors of [DelayLoadContents]. *)
Inductive dvec := Dirs | ModuleHandles | Addresses | Names | HintNames | ThunkVec | PData | UnwindInfo | DllNames | AuxIat | AuxIatCopy.
#[export] Instance dvec_eq_dec : EqDecision dvec.
Proof. solve_decision. Defined.

Record delay_fields := { moduleHandle : nat; addressTab : nat; nameTab : nat }.

Record delay := {
  dmade : list dchunk;
  vec : dvec -> list nat;
  dirFields : list (nat * delay_fields);
  dlocations : list (nat * imp_symbol * nat);    (* the last one counts *)
  loadThunkSym : list (nat * nat);               (* of a file: the thunk it names *)
  synthetic : list (string * nat);
  ddynamicRelocs : list dynreloc;
  unwindChunk : gmap nat nat                     (* [tailMergeUnwindInfoChunk] of a symbol table *)
}.

Definition empty_delay : delay :=
  {| dmade := []; vec := fun _ => []; dirFields := []; dlocations := []; loadThunkSym := []; synthetic := [];
     ddynamicRelocs := []; unwindChunk := ∅ |}.

(** [make<T>(...)], [push_back] and the assignments. *)
Definition dmake (c : dchunk) (D : delay) : nat * delay :=
  (length (dmade D),
   {| dmade := dmade D ++ [c]; vec := vec D; dirFields := dirFields D; dlocations := dlocations D; loadThunkSym := loadThunkSym D;
      synthetic := synthetic D; ddynamicRelocs := ddynamicRelocs D; unwindChunk := unwindChunk D |}).
Definition push_back (v : dvec) (c : nat) (D : delay) : delay :=
  {| dmade := dmade D; vec := fun w => if decide (w = v) then vec D w ++ [c] else vec D w; dirFields := dirFields D;
     dlocations := dlocations D; loadThunkSym := loadThunkSym D; synthetic := synthetic D; ddynamicRelocs := ddynamicRelocs D;
     unwindChunk := unwindChunk D |}.
Definition set_dir_fields (d : nat) (x : delay_fields) (D : delay) : delay :=
  {| dmade := dmade D; vec := vec D; dirFields := dirFields D ++ [(d, x)]; dlocations := dlocations D; loadThunkSym := loadThunkSym D;
     synthetic := synthetic D; ddynamicRelocs := ddynamicRelocs D; unwindChunk := unwindChunk D |}.
Definition set_location (f : nat) (s : imp_symbol) (c : nat) (D : delay) : delay :=
  {| dmade := dmade D; vec := vec D; dirFields := dirFields D; dlocations := dlocations D ++ [(f, s, c)];
     loadThunkSym := loadThunkSym D; synthetic := synthetic D; ddynamicRelocs := ddynamicRelocs D; unwindChunk := unwindChunk D |}.
Definition set_load_thunk (f t : nat) (D : delay) : delay :=
  {| dmade := dmade D; vec := vec D; dirFields := dirFields D; dlocations := dlocations D; loadThunkSym := loadThunkSym D ++ [(f, t)];
     synthetic := synthetic D; ddynamicRelocs := ddynamicRelocs D; unwindChunk := unwindChunk D |}.
Definition add_synthetic (n : string) (c : nat) (D : delay) : delay :=
  {| dmade := dmade D; vec := vec D; dirFields := dirFields D; dlocations := dlocations D; loadThunkSym := loadThunkSym D;
     synthetic := synthetic D ++ [(n, c)]; ddynamicRelocs := ddynamicRelocs D; unwindChunk := unwindChunk D |}.
Definition add_dynamic_reloc (r : dynreloc) (D : delay) : delay :=
  {| dmade := dmade D; vec := vec D; dirFields := dirFields D; dlocations := dlocations D; loadThunkSym := loadThunkSym D;
     synthetic := synthetic D; ddynamicRelocs := ddynamicRelocs D ++ [r]; unwindChunk := unwindChunk D |}.
Definition set_unwind (k c : nat) (D : delay) : delay :=
  {| dmade := dmade D; vec := vec D; dirFields := dirFields D; dlocations := dlocations D; loadThunkSym := loadThunkSym D;
     synthetic := synthetic D; ddynamicRelocs := ddynamicRelocs D; unwindChunk := <[k := c]> (unwindChunk D) |}.

Section Create.
  Context (cfg : idata_config) (files : nat -> import_file) (symtabs : list delay_symtab).
  Context (sort : (nat -> nat -> bool) -> list nat -> list nat).

(** A new chunk at the end of a vector. *)
Definition make_back (v : dvec) (c : dchunk) (D : delay) : nat * delay :=
  let '(i, D) := dmake c D in (i, push_back v i D).

Definition newTailMergePDataChunk (k : nat) (T : delay_symtab) (tm : nat) (D : delay) : delay :=
  match ds_machine T with
  | DM_AMD64 | DM_ARM64EC =>
      let '(u, D) :=
        match unwindChunk D !! k with
        | Some u => (u, D)
        | None => let '(u, D) := dmake TailMergeUnwindInfo D in (u, set_unwind k u D)
        end in
      (make_back PData (TailMergePDataChunk tm u) D).2
  | _ => D
  end.

(** The name table entry of an import, and its load thunk symbol. *)
Definition add_name (f t : nat) (D : delay) : delay :=
  let F := files f in
  if String.eqb (if_externalName F) "" then (make_back Names (TableChunk (OrdinalOnlyChunk (if_ordinalHint F))) D).2
  else
    let '(c, D) := dmake (TableChunk (HintNameChunk (if_externalName F) 0)) D in
    let D := (make_back Names (TableChunk (LookupChunk c)) D).2 in
    let D := push_back HintNames c D in
    set_load_thunk f t (add_synthetic ("__imp___load_" ++ if_externalName F)%string t D).

Definition add_aux (isEC : bool) (f : nat) (D : delay) : delay :=
  if isEC then
    let '(c, D) := make_back AuxIat (TableChunk (AuxImportChunk f)) D in
    let D := set_location f ImpECSym c D in
    let '(c, D) := make_back AuxIatCopy (TableChunk (AuxImportChunk f)) D in
    set_location f AuxImpCopySym c D
  else if id_arm64x cfg then
    let D := (make_back AuxIat (TableChunk (NullChunk (id_wordsize cfg))) D).2 in
    (make_back AuxIatCopy (TableChunk (NullChunk (id_wordsize cfg))) D).2
  else D.

(** One import of a DLL in one symbol table; [tm] is the tail once there is one. *)
Definition delay_import (k : nat) (T : delay_symtab) (dir : nat) (st : option nat * delay) (f : nat) : option nat * delay :=
  let '(tm, D) := st in
  if negb (Bool.eqb (ds_isEC T) (if_isEC (files f))) then (tm, D)
  else
    let '(tm, D) :=
      match tm with
      | Some tm => (tm, D)
      | None => let '(tm, D) := dmake (TailMergeChunk k dir) D in (tm, newTailMergePDataChunk k T tm D)
      end in
    let '(t, D) := dmake (ThunkChunk f tm) D in
    let '(a, D) := make_back Addresses (DelayAddressChunk t) D in
    let D := push_back ThunkVec t (set_location f ImpSym a D) in
    (Some tm, add_aux (ds_isEC T) f (add_name f t D)).

(** The terminators of the tables of one symbol table. *)
Definition end_delay (D : delay) : delay :=
  let D := (make_back Addresses (TableChunk (NullChunk 8)) D).2 in
  let D := (make_back Names (TableChunk (NullChunk 8)) D).2 in
  if id_symtabEC cfg then
    let D := (make_back AuxIat (TableChunk (NullChunk 8)) D).2 in
    (make_back AuxIatCopy (TableChunk (NullChunk 8)) D).2
  else D.

(** One symbol table of a DLL; [base] is where its tables start. *)
Definition delay_in_symtab (syms : list nat) (dir : nat) (st : nat * delay) (kT : nat * delay_symtab) : nat * delay :=
  let '(base, D) := st in
  let '(k, T) := kT in
  let n := length (vec D Addresses) in
  let '(base, D) :=
    if ds_isEC T then
      if id_arm64x cfg then
        let r off := {| dr_type := FIXUP_DELTA; dr_size := 0; dr_chunk := dir; dr_offset := off;
                        dr_value := RelocConst (Z.of_nat (n - base) * 8) |} in
        (base, add_dynamic_reloc (r 16) (add_dynamic_reloc (r 12) D))
      else (n, D)
    else (base, D) in
  let '(tm, D) := fold_left (delay_import k T dir) syms (None, D) in
  match tm with
  | Some tm =>
      let D := push_back ThunkVec tm D in
      (base, end_delay (add_synthetic ("__tailMerge_" ++ dll_of files (nth 0 syms O))%string tm D))
  | None => if negb (ds_isEC T) && negb (id_arm64x cfg) then (base, D) else (base, end_delay D)
  end.

(** The tables of one DLL. *)
Definition delay_group (D : delay) (syms : list nat) : delay :=
  let '(n, D) := make_back DllNames (TableChunk (StringChunk (if_dllName (files (nth 0 syms O))))) D in
  let '(dir, D) := dmake (DelayDirectoryChunk n) D in
  let '(base, D) := fold_left (delay_in_symtab syms dir) (imap pair symtabs) (length (vec D Addresses), D) in
  let '(mh, D) := make_back ModuleHandles (TableChunk (NullChunk 8)) D in
  let D := set_dir_fields dir {| moduleHandle := mh; addressTab := nth base (vec D Addresses) O; nameTab := nth base (vec D Names) O |} D in
  push_back Dirs dir D.

Definition push_unwind (D : delay) (k : nat) : delay :=
  match unwindChunk D !! k with Some u => push_back UnwindInfo u D | None => D end.

Definition create_delay (o : dllOrder) (imports : list nat) : delay :=
  let D := fold_left delay_group (binImports files sort o imports) empty_delay in
  let D := fold_left push_unwind (seq 0 (length symtabs)) D in
  (make_back Dirs (TableChunk (NullChunk 32)) D).2.

(** ** Where the chunks go *)

Definition getChunks (D : delay) : list nat := vec D Dirs ++ vec D Names ++ vec D HintNames ++ vec D DllNames.
Definition getDataChunks (D : delay) : list nat := vec D ModuleHandles ++ vec D Addresses.
Definition getDirSize (D : delay) : Z := Z.of_nat (length (vec D Dirs)) * 32.

(** In the order of [appendImportThunks]; the auxiliary table is part of the import
    tables. *)
Definition delay_chunks (D : delay) : list nat :=
  getChunks D ++ getDataChunks D ++ vec D ThunkVec ++ vec D PData ++ vec D AuxIatCopy ++ vec D UnwindInfo ++ vec D AuxIat.

Definition dlocation (D : delay) (f : nat) (s : imp_symbol) : option nat :=
  fold_left (fun r x => let '(f', s', c) := x in if decide (f' = f /\ s' = s) then Some c else r) (dlocations D) None.

Definition fields_of (D : delay) (d : nat) : option delay_fields :=
  fold_left (fun r x => if (x.1 =? d)%nat then Some x.2 else r) (dirFields D) None.

(** ** Contents *)

Context (machine_of : nat -> delay_machine).

Definition thunk_template (mc : delay_machine) : list Z :=
  match mc with
  | DM_AMD64 | DM_ARM64EC => thunkX64
  | DM_I386 => thunkX86
  | DM_ARMNT => thunkARM
  | DM_ARM64 => thunkARM64
  end.
Definition tail_template (mc : delay_machine) : list Z :=
  match mc with
  | DM_AMD64 | DM_ARM64EC => tailMergeX64
  | DM_I386 => tailMergeX86
  | DM_ARMNT => tailMergeARM
  | DM_ARM64 => tailMergeARM64
  end.

Definition dc_getSize (c : dchunk) : Z :=
  match c with
  | TableChunk c => ic_getSize cfg c
  | DelayDirectoryChunk _ => 32
  | DelayAddressChunk _ => id_wordsize cfg
  | ThunkChunk f _ => Z.of_nat (length (thunk_template (machine_of f)))
  | TailMergeChunk k _ => match symtabs !! k with Some T => Z.of_nat (length (tail_template (ds_machine T))) | None => 0 end
  | TailMergePDataChunk _ _ => 12
  | TailMergeUnwindInfo => Z.of_nat (length tailMergeUnwindInfoX64)
  end.

Context (D : delay) (rva : nat -> Z) (isARMNT : bool).

(** The RVA of an import's slot, and the size of a chunk. *)
Definition imp_rva (f : nat) : Z := match dlocation D f ImpSym with Some c => rva c | None => 0 end.
Definition size_at (c : nat) : Z := match dmade D !! c with Some x => dc_getSize x | None => 0 end.

(** Without a helper only the ARM64 tail is defined. *)
Definition helper_rva (T : delay_symtab) : Z := default 0 (delayLoadHelper T).

Definition dc_writeTo (i : nat) (c : dchunk) (buf : Z) (st : rstate) : rstate :=
  match c with
  | TableChunk c => on_mem (ic_writeTo cfg files rva c buf) st
  | DelayDirectoryChunk n =>
      on_mem (fun m =>
        let m := memcpy m buf (repeat 0 32%nat) in
        match fields_of D i with
        | Some F =>
            let m := write32le m buf 1 in
            let m := write32le m (buf + 4) (rva n) in
            let m := write32le m (buf + 8) (rva (moduleHandle F)) in
            let m := write32le m (buf + 12) (rva (addressTab F)) in
            write32le m (buf + 16) (rva (nameTab F))
        | None => m
        end) st
  | DelayAddressChunk t =>
      on_mem (fun m =>
        if id_is64 cfg then write64le m buf (rva t + id_imageBase cfg)
        else write32le m buf ((rva t + id_imageBase cfg) ||| (if isARMNT then 1 else 0))) st
  | ThunkChunk f tm =>
      match machine_of f with
      | DM_AMD64 | DM_ARM64EC => ThunkChunkX64_writeTo (imp_rva f) (rva tm) (rva i) buf st
      | DM_I386 => ThunkChunkX86_writeTo (id_imageBase cfg) (imp_rva f) (rva tm) (rva i) buf st
      | DM_ARMNT => ThunkChunkARM_writeTo (id_imageBase cfg) (imp_rva f) (rva tm) (rva i) buf st
      | DM_ARM64 => ThunkChunkARM64_writeTo (imp_rva f) (rva tm) (rva i) buf st
      end
  | TailMergeChunk k d =>
      match symtabs !! k with
      | None => st
      | Some T =>
          match ds_machine T with
          | DM_AMD64 | DM_ARM64EC => TailMergeChunkX64_writeTo (rva d) (helper_rva T) (rva i) buf st
          | DM_I386 => TailMergeChunkX86_writeTo (id_imageBase cfg) (rva d) (helper_rva T) (rva i) buf st
          | DM_ARMNT => TailMergeChunkARM_writeTo (id_imageBase cfg) (rva d) (helper_rva T) (rva i) buf st
          | DM_ARM64 => TailMergeChunkARM64_writeTo (rva d) (delayLoadHelper T) (rva i) buf st
          end
      end
  | TailMergePDataChunk tm u => TailMergePDataChunkX64_writeTo (rva tm) (size_at tm) (rva u) buf st
  | TailMergeUnwindInfo => TailMergeUnwindInfoX64_writeTo buf st
  end.

Definition DelayAddressChunk_getBaserels (c : nat) : list Baserel := [{| br_rva := rva c; br_type := getDefaultType (id_is64 cfg) |}].

Definition write_delay (l : list nat) (st : rstate) : rstate :=
  fold_left (fun st c => match dmade D !! c with Some x => dc_writeTo c x (rva c) st | None => st end) l st.

End Create.
