(* ===== verification/DelayProps.v ===== *)
(** * What the delay-load tables guarantee (theorems on Delay.v)

    The helper of the run-time library finds, from the descriptor and the slot that
    the code of DelayThunks.v passes, the DLL and the import of the slot. *)

From S2P Require Import Prelude Memory Reloc RelocProps SectionChunk Baserel Rebase Thunks Imports ImportsProps DelayThunks Delay.

#[local] Open Scope string_scope.
#[local] Open Scope list_scope.
#[local] Open Scope Z_scope.

(** ** The helper

    The index of the slot in the address table is that of its entry in the name
    table. *)

Definition delay_resolve (is64 : bool) (m : mem) (desc slot : Z) : string * option import :=
  let w := Z.of_nat (entry_size is64) in
  let i := (slot - read32le m (desc + 12)) / w in
  (cstring name_limit m (read32le m (desc + 4)), read_import is64 m (read32le m (desc + 16) + w * i)).

(** What a delayed import asks for: its hint is not kept. *)
Definition delayed_import_of (F : import_file) : import :=
  if String.eqb (if_externalName F) "" then ByOrdinal (if_ordinalHint F) else ByName 0 (if_externalName F).

(** ** The chunks made *)

Lemma vec_push v w c D : vec (push_back v c D) w = if decide (w = v) then vec D w ++ [c] else vec D w.
Proof. done. Qed.

#[local] Ltac vecs := cbn; repeat first [rewrite decide_False by done | rewrite decide_True by done].

(** Chunks and vectors only grow; fields are set for new directories. *)
Record mgrows (D D' : delay) : Prop := {
  mg_made : dmade D `prefix_of` dmade D';
  mg_vec v : vec D v `prefix_of` vec D' v
}.

Record dgrows (D D' : delay) : Prop := {
  dg_m : mgrows D D';
  dg_fields : exists l, dirFields D' = dirFields D ++ l /\ Forall (fun x => (length (dmade D) <= x.1)%nat) l
}.

#[export] Instance mgrows_preorder : PreOrder mgrows.
Proof.
  split; [by intros D; split|]. intros D1 D2 D3 [A1 B1] [A2 B2]. split; [by etrans|]. intros v. etrans; [apply B1|apply B2].
Qed.

#[export] Instance dgrows_preorder : PreOrder dgrows.
Proof.
  split.
  - intros D. split; [done|]. exists []. by rewrite app_nil_r.
  - intros D1 D2 D3 [M1 (l1 & C1 & F1)] [M2 (l2 & C2 & F2)]. split; [by etrans|].
    exists (l1 ++ l2). rewrite C2, C1, app_assoc. split; [done|]. apply Forall_app. split; [done|].
    eapply Forall_impl; [exact F2|]. intros x Hx. destruct M1 as [A1 _]. apply prefix_length in A1. cbn in *. lia.
Qed.

Lemma dgrows_fields D D' : mgrows D D' -> dirFields D' = dirFields D -> dgrows D D'.
Proof. intros M E. split; [done|]. exists []. by rewrite E, app_nil_r. Qed.

Lemma dgrows_make c D : dgrows D (dmake c D).2.
Proof. apply dgrows_fields; [|done]. split; cbn; [by apply prefix_app_r|done]. Qed.

Lemma dgrows_push v c D : dgrows D (push_back v c D).
Proof.
  apply dgrows_fields; [|done]. split; [done|]. intros w. rewrite vec_push. destruct (decide _); [by apply prefix_app_r|done].
Qed.

Lemma dgrows_make_back v c D : dgrows D (make_back v c D).2.
Proof. etrans; [apply dgrows_make|apply dgrows_push]. Qed.

Lemma mgrows_same D D' : dmade D' = dmade D -> (forall v, vec D' v = vec D v) -> mgrows D D'.
Proof. intros H1 H2. split; [by rewrite H1|intros v; by rewrite H2]. Qed.

Lemma mgrows_lookup D D' c x : mgrows D D' -> dmade D !! c = Some x -> dmade D' !! c = Some x.
Proof. intros [H _] Hc. by eapply prefix_lookup_Some. Qed.

Lemma mgrows_vec D D' v i c : mgrows D D' -> vec D v !! i = Some c -> vec D' v !! i = Some c.
Proof. intros [_ H] Hc. by eapply prefix_lookup_Some. Qed.

Lemma mgrows_in D D' v c : mgrows D D' -> c ∈ vec D v -> c ∈ vec D' v.
Proof. intros [_ H] Hc. destruct (H v) as [l ->]. apply elem_of_app. by left. Qed.

Lemma dmade_last c D : dmade (dmake c D).2 !! (dmake c D).1 = Some c.
Proof. cbn. by apply list_lookup_middle. Qed.

(** The tables a group uses. *)
Definition tables_same (D D' : delay) : Prop :=
  vec D' Dirs = vec D Dirs /\ vec D' DllNames = vec D DllNames /\ dirFields D' = dirFields D.

Section Made.
Context (cfg : idata_config) (files : nat -> import_file) (T : delay_symtab).
Context (Hec : id_symtabEC cfg = false) (Hx : id_arm64x cfg = false) (HT : ds_isEC T = false).

Definition name_at (D : delay) (c f : nat) : Prop :=
  if String.eqb (if_externalName (files f)) "" then dmade D !! c = Some (TableChunk (OrdinalOnlyChunk (if_ordinalHint (files f))))
  else exists h, dmade D !! c = Some (TableChunk (LookupChunk h)) /\
    dmade D !! h = Some (TableChunk (HintNameChunk (if_externalName (files f)) 0)) /\ h ∈ vec D HintNames.

Definition slot_at (D : delay) (a f tm : nat) : Prop :=
  exists t, dmade D !! a = Some (DelayAddressChunk t) /\ dmade D !! t = Some (ThunkChunk f tm) /\ t ∈ vec D ThunkVec.

Lemma name_grows D D' c f : mgrows D D' -> name_at D c f -> name_at D' c f.
Proof using Type.
  intros G. unfold name_at. destruct (String.eqb _ _); [by apply mgrows_lookup|]. intros (h & H1 & H2 & H3).
  exists h. split; [by eapply mgrows_lookup|]. split; [by eapply mgrows_lookup|by eapply mgrows_in].
Qed.

Lemma slot_grows D D' a f tm : mgrows D D' -> slot_at D a f tm -> slot_at D' a f tm.
Proof using Type.
  intros G (t & H1 & H2 & H3). exists t. split; [by eapply mgrows_lookup|]. split; [by eapply mgrows_lookup|by eapply mgrows_in].
Qed.

Lemma add_name_spec f t D : exists nm, let D' := add_name files f t D in
  dgrows D D' /\ vec D' Names = vec D Names ++ [nm] /\ name_at D' nm f /\ tables_same D D' /\
  vec D' Addresses = vec D Addresses /\ vec D' ThunkVec = vec D ThunkVec /\ dlocations D' = dlocations D.
Proof using Type.
  unfold add_name, name_at. destruct (String.eqb _ _).
  - exists (length (dmade D)). cbn. split; [|split_and!; try done; by apply list_lookup_middle].
    apply dgrows_make_back.
  - exists (length (dmade D ++ [TableChunk (HintNameChunk (if_externalName (files f)) 0)])). cbn.
    split; [|split_and!; try done].
    + apply dgrows_fields; [|done]. split; cbn; [rewrite <- app_assoc; by apply prefix_app_r|].
      intros v. destruct v; cbn; first [done|by apply prefix_app_r].
    + exists (length (dmade D)). split; [by apply list_lookup_middle|]. split.
      * rewrite <- app_assoc. by apply list_lookup_middle.
      * apply elem_of_app. right. by left.
Qed.

(** The first import of a DLL makes the tail. *)
Lemma delay_import_first k dir D f : if_isEC (files f) = false ->
  delay_import cfg files k T dir (None, D) f =
  delay_import cfg files k T dir (Some (length (dmade D)), newTailMergePDataChunk k T (length (dmade D)) (dmake (TailMergeChunk k dir) D).2) f.
Proof using HT. intros Hf. unfold delay_import. rewrite HT, Hf. done. Qed.

Lemma tail_spec k dir D : let D1 := newTailMergePDataChunk k T (length (dmade D)) (dmake (TailMergeChunk k dir) D).2 in
  dgrows D D1 /\ tables_same D D1 /\ vec D1 Addresses = vec D Addresses /\ vec D1 Names = vec D Names /\
  dlocations D1 = dlocations D /\ dmade D1 !! length (dmade D) = Some (TailMergeChunk k dir).
Proof using Type.
  set (D0 := (dmake (TailMergeChunk k dir) D).2). cbn zeta.
  assert (H0 : dgrows D D0 /\ tables_same D D0 /\ vec D0 Addresses = vec D Addresses /\ vec D0 Names = vec D Names /\
    dlocations D0 = dlocations D /\ dmade D0 !! length (dmade D) = Some (TailMergeChunk k dir))
    by (split; [apply dgrows_make|]; split_and!; try done; apply dmade_last).
  destruct H0 as (G & (S1 & S2 & S3) & E1 & E2 & E3 & E4).
  assert (Hp : forall tm u D1, dgrows D0 D1 -> tables_same D0 D1 -> vec D1 Addresses = vec D0 Addresses -> vec D1 Names = vec D0 Names ->
    dlocations D1 = dlocations D0 -> let D2 := (make_back PData (TailMergePDataChunk tm u) D1).2 in
    dgrows D D2 /\ tables_same D D2 /\ vec D2 Addresses = vec D Addresses /\ vec D2 Names = vec D Names /\
    dlocations D2 = dlocations D /\ dmade D2 !! length (dmade D) = Some (TailMergeChunk k dir)).
  { intros tm u D1 G1 (A & B & C) F1 F2 F3 D2. assert (G2 : dgrows D1 D2) by apply dgrows_make_back.
    split; [by do 2 (etrans; [eassumption|])|]. split; [repeat split; unfold D2; vecs; congruence|].
    split_and!; [unfold D2; vecs; congruence..|]. apply (mgrows_lookup D0 D2); [apply dg_m; by etrans|done]. }
  unfold newTailMergePDataChunk. destruct (ds_machine T); try (by split_and!).
  all: destruct (unwindChunk D0 !! k) as [u|]; [by apply Hp|].
  all: apply Hp; try done; apply dgrows_fields; [split; [by apply prefix_app_r|done]|done].
Qed.

(** One import. *)
Lemma delay_import_spec k dir tm D f : if_isEC (files f) = false -> exists a nm D',
  delay_import cfg files k T dir (Some tm, D) f = (Some tm, D') /\
  dgrows D D' /\ tables_same D D' /\ vec D' Addresses = vec D Addresses ++ [a] /\ vec D' Names = vec D Names ++ [nm] /\
  dlocations D' = dlocations D ++ [(f, ImpSym, a)] /\ slot_at D' a f tm /\ name_at D' nm f.
Proof using HT Hx.
  intros Hf. unfold delay_import. rewrite HT, Hf. cbn [Bool.eqb negb dmake make_back].
  set (D1 := push_back ThunkVec _ _). destruct (add_name_spec f (length (dmade D)) D1) as (nm & G & En & Hn & S & Ea & Et & El).
  set (D2 := add_name files f (length (dmade D)) D1) in *.
  assert (G1 : dgrows D D1).
  { apply dgrows_fields; [|done]. split; cbn; [rewrite <- app_assoc; by apply prefix_app_r|].
    intros v. destruct v; cbn; first [done|by apply prefix_app_r]. }
  exists (length (dmade D ++ [ThunkChunk f tm])), nm, D2. split; [by unfold add_aux; rewrite Hx|].
  destruct S as (S1 & S2 & S3). split; [by etrans|]. split; [repeat split; [rewrite S1|rewrite S2|rewrite S3]; reflexivity|].
  split; [rewrite Ea; reflexivity|]. split; [rewrite En; reflexivity|]. split; [rewrite El; reflexivity|]. split; [|done]. apply (slot_grows D1); [apply G|]. exists (length (dmade D)). cbn. split; [|split].
  - by apply list_lookup_middle.
  - rewrite <- app_assoc. by apply list_lookup_middle.
  - apply elem_of_app. right. by left.
Qed.

(** All of them. *)
Lemma delay_imports_spec k dir tm syms : forall D, (forall f, f ∈ syms -> if_isEC (files f) = false) -> exists as_ nms D',
  fold_left (delay_import cfg files k T dir) syms (Some tm, D) = (Some tm, D') /\
  dgrows D D' /\ tables_same D D' /\ vec D' Addresses = vec D Addresses ++ as_ /\ vec D' Names = vec D Names ++ nms /\
  length as_ = length syms /\ length nms = length syms /\
  dlocations D' = dlocations D ++ zip_with (fun f a => (f, ImpSym, a)) syms as_ /\
  forall j f, syms !! j = Some f -> exists a nm, as_ !! j = Some a /\ nms !! j = Some nm /\ slot_at D' a f tm /\ name_at D' nm f.
Proof using HT Hx.
  induction syms as [|f syms IH]; intros D Hf.
  { exists [], [], D. cbn. rewrite !app_nil_r. split_and!; done. }
  destruct (delay_import_spec k dir tm D f (Hf f ltac:(by left))) as (a & nm & D1 & E1 & G1 & (A1 & A2 & A3) & Ea & En & El & Hs & Hn).
  destruct (IH D1 ltac:(intros; apply Hf; by right)) as (as_ & nms & D2 & E2 & G2 & (B1 & B2 & B3) & Ea2 & En2 & La & Ln & El2 & Hall).
  exists (a :: as_), (nm :: nms), D2. cbn [fold_left]. rewrite E1, E2. split; [done|]. split; [by etrans|].
  split; [repeat split; congruence|]. split; [by rewrite Ea2, Ea, <- app_assoc|]. split; [by rewrite En2, En, <- app_assoc|].
  split; [cbn; by rewrite La|]. split; [cbn; by rewrite Ln|]. split; [rewrite El2, El, <- app_assoc; done|].
  intros [|j] f' Hj; cbn in Hj; [|by apply Hall]. injection Hj as <-. exists a, nm.
  split_and!; [done|done|eapply slot_grows; [apply G2|done]|eapply name_grows; [apply G2|done]].
Qed.

(** ** Locations and fields *)

Lemma dlocation_app D D' l f : dlocations D' = dlocations D ++ l -> (forall x, x ∈ l -> x.1.1 <> f) -> dlocation D' f ImpSym = dlocation D f ImpSym.
Proof using Type.
  intros E Hl. unfold dlocation. rewrite E, fold_left_app. set (r := fold_left _ (dlocations D) None). clearbody r. clear E.
  induction l as [|[[f' s'] c] l IH]; [done|]. cbn [fold_left]. rewrite decide_False.
  - apply IH. intros x Hin. apply Hl. by right.
  - intros [-> _]. by apply (Hl (f, s', c)); [by left|].
Qed.

Lemma dlocation_zip D D' g as_ j f a : dlocations D' = dlocations D ++ zip_with (fun f a => (f, ImpSym, a)) g as_ -> NoDup g ->
  g !! j = Some f -> as_ !! j = Some a -> dlocation D' f ImpSym = Some a.
Proof using Type.
  intros E Hnd Hj Ha. unfold dlocation. rewrite E, fold_left_app. set (r := fold_left _ (dlocations D) None). clearbody r. clear E.
  revert r as_ j Hj Ha. induction Hnd as [|f' g Hf' Hnd IH]; intros r as_ j Hj Ha; [done|]. destruct as_ as [|a' as_]; [done|].
  cbn [zip_with fold_left]. destruct j as [|j]; cbn in Hj, Ha; [|by eapply IH]. simplify_eq. rewrite decide_True by done.
  clear IH. revert as_. induction g as [|f' g IH]; intros as_; [done|]. destruct as_ as [|a' as_]; [done|]. cbn [zip_with fold_left].
  rewrite decide_False by (intros [-> _]; apply Hf'; by left). apply IH; [intros H; apply Hf'; by right|by apply NoDup_cons in Hnd as [_ ?]].
Qed.

Lemma fields_grow D D' d : dgrows D D' -> (d < length (dmade D))%nat -> fields_of D' d = fields_of D d.
Proof using Type.
  intros [_ (l & E & Hl)] Hd. unfold fields_of. rewrite E, fold_left_app. set (r := fold_left _ (dirFields D) None). clearbody r. clear E.
  induction Hl as [|x l Hlt Hl IH]; [done|]. cbn [fold_left]. by rewrite (proj2 (Nat.eqb_neq _ _)) by lia.
Qed.

(** ** Groups *)

(** The tables of the [k]-th DLL: its imports [g] are at position [b] on. *)
Definition dgroup_at (D : delay) (k b : nat) (g : list nat) : Prop :=
  exists d n F tm, vec D Dirs !! k = Some d /\ dmade D !! d = Some (DelayDirectoryChunk n) /\ fields_of D d = Some F /\
    vec D Addresses !! b = Some (addressTab F) /\ vec D Names !! b = Some (nameTab F) /\
    n ∈ vec D DllNames /\ dmade D !! n = Some (TableChunk (StringChunk (if_dllName (files (nth 0 g O))))) /\
    dmade D !! tm = Some (TailMergeChunk 0 d) /\ tm ∈ vec D ThunkVec /\
    forall j f, g !! j = Some f -> exists a nm, vec D Addresses !! (b + j)%nat = Some a /\ vec D Names !! (b + j)%nat = Some nm /\
      slot_at D a f tm /\ name_at D nm f /\ dlocation D f ImpSym = Some a.

Lemma dgroup_grows D D' k b g : dgrows D D' -> (forall f, f ∈ g -> dlocation D' f ImpSym = dlocation D f ImpSym) ->
  dgroup_at D k b g -> dgroup_at D' k b g.
Proof using Type.
  intros G Hloc (d & n & F & tm & H1 & H2 & H3 & H4 & H5 & H6 & H7 & H8 & H9 & H10). exists d, n, F, tm.
  pose proof (dg_m _ _ G) as GM. split_and!; try (by eapply mgrows_vec); try (by eapply mgrows_lookup); try (by eapply mgrows_in).
  - rewrite <- H3. apply fields_grow; [done|]. by eapply lookup_lt_Some.
  - intros j f Hj. destruct (H10 j f Hj) as (a & nm & A1 & A2 & A3 & A4 & A5). exists a, nm.
    split_and!; [by eapply mgrows_vec|by eapply mgrows_vec|by eapply slot_grows|by eapply name_grows|].
    rewrite Hloc; [done|]. by eapply list_elem_of_lookup_2.
Qed.

Lemma delay_group_spec D g : g <> [] -> NoDup g -> (forall f, f ∈ g -> if_isEC (files f) = false) ->
  length (vec D Addresses) = length (vec D Names) ->
  let D' := delay_group cfg files [T] D g in
  dgrows D D' /\ length (vec D' Dirs) = S (length (vec D Dirs)) /\
  length (vec D' Addresses) = (length (vec D Addresses) + length g + 1)%nat /\
  length (vec D' Names) = (length (vec D Names) + length g + 1)%nat /\
  (exists l, dlocations D' = dlocations D ++ l /\ forall x, x ∈ l -> x.1.1 ∈ g) /\
  dgroup_at D' (length (vec D Dirs)) (length (vec D Addresses)) g.
Proof using Hec Hx HT.
  intros Hne Hnd Hf Hlen. destruct g as [|f0 g0] eqn:Eg; [done|]. rewrite <- Eg in *.
  unfold delay_group. set (nc := TableChunk (StringChunk (if_dllName (files (nth 0 g O))))).
  destruct (make_back DllNames nc D) as [n D1] eqn:E1. destruct (dmake (DelayDirectoryChunk n) D1) as [d D2] eqn:E2.
  cbn [imap fold_left delay_in_symtab]. rewrite HT.
  destruct (delay_imports_spec 0 d (length (dmade D2)) g (newTailMergePDataChunk 0 T (length (dmade D2)) (dmake (TailMergeChunk 0 d) D2).2) Hf)
    as (as_ & nms & D4 & E4 & G4 & (S1 & S2 & S3) & Ea & En & La & Ln & El & Hall).
  destruct (tail_spec 0 d D2) as (G3 & (R1 & R2 & R3) & Ra & Rn & Rl & Rt). set (D3 := newTailMergePDataChunk _ _ _ _) in *.
  assert (E : fold_left (delay_import cfg files 0 T d) g (None, D2) = (Some (length (dmade D2)), D4)).
  { rewrite <- E4, Eg. cbn [fold_left]. rewrite delay_import_first by (apply Hf; rewrite Eg; by left). done. }
  rewrite E. unfold end_delay. rewrite Hec. set (D5 := push_back ThunkVec _ D4). set (D6 := (make_back Names _ _).2).
  destruct (make_back ModuleHandles _ D6) as [mh D7] eqn:E7. set (F := {| moduleHandle := mh |}). set (D9 := push_back Dirs d _).
  assert (ED1 : D1 = (make_back DllNames nc D).2 /\ n = length (dmade D)) by (by injection E1 as <- <-).
  assert (ED2 : D2 = (dmake (DelayDirectoryChunk n) D1).2 /\ d = length (dmade D1)) by (by injection E2 as <- <-).
  assert (ED7 : D7 = (make_back ModuleHandles (TableChunk (NullChunk 8)) D6).2) by (by rewrite E7).
  clear E1 E2 E7. destruct ED1 as [ED1 En1], ED2 as [ED2 Ed].
  assert (G02 : dgrows D D2) by (rewrite ED2, ED1; etrans; [apply dgrows_make_back|apply dgrows_make]).
  assert (G47 : dgrows D4 D7).
  { rewrite ED7. unfold D6. do 2 (etrans; [|apply dgrows_make_back]). etrans; [|apply dgrows_make_back].
    etrans; [apply (dgrows_push ThunkVec (length (dmade D2)))|]. apply dgrows_fields; [by apply mgrows_same|done]. }
  assert (M79 : mgrows D7 D9) by (split; [done|]; intros v; destruct v; cbn; first [done|by apply prefix_app_r]).
  assert (M49 : mgrows D4 D9) by (etrans; [apply G47|exact M79]).
  assert (Va : exists ta, vec D7 Addresses = vec D4 Addresses ++ [ta]) by (rewrite ED7; eexists; reflexivity).
  assert (Vn : exists tn, vec D7 Names = vec D4 Names ++ [tn]) by (rewrite ED7; eexists; reflexivity).
  assert (Vd : vec D9 Dirs = vec D4 Dirs ++ [d]) by (unfold D9; vecs; by rewrite ED7).
  assert (E97 : vec D7 Addresses = vec D9 Addresses /\ vec D7 Names = vec D9 Names) by done.
  assert (V2 : vec D2 Addresses = vec D Addresses /\ vec D2 Names = vec D Names /\ vec D2 Dirs = vec D Dirs /\ dlocations D2 = dlocations D /\
    dirFields D2 = dirFields D /\ vec D2 DllNames = vec D DllNames ++ [n]) by (rewrite ED2, ED1, En1; done).
  assert (L9 : dlocations D9 = dlocations D4 /\ dirFields D9 = dirFields D4 ++ [(d, F)]) by (unfold D9; rewrite ED7; done).
  assert (Vt : length (dmade D2) ∈ vec D9 ThunkVec).
  { change (vec D9 ThunkVec) with (vec D7 ThunkVec). rewrite ED7. change (length (dmade D2) ∈ vec D4 ThunkVec ++ [length (dmade D2)]).
    apply elem_of_app. right. by left. }
  destruct E97 as [E97a E97n]. rewrite E97a in Va. rewrite E97n in Vn.
  clearbody D9. destruct Va as [ta Va], Vn as [tn Vn], V2 as (A1 & A2 & A3 & A4 & A5 & A6), L9 as [L1 L2].
  rewrite Ea, Ra, A1 in Va. rewrite En, Rn, A2 in Vn. rewrite S1, R1, A3 in Vd. rewrite El, Rl, A4 in L1. rewrite S3, R3, A5 in L2.
  assert (M39 : mgrows D2 D9) by (etrans; [apply G3|]; etrans; [apply G4|exact M49]).
  assert (Hdn : (length (dmade D) <= d)%nat).
  { rewrite Ed, ED1. cbn. rewrite length_app. lia. }
  assert (Hg0 : (0 < length g)%nat) by (rewrite Eg; cbn; lia).
  split; [split; [etrans; [apply G02|exact M39]|exists [(d, F)]; split; [done|by repeat constructor]]|].
  split; [rewrite Vd, length_app; cbn; lia|]. split; [rewrite Va, !length_app; cbn; lia|]. split; [rewrite Vn, !length_app; cbn; lia|].
  split.
  { exists (zip_with (fun f a => (f, ImpSym, a)) g as_). split; [done|]. intros x Hin.
    apply elem_of_lookup_zip_with in Hin as (i & f & a & -> & Hi & _). by eapply list_elem_of_lookup_2. }
  exists d, n, F, (length (dmade D2)).
  assert (Hb : forall j f, g !! j = Some f -> exists a nm, vec D9 Addresses !! (length (vec D Addresses) + j)%nat = Some a /\
    vec D9 Names !! (length (vec D Addresses) + j)%nat = Some nm /\ slot_at D9 a f (length (dmade D2)) /\ name_at D9 nm f /\
    dlocation D9 f ImpSym = Some a).
  { intros j f Hj. destruct (Hall j f Hj) as (a & nm & B1 & B2 & B3 & B4). exists a, nm. pose proof (lookup_lt_Some _ _ _ B1).
    pose proof (lookup_lt_Some _ _ _ B2). split; [|split; [|split; [|split]]].
    - rewrite Va, <- app_assoc, lookup_app_r, lookup_app_l by lia. by replace (_ + j - _)%nat with j by lia.
    - rewrite Vn, Hlen, <- app_assoc, lookup_app_r, lookup_app_l by lia. by replace (_ + j - _)%nat with j by lia.
    - by apply (slot_grows D4).
    - by apply (name_grows D4).
    - by eapply dlocation_zip. }
  destruct (Hb 0%nat f0 ltac:(by rewrite Eg)) as (a0 & nm0 & B1 & B2 & _). rewrite Nat.add_0_r in B1, B2.
  split_and!.
  - rewrite Vd. by apply list_lookup_middle.
  - apply (mgrows_lookup D2); [done|]. rewrite ED2, Ed. apply dmade_last.
  - unfold fields_of. rewrite L2, fold_left_app. cbn. by rewrite Nat.eqb_refl.
  - unfold F. cbn. rewrite E97a, A1, B1. f_equal. symmetry. by apply nth_lookup_Some.
  - unfold F. cbn. rewrite E97n, A1, B2. f_equal. symmetry. by apply nth_lookup_Some.
  - apply (mgrows_in D2); [done|]. rewrite A6. apply elem_of_app. right. by left.
  - apply (mgrows_lookup D2); [done|]. rewrite ED2. cbn. apply lookup_app_l_Some. rewrite ED1, En1. by apply list_lookup_middle.
  - apply (mgrows_lookup D4); [done|]. by apply (mgrows_lookup D3); [apply G4|].
  - exact Vt.
  - exact Hb.
Qed.

Lemma delay_groups_spec v D : NoDup (concat v) -> Forall (fun g => g <> []) v -> (forall f, f ∈ concat v -> if_isEC (files f) = false) ->
  length (vec D Addresses) = length (vec D Names) ->
  let D' := fold_left (delay_group cfg files [T]) v D in
  dgrows D D' /\ length (vec D' Dirs) = (length (vec D Dirs) + length v)%nat /\
  (exists l, dlocations D' = dlocations D ++ l /\ forall x, x ∈ l -> x.1.1 ∈ concat v) /\
  forall k g, v !! k = Some g -> dgroup_at D' (length (vec D Dirs) + k) (length (vec D Addresses) + base_of v k) g.
Proof using Hec Hx HT.
  revert D. induction v as [|g v IH]; intros D Hnd Hne Hf Hlen.
  { cbn. split; [done|]. split; [lia|]. split; [|done]. exists []. rewrite app_nil_r. split; [done|]. by intros x ?%elem_of_nil. }
  apply Forall_cons in Hne as [Hg Hne]. cbn [concat] in Hnd, Hf. apply NoDup_app in Hnd as (Hndg & Hsep & Hndv).
  destruct (delay_group_spec D g Hg Hndg ltac:(intros; apply Hf, elem_of_app; by left) Hlen) as (G1 & Ld & La & Ln & (l1 & El1 & Hl1) & Hat).
  cbn [fold_left]. set (D1 := delay_group cfg files [T] D g) in *.
  destruct (IH D1 Hndv Hne ltac:(intros; apply Hf, elem_of_app; by right) ltac:(lia)) as (G2 & Ld2 & (l2 & El2 & Hl2) & Hall).
  set (D2 := fold_left _ v D1) in *. split; [by etrans|]. split; [cbn; lia|]. split.
  { exists (l1 ++ l2). rewrite El2, El1, app_assoc. split; [done|]. intros x [Hin|Hin]%elem_of_app; apply elem_of_app; [left; by apply Hl1|right; by apply Hl2]. }
  intros [|k] g' Hk; cbn in Hk.
  - injection Hk as <-. unfold base_of. cbn. rewrite !Nat.add_0_r. eapply dgroup_grows; [exact G2| |exact Hat].
    intros f Hfg. eapply dlocation_app; [exact El2|]. intros x Hin <-. exact (Hsep _ Hfg (Hl2 x Hin)).
  - specialize (Hall k g' Hk). rewrite Ld, La in Hall. unfold base_of in *. cbn [take concat]. rewrite length_app.
    replace (length (vec D Dirs) + S k)%nat with (S (length (vec D Dirs)) + k)%nat by lia.
    by replace (length (vec D Addresses) + (length g + length (concat (take k v)) + S k))%nat
      with (length (vec D Addresses) + length g + 1 + (length (concat (take k v)) + k))%nat by lia.
Qed.

Context (sort : (nat -> nat -> bool) -> list nat -> list nat) (Hsort : forall lt l, Permutation (sort lt l) l).

Lemma create_delay_spec o delayed : NoDup delayed -> (forall f, f ∈ delayed -> if_isEC (files f) = false) ->
  let D := create_delay cfg files [T] sort o delayed in
  let v := binImports files sort o delayed in
  (forall k g, v !! k = Some g -> dgroup_at D k (base_of v k) g) /\ length (vec D Dirs) = S (length v) /\
  exists c, vec D Dirs !! length v = Some c /\ dmade D !! c = Some (TableChunk (NullChunk 32)).
Proof using Hec Hx HT Hsort.
  intros Hnd Hf D v. destruct (binImports_spec files sort Hsort o delayed) as [Hperm Hgroups]. fold v in Hperm, Hgroups.
  destruct (delay_groups_spec v empty_delay) as (_ & Ld & _ & Hall).
  { by rewrite Hperm. }
  { eapply Forall_impl; [exact Hgroups|]. by intros g [? _]. }
  { intros f. rewrite Hperm. apply Hf. }
  { done. }
  unfold D, create_delay. fold v. set (D0 := fold_left _ v empty_delay) in *. set (D1 := fold_left _ (seq 0 _) D0).
  assert (H1 : dgrows D0 D1 /\ dlocations D1 = dlocations D0 /\ vec D1 Dirs = vec D0 Dirs).
  { unfold D1. generalize (seq 0 (length [T])). intros l. generalize D0. induction l as [|k l IH]; intros D0'; [done|]. cbn [fold_left].
    destruct (IH (push_unwind D0' k)) as (A & B & C). unfold push_unwind in *. destruct (unwindChunk D0' !! k) as [u|]; [|done].
    split; [etrans; [apply dgrows_push|exact A]|]. split; [exact B|exact C]. }
  destruct H1 as (G1 & L1 & V1). set (D2 := (make_back Dirs _ D1).2).
  assert (G2 : dgrows D0 D2) by (etrans; [exact G1|apply dgrows_make_back]).
  cbn in Ld. split; [|split].
  - intros k g Hk. eapply dgroup_grows; [exact G2| |exact (Hall k g Hk)]. intros f _. unfold dlocation. change (dlocations D2) with (dlocations D1). by rewrite L1.
  - change (vec D2 Dirs) with (vec D1 Dirs ++ [length (dmade D1)]). rewrite length_app, V1, Ld. cbn. lia.
  - exists (length (dmade D1)). change (vec D2 Dirs) with (vec D1 Dirs ++ [length (dmade D1)]). rewrite V1, <- Ld.
    split; [by apply list_lookup_middle|]. apply dmade_last.
Qed.

End Made.

(** ** The tables in memory *)

Lemma memcpy_outside m p l x : x < p \/ p + Z.of_nat (length l) <= x -> memcpy m p l x = m x.
Proof. apply memcpy_other. Qed.

(** Each piece of code writes its own bytes only. *)
#[local] Ltac code_frame :=
  cbn [on_mem rmem put]; unfold put;
  repeat first
    [ rewrite (fo_frame (FieldOp := applyBranch24T_field _)) by (cbn; lia)
    | rewrite (fo_frame (FieldOp := applyMOV32T_field _)) by (cbn; lia)
    | rewrite (fo_frame (FieldOp := applyArm64Branch26_field _)) by (cbn; lia)
    | rewrite (fo_frame (FieldOp := applyArm64Imm_field _ _)) by (cbn; lia)
    | rewrite (fo_frame (FieldOp := applyArm64Addr_field _ _ _)) by (cbn; lia)
    | progress cbn [on_mem rmem]
    | rewrite write_other by (cbn; lia) ];
  apply memcpy_other; cbn; lia.

Lemma thunk_frame mc base imp tm rva buf st x : x < buf \/ buf + Z.of_nat (length (thunk_template mc)) <= x ->
  rmem (match mc with
        | DM_AMD64 | DM_ARM64EC => ThunkChunkX64_writeTo imp tm rva buf st
        | DM_I386 => ThunkChunkX86_writeTo base imp tm rva buf st
        | DM_ARMNT => ThunkChunkARM_writeTo base imp tm rva buf st
        | DM_ARM64 => ThunkChunkARM64_writeTo imp tm rva buf st
        end) x = rmem st x.
Proof.
  destruct mc; cbn [thunk_template]; intros H; cbn in H;
    unfold ThunkChunkX64_writeTo, ThunkChunkX86_writeTo, ThunkChunkARM_writeTo, ThunkChunkARM64_writeTo; code_frame.
Qed.

Lemma tail_frame mc base desc h helper rva buf st x : x < buf \/ buf + Z.of_nat (length (tail_template mc)) <= x ->
  rmem (match mc with
        | DM_AMD64 | DM_ARM64EC => TailMergeChunkX64_writeTo desc h rva buf st
        | DM_I386 => TailMergeChunkX86_writeTo base desc h rva buf st
        | DM_ARMNT => TailMergeChunkARM_writeTo base desc h rva buf st
        | DM_ARM64 => TailMergeChunkARM64_writeTo desc helper rva buf st
        end) x = rmem st x.
Proof.
  destruct mc; cbn [tail_template]; intros H; cbn in H;
    unfold TailMergeChunkX64_writeTo, TailMergeChunkX86_writeTo, TailMergeChunkARM_writeTo, TailMergeChunkARM64_writeTo;
    [code_frame..|destruct helper; code_frame].
Qed.

Lemma in_delay D v i c : vec D v !! i = Some c -> c ∈ delay_chunks D.
Proof.
  intros H%list_elem_of_lookup_2. unfold delay_chunks, getChunks, getDataChunks. destruct v; rewrite !elem_of_app; tauto.
Qed.
Lemma in_delay_vec D v c : c ∈ vec D v -> c ∈ delay_chunks D.
Proof. intros [i Hi]%list_elem_of_lookup. by eapply in_delay. Qed.

Section Memory.
Context (cfg : idata_config) (files : nat -> import_file) (T : delay_symtab) (machine_of : nat -> delay_machine).
Context (D : delay) (rva : nat -> Z) (isARMNT : bool) (Hword : id_wordsize cfg = Z.of_nat (entry_size (id_is64 cfg))).

#[local] Abbreviation chunk_writes := (dc_writeTo cfg files [T] machine_of D rva isARMNT).
#[local] Abbreviation size_of := (dc_getSize cfg [T] machine_of).

Lemma dc_frame i c buf st x : x < buf \/ buf + size_of c <= x -> rmem (chunk_writes i c buf st) x = rmem st x.
Proof using Hword.
  intros H. destruct c as [c|n|t|f tm|k d|tm u|]; cbn [dc_writeTo dc_getSize] in *.
  - by apply ic_frame.
  - cbn [on_mem rmem]. destruct (fields_of D i); [rewrite !write_other by lia|]; apply memcpy_other; rewrite repeat_length; lia.
  - rewrite Hword in H. cbn [on_mem rmem]. destruct (id_is64 cfg); cbn in H; apply write_other; lia.
  - by apply thunk_frame.
  - destruct ([T] !! k) as [T'|]; [|done]. by apply tail_frame.
  - unfold TailMergePDataChunkX64_writeTo. cbn [on_mem rmem]. by rewrite !write_other by lia.
  - unfold TailMergeUnwindInfoX64_writeTo, put. cbn [on_mem rmem]. by apply memcpy_other.
Qed.

(** Where the chunks are: each address and name table in one piece, all chunks
    apart, at 31-bit addresses that are not zero. *)
Record placed_delay : Prop := {
  pd_row v i c c' x : v = Addresses \/ v = Names -> vec D v !! i = Some c -> vec D v !! S i = Some c' -> dmade D !! c = Some x ->
    rva c' = rva c + size_of x;
  pd_apart c c' x x' : c ∈ delay_chunks D -> c' ∈ delay_chunks D -> c <> c' -> dmade D !! c = Some x -> dmade D !! c' = Some x' ->
    rva c + size_of x <= rva c' \/ rva c' + size_of x' <= rva c;
  pd_range c : c ∈ delay_chunks D -> 0 < rva c < 2 ^ 31
}.

Context (Hplaced : placed_delay) (st : rstate).
#[local] Abbreviation image := (rmem (write_delay cfg files [T] machine_of D rva isARMNT (delay_chunks D) st)).

Lemma dchunk_written c x : c ∈ delay_chunks D -> dmade D !! c = Some x ->
  exists st', forall a, rva c <= a < rva c + size_of x -> image a = rmem (chunk_writes c x (rva c) st') a.
Proof using Hword Hplaced.
  intros Hc Hx. unfold write_delay. assert (Hl : delay_chunks D ⊆ delay_chunks D) by done. revert Hl Hc.
  generalize (delay_chunks D) at 1 3 4 as l. induction l as [|y l IH] using rev_ind; [by intros _ ?%elem_of_nil|].
  intros Hl Hc. rewrite fold_left_app. cbn [fold_left].
  assert (Hy : y ∈ delay_chunks D) by (apply Hl, elem_of_app; right; apply list_elem_of_here).
  destruct (decide (c = y)) as [<-|Hne].
  - rewrite Hx. by eexists.
  - apply elem_of_app in Hc as [Hc| ->%list_elem_of_singleton]; [|done].
    destruct (IH ltac:(intros z Hz; apply Hl, elem_of_app; by left) Hc) as [st' Hst']. exists st'. intros a Ha. rewrite <- Hst' by done.
    destruct (dmade D !! y) as [x'|] eqn:Ey; [|done]. apply dc_frame.
    assert (Hcin : c ∈ delay_chunks D) by (apply Hl, elem_of_app; by left).
    destruct (pd_apart Hplaced c y x x' Hcin Hy Hne Hx Ey); lia.
Qed.

Lemma dread_chunk n c x k : c ∈ delay_chunks D -> dmade D !! c = Some x -> 0 <= k -> k + Z.of_nat n <= size_of x ->
  exists st', read n image (rva c + k) = read n (rmem (chunk_writes c x (rva c) st')) (rva c + k).
Proof using Hword Hplaced.
  intros Hc Hx Hk Hn. destruct (dchunk_written c x Hc Hx) as [st' Hst']. exists st'. apply read_ext. intros j Hj. apply Hst'. lia.
Qed.


(** A chunk of a kind import tables have is in the image as there. *)
Lemma table_written c x : c ∈ delay_chunks D -> dmade D !! c = Some (TableChunk x) -> written_at cfg files rva image (rva c) x.
Proof using Hword Hplaced. intros Hc Hx. destruct (dchunk_written c _ Hc Hx) as [st' H]. by exists (rmem st'). Qed.

Lemma delayed_entry_read nm f : nm ∈ delay_chunks D -> name_at files D nm f -> fits (files f) ->
  read_import (id_is64 cfg) image (rva nm) = Some (delayed_import_of (files f)).
Proof using Hword Hplaced.
  intros Hc He (Ho & Hn & Hl & _). unfold name_at, delayed_import_of in *. destruct (String.eqb (if_externalName (files f)) "").
  - by apply (ordinal_at cfg files rva Hword); [apply table_written|].
  - destruct He as (h & He & Hh & Hin). pose proof (in_delay_vec _ _ _ Hin) as Hhc.
    rewrite (lookup_at cfg files rva Hword _ _ h (table_written nm _ Hc He) (pd_range Hplaced h Hhc)).
    by destruct (hint_name_at cfg files rva _ _ _ _ (table_written h _ Hhc Hh) ltac:(lia) Hn Hl) as [-> ->].
Qed.

(** The slot of an import starts out with the address of its thunk. *)
Lemma slot_read a t : a ∈ delay_chunks D -> dmade D !! a = Some (DelayAddressChunk t) ->
  read (entry_size (id_is64 cfg)) image (rva a) = wrap (8 * Z.of_nat (entry_size (id_is64 cfg)))
    (if id_is64 cfg then rva t + id_imageBase cfg else (rva t + id_imageBase cfg) ||| (if isARMNT then 1 else 0)).
Proof using Hword Hplaced.
  intros Ha Hx. destruct (dread_chunk (entry_size (id_is64 cfg)) a _ 0 Ha Hx ltac:(lia)) as [st' Hr]; [cbn [dc_getSize]; lia|].
  rewrite Z.add_0_r in Hr. rewrite Hr. cbn [dc_writeTo on_mem rmem]. destruct (id_is64 cfg); apply read_write.
Qed.

Lemma descriptor_read d n F : d ∈ delay_chunks D -> dmade D !! d = Some (DelayDirectoryChunk n) -> fields_of D d = Some F ->
  n ∈ delay_chunks D -> addressTab F ∈ delay_chunks D -> nameTab F ∈ delay_chunks D ->
  read32le image (rva d) = 1 /\ read32le image (rva d + 4) = rva n /\
  read32le image (rva d + 12) = rva (addressTab F) /\ read32le image (rva d + 16) = rva (nameTab F).
Proof using Hword Hplaced.
  intros Hd Hx HF Hn Ha Hm.
  assert (Hr : forall k, 0 <= k -> k + 4 <= 32 -> exists st', read32le image (rva d + k) =
    read32le (write32le (write32le (write32le (write32le (write32le (memcpy (rmem st') (rva d) (repeat 0 32%nat)) (rva d) 1) (rva d + 4) (rva n))
      (rva d + 8) (rva (moduleHandle F))) (rva d + 12) (rva (addressTab F))) (rva d + 16) (rva (nameTab F))) (rva d + k)).
  { intros k H1 H2. destruct (dread_chunk 4 d _ k Hd Hx H1) as [st' E]; [cbn [dc_getSize]; lia|]. exists st'. rewrite E.
    cbn [dc_writeTo on_mem rmem]. by rewrite HF. }
  assert (Hs : forall c, c ∈ delay_chunks D -> wrap 32 (rva c) = rva c).
  { intros c Hc. apply wrap_small. pose proof (pd_range Hplaced c Hc). unfold word_ok. lia. }
  split; [|split; [|split]].
  - destruct (Hr 0 ltac:(lia) ltac:(lia)) as [st' E]. rewrite Z.add_0_r in E. rewrite E, !(read_write_other 4 4) by lia. apply read_write.
  - destruct (Hr 4 ltac:(lia) ltac:(lia)) as [st' E]. rewrite E, !(read_write_other 4 4) by lia. rewrite read_write. by apply Hs.
  - destruct (Hr 12 ltac:(lia) ltac:(lia)) as [st' E]. rewrite E, !(read_write_other 4 4) by lia. rewrite read_write. by apply Hs.
  - destruct (Hr 16 ltac:(lia) ltac:(lia)) as [st' E]. rewrite E. rewrite read_write. by apply Hs.
Qed.

(** Entries of the tables of a DLL, by distance from the first. *)
Lemma row_read v b c0 g : v = Addresses \/ v = Names -> vec D v !! b = Some c0 ->
  (forall j, (j < g)%nat -> exists c x, vec D v !! (b + j)%nat = Some c /\ dmade D !! c = Some x /\ size_of x = id_wordsize cfg) ->
  forall j c, (j < g)%nat -> vec D v !! (b + j)%nat = Some c -> rva c = rva c0 + id_wordsize cfg * Z.of_nat j.
Proof using Hplaced.
  intros Hv H0 Hall j. induction j as [|j IH]; intros c Hj Hc.
  - rewrite Nat.add_0_r in Hc. rewrite Hc in H0. injection H0 as ->. lia.
  - destruct (Hall j ltac:(lia)) as (c1 & x & H1 & H2 & H3).
    rewrite (pd_row Hplaced v (b + j) c1 c x Hv H1 ltac:(by rewrite <- Nat.add_succ_r) H2), H3, (IH c1 ltac:(lia) H1). lia.
Qed.

(** The helper resolves an import of a group. *)
Lemma group_resolved k b g j f : dgroup_at files D k b g -> g !! j = Some f -> (forall f', f' ∈ g -> fits (files f')) ->
  exists d a t tm, vec D Dirs !! k = Some d /\ dlocation D f ImpSym = Some a /\ a ∈ vec D Addresses /\
    dmade D !! a = Some (DelayAddressChunk t) /\ dmade D !! t = Some (ThunkChunk f tm) /\ t ∈ vec D ThunkVec /\
    dmade D !! tm = Some (TailMergeChunk 0 d) /\ tm ∈ vec D ThunkVec /\
    delay_resolve (id_is64 cfg) image (rva d) (rva a) = (if_dllName (files (nth 0 g O)), Some (delayed_import_of (files f))).
Proof using Hword Hplaced.
  intros (d & n & F & tm & H1 & H2 & H3 & H4 & H5 & H6 & H7 & H8 & H9 & Hall) Hj Hf.
  destruct (Hall j f Hj) as (a & nm & A1 & A2 & (t & B1 & B2 & B3) & Hnm & Hloc).
  exists d, a, t, tm. split_and!; try done; [by eapply list_elem_of_lookup_2|].
  destruct (descriptor_read d n F (in_delay _ _ _ _ H1) H2 H3 (in_delay_vec _ _ _ H6) (in_delay _ _ _ _ H4) (in_delay _ _ _ _ H5))
    as (_ & R1 & R2 & R3).
  assert (Hin0 : nth 0 g O ∈ g) by (destruct g; [done|by left]).
  destruct (Hf _ Hin0) as (_ & _ & _ & Hn0 & Hl0). unfold delay_resolve. rewrite R1, R2, R3.
  rewrite (string_at cfg files rva _ _ _ (table_written n _ (in_delay_vec _ _ _ H6) H7) Hn0 Hl0). f_equal.
  pose proof (lookup_lt_Some _ _ _ Hj) as Hlt. assert (Hw : 0 < id_wordsize cfg) by (rewrite Hword; destruct (id_is64 cfg); cbn; lia).
  assert (Ea : rva a = rva (addressTab F) + id_wordsize cfg * Z.of_nat j).
  { apply (row_read Addresses b _ (length g)); [by left|done| |done|done]. intros i Hi.
    destruct (lookup_lt_is_Some_2 g i Hi) as [fi Hfi]. destruct (Hall i fi Hfi) as (ai & ni & C1 & _ & (ti & C2 & _) & _).
    exists ai, (DelayAddressChunk ti). by split_and!. }
  assert (En : rva nm = rva (nameTab F) + id_wordsize cfg * Z.of_nat j).
  { apply (row_read Names b _ (length g)); [by right|done| |done|done]. intros i Hi.
    destruct (lookup_lt_is_Some_2 g i Hi) as [fi Hfi]. destruct (Hall i fi Hfi) as (ai & ni & _ & C1 & _ & C2 & _).
    unfold name_at in C2. destruct (String.eqb _ _); [|destruct C2 as (h & C2 & _)]; eexists ni, _; by split_and!. }
  rewrite <- Hword, Ea. replace (rva (addressTab F) + id_wordsize cfg * Z.of_nat j - rva (addressTab F)) with (Z.of_nat j * id_wordsize cfg) by lia.
  rewrite Z.div_mul by lia. rewrite <- En. apply delayed_entry_read; [by eapply in_delay|done|].
  apply Hf. by eapply list_elem_of_lookup_2.
Qed.

End Memory.

(** The delayed imports, and their DLLs' places in the order. *)
Lemma createImportTables_delayed files delay l : forall o delayed now o' delayed' now',
  createImportTables files delay l o delayed now = Some (o', delayed', now') ->
  order_ok o -> (forall f, f ∈ delayed -> is_Some (o !! dll_of files f)) ->
  order_ok o' /\ (forall f, f ∈ delayed' -> is_Some (o' !! dll_of files f)) /\
  delayed' = delayed ++ List.filter (fun f => if_live (files f) && existsb (String.eqb (dll_of files f)) delay) l.
Proof.
  induction l as [|f l IH]; intros o delayed now o' delayed' now' H Ho Hd; cbn in H.
  { simplify_eq. cbn. by rewrite app_nil_r. }
  cbn [List.filter]. destruct (if_live (files f)); cbn [negb andb] in *; [|by eapply IH].
  destruct (order_dll_ok o (dll_of files f) Ho) as (A & B & C).
  assert (Hd' : forall f', f' ∈ delayed -> is_Some (order_dll o (dll_of files f) !! dll_of files f')).
  { intros f' Hf'. rewrite C; by apply Hd. }
  destruct (if_impReplaced (files f)); [done|]. destruct (existsb _ delay); [|by apply (IH _ _ _ _ _ _ H)].
  destruct (if_thunkSym (files f)); [|done]. destruct (IH _ _ _ _ _ _ H A) as (A2 & B2 & ->).
  { intros f' [Hf'| ->%list_elem_of_singleton]%elem_of_app; [by apply Hd'|done]. }
  split; [done|]. rewrite <- app_assoc in B2 |- *. by split.
Qed.

(** C25: the run-time helper finds what to load. In an image with one symbol
    table, for every import of a live file whose DLL is delayed: the slot the symbol
    is located at starts out with the address of the import's thunk; the thunk and
    the tail it jumps to are among the code chunks and, on x64, are the code that
    passes the slot and the descriptor of the DLL; and from these two the helper
    finds the DLL of the import (up to case) and its ordinal or name. *)
Theorem delay_tables_resolve (cfg : idata_config) (files : nat -> import_file) (T : delay_symtab) (machine_of : nat -> delay_machine)
    (sort : (nat -> nat -> bool) -> list nat -> list nat) (rva : nat -> Z) (isARMNT : bool) (st : rstate)
    (delay : list string) (l delayed now : list nat) (o : dllOrder)
    (Hsort : forall lt l, Permutation (sort lt l) l) (Hec : id_symtabEC cfg = false) (Harm64x : id_arm64x cfg = false)
    (HT : ds_isEC T = false) (Hfiles : forall f, f ∈ delayed -> if_isEC (files f) = false)
    (Hword : id_wordsize cfg = Z.of_nat (entry_size (id_is64 cfg))) (Hl : NoDup l)
    (Htables : createImportTables files delay l ∅ [] [] = Some (o, delayed, now))
    (Hfits : forall f, f ∈ delayed -> fits (files f))
    (Hplaced : placed_delay cfg T machine_of (create_delay cfg files [T] sort o delayed) rva) :
  let D := create_delay cfg files [T] sort o delayed in
  let image := rmem (write_delay cfg files [T] machine_of D rva isARMNT (delay_chunks D) st) in
  let w := entry_size (id_is64 cfg) in
  delayed = List.filter (fun f => if_live (files f) && existsb (String.eqb (dll_of files f)) delay) l /\
  forall f, f ∈ delayed -> exists d a t tm dll, dlocation D f ImpSym = Some a /\ d ∈ vec D Dirs /\
    {[ t; tm ]} ⊆ (list_to_set (vec D ThunkVec) : gset nat) /\
    read w image (rva a) = wrap (8 * Z.of_nat w) (if id_is64 cfg then rva t + id_imageBase cfg
      else (rva t + id_imageBase cfg) ||| (if isARMNT then 1 else 0)) /\
    delay_resolve (id_is64 cfg) image (rva d) (rva a) = (dll, Some (delayed_import_of (files f))) /\ str_lower dll = dll_of files f /\
    (machine_of f = DM_AMD64 -> ds_machine T = DM_AMD64 -> exists st1 st2,
      bytes_at image (rva t) 12 = bytes_at (rmem (ThunkChunkX64_writeTo (rva a) (rva tm) (rva t) (rva t) st1)) (rva t) 12 /\
      bytes_at image (rva tm) 119 = bytes_at (rmem (TailMergeChunkX64_writeTo (rva d) (helper_rva T) (rva tm) (rva tm) st2)) (rva tm) 119).
Proof.
  intros D image w. destruct (createImportTables_delayed files delay l _ _ _ _ _ _ Htables) as ([Hinj _] & Hdef & Hdelayed);
    [by split; intros *; rewrite lookup_empty|by intros f ?%elem_of_nil|]. cbn in Hdelayed. split; [done|].
  destruct (binImports_spec files sort Hsort o delayed) as [Hperm Hgroups]. set (v := binImports files sort o delayed) in *.
  assert (Hnd : NoDup delayed) by (rewrite Hdelayed; apply NoDup_ListNoDup, List.NoDup_filter; by apply NoDup_ListNoDup).
  destruct (create_delay_spec cfg files T Hec Harm64x HT sort Hsort o delayed Hnd Hfiles) as (Hga & _). fold D v in Hga.
  intros f Hf. rewrite <- Hperm in Hf. apply list_elem_of_In, in_concat in Hf as (g & Hg & Hf).
  apply list_elem_of_In, list_elem_of_lookup_1 in Hg as [k Hk]. apply list_elem_of_In, list_elem_of_lookup_1 in Hf as [j Hj].
  assert (Hin : forall x, x ∈ g -> x ∈ delayed).
  { intros x Hx. rewrite <- Hperm. apply list_elem_of_In, in_concat. exists g.
    split; apply list_elem_of_In; [by eapply list_elem_of_lookup_2|done]. }
  destruct (group_resolved cfg files T machine_of D rva isARMNT Hword Hplaced st k _ g j f (Hga k g Hk) Hj ltac:(intros; by apply Hfits, Hin))
    as (d & a & t & tm & H1 & H2 & H3 & H4 & H5 & H6 & H7 & H8 & H9).
  exists d, a, t, tm, (if_dllName (files (nth 0 g O))). split; [done|]. split; [by eapply list_elem_of_lookup_2|].
  split; [set_solver|]. split; [apply (slot_read cfg files T machine_of D rva isARMNT Hword Hplaced st); [by eapply in_delay_vec|done]|].
  split; [exact H9|]. split.
  - destruct g as [|f0 g]; [done|]. cbn [nth]. change (str_lower (if_dllName (files f0))) with (dll_of files f0).
    pose proof (proj1 (Forall_forall _ _) Hgroups _ (list_elem_of_lookup_2 _ _ _ Hk)) as [_ Hkey].
    pose proof (list_elem_of_lookup_2 _ _ _ Hj) as Hfg. pose proof (list_elem_of_here f0 g) as Hf0.
    specialize (Hkey f0 f Hf0 Hfg). destruct (Hdef f0 (Hin _ Hf0)) as [x0 E0], (Hdef f (Hin _ Hfg)) as [x E].
    rewrite E0, E in Hkey. cbn in Hkey. subst x0. by eapply Hinj.
  - intros Hmf HmT.
    destruct (dchunk_written cfg files T machine_of D rva isARMNT Hword Hplaced st t _ (in_delay_vec _ _ _ H6) H5) as [st1 E1].
    destruct (dchunk_written cfg files T machine_of D rva isARMNT Hword Hplaced st tm _ (in_delay_vec _ _ _ H8) H7) as [st2 E2].
    exists st1, st2. cbn [dc_getSize dc_writeTo list_lookup lookup] in E1, E2. rewrite Hmf in E1. rewrite HmT in E2.
    unfold imp_rva in E1. rewrite H2 in E1. split; unfold bytes_at; apply map_ext_in; intros i Hi%in_seq; [apply E1|apply E2]; cbn; lia.
Qed.

(** ** An image *)

(** [placed_delay] as a check. *)
Definition row_check_b cfg T machine_of D (rva : nat -> Z) (v : dvec) : bool :=
  forallb (fun p : nat * nat => match dmade D !! p.1 with
    | Some x => rva p.2 =? rva p.1 + dc_getSize cfg [T] machine_of x
    | None => true
    end) (combine (vec D v) (tail (vec D v))).

Definition placed_delay_b cfg T machine_of D (rva : nat -> Z) : bool :=
  let all := delay_chunks D in
  row_check_b cfg T machine_of D rva Addresses && row_check_b cfg T machine_of D rva Names &&
  forallb (fun c => forallb (fun c' => (c =? c')%nat ||
    match dmade D !! c, dmade D !! c' with
    | Some x, Some x' => (rva c + dc_getSize cfg [T] machine_of x <=? rva c') || (rva c' + dc_getSize cfg [T] machine_of x' <=? rva c)
    | _, _ => true
    end) all) all &&
  forallb (fun c => (0 <? rva c) && (rva c <? 2 ^ 31)) all.

Lemma placed_delay_check cfg T machine_of D rva : placed_delay_b cfg T machine_of D rva = true -> placed_delay cfg T machine_of D rva.
Proof.
  unfold placed_delay_b. rewrite !andb_true_iff, !forallb_forall. intros [[[H1 H2] H3] H4].
  assert (Hrow : forall v i c c' x, row_check_b cfg T machine_of D rva v = true -> vec D v !! i = Some c -> vec D v !! S i = Some c' ->
    dmade D !! c = Some x -> rva c' = rva c + dc_getSize cfg [T] machine_of x).
  { intros v i c c' x H Hc Hc' Hx. unfold row_check_b in H. rewrite forallb_forall in H. specialize (H (c, c')). cbn in H.
    rewrite Hx in H. apply Z.eqb_eq, H. apply list_elem_of_In, list_elem_of_lookup. exists i. apply lookup_zip_with_Some.
    exists c, c'. split_and!; [done|done|]. destruct (vec D v); done. }
  split.
  - intros v i c c' x [-> | ->]; by apply Hrow.
  - intros c c' x x' Hc%list_elem_of_In Hc'%list_elem_of_In Hne Hx Hx'. specialize (H3 c Hc). rewrite forallb_forall in H3.
    specialize (H3 c' Hc'). rewrite Hx, Hx' in H3. destruct (Nat.eqb_spec c c'); [done|]. cbn [orb] in H3.
    apply orb_true_iff in H3 as [H3|H3]; lia.
  - intros c Hc%list_elem_of_In. specialize (H4 c Hc). lia.
Qed.

Definition demo_symtab : delay_symtab := {| ds_machine := DM_AMD64; ds_isEC := false; delayLoadHelper := Some 0x5000 |}.
Definition demo_order : dllOrder := <["user32.dll" := 1]> (<["kernel32.dll" := 0]> ∅).
Definition demo_delay : delay := create_delay demo_idata_config demo_files [demo_symtab] stable_sort demo_order [0; 1; 3]%nat.
Definition demo_delay_rva (c : nat) : Z :=
  let at_ v base size := (fun i => base + size * i) <$> index_of c (vec demo_delay v) in
  default 0x4000 (foldr (fun x r => match x with Some y => Some y | None => r end) None
    [at_ Dirs 0x1000 32; at_ Names 0x1200 8; at_ HintNames 0x1400 32; at_ DllNames 0x1600 32; at_ ModuleHandles 0x1800 8;
     at_ Addresses 0x1900 8; at_ ThunkVec 0x2000 128; at_ PData 0x3000 12; at_ UnwindInfo 0x3100 8]).

Lemma delay_tables_resolve_witness :
  placed_delay demo_idata_config demo_symtab (fun _ => DM_AMD64) demo_delay demo_delay_rva /\
  exists d a dll, dlocation demo_delay 1 ImpSym = Some a /\ str_lower dll = "user32.dll" /\
    delay_resolve true (rmem (write_delay demo_idata_config demo_files [demo_symtab] (fun _ => DM_AMD64) demo_delay demo_delay_rva false
      (delay_chunks demo_delay) zero_state)) (demo_delay_rva d) (demo_delay_rva a) = (dll, Some (ByOrdinal 77)).
Proof.
  assert (Hp : placed_delay demo_idata_config demo_symtab (fun _ => DM_AMD64) demo_delay demo_delay_rva)
    by (apply placed_delay_check; vm_compute; reflexivity).
  split; [exact Hp|].
  destruct (delay_tables_resolve demo_idata_config demo_files demo_symtab (fun _ => DM_AMD64) stable_sort demo_delay_rva false zero_state
    ["kernel32.dll"; "user32.dll"] [0; 1; 2; 3]%nat [0; 1; 3]%nat [] demo_order) as (_ & H).
  - intros lt l. apply stable_sort_perm.
  - reflexivity.
  - reflexivity.
  - reflexivity.
  - intros f Hf. apply list_elem_of_In in Hf as [<-|[<-|[<-|[]]]]; reflexivity.
  - reflexivity.
  - apply (bool_decide_unpack _). vm_compute. exact I.
  - vm_compute. reflexivity.
  - intros f Hf. apply list_elem_of_In in Hf as [<-|[<-|[<-|[]]]];
      (split; [vm_compute; done|]; apply names_fit; vm_compute; reflexivity).
  - exact Hp.
  - destruct (H 1%nat) as (d & a & t & tm & dll & H1 & _ & _ & _ & H2 & H3 & _).
    { apply (bool_decide_unpack _). vm_compute. exact I. }
    exists d, a, dll. split; [exact H1|]. split; [exact H3|exact H2].
Defined.
