(* ===== verification/StrTab.v ===== *)
(** * String tables (llvm/lib/MC/StringTableBuilder.cpp, llvm/lib/BinaryFormat/COFF.cpp)

    The builder that shares the suffixes of strings, which the writer uses for
    the COFF string table and for merged string sections ([MergeChunk] of
    lld/COFF/Chunks.cpp), and the two encodings of a table offset in a section
    name with their decoder (llvm/lib/Object/COFFObjectFile.cpp).

    A string is the list of its bytes. [StringIndexMap] is a hash table whose
    order of iteration is arbitrary: an association list here, in any order. *)

From S2P Require Import Prelude Memory.

#[local] Open Scope list_scope.
#[local] Open Scope Z_scope.

(** ** The builder *)

Inductive Kind := ELF | WinCOFF | MachO | MachO64 | MachOLinked | MachO64Linked | RAW | DWARF | XCOFF | DXContainer.

#[export] Instance Kind_eq_dec : EqDecision Kind.
Proof. solve_decision. Defined.

Record StringTableBuilder := {
  sb_K : Kind;
  Alignment : Z;
  StringPriorityMap : list (list Z * Z);
  StringIndexMap : list (list Z * Z);
  sb_Size : Z
}.

Definition initSize (K : Kind) : Z :=
  match K with
  | RAW | DWARF => 0
  | MachOLinked | MachO64Linked => 2
  | MachO | MachO64 | ELF | DXContainer => 1
  | XCOFF | WinCOFF => 4
  end.

Definition new_builder (K : Kind) (al : Z) : StringTableBuilder :=
  {| sb_K := K; Alignment := al; StringPriorityMap := []; StringIndexMap := []; sb_Size := initSize K |}.

Definition len (s : list Z) : Z := Z.of_nat (length s).

Fixpoint map_find {A} (m : list (list Z * A)) (s : list Z) : option A :=
  match m with
  | [] => None
  | (k, v) :: m => if bool_decide (k = s) then Some v else map_find m s
  end.

(** [StringPriorityMap.lookup]: 0 when there is none. *)
Definition lookup_priority (m : list (list Z * Z)) (s : list Z) : Z := default 0 (map_find m s).

(** The terminator that every kind but [RAW] has. *)
Definition term (K : Kind) : Z := if bool_decide (K = RAW) then 0 else 1.

Definition add (s : list Z) (Priority : Z) (B : StringTableBuilder) : Z * StringTableBuilder :=
  let pm := if Priority =? 0 then StringPriorityMap B
            else (s, Priority `max` lookup_priority (StringPriorityMap B) s) :: StringPriorityMap B in
  match map_find (StringIndexMap B) s with
  | Some off =>
      (off, {| sb_K := sb_K B; Alignment := Alignment B; StringPriorityMap := pm;
               StringIndexMap := StringIndexMap B; sb_Size := sb_Size B |})
  | None =>
      let Start := alignTo (sb_Size B) (Alignment B) in
      (Start, {| sb_K := sb_K B; Alignment := Alignment B; StringPriorityMap := pm;
                 StringIndexMap := StringIndexMap B ++ [(s, Start)];
                 sb_Size := Start + len s + term (sb_K B) |})
  end.

Definition getOffset (B : StringTableBuilder) (s : list Z) : option Z := map_find (StringIndexMap B) s.

(** ** Sorting by the ends of strings *)

(** The character at [Pos] from the end of a string. *)
Definition charTailAt (s : list Z) (Pos : nat) : Z :=
  if (length s <=? Pos)%nat then -1 else nth (length s - Pos - 1) s 0.

Definition swap {A} (i j : nat) (v : list A) : list A :=
  match v !! i, v !! j with
  | Some x, Some y => <[i := y]> (<[j := x]> v)
  | _, _ => v
  end.

(** The partition loop: [I], [J] and the array; [K < J] at most [length v]
    times. *)
Fixpoint partition_loop (fuel : nat) (Pivot : Z) (Pos I J K : nat) (v : list (list Z))
    : nat * nat * list (list Z) :=
  match fuel with
  | O => (I, J, v)
  | S fuel =>
      if (K <? J)%nat then
        let C := charTailAt (nth K v []) Pos in
        if Pivot <? C then partition_loop fuel Pivot Pos (S I) J (S K) (swap I K v)
        else if C <? Pivot then partition_loop fuel Pivot Pos I (J - 1) K (swap (J - 1) K v)
        else partition_loop fuel Pivot Pos I J (S K) v
      else (I, J, v)
  end.

(** Each call drops the pivot from the array or moves on by one character;
    [sort_fuel] bounds the calls. *)
Fixpoint multikeySort (fuel : nat) (Pos : nat) (v : list (list Z)) : list (list Z) :=
  match fuel, v with
  | S fuel, x :: _ :: _ =>
      let Pivot := charTailAt x Pos in
      let '(i, j, w) := partition_loop (length v) Pivot Pos O (length v) 1 v in
      let mid := take (j - i) (drop i w) in
      multikeySort fuel Pos (take i w) ++
      (if Pivot =? -1 then mid else multikeySort fuel (S Pos) mid) ++
      multikeySort fuel Pos (drop j w)
  | _, _ => v
  end.

Definition max_length (v : list (list Z)) : nat := fold_right (fun s n => (length s `max` n)%nat) O v.
Definition sort_fuel (v : list (list Z)) : nat := S (length v + max_length v).

(** [multikeySort(StringsRef.slice(b, e - b), 0)]. *)
Definition sort_slice (b e : nat) (v : list (list Z)) : list (list Z) :=
  let s := take (e - b) (drop b v) in
  take b v ++ multikeySort (sort_fuel s) 0 s ++ drop e v.

Fixpoint range_loop (fuel : nat) (prio : list Z -> Z) (I RangeBegin : nat) (RangePriority : Z) (v : list (list Z))
    : nat * list (list Z) :=
  match fuel with
  | O => (RangeBegin, v)
  | S fuel =>
      if (I =? length v)%nat || (RangePriority =? 0) then (RangeBegin, v)
      else
        let Priority := prio (nth I v []) in
        if Priority =? RangePriority then range_loop fuel prio (S I) RangeBegin RangePriority v
        else range_loop fuel prio (S I) I Priority (sort_slice RangeBegin I v)
  end.

(** The strings in the order they are placed. [llvm::sort] may order strings of
    one priority in any way: they are sorted again. *)
Definition sort_strings (pm : list (list Z * Z)) (v : list (list Z)) : list (list Z) :=
  let prio := lookup_priority pm in
  match pm with
  | [] => sort_slice 0 (length v) v
  | _ =>
      let v := stable_sort (fun a b => prio b <? prio a) v in
      let '(RangeBegin, v) := range_loop (length v) prio 1 0 (prio (nth 0 v [])) v in
      sort_slice RangeBegin (length v) v
  end.

(** ** Placing the strings *)

Record placement := {
  pl_Size : Z;
  pl_Previous : list Z;
  pl_offsets : list (list Z * Z)
}.

Definition ends_with_bytes (s suf : list Z) : bool :=
  (length suf <=? length s)%nat && bool_decide (drop (length s - length suf) s = suf).

Definition place_string (K : Kind) (al : Z) (st : placement) (S : list Z) : placement :=
  let Pos := pl_Size st - len S - term K in
  if ends_with_bytes (pl_Previous st) S && (Pos mod al =? 0) then
    {| pl_Size := pl_Size st; pl_Previous := pl_Previous st; pl_offsets := pl_offsets st ++ [(S, Pos)] |}
  else
    let off := alignTo (pl_Size st) al in
    {| pl_Size := off + len S + term K; pl_Previous := S; pl_offsets := pl_offsets st ++ [(S, off)] |}.

Definition place_all (K : Kind) (al : Z) (v : list (list Z)) : placement :=
  fold_left (place_string K al) v {| pl_Size := initSize K; pl_Previous := []; pl_offsets := [] |}.

Definition map_set (k : list Z) (v : Z) (m : list (list Z * Z)) : list (list Z * Z) :=
  if bool_decide (k ∈ m.*1) then map (fun p => if bool_decide (p.1 = k) then (k, v) else p) m
  else m ++ [(k, v)].

Definition pad_size (K : Kind) (Size : Z) : Z :=
  match K with
  | MachO | MachOLinked | DXContainer => alignTo Size 4
  | MachO64 | MachO64Linked => alignTo Size 8
  | _ => Size
  end.

(** Every string of the map gets the offset it was placed at; ELF and the linked
    Mach-O tables have a string of their own at the start. *)
Definition finalizeStringTable (Optimize : bool) (B : StringTableBuilder) : StringTableBuilder :=
  let K := sb_K B in
  let '(m, size) :=
    if Optimize && negb (bool_decide (StringIndexMap B = [])) then
      let st := place_all K (Alignment B) (sort_strings (StringPriorityMap B) (StringIndexMap B).*1) in
      (map (fun p => (p.1, default p.2 (map_find (pl_offsets st) p.1))) (StringIndexMap B), pl_Size st)
    else (StringIndexMap B, sb_Size B) in
  let m := match K with
           | MachOLinked | MachO64Linked => map_set [32] 0 m
           | ELF | DXContainer => map_set [] 0 m
           | _ => m
           end in
  {| sb_K := K; Alignment := Alignment B; StringPriorityMap := StringPriorityMap B;
     StringIndexMap := m; sb_Size := pad_size K size |}.

Definition finalize : StringTableBuilder -> StringTableBuilder := finalizeStringTable true.
Definition finalizeInOrder : StringTableBuilder -> StringTableBuilder := finalizeStringTable false.

(** [write(Buf)]. *)
Definition write_strings (l : list (list Z * Z)) (buf : Z) (m : mem) : mem :=
  fold_left (fun m p => memcpy m (buf + p.2) p.1) l m.

Definition write32be (m : mem) (p v : Z) : mem := memcpy m p (rev (le_bytes 4 v)).

Definition write_table (B : StringTableBuilder) (buf : Z) (m : mem) : mem :=
  let m := write_strings (StringIndexMap B) buf m in
  match sb_K B with
  | WinCOFF => write32le m buf (sb_Size B)
  | XCOFF => write32be m buf (sb_Size B)
  | _ => m
  end.

(** ** Merged string sections ([MergeChunk]) *)

(** A section of one: whether it is live, and its contents. *)
Definition merge_section : Type := bool * list Z.

Definition finalizeContents (alignment : Z) (sections : list merge_section) : StringTableBuilder :=
  finalize (fold_left (fun B (s : merge_section) => if s.1 then snd (add s.2 0 B) else B) sections (new_builder RAW alignment)).

(** The RVA of each live section. *)
Definition assignSubsectionRVAs (rva : Z) (B : StringTableBuilder) (sections : list merge_section) : list (option Z) :=
  map (fun s : merge_section => if s.1 then (fun off => u32 (rva + off)) <$> getOffset B s.2 else None) sections.

(** The merge chunk of each alignment: its RVA, its table and its sections. *)
Definition merge_chunk : Type := Z * StringTableBuilder * list merge_section.

(** The end of [assignAddresses]: the RVAs of the sections of every merge chunk. *)
Definition assign_merged (mergeChunkInstances : list (option merge_chunk)) : list (list (option Z)) :=
  map (fun mc : merge_chunk => assignSubsectionRVAs mc.1.1 mc.1.2 mc.2) (omap id mergeChunkInstances).

(** ** Offsets as section names *)

Definition Max7DecimalOffset : Z := 9999999.
Definition MaxBase64Offset : Z := 0xFFFFFFFFF.

Definition base64_char (v : Z) : Z :=
  if v <? 26 then 65 + v
  else if v <? 52 then 97 + (v - 26)
  else if v <? 62 then 48 + (v - 52)
  else if v =? 62 then 43 else 47.

(** The last [n] base-64 digits, most significant first. *)
Fixpoint base64_digits (n : nat) (Value : Z) : list Z :=
  match n with
  | O => []
  | S n => base64_digits n (Value / 64) ++ [base64_char (Value mod 64)]
  end.

Definition encodeBase64StringEntry (Value : Z) : list Z := [47; 47] ++ base64_digits 6 Value.

(** Decimal digits, most significant first; [fuel] of them at most. *)
Fixpoint decimal_digits (fuel : nat) (v : Z) : list Z :=
  match fuel with
  | O => []
  | S fuel => (if v <? 10 then [] else decimal_digits fuel (v / 10)) ++ [48 + v mod 10]
  end.

(** The characters written to [Out], or failure. *)
Definition encodeSectionName (Offset : Z) : option (list Z) :=
  if Offset <=? Max7DecimalOffset then Some (47 :: decimal_digits 20 Offset)
  else if Offset <=? MaxBase64Offset then Some (encodeBase64StringEntry Offset)
  else None.

(** ** Their decoder *)

Definition base64_value (c : Z) : option Z :=
  if (65 <=? c) && (c <=? 90) then Some (c - 65)
  else if (97 <=? c) && (c <=? 122) then Some (c - 97 + 26)
  else if (48 <=? c) && (c <=? 57) then Some (c - 48 + 52)
  else if c =? 43 then Some 62
  else if c =? 47 then Some 63
  else None.

Fixpoint decode_base64_loop (Str : list Z) (Value : Z) : option Z :=
  match Str with
  | [] => if 2 ^ 32 - 1 <? Value then None else Some Value
  | c :: Str => CharVal ← base64_value c; decode_base64_loop Str (Value * 64 + CharVal)
  end.

Definition decodeBase64StringEntry (Str : list Z) : option Z :=
  if (6 <? length Str)%nat then None else decode_base64_loop Str 0.

(** [getAsInteger(10, Offset)] for a 32-bit unsigned: digits only, one at
    least. *)
Fixpoint getAsInteger10_loop (Str : list Z) (Value : Z) : option Z :=
  match Str with
  | [] => if 2 ^ 32 <=? Value then None else Some Value
  | c :: Str => if (48 <=? c) && (c <=? 57) then getAsInteger10_loop Str (Value * 10 + (c - 48)) else None
  end.
Definition getAsInteger10 (Str : list Z) : option Z :=
  match Str with [] => None | _ => getAsInteger10_loop Str 0 end.

(** The part of [getSectionName] that reads a name starting with a slash: the
    table offset, [Some None] for a name that is not an offset. *)
Definition section_name_offset (Name : list Z) : option (option Z) :=
  match Name with
  | 47 :: 47 :: Str => Some <$> decodeBase64StringEntry Str
  | 47 :: Str => Some <$> getAsInteger10 Str
  | _ => Some None
  end.
