(* ===== verification/StrTabProps.v ===== *)
(** * String tables are right and small (theorems on StrTab.v)

    The multikey quicksort ends and sorts; every string is found at its offset,
    terminated; suffixes cost nothing; the order of the hash table does not
    matter; section names give their offset back. *)

From S2P Require Import Prelude Memory StrTab.
From stdpp Require Import sorting.

#[local] Open Scope list_scope.
#[local] Open Scope Z_scope.

Lemma str_bytes_ok s : bytes_ok (str_bytes s).
Proof.
  unfold str_bytes. apply Forall_forall. intros b Hb. apply list_elem_of_In, in_map_iff in Hb as (c & <- & _).
  pose proof (Ascii.nat_ascii_bounded c). unfold byte_ok. lia.
Qed.

(** ** The order of the ends of strings *)

Fixpoint lex_ltb (a b : list Z) : bool :=
  match a, b with
  | _, [] => false
  | [], _ :: _ => true
  | x :: a, y :: b => (x <? y) || ((x =? y) && lex_ltb a b)
  end.

(** [a] is not before [b] when read from the end, past [Pos] characters. *)
Definition tail_ge (Pos : nat) (a b : list Z) : Prop := lex_ltb (drop Pos (rev a)) (drop Pos (rev b)) = false.

Lemma lex_antisym a b : lex_ltb a b = false -> lex_ltb b a = false -> a = b.
Proof.
  revert b. induction a as [|x a IH]; intros [|y b]; cbn; try done.
  rewrite !orb_false_iff, !andb_false_iff, !Z.ltb_ge. intros [? H1] [? H2].
  assert (x = y) as <- by lia. rewrite Z.eqb_refl in *. f_equal. apply IH; by naive_solver.
Qed.

Lemma charTailAt_drop s Pos :
  charTailAt s Pos = match drop Pos (rev s) with [] => -1 | c :: _ => c end.
Proof.
  unfold charTailAt. destruct (Nat.leb_spec (length s) Pos) as [H|H].
  - by rewrite drop_ge by (rewrite length_rev; lia).
  - destruct (drop Pos (rev s)) as [|c r] eqn:E.
    { apply (f_equal length) in E. rewrite length_drop, length_rev in E. cbn in E. lia. }
    assert (Hn : nth Pos (rev s) 0 = c).
    { rewrite <- (Nat.add_0_r Pos), <- nth_skipn. unfold skipn. change (nth 0 (drop Pos (rev s)) 0 = c). by rewrite E. }
    rewrite <- Hn, rev_nth by done. f_equal. lia.
Qed.

(** The next character, and the comparison past it. *)
Lemma drop_step (l : list Z) n : drop n l = match drop n l with [] => [] | c :: _ => c :: drop (S n) l end.
Proof.
  revert l. induction n as [|n IH]; intros [|x l]; try done. cbn. rewrite (IH l) at 1. by destruct (drop n l).
Qed.

(** A character is never [-1], the mark of the end. *)
Lemma drop_bytes Pos s c r : bytes_ok s -> drop Pos (rev s) = c :: r -> 0 <= c.
Proof.
  intros Hs E. assert (Hc : c ∈ s).
  { rewrite list_elem_of_In, in_rev, <- list_elem_of_In. apply (list_elem_of_lookup_2 _ Pos). rewrite <- (Nat.add_0_r Pos), <- lookup_drop. by rewrite E. }
  rewrite Forall_forall in Hs. by destruct (Hs _ Hc).
Qed.

Lemma tail_ge_gt Pos a b : bytes_ok b -> charTailAt b Pos < charTailAt a Pos -> tail_ge Pos a b.
Proof.
  intros Hb. rewrite !charTailAt_drop. unfold tail_ge.
  destruct (drop Pos (rev a)) as [|x l], (drop Pos (rev b)) as [|y r] eqn:E; cbn; try done.
  - intros H. pose proof (drop_bytes _ _ _ _ Hb E). lia.
  - intros H. rewrite (proj2 (Z.eqb_neq _ _)) by lia. apply orb_false_iff. split; [by apply Z.ltb_ge; lia|done].
Qed.

Lemma tail_ge_end Pos a b : bytes_ok b -> charTailAt b Pos = -1 -> tail_ge Pos a b.
Proof.
  intros Hb. rewrite charTailAt_drop. unfold tail_ge. destruct (drop Pos (rev b)) as [|y r] eqn:E.
  - by destruct (drop Pos (rev a)).
  - pose proof (drop_bytes _ _ _ _ Hb E). lia.
Qed.

Lemma tail_ge_step Pos a b :
  charTailAt a Pos = charTailAt b Pos -> charTailAt a Pos <> -1 -> tail_ge (S Pos) a b -> tail_ge Pos a b.
Proof.
  rewrite !charTailAt_drop. unfold tail_ge. rewrite (drop_step (rev a) Pos), (drop_step (rev b) Pos).
  destruct (drop Pos (rev a)) as [|x l], (drop Pos (rev b)) as [|y r]; cbn; try done.
  intros -> _ H. by rewrite Z.ltb_irrefl, Z.eqb_refl.
Qed.

(** ** The partition *)

Lemma swap_lookup {A} (v : list A) i j k :
  (i < length v)%nat -> (j < length v)%nat ->
  swap i j v !! k = if decide (k = i) then v !! j else if decide (k = j) then v !! i else v !! k.
Proof.
  intros Hi Hj. destruct (lookup_lt_is_Some_2 v i Hi) as [x Ex], (lookup_lt_is_Some_2 v j Hj) as [y Ey].
  unfold swap. rewrite Ex, Ey. rewrite !list_lookup_insert. rewrite length_insert.
  repeat case_decide; naive_solver.
Qed.

Lemma length_swap {A} (v : list A) i j : length (swap i j v) = length v.
Proof. unfold swap. repeat case_match; by rewrite ?length_insert. Qed.

Lemma swap_perm {A} (v : list A) i j : (i < length v)%nat -> (j < length v)%nat -> swap i j v ≡ₚ v.
Proof.
  intros Hi Hj. apply Permutation_inj. split; [apply length_swap|].
  exists (fun k => if decide (k = i) then j else if decide (k = j) then i else k). split.
  - intros a b. repeat case_decide; naive_solver.
  - intros k. rewrite swap_lookup by done. repeat case_decide; naive_solver.
Qed.

(** The three parts of [v] around the pivot [p]. *)
Record parted (Pos : nat) (p : Z) (i k j : nat) (v : list (list Z)) : Prop := {
  pt_order : (i < k)%nat /\ (k <= j)%nat /\ (j <= length v)%nat;
  pt_greater l x : (l < i)%nat -> v !! l = Some x -> p < charTailAt x Pos;
  pt_equal l x : (i <= l < k)%nat -> v !! l = Some x -> charTailAt x Pos = p;
  pt_less l x : (j <= l)%nat -> v !! l = Some x -> charTailAt x Pos < p
}.

Lemma partition_loop_spec fuel Pos p i j k v :
  parted Pos p i k j v -> (j - k <= fuel)%nat ->
  let '(i', j', w) := partition_loop fuel p Pos i j k v in w ≡ₚ v /\ parted Pos p i' j' j' w.
Proof.
  revert i j k v. induction fuel as [|fuel IH]; intros i j k v [(Hik & Hkj & Hj) Hg He Hl] Hf; cbn [partition_loop].
  - split; [done|]. assert (k = j) as -> by lia. by split.
  - destruct (Nat.ltb_spec k j) as [Hlt|Hge].
    2:{ split; [done|]. assert (k = j) as -> by lia. by split. }
    destruct (lookup_lt_is_Some_2 v k ltac:(lia)) as [x Ex]. rewrite (nth_lookup_Some _ _ _ _ Ex).
    destruct (Z.ltb_spec p (charTailAt x Pos)); [|destruct (Z.ltb_spec (charTailAt x Pos) p)].
    + specialize (IH (S i) j (S k) (swap i k v)). destruct (partition_loop _ _ _ _ _ _ _) as [[i' j'] w].
      destruct IH as [Hp ?]; [|lia|by split; [rewrite Hp; apply swap_perm; lia|]].
      split; [rewrite length_swap; lia|intros l y Hr..];
        rewrite swap_lookup by lia; repeat case_decide; subst; rewrite ?Ex; intros Hy; simplify_eq;
        first [lia|eapply Hg; [|exact Hy]; lia|eapply He; [|exact Hy]; lia|eapply Hl; [|exact Hy]; lia].
    + specialize (IH i (j - 1)%nat k (swap (j - 1) k v)). destruct (partition_loop _ _ _ _ _ _ _) as [[i' j'] w].
      destruct IH as [Hp ?]; [|lia|by split; [rewrite Hp; apply swap_perm; lia|]].
      split; [rewrite length_swap; lia|intros l y Hr..];
        rewrite swap_lookup by lia; repeat case_decide; subst; rewrite ?Ex; intros Hy; simplify_eq;
        first [lia|eapply Hg; [|exact Hy]; lia|eapply He; [|exact Hy]; lia|eapply Hl; [|exact Hy]; lia].
    + specialize (IH i j (S k) v). destruct (partition_loop _ _ _ _ _ _ _) as [[i' j'] w].
      destruct IH as [Hp ?]; [|lia|done]. split; [lia|done| |done].
      intros l y Hr Hy. destruct (decide (l = k)) as [->|]; [|eapply He; [|done]; lia]. simplify_eq. lia.
Qed.

Lemma partition_spec Pos x v :
  let p := charTailAt x Pos in
  let '(i, j, w) := partition_loop (length (x :: v)) p Pos 0 (length (x :: v)) 1 (x :: v) in
  w ≡ₚ x :: v /\ parted Pos p i j j w.
Proof.
  apply partition_loop_spec; [|cbn; lia]. split; [cbn; lia|lia| |].
  - intros l y Hl Hy. assert (l = O) as -> by lia. by simplify_eq/=.
  - intros l y Hl Hy%lookup_lt_Some. lia.
Qed.

(** ** The sort *)

Abbreviation sorted_tails Pos := (StronglySorted (tail_ge Pos)).

Lemma parted_app Pos p i j w : parted Pos p i j j w ->
  w = take i w ++ take (j - i) (drop i w) ++ drop j w /\
  Forall (fun s => p < charTailAt s Pos) (take i w) /\
  Forall (fun s => charTailAt s Pos = p) (take (j - i) (drop i w)) /\
  Forall (fun s => charTailAt s Pos < p) (drop j w) /\
  (length (take i w) < length w)%nat /\ (length (drop j w) < length w)%nat.
Proof.
  intros [(Hij & _ & Hj) Hg He Hl]. repeat split.
  - replace (drop j w) with (drop (j - i) (drop i w)) by (rewrite drop_drop; f_equal; lia). by rewrite !take_drop.
  - apply Forall_lookup. intros l x (? & ?)%lookup_take_Some. by eapply Hg.
  - apply Forall_lookup. intros l x (Hx & ?)%lookup_take_Some. rewrite lookup_drop in Hx. eapply He; [|done]. lia.
  - apply Forall_lookup. intros l x Hx. rewrite lookup_drop in Hx. eapply Hl; [|done]. lia.
  - rewrite length_take. lia.
  - rewrite length_drop. lia.
Qed.

Lemma sorted_app_3 {A} (R : A -> A -> Prop) l1 l2 l3 :
  StronglySorted R l1 -> StronglySorted R l2 -> StronglySorted R l3 ->
  (forall x y, x ∈ l1 -> y ∈ l2 ++ l3 -> R x y) -> (forall x y, x ∈ l2 -> y ∈ l3 -> R x y) ->
  StronglySorted R (l1 ++ l2 ++ l3).
Proof. intros H1 H2 H3 Ha Hb. apply StronglySorted_app. split_and!; [naive_solver|done|]. apply StronglySorted_app. naive_solver. Qed.

Lemma StronglySorted_mono {A} (P : A -> Prop) (R R' : A -> A -> Prop) l :
  (forall x y, P x -> P y -> R x y -> R' x y) -> Forall P l -> StronglySorted R l -> StronglySorted R' l.
Proof.
  intros HR HP. induction 1 as [|x l Hs IH Hx]; [constructor|]. apply Forall_cons in HP as [Px HP].
  constructor; [by apply IH|]. rewrite Forall_forall in *. naive_solver.
Qed.

Lemma StronglySorted_all {A} (R : A -> A -> Prop) l : (forall x y, x ∈ l -> y ∈ l -> R x y) -> StronglySorted R l.
Proof.
  induction l as [|x l IH]; intros H; [constructor|]. constructor.
  - apply IH. intros. apply H; by right.
  - apply Forall_forall. intros y Hy. apply H; [by left|by right].
Qed.

(** The calls left: the array gets shorter or the position moves on, and
    nothing is left past the longest string [M]. *)
Lemma multikeySort_spec fuel M Pos v :
  Forall bytes_ok v -> Forall (fun s => (length s <= M)%nat) v -> (length v + (M + 1 - Pos) <= fuel)%nat ->
  multikeySort fuel Pos v ≡ₚ v /\ sorted_tails Pos (multikeySort fuel Pos v).
Proof.
  revert Pos v. induction fuel as [|fuel IH]; intros Pos v Hb HM Hf.
  { destruct v; [|cbn in Hf; lia]. split; [done|constructor]. }
  destruct v as [|x [|y v]]; cbn [multikeySort]; [split; [done|constructor]|split; [done|by repeat constructor]|].
  pose proof (partition_spec Pos x (y :: v)) as Hpart. cbn zeta in Hpart.
  set (p := charTailAt x Pos) in *. destruct (partition_loop _ _ _ _ _ _ _) as [[i j] w].
  destruct Hpart as [Hperm Hw]. destruct (parted_app _ _ _ _ _ Hw) as (Ew & Hg & He & Hl & Li & Lj).
  rewrite <- Hperm in Hb, HM, Hf |- *. pose proof Hb as Hb'. rewrite Ew in Hb, HM.
  rewrite !Forall_app in Hb, HM. destruct Hb as (Bg & Be & Bl), HM as (Mg & Me & Ml).
  destruct (IH Pos _ Bg Mg ltac:(lia)) as [P1 S1]. destruct (IH Pos _ Bl Ml ltac:(lia)) as [P3 S3].
  set (mid := take (j - i) (drop i w)) in *.
  assert (Hmid : let m := if p =? -1 then mid else multikeySort fuel (S Pos) mid in m ≡ₚ mid /\ sorted_tails Pos m).
  { cbn zeta. destruct (Z.eqb_spec p (-1)) as [Ep|Ep].
    - split; [done|]. apply StronglySorted_all. intros a b Ha Hb. apply tail_ge_end; [by eapply Forall_forall in Be|].
      rewrite Forall_forall in He. by rewrite He.
    - assert (Hlen : (length mid <= length w)%nat) by (unfold mid; rewrite length_take, length_drop; lia).
      assert ((Pos < M)%nat).
      { assert (Hx : x ∈ w) by (rewrite Hperm; by left). subst p. unfold charTailAt in Ep.
        destruct (Nat.leb_spec (length x) Pos); [done|]. 
        assert (HMw : Forall (fun s => (length s <= M)%nat) w) by (rewrite Ew, !Forall_app; done).
        rewrite Forall_forall in HMw. specialize (HMw _ Hx). lia. }
      destruct (IH (S Pos) mid Be Me ltac:(lia)) as [P2 S2]. split; [done|].
      eapply (StronglySorted_mono (fun s => charTailAt s Pos = p)); [| |exact S2].
      + intros a b Ea Eb. apply tail_ge_step; congruence.
      + by rewrite P2. }
  cbn zeta in Hmid. set (m := if p =? -1 then _ else _) in *. destruct Hmid as [P2 S2]. split.
  - rewrite P1, P2, P3. by rewrite <- Ew.
  - rewrite Forall_forall in Hg, He, Hl, Be, Bl.
    apply sorted_app_3; try done.
    + intros a b Ha Hb. rewrite P1 in Ha. rewrite P2, P3 in Hb. specialize (Hg _ Ha).
      apply elem_of_app in Hb as [Hb|Hb]; apply tail_ge_gt; eauto; [rewrite (He _ Hb)|specialize (Hl _ Hb)]; lia.
    + intros a b Ha Hb. rewrite P2 in Ha. rewrite P3 in Hb. apply tail_ge_gt; eauto. rewrite (He _ Ha). by apply Hl.
Qed.

Lemma max_length_spec v : Forall (fun s => (length s <= max_length v)%nat) v.
Proof.
  unfold max_length. induction v as [|s v IH]; constructor; cbn; [lia|]. eapply Forall_impl; [exact IH|]. cbn. lia.
Qed.

Lemma sort_spec v : Forall bytes_ok v ->
  multikeySort (sort_fuel v) 0 v ≡ₚ v /\ sorted_tails 0 (multikeySort (sort_fuel v) 0 v).
Proof. intros Hb. apply (multikeySort_spec _ (max_length v)); [done|apply max_length_spec|]. unfold sort_fuel. lia. Qed.

(** ** Priorities *)

Section Priorities.
Context (prio : list Z -> Z).

(** The order of placement: priorities first. *)
Definition placed_before (a b : list Z) : Prop := prio b < prio a \/ prio a = prio b /\ tail_ge 0 a b.

Definition by_priority (a b : list Z) : Prop := prio b <= prio a.

Lemma sort_slice_app A s D :
  Forall bytes_ok s -> exists s', s' ≡ₚ s /\ sorted_tails 0 s' /\
    sort_slice (length A) (length A + length s) (A ++ s ++ D) = A ++ s' ++ D.
Proof.
  intros Hs. exists (multikeySort (sort_fuel s) 0 s). destruct (sort_spec s Hs) as [P Q]. split_and!; [done..|].
  unfold sort_slice. rewrite drop_app_length, take_app_length.
  replace (length A + length s - length A)%nat with (length s) by lia. rewrite take_app_length.
  do 2 f_equal. rewrite app_assoc, <- length_app. apply drop_app_length.
Qed.

Lemma sorted_class p s : sorted_tails 0 s -> Forall (fun x => prio x = p) s -> StronglySorted placed_before s.
Proof.
  intros Hs Hp. eapply (StronglySorted_mono (fun x => prio x = p)); [|done..].
  intros a b Ea Eb ?. right. by rewrite Ea, Eb.
Qed.

(** The ranges before the one that is open are sorted, and of higher priority. *)
Lemma range_loop_spec fuel p A s D :
  Forall bytes_ok (A ++ s ++ D) -> (forall x, x ∈ A ++ s ++ D -> 0 <= prio x) -> s <> [] ->
  (length D <= fuel)%nat -> StronglySorted by_priority (A ++ s ++ D) -> Forall (fun x => prio x = p) s ->
  StronglySorted placed_before A -> (forall x y, x ∈ A -> y ∈ s ++ D -> prio y < prio x) ->
  let '(b, w) := range_loop fuel prio (length A + length s) (length A) p (A ++ s ++ D) in
  exists A' s', w = A' ++ s' /\ b = length A' /\ w ≡ₚ A ++ s ++ D /\ StronglySorted placed_before A' /\
    (forall x y, x ∈ A' -> y ∈ s' -> prio y < prio x) /\ exists q, Forall (fun x => prio x = q) s'.
Proof.
  revert p A s D. induction fuel as [|fuel IH]; intros p A s D Hb Hn Hs Hf Ho Hp HA Hx; cbn [range_loop].
  { assert (D = []) as -> by (by destruct D; cbn in Hf; [|lia]).
    exists A, s. rewrite app_nil_r in *. split_and!; try done. by exists p. }
  destruct (Nat.eqb_spec (length A + length s) (length (A ++ s ++ D))) as [E|E]; cbn [orb].
  { assert (D = []) as -> by (rewrite !length_app in E; by destruct D; cbn in E; [|lia]).
    exists A, s. rewrite app_nil_r in *. split_and!; try done. by exists p. }
  apply StronglySorted_app in Ho as (HoA & HoA' & Ho).
  destruct (Z.eqb_spec p 0) as [->|Hp0].
  { exists A, (s ++ D). split_and!; try done. exists 0. apply Forall_forall. intros y Hy.
    assert (0 <= prio y) by (apply Hn; set_solver). destruct s as [|z s]; [done|].
    apply Forall_cons in Hp as [Hz _]. cbn in Ho. apply StronglySorted_inv in Ho as [_ Hall].
    apply elem_of_cons in Hy as [->|Hy]; [done|]. rewrite Forall_forall in Hall. specialize (Hall _ Hy). unfold by_priority in Hall. lia. }
  destruct D as [|d D]; [rewrite !length_app in E; cbn in E; lia|]. cbn in Hf.
  replace (nth (length A + length s) (A ++ s ++ d :: D) []) with d.
  2:{ symmetry. apply nth_lookup_Some. rewrite lookup_app_r, lookup_app_r by lia. by replace (_ - _ - _)%nat with O by lia. }
  destruct (Z.eqb_spec (prio d) p) as [Ed|Ed].
  - specialize (IH p A (s ++ [d]) D). rewrite <- !app_assoc in IH. cbn in IH. rewrite length_app in IH. cbn in IH.
    replace (length A + (length s + 1))%nat with (S (length A + length s)) in IH by lia.
    apply IH; try done; [by destruct s|lia|apply StronglySorted_app; naive_solver|].
    apply Forall_app. split; [done|]. by constructor.
  - destruct (sort_slice_app A s (d :: D)) as (s' & Ps & Ss & ->).
    { rewrite !Forall_app in Hb. naive_solver. }
    assert (Hlen : length s' = length s) by (by rewrite Ps).
    assert (Hall : (A ++ s') ++ [d] ++ D ≡ₚ A ++ s ++ d :: D) by (rewrite Ps, <- app_assoc; done).
    rewrite <- Ps in Hp. apply StronglySorted_app in Ho as (HosD & Hos & HoD).
    assert (Hsd : forall x y, x ∈ s' -> y ∈ d :: D -> prio y < p).
    { intros x y Hxs Hy. rewrite Ps in Hxs. pose proof (HosD x d Hxs ltac:(by left)) as Hd. unfold by_priority in Hd.
      rewrite Ps, Forall_forall in Hp. rewrite (Hp x Hxs) in Hd. apply elem_of_cons in Hy as [->|Hy]; [lia|].
      apply StronglySorted_inv in HoD as [_ HoD]. rewrite Forall_forall in HoD. specialize (HoD _ Hy). unfold by_priority in HoD. lia. }
    specialize (IH (prio d) (A ++ s') [d] D). rewrite length_app, Hlen in IH. cbn [length] in IH.
    replace (length A + length s + 1)%nat with (S (length A + length s)) in IH by lia.
    replace (A ++ s' ++ d :: D) with ((A ++ s') ++ [d] ++ D) by (by rewrite <- app_assoc).
    destruct (range_loop _ _ _ _ _ _) as [b w]. destruct IH as (A' & t' & Ew & Eb & Pw & IH); try done; try lia.
    + by rewrite Hall.
    + intros x. rewrite Hall. apply Hn.
    + rewrite <- app_assoc. apply StronglySorted_app. split_and!; [|done|].
      * intros x y Hxa Hy. apply HoA; [done|]. rewrite Ps in Hy. done.
      * apply StronglySorted_app. split_and!; [|by eapply StronglySorted_all; intros x y Hx1 Hy1;
          rewrite Forall_forall in Hp; unfold by_priority; rewrite (Hp x Hx1), (Hp y Hy1)|done].
        intros x y Hxs Hy. rewrite Ps in Hxs. by apply HosD.
    + by constructor.
    + apply StronglySorted_app. split_and!; [|done|by eapply sorted_class].
      intros x y Hxa Hy. left. apply Hx; [done|]. rewrite Ps in Hy. set_solver.
    + intros x y Hxa Hy. apply elem_of_app in Hxa as [Hxa|Hxs]; [apply Hx; set_solver|].
      rewrite Forall_forall in Hp. rewrite (Hp x Hxs). eapply Hsd; eauto.
    + destruct IH as (? & ? & ?). exists A', t'. split_and!; try done. by rewrite Pw.
Qed.
End Priorities.

#[export] Instance strict_weak_decreasing {A} (key : A -> Z) : StrictWeak (fun a b => key b <? key a).
Proof. split; intros *; rewrite ?Z.ltb_ge, ?Z.ltb_lt; lia. Qed.

Definition priorities_ok (pm : list (list Z * Z)) : Prop := Forall (fun p => 0 <= p.2) pm.

Lemma lookup_priority_nonneg pm s : priorities_ok pm -> 0 <= lookup_priority pm s.
Proof.
  unfold lookup_priority. induction 1 as [|[k v] pm Hv _ IH]; cbn; [lia|]. case_bool_decide; [done|apply IH].
Qed.

(** The strings are placed by priority, then by their ends, longest first. *)
Lemma sort_strings_spec pm v :
  Forall bytes_ok v -> priorities_ok pm ->
  sort_strings pm v ≡ₚ v /\ StronglySorted (placed_before (lookup_priority pm)) (sort_strings pm v).
Proof.
  intros Hb Hpm. unfold sort_strings. set (prio := lookup_priority pm).
  assert (Hn : forall x, 0 <= prio x) by (intros; by apply lookup_priority_nonneg).
  destruct pm as [|e pm].
  { destruct (sort_slice_app [] v [] Hb) as (s' & P & Q & E). cbn [app length Nat.add] in E.
    rewrite !app_nil_r in E. rewrite E. split; [done|]. eapply (sorted_class prio 0); [done|]. by apply Forall_forall. }
  cbn [app]. set (u := stable_sort _ v). assert (Hu : u ≡ₚ v) by apply stable_sort_perm.
  assert (Ho : StronglySorted (by_priority prio) u).
  { eapply (StronglySorted_mono (fun _ => True)); [|by apply Forall_forall|apply stable_sort_sorted; apply strict_weak_decreasing].
    intros a b _ _. unfold sorted_le, by_priority. by rewrite Z.ltb_ge. }
  rewrite <- Hu in Hb |- *. clearbody u. clear Hu v. destruct u as [|x u]; [split; [done|constructor]|].
  pose proof (range_loop_spec prio (length (x :: u)) (prio x) [] [x] u) as H. cbn [app length Nat.add nth] in H |- *.
  destruct (range_loop _ _ _ _ _ _) as [b w].
  destruct H as (A & s & -> & -> & P & HA & Hx & q & Hq); try done; try lia; [by repeat constructor|constructor|by intros ? ? ?%elem_of_nil|].
  rewrite <- P in Hb. destruct (sort_slice_app A s []) as (s' & Ps & Ss & E).
  { rewrite Forall_app in Hb. naive_solver. }
  rewrite !app_nil_r in E. rewrite length_app, E. split; [by rewrite Ps|].
  apply StronglySorted_app. split_and!; [|done|eapply sorted_class; [done|]; by rewrite Ps].
  intros a b Ha Hbb. left. apply Hx; [done|]. by rewrite <- Ps.
Qed.

(** Distinct strings have one order of placement, so the order of the hash
    table does not matter. *)
Lemma sort_strings_unique pm v v' :
  Forall bytes_ok v -> priorities_ok pm -> v ≡ₚ v' -> sort_strings pm v = sort_strings pm v'.
Proof.
  intros Hb Hpm Hv. destruct (sort_strings_spec pm v Hb Hpm) as [P S]. rewrite Hv in Hb.
  destruct (sort_strings_spec pm v' Hb Hpm) as [P' S'].
  apply (StronglySorted_unique_strong (placed_before (lookup_priority pm))); [|done|done|by rewrite P, P'].
  intros a b _ _ [?|[? H1]] [?|[? H2]]; [lia..|]. unfold tail_ge in *. cbn in H1, H2.
  assert (E : rev a = rev b) by (by apply lex_antisym). by rewrite <- (rev_involutive a), E, rev_involutive.
Qed.

(** ** Placement *)

(** [T] has the string at the offset, terminated, between the head of the table
    and its end. *)
Record holds (K : Kind) (al : Z) (T : mem) (end_ : Z) (p : list Z * Z) : Prop := {
  hd_low : initSize K <= p.2;
  hd_high : p.2 + len p.1 + term K <= end_;
  hd_aligned : p.2 mod al = 0;
  hd_bytes k : 0 <= k < len p.1 -> T (p.2 + k) = nth (Z.to_nat k) p.1 0;
  hd_term : term K = 1 -> T (p.2 + len p.1) = 0
}.

Lemma holds_grow K al T T' e e' p :
  e <= e' -> (forall x, x < e -> T' x = T x) -> holds K al T e p -> holds K al T' e' p.
Proof.
  intros He HT [H1 H2 H3 H4 H5].
  assert (0 <= term K) by (unfold term; case_bool_decide; lia). split; try done; try lia.
  - intros k Hk. rewrite HT by lia. by apply H4.
  - intros Ht. rewrite HT by lia. by apply H5.
Qed.

Lemma ends_with_spec s suf : ends_with_bytes s suf = true <-> exists pre, s = pre ++ suf.
Proof.
  unfold ends_with_bytes. rewrite andb_true_iff, Nat.leb_le, bool_decide_eq_true. split.
  - intros [H E]. exists (take (length s - length suf) s). by rewrite <- E at 2; rewrite take_drop.
  - intros [pre ->]. rewrite length_app. split; [lia|].
    replace (length pre + length suf - length suf)%nat with (length pre) by lia. apply drop_app_length.
Qed.

(** The state of the loop: every string placed is held, and the previous one
    ends the table. *)
Record placement_ok (K : Kind) (al : Z) (T : mem) (st : placement) : Prop := {
  pk_size : initSize K <= pl_Size st;
  pk_held : Forall (holds K al T (pl_Size st)) (pl_offsets st);
  pk_prev : pl_Previous st <> [] -> exists o, holds K al T (pl_Size st) (pl_Previous st, o) /\
    o + len (pl_Previous st) + term K = pl_Size st
}.

Section Placing.
Context (K : Kind) (al : Z) (Hal : 0 < al).

(** Only merged sections can have an empty string: there it is no trouble. *)
Definition placeable (s : list Z) : Prop := s <> [] \/ K = RAW.

Lemma holds_suffix T e pre suf o :
  o + len (pre ++ suf) + term K = e -> (o + len pre) mod al = 0 ->
  holds K al T e (pre ++ suf, o) -> holds K al T e (suf, o + len pre).
Proof.
  unfold len. rewrite length_app. intros He Ha [H1 H2 H3 H4 H5]. cbn in *. unfold len in *. rewrite length_app in *.
  split; cbn; unfold len; try lia.
  - intros k Hk. rewrite <- Z.add_assoc, H4 by lia.
    rewrite app_nth2 by lia. f_equal. lia.
  - intros Ht. specialize (H5 Ht). rewrite <- H5. f_equal. lia.
Qed.

Lemma place_string_ok T st s :
  placeable s -> placement_ok K al T st ->
  exists T', placement_ok K al T' (place_string K al st s) /\
    (pl_offsets (place_string K al st s)).*1 = (pl_offsets st).*1 ++ [s] /\ pl_Size st <= pl_Size (place_string K al st s).
Proof.
  intros Hs [Hsz Hh Hp]. assert (Ht : 0 <= term K <= 1) by (unfold term; case_bool_decide; lia).
  unfold place_string. cbv zeta. set (Pos := pl_Size st - len s - term K).
  destruct (ends_with_bytes (pl_Previous st) s && (Pos mod al =? 0)) eqn:E.
  - apply andb_true_iff in E as [[pre Epre]%ends_with_spec Ea%Z.eqb_eq]. exists T. cbn [pl_Size pl_offsets pl_Previous].
    split; [|split; [by rewrite fmap_app|lia]]. split; [done| |done].
    apply Forall_app. split; [done|]. constructor; [|done].
    destruct (decide (pl_Previous st = [])) as [Ep|Ep].
    + rewrite Ep in Epre. symmetry in Epre. apply app_nil in Epre as [-> ->]. destruct Hs as [|Hr]; [done|].
      subst K. change (term RAW) with 0 in *. unfold Pos, len in *. cbn in *. rewrite !Z.sub_0_r in *.
      split; cbn; unfold len; change (term RAW) with 0; cbn; lia.
    + destruct (Hp Ep) as (o & Ho & Eo). rewrite Epre in Ho, Eo.
      replace Pos with (o + len pre) in * by (unfold Pos, len in *; rewrite length_app in Eo; lia).
      by apply holds_suffix.
  - clear E. destruct (alignTo_spec (pl_Size st) al Hal) as [Ho Hm]. set (off := alignTo (pl_Size st) al) in *.
    assert (Hl : 0 <= len s) by (unfold len; lia).
    set (T' := upd (memcpy T off s) (off + len s) 0).
    assert (HT : forall x, x < pl_Size st -> T' x = T x).
    { intros x Hx. unfold T'. rewrite upd_ne by lia. apply memcpy_other. lia. }
    assert (Hnew : holds K al T' (off + len s + term K) (s, off)).
    { split; cbn; try lia.
      - intros k Hk. unfold T'. rewrite upd_ne by lia. rewrite <- (Z2Nat.id k) at 1 by lia. apply memcpy_byte. unfold len in Hk. lia.
      - intros _. apply upd_eq. }
    exists T'. cbn [pl_Size pl_offsets pl_Previous]. split; [|split; [by rewrite fmap_app|lia]]. split; cbn [pl_Size pl_offsets pl_Previous].
    + lia.
    + apply Forall_app. split; [|by constructor]. eapply Forall_impl; [exact Hh|]. intros p. apply holds_grow; [lia|done].
    + intros _. by exists off.
Qed.

Lemma place_all_ok v : Forall placeable v ->
  exists T, placement_ok K al T (place_all K al v) /\ (pl_offsets (place_all K al v)).*1 = v.
Proof.
  intros Hv. unfold place_all. induction v as [|s v IH] using rev_ind.
  - exists (fun _ => 0). split; [|done]. split; cbn; [lia|constructor|done].
  - apply Forall_app in Hv as [Hv Hs]. apply Forall_cons in Hs as [Hs _]. destruct (IH Hv) as (T & HT & E).
    rewrite fold_left_app. cbn [fold_left]. destruct (place_string_ok T _ s Hs HT) as (T' & HT' & E' & _).
    exists T'. by rewrite E', E.
Qed.
End Placing.

(** ** The table in memory *)

(** The bytes of [s] at [a], and the terminator of its kind. *)
Definition string_at (K : Kind) (m : mem) (a : Z) (s : list Z) : Prop :=
  (forall k, (k < length s)%nat -> m (a + Z.of_nat k) = nth k s 0) /\ (term K = 1 -> m (a + len s) = 0).

Definition covers (l : list (list Z * Z)) (x : Z) : Prop := exists p, p ∈ l /\ p.2 <= x < p.2 + len p.1.

Lemma write_strings_spec K al T e l buf m x :
  Forall (holds K al T e) l ->
  (covers l x -> write_strings l buf m (buf + x) = T x) /\
  (~ covers l x -> write_strings l buf m (buf + x) = m (buf + x)).
Proof.
  unfold write_strings. induction l as [|[s o] l IH] using rev_ind; intros Hl.
  { split; [intros (? & ?%elem_of_nil & _); done|done]. }
  apply Forall_app in Hl as [Hl Hp]. apply Forall_cons in Hp as [Hp _]. destruct (IH Hl) as [H1 H2].
  rewrite fold_left_app. cbn [fold_left fst snd]. destruct (decide (o <= x < o + len s)) as [Hx|Hx].
  - split; [intros _|intros Hn; destruct Hn; exists (s, o); split; [set_solver|done]].
    replace (buf + x) with (buf + o + Z.of_nat (Z.to_nat (x - o))) by lia.
    rewrite memcpy_byte by (unfold len in Hx; lia). pose proof (hd_bytes _ _ _ _ _ Hp (x - o) ltac:(cbn; lia)) as E. cbn in E.
    rewrite <- E. f_equal. lia.
  - assert (Ho : memcpy (fold_left (fun m p => memcpy m (buf + p.2) p.1) l m) (buf + o) s (buf + x) =
                 fold_left (fun m p => memcpy m (buf + p.2) p.1) l m (buf + x)).
    { apply memcpy_other. unfold len in Hx. lia. }
    rewrite Ho. split.
    + intros (p & [Hin| ->%list_elem_of_singleton]%elem_of_app & Hr); [|done]. apply H1. by exists p.
    + intros Hn. apply H2. intros (p & Hin & Hr). apply Hn. exists p. split; [set_solver|done].
Qed.

Lemma covers_bounds K al T e l x : Forall (holds K al T e) l -> covers l x -> initSize K <= x < e.
Proof.
  intros Hl (p & Hp & Hx). rewrite Forall_forall in Hl. destruct (Hl p Hp) as [H1 H2 _ _ _].
  unfold term in H2. case_bool_decide; lia.
Qed.

Lemma term_range K : 0 <= term K <= 1.
Proof. unfold term. case_bool_decide; lia. Qed.

Lemma covers_dec l x : Decision (covers l x).
Proof.
  unfold covers. destruct (decide (Exists (fun p => p.2 <= x < p.2 + len p.1) l)) as [H|H]; rewrite Exists_exists in H; [by left|by right].
Defined.

Lemma write_strings_at K al T e l buf m p :
  Forall (holds K al T e) l -> p ∈ l -> (forall x, 0 <= x < e -> m (buf + x) = 0) -> 0 <= initSize K ->
  string_at K (write_strings l buf m) (buf + p.2) p.1.
Proof.
  intros Hl Hp Hm Hi. pose proof (proj1 (Forall_forall _ _) Hl p Hp) as [H1 H2 _ H4 H5]. split.
  - intros k Hk. rewrite <- Z.add_assoc. rewrite (proj1 (write_strings_spec K al T e l buf m _ Hl)).
    + rewrite H4 by (unfold len; lia). by rewrite Nat2Z.id.
    + exists p. split; [done|]. unfold len. lia.
  - intros Ht. rewrite <- Z.add_assoc. destruct (covers_dec l (p.2 + len p.1)) as [Hc|Hc].
    + rewrite (proj1 (write_strings_spec K al T e l buf m _ Hl)) by done. by apply H5.
    + rewrite (proj2 (write_strings_spec K al T e l buf m _ Hl)) by done. apply Hm. unfold len in *. lia.
Qed.

(** ** The builder *)

(** The linker's tables: the COFF string table, and merged sections. *)
Definition linker_kind (K : Kind) : Prop := K = WinCOFF \/ K = RAW.

Record builder_ok (B : StringTableBuilder) : Prop := {
  bo_kind : linker_kind (sb_K B);
  bo_align : 0 < Alignment B;
  bo_keys : NoDup (StringIndexMap B).*1;
  bo_bytes : Forall bytes_ok (StringIndexMap B).*1;
  bo_place : Forall (placeable (sb_K B)) (StringIndexMap B).*1;
  bo_prio : priorities_ok (StringPriorityMap B);
  bo_size : initSize (sb_K B) <= sb_Size B
}.

Lemma map_find_Some {A} (m : list (list Z * A)) s v : map_find m s = Some v -> (s, v) ∈ m.
Proof.
  induction m as [|[k w] m IH]; cbn; [done|]. case_bool_decide; [intros [= ->]; subst; left|]. intros ?. right. auto.
Qed.

Lemma map_find_key {A} (m : list (list Z * A)) s : s ∈ m.*1 -> exists v, map_find m s = Some v.
Proof.
  induction m as [|[k w] m IH]; cbn; [by intros ?%elem_of_nil|]. case_bool_decide; [eauto|]. intros [->|?]%elem_of_cons; [done|auto].
Qed.

Lemma map_find_None {A} (m : list (list Z * A)) s : map_find m s = None -> s ∉ m.*1.
Proof. intros H Hs. apply map_find_key in Hs as [v ?]. congruence. Qed.

Lemma new_builder_ok K al : linker_kind K -> 0 < al -> builder_ok (new_builder K al).
Proof. split; cbn; try done; constructor. Qed.

Lemma initSize_nonneg K : 0 <= initSize K.
Proof. by destruct K. Qed.

Lemma add_ok B s p : builder_ok B -> bytes_ok s -> placeable (sb_K B) s -> 0 <= p -> builder_ok (add s p B).2.
Proof.
  intros [H1 H2 H3 H4 H5 H6 H7] Hs Hp Hprio.
  pose proof (alignTo_spec (sb_Size B) _ H2). pose proof (initSize_nonneg (sb_K B)). pose proof (term_range (sb_K B)).
  assert (Hpm : priorities_ok (if p =? 0 then StringPriorityMap B
    else (s, p `max` lookup_priority (StringPriorityMap B) s) :: StringPriorityMap B)).
  { case_match; [done|]. constructor; [|done]. cbn. lia. }
  unfold add. destruct (map_find (StringIndexMap B) s) eqn:E; cbn; split; cbn; try done; rewrite ?fmap_app; cbn.
  - apply map_find_None in E. apply NoDup_app. split_and!; [done|set_solver|apply NoDup_singleton].
  - apply Forall_app. by split; [|constructor].
  - apply Forall_app. by split; [|constructor].
  - unfold len. lia.
Qed.

Lemma pad_linker K s : linker_kind K -> pad_size K s = s.
Proof. by intros [->| ->]. Qed.

(** The table ends with the terminator of the string placed last. *)
Lemma place_all_end K al v : v <> [] -> Forall (fun s => s <> []) v -> pl_Previous (place_all K al v) <> [].
Proof.
  unfold place_all. induction v as [|s v IH] using rev_ind; intros Hne Hv; [done|].
  apply Forall_app in Hv as [Hv Hs]. apply Forall_cons in Hs as [Hs _]. rewrite fold_left_app. cbn [fold_left].
  unfold place_string. case_match eqn:E; cbn [pl_Previous]; [|done].
  destruct (decide (v = [])) as [->|]; [|by apply IH]. cbn in E. by destruct s.
Qed.

(** What [finalize] makes of a builder: every string held where the map says. *)
Lemma finalize_held B : builder_ok B -> StringIndexMap B <> [] ->
  exists T, Forall (holds (sb_K B) (Alignment B) T (sb_Size (finalize B))) (StringIndexMap (finalize B)) /\
    (StringIndexMap (finalize B)).*1 = (StringIndexMap B).*1 /\
    (sb_K B = WinCOFF -> T (sb_Size (finalize B) - 1) = 0).
Proof.
  intros [H1 H2 H3 H4 H5 H6 _] Hne. unfold finalize, finalizeStringTable.
  rewrite (bool_decide_eq_false_2 _ Hne). cbn [andb negb].
  destruct (sort_strings_spec _ _ H4 H6) as [P _]. set (v := sort_strings _ _) in *.
  destruct (place_all_ok (sb_K B) (Alignment B) H2 v) as (T & [_ Hh Hlast] & E). { by rewrite P. }
  assert (Em : forall X : list (list Z * Z), match sb_K B with
    | MachOLinked | MachO64Linked => map_set [32] 0 X | ELF | DXContainer => map_set [] 0 X | _ => X end = X).
  { intros X. by destruct H1 as [->| ->]. }
  exists T. cbn [StringIndexMap sb_Size]. rewrite Em, pad_linker by done. split_and!.
  - apply Forall_forall. intros q Hq. apply list_elem_of_In, in_map_iff in Hq as ((s & o) & <- & Hs%list_elem_of_In). cbn.
    destruct (map_find_key (pl_offsets (place_all (sb_K B) (Alignment B) v)) s) as [o' Eo].
    { rewrite E, P. by apply (list_elem_of_fmap_2 fst) in Hs. }
    rewrite Eo. cbn. apply map_find_Some in Eo. rewrite Forall_forall in Hh. by apply Hh.
  - change (fst <$> ((fun p => (p.1, default p.2 (map_find (pl_offsets (place_all (sb_K B) (Alignment B) v)) p.1))) <$> StringIndexMap B)
      = (StringIndexMap B).*1). rewrite <- list_fmap_compose. by apply list_fmap_ext.
  - intros EK. destruct Hlast as (o & [_ _ _ _ Ht] & Eo).
    + apply place_all_end.
      * intros Ev. apply Hne. rewrite Ev in P. apply Permutation_nil_l in P. by eapply fmap_nil_inv.
      * rewrite P. eapply Forall_impl; [exact H5|]. intros s [?|EK']; [done|congruence].
    + rewrite <- Eo. cbn in Ht. rewrite EK in *. cbn in *. rewrite <- (Ht eq_refl). f_equal. change (term WinCOFF) with 1. lia.
Qed.

Lemma finalize_kind B : sb_K (finalize B) = sb_K B.
Proof. unfold finalize, finalizeStringTable. by destruct (_ && _). Qed.

Lemma finalize_empty B : linker_kind (sb_K B) -> StringIndexMap B = [] ->
  StringIndexMap (finalize B) = [] /\ sb_Size (finalize B) = sb_Size B.
Proof.
  intros HK E. unfold finalize, finalizeStringTable. rewrite E. rewrite bool_decide_eq_true_2 by done. cbn.
  by destruct HK as [->| ->].
Qed.

Lemma finalize_head B : builder_ok B -> initSize (sb_K B) <= sb_Size (finalize B).
Proof.
  intros HB. destruct (decide (StringIndexMap B = [])) as [E|Hne].
  { destruct (finalize_empty B (bo_kind B HB) E) as [_ ->]. by apply bo_size. }
  destruct (finalize_held B HB Hne) as (T & Hh & Hk & _).
  destruct (StringIndexMap (finalize B)) as [|p l]; [by destruct Hne; eapply fmap_nil_inv|].
  apply Forall_cons in Hh as [[? ? _ _ _] _]. pose proof (term_range (sb_K B)). unfold len in *. lia.
Qed.

(** Nothing outside the table is written, and inside it the size and the
    strings. *)
Lemma write_strings_frame B buf m a : builder_ok B ->
  a < buf + initSize (sb_K B) \/ buf + sb_Size (finalize B) <= a ->
  write_strings (StringIndexMap (finalize B)) buf m a = m a.
Proof.
  intros HB Ha. destruct (decide (StringIndexMap B = [])) as [E|Hne].
  { by destruct (finalize_empty B (bo_kind B HB) E) as [-> _]. }
  destruct (finalize_held B HB Hne) as (T & Hh & Hk & _). replace a with (buf + (a - buf)) by lia.
  rewrite (proj2 (write_strings_spec _ _ _ _ _ buf m (a - buf) Hh)); [done|].
  intros Hc. apply (covers_bounds _ _ _ _ _ _ Hh) in Hc. lia.
Qed.

Lemma write_table_frame B buf m a : builder_ok B -> a < buf \/ buf + sb_Size (finalize B) <= a ->
  write_table (finalize B) buf m a = m a.
Proof.
  intros HB Ha. pose proof (finalize_head B HB) as Hh. pose proof (write_strings_frame B buf m a HB) as Hf.
  unfold write_table. rewrite (finalize_kind B). destruct (bo_kind B HB) as [HK|HK]; rewrite HK in *; cbn in Hh, Hf |- *.
  - rewrite write_other by (cbn; lia). apply Hf. lia.
  - apply Hf. lia.
Qed.

Lemma write_table_size B buf m : builder_ok B -> sb_K B = WinCOFF -> sb_Size (finalize B) < 2 ^ 32 ->
  read32le (write_table (finalize B) buf m) buf = sb_Size (finalize B).
Proof.
  intros HB HK Hs. pose proof (finalize_head B HB) as Hh. rewrite HK in Hh. cbn in Hh.
  unfold write_table. rewrite (finalize_kind B), HK, read_write. apply wrap_small. split; [lia|done].
Qed.

Lemma write_table_end B buf m : builder_ok B -> sb_K B = WinCOFF -> (forall x, 0 <= x < sb_Size (finalize B) -> m (buf + x) = 0) ->
  4 < sb_Size (finalize B) -> write_table (finalize B) buf m (buf + (sb_Size (finalize B) - 1)) = 0.
Proof.
  intros HB HK Hz Hs. unfold write_table. rewrite (finalize_kind B), HK. rewrite write_other by lia.
  destruct (decide (StringIndexMap B = [])) as [E|Hne].
  { destruct (finalize_empty B (bo_kind B HB) E) as [-> _]. apply Hz. lia. }
  destruct (finalize_held B HB Hne) as (T & Hh & Hk & Hl). specialize (Hl HK).
  destruct (covers_dec (StringIndexMap (finalize B)) (sb_Size (finalize B) - 1)) as [Hc|Hc].
  - by rewrite (proj1 (write_strings_spec _ _ _ _ _ buf m _ Hh)).
  - rewrite (proj2 (write_strings_spec _ _ _ _ _ buf m _ Hh)) by done. apply Hz. lia.
Qed.

Lemma write_table_string B buf m s : builder_ok B -> (forall x, 0 <= x < sb_Size (finalize B) -> m (buf + x) = 0) ->
  s ∈ (StringIndexMap B).*1 -> exists off, getOffset (finalize B) s = Some off /\
    initSize (sb_K B) <= off /\ off + len s + term (sb_K B) <= sb_Size (finalize B) /\ off mod Alignment B = 0 /\
    string_at (sb_K B) (write_table (finalize B) buf m) (buf + off) s.
Proof.
  intros HB Hzero Hs. destruct (decide (StringIndexMap B = [])) as [E|Hne]; [rewrite E in Hs; by apply elem_of_nil in Hs|].
  destruct (finalize_held B HB Hne) as (T & Hh & Hk & _). pose proof (bo_kind B HB) as HK.
  rewrite <- Hk in Hs. destruct (map_find_key _ _ Hs) as [off Eo]. exists off. split; [done|].
  apply map_find_Some in Eo. pose proof (proj1 (Forall_forall _ _) Hh _ Eo) as [H1 H2 H3 _ _]. cbn in H1, H2, H3.
  split_and!; try done.
  pose proof (write_strings_at _ _ _ _ _ buf m _ Hh Eo Hzero (initSize_nonneg _)) as [W1 W2]. cbn in W1, W2.
  unfold write_table. rewrite (finalize_kind B). destruct HK as [EK'|EK']; rewrite EK' in *; [|by split].
  cbn in H1. split; [intros k Hk'|intros Ht]; (rewrite write_other by (unfold len; cbn; lia)); auto.
Qed.

(** C36: The string table: whatever was added, in whatever order the hash table
    gives it, after [finalize] every string has an aligned offset inside the
    table, and in the table as written, over zeroes, the offset holds the string
    and, but for raw tables, its terminator. A COFF table starts with its size,
    and nothing outside the table is written. *)
Theorem string_table_roundtrip (B : StringTableBuilder) (buf : Z) (m : mem) (HB : builder_ok B)
    (Hsize : sb_Size (finalize B) < 2 ^ 32)
    (Hzero : forall x, 0 <= x < sb_Size (finalize B) -> m (buf + x) = 0) :
  let B' := finalize B in let m' := write_table B' buf m in
  (forall s, s ∈ (StringIndexMap B).*1 -> exists off, getOffset B' s = Some off /\
     initSize (sb_K B) <= off /\ off + len s + term (sb_K B) <= sb_Size B' /\ off mod Alignment B = 0 /\
     string_at (sb_K B) m' (buf + off) s) /\
  (sb_K B = WinCOFF -> read32le m' buf = sb_Size B') /\
  (forall a, a < buf \/ buf + sb_Size B' <= a -> m' a = m a).
Proof.
  cbn zeta. split_and!.
  - intros s Hs. by apply write_table_string.
  - intros HK. by apply write_table_size.
  - intros a Ha. by apply write_table_frame.
Qed.

(** ** Suffixes are free *)

(** No other string of [v] ends with [s]. *)
Definition alone (v : list (list Z)) (s : list Z) : bool :=
  forallb (fun t => bool_decide (t = s) || negb (ends_with_bytes t s)) v.

Definition total (K : Kind) (v : list (list Z)) : Z := fold_right (fun s n => len s + term K + n) 0 v.

Lemma total_app K l l' : total K (l ++ l') = total K l + total K l'.
Proof. unfold total. rewrite foldr_app. induction l as [|s l IH]; cbn; lia. Qed.

Lemma total_perm K l l' : l ≡ₚ l' -> total K l = total K l'.
Proof. unfold total. induction 1; cbn [fold_right]; lia. Qed.

Lemma ends_with_refl s : ends_with_bytes s s = true.
Proof. apply ends_with_spec. by exists []. Qed.

Lemma ends_with_trans a b c : ends_with_bytes a b = true -> ends_with_bytes b c = true -> ends_with_bytes a c = true.
Proof. rewrite !ends_with_spec. intros [p ->] [q ->]. exists (p ++ q). by rewrite app_assoc. Qed.

Lemma ends_with_antisym a b : ends_with_bytes a b = true -> ends_with_bytes b a = true -> a = b.
Proof.
  rewrite !ends_with_spec. intros [p ->] [q E]. apply (f_equal length) in E. rewrite !length_app in E.
  destruct p; [done|cbn in E; lia].
Qed.

Lemma alone_spec v s : alone v s = true <-> forall t, t ∈ v -> ends_with_bytes t s = true -> t = s.
Proof.
  unfold alone. rewrite forallb_forall. setoid_rewrite orb_true_iff. setoid_rewrite bool_decide_eq_true.
  setoid_rewrite negb_true_iff. setoid_rewrite <- list_elem_of_In. split; intros H t Ht.
  - intros E. destruct (H t Ht); congruence.
  - destruct (ends_with_bytes t s) eqn:E; [left; by apply H|by right].
Qed.

(** Between a string and its suffix in the order there are only strings with that
    suffix. *)
Lemma lex_between s t p : lex_ltb (s ++ t) p = false -> lex_ltb p s = false -> exists q, p = s ++ q.
Proof.
  revert p. induction s as [|x s IH]; intros p; cbn; [by exists p|]. destruct p as [|y p]; cbn; [done|].
  rewrite !orb_false_iff, !andb_false_iff, !Z.ltb_ge, !Z.eqb_neq. intros [? H1] [? H2].
  assert (x = y) as <- by lia. destruct H1 as [|H1]; [done|]. destruct H2 as [|H2]; [done|].
  destruct (IH _ H1 H2) as [q ->]. by exists q.
Qed.

Lemma tail_between a p s : ends_with_bytes a s = true -> tail_ge 0 a p -> tail_ge 0 p s -> ends_with_bytes p s = true.
Proof.
  rewrite !ends_with_spec. intros [pre ->] H1 H2. unfold tail_ge in *. rewrite !drop_0 in *. rewrite rev_app_distr in H1.
  destruct (lex_between _ _ _ H1 H2) as [q E]. exists (rev q). by rewrite <- (rev_involutive p), E, rev_app_distr, rev_involutive.
Qed.

Lemma tail_ge_suffix a s : tail_ge 0 s a -> ends_with_bytes a s = true -> a = s.
Proof.
  rewrite ends_with_spec. intros H [pre ->]. unfold tail_ge in H. rewrite !drop_0 in H. rewrite rev_app_distr in H.
  enough (rev pre = []) as E. { apply (f_equal (@rev Z)) in E. rewrite rev_involutive in E. by rewrite E. }
  destruct (rev pre) as [|x l]; [done|]. exfalso. revert H. induction (rev s) as [|y r IH]; cbn; [done|].
  rewrite orb_false_iff, andb_false_iff, Z.eqb_refl. by intros [_ [?|?]]; [|apply IH].
Qed.

Lemma filter_all_eq {A} (f g : A -> bool) l : (forall x, x ∈ l -> f x = g x) -> List.filter f l = List.filter g l.
Proof.
  induction l as [|x l IH]; intros H; [done|]. cbn. rewrite (H x) by (by left). rewrite IH; [done|]. intros y Hy. apply H. by right.
Qed.

(** In the order of the sort, a string is placed exactly when no other string
    ends with it: the one before would. *)
Lemma place_sorted_size K v :
  NoDup v -> StronglySorted (tail_ge 0) v -> Forall (placeable K) v ->
  pl_Size (place_all K 1 v) = initSize K + total K (List.filter (alone v) v) /\
  (forall a, last v = Some a -> ends_with_bytes (pl_Previous (place_all K 1 v)) a = true) /\
  (v <> [] -> pl_Previous (place_all K 1 v) ∈ v).
Proof.
  unfold place_all. induction v as [|s v IH] using rev_ind; intros Hnd Hs Hp; [cbn; split_and!; [lia|done|done]|].
  apply NoDup_app in Hnd as (Hnd & Hns & _). apply StronglySorted_app in Hs as (Hge & Hs & _).
  apply Forall_app in Hp as [Hp Hps]. apply Forall_cons in Hps as [Hps _].
  destruct (IH Hnd Hs Hp) as (Esz & Elast & Eprev). rewrite fold_left_app. cbn [fold_left].
  set (st := fold_left _ v _) in *.
  assert (Hold : List.filter (alone (v ++ [s])) v = List.filter (alone v) v).
  { apply filter_all_eq. intros x Hx. apply eq_true_iff_eq. rewrite !alone_spec. split; intros H t Ht Et.
    - apply H; [set_solver|done].
    - apply elem_of_app in Ht as [Ht| ->%list_elem_of_singleton]; [by apply H|].
      apply tail_ge_suffix; [|done]. apply Hge; set_solver. }
  assert (Hcase : (v <> [] /\ ends_with_bytes (pl_Previous st) s = true /\ alone (v ++ [s]) s = false) \/
                  ((v = [] \/ ends_with_bytes (pl_Previous st) s = false) /\ alone (v ++ [s]) s = true)).
  { destruct (decide (v = [])) as [->|Hne].
    - right. split; [by left|]. apply alone_spec. intros t Ht _. set_solver.
    - specialize (Eprev Hne). destruct (alone (v ++ [s]) s) eqn:Ea; [right|left; split_and!; [done| |done]].
      + split; [right|done]. destruct (ends_with_bytes (pl_Previous st) s) eqn:Ee; [|done].
        rewrite alone_spec in Ea. assert (pl_Previous st = s) as E by (apply Ea; [set_solver|done]).
        rewrite E in Eprev. destruct (Hns _ Eprev). set_solver.
      + destruct (last v) as [a|] eqn:El; [|by apply last_None in El].
        specialize (Elast a eq_refl). apply (ends_with_trans _ a); [done|].
        apply not_true_iff_false in Ea. rewrite alone_spec in Ea.
        assert (Hex : exists t, t ∈ v /\ ends_with_bytes t s = true).
        { destruct (existsb (fun t => ends_with_bytes t s) v) eqn:Ex.
          - apply existsb_exists in Ex as (t & Ht & Et). exists t. by rewrite list_elem_of_In.
          - destruct Ea. intros t Ht Et. apply elem_of_app in Ht as [Ht| ->%list_elem_of_singleton]; [|done].
            rewrite <- not_true_iff_false, existsb_exists in Ex. destruct Ex. exists t. by rewrite <- list_elem_of_In. }
        destruct Hex as (t & Ht & Et). apply last_Some in El as [u Eu]. 
        destruct (decide (t = a)) as [->|Hta]; [done|]. apply (tail_between t); [done| |].
        * rewrite Eu in Hs, Ht. apply StronglySorted_app in Hs as (Hsa & _). apply Hsa; set_solver.
        * apply Hge; [rewrite Eu|]; set_solver. }
  rewrite List.filter_app, Hold. cbn [List.filter]. unfold place_string.
  destruct Hcase as [(Hne & Ee & Ea)|(Ee & Ea)]; rewrite Ea.
  - rewrite Ee, Z.mod_1_r. cbn [andb Z.eqb pl_Size pl_Previous]. rewrite app_nil_r. split_and!; [done| |].
    + rewrite last_snoc. by intros ? [= <-].
    + intros _. apply elem_of_app. left. by apply Eprev.
  - assert (Hpl : ends_with_bytes (pl_Previous st) s = false \/ s = []).
    { destruct Ee as [->|]; [|by left]. cbn. destruct s; [by right|by left]. }
    match goal with |- context [pl_Size ?x] => set (st' := x) end.
    assert (Ht1 : forall z, alignTo z 1 = z) by (intros z; apply alignTo_id; [lia|apply Z.mod_1_r]).
    assert (Est : pl_Size st' = pl_Size st + len s + term K /\ pl_Previous st' = s).
    { subst st'. destruct Hpl as [->| ->]; cbn [andb pl_Size pl_Previous]; [rewrite Ht1; done|].
      destruct Hps as [|EK]; [done|]. destruct Ee as [->|Ee].
      - subst K st. by vm_compute.
      - rewrite (proj2 (ends_with_spec _ [])) in Ee; [done|]. exists (pl_Previous st). by rewrite app_nil_r. }
    destruct Est as [-> ->]. rewrite total_app. cbn [total fold_right]. split_and!; [lia| |intros _; set_solver].
    rewrite last_snoc. intros ? [= <-]. apply ends_with_refl.
Qed.

Lemma alone_perm v v' s : v ≡ₚ v' -> alone v s = alone v' s.
Proof. intros Hv. apply eq_true_iff_eq. rewrite !alone_spec. by setoid_rewrite Hv. Qed.

Lemma filter_perm {A} (f : A -> bool) l l' : l ≡ₚ l' -> List.filter f l ≡ₚ List.filter f l'.
Proof.
  induction 1 as [|x l l' _ IH|x y l|l l' l'' _ IH1 _ IH2]; cbn; [done| | |by etrans].
  - destruct (f x); by rewrite IH.
  - destruct (f x), (f y); try done. apply perm_swap.
Qed.

Lemma finalize_size B : linker_kind (sb_K B) -> StringIndexMap B <> [] ->
  sb_Size (finalize B) = pl_Size (place_all (sb_K B) (Alignment B) (sort_strings (StringPriorityMap B) (StringIndexMap B).*1)).
Proof.
  intros HK Hne. unfold finalize, finalizeStringTable. rewrite (bool_decide_eq_false_2 _ Hne). cbn. by apply pad_linker.
Qed.

Lemma find_map {A C} (f : list Z * A -> C) m s :
  map_find (map (fun p => (p.1, f p)) m) s = (fun v => f (s, v)) <$> map_find m s.
Proof. induction m as [|[k v] m IH]; cbn; [done|]. case_bool_decide; [by subst|done]. Qed.

Lemma getOffset_finalize B s : builder_ok B -> s ∈ (StringIndexMap B).*1 ->
  getOffset (finalize B) s =
  map_find (pl_offsets (place_all (sb_K B) (Alignment B) (sort_strings (StringPriorityMap B) (StringIndexMap B).*1))) s.
Proof.
  intros [HK Hal Hn Hb Hp Hpr _] Hs. destruct (sort_strings_spec _ _ Hb Hpr) as [P _]. unfold getOffset, finalize, finalizeStringTable.
  rewrite bool_decide_eq_false_2 by (intros E; rewrite E in Hs; by apply elem_of_nil in Hs). cbn [andb negb StringIndexMap].
  set (l := pl_offsets _).
  transitivity (map_find (map (fun p => (p.1, default p.2 (map_find l p.1))) (StringIndexMap B)) s).
  { by destruct HK as [->| ->]. }
  rewrite find_map. cbn. destruct (map_find_key _ _ Hs) as [v ->]. cbn.
  destruct (map_find_key l s) as [o Eo]; [|by rewrite Eo].
  destruct (place_all_ok (sb_K B) _ Hal (sort_strings (StringPriorityMap B) (StringIndexMap B).*1)) as (T & _ & E); [by rewrite P|].
  fold l in E. by rewrite E, P.
Qed.

(** C38: The table is canonical and as small as suffix sharing makes it: the size
    and every offset are the same in whatever order the hash table yields the
    strings; and without priorities and alignment, a string costs its length and
    its terminator exactly when no other string of the table ends with it. *)
Theorem string_table_smallest (B : StringTableBuilder) (HB : builder_ok B) (Hne : StringIndexMap B <> []) :
  (forall m, m ≡ₚ StringIndexMap B ->
     let B2 := {| sb_K := sb_K B; Alignment := Alignment B; StringPriorityMap := StringPriorityMap B;
                  StringIndexMap := m; sb_Size := sb_Size B |} in
     sb_Size (finalize B2) = sb_Size (finalize B) /\
     forall s, s ∈ (StringIndexMap B).*1 -> getOffset (finalize B2) s = getOffset (finalize B) s) /\
  (StringPriorityMap B = [] -> Alignment B = 1 ->
     let keys := (StringIndexMap B).*1 in
     sb_Size (finalize B) = initSize (sb_K B) + total (sb_K B) (List.filter (alone keys) keys)).
Proof.
  pose proof HB as [HK Hal Hn Hb Hp Hpr Hsz]. split.
  - intros m Hm. cbn zeta. set (B2 := {| sb_K := _ |}).
    assert (Hk : m.*1 ≡ₚ (StringIndexMap B).*1) by (by rewrite Hm).
    assert (HB2 : builder_ok B2) by (split; cbn; rewrite ?Hk; done).
    assert (Esort : sort_strings (StringPriorityMap B) m.*1 = sort_strings (StringPriorityMap B) (StringIndexMap B).*1).
    { apply sort_strings_unique; [by rewrite Hk|done..]. }
    split.
    + rewrite !finalize_size by (done || (cbn; intros ->; by apply Permutation_nil_l in Hm)). cbn. by rewrite Esort.
    + intros s Hs. rewrite !getOffset_finalize by (done || (cbn; by rewrite Hk)). cbn. by rewrite Esort.
  - intros Epm Eal. cbn zeta. destruct (sort_strings_spec _ _ Hb Hpr) as [P S].
    rewrite finalize_size, Eal by done. set (v := sort_strings _ _) in *.
    destruct (place_sorted_size (sb_K B) v) as (E & _ & _); [by rewrite P| |by rewrite P|].
    + rewrite Epm in S. eapply (StronglySorted_mono (fun _ => True)); [|by apply Forall_forall|exact S].
      intros a b _ _ [?|[_ ?]]; [|done]. unfold lookup_priority in *. cbn in *. lia.
    + rewrite E. f_equal. rewrite (filter_all_eq _ (alone (StringIndexMap B).*1)) by (intros; by apply alone_perm).
      apply total_perm. by apply filter_perm.
Qed.

(** One string ends another. *)
Definition demo_strings : list string := [".debug_abbrev_long"; "_a_long_main"; "long_main"; "a_long_main_x"].
Definition demo_builder : StringTableBuilder :=
  fold_left (fun B s => (add (str_bytes s) 0 B).2) demo_strings (new_builder WinCOFF 1).

Lemma demo_builder_ok : builder_ok demo_builder.
Proof.
  unfold demo_builder, demo_strings. cbn [fold_left].
  repeat (apply add_ok; [|apply str_bytes_ok|left; by vm_compute|lia]).
  apply new_builder_ok; [by left|lia].
Qed.

Lemma string_table_roundtrip_witness :
  builder_ok demo_builder /\ getOffset (finalize demo_builder) (str_bytes "long_main") = Some 21 /\
  string_at WinCOFF (write_table (finalize demo_builder) 1000 (fun _ => 0)) (1000 + 21) (str_bytes "long_main").
Proof.
  split; [exact demo_builder_ok|].
  destruct (string_table_roundtrip demo_builder 1000 (fun _ => 0) demo_builder_ok ltac:(by vm_compute) ltac:(done)) as [H _].
  destruct (H (str_bytes "long_main")) as (off & Eo & _ & _ & _ & Hat); [apply (bool_decide_unpack _); by vm_compute|].
  assert (Some off = Some 21) as [= ->] by (rewrite <- Eo; by vm_compute). by split.
Defined.

Lemma string_table_smallest_witness :
  sb_Size (finalize demo_builder) = 50 /\
  sb_Size (finalize demo_builder) =
    4 + total WinCOFF (List.filter (alone (StringIndexMap demo_builder).*1) (StringIndexMap demo_builder).*1).
Proof.
  split; [by vm_compute|].
  exact (proj2 (string_table_smallest demo_builder demo_builder_ok ltac:(by vm_compute)) ltac:(by vm_compute) ltac:(by vm_compute)).
Defined.

(** ** Offsets as section names *)

Lemma base64_digits_bytes n v : Forall (fun b => 0 < b < 256) (base64_digits n v) /\ length (base64_digits n v) = n.
Proof.
  revert v. induction n as [|n IH]; intros v; [done|]. cbn [base64_digits]. destruct (IH (v / 64)) as [H1 H2]. split.
  - apply Forall_app. split; [done|]. constructor; [|done]. unfold base64_char. pose proof (Z.mod_pos_bound v 64). repeat case_match; lia.
  - rewrite length_app, H2. cbn. lia.
Qed.

Lemma base64_value_char v : 0 <= v < 64 -> base64_value (base64_char v) = Some v.
Proof.
  intros Hv. assert (H : forallb (fun k => bool_decide (base64_value (base64_char (Z.of_nat k)) = Some (Z.of_nat k))) (seq 0 64) = true) by done.
  rewrite forallb_forall in H. specialize (H (Z.to_nat v)). rewrite Z2Nat.id in H by lia.
  apply bool_decide_eq_true in H; [done|]. apply in_seq. lia.
Qed.

Lemma decode_base64_digits n v acc rest : 0 <= v ->
  decode_base64_loop (base64_digits n v ++ rest) acc = decode_base64_loop rest (acc * 64 ^ Z.of_nat n + v mod 64 ^ Z.of_nat n).
Proof.
  revert v acc rest. induction n as [|n IH]; intros v acc rest Hv.
  - cbn [base64_digits app]. change (64 ^ Z.of_nat 0) with 1. rewrite Z.mod_1_r. f_equal. lia.
  - cbn [base64_digits]. rewrite <- app_assoc, IH by (apply Z.div_pos; lia). cbn [app decode_base64_loop].
    rewrite base64_value_char by (apply Z.mod_pos_bound; lia). cbn.
    f_equal. rewrite Nat2Z.inj_succ, Z.pow_succ_r by lia.
    rewrite (Z.rem_mul_r v 64) by (try apply Z.pow_pos_nonneg; lia). lia.
Qed.

Lemma decimal_digits_bytes f v : Forall (fun b => 48 <= b <= 57) (decimal_digits f v).
Proof.
  revert v. induction f as [|f IH]; intros v; [constructor|]. cbn [decimal_digits]. apply Forall_app. split; [by case_match|].
  constructor; [|constructor]. pose proof (Z.mod_pos_bound v 10). lia.
Qed.

Lemma decimal_digits_length n f v : 0 <= v < 10 ^ Z.of_nat n -> (1 <= n)%nat -> (length (decimal_digits f v) <= n)%nat.
Proof.
  revert n v. induction f as [|f IH]; intros n v Hv Hn; [cbn; lia|]. cbn [decimal_digits]. rewrite length_app. cbn [length].
  destruct (Z.ltb_spec v 10); [cbn; lia|]. destruct n as [|[|n]]; [lia|change (10 ^ Z.of_nat 1) with 10 in Hv; lia|].
  specialize (IH (S n) (v / 10)). rewrite Nat2Z.inj_succ, Z.pow_succ_r in Hv by lia.
  enough (length (decimal_digits f (v / 10)) <= S n)%nat by lia. apply IH; [|lia].
  split; [apply Z.div_pos; lia|]. apply Z.div_lt_upper_bound; lia.
Qed.

Lemma decimal_digits_value f v acc rest : 0 <= v < 10 ^ Z.of_nat f -> (1 <= f)%nat ->
  exists k, getAsInteger10_loop (decimal_digits f v ++ rest) acc = getAsInteger10_loop rest (acc * k + v).
Proof.
  revert v acc rest. induction f as [|f IH]; intros v acc rest Hv Hf; [lia|]. cbn [decimal_digits].
  pose proof (Z.mod_pos_bound v 10 ltac:(lia)) as Hm.
  assert (Hlast : forall a, getAsInteger10_loop ([48 + v mod 10] ++ rest) a = getAsInteger10_loop rest (a * 10 + v mod 10)).
  { intros a. cbn [app getAsInteger10_loop]. rewrite (proj2 (Z.leb_le 48 _)), (proj2 (Z.leb_le _ 57)) by lia. cbn [andb]. f_equal. lia. }
  destruct (Z.ltb_spec v 10).
  - exists 10. cbn [app]. rewrite Hlast. by rewrite (Z.mod_small v) by lia.
  - rewrite <- app_assoc. rewrite Nat2Z.inj_succ, Z.pow_succ_r in Hv by lia.
    destruct f as [|f]; [change (10 ^ Z.of_nat 0) with 1 in Hv; lia|].
    destruct (IH (v / 10) acc ([48 + v mod 10] ++ rest)) as [k Ek]; [|lia|].
    { split; [apply Z.div_pos; lia|]. apply Z.div_lt_upper_bound; lia. }
    exists (k * 10). rewrite Ek, Hlast. f_equal. pose proof (Z.div_mod v 10 ltac:(lia)). lia.
Qed.

(** The reader gets back the offset the writer encoded, in either form. *)
Lemma section_name_roundtrip off : 0 <= off < 2 ^ 32 ->
  exists cs, encodeSectionName off = Some cs /\ (length cs <= 8)%nat /\ Forall (fun b => 0 < b < 256) cs /\
    section_name_offset cs = Some (Some off).
Proof.
  intros Ho. unfold encodeSectionName. destruct (Z.leb_spec off Max7DecimalOffset) as [Hd|Hd].
  - eexists. split; [done|]. pose proof (decimal_digits_bytes 20 off) as Hb. unfold Max7DecimalOffset in Hd.
    pose proof (decimal_digits_length 7 20 off ltac:(lia) ltac:(lia)) as Hl. split_and!.
    + cbn [length]. lia.
    + constructor; [lia|]. eapply Forall_impl; [exact Hb|]. cbn. lia.
    + destruct (decimal_digits_value 20 off 0 [] ltac:(lia) ltac:(lia)) as [k Ek]. rewrite app_nil_r in Ek.
      destruct (decimal_digits 20 off) as [|c cs] eqn:Ec; [exfalso; cbn [decimal_digits] in Ec; by apply app_nil in Ec as [_ ?]|].
      apply Forall_cons in Hb as [Hc _]. unfold section_name_offset.
      assert (E : getAsInteger10 (c :: cs) = Some off).
      { unfold getAsInteger10. rewrite Ek. cbn [getAsInteger10_loop]. rewrite (proj2 (Z.leb_gt _ _)) by lia. apply f_equal. lia. }
      rewrite E. repeat (case_match; try done); lia.
  - rewrite (proj2 (Z.leb_le off MaxBase64Offset)) by (unfold MaxBase64Offset; lia). eexists. split; [done|].
    unfold encodeBase64StringEntry. destruct (base64_digits_bytes 6 off) as [Hb Hl]. split_and!.
    + rewrite length_app, Hl. cbn. lia.
    + by repeat (constructor; [lia|]).
    + cbn [app section_name_offset]. unfold decodeBase64StringEntry. rewrite Hl. cbn [Nat.ltb Nat.leb].
      pose proof (decode_base64_digits 6 off 0 [] ltac:(lia)) as E. rewrite app_nil_r in E. rewrite E. cbn [decode_base64_loop].
      change (64 ^ Z.of_nat 6) with (2 ^ 36). rewrite Z.mod_small by lia. by rewrite (proj2 (Z.ltb_ge _ _)) by lia.
Qed.
