(* ===== verification/Image.v ===== *)
(** * The image file (lld/COFF/Writer.cpp)

    The headers, the section table, the symbol and string tables and the section
    contents, written into the zero-filled output buffer in the order of
    [Writer::run]; the build id's timestamp and the checksum. And the readers:
    [COFFObjectFile] (llvm/lib/Object/COFFObjectFile.cpp) for a PE image, and the
    way a loader maps sections.

    Structures of llvm/Object/COFF.h are lists of (width, value), one per field;
    a field the code does not assign keeps the 0 of the buffer. *)

From S2P Require Import Prelude Memory Layout StrTab.

#[local] Open Scope string_scope.
#[local] Open Scope list_scope.
#[local] Open Scope Z_scope.

(** ** Structures *)

Definition fields : Type := list (nat * Z).

Definition fields_size (fs : fields) : Z := fold_right (fun f n => Z.of_nat f.1 + n) 0 fs.

Fixpoint put_fields (m : mem) (p : Z) (fs : fields) : mem :=
  match fs with
  | [] => m
  | (n, v) :: fs => put_fields (write n m p v) (p + Z.of_nat n) fs
  end.

Definition memset (m : mem) (p v n : Z) : mem := memcpy m p (repeat v (Z.to_nat n)).

(** ** Symbols and the string table *)

Definition NameSize : nat := 8.
Definition IMAGE_SCN_MEM_DISCARDABLE := 0x02000000.
Definition IMAGE_SYM_ABSOLUTE := 0xFFFF.
Definition IMAGE_SYM_CLASS_EXTERNAL := 2.
Definition IMAGE_SYM_CLASS_LABEL := 6.

(** [coff_symbol16]; the name is the 8 bytes of the union. *)
Record coff_symbol16 := {
  cs_Name : list Z;
  cs_Value : Z;
  cs_SectionNumber : Z;
  cs_Type : Z;
  cs_StorageClass : Z
}.

Definition symbol_fields (s : coff_symbol16) : fields :=
  map (pair 1%nat) (cs_Name s) ++
  [(4%nat, cs_Value s); (2%nat, cs_SectionNumber s); (2%nat, cs_Type s); (1%nat, cs_StorageClass s); (1%nat, 0)].

Inductive def_loc :=
| Absolute (va : Z)
| InChunk (rva : Z) (os : option (Z * Z))  (* its output section: RVA and index *)
| NoChunk.

(** What [createSymbol] reads of a [Defined]: for a COFF symbol its type, storage
    class and [isSectionDefinition]; for an import thunk, the wrapped symbol. *)
Record out_def := {
  y_name : string;
  y_loc : def_loc;
  isRuntimePseudoReloc : bool;
  y_coff : option (Z * Z * bool);
  wrappedSym : option nat
}.

Definition short_name (s : string) : list Z :=
  take NameSize (str_bytes s ++ repeat 0 NameSize).
Definition long_name (off : Z) : list Z := le_bytes 4 0 ++ le_bytes 4 off.

Definition is_long (s : string) : bool := (NameSize <? String.length s)%nat.

(** The value and section of a symbol; none outside the output. *)
Definition symbol_place (loc : def_loc) : option (Z * Z) :=
  match loc with
  | Absolute va => Some (u32 va, IMAGE_SYM_ABSOLUTE)
  | InChunk rva (Some (osRVA, index)) => Some (u32 (rva - osRVA), u16 index)
  | InChunk _ None | NoChunk => None
  end.

Definition createSymbol (def : out_def) (strtab : StringTableBuilder) : option coff_symbol16 * StringTableBuilder :=
  match symbol_place (y_loc def) with
  | None => (None, strtab)
  | Some (value, sec) =>
      if isRuntimePseudoReloc def then (None, strtab)
      else
        let '(ty, cls) := match y_coff def, wrappedSym def with
                          | Some (ty, cls, _), _ => (ty, cls)
                          | None, Some _ => (0x20, IMAGE_SYM_CLASS_EXTERNAL)
                          | None, None => (0, IMAGE_SYM_CLASS_EXTERNAL)
                          end in
        let sym n := {| cs_Name := n; cs_Value := value; cs_SectionNumber := sec; cs_Type := ty; cs_StorageClass := cls |} in
        if is_long (y_name def) then (Some (sym (long_name 0)), (add (str_bytes (y_name def)) 0 strtab).2)
        else (Some (sym (short_name (y_name def))), strtab)
  end.

Record symtab_state := {
  writtenToSymtab : list nat;
  st_strtab : StringTableBuilder;
  outputSymtab : list coff_symbol16;
  longNameSymbols : list (nat * string)
}.

(** Adds the symbol of [d] when it has one. *)
Definition emit (d : out_def) (st : symtab_state) : symtab_state :=
  let '(o, tab) := createSymbol d (st_strtab st) in
  match o with
  | None => {| writtenToSymtab := writtenToSymtab st; st_strtab := tab;
               outputSymtab := outputSymtab st; longNameSymbols := longNameSymbols st |}
  | Some sym =>
      {| writtenToSymtab := writtenToSymtab st; st_strtab := tab;
         outputSymtab := outputSymtab st ++ [sym];
         longNameSymbols := if is_long (y_name d) then longNameSymbols st ++ [(length (outputSymtab st), y_name d)]
                            else longNameSymbols st |}
  end.

Definition set_written (id : nat) (st : symtab_state) : symtab_state :=
  {| writtenToSymtab := id :: writtenToSymtab st; st_strtab := st_strtab st;
     outputSymtab := outputSymtab st; longNameSymbols := longNameSymbols st |}.

(** A section definition or a label: no symbol. *)
Definition skipped (d : out_def) : bool :=
  match y_coff d with
  | Some (_, cls, secdef) => secdef || (cls =? IMAGE_SYM_CLASS_LABEL)
  | None => false
  end.

Section SymbolTable.
  Context (defined : nat -> option out_def).

Definition symbol_step (st : symtab_state) (id : nat) : symtab_state :=
  match defined id with
  | None => st
  | Some d =>
      if bool_decide (id ∈ writtenToSymtab st) then st
      else
        let st := set_written id st in
        if skipped d then st
        else
          let st := emit d st in
          match wrappedSym d with
          | None => st
          | Some w =>
              if bool_decide (w ∈ writtenToSymtab st) then st
              else match defined w with
                   | Some dw => emit dw (set_written w st)
                   | None => set_written w st
                   end
          end
  end.

Definition longNameSection (s : osection) : bool :=
  is_long (os_name s) && has_flag (os_Characteristics s) IMAGE_SCN_MEM_DISCARDABLE.

(** Long names of discardable sections come first in the table, for debuggers. *)
Definition add_section_names (secs : list osection) : StringTableBuilder :=
  fold_left (fun B s => if longNameSection s then (add (str_bytes (os_name s)) 255 B).2 else B) secs
    (new_builder WinCOFF 1).

(** The offset of a long symbol name, filled in once the table is final. *)
Definition fill_name (tab : StringTableBuilder) (out : list coff_symbol16) (p : nat * string) : list coff_symbol16 :=
  match out !! p.1 with
  | None => out
  | Some s =>
      <[p.1 := {| cs_Name := long_name (u32 (default 0 (getOffset tab (str_bytes p.2)))); cs_Value := cs_Value s;
                  cs_SectionNumber := cs_SectionNumber s; cs_Type := cs_Type s; cs_StorageClass := cs_StorageClass s |}]> out
  end.

Record symbol_tables := {
  t_symbols : list coff_symbol16;
  t_strtab : StringTableBuilder;
  t_pointer : Z;
  t_fileSize : Z
}.

(** [None]: there are no tables, and [fileSize] stays. *)
Definition createSymbolAndStringTable (writeSymtab : bool) (fileAlign fileSize : Z) (secs : list osection)
    (files : list (list nat)) : option symbol_tables :=
  let st := {| writtenToSymtab := []; st_strtab := add_section_names secs; outputSymtab := []; longNameSymbols := [] |} in
  let st := if writeSymtab then fold_left symbol_step (concat files) st else st in
  if bool_decide (outputSymtab st = []) && bool_decide (StringIndexMap (st_strtab st) = []) then None
  else
    let tab := finalize (st_strtab st) in
    let out := fold_left (fill_name tab) (longNameSymbols st) (outputSymtab st) in
    Some {| t_symbols := out; t_strtab := tab; t_pointer := u32 fileSize;
            t_fileSize := alignTo (fileSize + 18 * Z.of_nat (length out) + sb_Size tab) fileAlign |}.

End SymbolTable.

(** [stringTableOff], 0 when the name is not in the table. *)
Definition stringTableOff (t : option symbol_tables) (s : osection) : Z :=
  match t with
  | Some t => if longNameSection s then u32 (default 0 (getOffset (t_strtab t) (str_bytes (os_name s)))) else 0
  | None => 0
  end.

(** ** The section table *)

(** The characters replace the first of 8 zeroes. *)
Definition pad_name (cs : list Z) : list Z := take NameSize (cs ++ repeat 0 NameSize).

Definition header_name (off : Z) (name : string) : list Z :=
  if off =? 0 then short_name name else pad_name (default [] (encodeSectionName off)).

Definition section_fields (off : Z) (s : osection) : fields :=
  map (pair 1%nat) (header_name off (os_name s)) ++
  [(4%nat, VirtualSize s); (4%nat, VirtualAddress_ s); (4%nat, SizeOfRawData_ s); (4%nat, PointerToRawData s);
   (4%nat, 0); (4%nat, 0); (2%nat, 0); (2%nat, 0); (4%nat, os_Characteristics s)].

Definition writeHeaderTo (off : Z) (s : osection) (buf : Z) (m : mem) : mem := put_fields m buf (section_fields off s).

(** ** The headers *)

(** 64 bytes of header and 56 of program. *)
Definition dosProgram : list Z :=
  [0x0e; 0x1f; 0xba; 0x0e; 0x00; 0xb4; 0x09; 0xcd; 0x21; 0xb8; 0x01; 0x4c;
   0xcd; 0x21; 0x54; 0x68; 0x69; 0x73; 0x20; 0x70; 0x72; 0x6f; 0x67; 0x72;
   0x61; 0x6d; 0x20; 0x63; 0x61; 0x6e; 0x6e; 0x6f; 0x74; 0x20; 0x62; 0x65;
   0x20; 0x72; 0x75; 0x6e; 0x20; 0x69; 0x6e; 0x20; 0x44; 0x4f; 0x53; 0x20;
   0x6d; 0x6f; 0x64; 0x65; 0x2e; 0x24; 0x00; 0x00].

(** [calculateStubDependentSizes]. *)
Definition stubSize (dosStub : option (list Z)) : Z :=
  match dosStub with Some stub => alignTo (len stub) 8 | None => 64 + len dosProgram end.
Definition coffHeaderOffset (dosStub : option (list Z)) : Z := stubSize dosStub + 4.
Definition peHeaderOffset (dosStub : option (list Z)) : Z := coffHeaderOffset dosStub + 20.
Definition dataDirOffset64 (dosStub : option (list Z)) : Z := peHeaderOffset dosStub + 112.

(** The options and results the headers carry; [hc_machine] is the [Machine]
    field: AMD64 for an EC symbol table, else the machine of the table (the
    native one of an ARM64X image). *)
Record header_config := {
  dosStub : option (list Z);
  hc_machine : Z;
  hc_isARMNT : bool;
  largeAddressAware : bool; dll : bool; driverUponly : bool; relocatable : bool; swaprunCD : bool; swaprunNet : bool;
  hc_imageBase : Z;
  majorImageVersion : Z; minorImageVersion : Z; majorOSVersion : Z; minorOSVersion : Z;
  majorSubsystemVersion : Z; minorSubsystemVersion : Z;
  subsystem : Z;
  entryRVA : option Z;  (* none for /noentry *)
  stackReserve : Z; stackCommit : Z; heapReserve : Z; heapCommit : Z;
  appContainer : bool; driverWdm : bool; dynamicBase : bool; highEntropyVA : bool; allowBind : bool; nxCompat : bool;
  allowIsolation : bool; guardCF_on : bool; integrityCheck : bool; noSEH : bool; terminalServerAware : bool
}.

Definition flag (b : bool) (v : Z) : Z := if b then v else 0.

Definition file_characteristics (is64 : bool) (hc : header_config) : Z :=
  0x0002 ||| flag (largeAddressAware hc) 0x0020 ||| flag (negb is64) 0x0100 ||| flag (dll hc) 0x2000 |||
  flag (driverUponly hc) 0x4000 ||| flag (negb (relocatable hc)) 0x0001 ||| flag (swaprunCD hc) 0x0400 |||
  flag (swaprunNet hc) 0x0800.

Definition dll_characteristics (hc : header_config) : Z :=
  flag (appContainer hc) 0x1000 ||| flag (driverWdm hc) 0x2000 ||| flag (dynamicBase hc) 0x0040 |||
  flag (highEntropyVA hc) 0x0020 ||| flag (negb (allowBind hc)) 0x0800 ||| flag (nxCompat hc) 0x0100 |||
  flag (negb (allowIsolation hc)) 0x0200 ||| flag (guardCF_on hc) 0x4000 ||| flag (integrityCheck hc) 0x0080 |||
  flag (noSEH hc) 0x0400 ||| flag (terminalServerAware hc) 0x8000.

(** The chunks and sections that the data directories point to, by address and
    size, where the image has them. A range is its first chunk's RVA, its last
    chunk's and that one's size. *)
Record directories := {
  dd_edata : option (Z * Z * Z);
  dd_import : option (Z * Z);
  dd_iat : option (Z * Z);
  dd_rsrc : Z * Z;
  dd_exception : option (Z * Z * Z);
  dd_reloc : Z * Z;
  dd_dynamicRelocs : option Z;
  dd_tls : option Z;
  dd_debug : option (Z * Z);
  dd_loadConfig : option (Z * Z);
  dd_delay : option (Z * Z)
}.

Definition range_dir (r : option (Z * Z * Z)) : Z * Z :=
  match r with Some (first, last, size) => (first, last + size - first) | None => (0, 0) end.

Definition data_directories (is64 : bool) (d : directories) : list (Z * Z) :=
  let relocSize := (dd_reloc d).2 - default 0 (dd_dynamicRelocs d) in
  [range_dir (dd_edata d);
   default (0, 0) (dd_import d);
   if (dd_rsrc d).2 =? 0 then (0, 0) else dd_rsrc d;
   range_dir (dd_exception d);
   (0, 0);
   if relocSize =? 0 then (0, 0) else ((dd_reloc d).1, relocSize);
   default (0, 0) (dd_debug d);
   (0, 0);
   (0, 0);
   match dd_tls d with Some rva => (rva, if is64 then 40 else 24) | None => (0, 0) end;
   default (0, 0) (dd_loadConfig d);
   (0, 0);
   default (0, 0) (dd_iat d);
   default (0, 0) (dd_delay d);
   (0, 0);
   (0, 0)].

Definition dir_fields (l : list (Z * Z)) : fields := concat (map (fun d => [(4%nat, d.1); (4%nat, d.2)]) l).

Section WriteHeader.
  Context (cfg : config) (hc : header_config) (dirs : directories).
  Context (sizeOfHeaders sizeOfImage : Z) (textSec : osection) (secs : list osection).
  Context (tables : option symbol_tables).

Definition addressOfEntryPoint : Z :=
  match entryRVA hc with
  | Some rva => if hc_isARMNT hc then u32 rva ||| 1 else u32 rva
  | None => 0
  end.

(** [pe32_header] and [pe32plus_header]. *)
Definition pe_fields : fields :=
  let word := if is64 cfg then 8%nat else 4%nat in
  let hasText := negb (VirtualSize textSec =? 0) in
  [(2%nat, if is64 cfg then 0x20b else 0x10b); (1%nat, 14); (1%nat, 0);
   (4%nat, if hasText then SizeOfRawData_ textSec else 0);
   (4%nat, getSizeOfInitializedData secs); (4%nat, 0);
   (4%nat, addressOfEntryPoint);
   (4%nat, if hasText then VirtualAddress_ textSec else 0)] ++
  (if is64 cfg then [] else [(4%nat, 0)]) ++
  [(word, hc_imageBase hc); (4%nat, align cfg); (4%nat, fileAlign cfg);
   (2%nat, majorOSVersion hc); (2%nat, minorOSVersion hc); (2%nat, majorImageVersion hc); (2%nat, minorImageVersion hc);
   (2%nat, majorSubsystemVersion hc); (2%nat, minorSubsystemVersion hc);
   (4%nat, 0); (4%nat, sizeOfImage); (4%nat, sizeOfHeaders); (4%nat, 0);
   (2%nat, subsystem hc); (2%nat, dll_characteristics hc);
   (word, stackReserve hc); (word, stackCommit hc); (word, heapReserve hc); (word, heapCommit hc);
   (4%nat, 0); (4%nat, 16)].

Definition coff_fields : fields :=
  [(2%nat, hc_machine hc); (2%nat, Z.of_nat (length secs)); (4%nat, 0);
   (4%nat, match tables with Some t => t_pointer t | None => 0 end);
   (4%nat, match tables with Some t => Z.of_nat (length (t_symbols t)) | None => 0 end);
   (2%nat, (if is64 cfg then 112 else 96) + 8 * 16);
   (2%nat, file_characteristics (is64 cfg) hc)].

Definition write_dos (m : mem) : mem :=
  match dosStub hc with
  | Some stub => write32le (memcpy m 0 stub) 60 (alignTo (len stub) 8)
  | None =>
      let n := stubSize None in
      let m := write 1 (write 1 m 0 77) 1 90 in
      let m := write16le (write16le m 2 (n mod 512)) 4 ((n + 511) / 512) in
      let m := write16le (write16le m 8 (64 / 16)) 24 64 in
      let m := write32le m 60 n in
      memcpy m 64 dosProgram
  end.

(** The section table, one header after the other. *)
Fixpoint write_section_table (l : list osection) (buf : Z) (m : mem) : mem :=
  match l with
  | [] => m
  | s :: l => write_section_table l (buf + 40) (writeHeaderTo (stringTableOff tables s) s buf m)
  end.

Fixpoint write_symbols (l : list coff_symbol16) (buf : Z) (m : mem) : mem :=
  match l with
  | [] => m
  | s :: l => write_symbols l (buf + 18) (put_fields m buf (symbol_fields s))
  end.

Definition peHeaderSize : Z := if is64 cfg then 112 else 96.

Definition sectionTableOffset : Z := peHeaderOffset (dosStub hc) + peHeaderSize + 8 * 16.

Definition writeHeader (m : mem) : mem :=
  let m := write_dos m in
  let m := memcpy m (stubSize (dosStub hc)) [80; 69; 0; 0] in
  let m := put_fields m (coffHeaderOffset (dosStub hc)) coff_fields in
  let m := put_fields m (peHeaderOffset (dosStub hc)) pe_fields in
  let m := put_fields m (peHeaderOffset (dosStub hc) + peHeaderSize) (dir_fields (data_directories (is64 cfg) dirs)) in
  let m := write_section_table secs sectionTableOffset m in
  match tables with
  | None => m
  | Some t =>
      let m := write_symbols (t_symbols t) (t_pointer t) m in
      write_table (t_strtab t) (t_pointer t + 18 * Z.of_nat (length (t_symbols t))) m
  end.

End WriteHeader.

(** ** The contents *)

Section WriteSections.
  (** Addresses of chunks, their [writeTo], the RVA of an EC entry thunk, and the
      order in which the threads of [parallelForEach] happen to run. *)
  Context (getRVA : lchunk -> Z) (writeTo : lchunk -> Z -> mem -> mem) (entryThunkRVA : lchunk -> Z).
  Context (schedule : list lchunk -> list lchunk).
  Context (fillInt3 : bool).  (* AMD64 or I386 *)

(** The gaps between chunks, from [prevEnd] on. *)
Fixpoint fill_gaps (s : osection) (secBuf prevEnd : Z) (l : list lchunk) (m : mem) : mem :=
  let rawSize := SizeOfRawData_ s in
  let last := memset m (secBuf + prevEnd) 0xCC (rawSize - prevEnd) in
  match l with
  | [] => last
  | c :: l =>
      let off := u32 (getRVA c - VirtualAddress_ s) in
      if rawSize <=? off then last
      else fill_gaps s secBuf (u32 (off + u32 (c_size c)) `min` rawSize) l
             (memset m (secBuf + prevEnd) 0xCC (u32 (off - prevEnd)))
  end.

Definition write_chunk (s : osection) (secBuf : Z) (m : mem) (c : lchunk) : mem :=
  let buf := secBuf + getRVA c - VirtualAddress_ s in
  let m := writeTo c buf m in
  if c_entryThunk c then write32le m (buf - 4) (u32 (entryThunkRVA c - getRVA c + 1)) else m.

Definition write_section (m : mem) (s : osection) : mem :=
  let secBuf := PointerToRawData s in
  let m := if has_flag (os_Characteristics s) IMAGE_SCN_CNT_CODE && fillInt3
           then fill_gaps s secBuf 0 (os_chunks s) m else m in
  fold_left (write_chunk s secBuf) (schedule (os_chunks s)) m.

Definition writeSections (secs : list osection) (m : mem) : mem := fold_left write_section secs m.

End WriteSections.

(** ** The output sections of a layout, and the file *)

Definition setSectionPermissions (cfg : config) (secs : list osection) : list osection :=
  fold_left (fun secs p => map (fun s => if String.eqb (os_name s) p.1 then setPermissions p.2 s else s) secs)
    (sectionAttrs cfg) secs.

Section WriteImage.
  Context (cfg : config) (hc : header_config) (dirs : directories) (L : layout) (sizeOfImage : Z) (textSec : osection).
  Context (defined : nat -> option out_def) (writeSymtab : bool) (files : list (list nat)).
  Context (getRVA : lchunk -> Z) (writeTo : lchunk -> Z -> mem -> mem) (entryThunkRVA : lchunk -> Z).
  Context (schedule : list lchunk -> list lchunk) (fillInt3 : bool).

Definition output_sections : list osection := setSectionPermissions cfg (removeEmptySections (l_sections L)).

Definition output_tables : option symbol_tables :=
  createSymbolAndStringTable defined writeSymtab (fileAlign cfg) (l_fileSize L) output_sections files.

Definition output_size : Z :=
  match output_tables with Some t => t_fileSize t | None => l_fileSize L end.

(** [run], from the layout on; the buffer starts as zeroes. *)
Definition write_image : option mem :=
  if 2 ^ 32 - 1 <? output_size then None
  else
    let m := writeHeader cfg hc dirs (sizeOfHeaders cfg (length (l_sections L))) sizeOfImage textSec output_sections
               output_tables (fun _ => 0) in
    Some (writeSections getRVA writeTo entryThunkRVA schedule fillInt3 output_sections m).

End WriteImage.

(** The timestamp of [writeBuildId] in the COFF header. *)
Definition write_timestamp (stub : option (list Z)) (timestamp : Z) (m : mem) : mem :=
  write32le m (stubSize stub + 4 + 4) timestamp.

(** ** The checksum *)

(** The sum of the 16-bit words of the first [count] bytes at [addr]. *)
Fixpoint sum_words (fuel : nat) (m : mem) (addr count sum : Z) : Z :=
  match fuel with
  | O => sum
  | S fuel =>
      if 1 <? count then sum_words fuel m (addr + 2) (count - 2) (u64 (sum + read16le m addr))
      else if 0 <? count then u64 (sum + m addr) else sum
  end.

(** The carries added back in until none is left: four turns for the words of a
    file below 4 GiB. *)
Fixpoint fold_sum (fuel : nat) (sum : Z) : Z :=
  match fuel with
  | O => sum
  | S fuel => if sum >>> 16 =? 0 then sum else fold_sum fuel ((sum &&& 0xffff) + (sum >>> 16))
  end.

Definition pe_checksum (m : mem) (size : Z) : Z :=
  u32 (u64 (fold_sum 4 (sum_words (S (Z.to_nat size)) m 0 size 0) + size)).

Definition checkSumOffset (stub : option (list Z)) : Z := peHeaderOffset stub + 64.

Definition writePEChecksum (writeCheckSum : bool) (stub : option (list Z)) (size : Z) (m : mem) : mem :=
  if writeCheckSum then write32le m (checkSumOffset stub) (pe_checksum m (u32 size)) else m.

(** ** Reading the file back: [COFFObjectFile] on a PE image *)

Definition get_fields (ws : list nat) (m : mem) (p : Z) : list Z :=
  (fix go ws p := match ws with [] => [] | n :: ws => read n m p :: go ws (p + Z.of_nat n) end) ws p.

Record coff_image := {
  ci_is64 : bool;
  ci_file : list Z;           (* the fields of coff_file_header *)
  ci_header : list Z;         (* those of pe32_header or pe32plus_header *)
  ci_dirs : list (Z * Z);
  ci_sections : Z;            (* the section table's offset *)
  ci_numberOfSections : Z;
  ci_symbols : Z;             (* the symbol table's offset *)
  ci_numberOfSymbols : Z;
  ci_strings : option (Z * Z) (* the string table and its size *)
}.

Definition checkOffset (fileSize addr size : Z) : bool := (0 <=? addr) && (addr + size <=? fileSize).

Definition pe_widths (is64 : bool) : list nat :=
  ([2; 1; 1; 4; 4; 4; 4; 4] ++ (if is64 then [] else [4]) ++ [if is64 then 8 else 4; 4; 4; 2; 2; 2; 2; 2; 2; 4; 4; 4; 4; 2; 2] ++
   repeat (if is64 then 8 else 4) 4 ++ [4; 4])%nat.

Fixpoint read_dirs (n : nat) (m : mem) (p : Z) : list (Z * Z) :=
  match n with
  | O => []
  | S n => (read32le m p, read32le m (p + 4)) :: read_dirs n m (p + 8)
  end.

(** [initSymbolTablePtr]: the string table, none on an error. *)
Definition initSymbolTablePtr (fileSize : Z) (m : mem) (symbols n : Z) : option (Z * Z) :=
  if negb (checkOffset fileSize symbols (n * 18)) then None
  else
    let addr := u32 (symbols + u32 (n * 18)) in
    if negb (checkOffset fileSize addr 4) then None
    else
      let size := read32le m addr in
      if negb (checkOffset fileSize addr size) then None
      else
        let size := if size <? 4 then 4 else size in
        if (4 <? size) && negb (m (addr + size - 1) =? 0) then None else Some (addr, size).

(** [initialize], up to the tables that data directories point to; [None] is an
    error, or a file without the DOS magic (an object) or with 0xffff sections
    (an import library). *)
Definition initialize (fileSize : Z) (m : mem) : option coff_image :=
  if negb (68 <=? fileSize) || negb ((m 0 =? 77) && (m 1 =? 90)) then None
  else
    let pe := read32le m 60 in
    if negb (bool_decide (bytes_at m pe 4 = [80; 69; 0; 0])) then None
    else
      let coff := pe + 4 in
      if negb (checkOffset fileSize coff 20) then None
      else
        let numberOfSections := read16le m (coff + 2) in
        if numberOfSections =? 0xffff then None
        else
          let hdr := coff + 20 in
          if negb (checkOffset fileSize hdr 96) then None
          else
            magic ← (if read16le m hdr =? 0x10b then Some false
                     else if read16le m hdr =? 0x20b then Some true else None);
            let dirs := hdr + (if magic : bool then 112 else 96) in
            let n := read32le m (dirs - 4) in
            if negb (checkOffset fileSize dirs (8 * n)) then None
            else
              let table := hdr + read16le m (coff + 16) in
              if negb (checkOffset fileSize table (numberOfSections * 40)) then None
              else
                let symbols := read32le m (coff + 8) in
                let nsyms := read32le m (coff + 12) in
                if (symbols =? 0) && negb (nsyms =? 0) then None
                else
                  Some {| ci_is64 := magic;
                          ci_file := get_fields [2; 2; 4; 4; 4; 2; 2]%nat m coff;
                          ci_header := get_fields (pe_widths magic) m hdr;
                          ci_dirs := read_dirs (Z.to_nat n) m dirs;
                          ci_sections := table; ci_numberOfSections := numberOfSections;
                          ci_symbols := symbols; ci_numberOfSymbols := nsyms;
                          ci_strings := if symbols =? 0 then None else initSymbolTablePtr fileSize m symbols nsyms |}.

(** Bytes up to a NUL, as a string. *)
Fixpoint until_nul (bs : list Z) : list Z :=
  match bs with
  | [] => []
  | b :: bs => if b =? 0 then [] else b :: until_nul bs
  end.

Definition getString (f : coff_image) (m : mem) (off : Z) : option string :=
  '(addr, size) ← ci_strings f;
  if size <=? 4 then None
  else if size <=? off then None
  else Some (string_of_bytes (until_nul (bytes_at m (addr + off) (Z.to_nat (size - off))))).

Record coff_section := {
  sn_Name : list Z;
  sn_VirtualSize : Z;
  sn_VirtualAddress : Z;
  sn_SizeOfRawData : Z;
  sn_PointerToRawData : Z;
  sn_Characteristics : Z
}.

Definition read_section (m : mem) (p : Z) : coff_section :=
  {| sn_Name := bytes_at m p 8; sn_VirtualSize := read32le m (p + 8); sn_VirtualAddress := read32le m (p + 12);
     sn_SizeOfRawData := read32le m (p + 16); sn_PointerToRawData := read32le m (p + 20);
     sn_Characteristics := read32le m (p + 36) |}.

(** The section headers, in order. *)
Definition sections_of (f : coff_image) (m : mem) : list coff_section :=
  map (fun i => read_section m (ci_sections f + 40 * Z.of_nat i)) (seq 0 (Z.to_nat (ci_numberOfSections f))).

Definition getSectionName (f : coff_image) (m : mem) (s : coff_section) : option string :=
  let name := until_nul (sn_Name s) in
  off ← section_name_offset name;
  match off with
  | Some off => getString f m off
  | None => Some (string_of_bytes name)
  end.

Definition getSymbolName (f : coff_image) (m : mem) (i : nat) : option string :=
  let p := ci_symbols f + 18 * Z.of_nat i in
  if read32le m p =? 0 then getString f m (read32le m (p + 4))
  else Some (string_of_bytes (until_nul (bytes_at m p 8))).

(** ** A loader's view *)

(** The byte at an RVA: the headers, the raw data of the section there, zeroes
    past them. *)
Definition map_image (f : coff_image) (m : mem) (sizeOfHeaders rva : Z) : Z :=
  if (0 <=? rva) && (rva <? sizeOfHeaders) then m rva
  else match List.find (fun s => (sn_VirtualAddress s <=? rva) && (rva <? sn_VirtualAddress s + sn_VirtualSize s))
               (sections_of f m) with
       | Some s =>
           let off := rva - sn_VirtualAddress s in
           if off <? sn_SizeOfRawData s then m (sn_PointerToRawData s + off) else 0
       | None => 0
       end.
