(* ===== verification/ImageProps.v ===== *)
(** * The image file reads back (theorems on Image.v)

    [COFFObjectFile] finds in the written image the headers, sections, names and
    symbols the writer had; a loader that maps the sections finds every chunk. *)

From S2P Require Import Prelude Memory Layout LayoutProps StrTab StrTabProps Image.

#[local] Open Scope string_scope.
#[local] Open Scope list_scope.
#[local] Open Scope Z_scope.

(** ** Writers that leave a region alone *)

Definition keeps (lo hi : Z) (f : mem -> mem) : Prop := forall m x, lo <= x < hi -> f m x = m x.

Lemma keeps_id lo hi : keeps lo hi (fun m => m).
Proof. done. Qed.
Lemma keeps_comp lo hi f g : keeps lo hi f -> keeps lo hi g -> keeps lo hi (fun m => g (f m)).
Proof. intros Hf Hg m x Hx. by rewrite Hg, Hf. Qed.
Lemma keeps_write lo hi n p v : p + Z.of_nat n <= lo \/ hi <= p -> keeps lo hi (fun m => write n m p v).
Proof. intros H m x Hx. apply write_other. lia. Qed.
Lemma keeps_memcpy lo hi p bs : p + len bs <= lo \/ hi <= p -> keeps lo hi (fun m => memcpy m p bs).
Proof. intros H m x Hx. apply memcpy_other. unfold len in H. lia. Qed.
Lemma keeps_memset lo hi p v n : p + Z.max 0 n <= lo \/ hi <= p -> keeps lo hi (fun m => memset m p v n).
Proof. intros H. apply keeps_memcpy. unfold len. rewrite repeat_length. lia. Qed.
Lemma keeps_sub lo hi lo' hi' f : lo' <= lo -> hi <= hi' -> keeps lo' hi' f -> keeps lo hi f.
Proof. intros ? ? Hf m x Hx. apply Hf. lia. Qed.
Lemma keeps_fold {A} lo hi (f : mem -> A -> mem) l :
  (forall a, a ∈ l -> keeps lo hi (fun m => f m a)) -> keeps lo hi (fun m => fold_left f l m).
Proof.
  induction l as [|a l IH]; intros H m x Hx; [done|]. cbn.
  rewrite IH by (done || (intros b Hb; apply H; by right)). apply (H a); [by left|done].
Qed.

Lemma read_keeps lo hi f n m p : keeps lo hi f -> lo <= p -> p + Z.of_nat n <= hi -> read n (f m) p = read n m p.
Proof. intros Hf H1 H2. apply read_ext. intros k Hk. apply Hf. lia. Qed.

(** ** Structures *)

Lemma fields_size_nonneg fs : 0 <= fields_size fs.
Proof. unfold fields_size. induction fs as [|[n v] fs IH]; cbn [fold_right fst]; lia. Qed.

Lemma fields_size_cons n v fs : fields_size ((n, v) :: fs) = Z.of_nat n + fields_size fs.
Proof. done. Qed.

Lemma fields_size_app a b : fields_size (a ++ b) = fields_size a + fields_size b.
Proof. unfold fields_size. induction a as [|[n v] a IH]; cbn [app fold_right fst]; lia. Qed.

Lemma put_fields_other fs m p x : x < p \/ p + fields_size fs <= x -> put_fields m p fs x = m x.
Proof.
  revert m p. induction fs as [|[n v] fs IH]; intros m p Hx; [done|]. rewrite fields_size_cons in Hx. cbn [put_fields].
  pose proof (fields_size_nonneg fs). rewrite IH by lia. apply write_other. lia.
Qed.

Lemma keeps_fields lo hi p fs : p + fields_size fs <= lo \/ hi <= p -> keeps lo hi (fun m => put_fields m p fs).
Proof. intros H m x Hx. apply put_fields_other. lia. Qed.

(** The field at an offset. *)
Fixpoint field_at (fs : fields) (off : Z) : option (nat * Z) :=
  match fs with
  | [] => None
  | (n, v) :: fs => if off =? 0 then Some (n, v) else field_at fs (off - Z.of_nat n)
  end.

Lemma field_at_range fs off n v : field_at fs off = Some (n, v) -> Forall (fun f => (0 < f.1)%nat) fs ->
  0 <= off /\ off + Z.of_nat n <= fields_size fs.
Proof.
  revert off. induction fs as [|[k w] fs IH]; intros off; cbn [field_at]; [done|]. rewrite fields_size_cons. intros H Hp. apply Forall_cons in Hp as [_ Hp].
  pose proof (fields_size_nonneg fs). destruct (Z.eqb_spec off 0); [simplify_eq; lia|]. apply IH in H; [lia|done].
Qed.

Lemma read_field_at fs off n v m p : field_at fs off = Some (n, v) -> Forall (fun f => (0 < f.1)%nat) fs ->
  read n (put_fields m p fs) (p + off) = wrap (8 * Z.of_nat n) v.
Proof.
  revert off m p. induction fs as [|[k w] fs IH]; intros off m p; cbn [field_at put_fields]; [done|].
  intros H Hp. apply Forall_cons in Hp as [Hk Hp]. cbn in Hk. destruct (Z.eqb_spec off 0) as [->|Hne].
  - simplify_eq. rewrite Z.add_0_r. rewrite (read_keeps p (p + Z.of_nat n) (fun m => put_fields m (p + Z.of_nat n) fs)) by
      (lia || (apply keeps_fields; lia)). apply read_write.
  - pose proof (field_at_range _ _ _ _ H Hp). specialize (IH _ (write k m p w) (p + Z.of_nat k) H Hp).
    rewrite <- IH. f_equal. lia.
Qed.

Definition field_values (fs : fields) : list Z := map (fun f => wrap (8 * Z.of_nat f.1) f.2) fs.

Lemma get_put_fields fs m p : get_fields (map fst fs) (put_fields m p fs) p = field_values fs.
Proof.
  revert m p. induction fs as [|[n v] fs IH]; intros m p; [done|]. cbn [map get_fields put_fields field_values fst snd].
  f_equal; [|apply IH].
  rewrite (read_keeps p (p + Z.of_nat n) (fun m => put_fields m (p + Z.of_nat n) fs)) by (lia || (apply keeps_fields; lia)).
  apply read_write.
Qed.

Lemma get_fields_keeps ws f m p : keeps p (p + fold_right (fun n k => Z.of_nat n + k) 0 ws) f ->
  get_fields ws (f m) p = get_fields ws m p.
Proof.
  revert p. induction ws as [|n ws IH]; intros p Hf; [done|]. cbn in Hf |- *.
  assert (0 <= fold_right (fun n k => Z.of_nat n + k) 0 ws) by (clear; induction ws; cbn; lia).
  f_equal; [by apply (read_keeps _ _ f _ _ _ Hf); lia|]. apply IH. eapply keeps_sub; [| |exact Hf]; lia.
Qed.

Lemma bytes_at_keeps lo hi f m p n : keeps lo hi f -> lo <= p -> p + Z.of_nat n <= hi ->
  bytes_at (f m) p n = bytes_at m p n.
Proof. intros Hf H1 H2. unfold bytes_at. apply map_ext_in. intros k Hk%in_seq. apply Hf. lia. Qed.

(** Bytes written one field each. *)
Lemma bytes_fields bs m p : bytes_ok bs -> bytes_at (put_fields m p (map (pair 1%nat) bs)) p (length bs) = bs.
Proof.
  intros Hb. apply nth_ext with 0 0; [by rewrite length_bytes_at|]. intros k Hk. rewrite length_bytes_at in Hk.
  rewrite nth_bytes_at by done. revert m p k Hk. induction Hb as [|b bs Hb _ IH]; intros m p k Hk; cbn in Hk; [lia|].
  cbn [map put_fields]. destruct k as [|k].
  - rewrite put_fields_other by lia. rewrite (write_byte 1) by lia. cbn [nth].
    change (2 ^ (8 * Z.of_nat 0)) with 1. rewrite Z.div_1_r. by apply wrap_small.
  - replace (p + Z.of_nat (S k)) with (p + 1 + Z.of_nat k) by lia. apply IH. lia.
Qed.

Lemma bytes_fields_size (bs : list Z) : fields_size (map (pair 1%nat) bs) = len bs.
Proof. unfold len. induction bs; cbn [map length]; rewrite ?fields_size_cons; [done|lia]. Qed.

Lemma put_fields_app a b m p : put_fields m p (a ++ b) = put_fields (put_fields m p a) (p + fields_size a) b.
Proof.
  revert m p. induction a as [|[n v] a IH]; intros m p; cbn [app put_fields]; [by rewrite Z.add_0_r|].
  rewrite IH, fields_size_cons. f_equal. lia.
Qed.

(** ** What [writeHeader] leaves in the buffer *)

Definition same_in (lo hi : Z) (m m' : mem) : Prop := forall x, lo <= x < hi -> m x = m' x.

(** As [parseDosStub] wants it. *)
Definition stub_ok (stub : option (list Z)) : Prop :=
  match stub with
  | Some bs => 64 <= len bs /\ nth 0 bs 0 = 77 /\ nth 1 bs 0 = 90 /\ alignTo (len bs) 8 < 2 ^ 32
  | None => True
  end.

Lemma same_read n lo hi m m' p : same_in lo hi m m' -> lo <= p -> p + Z.of_nat n <= hi -> read n m p = read n m' p.
Proof. intros H H1 H2. apply read_ext. intros k Hk. apply H. lia. Qed.

Lemma same_bytes lo hi m m' p n : same_in lo hi m m' -> lo <= p -> p + Z.of_nat n <= hi -> bytes_at m p n = bytes_at m' p n.
Proof. intros H H1 H2. unfold bytes_at. apply map_ext_in. intros k Hk%in_seq. apply H. lia. Qed.

Lemma same_fields m m' p fs : same_in p (p + fields_size fs) m (put_fields m' p fs) ->
  get_fields (map fst fs) m p = field_values fs.
Proof.
  intros H. rewrite <- (get_put_fields fs m' p).
  assert (Hw : forall ws q lo, p <= q -> q + fold_right (fun n k => Z.of_nat n + k) 0 ws <= lo -> lo <= p + fields_size fs ->
    get_fields ws m q = get_fields ws (put_fields m' p fs) q).
  { clear - H. induction ws as [|n ws IH]; intros q lo H1 H2 H3; [done|]. cbn in *.
    assert (0 <= fold_right (fun n k => Z.of_nat n + k) 0 ws) by (clear; induction ws; cbn; lia).
    f_equal; [by eapply same_read; [exact H|lia..]|]. apply (IH _ lo); lia. }
  apply (Hw _ _ (p + fields_size fs)); [lia| |lia].
  enough (fold_right (fun n k => Z.of_nat n + k) 0 (map fst fs) = fields_size fs) by lia.
  clear. unfold fields_size. induction fs as [|f fs IH]; cbn [map fold_right]; [done|by rewrite IH].
Qed.

Lemma same_field n v m m' p fs off : same_in p (p + fields_size fs) m (put_fields m' p fs) ->
  Forall (fun f => (0 < f.1)%nat) fs -> field_at fs off = Some (n, v) -> read n m (p + off) = wrap (8 * Z.of_nat n) v.
Proof.
  intros H Hp Hf. rewrite <- (read_field_at fs off n v m' p Hf Hp). destruct (field_at_range _ _ _ _ Hf Hp).
  eapply same_read; [exact H|lia..].
Qed.

Lemma stubSize_le stub : stub_ok stub -> 64 <= stubSize stub < 2 ^ 32.
Proof.
  destruct stub as [bs|]; cbn; [|by vm_compute]. intros (H & _ & _ & H2). pose proof (alignTo_spec (len bs) 8 ltac:(lia)). lia.
Qed.

(** The DOS header: its magic, and where the PE header is. *)
Lemma write_dos_spec hc m : stub_ok (dosStub hc) -> let M := write_dos hc m in
  M 0 = 77 /\ M 1 = 90 /\ read32le M 60 = stubSize (dosStub hc) /\ keeps (stubSize (dosStub hc)) (2 ^ 64) (write_dos hc).
Proof.
  intros Hs. pose proof (stubSize_le _ Hs) as Hle. unfold write_dos. destruct (dosStub hc) as [bs|].
  - cbn in Hs, Hle |- *. destruct Hs as (H64 & H0 & H1 & H32). pose proof (alignTo_spec (len bs) 8 ltac:(lia)).
    split_and!.
    + rewrite write_other by lia. rewrite <- H0. apply (memcpy_byte m 0 bs 0). unfold len in H64. lia.
    + rewrite write_other by lia. rewrite <- H1. apply (memcpy_byte m 0 bs 1). unfold len in H64. lia.
    + rewrite read_write. apply wrap_small. split; [lia|done].
    + apply (keeps_comp _ _ (fun m => memcpy m 0 bs) (fun m => write32le m 60 _)); [apply keeps_memcpy|apply keeps_write]; lia.
  - cbn zeta. change (stubSize None) with 120 in *. split_and!.
    + rewrite memcpy_other by lia. rewrite !write_other by lia. exact (write_byte 1 _ 0 77 0 ltac:(lia)).
    + rewrite memcpy_other by lia. rewrite (write_other 4), !(write_other 2) by lia. exact (write_byte 1 _ 1 90 0 ltac:(lia)).
    + rewrite (read_ext 4 _ (write32le (write16le (write16le (write16le (write16le (write 1 (write 1 m 0 77) 1 90)
        2 (120 mod 512)) 4 ((120 + 511) / 512)) 8 (64 / 16)) 24 64) 60 120) 60 60) by (intros k Hk; apply memcpy_other; cbn; lia).
      by rewrite read_write.
    + intros m' x Hx. rewrite memcpy_other by (cbn; lia). by rewrite !write_other by lia.
Qed.

Lemma length_padded (l : list Z) : length (take NameSize (l ++ repeat 0 NameSize)) = 8%nat.
Proof. rewrite length_take, length_app, repeat_length. unfold NameSize. lia. Qed.

Lemma length_header_name off name : length (header_name off name) = 8%nat.
Proof. unfold header_name. case_match; apply length_padded. Qed.

Lemma section_fields_size off s : fields_size (section_fields off s) = 40.
Proof. unfold section_fields. rewrite fields_size_app, bytes_fields_size. unfold len. by rewrite length_header_name. Qed.

Lemma symbol_fields_size s : length (cs_Name s) = 8%nat -> fields_size (symbol_fields s) = 18.
Proof. intros H. unfold symbol_fields. rewrite fields_size_app, bytes_fields_size. unfold len. by rewrite H. Qed.

(** Records of one size, written one after the other. *)
Section Table.
Context {A : Type} (size : Z) (fs : A -> fields) (wr : list A -> Z -> mem -> mem) (ok : A -> Prop).
Context (Hsize : forall a, ok a -> fields_size (fs a) = size) (Hpos : 0 <= size).
Context (Hnil : forall buf m, wr [] buf m = m).
Context (Hcons : forall a l buf m, wr (a :: l) buf m = wr l (buf + size) (put_fields m buf (fs a))).

Lemma table_keeps l buf lo hi : Forall ok l -> buf + size * Z.of_nat (length l) <= lo \/ hi <= buf -> keeps lo hi (wr l buf).
Proof using Hsize Hpos Hnil Hcons.
  intros Hl. revert buf. induction Hl as [|a l Ha Hl IH]; intros buf H m x Hx; [by rewrite Hnil|].
  cbn [length] in H. rewrite Hcons, IH by (done || nia). rewrite put_fields_other; [done|]. rewrite (Hsize a Ha). nia.
Qed.

Lemma table_record l buf m i a : Forall ok l -> l !! i = Some a ->
  exists m', let p := buf + size * Z.of_nat i in same_in p (p + size) (wr l buf m) (put_fields m' p (fs a)).
Proof using Hsize Hpos Hnil Hcons.
  intros Hl. revert buf m i. induction Hl as [|b l Hb Hl IH]; intros buf m i Hi; [done|]. rewrite Hcons.
  destruct i as [|i]; cbn in Hi.
  - simplify_eq. exists m. cbn. rewrite Z.mul_0_r, Z.add_0_r. intros x Hx.
    by apply (table_keeps l (buf + size) buf (buf + size)); [|lia|].
  - destruct (IH (buf + size) (put_fields m buf (fs b)) i Hi) as [m' H]. exists m'. cbn zeta in *.
    replace (buf + size * Z.of_nat (S i)) with (buf + size + size * Z.of_nat i) by lia. exact H.
Qed.
End Table.

Section Written.
Context (cfg : config) (hc : header_config) (dirs : directories).
Context (sizeOfHeaders sizeOfImage : Z) (textSec : osection) (secs : list osection).
Context (tables : option symbol_tables) (limit : Z).

Abbreviation D := (stubSize (dosStub hc)).
Abbreviation T := (sectionTableOffset cfg hc).
Abbreviation T_end := (T + 40 * Z.of_nat (length secs)).
Abbreviation coffF := (coff_fields cfg hc secs tables).
Abbreviation peF := (pe_fields cfg hc sizeOfHeaders sizeOfImage textSec secs).
Abbreviation dirF := (dir_fields (data_directories (is64 cfg) dirs)).

Definition strings_offset (t : symbol_tables) : Z := t_pointer t + 18 * Z.of_nat (length (t_symbols t)).

(** The tables lie past the headers, after sections that end at [limit]. *)
Definition tables_ok : Prop :=
  T_end <= limit /\
  match tables with
  | Some t => limit <= t_pointer t /\ Forall (fun s => length (cs_Name s) = 8%nat) (t_symbols t) /\
      exists B, builder_ok B /\ sb_K B = WinCOFF /\ t_strtab t = finalize B /\ strings_offset t + sb_Size (finalize B) < 2 ^ 32
  | None => True
  end.

(** What the buffer holds; sections may be written over all the rest. *)
Record header_written (M : mem) : Prop := {
  hw_dos : M 0 = 77 /\ M 1 = 90 /\ read32le M 60 = D;
  hw_magic : bytes_at M D 4 = [80; 69; 0; 0];
  hw_coff : exists m, let p := coffHeaderOffset (dosStub hc) in same_in p (p + 20) M (put_fields m p coffF);
  hw_pe : exists m, let p := peHeaderOffset (dosStub hc) in same_in p (p + peHeaderSize cfg) M (put_fields m p peF);
  hw_dirs : exists m, let p := peHeaderOffset (dosStub hc) + peHeaderSize cfg in same_in p (p + 128) M (put_fields m p dirF);
  hw_section i s : secs !! i = Some s -> exists m, let p := T + 40 * Z.of_nat i in
    same_in p (p + 40) M (put_fields m p (section_fields (stringTableOff tables s) s));
  hw_symbol t i s : tables = Some t -> t_symbols t !! i = Some s -> exists m, let p := t_pointer t + 18 * Z.of_nat i in
    same_in p (p + 18) M (put_fields m p (symbol_fields s));
  hw_strings t : tables = Some t -> exists m, let p := strings_offset t in
    (forall x, 0 <= x < sb_Size (t_strtab t) -> m (p + x) = 0) /\
    same_in p (p + sb_Size (t_strtab t)) M (write_table (t_strtab t) p m)
}.

Lemma coff_size : fields_size coffF = 20.
Proof. done. Qed.
Lemma pe_size : fields_size peF = peHeaderSize cfg.
Proof. unfold pe_fields, peHeaderSize. by destruct (is64 cfg). Qed.
Lemma dir_size : fields_size dirF = 128.
Proof. done. Qed.

Lemma peHeaderSize_range : 96 <= peHeaderSize cfg <= 112.
Proof. unfold peHeaderSize. case_match; lia. Qed.

Lemma same_trans lo hi lo' hi' M1 M2 M3 : lo <= lo' -> hi' <= hi -> same_in lo hi M1 M2 -> same_in lo' hi' M2 M3 -> same_in lo' hi' M1 M3.
Proof. intros ? ? H1 H2 x Hx. rewrite H1 by lia. by apply H2. Qed.

Lemma string_region B : builder_ok B -> sb_K B = WinCOFF -> 4 <= sb_Size (finalize B).
Proof. intros HB HK. pose proof (finalize_head B HB) as H. by rewrite HK in H. Qed.

(** Only the headers and what is past [limit] count. *)
Lemma header_written_same M M' : stub_ok (dosStub hc) -> tables_ok ->
  same_in 0 T_end M' M -> same_in limit (2 ^ 64) M' M -> header_written M -> header_written M'.
Proof.
  intros Hst [Hl Htab] K1 K2 [(H1 & H2 & H3) H4 H5 H6 H7 H8 H9 H10].
  pose proof (stubSize_le _ Hst). pose proof peHeaderSize_range.
  assert (Hsub : forall lo hi m, 0 <= lo -> hi <= T -> same_in lo hi M m -> same_in lo hi M' m).
  { intros lo hi m ? ?. apply (same_trans 0 T_end); [lia|lia|exact K1]. }
  unfold sectionTableOffset, peHeaderOffset, coffHeaderOffset in *.
  split.
  - rewrite !K1 by lia. split_and!; [done..|]. by rewrite (same_read 4 _ _ _ _ _ K1) by lia.
  - by rewrite (same_bytes _ _ _ _ _ _ K1) by lia.
  - destruct H5 as [m H5]. exists m. apply Hsub; [unfold coffHeaderOffset; lia..|done].
  - destruct H6 as [m H6]. exists m. apply Hsub; [unfold peHeaderOffset, coffHeaderOffset; lia..|done].
  - destruct H7 as [m H7]. exists m. apply Hsub; [unfold peHeaderOffset, coffHeaderOffset; lia..|done].
  - intros i s Hi. pose proof (lookup_lt_Some _ _ _ Hi). destruct (H8 i s Hi) as [m Hm]. exists m.
    unfold sectionTableOffset, peHeaderOffset, coffHeaderOffset. eapply same_trans; [| |exact K1|exact Hm]; lia.
  - intros t i s Et Hi. pose proof (lookup_lt_Some _ _ _ Hi). destruct (H9 t i s Et Hi) as [m Hm]. exists m.
    rewrite Et in Htab. destruct Htab as (L & _ & B & HB & HK & EB & Hs). unfold strings_offset in Hs.
    pose proof (string_region B HB HK). eapply same_trans; [| |exact K2|exact Hm]; lia.
  - intros t Et. destruct (H10 t Et) as (m & Hz & Hm). exists m. split; [done|].
    rewrite Et in Htab. destruct Htab as (L & _ & B & HB & HK & EB & Hs). rewrite EB in *. unfold strings_offset in *.
    eapply same_trans; [| |exact K2|exact Hm]; lia.
Qed.

Lemma section_table_keeps lo hi l buf : buf + 40 * Z.of_nat (length l) <= lo \/ hi <= buf ->
  keeps lo hi (write_section_table tables l buf).
Proof.
  apply (table_keeps 40 (fun s => section_fields (stringTableOff tables s) s) _ (fun _ => True)); try done.
  - intros s _. apply section_fields_size.
  - by apply Forall_forall.
Qed.

Lemma symbols_keeps lo hi l buf : Forall (fun s => length (cs_Name s) = 8%nat) l ->
  buf + 18 * Z.of_nat (length l) <= lo \/ hi <= buf -> keeps lo hi (write_symbols l buf).
Proof. apply table_keeps with (fs := symbol_fields); try done. apply symbol_fields_size. Qed.

(** The tables are written past [limit]. *)
Definition write_tables (m : mem) : mem :=
  match tables with
  | None => m
  | Some t => write_table (t_strtab t) (strings_offset t) (write_symbols (t_symbols t) (t_pointer t) m)
  end.

Lemma write_tables_same lo hi m : tables_ok -> hi <= limit -> same_in lo hi (write_tables m) m.
Proof.
  intros [_ Ht] Hhi x Hx. unfold write_tables. destruct tables as [t|]; [|done].
  destruct Ht as (Hp & Hn & B & HB & HK & EB & Hs). rewrite EB. unfold strings_offset in *.
  rewrite write_table_frame by (done || lia). by rewrite (symbols_keeps lo hi) by (done || lia).
Qed.

(** The headers before the tables. *)
Definition write_heads (m : mem) : mem :=
  let m := write_dos hc m in
  let m := memcpy m D [80; 69; 0; 0] in
  let m := put_fields m (coffHeaderOffset (dosStub hc)) coffF in
  let m := put_fields m (peHeaderOffset (dosStub hc)) peF in
  let m := put_fields m (peHeaderOffset (dosStub hc) + peHeaderSize cfg) dirF in
  write_section_table tables secs T m.

Lemma writeHeader_split m :
  writeHeader cfg hc dirs sizeOfHeaders sizeOfImage textSec secs tables m = write_tables (write_heads m).
Proof. unfold writeHeader, write_tables, write_heads. by destruct tables. Qed.

Lemma write_heads_keeps : stub_ok (dosStub hc) -> keeps T_end (2 ^ 64) write_heads.
Proof.
  intros Hst m x Hx. pose proof (stubSize_le _ Hst). pose proof peHeaderSize_range. unfold write_heads.
  unfold sectionTableOffset, peHeaderOffset, coffHeaderOffset in *.
  rewrite (section_table_keeps x (x + 1)) by lia. rewrite !put_fields_other by (rewrite ?coff_size, ?pe_size, ?dir_size; lia).
  rewrite memcpy_other by (cbn; lia). apply (write_dos_spec hc m Hst). lia.
Qed.

Lemma writeHeader_written m : stub_ok (dosStub hc) -> tables_ok -> (forall x, limit <= x < 2 ^ 32 -> m x = 0) ->
  header_written (writeHeader cfg hc dirs sizeOfHeaders sizeOfImage textSec secs tables m).
Proof.
  intros Hst Ht Hz. rewrite writeHeader_split. pose proof (stubSize_le _ Hst) as HD. pose proof peHeaderSize_range as Hpe.
  pose proof Ht as [Hl Ht']. assert (HT : T = D + 24 + peHeaderSize cfg + 128) by (unfold sectionTableOffset, peHeaderOffset, coffHeaderOffset; lia).
  assert (Hsame : forall hi, hi <= limit -> same_in 0 hi (write_tables (write_heads m)) (write_heads m)).
  { intros hi Hhi. by apply write_tables_same. }
  assert (Hheads : forall M p fs rest n, write_heads m = rest (put_fields M p fs) -> fields_size fs = n -> 0 <= p ->
    p + n <= T_end -> keeps p (p + n) rest ->
    exists m', same_in p (p + n) (write_tables (write_heads m)) (put_fields m' p fs)).
  { intros M p fs rest n E En H1 H2 H3. exists M. intros x Hx. rewrite (Hsame limit) by lia. rewrite E. by apply H3. }
  assert (Ktab : forall lo hi, hi <= T -> keeps lo hi (write_section_table tables secs T)) by (intros; apply section_table_keeps; lia).
  pose proof (write_dos_spec hc m Hst) as (D1 & D2 & D3 & D4).
  set (m1 := write_dos hc m) in *. set (m2 := memcpy m1 D [80; 69; 0; 0]).
  assert (Hlow : forall hi, hi <= D + 4 -> same_in 0 hi (write_tables (write_heads m)) m2).
  { intros hi Hhi x Hx. rewrite (Hsame limit) by lia. unfold write_heads. fold m1 m2. rewrite Ktab with (hi := T) (lo := 0) by lia.
    unfold peHeaderOffset, coffHeaderOffset. by rewrite !put_fields_other by (rewrite ?coff_size, ?pe_size, ?dir_size; lia). }
  assert (Em2 : forall x, x < D -> m2 x = m1 x) by (intros x Hx; apply memcpy_other; lia).
  split.
  - rewrite !(Hlow D) by lia. rewrite !Em2 by lia. split_and!; [done..|].
    rewrite (same_read 4 0 D _ m2) by (try apply Hlow; lia). rewrite <- D3. apply read_ext. intros k Hk. apply Em2. lia.
  - rewrite (same_bytes 0 (D + 4) _ m2) by (try apply Hlow; lia). apply (bytes_at_memcpy m1 D [80; 69; 0; 0]).
  - cbn zeta. eapply (Hheads m2 _ _ (fun m => write_section_table tables secs T
      (put_fields (put_fields m (peHeaderOffset (dosStub hc)) peF) (peHeaderOffset (dosStub hc) + peHeaderSize cfg) dirF)));
      [done|apply coff_size|unfold coffHeaderOffset; lia..|].
    intros M x Hx. unfold peHeaderOffset, coffHeaderOffset in *. rewrite (Ktab 0 T) by lia. by rewrite !put_fields_other by lia.
  - cbn zeta. eapply (Hheads (put_fields m2 (coffHeaderOffset (dosStub hc)) coffF) _ _
      (fun m => write_section_table tables secs T (put_fields m (peHeaderOffset (dosStub hc) + peHeaderSize cfg) dirF)));
      [done|apply pe_size|unfold peHeaderOffset, coffHeaderOffset; lia..|].
    intros M x Hx. unfold peHeaderOffset, coffHeaderOffset in *. rewrite (Ktab 0 T) by lia. by rewrite !put_fields_other by lia.
  - cbn zeta. eapply (Hheads (put_fields (put_fields m2 (coffHeaderOffset (dosStub hc)) coffF) (peHeaderOffset (dosStub hc)) peF) _ _
      (fun m => write_section_table tables secs T m));
      [done|apply dir_size|unfold peHeaderOffset, coffHeaderOffset; lia..|].
    intros M x Hx. unfold peHeaderOffset, coffHeaderOffset in *. apply (Ktab 0 T); lia.
  - intros i s0 Hi. pose proof (lookup_lt_Some _ _ _ Hi).
    set (m5 := put_fields (put_fields (put_fields m2 (coffHeaderOffset (dosStub hc)) coffF) (peHeaderOffset (dosStub hc)) peF)
         (peHeaderOffset (dosStub hc) + peHeaderSize cfg) dirF).
    assert (Eh : write_heads m = write_section_table tables secs T m5) by reflexivity. clearbody m5.
    destruct (table_record 40 (fun s => section_fields (stringTableOff tables s) s)
      (fun l buf m => write_section_table tables l buf m) (fun _ => True)) with (l := secs) (buf := T) (i := i) (a := s0)
      (m := m5) as [m' Hm']; try done.
    + intros s _. apply section_fields_size.
    + by apply Forall_forall.
    + exists m'. cbn zeta in *. intros x Hx. rewrite (Hsame limit) by lia. rewrite Eh. by apply Hm'.
  - intros t i s0 Et Hi. pose proof (lookup_lt_Some _ _ _ Hi). rewrite Et in Ht'. destruct Ht' as (Hp & Hn & B & HB & HK & EB & Hs).
    unfold write_tables. rewrite Et, EB. unfold strings_offset in *. pose proof (string_region B HB HK).
    destruct (table_record 18 symbol_fields write_symbols (fun s => length (cs_Name s) = 8%nat)) with (l := t_symbols t) (buf := t_pointer t)
      (i := i) (a := s0) (m := write_heads m) as [m' Hm']; try done; [apply symbol_fields_size|].
    exists m'. cbn zeta in *. intros x Hx. rewrite write_table_frame by (done || lia). by apply Hm'.
  - intros t Et. rewrite Et in Ht'. destruct Ht' as (Hp & Hn & B & HB & HK & EB & Hs).
    unfold write_tables. rewrite Et. unfold strings_offset in *. pose proof (string_region B HB HK).
    exists (write_symbols (t_symbols t) (t_pointer t) (write_heads m)). cbn zeta. split; [|done]. rewrite EB. intros x Hx.
    rewrite (symbols_keeps (t_pointer t + 18 * Z.of_nat (length (t_symbols t))) (2 ^ 64)) by (done || lia).
    rewrite write_heads_keeps by (done || lia). apply Hz. lia.
Qed.
End Written.

(** ** Reading the headers *)

Lemma word_fields_pos (l : list (Z * Z)) : Forall (fun f => (0 < f.1)%nat) (dir_fields l).
Proof. induction l as [|d l IH]; [constructor|]. cbn. repeat (constructor; [cbn; lia|]). exact IH. Qed.

Lemma read_dirs_fields l M m p : same_in p (p + 8 * Z.of_nat (length l)) M (put_fields m p (dir_fields l)) ->
  read_dirs (length l) M p = map (fun d => (u32 d.1, u32 d.2)) l.
Proof.
  revert m p. induction l as [|[a b] l IH]; intros m p H; [done|]. cbn [length read_dirs map fst snd] in *.
  assert (Esz : fields_size (dir_fields ((a, b) :: l)) = 8 + fields_size (dir_fields l)).
  { change (dir_fields ((a, b) :: l)) with ((4%nat, a) :: (4%nat, b) :: dir_fields l). rewrite !fields_size_cons. lia. }
  assert (Hlen : fields_size (dir_fields l) = 8 * Z.of_nat (length l)).
  { clear. induction l as [|[x y] l IH]; [done|].
    change (dir_fields ((x, y) :: l)) with ((4%nat, x) :: (4%nat, y) :: dir_fields l). rewrite !fields_size_cons, IH. cbn [length]. lia. }
  assert (Hs : same_in p (p + fields_size (dir_fields ((a, b) :: l))) M (put_fields m p (dir_fields ((a, b) :: l)))).
  { intros x Hx. apply H. lia. }
  pose proof (same_field 4 a M m p _ 0 Hs (word_fields_pos _) eq_refl) as Ea.
  pose proof (same_field 4 b M m p _ 4 Hs (word_fields_pos _) eq_refl) as Eb.
  rewrite Z.add_0_r in Ea. rewrite Ea, Eb. f_equal.
  apply (IH (write 4 (write 4 m p a) (p + 4) b)). intros x Hx. rewrite H by lia.
  change (dir_fields ((a, b) :: l)) with ((4%nat, a) :: (4%nat, b) :: dir_fields l). cbn [put_fields].
  by replace (p + Z.of_nat 4 + Z.of_nat 4) with (p + 8) by lia.
Qed.

Section Reading.
Context (cfg : config) (hc : header_config) (dirs : directories).
Context (sizeOfHeaders sizeOfImage : Z) (textSec : osection) (secs : list osection).
Context (tables : option symbol_tables) (limit fileSize : Z) (M : mem).

Abbreviation T := (sectionTableOffset cfg hc).

Context (Hst : stub_ok (dosStub hc)) (Ht : tables_ok cfg hc secs tables limit).
Context (Hw : header_written cfg hc dirs sizeOfHeaders sizeOfImage textSec secs tables M).
Context (Hn : Z.of_nat (length secs) < 0xffff).

(** The file holds all the tables. *)
Definition file_ok : Prop :=
  T + 40 * Z.of_nat (length secs) <= fileSize /\
  match tables with
  | Some t => strings_offset t + sb_Size (t_strtab t) <= fileSize
  | None => True
  end.
Context (Hfile : file_ok).

Definition image_of : coff_image :=
  {| ci_is64 := is64 cfg;
     ci_file := field_values (coff_fields cfg hc secs tables);
     ci_header := field_values (pe_fields cfg hc sizeOfHeaders sizeOfImage textSec secs);
     ci_dirs := map (fun d => (u32 d.1, u32 d.2)) (data_directories (is64 cfg) dirs);
     ci_sections := T;
     ci_numberOfSections := Z.of_nat (length secs);
     ci_symbols := match tables with Some t => t_pointer t | None => 0 end;
     ci_numberOfSymbols := match tables with Some t => Z.of_nat (length (t_symbols t)) | None => 0 end;
     ci_strings := match tables with Some t => Some (strings_offset t, sb_Size (t_strtab t)) | None => None end |}.

Lemma read_coff n v off :
  field_at (coff_fields cfg hc secs tables) off = Some (n, v) ->
  read n M (coffHeaderOffset (dosStub hc) + off) = wrap (8 * Z.of_nat n) v.
Proof using Hw.
  destruct (hw_coff _ _ _ _ _ _ _ _ _ Hw) as [m H]. intros Hf.
  apply (same_field n v M m _ (coff_fields cfg hc secs tables) off H); [|done]. by repeat (constructor; [cbn; lia|]).
Qed.

Lemma pe_fields_pos : Forall (fun f => (0 < f.1)%nat) (pe_fields cfg hc sizeOfHeaders sizeOfImage textSec secs).
Proof using Type. unfold pe_fields. destruct (is64 cfg); by repeat (constructor; [cbn; lia|]). Qed.

Lemma read_pe n v off :
  field_at (pe_fields cfg hc sizeOfHeaders sizeOfImage textSec secs) off = Some (n, v) ->
  read n M (peHeaderOffset (dosStub hc) + off) = wrap (8 * Z.of_nat n) v.
Proof using Hw.
  destruct (hw_pe _ _ _ _ _ _ _ _ _ Hw) as [m H]. intros Hf.
  eapply (same_field n v M m _ (pe_fields cfg hc sizeOfHeaders sizeOfImage textSec secs) off); [|apply pe_fields_pos|exact Hf].
  rewrite pe_size. exact H.
Qed.

Lemma tables_range : match tables with
  | Some t => T + 40 * Z.of_nat (length secs) <= t_pointer t /\ 0 < t_pointer t /\
      strings_offset t + sb_Size (t_strtab t) < 2 ^ 32 /\ 4 <= sb_Size (t_strtab t) /\ 0 <= Z.of_nat (length (t_symbols t))
  | None => True
  end.
Proof using Ht Hst.
  clear Hw Hfile. destruct Ht as [Hl Ht']. destruct tables as [t|]; [|done]. destruct Ht' as (Hp & _ & B & HB & HK & -> & Hs).
  pose proof (string_region B HB HK). pose proof (stubSize_le _ Hst). pose proof (peHeaderSize_range cfg).
  unfold sectionTableOffset, peHeaderOffset, coffHeaderOffset in *. lia.
Qed.

Lemma read_strings t : tables = Some t ->
  initSymbolTablePtr fileSize M (t_pointer t) (Z.of_nat (length (t_symbols t))) = Some (strings_offset t, sb_Size (t_strtab t)).
Proof using All.
  intros Et. pose proof tables_range as Hr. pose proof Hfile as [_ Hf]. pose proof Ht as [_ Ht'].
  destruct (hw_strings _ _ _ _ _ _ _ _ _ Hw t Et) as (m & Hz & Hs). rewrite Et in Hr, Hf, Ht'. cbn zeta in Hs.
  destruct Ht' as (_ & _ & B & HB & HK & EB & H32). unfold strings_offset in *.
  unfold initSymbolTablePtr, checkOffset.
  rewrite (proj2 (Z.leb_le 0 (t_pointer t))) by lia. rewrite (proj2 (Z.leb_le _ fileSize)) by lia. cbn [andb negb].
  rewrite (wrap_small 32 (Z.of_nat _ * 18)) by (split; lia). rewrite (wrap_small 32) by (split; lia).
  replace (Z.of_nat (length (t_symbols t)) * 18) with (18 * Z.of_nat (length (t_symbols t))) by lia.
  set (p := t_pointer t + 18 * Z.of_nat (length (t_symbols t))) in *.
  rewrite (proj2 (Z.leb_le 0 p)) by lia. rewrite (proj2 (Z.leb_le (p + 4) fileSize)) by lia. cbn [andb negb].
  assert (Er : read32le M p = sb_Size (t_strtab t)).
  { rewrite (same_read 4 _ _ _ _ _ Hs) by lia. rewrite EB. apply write_table_size; [done..|]. rewrite <- EB. lia. }
  rewrite Er. rewrite (proj2 (Z.leb_le (p + sb_Size (t_strtab t)) fileSize)) by lia. cbn [andb negb].
  rewrite (proj2 (Z.ltb_ge (sb_Size (t_strtab t)) 4)) by lia.
  destruct (Z.ltb_spec 4 (sb_Size (t_strtab t))) as [Hlt|]; [|done]. cbn [andb].
  replace (p + sb_Size (t_strtab t) - 1) with (p + (sb_Size (t_strtab t) - 1)) by lia.
  rewrite Hs by lia. rewrite EB in Hz, Hlt |- *. by rewrite write_table_end.
Qed.

Lemma initialize_image : initialize fileSize M = Some image_of.
Proof using All.
  destruct (hw_dos _ _ _ _ _ _ _ _ _ Hw) as (H0 & H1 & H60). pose proof (hw_magic _ _ _ _ _ _ _ _ _ Hw) as Hm.
  pose proof (stubSize_le _ Hst) as HD. pose proof (peHeaderSize_range cfg) as Hps. pose proof Hfile as [Hf1 Hf2].
  pose proof tables_range as Hr.
  assert (ET : T = coffHeaderOffset (dosStub hc) + 20 + (peHeaderSize cfg + 128)) by (unfold sectionTableOffset, peHeaderOffset; lia).
  unfold initialize. rewrite (proj2 (Z.leb_le 68 _)) by (unfold coffHeaderOffset in *; lia). rewrite H0, H1. cbn [negb andb orb Z.eqb].
  rewrite H60, Hm. rewrite bool_decide_eq_true_2 by done. cbn [negb]. fold (coffHeaderOffset (dosStub hc)).
  change (stubSize (dosStub hc) + 4) with (coffHeaderOffset (dosStub hc)).
  set (coff := coffHeaderOffset (dosStub hc)) in *. assert (Hc : 68 <= coff) by (unfold coff, coffHeaderOffset; lia).
  unfold checkOffset. rewrite (proj2 (Z.leb_le 0 coff)) by lia. rewrite (proj2 (Z.leb_le (coff + 20) _)) by lia. cbn [andb negb].
  pose proof (read_coff 2 (Z.of_nat (length secs)) 2 eq_refl) as E2. fold coff in E2. rewrite E2.
  rewrite (wrap_small (8 * Z.of_nat 2)) by (split; [lia|change (2 ^ (8 * Z.of_nat 2)) with 65536; lia]).
  rewrite (proj2 (Z.eqb_neq _ 65535)) by lia.
  change (coff + 20) with (peHeaderOffset (dosStub hc)). change (coff + 20) with (peHeaderOffset (dosStub hc)) in ET. set (hdr := peHeaderOffset (dosStub hc)) in *.
  assert (Hh : coff + 20 = hdr) by done.
  rewrite (proj2 (Z.leb_le 0 hdr)) by lia. rewrite (proj2 (Z.leb_le (hdr + 96) _)) by lia. cbn [andb negb].
  pose proof (read_pe 2 (if is64 cfg then 0x20b else 0x10b) 0 eq_refl) as Em. rewrite Z.add_0_r in Em. fold hdr in Em. rewrite Em.
  assert (Emag : (if wrap (8 * Z.of_nat 2) (if is64 cfg then 0x20b else 0x10b) =? 267 then Some false
     else if wrap (8 * Z.of_nat 2) (if is64 cfg then 0x20b else 0x10b) =? 523 then Some true else None) = Some (is64 cfg)) by (by destruct (is64 cfg)).
  rewrite Emag. cbn [mbind option_bind]. change (if is64 cfg then 112 else 96) with (peHeaderSize cfg).
  assert (En : read32le M (hdr + peHeaderSize cfg - 4) = 16).
  { replace (hdr + peHeaderSize cfg - 4) with (hdr + (peHeaderSize cfg - 4)) by lia. apply (read_pe 4 16).
    unfold pe_fields, peHeaderSize. by destruct (is64 cfg). }
  rewrite En. rewrite (proj2 (Z.leb_le 0 (hdr + _))) by lia. rewrite (proj2 (Z.leb_le (hdr + peHeaderSize cfg + 8 * 16) _)) by lia. cbn [andb negb].
  pose proof (read_coff 2 ((if is64 cfg then 112 else 96) + 8 * 16) 16 eq_refl) as E16. fold coff (peHeaderSize cfg) in E16. rewrite E16.
  rewrite (wrap_small (8 * Z.of_nat 2)) by (split; [lia|change (2 ^ (8 * Z.of_nat 2)) with 65536; lia]).
  replace (hdr + (peHeaderSize cfg + 8 * 16)) with T by lia.
  rewrite (proj2 (Z.leb_le 0 T)) by lia. rewrite (proj2 (Z.leb_le (T + _) _)) by lia. cbn [andb negb].
  pose proof (read_coff 4 (match tables with Some t => t_pointer t | None => 0 end) 8 eq_refl) as E8.
  pose proof (read_coff 4 (match tables with Some t => Z.of_nat (length (t_symbols t)) | None => 0 end) 12 eq_refl) as E12.
  fold coff in E8, E12. rewrite E8, E12.
  assert (Esym : wrap (8 * Z.of_nat 4) (match tables with Some t => t_pointer t | None => 0 end) =
    match tables with Some t => t_pointer t | None => 0 end).
  { apply wrap_small. change (8 * Z.of_nat 4) with 32. destruct tables; [unfold strings_offset in Hr|]; split; lia. }
  assert (Ens : wrap (8 * Z.of_nat 4) (match tables with Some t => Z.of_nat (length (t_symbols t)) | None => 0 end) =
    match tables with Some t => Z.of_nat (length (t_symbols t)) | None => 0 end).
  { apply wrap_small. change (8 * Z.of_nat 4) with 32. destruct tables; [unfold strings_offset in Hr|]; split; lia. }
  rewrite Esym, Ens.
  assert (Enull : (match tables with Some t => t_pointer t | None => 0 end =? 0) &&
    negb (match tables with Some t => Z.of_nat (length (t_symbols t)) | None => 0 end =? 0) = false).
  { destruct tables; [|done]. rewrite (proj2 (Z.eqb_neq _ 0)) by lia. done. }
  rewrite Enull. unfold image_of. f_equal. f_equal.
  - destruct (hw_coff _ _ _ _ _ _ _ _ _ Hw) as [m H]. exact (same_fields _ _ _ (coff_fields cfg hc secs tables) H).
  - destruct (hw_pe _ _ _ _ _ _ _ _ _ Hw) as [m H]. cbn zeta in H. rewrite <- (pe_size cfg hc sizeOfHeaders sizeOfImage textSec secs) in H.
    rewrite <- (same_fields _ _ _ (pe_fields cfg hc sizeOfHeaders sizeOfImage textSec secs) H). f_equal. unfold pe_fields, pe_widths. by destruct (is64 cfg).
  - destruct (hw_dirs _ _ _ _ _ _ _ _ _ Hw) as [m H]. cbn zeta in H. exact (read_dirs_fields (data_directories (is64 cfg) dirs) _ _ _ H).
  - pose proof read_strings as Hrs. clear - Hr Hrs. destruct tables as [t|]; [|done].
    rewrite (proj2 (Z.eqb_neq _ 0)) by lia. by apply Hrs.
Qed.
End Reading.

(** ** Names *)

Lemma string_of_str_bytes s : string_of_bytes (str_bytes s) = s.
Proof.
  unfold str_bytes, string_of_bytes. induction s as [|c s IH]; [done|]. cbn in *. by rewrite IH, Nat2Z.id, Ascii.ascii_nat_embedding.
Qed.

Lemma no_nul_bytes s : no_nul s -> Forall (fun b => b <> 0) (str_bytes s).
Proof.
  unfold no_nul, str_bytes. induction 1 as [|c l Hc _ IH]; [constructor|]. cbn. constructor; [|done].
  intros E. apply Hc. rewrite <- (Ascii.ascii_nat_embedding c). by replace (Ascii.nat_of_ascii c) with O by lia.
Qed.

Lemma until_nul_app s rest : Forall (fun b => b <> 0) s -> until_nul (s ++ 0 :: rest) = s.
Proof. induction 1 as [|b s Hb _ IH]; [done|]. cbn. by rewrite (proj2 (Z.eqb_neq _ _) Hb), IH. Qed.

Lemma until_nul_all s : Forall (fun b => b <> 0) s -> until_nul s = s.
Proof. induction 1 as [|b s Hb _ IH]; [done|]. cbn. by rewrite (proj2 (Z.eqb_neq _ _) Hb), IH. Qed.

(** Eight characters, padded with zeroes. *)
Lemma until_nul_padded cs : Forall (fun b => b <> 0) cs -> until_nul (take NameSize (cs ++ repeat 0 NameSize)) = take NameSize cs.
Proof.
  intros H. destruct (decide (length cs < NameSize)%nat) as [Hl|Hl].
  - rewrite take_app_ge, (take_ge cs) by lia. destruct (NameSize - length cs)%nat as [|k] eqn:E; [lia|].
    cbn [repeat]. unfold NameSize at 1. cbn [repeat take]. by apply until_nul_app.
  - rewrite take_app_le by lia. apply until_nul_all. by apply Forall_take.
Qed.

Lemma bytes_at_list m p bs : (forall k, (k < length bs)%nat -> m (p + Z.of_nat k) = nth k bs 0) -> bytes_at m p (length bs) = bs.
Proof.
  intros H. apply nth_ext with 0 0; [by rewrite length_bytes_at|]. intros k Hk. rewrite length_bytes_at in Hk.
  by rewrite nth_bytes_at, H.
Qed.

Lemma header_name_ok off name : bytes_ok (header_name off name).
Proof.
  assert (Hz : bytes_ok (repeat 0 NameSize)) by (repeat constructor; lia).
  unfold header_name, short_name, pad_name. case_match; apply Forall_take, Forall_app; (split; [|done]); [apply str_bytes_ok|].
  destruct (encodeSectionName off) as [cs|] eqn:E; [|constructor]. cbn. unfold encodeSectionName in E. repeat case_match; simplify_eq.
  - constructor; [split; lia|]. eapply Forall_impl; [apply decimal_digits_bytes|]. cbn. unfold byte_ok. lia.
  - unfold encodeBase64StringEntry. repeat (constructor; [split; lia|]). eapply Forall_impl; [apply base64_digits_bytes|]. cbn. unfold byte_ok. lia.
Qed.

Definition named (t : option symbol_tables) (s : coff_symbol16) (name : string) : Prop :=
  cs_Name s = if is_long name
              then long_name (u32 (default 0 (match t with Some t => getOffset (t_strtab t) (str_bytes name) | None => None end)))
              else short_name name.

(** A name as the image shows it: long ones of sections that are mapped are cut. *)
Definition displayed_name (s : osection) : string :=
  if longNameSection s then os_name s else str_take NameSize (os_name s).

Definition shown_section (t : option symbol_tables) (s : osection) : coff_section :=
  {| sn_Name := header_name (stringTableOff t s) (os_name s); sn_VirtualSize := u32 (VirtualSize s);
     sn_VirtualAddress := u32 (VirtualAddress_ s); sn_SizeOfRawData := u32 (SizeOfRawData_ s);
     sn_PointerToRawData := u32 (PointerToRawData s); sn_Characteristics := u32 (os_Characteristics s) |}.

Lemma str_take_bytes n s : string_of_bytes (take n (str_bytes s)) = str_take n s.
Proof.
  revert n. unfold str_bytes, string_of_bytes. induction s as [|c s IH]; intros [|n]; try done. cbn in *.
  by rewrite Nat2Z.id, Ascii.ascii_nat_embedding, IH.
Qed.

Lemma field_at_bytes bs fs off : len bs <= off -> field_at (map (pair 1%nat) bs ++ fs) off = field_at fs (off - len bs).
Proof.
  unfold len. revert off. induction bs as [|b bs IH]; intros off H; cbn [map app length] in *; [f_equal; lia|].
  cbn [field_at]. rewrite (proj2 (Z.eqb_neq _ 0)) by lia. rewrite IH by lia. f_equal. lia.
Qed.

Lemma bytes_then_fields_pos (bs : list Z) fs : Forall (fun f => (0 < f.1)%nat) fs -> Forall (fun f => (0 < f.1)%nat) (map (pair 1%nat) bs ++ fs).
Proof. intros H. apply Forall_app. split; [|done]. induction bs; constructor; [cbn; lia|done]. Qed.

(** A record of bytes and then fields, as read. *)
Lemma same_named M m p bs fs : bytes_ok bs ->
  same_in p (p + (len bs + fields_size fs)) M (put_fields m p (map (pair 1%nat) bs ++ fs)) ->
  Forall (fun f => (0 < f.1)%nat) fs ->
  bytes_at M p (length bs) = bs /\
  forall off n v, field_at fs off = Some (n, v) -> read n M (p + (len bs + off)) = wrap (8 * Z.of_nat n) v.
Proof.
  intros Hb Hs Hp. pose proof (fields_size_nonneg fs). split.
  - rewrite (same_bytes _ _ _ _ _ _ Hs) by (unfold len; lia). rewrite put_fields_app.
    rewrite (bytes_at_keeps p (p + len bs) (fun m => put_fields m (p + fields_size (map (pair 1%nat) bs)) fs));
      [by apply bytes_fields| |unfold len; lia..].
    apply keeps_fields. rewrite bytes_fields_size. lia.
  - intros off n v Hf. destruct (field_at_range _ _ _ _ Hf Hp). apply (same_field n v M m p (map (pair 1%nat) bs ++ fs)).
    + rewrite fields_size_app, bytes_fields_size. exact Hs.
    + by apply bytes_then_fields_pos.
    + rewrite field_at_bytes by lia. rewrite <- Hf. f_equal. lia.
Qed.

Section Names.
Context (cfg : config) (hc : header_config) (dirs : directories).
Context (sizeOfHeaders sizeOfImage : Z) (textSec : osection) (secs : list osection).
Context (tables : option symbol_tables) (limit : Z) (M : mem).
Context (Hst : stub_ok (dosStub hc)) (Ht : tables_ok cfg hc secs tables limit).
Context (Hw : header_written cfg hc dirs sizeOfHeaders sizeOfImage textSec secs tables M).

Abbreviation image := (image_of cfg hc dirs sizeOfHeaders sizeOfImage textSec secs tables).
Abbreviation T := (sectionTableOffset cfg hc).

(** A string of the table is read at its offset. *)
Lemma getString_key t B name :
  tables = Some t -> t_strtab t = finalize B -> builder_ok B -> sb_K B = WinCOFF -> no_nul name ->
  str_bytes name ∈ (StringIndexMap B).*1 ->
  exists off, getOffset (t_strtab t) (str_bytes name) = Some off /\ 4 <= off < 2 ^ 32 /\ getString image M off = Some name.
Proof using All.
  intros Et EB HB HK Hnul Hin. destruct (hw_strings _ _ _ _ _ _ _ _ _ Hw t Et) as (m & Hz & Hs). cbn zeta in Hs.
  pose proof Ht as [_ Ht']. rewrite Et in Ht'. destruct Ht' as (Hp & _ & B' & _ & _ & EB' & H32). rewrite <- EB' in H32. unfold strings_offset in *.
  pose proof (stubSize_le _ Hst). pose proof (peHeaderSize_range cfg). destruct Ht as [Hl _].
  unfold sectionTableOffset, peHeaderOffset, coffHeaderOffset in Hl.
  set (p := t_pointer t + 18 * Z.of_nat (length (t_symbols t))) in *. rewrite EB in *.
  destruct (write_table_string B p m (str_bytes name) HB Hz Hin) as (off & Eo & H1 & H2 & _ & Hat & Hterm).
  rewrite HK in *. change (term WinCOFF) with 1 in *. change (initSize WinCOFF) with 4 in H1.
  exists off. split; [done|]. assert (Hlen : 0 <= len (str_bytes name)) by (unfold len; lia). split; [lia|].
  unfold getString, image_of. rewrite Et. cbn [ci_strings mbind option_bind]. unfold strings_offset. fold p. rewrite EB.
  rewrite (proj2 (Z.leb_gt _ 4)), (proj2 (Z.leb_gt _ off)) by lia. f_equal.
  assert (Ebytes : exists rest, bytes_at M (p + off) (Z.to_nat (sb_Size (finalize B) - off)) = str_bytes name ++ 0 :: rest).
  { replace (Z.to_nat (sb_Size (finalize B) - off))
      with (length (str_bytes name) + (1 + (Z.to_nat (sb_Size (finalize B) - off) - 1 - length (str_bytes name))))%nat by (unfold len in *; lia).
    rewrite !bytes_at_add. rewrite (bytes_at_list M (p + off) (str_bytes name)).
    - eexists. do 2 f_equal. cbn. rewrite Z.add_0_r. f_equal. rewrite Hs by (unfold len in *; lia). by apply Hterm.
    - intros k Hk. rewrite Hs by (unfold len in *; lia). by apply Hat. }
  destruct Ebytes as [rest ->]. rewrite until_nul_app by (by apply no_nul_bytes). apply string_of_str_bytes.
Qed.

(** The section table as read. *)
Lemma read_sections : sections_of image M = map (shown_section tables) secs.
Proof using All.
  unfold sections_of. cbn [ci_numberOfSections ci_sections image_of]. rewrite Nat2Z.id.
  apply list_eq. intros i. change (@map nat coff_section) with (@fmap list _ nat coff_section).
  change (@map osection coff_section) with (@fmap list _ osection coff_section). rewrite !list_lookup_fmap.
  destruct (secs !! i) as [s|] eqn:Ei; cbn.
  2:{ apply lookup_ge_None in Ei. by rewrite (proj2 (lookup_ge_None (seq 0 (length secs)) i)) by (rewrite length_seq; lia). }
  pose proof (lookup_lt_Some _ _ _ Ei). rewrite lookup_seq_lt by done. cbn. f_equal.
  destruct (hw_section _ _ _ _ _ _ _ _ _ Hw i s Ei) as [m Hm]. cbn zeta in Hm. set (p := T + 40 * Z.of_nat i) in *.
  destruct (same_named M m p (header_name (stringTableOff tables s) (os_name s))
    [(4%nat, VirtualSize s); (4%nat, VirtualAddress_ s); (4%nat, SizeOfRawData_ s); (4%nat, PointerToRawData s);
     (4%nat, 0); (4%nat, 0); (2%nat, 0); (2%nat, 0); (4%nat, os_Characteristics s)]) as [Hb Hf].
  { apply header_name_ok. }
  { unfold len. rewrite length_header_name. exact Hm. }
  { by repeat (constructor; [cbn; lia|]). }
  unfold len in Hf. rewrite length_header_name in Hb, Hf. unfold read_section, shown_section.
  assert (H8 : read32le M (p + 8) = u32 (VirtualSize s)) by exact (Hf 0 4%nat _ eq_refl).
  assert (H12 : read32le M (p + 12) = u32 (VirtualAddress_ s)) by exact (Hf 4 4%nat _ eq_refl).
  assert (H16 : read32le M (p + 16) = u32 (SizeOfRawData_ s)) by exact (Hf 8 4%nat _ eq_refl).
  assert (H20 : read32le M (p + 20) = u32 (PointerToRawData s)) by exact (Hf 12 4%nat _ eq_refl).
  assert (H36 : read32le M (p + 36) = u32 (os_Characteristics s)) by exact (Hf 28 4%nat _ eq_refl).
  by rewrite Hb, H8, H12, H16, H20, H36.
Qed.

Lemma displayed_short s : negb (longNameSection s) = true -> displayed_name s = str_take NameSize (os_name s).
Proof using Type. unfold displayed_name. by destruct (longNameSection s). Qed.

(** The name of a section as read is the one shown. *)
Lemma read_section_name s :
  no_nul (os_name s) ->
  (longNameSection s = false -> String.prefix "/" (os_name s) = false) ->
  (longNameSection s = true -> exists t B, tables = Some t /\ t_strtab t = finalize B /\ builder_ok B /\ sb_K B = WinCOFF /\
     str_bytes (os_name s) ∈ (StringIndexMap B).*1) ->
  getSectionName image M (shown_section tables s) = Some (displayed_name s).
Proof using All.
  intros Hnul Hslash Hkey. unfold getSectionName, shown_section. cbn [sn_Name]. unfold displayed_name, header_name.
  destruct (longNameSection s) eqn:Hlong.
  - destruct Hkey as (t & B & Et & EB & HB & HK & Hin); [done|].
    destruct (getString_key t B (os_name s) Et EB HB HK Hnul Hin) as (off & Eo & Hr & Hg).
    unfold stringTableOff. rewrite Et, Hlong, Eo. cbn [from_option id]. rewrite (wrap_small 32 off) by (split; lia).
    rewrite (proj2 (Z.eqb_neq _ 0)) by lia. destruct (section_name_roundtrip off ltac:(lia)) as (cs & Ec & Hl & Hb & Hd).
    rewrite Ec. cbn [from_option id]. unfold pad_name. rewrite until_nul_padded by (eapply Forall_impl; [exact Hb|]; cbn; lia). rewrite take_ge by (unfold NameSize; lia).
    rewrite Hd, <- Et. exact Hg.
  - assert (E0 : stringTableOff tables s = 0) by (unfold stringTableOff; rewrite Hlong; by destruct tables).
    rewrite E0. cbn [Z.eqb]. unfold short_name. rewrite until_nul_padded by (by apply no_nul_bytes).
    specialize (Hslash eq_refl). assert (En : section_name_offset (take NameSize (str_bytes (os_name s))) = Some None).
    { destruct (os_name s) as [|c n]; [done|]. cbn in Hslash. unfold NameSize.
      change (str_bytes (String c n)) with (Z.of_nat (Ascii.nat_of_ascii c) :: str_bytes n). cbn [take].
      assert (Hc : Z.of_nat (Ascii.nat_of_ascii c) <> 47).
      { intros E. assert (c = Ascii.ascii_of_nat 47) as ->.
        - rewrite <- (Ascii.ascii_nat_embedding c). f_equal. lia.
        - cbn in Hslash. by destruct n. }
      unfold section_name_offset. repeat (case_match; try done); lia. }
    rewrite En. cbn. f_equal. apply str_take_bytes.
Qed.

(** A symbol's name and fields. *)
Lemma read_symbol t i s name :
  tables = Some t -> t_symbols t !! i = Some s -> bytes_ok (cs_Name s) -> length (cs_Name s) = 8%nat -> named tables s name ->
  no_nul name -> name <> "" ->
  (is_long name = true -> exists B, t_strtab t = finalize B /\ builder_ok B /\ sb_K B = WinCOFF /\ str_bytes name ∈ (StringIndexMap B).*1) ->
  getSymbolName image M i = Some name /\
  read32le M (ci_symbols image + 18 * Z.of_nat i + 8) = u32 (cs_Value s) /\
  read16le M (ci_symbols image + 18 * Z.of_nat i + 12) = u16 (cs_SectionNumber s).
Proof using All.
  intros Et Hi Hb Hl8 Hname Hnul Hne Hkey. destruct (hw_symbol _ _ _ _ _ _ _ _ _ Hw t i s Et Hi) as [m Hm]. cbn zeta in Hm.
  assert (Ep : ci_symbols image = t_pointer t) by (cbn; by rewrite Et). unfold getSymbolName. rewrite Ep.
  set (p := t_pointer t + 18 * Z.of_nat i) in *.
  destruct (same_named M m p (cs_Name s)
    [(4%nat, cs_Value s); (2%nat, cs_SectionNumber s); (2%nat, cs_Type s); (1%nat, cs_StorageClass s); (1%nat, 0)] Hb) as [Hnm Hf].
  { unfold len. rewrite Hl8. exact Hm. }
  { by repeat (constructor; [cbn; lia|]). }
  unfold len in Hf. rewrite Hl8 in Hnm, Hf.
  split; [|split; [exact (Hf 0 4%nat _ eq_refl)|exact (Hf 4 2%nat _ eq_refl)]].
  assert (Hrd : forall n k, (k + n <= 8)%nat -> read n M (p + Z.of_nat k) = le_value (take n (drop k (cs_Name s)))).
  { intros n k Hk. rewrite <- Hnm. clear - Hk. revert k Hk. induction n as [|n IH]; intros k Hk; [done|].
    assert (Ed : drop k (bytes_at M p 8) = M (p + Z.of_nat k) :: drop (S k) (bytes_at M p 8)).
    { apply drop_S. unfold bytes_at. change (@map nat Z) with (@fmap list _ nat Z). rewrite list_lookup_fmap, lookup_seq_lt by lia. done. }
    rewrite Ed. cbn [take le_value].
    change (read (S n) M (p + Z.of_nat k)) with (M (p + Z.of_nat k) + 2 ^ 8 * read n M (p + Z.of_nat k + 1)).
    do 2 f_equal. rewrite <- (IH (S k)) by lia. apply read_ext. intros j Hj. f_equal. lia. }
  pose proof (Hrd 4%nat O ltac:(lia)) as R0. pose proof (Hrd 4%nat 4%nat ltac:(lia)) as R4. rewrite Z.add_0_r in R0. change (Z.of_nat 4) with 4 in R4.
  unfold named in Hname. destruct (is_long name) eqn:Hlong.
  - destruct Hkey as (B & EB & HB & HK & Hin); [done|].
    destruct (getString_key t B name Et EB HB HK Hnul Hin) as (off & Eo & Hr & Hg).
    rewrite Et, Eo in Hname. cbn [from_option id] in Hname. rewrite (wrap_small 32 off) in Hname by (split; lia).
    rewrite Hname in R0, R4. unfold long_name in R0, R4. rewrite drop_0, take_app_le, take_ge in R0 by (rewrite length_le_bytes; lia).
    rewrite drop_app_ge, length_le_bytes, Nat.sub_diag, drop_0, take_ge in R4 by (rewrite length_le_bytes; lia).
    rewrite R0, le_value_bytes. change (wrap (8 * Z.of_nat 4) 0 =? 0) with true. cbn [negb].
    rewrite R4, le_value_bytes_small by (split; [lia|change (2 ^ (8 * Z.of_nat 4)) with (2 ^ 32); lia]). exact Hg.
  - rewrite Hnm. assert (Hz : (read32le M p =? 0) = false).
    { apply Z.eqb_neq. rewrite R0, Hname. pose proof (no_nul_bytes name Hnul) as Hnz. pose proof (str_bytes_ok name) as Hok.
      unfold short_name, NameSize. destruct name as [|c n]; [done|].
      change (str_bytes (String c n)) with (Z.of_nat (Ascii.nat_of_ascii c) :: str_bytes n) in *.
      apply Forall_cons in Hnz as [Hc _]. apply Forall_cons in Hok as [[Hc0 _] _]. cbn [app take drop le_value].
      assert (Hge : forall l, bytes_ok l -> 0 <= le_value l).
      { clear. induction 1 as [|b l [? ?] _ IH]; cbn [le_value]; lia. }
      match goal with |- context [2 ^ 8 * le_value ?l] => assert (0 <= le_value l) end; [|lia].
      apply Hge, Forall_take, Forall_take, Forall_app. split; [apply str_bytes_ok|]. repeat constructor; lia. }
    rewrite Hz, Hname. f_equal. unfold short_name. rewrite until_nul_padded by (by apply no_nul_bytes).
    unfold is_long in Hlong. apply Nat.ltb_ge in Hlong. rewrite take_ge by (rewrite length_str_bytes; unfold NameSize in *; lia).
    apply string_of_str_bytes.
Qed.
End Names.
