(* ===== verification/ImageTables.v ===== *)
(** * The symbol and string tables of the image (theorems on Image.v)

    [createSymbolAndStringTable]: one symbol per definition that is written, its
    place and its name; long names are keys of the string table. *)

From S2P Require Import Prelude Memory Layout LayoutProps StrTab StrTabProps Image ImageProps.

#[local] Open Scope string_scope.
#[local] Open Scope list_scope.
#[local] Open Scope Z_scope.

(** ** The builder's keys *)

Abbreviation keys B := (StringIndexMap B).*1.

Lemma add_keys s p B : keys (add s p B).2 = keys B \/ keys (add s p B).2 = keys B ++ [s].
Proof. unfold add. destruct (map_find _ _); [by left|right]. cbn. by rewrite fmap_app. Qed.

Lemma add_keys_mono s p B k : k ∈ keys B -> k ∈ keys (add s p B).2.
Proof. destruct (add_keys s p B) as [->| ->]; [done|set_solver]. Qed.

Lemma add_key s p B : s ∈ keys (add s p B).2.
Proof.
  unfold add. destruct (map_find (StringIndexMap B) s) eqn:E; cbn; [|rewrite fmap_app; set_solver].
  apply map_find_Some in E. by apply (list_elem_of_fmap_2 fst) in E.
Qed.

Lemma add_kind s p B : sb_K (add s p B).2 = sb_K B.
Proof. unfold add. by destruct (map_find _ _). Qed.

Lemma is_long_nonempty n : is_long n = true -> str_bytes n <> [].
Proof. unfold is_long. rewrite Nat.ltb_lt, <- length_str_bytes. intros H E. rewrite E in H. cbn in H. lia. Qed.

(** A builder the writer can have. *)
Definition tab_ok (base : list (list Z)) (B : StringTableBuilder) : Prop :=
  builder_ok B /\ sb_K B = WinCOFF /\ forall k, k ∈ base -> k ∈ keys B.

Lemma add_name_ok base n p B : tab_ok base B -> is_long n = true -> 0 <= p -> tab_ok base (add (str_bytes n) p B).2.
Proof.
  intros (HB & HK & Hb) Hn Hp. split; [|split; [by rewrite add_kind|intros k Hk; by apply add_keys_mono, Hb]].
  apply add_ok; [done|apply str_bytes_ok|left; by apply is_long_nonempty|done].
Qed.

(** Long names of discardable sections are keys. *)
Lemma add_section_names_ok secs :
  tab_ok ((fun s => str_bytes (os_name s)) <$> List.filter longNameSection secs) (add_section_names secs).
Proof.
  unfold add_section_names. set (B0 := new_builder WinCOFF 1).
  assert (H0 : tab_ok [] B0) by (split_and!; [apply new_builder_ok; [by left|lia]|done|set_solver]).
  assert (Hgen : forall base B, tab_ok base B ->
    tab_ok (base ++ ((fun s => str_bytes (os_name s)) <$> List.filter longNameSection secs))
      (fold_left (fun B s => if longNameSection s then (add (str_bytes (os_name s)) 255 B).2 else B) secs B)).
  { clear. induction secs as [|s secs IH]; intros base B HB; cbn [fold_left List.filter fmap list_fmap]; [by rewrite app_nil_r|].
    destruct (longNameSection s) eqn:El; [|by apply IH]. cbn [fmap list_fmap].
    assert (Hl : is_long (os_name s) = true) by (unfold longNameSection in El; by destruct (is_long _)).
    rewrite cons_middle, app_assoc. apply IH. destruct (add_name_ok base (os_name s) 255 B HB Hl ltac:(lia)) as (H1 & H2 & H3).
    split_and!; [done..|]. intros k [Hk| ->%list_elem_of_singleton]%elem_of_app; [by apply H3|apply add_key]. }
  exact (Hgen [] B0 H0).
Qed.

(** ** The symbols *)

Section Tables.
Context (defined : nat -> option out_def) (base : list (list Z)).

(** A symbol as [createSymbol] makes it for a definition. *)
Definition symbol_of (d : out_def) (s : coff_symbol16) : Prop :=
  symbol_place (y_loc d) = Some (cs_Value s, cs_SectionNumber s) /\ isRuntimePseudoReloc d = false.

Definition placed_symbol (d : out_def) : Prop := symbol_place (y_loc d) <> None /\ isRuntimePseudoReloc d = false.

(** Its name before the table is final. *)
Definition early_name (n : string) : list Z := if is_long n then long_name 0 else short_name n.

Definition early_symbol (id : nat) (s : coff_symbol16) : Prop :=
  exists d, defined id = Some d /\ symbol_of d s /\ cs_Name s = early_name (y_name d).

Definition long_entry (ids : list nat) (p : nat * string) : Prop :=
  exists id d, ids !! p.1 = Some id /\ defined id = Some d /\ y_name d = p.2 /\ is_long p.2 = true.

(** [ids] are the definitions of the symbols so far; [pending] is marked as
    written, and not yet emitted. *)
Record symtab_inv (pending : option nat) (st : symtab_state) (ids : list nat) : Prop := {
  si_nodup : NoDup ids;
  si_written id : id ∈ ids -> id ∈ writtenToSymtab st;
  si_symbols : Forall2 early_symbol ids (outputSymtab st);
  si_complete id d : id ∈ writtenToSymtab st -> pending <> Some id -> defined id = Some d -> skipped d = false ->
    placed_symbol d -> id ∈ ids;
  si_long i id d : ids !! i = Some id -> defined id = Some d -> is_long (y_name d) = true ->
    (i, y_name d) ∈ longNameSymbols st /\ str_bytes (y_name d) ∈ keys (st_strtab st);
  si_names : Forall (long_entry ids) (longNameSymbols st);
  si_tab : tab_ok base (st_strtab st)
}.

Lemma mark_inv id st ids : symtab_inv None st ids -> id ∉ writtenToSymtab st ->
  symtab_inv (Some id) (set_written id st) ids /\ id ∉ ids.
Proof using Type.
  intros [H1 H2 H3 H4 H5 H6 H7] Hn. split; [|by intros ?%H2]. split; cbn; try done.
  - intros x Hx. right. by apply H2.
  - intros x d [->|Hw]%elem_of_cons Hp; [done|by apply H4].
Qed.

Lemma unmark_inv id st ids : symtab_inv (Some id) st ids ->
  (forall d, defined id = Some d -> skipped d = true \/ ~ placed_symbol d) -> symtab_inv None st ids.
Proof using Type.
  intros [H1 H2 H3 H4 H5 H6 H7] Hs. split; try done. intros x d Hw _ Hd Hsk Hp.
  destruct (decide (x = id)) as [->|Hne]; [|eapply H4; try done; congruence]. destruct (Hs d Hd); [congruence|done].
Qed.

Lemma long_entry_snoc ids id p : long_entry ids p -> long_entry (ids ++ [id]) p.
Proof using Type. intros (id0 & d0 & Hi & H). exists id0, d0. split; [by apply lookup_app_l_Some|done]. Qed.

(** A symbol that is appended. *)
Lemma append_inv id d st ids sym tab longs :
  symtab_inv (Some id) st ids -> id ∉ ids -> id ∈ writtenToSymtab st -> defined id = Some d ->
  symbol_of d sym -> cs_Name sym = early_name (y_name d) ->
  tab_ok base tab -> (forall k, k ∈ keys (st_strtab st) -> k ∈ keys tab) ->
  longs = longNameSymbols st ++ (if is_long (y_name d) then [(length (outputSymtab st), y_name d)] else []) ->
  (is_long (y_name d) = true -> str_bytes (y_name d) ∈ keys tab) ->
  symtab_inv None {| writtenToSymtab := writtenToSymtab st; st_strtab := tab; outputSymtab := outputSymtab st ++ [sym];
                     longNameSymbols := longs |} (ids ++ [id]).
Proof using Type.
  intros [H1 H2 H3 H4 H5 H6 H7] Hid Hwr Hd Hsym En Htab Hk -> Hkey.
  assert (Hlen : length (outputSymtab st) = length ids) by (symmetry; by eapply Forall2_length).
  split; cbn [writtenToSymtab st_strtab outputSymtab longNameSymbols].
  - apply NoDup_app. split_and!; [done| |apply NoDup_singleton]. intros x Hx ->%list_elem_of_singleton. done.
  - intros x [Hx| ->%list_elem_of_singleton]%elem_of_app; [by apply H2|done].
  - apply Forall2_app; [done|]. constructor; [by exists d|constructor].
  - intros x d' Hw' _ Hd' Hs Hp. destruct (decide (x = id)) as [->|]; [set_solver|].
    apply elem_of_app. left. eapply H4; try done. congruence.
  - intros i x d' Hi Hd' Hl. apply lookup_app_Some in Hi as [Hi|[Hge Hi]].
    + destruct (H5 i x d' Hi Hd' Hl) as [Ha Hb]. split; [set_solver|by apply Hk].
    + apply list_lookup_singleton_Some in Hi as [Hi <-]. simplify_eq. rewrite Hl. split; [|by apply Hkey].
      apply elem_of_app. right. apply list_elem_of_singleton. f_equal. lia.
  - apply Forall_app. split; [eapply Forall_impl; [exact H6|intros p; apply long_entry_snoc]|].
    destruct (is_long (y_name d)) eqn:El; constructor; [|constructor]. exists id, d. split; [|done]. cbn [fst].
    rewrite Hlen. by apply list_lookup_middle.
  - done.
Qed.

Lemma emit_inv id d st ids :
  symtab_inv (Some id) st ids -> id ∉ ids -> id ∈ writtenToSymtab st -> defined id = Some d ->
  exists ids', symtab_inv None (emit d st) ids'.
Proof using Type.
  intros Hinv Hid Hwr Hd. unfold emit, createSymbol.
  assert (Hnone : ~ placed_symbol d -> symtab_inv None {| writtenToSymtab := writtenToSymtab st; st_strtab := st_strtab st;
    outputSymtab := outputSymtab st; longNameSymbols := longNameSymbols st |} ids).
  { intros Hn. destruct st. eapply unmark_inv; [exact Hinv|]. intros d' Hd'. right. by simplify_eq. }
  destruct (symbol_place (y_loc d)) as [[v sec]|] eqn:Eplace; [|exists ids; apply Hnone; by intros [? _]].
  destruct (isRuntimePseudoReloc d) eqn:Eps; [exists ids; apply Hnone; intros [_ ?]; congruence|].
  set (cls := match y_coff d with Some (ty, cls, _) => _ | None => _ end). destruct cls as [ty sc].
  pose proof (si_tab _ _ _ Hinv) as Htab. exists (ids ++ [id]).
  destruct (is_long (y_name d)) eqn:Elong; eapply append_inv; try done; unfold early_name; rewrite ?Elong; try done.
  - by apply add_name_ok.
  - intros k. apply add_keys_mono.
  - intros _. apply add_key.
  - by rewrite app_nil_r.
Qed.

Lemma emit_written d st : writtenToSymtab (emit d st) = writtenToSymtab st.
Proof using Type. unfold emit. destruct (createSymbol d (st_strtab st)) as [[s|] tab]; done. Qed.

Lemma symbol_step_inv id st ids : symtab_inv None st ids -> exists ids', symtab_inv None (symbol_step defined st id) ids'.
Proof using Type.
  intros Hinv. unfold symbol_step. destruct (defined id) as [d|] eqn:Ed; [|by exists ids]. case_bool_decide as Hw; [by exists ids|].
  destruct (mark_inv id st ids Hinv Hw) as [Hm Hid]. cbn zeta. destruct (skipped d) eqn:Esk.
  { exists ids. eapply unmark_inv; [exact Hm|]. intros d' ?. left. congruence. }
  destruct (emit_inv id d _ ids Hm Hid) as [ids1 H1]; [cbn; by left|done|].
  destruct (wrappedSym d) as [w|]; [|by exists ids1]. case_bool_decide as Hww; [by exists ids1|].
  destruct (mark_inv w _ ids1 H1 Hww) as [Hm1 Hid1]. destruct (defined w) as [dw|] eqn:Edw.
  - by apply (emit_inv w dw _ ids1 Hm1 Hid1); [cbn; left|].
  - exists ids1. eapply unmark_inv; [exact Hm1|]. intros d' ?. congruence.
Qed.

Lemma symbol_step_written id st x : x ∈ writtenToSymtab st \/ x = id /\ defined id <> None ->
  x ∈ writtenToSymtab (symbol_step defined st id).
Proof using Type.
  intros H. unfold symbol_step. destruct (defined id) as [d|] eqn:Ed; [|by destruct H as [?|[_ ?]]].
  case_bool_decide as Hw; [by destruct H as [?|[-> _]]|].
  assert (Hx : x ∈ writtenToSymtab (set_written id st)) by (cbn; destruct H as [?|[-> _]]; set_solver). cbn zeta.
  case_match; [done|]. assert (Hx1 : x ∈ writtenToSymtab (emit d (set_written id st))) by (by rewrite emit_written).
  case_match; [|done]. case_match; [done|]. case_match; rewrite ?emit_written; cbn; by right.
Qed.

Lemma symbol_steps l st ids : symtab_inv None st ids ->
  exists ids', symtab_inv None (fold_left (symbol_step defined) l st) ids' /\
    forall id, (id ∈ writtenToSymtab st \/ id ∈ l /\ defined id <> None) ->
      id ∈ writtenToSymtab (fold_left (symbol_step defined) l st).
Proof using Type.
  revert st ids. induction l as [|x l IH]; intros st ids Hinv; cbn [fold_left].
  { exists ids. split; [done|]. intros id [?|[? _]]; [done|set_solver]. }
  destruct (symbol_step_inv x st ids Hinv) as [ids1 H1]. destruct (IH _ _ H1) as (ids' & H & Hw). exists ids'. split; [done|].
  intros id Hid. apply Hw. destruct Hid as [Hid|[[->|Hid]%elem_of_cons Hd]].
  - left. apply symbol_step_written. by left.
  - left. apply symbol_step_written. by right.
  - by right.
Qed.

End Tables.

(** ** The offsets of long names *)

Definition renamed (n : list Z) (s : coff_symbol16) : coff_symbol16 :=
  {| cs_Name := n; cs_Value := cs_Value s; cs_SectionNumber := cs_SectionNumber s; cs_Type := cs_Type s;
     cs_StorageClass := cs_StorageClass s |}.

Definition offset_name (tab : StringTableBuilder) (n : string) : list Z :=
  long_name (u32 (default 0 (getOffset tab (str_bytes n)))).

Lemma fill_name_lookup tab out p i :
  fill_name tab out p !! i = (if decide (p.1 = i) then renamed (offset_name tab p.2) else id) <$> out !! i.
Proof.
  unfold fill_name. destruct (out !! p.1) as [s|] eqn:E; case_decide as Hd.
  - subst. rewrite E, list_lookup_insert_eq by (by eapply lookup_lt_Some). done.
  - rewrite list_lookup_insert_ne by done. by destruct (out !! i).
  - subst. by rewrite E.
  - by destruct (out !! i).
Qed.

Lemma fill_names_lookup tab l out i n : (forall k, (i, k) ∈ l -> k = n) ->
  fold_left (fill_name tab) l out !! i = (if decide (i ∈ l.*1) then renamed (offset_name tab n) else id) <$> out !! i.
Proof.
  revert out. induction l as [|[j k] l IH]; intros out H; cbn [fold_left].
  { rewrite decide_False by (apply not_elem_of_nil). by destruct (out !! i). }
  rewrite IH by (intros m Hm; apply H; by right). rewrite fill_name_lookup. cbn [fst snd].
  destruct (decide (j = i)) as [->|Hne].
  - assert (k = n) as -> by (apply H; by left). rewrite (decide_True (P := i ∈ ((i, n) :: l).*1)) by (by left).
    destruct (out !! i) as [s|]; [|done]. cbn. by case_decide.
  - assert (Hiff : i ∈ ((j, k) :: l).*1 <-> i ∈ l.*1) by (cbn; set_solver).
    destruct (out !! i) as [s|]; [|done]. cbn -[decide]. by destruct (decide (i ∈ l.*1)), (decide (i ∈ j :: l.*1)); set_solver.
Qed.

Lemma fill_names_length tab l out : length (fold_left (fill_name tab) l out) = length out.
Proof.
  revert out. induction l as [|p l IH]; intros out; [done|]. cbn. rewrite IH. unfold fill_name. case_match; [|done]. apply length_insert.
Qed.

(** ** What is built *)

Section Built.
Context (defined : nat -> option out_def) (writeSymtab : bool) (fileAlign fileSize : Z) (secs : list osection).
Context (files : list (list nat)).

Abbreviation tables := (createSymbolAndStringTable defined writeSymtab fileAlign fileSize secs files).

Definition table_symbols (t : option symbol_tables) : list coff_symbol16 :=
  match t with Some t => t_symbols t | None => [] end.

(** The symbol of a definition in the final table, whose strings are those of [B]. *)
Definition listed (B : StringTableBuilder) (t : option symbol_tables) (id : nat) (s : coff_symbol16) : Prop :=
  exists d, defined id = Some d /\ symbol_of d s /\ named t s (y_name d) /\
    (is_long (y_name d) = true -> str_bytes (y_name d) ∈ keys B).

Record tables_built (t : option symbol_tables) (ids : list nat) (B : StringTableBuilder) : Prop := {
  tb_nodup : NoDup ids;
  tb_symbols : Forall2 (listed B t) ids (table_symbols t);
  tb_complete id d : writeSymtab = true -> id ∈ concat files -> defined id = Some d -> skipped d = false ->
    placed_symbol d -> id ∈ ids;
  tb_sections s : s ∈ secs -> longNameSection s = true -> is_Some t /\ str_bytes (os_name s) ∈ keys B;
  tb_builder : builder_ok B /\ sb_K B = WinCOFF;
  tb_strtab t' : t = Some t' -> t_strtab t' = finalize B /\ t_pointer t' = u32 fileSize /\
    fileSize + 18 * Z.of_nat (length (t_symbols t')) + sb_Size (finalize B) <= t_fileSize t'
}.

Lemma early_renamed id s ids st tab i :
  symtab_inv defined ((fun s => str_bytes (os_name s)) <$> List.filter longNameSection secs) None st ids ->
  ids !! i = Some id -> outputSymtab st !! i = Some s -> forall d, defined id = Some d ->
  fold_left (fill_name tab) (longNameSymbols st) (outputSymtab st) !! i =
    Some (if is_long (y_name d) then renamed (offset_name tab (y_name d)) s else s).
Proof using Type.
  intros Hinv Hi Hs d Hd.
  assert (Hnm : forall k, (i, k) ∈ longNameSymbols st -> k = y_name d /\ is_long (y_name d) = true).
  { intros k Hk. pose proof (si_names _ _ _ _ _ Hinv) as Hn. rewrite Forall_forall in Hn.
    destruct (Hn _ Hk) as (id' & d' & Hi' & Hd' & E & El). cbn in *. by simplify_eq. }
  rewrite (fill_names_lookup tab _ _ i (y_name d)) by (intros k Hk; by apply Hnm). rewrite Hs. cbn [fmap option_fmap option_map]. f_equal.
  destruct (is_long (y_name d)) eqn:El.
  - rewrite decide_True; [done|]. apply list_elem_of_fmap. exists (i, y_name d). split; [done|].
    by apply (si_long _ _ _ _ _ Hinv i id d).
  - rewrite decide_False; [done|]. intros ([j k] & -> & Hk)%list_elem_of_fmap. cbn in *. destruct (Hnm k Hk). congruence.
Qed.

Lemma tables_built_ok : 0 < fileAlign -> exists ids B, tables_built tables ids B.
Proof using Type.
  intros Hfa. unfold createSymbolAndStringTable.
  set (base := (fun s => str_bytes (os_name s)) <$> List.filter longNameSection secs).
  set (st0 := {| writtenToSymtab := []; st_strtab := add_section_names secs; outputSymtab := []; longNameSymbols := [] |}).
  assert (H0 : symtab_inv defined base None st0 []).
  { split; cbn; try done; try (by constructor); try set_solver. apply add_section_names_ok. }
  set (st := if writeSymtab then _ else st0).
  assert (exists ids, symtab_inv defined base None st ids /\
    forall id, writeSymtab = true -> id ∈ concat files -> defined id <> None -> id ∈ writtenToSymtab st) as (ids & Hinv & Hall).
  { subst st. destruct writeSymtab; [|by exists []]. destruct (symbol_steps defined base (concat files) st0 [] H0) as (ids & H1 & H2).
    exists ids. split; [done|]. intros id _ Hin Hd. apply H2. by right. }
  clearbody st. clear H0 st0. pose proof (si_tab _ _ _ _ _ Hinv) as (HB & HK & Hbase).
  assert (Hsec : forall s, s ∈ secs -> longNameSection s = true -> str_bytes (os_name s) ∈ keys (st_strtab st)).
  { intros s Hs Hl. apply Hbase. apply list_elem_of_fmap. exists s. split; [done|]. by apply list_elem_of_In, filter_In; rewrite <- list_elem_of_In. }
  assert (Hcomp : forall id d, writeSymtab = true -> id ∈ concat files -> defined id = Some d -> skipped d = false ->
    placed_symbol d -> id ∈ ids).
  { intros id d Hw Hin Hd Hsk Hp. eapply (si_complete _ _ _ _ _ Hinv); try done. apply Hall; [done..|congruence]. }
  exists ids, (st_strtab st). pose proof (si_symbols _ _ _ _ _ Hinv) as Hsym.
  destruct (_ && _) eqn:Enone.
  - apply andb_true_iff in Enone as [E1%bool_decide_eq_true E2%bool_decide_eq_true].
    rewrite E1 in Hsym. apply Forall2_nil_inv_r in Hsym as ->. split; try done; try (by constructor).
    intros s Hs Hl. specialize (Hsec s Hs Hl). rewrite E2 in Hsec. by apply not_elem_of_nil in Hsec.
  - clear Enone. set (tab := finalize (st_strtab st)). set (out := fold_left _ _ _). cbn zeta.
    assert (Hlen : length out = length ids).
    { subst out. rewrite fill_names_length. symmetry. by eapply Forall2_length. }
    split; try done.
    + by eapply si_nodup.
    + cbn [table_symbols t_symbols]. apply Forall2_same_length_lookup_2; [done|]. intros i id s Hi Hs.
      destruct (Forall2_lookup_l _ _ _ _ _ Hsym Hi) as (s0 & Hs0 & d & Hd & [Hpl Hps] & En).
      subst out. rewrite (early_renamed id s0 ids st tab i Hinv Hi Hs0 d Hd) in Hs. injection Hs as <-. exists d. split; [done|].
      unfold named, early_name in *. cbn [t_strtab]. destruct (is_long (y_name d)) eqn:El; cbn -[long_name offset_name]; (split; [done|split; [done|]]).
      * intros _. by apply (si_long _ _ _ _ _ Hinv i id d).
      * done.
    + intros s Hs Hl. split; [by eexists|by apply Hsec].
    + intros t' [= <-]. cbn [t_strtab t_pointer t_fileSize t_symbols]. split_and!; [done..|].
      pose proof (alignTo_spec (fileSize + 18 * Z.of_nat (length out) + sb_Size tab) fileAlign Hfa). fold tab. lia.
Qed.

End Built.
