(* ===== verification/ImageLoad.v ===== *)
(** * The image loads (theorems on Image.v)

    What [write_image] writes: read by [COFFObjectFile] it has the headers,
    sections, names and symbols of the writer; mapped by a loader it shows every
    chunk at its address. And the checksum. *)

From S2P Require Import Prelude Memory Layout LayoutProps StrTab StrTabProps Image ImageProps ImageTables.

#[local] Open Scope string_scope.
#[local] Open Scope list_scope.
#[local] Open Scope Z_scope.

(** ** The contents of sections *)

#[export] Instance lchunk_eq_dec : EqDecision lchunk.
Proof. solve_decision. Defined.

Section Contents.
Context (getRVA : lchunk -> Z) (writeTo : lchunk -> Z -> mem -> mem) (entryThunkRVA : lchunk -> Z).
Context (schedule : list lchunk -> list lchunk) (fillInt3 : bool).

(** [data c] are the bytes that [writeTo] of a chunk makes of zeroes. *)
Record contents_ok (data : lchunk -> list Z) : Prop := {
  co_schedule l : schedule l ≡ₚ l;
  co_size c : len (data c) = if c_hasData c then Z.max 0 (c_size c) else 0;
  co_write c buf m : (forall k, 0 <= k < len (data c) -> m (buf + k) = 0) ->
    forall x, writeTo c buf m x = memcpy m buf (data c) x
}.

Context (data : lchunk -> list Z) (Hok : contents_ok data).

Section OneSection.
Context (s : osection).

Abbreviation ptr := (PointerToRawData s).
Abbreviation VA := (VirtualAddress_ s).

(** The place of a chunk in the file. *)
Definition file_off (c : lchunk) : Z := ptr + getRVA c - VA.

Definition touches (c : lchunk) (x : Z) : Prop := file_off c - entry_space c <= x < file_off c + len (data c).

Lemma len_nonneg (l : list Z) : 0 <= len l.
Proof using Type. unfold len. lia. Qed.

(** A chunk's bytes and its entry thunk. *)
Definition chunk_written (M : mem) (c : lchunk) : Prop :=
  (forall k, 0 <= k < len (data c) -> M (file_off c + k) = nth (Z.to_nat k) (data c) 0) /\
  (c_entryThunk c = true -> read32le M (file_off c - 4) = u32 (entryThunkRVA c - getRVA c + 1)).

Lemma write_chunk_spec m c : (forall k, 0 <= k < len (data c) -> m (file_off c + k) = 0) ->
  let M := write_chunk getRVA writeTo entryThunkRVA s ptr m c in
  chunk_written M c /\ forall x, ~ touches c x -> M x = m x.
Proof using Hok.
  intros Hz. unfold write_chunk. fold (file_off c). cbn zeta. pose proof (co_write _ Hok c _ _ Hz) as Hw.
  pose proof (len_nonneg (data c)). unfold touches, entry_space.
  assert (Hin : forall k, 0 <= k < len (data c) -> writeTo c (file_off c) m (file_off c + k) = nth (Z.to_nat k) (data c) 0).
  { intros k Hk. rewrite Hw. replace k with (Z.of_nat (Z.to_nat k)) at 1 by lia. apply memcpy_byte. unfold len in Hk. lia. }
  assert (Hout : forall x, ~ (file_off c <= x < file_off c + len (data c)) -> writeTo c (file_off c) m x = m x).
  { intros x Hx. rewrite Hw. apply memcpy_other. unfold len in Hx. lia. }
  split; [split|].
  - intros k Hk. case_match; [|by apply Hin]. rewrite write_other by lia. by apply Hin.
  - intros ->. rewrite read_write. unfold wrap. by rewrite Z.mod_mod.
  - intros x Hx. case_match; [|apply Hout; lia]. rewrite write_other by lia. apply Hout. lia.
Qed.

Lemma chunk_written_ext M M' c : (forall x, touches c x -> M' x = M x) -> chunk_written M c -> chunk_written M' c.
Proof using Type.
  intros H [H1 H2]. pose proof (len_nonneg (data c)). pose proof (entry_space_range c). unfold touches in H. split.
  - intros k Hk. rewrite H by lia. by apply H1.
  - intros E. rewrite <- (H2 E). apply read_ext. intros k Hk. apply H. unfold entry_space. rewrite E. lia.
Qed.

(** Chunks that do not touch, in the order of any schedule. *)
Lemma write_chunks_spec l m :
  NoDup l -> (forall c d x, c ∈ l -> d ∈ l -> c <> d -> touches c x -> ~ touches d x) ->
  (forall c k, c ∈ l -> 0 <= k < len (data c) -> m (file_off c + k) = 0) ->
  let M := fold_left (write_chunk getRVA writeTo entryThunkRVA s ptr) l m in
  Forall (chunk_written M) l /\ forall x, Forall (fun c => ~ touches c x) l -> M x = m x.
Proof using Hok.
  revert m. induction l as [|c l IH]; intros m Hnd Hdis Hz; [by split; [constructor|]|].
  apply NoDup_cons in Hnd as [Hc Hnd]. cbn [fold_left].
  destruct (write_chunk_spec m c) as [Hw Ho]; [intros k Hk; apply Hz; [by left|done]|].
  set (m1 := write_chunk _ _ _ _ _ m c) in *.
  destruct (IH m1) as [H1 H2]; [done|intros d e x ? ?; apply Hdis; by right| |].
  { intros d k Hd Hk. rewrite Ho; [apply Hz; [by right|done]|]. apply (Hdis d c); [by right|by left|set_solver|].
    unfold touches. pose proof (entry_space_range d). lia. }
  split.
  - constructor; [|done]. eapply chunk_written_ext; [|exact Hw]. intros x Hx. apply H2. apply Forall_forall. intros d Hd.
    apply (Hdis c d); [by left|by right|set_solver|done].
  - intros x [Hx Hl]%Forall_cons. rewrite H2 by done. by apply Ho.
Qed.

Lemma memset_other m p v n x : x < p \/ p + Z.max 0 n <= x -> memset m p v n x = m x.
Proof using Type. intros H. apply memcpy_other. rewrite repeat_length. lia. Qed.

(** The gaps are between the chunks and in the raw data. *)
Lemma fill_gaps_other hi l prevEnd m x :
  0 <= prevEnd <= SizeOfRawData_ s -> in_order (VA + prevEnd) (map (fun c : lchunk => (c, getRVA c)) l) hi ->
  Forall (fun c => 0 <= c_size c) l -> SizeOfRawData_ s < 2 ^ 32 -> hi - VA < 2 ^ 32 ->
  (x < ptr + prevEnd \/ ptr + SizeOfRawData_ s <= x \/ exists c, c ∈ l /\ file_off c <= x < file_off c + c_size c) ->
  fill_gaps getRVA s ptr prevEnd l m x = m x.
Proof using Type.
  intros Hp Ho Hs Hraw Hhi. revert prevEnd m Hp Ho. induction Hs as [|c l Hc Hs IH]; intros prevEnd m Hp Ho Hx; cbn [fill_gaps].
  { apply memset_other. destruct Hx as [?|[?|(c & ?%elem_of_nil & _)]]; [lia..|done]. }
  cbn [map in_order] in Ho. destruct Ho as [Ha Ho]. pose proof (entry_space_range c).
  assert (Hsz : Forall (fun y => 0 <= c_size y.1) (map (fun c : lchunk => (c, getRVA c)) l)) by (apply Forall_fmap; eapply Forall_impl; [exact Hs|done]).
  pose proof (in_order_le _ _ _ Hsz Ho) as Hle.
  rewrite (wrap_small 32 (getRVA c - VA)) by (split; lia). cbn zeta. unfold file_off in Hx. destruct (Z.leb_spec (SizeOfRawData_ s) (getRVA c - VA)) as [Hb|Hb].
  - apply memset_other. destruct Hx as [?|[?|(d & [->|Hd]%elem_of_cons & Hx)]]; [lia..|].
    assert (Hd' : (d, getRVA d) ∈ map (fun c : lchunk => (c, getRVA c)) l) by (by apply (list_elem_of_fmap_2 (fun c : lchunk => (c, getRVA c)))).
    pose proof (in_order_bounds _ _ _ _ _ Hsz Ho Hd'). lia.
  - rewrite (wrap_small 32 (c_size c)), (wrap_small 32 (getRVA c - VA - prevEnd)), (wrap_small 32 (getRVA c - VA + c_size c)) by (split; lia).
    rewrite IH.
    + apply memset_other. destruct Hx as [?|[?|(d & [->|Hd]%elem_of_cons & Hx)]]; [lia..|].
      assert (Hd' : (d, getRVA d) ∈ map (fun c : lchunk => (c, getRVA c)) l) by (by apply (list_elem_of_fmap_2 (fun c : lchunk => (c, getRVA c)))).
      pose proof (in_order_bounds _ _ _ _ _ Hsz Ho Hd'). lia.
    + lia.
    + eapply in_order_lo; [|exact Ho]. lia.
    + destruct Hx as [?|[?|(d & [->|Hd]%elem_of_cons & Hx)]]; [left; lia|right; left; lia| |right; right; by exists d].
      destruct (Z.lt_ge_cases x (ptr + SizeOfRawData_ s)); [left|right; left]; lia.
Qed.

(** A section as the layout leaves it. *)
Record section_placed (cfg : config) : Prop := {
  sp_ok : section_ok cfg s (map (fun c : lchunk => (c, getRVA c)) (os_chunks s));
  sp_once : NoDup (os_chunks s);
  sp_chunks : Forall chunk_ok (os_chunks s);
  sp_thunks : Forall (fun c => c_entryThunk c = true -> c_hasData c = true) (os_chunks s);
  sp_raw : SizeOfRawData_ s < 2 ^ 32;
  sp_size : VirtualSize s < 2 ^ 32
}.

(** What its raw data holds: every chunk's bytes, zeroes for one without data. *)
Definition section_written (M : mem) : Prop :=
  forall c, c ∈ os_chunks s ->
    (forall k, 0 <= k < c_size c -> getRVA c - VA + k < SizeOfRawData_ s -> M (file_off c + k) = nth (Z.to_nat k) (data c) 0) /\
    (c_entryThunk c = true -> 4 <= getRVA c - VA /\ getRVA c - VA <= SizeOfRawData_ s /\
       read32le M (file_off c - 4) = u32 (entryThunkRVA c - getRVA c + 1)).

Lemma in_order_entry lo (l : list (lchunk * Z)) hi c a : Forall (fun x : lchunk * Z => 0 <= c_size x.1) l -> in_order lo l hi -> (c, a) ∈ l -> lo + entry_space c <= a.
Proof using Type.
  revert lo. induction l as [|[d b] l IH]; intros lo Hs; [by intros _ ?%elem_of_nil|].
  apply Forall_cons in Hs as [Hd Hs]. cbn [fst] in Hd. intros [Hlo H] [[= -> ->]|Hin]%elem_of_cons; [lia|].
  specialize (IH _ Hs H Hin). pose proof (entry_space_range d). lia.
Qed.

Lemma data_le (c : lchunk) : 0 <= c_size c -> len (data c) <= c_size c.
Proof using Hok. rewrite (co_size _ Hok c). case_match; lia. Qed.

(** Two chunks of a section, one with its entry thunk after the other. *)
Lemma chunks_separate lo l hi : Forall (fun c => 0 <= c_size c) l -> in_order lo (map (fun c : lchunk => (c, getRVA c)) l) hi ->
  forall c d, c ∈ l -> d ∈ l -> c <> d ->
  getRVA c + c_size c + entry_space d <= getRVA d \/ getRVA d + c_size d + entry_space c <= getRVA c.
Proof using Type.
  intros Hs. revert lo. induction Hs as [|e l He Hs IH]; intros lo Ho c d; [by intros ?%elem_of_nil|]. destruct Ho as [_ Ho].
  assert (Hsz : Forall (fun y => 0 <= c_size y.1) (map (fun c : lchunk => (c, getRVA c)) l)) by (apply Forall_fmap; eapply Forall_impl; [exact Hs|done]).
  assert (Hfar : forall d, d ∈ l -> getRVA e + c_size e + entry_space d <= getRVA d).
  { intros d' Hd'. eapply in_order_entry; [exact Hsz|exact Ho|]. by apply (list_elem_of_fmap_2 (fun c : lchunk => (c, getRVA c))). }
  intros [->|Hc]%elem_of_cons [->|Hd]%elem_of_cons Hne; [done|left; by apply Hfar|right; by apply Hfar|by apply (IH _ Ho)].
Qed.

Lemma chunks_apart lo l hi : Forall (fun c => 0 <= c_size c) l -> in_order lo (map (fun c : lchunk => (c, getRVA c)) l) hi ->
  forall c d x, c ∈ l -> d ∈ l -> c <> d -> touches c x -> ~ touches d x.
Proof using Hok.
  intros Hs Ho c d x Hc Hd Hne. destruct (chunks_separate lo l hi Hs Ho c d Hc Hd Hne); rewrite Forall_forall in Hs;
    pose proof (data_le c (Hs c Hc)); pose proof (data_le d (Hs d Hd)); unfold touches, file_off;
    pose proof (len_nonneg (data c)); pose proof (len_nonneg (data d)); lia.
Qed.

Lemma write_section_spec cfg m : section_placed cfg -> (forall x, ptr <= x < ptr + SizeOfRawData_ s -> m x = 0) ->
  let M := write_section getRVA writeTo entryThunkRVA schedule fillInt3 m s in
  section_written M /\ forall x, x < ptr \/ ptr + SizeOfRawData_ s <= x -> M x = m x.
Proof using Hok.
  intros [[_ _ Hin _ Hdat Hraw] Hnd Hck Hth Hr Hv] Hz. unfold write_section. cbn zeta.
  set (l := os_chunks s) in *. match goal with |- context [fold_left _ _ ?x] => set (m1 := x) end.
  assert (Hs : Forall (fun c => 0 <= c_size c) l) by (eapply Forall_impl; [exact Hck|by intros ? [_ ?]]).
  assert (Hsz : Forall (fun y => 0 <= c_size y.1) (map (fun c : lchunk => (c, getRVA c)) l)) by (apply Forall_fmap; eapply Forall_impl; [exact Hs|done]).
  assert (Hm1 : forall x, x < ptr \/ ptr + SizeOfRawData_ s <= x \/ (exists c, c ∈ l /\ file_off c <= x < file_off c + c_size c) -> m1 x = m x).
  { intros x Hx. subst m1. case_match; [|done]. eapply (fill_gaps_other (VA + VirtualSize s)); rewrite ?Z.add_0_r; try done; lia. }
  assert (Hc : forall c, c ∈ l -> 0 <= c_size c /\ VA + entry_space c <= getRVA c /\ getRVA c + c_size c <= VA + VirtualSize s /\
    (c_hasData c = true -> getRVA c + c_size c <= VA + SizeOfRawData_ s) /\ (c_entryThunk c = true -> c_hasData c = true)).
  { intros c Hc. rewrite Forall_forall in Hs. rewrite Forall_forall in Hth. rewrite Forall_forall in Hdat. assert (Hc' : (c, getRVA c) ∈ map (fun c : lchunk => (c, getRVA c)) l)
      by (by apply (list_elem_of_fmap_2 (fun c : lchunk => (c, getRVA c)))).
    split_and!; [by apply Hs|by eapply in_order_entry| |by intros ?; apply (Hdat (c, getRVA c))|by apply Hth].
    by destruct (in_order_bounds _ _ _ _ _ Hsz Hin Hc'). }
  assert (Hzero : forall c k, c ∈ l -> 0 <= k < c_size c -> getRVA c - VA + k < SizeOfRawData_ s -> m1 (file_off c + k) = 0).
  { intros c k Hcl Hk Hb. destruct (Hc c Hcl) as (? & ? & ? & ? & _). pose proof (entry_space_range c).
    rewrite Hm1 by (right; right; exists c; split; [done|lia]). apply Hz. unfold file_off. lia. }
  pose proof (co_schedule _ Hok l) as Hp.
  destruct (write_chunks_spec (schedule l) m1) as [H1 H2].
  { by rewrite Hp. }
  { intros c d x. rewrite Hp. by eapply chunks_apart. }
  { intros c k. rewrite Hp. intros Hcl Hk. destruct (Hc c Hcl) as (? & ? & ? & Hd & _). pose proof (entry_space_range c).
    rewrite (co_size _ Hok c) in Hk. destruct (c_hasData c) eqn:E; [|lia]. specialize (Hd eq_refl). apply Hzero; [done|lia..]. }
  set (M := fold_left _ _ _) in *. clearbody M. rewrite Hp in H1. rewrite Forall_forall in H1.
  assert (H2' : forall x, Forall (fun c => ~ touches c x) l -> M x = m1 x) by (intros x Hx; apply H2; by rewrite Hp).
  clear H2. rename H2' into H2. split.
  - intros c Hcl. destruct (Hc c Hcl) as (Hc0 & Hlo & Hhi & Hd & Ht). destruct (H1 c Hcl) as [Hb He]. split.
    + intros k Hk Hkr. destruct (Z.lt_ge_cases k (len (data c))) as [|Hk2]; [apply Hb; lia|].
      rewrite nth_overflow by (unfold len in *; lia). rewrite H2; [by apply Hzero|].
      apply Forall_forall. intros d Hdl Htd. pose proof (entry_space_range c).
      rewrite (co_size _ Hok c) in Hk2. destruct (c_hasData c) eqn:E; [lia|].
      destruct (decide (c = d)) as [<-|Hne].
      * unfold touches in Htd. rewrite (co_size _ Hok c), E in Htd. lia.
      * destruct (Hc d Hdl) as (Hd0 & Hdlo & _). pose proof (data_le d Hd0) as Hdle.
        destruct (chunks_separate _ _ _ Hs Hin c d Hcl Hdl Hne) as [Hsep|Hsep];
          unfold touches, file_off in Htd; pose proof (entry_space_range c); lia.
    + intros Et. destruct (Hc c Hcl) as (? & ? & ? & Hdd & Htt). specialize (Hdd (Htt Et)). unfold entry_space in Hlo. rewrite Et in Hlo.
      split_and!; [lia|lia|by apply He].
  - intros x Hx. rewrite H2; [apply Hm1; lia|]. apply Forall_forall. intros c Hcl. unfold touches, file_off.
    destruct (Hc c Hcl) as (? & ? & ? & Hd & Ht). rewrite (co_size _ Hok c). pose proof (entry_space_range c). destruct (c_hasData c) eqn:E.
    + specialize (Hd eq_refl). lia.
    + unfold entry_space in *. destruct (c_entryThunk c); [specialize (Ht eq_refl); congruence|lia].
Qed.

Lemma section_written_ext cfg M M' : section_placed cfg -> (forall x, ptr <= x < ptr + SizeOfRawData_ s -> M' x = M x) ->
  section_written M -> section_written M'.
Proof using Type.
  intros [[_ _ Hin _ _ _] _ Hck _ _ _] Hx H c Hc. destruct (H c Hc) as [H1 H2].
  assert (Hlo : VA + entry_space c <= getRVA c).
  { eapply in_order_entry; [|exact Hin|by apply (list_elem_of_fmap_2 (fun c : lchunk => (c, getRVA c)))].
    apply Forall_fmap. eapply Forall_impl; [exact Hck|by intros ? [_ ?]]. }
  pose proof (entry_space_range c). unfold file_off in *. split.
  - intros k Hk Hr. rewrite Hx by lia. by apply H1.
  - intros Et. destruct (H2 Et) as (? & ? & <-). split_and!; [done..|]. apply read_ext. intros k Hk. apply Hx. lia.
Qed.

End OneSection.

Lemma write_sections_spec cfg l lo hi m :
  Forall (fun s => section_placed s cfg) l -> files_in_order (fileAlign cfg) lo l hi -> (forall x, lo <= x < hi -> m x = 0) ->
  let M := writeSections getRVA writeTo entryThunkRVA schedule fillInt3 l m in
  Forall (fun s => section_written s M) l /\ forall x, x < lo \/ hi <= x -> M x = m x.
Proof using Hok.
  unfold writeSections. intros Hl. revert lo m. induction Hl as [|s l Hs Hl IH]; intros lo m Hf Hz; [by split|]. cbn [fold_left].
  cbn [files_in_order] in Hf. pose proof (so_rawSize _ _ _ (sp_ok _ _ Hs)) as Hraw.
  assert (Hle : forall lo', files_in_order (fileAlign cfg) lo' l hi -> lo' <= hi).
  { clear - Hl. induction Hl as [|t l Ht Hl IH]; intros lo' H; cbn in H; [done|]. pose proof (so_rawSize _ _ _ (sp_ok _ _ Ht)).
    case_match; [by apply IH|]. destruct H as (? & ? & H). apply IH in H. lia. }
  destruct (Z.eqb_spec (SizeOfRawData_ s) 0) as [E0|Hne].
  - destruct (write_section_spec s cfg m Hs) as [Hw Ho]; [intros x Hx; lia|]. set (m1 := write_section _ _ _ _ _ m s) in *.
    destruct (IH lo m1 Hf) as [H1 H2]; [intros x Hx; rewrite Ho by lia; by apply Hz|]. split.
    + constructor; [|done]. eapply section_written_ext; [done| |exact Hw]. intros x Hx. lia.
    + intros x Hx. rewrite H2 by done. apply Ho. lia.
  - destruct Hf as (Hp & _ & Hf). specialize (Hle _ Hf).
    destruct (write_section_spec s cfg m Hs) as [Hw Ho]; [intros x Hx; apply Hz; lia|]. set (m1 := write_section _ _ _ _ _ m s) in *.
    destruct (IH _ m1 Hf) as [H1 H2]; [intros x Hx; rewrite Ho by lia; apply Hz; lia|]. split.
    + constructor; [|done]. eapply section_written_ext; [done| |exact Hw]. intros x Hx. apply H2. lia.
    + intros x Hx. rewrite H2 by lia. apply Ho. lia.
Qed.

End Contents.

(** ** The output sections *)

(** Permissions are all that differs. *)
Definition same_place (s t : osection) : Prop := t = with_characteristics (os_Characteristics t) s.

Lemma same_place_eq s t : same_place s t ->
  VirtualAddress_ t = VirtualAddress_ s /\ VirtualSize t = VirtualSize s /\ SizeOfRawData_ t = SizeOfRawData_ s /\
  PointerToRawData t = PointerToRawData s /\ os_chunks t = os_chunks s.
Proof. by intros ->. Qed.

Lemma same_place_permissions cfg secs : Forall2 same_place secs (setSectionPermissions cfg secs).
Proof.
  unfold setSectionPermissions. assert (H0 : Forall2 same_place secs secs) by (induction secs as [|[] secs IH]; by constructor).
  revert H0. generalize secs at 2 4. induction (sectionAttrs cfg) as [|p l IH]; intros secs' H; cbn [fold_left]; [done|].
  apply IH. apply Forall2_fmap_r. eapply Forall2_impl; [exact H|]. intros s t E.
  unfold compose. destruct (String.eqb (os_name t) p.1); [|done]. unfold same_place in *. by rewrite E.
Qed.

Lemma same_place_section_ok cfg s t rvas : same_place s t -> section_ok cfg s rvas -> section_ok cfg t rvas.
Proof. intros -> [? ? ? ? ? ?]. by split. Qed.

Lemma same_place_files fa lo l l' hi : Forall2 same_place l l' -> files_in_order fa lo l hi -> files_in_order fa lo l' hi.
Proof.
  intros H. revert lo. induction H as [|s t l l' -> _ IH]; intros lo; [done|]. cbn. case_match; [apply IH|].
  intros (? & ? & ?). split_and!; [done..|]. by apply IH.
Qed.

Lemma same_place_order lo l l' hi : Forall2 same_place l l' -> sections_in_order lo l hi -> sections_in_order lo l' hi.
Proof. intros H. revert lo. induction H as [|s t l l' -> _ IH]; intros lo; [done|]. cbn. intros [? ?]. split; [done|by apply IH]. Qed.

Lemma filter_files (f : osection -> bool) fa lo l hi : Forall (fun s => 0 <= SizeOfRawData_ s) l ->
  files_in_order fa lo l hi -> files_in_order fa lo (List.filter f l) hi.
Proof.
  intros Hl. revert lo. assert (Hlo : forall l lo lo', Forall (fun s => 0 <= SizeOfRawData_ s) l -> lo' <= lo -> files_in_order fa lo l hi -> files_in_order fa lo' l hi).
  { clear. induction l as [|s l IH]; intros lo lo' Hl Hle H; cbn in *; [lia|]. apply Forall_cons in Hl as [? Hl]. case_match; [by eapply IH|].
    destruct H as (? & ? & ?). split_and!; [lia|done..]. }
  induction Hl as [|s l Hs Hl IH]; intros lo H; [done|]. cbn in *. destruct (f s); cbn.
  - case_match; [by apply IH|]. destruct H as (? & ? & ?). split_and!; [done..|]. by apply IH.
  - case_match; [by apply IH|]. destruct H as (? & ? & H). apply IH. eapply Hlo; [done| |exact H]. lia.
Qed.

Lemma filter_order (f : osection -> bool) lo l hi : Forall (fun s => 0 <= VirtualSize s) l ->
  sections_in_order lo l hi -> sections_in_order lo (List.filter f l) hi.
Proof.
  intros Hl. revert lo. assert (Hlo : forall l lo lo', lo' <= lo -> sections_in_order lo l hi -> sections_in_order lo' l hi).
  { clear. destruct l as [|s l]; cbn; [lia|]. intros lo lo' ? [? ?]. split; [lia|done]. }
  induction Hl as [|s l Hs Hl IH]; intros lo H; [done|]. cbn in *. destruct H as [? H]. destruct (f s); cbn.
  - split; [done|by apply IH].
  - apply IH. eapply Hlo; [|exact H]. lia.
Qed.

Lemma sections_bounds lo l hi : Forall (fun s => 0 <= SizeOfRawData_ s /\ 0 <= VirtualSize s) l -> sections_in_order lo l hi ->
  lo <= hi /\ forall s, s ∈ l -> lo <= VirtualAddress_ s /\ VirtualAddress_ s + VirtualSize s <= hi.
Proof.
  revert lo. induction l as [|s l IH]; intros lo Hl H; cbn in H; [split; [done|by intros ? ?%elem_of_nil]|].
  apply Forall_cons in Hl as [[? ?] Hl]. destruct H as [? H]. destruct (IH _ Hl H) as [? Hb]. split; [lia|].
  intros u [->|Hu]%elem_of_cons; [lia|]. specialize (Hb u Hu). lia.
Qed.

Lemma files_bounds fa lo l hi : Forall (fun s => 0 <= SizeOfRawData_ s /\ 0 <= VirtualSize s) l -> files_in_order fa lo l hi -> 0 <= lo ->
  lo <= hi /\ forall s, s ∈ l -> SizeOfRawData_ s <= hi /\
    (SizeOfRawData_ s <> 0 -> 0 <= PointerToRawData s /\ PointerToRawData s + SizeOfRawData_ s <= hi).
Proof.
  revert lo. induction l as [|s l IH]; intros lo Hl H Hlo; cbn in H; [split; [done|by intros ? ?%elem_of_nil]|].
  apply Forall_cons in Hl as [[? ?] Hl]. destruct (Z.eqb_spec (SizeOfRawData_ s) 0).
  - destruct (IH _ Hl H Hlo) as [? Hb]. split; [lia|]. intros u [->|Hu]%elem_of_cons; [lia|by apply Hb].
  - destruct H as (? & ? & H). destruct (IH _ Hl H ltac:(lia)) as [? Hb]. split; [lia|]. intros u [->|Hu]%elem_of_cons; [lia|by apply Hb].
Qed.

(** ** Sections as a loader finds them *)

Lemma find_mapped t lo l hi s rva : 0 <= lo -> hi < 2 ^ 32 -> Forall (fun s => 0 <= SizeOfRawData_ s /\ 0 <= VirtualSize s) l ->
  sections_in_order lo l hi -> s ∈ l -> VirtualAddress_ s <= rva < VirtualAddress_ s + VirtualSize s ->
  List.find (fun s => (sn_VirtualAddress s <=? rva) && (rva <? sn_VirtualAddress s + sn_VirtualSize s)) (map (shown_section t) l) =
    Some (shown_section t s).
Proof.
  intros Hlo Hhi Hl. revert lo Hlo.
  induction Hl as [|u l [_ Hu] Hl IH]; intros lo Hlo H; [by intros ?%elem_of_nil|]. cbn in H. destruct H as [Hu1 H].
  destruct (sections_bounds _ _ _ Hl H) as [Hb1 Hb2]. cbn [map List.find shown_section sn_VirtualAddress sn_VirtualSize].
  rewrite (wrap_small 32 (VirtualAddress_ u)), (wrap_small 32 (VirtualSize u)) by (split; lia).
  intros [->|Hs]%elem_of_cons Hr.
  - rewrite (proj2 (Z.leb_le _ _)), (proj2 (Z.ltb_lt _ _)) by lia. done.
  - specialize (Hb2 s Hs). rewrite (proj2 (Z.ltb_ge rva _)) by lia. rewrite andb_false_r. eapply IH; [|exact H|exact Hs|exact Hr]. lia.
Qed.

(** ** The whole image *)

Lemma fold_sections_length cfg relocChunks secs L :
  length (l_sections (fold_left (assign_section cfg relocChunks) secs L)) = (length (l_sections L) + length secs)%nat.
Proof. revert L. induction secs as [|s secs IH]; intros L; cbn [fold_left length]; [lia|]. rewrite IH. cbn [l_sections assign_section]. rewrite length_app. cbn. lia. Qed.

Section Image.
Context (cfg : config) (hc : header_config) (dirs : directories) (L : layout) (sizeOfImage : Z) (textSec : osection).
Context (defined : nat -> option out_def) (writeSymtab : bool) (files : list (list nat)).
Context (getRVA : lchunk -> Z) (writeTo : lchunk -> Z -> mem -> mem) (entryThunkRVA : lchunk -> Z).
Context (schedule : list lchunk -> list lchunk) (fillInt3 : bool) (data : lchunk -> list Z).

Abbreviation hdr := (sizeOfHeaders cfg (length (l_sections L))).
Abbreviation secs := (output_sections cfg L).
Abbreviation tables := (output_tables cfg L defined writeSymtab files).
Abbreviation size := (output_size cfg L defined writeSymtab files).
Abbreviation write := (write_image cfg hc dirs L sizeOfImage textSec defined writeSymtab files getRVA writeTo entryThunkRVA schedule fillInt3).

(** A layout as [assignAddresses] leaves it, and the chunks in it. *)
Record layout_ok : Prop := {
  lo_config : config_ok cfg;
  lo_stub : stub_ok (dosStub hc) /\ dosStubSize cfg = stubSize (dosStub hc);
  lo_image : image_ok cfg hdr L;
  lo_range : l_rva L < 2 ^ 32;
  lo_count : Z.of_nat (length (l_sections L)) < 0xffff;
  lo_rva : Forall (fun x => getRVA x.1 = x.2) (l_rvas L);
  lo_once : NoDup (l_rvas L).*1;
  lo_chunks : Forall chunk_ok (l_rvas L).*1;
  lo_thunks : Forall (fun c => c_entryThunk c = true -> c_hasData c = true) (l_rvas L).*1
}.

Context (HL : layout_ok) (Hco : contents_ok writeTo schedule data) (Hsize : size < 2 ^ 32).

Lemma hdr_end : sectionTableOffset cfg hc + 40 * Z.of_nat (length (l_sections L)) <= hdr /\ 0 <= sectionTableOffset cfg hc.
Proof using HL.
  destruct (lo_stub HL) as [Hst Es]. pose proof (stubSize_le _ Hst). pose proof (ok_fileAlign _ (lo_config HL)) as Hfa.
  unfold sizeOfHeaders, sectionTableOffset, peHeaderOffset, coffHeaderOffset, peHeaderSize. rewrite Es.
  match goal with |- context [alignTo ?x _] => pose proof (alignTo_spec x _ Hfa) end. destruct (is64 cfg); lia.
Qed.

Lemma output_same : Forall2 same_place (removeEmptySections (l_sections L)) secs.
Proof using Type. apply same_place_permissions. Qed.

Lemma output_count : (length secs <= length (l_sections L))%nat.
Proof using Type. rewrite <- (Forall2_length _ _ _ output_same). apply List.filter_length_le. Qed.

(** The sections of the layout, with their chunks' addresses. *)
Lemma layout_sections_ok : Forall (fun s => section_ok cfg s (map (fun c : lchunk => (c, getRVA c)) (os_chunks s)) /\
  NoDup (os_chunks s) /\ Forall (fun c => c ∈ (l_rvas L).*1) (os_chunks s)) (l_sections L).
Proof using HL.
  destruct (io_sections _ _ _ (lo_image HL)) as (rvas & E & H). pose proof (lo_rva HL) as Hr. pose proof (lo_once HL) as Hn.
  rewrite E in *. clear E. induction H as [|s lr l lrs Hs H IH]; [constructor|]. cbn [concat] in *.
  apply Forall_app in Hr as [Hr1 Hr2]. rewrite fmap_app in *. apply NoDup_app in Hn as (Hn1 & _ & Hn2).
  pose proof (so_chunks _ _ _ Hs) as Ec. constructor.
  - assert (Em : map (fun c : lchunk => (c, getRVA c)) (os_chunks s) = lr).
    { rewrite <- Ec. clear - Hr1. induction Hr1 as [|[c a] lr Ha _ IH]; [done|]. cbn in *. by rewrite Ha, IH. }
    rewrite Em. split_and!; [done|by rewrite <- Ec|]. rewrite <- Ec. apply Forall_forall. intros c Hc. apply elem_of_app. by left.
  - eapply Forall_impl; [apply (IH Hr2 Hn2)|]. intros t (H1 & H2 & H3). split_and!; [done..|]. eapply Forall_impl; [exact H3|].
    intros c Hc. apply elem_of_app. by right.
Qed.

Lemma output_origin t : t ∈ secs -> exists s, s ∈ l_sections L /\ same_place s t.
Proof using Type.
  intros (i & Hi)%list_elem_of_lookup. destruct (Forall2_lookup_r _ _ _ _ _ output_same Hi) as (s & Hs & E). exists s. split; [|done].
  apply list_elem_of_lookup_2, list_elem_of_In, filter_In in Hs as [Hs _]. by apply list_elem_of_In.
Qed.

Lemma layout_chunks_ok s : s ∈ l_sections L -> Forall chunk_ok (os_chunks s).
Proof using HL.
  intros Hs. pose proof layout_sections_ok as Hl. rewrite Forall_forall in Hl. destruct (Hl s Hs) as (_ & _ & H).
  eapply Forall_impl; [exact H|]. intros c Hc. pose proof (lo_chunks HL) as H'. rewrite Forall_forall in H'. by apply H'.
Qed.

Lemma layout_sizes : Forall (fun s => 0 <= SizeOfRawData_ s /\ 0 <= VirtualSize s) (l_sections L).
Proof using HL.
  apply Forall_forall. intros s Hs. pose proof layout_sections_ok as Hl. rewrite Forall_forall in Hl. destruct (Hl s Hs) as (Hok & _ & _).
  split; [apply (so_rawSize _ _ _ Hok)|]. pose proof (so_inside _ _ _ Hok) as Ho. apply in_order_le in Ho; [lia|].
  apply Forall_fmap. eapply Forall_impl; [by apply layout_chunks_ok|by intros ? [_ ?]].
Qed.

Lemma output_sizes : Forall (fun s => 0 <= SizeOfRawData_ s /\ 0 <= VirtualSize s) secs.
Proof using HL.
  apply Forall_forall. intros t Ht. destruct (output_origin t Ht) as (s & Hs & ->). cbn. pose proof layout_sizes as H.
  rewrite Forall_forall in H. by apply H.
Qed.

Lemma output_ordered : files_in_order (fileAlign cfg) hdr secs (l_fileSize L) /\ sections_in_order hdr secs (l_rva L).
Proof using HL.
  destruct (lo_image HL) as [_ Ho _ Hf]. pose proof layout_sizes as Hs. split.
  - apply (same_place_files _ _ _ _ _ output_same), filter_files; [|done]. eapply Forall_impl; [exact Hs|by intros ? [? _]].
  - apply (same_place_order _ _ _ _ output_same), filter_order; [|done]. eapply Forall_impl; [exact Hs|by intros ? [_ ?]].
Qed.

Lemma fileSize_range : hdr <= l_fileSize L < 2 ^ 32.
Proof using All.
  pose proof hdr_end. destruct output_ordered as [Hf _]. split.
  { eapply files_bounds; [exact output_sizes|exact Hf|lia]. }
  pose proof Hsize as Hs2. unfold output_size in Hs2.
  destruct (tables_built_ok defined writeSymtab (fileAlign cfg) (l_fileSize L) secs files (ok_fileAlign _ (lo_config HL))) as (ids & B & HB).
  fold tables in HB. destruct tables as [t'|] eqn:Et; [|done]. destruct (tb_strtab _ _ _ _ _ _ _ _ HB t' eq_refl) as (_ & _ & ?).
  destruct (tb_builder _ _ _ _ _ _ _ _ HB) as [HB1 HK]. pose proof (string_region B HB1 HK). lia.
Qed.

Lemma output_sections_placed : Forall (fun s => section_placed getRVA s cfg) secs.
Proof using All.
  apply Forall_forall. intros t Ht. pose proof hdr_end. pose proof fileSize_range. pose proof (lo_range HL).
  destruct output_ordered as [Hf Ho].
  destruct (sections_bounds _ _ _ output_sizes Ho) as [_ Hb]. destruct (Hb t Ht).
  destruct (files_bounds _ _ _ _ output_sizes Hf) as [_ Hr]; [lia|]. destruct (Hr t Ht) as [? _].
  destruct (output_origin t Ht) as (s & Hs & E). pose proof layout_sections_ok as Hl. rewrite Forall_forall in Hl. destruct (Hl s Hs) as (K1 & K2 & K3).
  assert (Ec : os_chunks t = os_chunks s) by (by rewrite E).
  split; rewrite ?Ec; try lia; try done.
  - by eapply same_place_section_ok.
  - by apply layout_chunks_ok.
  - eapply Forall_impl; [exact K3|]. intros c Hc. pose proof (lo_thunks HL) as H'. rewrite Forall_forall in H'. by apply H'.
Qed.

Lemma named_ok s n t : named t s n -> length (cs_Name s) = 8%nat /\ bytes_ok (cs_Name s).
Proof using Type.
  unfold named. intros ->. case_match.
  - unfold long_name. split; [by rewrite length_app, !length_le_bytes|]. apply Forall_app. split; apply le_bytes_ok.
  - split; [apply length_padded|]. unfold short_name. apply Forall_take, Forall_app. split; [apply str_bytes_ok|].
    repeat constructor; lia.
Qed.

Lemma output_built : exists ids B, tables_built defined writeSymtab (l_fileSize L) secs files tables ids B.
Proof using HL. apply tables_built_ok. apply (ok_fileAlign _ (lo_config HL)). Qed.

Lemma output_tables_ok : tables_ok cfg hc secs tables (l_fileSize L).
Proof using All.
  destruct output_built as (ids & B & HB). pose proof fileSize_range. pose proof hdr_end. pose proof output_count. split; [lia|].
  pose proof (tb_strtab _ _ _ _ _ _ _ _ HB) as Ht. pose proof (tb_symbols _ _ _ _ _ _ _ _ HB) as Hsym. pose proof (tb_builder _ _ _ _ _ _ _ _ HB) as [HBok HK].
  pose proof Hsize as Hs. unfold output_size in Hs.
  destruct tables as [t|]; [|done]. destruct (Ht t eq_refl) as (E & Ep & Hle). rewrite (wrap_small 32) in Ep by (split; lia).
  split; [lia|]. split.
  - apply Forall_forall. intros s (i & Hi)%list_elem_of_lookup. destruct (Forall2_lookup_r _ _ _ _ _ Hsym Hi) as (id & _ & d & _ & _ & Hn & _).
    by destruct (named_ok _ _ _ Hn).
  - exists B. split_and!; [done..|]. unfold strings_offset. lia.
Qed.

Lemma write_image_spec : exists M, write = Some M /\ header_written cfg hc dirs hdr sizeOfImage textSec secs tables M /\
  Forall (fun s => section_written getRVA entryThunkRVA data s M) secs.
Proof using All.
  unfold write_image. rewrite (proj2 (Z.ltb_ge _ _)) by lia. cbn zeta. eexists. split; [done|].
  pose proof hdr_end. pose proof output_count. pose proof fileSize_range. destruct (lo_stub HL) as [Hst _].
  destruct output_ordered as [Hf _]. pose proof output_tables_ok as Htab.
  assert (Hzero : forall x, hdr <= x < l_fileSize L ->
    writeHeader cfg hc dirs hdr sizeOfImage textSec secs tables (fun _ => 0) x = 0).
  { intros x Hx. rewrite writeHeader_split. rewrite (write_tables_same cfg hc secs tables (l_fileSize L) x (x + 1)) by (done || lia).
    apply write_heads_keeps; [done|]. lia. }
  destruct (write_sections_spec getRVA writeTo entryThunkRVA schedule fillInt3 data Hco cfg secs hdr (l_fileSize L) _ output_sections_placed Hf Hzero) as [K1 K2].
  split; [|done]. apply (header_written_same cfg hc dirs hdr sizeOfImage textSec secs tables (l_fileSize L)
    (writeHeader cfg hc dirs hdr sizeOfImage textSec secs tables (fun _ => 0))); [done..| | |].
  - intros x Hx. apply K2. lia.
  - intros x Hx. apply K2. lia.
  - by apply (writeHeader_written cfg hc dirs hdr sizeOfImage textSec secs tables (l_fileSize L)).
Qed.

(** ** What a reader and a loader find *)

Abbreviation image := (image_of cfg hc dirs hdr sizeOfImage textSec secs tables).

Lemma image_initialize M : header_written cfg hc dirs hdr sizeOfImage textSec secs tables M -> initialize size M = Some image.
Proof using All.
  intros Hw. pose proof hdr_end. pose proof output_count. pose proof fileSize_range. pose proof (lo_count HL). destruct (lo_stub HL) as [Hst _].
  apply (initialize_image cfg hc dirs hdr sizeOfImage textSec secs tables (l_fileSize L)); try done; [apply output_tables_ok|lia|].
  destruct output_built as (ids & B & HB). pose proof (tb_strtab _ _ _ _ _ _ _ _ HB) as Ht. unfold file_ok, output_size.
  destruct tables as [t|]; [|split; [lia|done]]. destruct (Ht t eq_refl) as (E & Ep & Hle). rewrite (wrap_small 32) in Ep by (split; lia).
  unfold strings_offset. rewrite E, Ep. destruct (tb_builder _ _ _ _ _ _ _ _ HB) as [HB1 HK]. pose proof (string_region B HB1 HK).
  split; lia.
Qed.

(** A byte of a section, from the file or zero. *)
Lemma map_section M t rva : header_written cfg hc dirs hdr sizeOfImage textSec secs tables M -> t ∈ secs ->
  VirtualAddress_ t <= rva < VirtualAddress_ t + VirtualSize t ->
  map_image image M hdr rva =
    if rva - VirtualAddress_ t <? SizeOfRawData_ t then M (PointerToRawData t + (rva - VirtualAddress_ t)) else 0.
Proof using All.
  intros Hw Ht Hr. pose proof hdr_end. pose proof fileSize_range. pose proof (lo_range HL). destruct output_ordered as [Hf Ho].
  destruct (sections_bounds _ _ _ output_sizes Ho) as [_ Hb]. destruct (Hb t Ht). destruct (lo_stub HL) as [Hst _].
  destruct (files_bounds _ _ _ _ output_sizes Hf) as [_ Hr2]; [lia|]. destruct (Hr2 t Ht) as [Hraw Hptr].
  pose proof output_sizes as Hsz. rewrite Forall_forall in Hsz. destruct (Hsz t Ht).
  unfold map_image. rewrite (proj2 (Z.ltb_ge rva hdr)) by lia. rewrite andb_false_r.
  rewrite (read_sections cfg hc dirs hdr sizeOfImage textSec secs tables (l_fileSize L) M Hst output_tables_ok Hw).
  rewrite (find_mapped tables hdr secs (l_rva L) t rva) by (done || lia || apply output_sizes).
  cbn [shown_section sn_VirtualAddress sn_SizeOfRawData sn_PointerToRawData]. rewrite (wrap_small 32 (VirtualAddress_ t)), (wrap_small 32 (SizeOfRawData_ t)) by (split; lia).
  destruct (Z.ltb_spec (rva - VirtualAddress_ t) (SizeOfRawData_ t)); [|done]. rewrite (wrap_small 32) by (split; lia). done.
Qed.

(** A chunk as the loader maps it. *)
Lemma map_chunk M c a : header_written cfg hc dirs hdr sizeOfImage textSec secs tables M ->
  Forall (fun s => section_written getRVA entryThunkRVA data s M) secs -> (c, a) ∈ l_rvas L ->
  (forall k, 0 <= k < c_size c -> map_image image M hdr (a + k) = nth (Z.to_nat k) (data c) 0) /\
  (c_entryThunk c = true -> read32le (map_image image M hdr) (a - 4) = u32 (entryThunkRVA c - a + 1)).
Proof using All.
  intros Hw Hsec Hin. pose proof (lo_rva HL) as Hrva. rewrite Forall_forall in Hrva. pose proof (Hrva _ Hin) as Ea. cbn in Ea. subst a.
  destruct (io_sections _ _ _ (lo_image HL)) as (rvas & E & Hs2). rewrite E in Hin.
  apply list_elem_of_In, in_concat in Hin as (lr & (i & Hi)%list_elem_of_In%list_elem_of_lookup & Hcl%list_elem_of_In).
  destruct (Forall2_lookup_r _ _ _ _ _ Hs2 Hi) as (s & Hsi & Hok). apply list_elem_of_lookup_2 in Hsi.
  assert (Hc : c ∈ os_chunks s) by (rewrite <- (so_chunks _ _ _ Hok); by apply (list_elem_of_fmap_2 fst) in Hcl).
  assert (Hck : Forall (fun x : lchunk * Z => 0 <= c_size x.1) lr).
  { pose proof (layout_chunks_ok s Hsi) as H. rewrite <- (so_chunks _ _ _ Hok), Forall_fmap in H. eapply Forall_impl; [exact H|by intros ? [_ ?]]. }
  pose proof (in_order_entry _ _ _ _ _ Hck (so_inside _ _ _ Hok) Hcl) as Hlo.
  destruct (in_order_bounds _ _ _ _ _ Hck (so_inside _ _ _ Hok) Hcl) as [_ Hhi]. pose proof (entry_space_range c).
  pose proof (proj1 (Forall_forall _ _) Hck _ Hcl) as Hc0. cbn in Hc0.
  assert (Hkept : VirtualSize s <> 0 -> exists t, t ∈ secs /\ same_place s t).
  { intros Hne. assert (Hk : s ∈ removeEmptySections (l_sections L)).
    { apply list_elem_of_In, filter_In. split; [by apply list_elem_of_In|]. by rewrite (proj2 (Z.eqb_neq _ _) Hne). }
    apply list_elem_of_lookup in Hk as (j & Hj). destruct (Forall2_lookup_l _ _ _ _ _ output_same Hj) as (t & Ht & Est).
    exists t. split; [by apply list_elem_of_lookup_2 in Ht|done]. }
  rewrite Forall_forall in Hsec. split.
  - intros k Hk. destruct Hkept as (t & Ht & Est); [lia|]. destruct (same_place_eq _ _ Est) as (E1 & E2 & E3 & E4 & E5).
    rewrite (map_section M _ _ Hw Ht) by lia. rewrite E1, E3, E4. destruct (Hsec _ Ht c) as [H1 _]; [by rewrite E5|].
    unfold file_off in H1. rewrite E1, E3, E4 in H1.
    destruct (Z.ltb_spec (getRVA c + k - VirtualAddress_ s) (SizeOfRawData_ s)) as [Hl|Hl].
    + rewrite <- (H1 k) by lia. f_equal. lia.
    + symmetry. apply nth_overflow. pose proof (so_data _ _ _ Hok) as Hd. rewrite Forall_forall in Hd. specialize (Hd _ Hcl). cbn in Hd.
      pose proof (co_size _ _ _ Hco c) as Hsz. unfold len in Hsz. destruct (c_hasData c); [specialize (Hd eq_refl); lia|lia].
  - intros Et. unfold entry_space in Hlo. rewrite Et in Hlo. destruct Hkept as (t & Ht & Est); [lia|].
    destruct (same_place_eq _ _ Est) as (E1 & E2 & E3 & E4 & E5).
    destruct (Hsec _ Ht c) as [_ H2]; [by rewrite E5|]. destruct (H2 Et) as (H4 & Hraw & <-). unfold file_off. rewrite E1, E3, E4 in *.
    apply read_ext. intros k Hk. rewrite (map_section M _ _ Hw Ht) by lia. rewrite E1, E3, E4.
    rewrite (proj2 (Z.ltb_lt _ _)) by lia. f_equal. lia.
Qed.

End Image.

(** ** From the layout to the image *)

(** What [assignAddresses] and the writer are given: valid options, chunks with
    an alignment, fewer sections than a header can count, addresses as assigned,
    each chunk in the output once, and thunks only before code. *)
Record writer_input_ok (cfg : config) (hc : header_config) (relocChunks : list (lchunk * Z) -> list lchunk)
    (secs : list osection) (getRVA : lchunk -> Z) : Prop := {
  wi_config : config_ok cfg;
  wi_stub : stub_ok (dosStub hc) /\ dosStubSize cfg = stubSize (dosStub hc);
  wi_chunks : chunks_ok relocChunks secs;
  wi_count : Z.of_nat (length secs) < 0xffff;
  wi_range : l_rva (assignAddresses cfg relocChunks secs).1 < 2 ^ 32;
  wi_rva : Forall (fun x => getRVA x.1 = x.2) (l_rvas (assignAddresses cfg relocChunks secs).1);
  wi_once : NoDup (l_rvas (assignAddresses cfg relocChunks secs).1).*1;
  wi_thunks : Forall (fun c => c_entryThunk c = true -> c_hasData c = true) (l_rvas (assignAddresses cfg relocChunks secs).1).*1
}.

Lemma placed_of_sections cfg relocChunks secs L (P : lchunk -> Prop) :
  Forall (fun s => Forall P (os_chunks s)) secs -> (forall r, Forall P (relocChunks r)) -> Forall P (l_rvas L).*1 ->
  Forall P (l_rvas (fold_left (assign_section cfg relocChunks) secs L)).*1.
Proof.
  intros Hs Hr. revert L. induction Hs as [|s secs H Hs IH]; intros L HL; [done|]. cbn [fold_left]. apply IH.
  cbn [l_rvas assign_section]. rewrite fmap_app. apply Forall_app. split; [done|]. set (s' := if os_isReloc s then _ else s).
  assert (Hp : forall rva padding code l st, Forall P l -> Forall P (placed st).*1 ->
    Forall P (placed (fold_left (place_chunk cfg rva padding code) l st)).*1).
  { clear. intros rva padding code l. induction l as [|c l IH]; intros st Hl Hst; [done|]. apply Forall_cons in Hl as [Hc Hl].
    cbn [fold_left]. apply IH; [done|]. cbn [placed place_chunk]. rewrite fmap_app. apply Forall_app. split; [done|by constructor]. }
  apply Hp; [|constructor]. subst s'. destruct (os_isReloc s); [apply Hr|done].
Qed.

Lemma writer_layout_ok cfg hc relocChunks secs getRVA data writeTo schedule :
  writer_input_ok cfg hc relocChunks secs getRVA -> contents_ok writeTo schedule data ->
  l_fileSize (assignAddresses cfg relocChunks secs).1 < 2 ^ 32 ->
  layout_ok cfg hc (assignAddresses cfg relocChunks secs).1 getRVA.
Proof.
  intros [] Hco Hf. assert (El : length (l_sections (assignAddresses cfg relocChunks secs).1) = length secs)
    by (unfold assignAddresses; cbn [fst]; by rewrite fold_sections_length).
  split; try done; rewrite ?El; try done.
  - by apply assignAddresses_ok.
  - destruct wi_chunks0. unfold assignAddresses. cbn [fst]. by apply placed_of_sections.
Qed.

Section Run.
Context (cfg : config) (hc : header_config) (relocChunks : list (lchunk * Z) -> list lchunk) (secs : list osection).
Context (dirs : directories) (textSec : osection) (defined : nat -> option out_def) (writeSymtab : bool) (files : list (list nat)).
Context (getRVA : lchunk -> Z) (writeTo : lchunk -> Z -> mem -> mem) (entryThunkRVA : lchunk -> Z).
Context (schedule : list lchunk -> list lchunk) (fillInt3 : bool).

(** [finalizeAddresses] without range extension thunks, and [run] after it. *)
Definition run_layout : layout := (assignAddresses cfg relocChunks secs).1.
Definition run_image : option mem :=
  write_image cfg hc dirs run_layout (assignAddresses cfg relocChunks secs).2 textSec defined writeSymtab files
    getRVA writeTo entryThunkRVA schedule fillInt3.
Definition run_sections : list osection := output_sections cfg run_layout.
Definition run_tables : option symbol_tables := output_tables cfg run_layout defined writeSymtab files.
Definition run_size : Z := output_size cfg run_layout defined writeSymtab files.
Definition run_headers : Z := sizeOfHeaders cfg (length (l_sections run_layout)).

(** The headers as the reader has them. *)
Definition run_view : coff_image :=
  image_of cfg hc dirs run_headers (assignAddresses cfg relocChunks secs).2 textSec run_sections run_tables.

Context (data : lchunk -> list Z) (Hin : writer_input_ok cfg hc relocChunks secs getRVA) (Hco : contents_ok writeTo schedule data).
Context (Hsize : run_size < 2 ^ 32).

Lemma run_layout_ok : layout_ok cfg hc run_layout getRVA.
Proof using All.
  eapply writer_layout_ok; [done..|]. change (assignAddresses cfg relocChunks secs).1 with run_layout.
  unfold run_size, output_size in Hsize. destruct (output_tables cfg run_layout defined writeSymtab files) as [t|] eqn:Et; [|done].
  destruct (tables_built_ok defined writeSymtab (fileAlign cfg) (l_fileSize run_layout) run_sections files (ok_fileAlign _ (wi_config _ _ _ _ _ Hin))) as (ids & B & HB).
  unfold output_tables in Et. fold run_sections in Et. rewrite Et in HB. destruct (tb_strtab _ _ _ _ _ _ _ _ HB t eq_refl) as (_ & _ & ?).
  destruct (tb_builder _ _ _ _ _ _ _ _ HB) as [HB1 HK]. pose proof (string_region B HB1 HK). lia.
Qed.

Lemma run_written : exists M, run_image = Some M /\
  header_written cfg hc dirs run_headers (assignAddresses cfg relocChunks secs).2 textSec run_sections run_tables M /\
  Forall (fun s => section_written getRVA entryThunkRVA data s M) run_sections /\
  initialize run_size M = Some run_view.
Proof using All.
  destruct (write_image_spec cfg hc dirs run_layout (assignAddresses cfg relocChunks secs).2 textSec defined writeSymtab files
    getRVA writeTo entryThunkRVA schedule fillInt3 data run_layout_ok Hco Hsize) as (M & E & Hw & Hs).
  exists M. split_and!; [done..|]. exact (image_initialize cfg hc dirs run_layout _ textSec defined writeSymtab files
    getRVA writeTo entryThunkRVA schedule fillInt3 data run_layout_ok Hco Hsize M Hw).
Qed.

Lemma symbol_place_range l v n : symbol_place l = Some (v, n) -> u32 v = v /\ u16 n = n.
Proof using Type. destruct l as [va|rva [[o i]|]|]; cbn; intros [= <- <-]; unfold wrap; by rewrite ?Z.mod_mod. Qed.

(** What the reader gets of a symbol: its name, value and section. *)
Definition symbol_shown (f : coff_image) (M : mem) (i : nat) (d : out_def) : Prop :=
  getSymbolName f M i = Some (y_name d) /\
  symbol_place (y_loc d) = Some (read32le M (ci_symbols f + 18 * Z.of_nat i + 8), read16le M (ci_symbols f + 18 * Z.of_nat i + 12)).

Lemma run_built : exists ids B, tables_built defined writeSymtab (l_fileSize run_layout) run_sections files run_tables ids B.
Proof using Hin. apply tables_built_ok. apply (ok_fileAlign _ (wi_config _ _ _ _ _ Hin)). Qed.

Lemma run_tables_ok : tables_ok cfg hc run_sections run_tables (l_fileSize run_layout).
Proof using All.
  exact (output_tables_ok cfg hc dirs run_layout 0 textSec defined writeSymtab files getRVA writeTo entryThunkRVA schedule fillInt3 data
    run_layout_ok Hco Hsize).
Qed.

Lemma run_sections_length : length (l_sections run_layout) = length secs.
Proof using Type. unfold run_layout, assignAddresses. cbn [fst]. by rewrite fold_sections_length. Qed.

Lemma run_read M : header_written cfg hc dirs run_headers (assignAddresses cfg relocChunks secs).2 textSec run_sections run_tables M ->
  sections_of run_view M = map (shown_section run_tables) run_sections.
Proof using All.
  intros Hw. destruct (lo_stub _ _ _ _ run_layout_ok) as [Hst _].
  exact (read_sections cfg hc dirs run_headers _ textSec run_sections run_tables (l_fileSize run_layout) M Hst run_tables_ok Hw).
Qed.

(** The sections read back, names and all. *)
Lemma run_names M : header_written cfg hc dirs run_headers (assignAddresses cfg relocChunks secs).2 textSec run_sections run_tables M ->
  Forall (fun s => no_nul (os_name s) /\ (longNameSection s = false -> String.prefix "/" (os_name s) = false)) run_sections ->
  map (getSectionName run_view M) (sections_of run_view M) = map (fun s => Some (displayed_name s)) run_sections.
Proof using All.
  intros Hw Hn. destruct (lo_stub _ _ _ _ run_layout_ok) as [Hst _].
  pose proof run_tables_ok as Ht.
  destruct run_built as (ids & B & HB).
  rewrite (run_read M Hw).
  rewrite map_map. apply map_ext_in. intros s Hs%list_elem_of_In. rewrite Forall_forall in Hn. destruct (Hn s Hs) as [Hnul Hsl].
  apply (read_section_name cfg hc dirs run_headers _ textSec run_sections run_tables (l_fileSize run_layout) M Hst Ht Hw); try done.
  intros Hl. destruct (tb_sections _ _ _ _ _ _ _ _ HB s Hs Hl) as [[t Et] Hk]. destruct (tb_strtab _ _ _ _ _ _ _ _ HB t Et) as (E & _).
  destruct (tb_builder _ _ _ _ _ _ _ _ HB). by exists t, B.
Qed.

(** And the symbols. *)
Lemma run_symbols M : header_written cfg hc dirs run_headers (assignAddresses cfg relocChunks secs).2 textSec run_sections run_tables M ->
  (forall id d, defined id = Some d -> no_nul (y_name d) /\ y_name d <> "") ->
  exists ids, NoDup ids /\ ci_numberOfSymbols run_view = Z.of_nat (length ids) /\
    (forall i id, ids !! i = Some id -> exists d, defined id = Some d /\ isRuntimePseudoReloc d = false /\ symbol_shown run_view M i d) /\
    (writeSymtab = true -> forall id d, id ∈ concat files -> defined id = Some d -> skipped d = false -> placed_symbol d -> id ∈ ids).
Proof using All.
  intros Hw Hn. destruct (lo_stub _ _ _ _ run_layout_ok) as [Hst _].
  pose proof run_tables_ok as Ht.
  destruct run_built as (ids & B & HB).
  pose proof (tb_symbols _ _ _ _ _ _ _ _ HB) as Hsym. exists ids. split_and!.
  - by eapply tb_nodup.
  - cbn. rewrite (Forall2_length _ _ _ Hsym). by destruct run_tables.
  - intros i id Hi. destruct (Forall2_lookup_l _ _ _ _ _ Hsym Hi) as (s & Hs & d & Hd & [Hp Hps] & Hnm & Hk).
    exists d. split_and!; [done..|]. destruct (Hn id d Hd) as [Hnul Hne]. destruct (named_ok _ _ _ Hnm) as [H8 Hb].
    destruct run_tables as [t|] eqn:Et; [|done]. destruct (tb_strtab _ _ _ _ _ _ _ _ HB t eq_refl) as (E & _).
    destruct (tb_builder _ _ _ _ _ _ _ _ HB) as [HB1 HK]. cbn in Hs. unfold symbol_shown.
    destruct (read_symbol cfg hc dirs run_headers (assignAddresses cfg relocChunks secs).2 textSec run_sections (Some t)
      (l_fileSize run_layout) M Hst Ht Hw t i s (y_name d)) as (R1 & R2 & R3); try done.
    { intros Hl. by exists B; split_and!; [..|apply Hk]. }
    unfold run_view. rewrite Et. split; [exact R1|]. rewrite R2, R3, Hp. destruct (symbol_place_range _ _ _ Hp) as [-> ->]. done.
  - intros Hws id d. by apply (tb_complete _ _ _ _ _ _ _ _ HB).
Qed.

End Run.

(** ** The checksum *)

(** The reference, RFC 1071: 16-bit words added with end-around carry. *)
Fixpoint words_of (bs : list Z) : list Z :=
  match bs with
  | b0 :: b1 :: bs => b0 + 2 ^ 8 * b1 :: words_of bs
  | l => l
  end.

Definition oc_add (a b : Z) : Z := let s := a + b in if 0xffff <? s then s - 0xffff else s.

Definition oc_sum (ws : list Z) : Z := fold_left oc_add ws 0.

(** Sums with carry are residues modulo 0xffff, 0 only for nothing. *)
Definition residue (s : Z) : Z := if s =? 0 then 0 else 1 + (s - 1) mod 0xffff.

Lemma residue_small s : 0 <= s <= 0xffff -> residue s = s.
Proof. intros H. unfold residue. destruct (Z.eqb_spec s 0); [done|]. rewrite Z.mod_small; lia. Qed.

Lemma residue_carry s k : 0 < s - 0xffff * k -> 0 <= k -> residue (s - 0xffff * k) = residue s.
Proof.
  intros H Hk. unfold residue. rewrite !(proj2 (Z.eqb_neq _ 0)) by lia. f_equal.
  replace (s - 1) with (s - 65535 * k - 1 + k * 65535) by lia. by rewrite Z.mod_add.
Qed.

Lemma residue_range s : 0 <= s -> 0 <= residue s <= 0xffff /\ (s <> 0 -> 0 < residue s).
Proof. intros H. unfold residue. destruct (Z.eqb_spec s 0); [lia|]. pose proof (Z.mod_pos_bound (s - 1) 0xffff). lia. Qed.

Lemma residue_spec s : 0 <= s -> exists k, 0 <= k /\ residue s = s - 0xffff * k.
Proof.
  intros H. unfold residue. destruct (Z.eqb_spec s 0); [exists 0; lia|]. exists ((s - 1) / 0xffff).
  pose proof (Z.div_mod (s - 1) 0xffff ltac:(lia)). pose proof (Z.div_pos (s - 1) 0xffff). lia.
Qed.

Lemma oc_add_residue s w : 0 <= s -> 0 <= w <= 0xffff -> oc_add (residue s) w = residue (s + w).
Proof.
  intros Hs Hw. destruct (residue_spec s Hs) as (k & Hk & E). destruct (residue_range s Hs) as [Hr Hp]. unfold oc_add. cbn zeta.
  destruct (Z.ltb_spec 0xffff (residue s + w)).
  - rewrite <- (residue_small (residue s + w - 0xffff)) by lia. rewrite E.
    replace (s - 65535 * k + w - 65535) with (s + w - 65535 * (k + 1)) by lia. apply residue_carry; lia.
  - rewrite <- (residue_small (residue s + w)) by lia. destruct (decide (s = 0)) as [->|Hne]; [done|]. specialize (Hp Hne).
    rewrite E in *. replace (s - 65535 * k + w) with (s + w - 65535 * k) by lia. apply residue_carry; lia.
Qed.

Lemma oc_sum_residue ws s : 0 <= s -> Forall (fun w => 0 <= w <= 0xffff) ws ->
  fold_left oc_add ws (residue s) = residue (fold_left Z.add ws s).
Proof.
  intros Hs Hw. revert s Hs. induction Hw as [|w ws Hw _ IH]; intros s Hs; [done|]. cbn [fold_left].
  rewrite oc_add_residue by done. apply IH. lia.
Qed.

Lemma words_of_range bs : bytes_ok bs -> Forall (fun w => 0 <= w <= 0xffff) (words_of bs).
Proof.
  remember (length bs) as n eqn:En. revert bs En. induction (lt_wf n) as [n _ IH]. intros bs -> H.
  destruct bs as [|b0 [|b1 bs]]; [constructor| |].
  - apply Forall_cons in H as [Hb _]. unfold byte_ok in Hb. constructor; [lia|constructor].
  - apply Forall_cons in H as [Hb0 H]. apply Forall_cons in H as [Hb1 H]. unfold byte_ok in *. constructor; [lia|].
    apply (IH (length bs)); [cbn; lia|done|done].
Qed.

Lemma sum_words_spec fuel m addr n sum : mem_ok m -> (n < fuel)%nat -> 0 <= sum -> sum + 0xffff * (Z.of_nat n + 1) < 2 ^ 64 ->
  sum_words fuel m addr (Z.of_nat n) sum = fold_left Z.add (words_of (bytes_at m addr n)) sum.
Proof.
  intros Hm. revert addr n sum. induction fuel as [|fuel IH]; intros addr n sum Hf Hs Hb; [lia|]. cbn [sum_words].
  assert (Hcons : forall a k, bytes_at m a (S k) = m a :: bytes_at m (a + 1) k).
  { intros a k. unfold bytes_at. cbn [seq map]. rewrite Z.add_0_r. f_equal. rewrite <- seq_shift, map_map. apply map_ext. intros j. f_equal. lia. }
  destruct n as [|[|n]]; [done| |].
  - rewrite Hcons. cbn. pose proof (Hm addr) as [? ?]. apply wrap_small. split; lia.
  - rewrite (proj2 (Z.ltb_lt _ _)) by lia. rewrite !Hcons. cbn [words_of fold_left].
    pose proof (Hm addr) as [? ?]. pose proof (Hm (addr + 1)) as [? ?].
    assert (Er : read16le m addr = m addr + 2 ^ 8 * m (addr + 1)) by (change (read16le m addr) with (m addr + 2 ^ 8 * (m (addr + 1) + 2 ^ 8 * 0)); lia).
    rewrite Er. rewrite (wrap_small 64) by (split; lia). replace (Z.of_nat (S (S n)) - 2) with (Z.of_nat n) by lia.
    replace (addr + 2) with (addr + 1 + 1) by lia. apply IH; lia.
Qed.

Lemma fold_sum_residue s : 0 <= s < 2 ^ 48 -> fold_sum 4 s = residue s.
Proof.
  assert (Hstep : forall x, 0 <= x -> (x &&& 0xffff) + (x >>> 16) = x - 0xffff * (x / 2 ^ 16) /\ (x >>> 16) = x / 2 ^ 16).
  { intros x Hx. rewrite Z.shiftr_div_pow2 by lia. change 0xffff with (Z.ones 16) at 1. rewrite Z.land_ones by lia.
    pose proof (Z.div_mod x (2 ^ 16) ltac:(lia)). lia. }
  assert (Hdone : forall f x, 0 <= x < 2 ^ 16 -> fold_sum f x = residue x).
  { intros f x Hx. rewrite residue_small by lia. destruct f; [done|]. cbn [fold_sum]. destruct (Hstep x) as [_ ->]; [lia|].
    rewrite Z.div_small by lia. done. }
  assert (Hturn : forall f x, 2 ^ 16 <= x -> exists y, fold_sum (S f) x = fold_sum f y /\ residue y = residue x /\
    y = x - 0xffff * (x / 2 ^ 16)).
  { intros f x Hx. destruct (Hstep x) as [E1 E2]; [lia|]. exists (x - 0xffff * (x / 2 ^ 16)). cbn [fold_sum].
    pose proof (Z.div_mod x (2 ^ 16) ltac:(lia)). pose proof (Z.mod_pos_bound x (2 ^ 16) ltac:(lia)). pose proof (Z.div_le_lower_bound x (2 ^ 16) 1 ltac:(lia) ltac:(lia)).
    rewrite E2, (proj2 (Z.eqb_neq _ 0)) by lia. rewrite <- E2 at 1. rewrite E1. split_and!; [done| |done]. apply residue_carry; lia. }
  assert (Hb : forall x, 0 <= x -> x = 2 ^ 16 * (x / 2 ^ 16) + x mod 2 ^ 16 /\ 0 <= x mod 2 ^ 16 < 2 ^ 16).
  { intros x Hx. split; [apply Z.div_mod; lia|apply Z.mod_pos_bound; lia]. }
  intros Hs.
  destruct (Z.lt_ge_cases s (2 ^ 16)) as [|G0]; [apply Hdone; lia|]. destruct (Hturn 3%nat s G0) as (s1 & -> & <- & E1).
  destruct (Hb s ltac:(lia)). assert (0 <= s1 < 2 ^ 33) by (change (2 ^ 48) with (2 ^ 16 * 2 ^ 32) in Hs; lia).
  destruct (Z.lt_ge_cases s1 (2 ^ 16)) as [|G1]; [apply Hdone; lia|]. destruct (Hturn 2%nat s1 G1) as (s2 & -> & <- & E2).
  destruct (Hb s1 ltac:(lia)). assert (0 <= s2 < 2 ^ 18) by (change (2 ^ 33) with (2 ^ 16 * 2 ^ 17) in *; lia).
  destruct (Z.lt_ge_cases s2 (2 ^ 16)) as [|G2]; [apply Hdone; lia|]. destruct (Hturn 1%nat s2 G2) as (s3 & -> & <- & E3).
  destruct (Hb s2 ltac:(lia)). assert (0 <= s3 <= 2 ^ 16 + 2) by (change (2 ^ 18) with (2 ^ 16 * 4) in *; lia).
  destruct (Z.lt_ge_cases s3 (2 ^ 16)) as [|G3]; [apply Hdone; lia|]. destruct (Hturn 0%nat s3 G3) as (s4 & -> & <- & E4).
  destruct (Hb s3 ltac:(lia)). apply Hdone. lia.
Qed.

Lemma bytes_at_ok m p n : mem_ok m -> bytes_ok (bytes_at m p n).
Proof. intros Hm. unfold bytes_at. apply Forall_fmap, Forall_forall. intros k _. apply Hm. Qed.

Lemma sum_bound ws s : Forall (fun w => 0 <= w <= 0xffff) ws -> s <= fold_left Z.add ws s <= s + 0xffff * Z.of_nat (length ws).
Proof. intros H. revert s. induction H as [|w ws Hw _ IH]; intros s; cbn [fold_left length]; [lia|]. specialize (IH (s + w)). lia. Qed.

Lemma words_of_length bs : (length (words_of bs) <= length bs)%nat.
Proof.
  remember (length bs) as n eqn:En. revert bs En. induction (lt_wf n) as [n _ IH]. intros bs ->.
  destruct bs as [|b0 [|b1 bs]]; cbn; [lia..|]. specialize (IH (length bs) ltac:(cbn; lia) bs eq_refl). lia.
Qed.

Lemma pe_checksum_sum m size : mem_ok m -> 0 <= size < 2 ^ 32 ->
  pe_checksum m size = u32 (oc_sum (words_of (bytes_at m 0 (Z.to_nat size))) + size).
Proof.
  intros Hm Hs. unfold pe_checksum, oc_sum. pose proof (words_of_range _ (bytes_at_ok m 0 (Z.to_nat size) Hm)) as Hw.
  assert (E : sum_words (S (Z.to_nat size)) m 0 size 0 = fold_left Z.add (words_of (bytes_at m 0 (Z.to_nat size))) 0).
  { rewrite <- (Z2Nat.id size) at 2 by lia. apply sum_words_spec; [done|lia|lia|]. rewrite Z2Nat.id by lia. lia. }
  rewrite E. pose proof (oc_sum_residue _ 0 ltac:(lia) Hw) as R. change (residue 0) with 0 in R. rewrite R. clear E R.
  pose proof (sum_bound _ 0 Hw) as Hb. pose proof (words_of_length (bytes_at m 0 (Z.to_nat size))) as Hl. rewrite length_bytes_at in Hl.
  set (total := fold_left Z.add _ 0) in *. assert (Ht : 0 <= total < 2 ^ 48) by (change (2 ^ 48) with (2 ^ 16 * 2 ^ 32); lia).
  rewrite fold_sum_residue by done. destruct (residue_range total ltac:(lia)) as [? _].
  rewrite (wrap_small 64) by (split; lia). done.
Qed.

Lemma writePEChecksum_other b stub size m x : x < checkSumOffset stub \/ checkSumOffset stub + 4 <= x ->
  writePEChecksum b stub size m x = m x.
Proof. intros H. unfold writePEChecksum. destruct b; [|done]. apply write_other. lia. Qed.

(** ** Theorems *)

(** C7: the image that the writer produces, mapped by a loader, shows every chunk
    at the address it was given: the bytes its [writeTo] makes of a zeroed buffer,
    and zeroes for one without data, whatever order the threads write them in;
    and before a chunk with an EC entry thunk the offset to it. *)
Theorem image_loads (cfg : config) (hc : header_config) (relocChunks : list (lchunk * Z) -> list lchunk) (secs : list osection)
    (dirs : directories) (textSec : osection) (defined : nat -> option out_def) (writeSymtab : bool) (files : list (list nat))
    (getRVA : lchunk -> Z) (writeTo : lchunk -> Z -> mem -> mem) (entryThunkRVA : lchunk -> Z)
    (schedule : list lchunk -> list lchunk) (fillInt3 : bool) (data : lchunk -> list Z)
    (Hin : writer_input_ok cfg hc relocChunks secs getRVA) (Hco : contents_ok writeTo schedule data)
    (Hsize : run_size cfg relocChunks secs defined writeSymtab files < 2 ^ 32) :
  exists M f,
    run_image cfg hc relocChunks secs dirs textSec defined writeSymtab files getRVA writeTo entryThunkRVA schedule fillInt3 = Some M /\
    initialize (run_size cfg relocChunks secs defined writeSymtab files) M = Some f /\
    forall c a, (c, a) ∈ l_rvas (assignAddresses cfg relocChunks secs).1 ->
      (forall k, 0 <= k < c_size c ->
         map_image f M (sizeOfHeaders cfg (length secs)) (a + k) = nth (Z.to_nat k) (data c) 0) /\
      (c_entryThunk c = true ->
         read32le (map_image f M (sizeOfHeaders cfg (length secs))) (a - 4) = u32 (entryThunkRVA c - a + 1)).
Proof.
  destruct (run_written cfg hc relocChunks secs dirs textSec defined writeSymtab files getRVA writeTo entryThunkRVA schedule fillInt3
    data Hin Hco Hsize) as (M & E & Hw & Hs & Ei).
  eexists M, _. split; [exact E|]. split; [exact Ei|]. intros c a Hca. rewrite <- (run_sections_length cfg relocChunks secs).
  exact (map_chunk cfg hc dirs (run_layout cfg relocChunks secs) _ textSec defined writeSymtab files getRVA writeTo entryThunkRVA
    schedule fillInt3 data (run_layout_ok cfg hc relocChunks secs dirs textSec defined writeSymtab files getRVA writeTo entryThunkRVA
      schedule fillInt3 data Hin Hco Hsize)
    Hco Hsize M c a Hw Hs Hca).
Qed.

(** C13: [COFFObjectFile] reads the headers of the produced image back as the
    writer had them: every field of the file header and the optional header, the
    data directories, and the section table with its names, long names of
    discardable sections found in the string table. *)
Theorem image_headers_roundtrip (cfg : config) (hc : header_config) (relocChunks : list (lchunk * Z) -> list lchunk) (secs : list osection)
    (dirs : directories) (textSec : osection) (defined : nat -> option out_def) (writeSymtab : bool) (files : list (list nat))
    (getRVA : lchunk -> Z) (writeTo : lchunk -> Z -> mem -> mem) (entryThunkRVA : lchunk -> Z)
    (schedule : list lchunk -> list lchunk) (fillInt3 : bool) (data : lchunk -> list Z)
    (Hin : writer_input_ok cfg hc relocChunks secs getRVA) (Hco : contents_ok writeTo schedule data)
    (Hsize : run_size cfg relocChunks secs defined writeSymtab files < 2 ^ 32)
    (Hnames : Forall (fun s => no_nul (os_name s) /\ (longNameSection s = false -> String.prefix "/" (os_name s) = false))
       (run_sections cfg relocChunks secs)) :
  exists M f,
    run_image cfg hc relocChunks secs dirs textSec defined writeSymtab files getRVA writeTo entryThunkRVA schedule fillInt3 = Some M /\
    initialize (run_size cfg relocChunks secs defined writeSymtab files) M = Some f /\
    let out := run_sections cfg relocChunks secs in let tables := run_tables cfg relocChunks secs defined writeSymtab files in
    ci_is64 f = is64 cfg /\
    ci_file f = field_values (coff_fields cfg hc out tables) /\
    ci_header f = field_values (pe_fields cfg hc (run_headers cfg relocChunks secs) (assignAddresses cfg relocChunks secs).2 textSec out) /\
    ci_dirs f = map (fun d => (u32 d.1, u32 d.2)) (data_directories (is64 cfg) dirs) /\
    sections_of f M = map (shown_section tables) out /\
    map (getSectionName f M) (sections_of f M) = map (fun s => Some (displayed_name s)) out.
Proof.
  destruct (run_written cfg hc relocChunks secs dirs textSec defined writeSymtab files getRVA writeTo entryThunkRVA schedule fillInt3
    data Hin Hco Hsize) as (M & E & Hw & Hs & Ei).
  eexists M, _. split; [exact E|]. split; [exact Ei|]. cbn zeta. split_and!; [done..| |].
  - exact (run_read cfg hc relocChunks secs dirs textSec defined writeSymtab files getRVA writeTo entryThunkRVA
      schedule fillInt3 data Hin Hco Hsize M Hw).
  - exact (run_names cfg hc relocChunks secs dirs textSec defined writeSymtab files getRVA writeTo entryThunkRVA
      schedule fillInt3 data Hin Hco Hsize M Hw Hnames).
Qed.

(** C23: and the symbol table: one symbol for each of a duplicate-free list of
    definitions, with the name of any length, value and section it has in the
    linker; with /debug:symtab every definition of the objects that has a place in
    the output is listed, import thunks with the symbols they wrap. *)
Theorem image_symbols_roundtrip (cfg : config) (hc : header_config) (relocChunks : list (lchunk * Z) -> list lchunk) (secs : list osection)
    (dirs : directories) (textSec : osection) (defined : nat -> option out_def) (writeSymtab : bool) (files : list (list nat))
    (getRVA : lchunk -> Z) (writeTo : lchunk -> Z -> mem -> mem) (entryThunkRVA : lchunk -> Z)
    (schedule : list lchunk -> list lchunk) (fillInt3 : bool) (data : lchunk -> list Z)
    (Hin : writer_input_ok cfg hc relocChunks secs getRVA) (Hco : contents_ok writeTo schedule data)
    (Hsize : run_size cfg relocChunks secs defined writeSymtab files < 2 ^ 32)
    (Hnames : forall id d, defined id = Some d -> no_nul (y_name d) /\ y_name d <> "") :
  exists M f ids,
    run_image cfg hc relocChunks secs dirs textSec defined writeSymtab files getRVA writeTo entryThunkRVA schedule fillInt3 = Some M /\
    initialize (run_size cfg relocChunks secs defined writeSymtab files) M = Some f /\
    NoDup ids /\ ci_numberOfSymbols f = Z.of_nat (length ids) /\
    (forall i id, ids !! i = Some id ->
       exists d, defined id = Some d /\ isRuntimePseudoReloc d = false /\ symbol_shown f M i d) /\
    (writeSymtab = true -> forall id d, id ∈ concat files -> defined id = Some d -> skipped d = false ->
       placed_symbol d -> id ∈ ids).
Proof.
  destruct (run_written cfg hc relocChunks secs dirs textSec defined writeSymtab files getRVA writeTo entryThunkRVA schedule fillInt3
    data Hin Hco Hsize) as (M & E & Hw & Hs & Ei).
  destruct (run_symbols cfg hc relocChunks secs dirs textSec defined writeSymtab files getRVA writeTo entryThunkRVA schedule fillInt3
    data Hin Hco Hsize M Hw Hnames) as (ids & H).
  by eexists M, _, ids.
Qed.

(** C40: the checksum in the header is the file's length added to the RFC 1071 sum
    of its 16-bit words (the odd byte last), as adding them one by one with
    end-around carry gives it: neither the 64-bit sum nor its folding loses a
    carry for a file below 4 GiB; and nothing but the field changes. *)
Theorem pe_checksum_rfc1071 (stub : option (list Z)) (size : Z) (m : mem) (Hm : mem_ok m) (Hs : 0 <= size < 2 ^ 32) :
  let M := writePEChecksum true stub size m in
  read32le M (checkSumOffset stub) = u32 (oc_sum (words_of (bytes_at m 0 (Z.to_nat size))) + size) /\
  forall x, x < checkSumOffset stub \/ checkSumOffset stub + 4 <= x -> M x = m x.
Proof.
  cbn zeta. split; [|intros x; apply writePEChecksum_other]. unfold writePEChecksum. rewrite read_write, (wrap_small 32 size) by (split; lia).
  rewrite pe_checksum_sum by done. change (8 * Z.of_nat 4) with 32. unfold wrap. by rewrite Z.mod_mod.
Qed.

(** ** A small image *)

Definition demo_text : osection :=
  mk_section ".text" 0x60000020 [mk_chunk 0 16 100 true;
    {| c_id := 1; c_align := 16; c_size := 33; c_hasData := true; c_isSection := true; c_hotPatchable := false;
       c_entryThunk := true; c_amd64 := false; c_range := None; c_object := ""; c_sectionNumber := 1 |}].
Definition demo_image_sections : list osection :=
  [demo_text; mk_section ".data" 0xC0000040 [mk_chunk 2 8 20 true; mk_chunk 3 4096 700 false];
   mk_section ".debug_info" 0x42000040 [mk_chunk 5 1 30 true]; mk_section ".reloc" 0x42000040 []].

Definition demo_data (c : lchunk) : list Z :=
  if c_hasData c then map (fun k => Z.of_nat (7 * c_id c + 3 * k) mod 256) (seq 0 (Z.to_nat (c_size c))) else [].
Definition demo_writeTo (c : lchunk) (buf : Z) (m : mem) : mem := memcpy m buf (demo_data c).

Lemma demo_contents_ok : contents_ok demo_writeTo (@rev lchunk) demo_data.
Proof.
  split; [intros l; symmetry; apply Permutation_rev| |done]. intros c. unfold demo_data, len. destruct (c_hasData c); [|done].
  rewrite length_map, length_seq. lia.
Qed.

Definition demo_layout : layout := (assignAddresses (mk_config []) demo_relocs demo_image_sections).1.
Definition demo_rva (c : lchunk) : Z :=
  default 0 (snd <$> List.find (fun p => Nat.eqb (c_id p.1) (c_id c)) (l_rvas demo_layout)).

Definition demo_header : header_config :=
  {| dosStub := None; hc_machine := 0x8664; hc_isARMNT := false; largeAddressAware := true; dll := false; driverUponly := false;
     relocatable := true; swaprunCD := false; swaprunNet := false; hc_imageBase := 0x140000000; majorImageVersion := 0;
     minorImageVersion := 0; majorOSVersion := 6; minorOSVersion := 0; majorSubsystemVersion := 6; minorSubsystemVersion := 0;
     subsystem := 3; entryRVA := Some 0x1000; stackReserve := 0x100000; stackCommit := 0x1000; heapReserve := 0x100000;
     heapCommit := 0x1000; appContainer := false; driverWdm := false; dynamicBase := true; highEntropyVA := true;
     allowBind := true; nxCompat := true; allowIsolation := true; guardCF_on := false; integrityCheck := false; noSEH := false;
     terminalServerAware := true |}.
Definition demo_dirs : directories :=
  {| dd_edata := None; dd_import := Some (0x2000, 40); dd_iat := None; dd_rsrc := (0, 0); dd_exception := None;
     dd_reloc := (0x4000, 12); dd_dynamicRelocs := None; dd_tls := None; dd_debug := None; dd_loadConfig := None; dd_delay := None |}.

Definition demo_def (name : string) (rva : Z) (coff : option (Z * Z * bool)) (w : option nat) : out_def :=
  {| y_name := name; y_loc := InChunk rva (Some (0x1000, 1)); isRuntimePseudoReloc := false; y_coff := coff; wrappedSym := w |}.
Definition demo_defined (id : nat) : option out_def :=
  match id with
  | 0%nat => Some (demo_def "main" 0x1000 (Some (0x20, 2, false)) None)
  | 1%nat => Some (demo_def "__imp_a_long_function" 0x1080 None (Some 2%nat))
  | 2%nat => Some (demo_def "a_long_function" 0x1080 None None)
  | 3%nat => Some (demo_def ".text" 0x1000 (Some (0, 3, true)) None)
  | _ => None
  end.
Definition demo_files : list (list nat) := [[3; 0]; [1; 0]]%nat.

Lemma demo_input_ok : writer_input_ok (mk_config []) demo_header demo_relocs demo_image_sections demo_rva.
Proof.
  split; try (by vm_compute).
  - split; [repeat constructor; vm_compute; discriminate|]. intros r. repeat constructor; vm_compute; discriminate.
  - apply (bool_decide_unpack _). by vm_compute.
  - apply (bool_decide_unpack _). by vm_compute.
  - apply (bool_decide_unpack _). by vm_compute.
Qed.

Lemma demo_small : run_size (mk_config []) demo_relocs demo_image_sections demo_defined true demo_files < 2 ^ 32.
Proof. by vm_compute. Qed.

Lemma image_loads_witness : exists M f,
  initialize 3584 M = Some f /\ map_image f M 1024 0x1000 = 0 /\ map_image f M 1024 0x1005 = 15.
Proof.
  destruct (image_loads (mk_config []) demo_header demo_relocs demo_image_sections demo_dirs demo_text demo_defined true demo_files
    demo_rva demo_writeTo (fun _ => 0x1000) (@rev lchunk) true demo_data demo_input_ok demo_contents_ok demo_small)
    as (M & f & _ & Ei & H).
  exists M, f. assert (E1 : run_size (mk_config []) demo_relocs demo_image_sections demo_defined true demo_files = 3584) by (vm_compute; reflexivity).
  rewrite E1 in Ei. split; [exact Ei|]. destruct (H (mk_chunk 0 16 100 true) 0x1000) as [Hk _]; [by apply list_elem_of_In; vm_compute; left|].
  split; [exact (Hk 0 ltac:(cbn; lia))|exact (Hk 5 ltac:(cbn; lia))].
Defined.

Lemma image_headers_roundtrip_witness : exists M f,
  initialize 3584 M = Some f /\ ci_is64 f = true /\
  map (getSectionName f M) (sections_of f M) = [Some ".text"; Some ".data"; Some ".debug_info"; Some ".reloc"].
Proof.
  destruct (image_headers_roundtrip (mk_config []) demo_header demo_relocs demo_image_sections demo_dirs demo_text demo_defined true
    demo_files demo_rva demo_writeTo (fun _ => 0x1000) (@rev lchunk) true demo_data demo_input_ok demo_contents_ok demo_small)
    as (M & f & _ & Ei & H).
  - apply Forall_forall. intros s Hs. assert (Hn : os_name s ∈ [".text"; ".data"; ".debug_info"; ".reloc"]).
    { change [".text"; ".data"; ".debug_info"; ".reloc"] with (os_name <$> run_sections (mk_config []) demo_relocs demo_image_sections).
      by apply (list_elem_of_fmap_2 os_name). }
    split; [|intros _]; repeat (apply elem_of_cons in Hn as [->|Hn]; [by repeat constructor|]); by apply elem_of_nil in Hn.
  - exists M, f. assert (E1 : run_size (mk_config []) demo_relocs demo_image_sections demo_defined true demo_files = 3584) by (vm_compute; reflexivity).
    rewrite E1 in Ei. cbn zeta in H. destruct H as (H1 & _ & _ & _ & _ & H2). split_and!; [exact Ei|exact H1|]. rewrite H2. vm_compute. reflexivity.
Defined.

Lemma image_symbols_roundtrip_witness : exists M f i j,
  initialize 3584 M = Some f /\ getSymbolName f M i = Some "main" /\ getSymbolName f M j = Some "__imp_a_long_function".
Proof.
  destruct (image_symbols_roundtrip (mk_config []) demo_header demo_relocs demo_image_sections demo_dirs demo_text demo_defined true
    demo_files demo_rva demo_writeTo (fun _ => 0x1000) (@rev lchunk) true demo_data demo_input_ok demo_contents_ok demo_small)
    as (M & f & ids & _ & Ei & _ & _ & Hs & Hc).
  - intros [|[|[|[|id]]]] d [= <-]; (split; [by repeat constructor|done]).
  - assert (E1 : run_size (mk_config []) demo_relocs demo_image_sections demo_defined true demo_files = 3584) by (vm_compute; reflexivity).
    rewrite E1 in Ei.
    assert (Hin0 : 0%nat ∈ ids).
    { refine (Hc eq_refl 0%nat _ _ eq_refl eq_refl (conj _ eq_refl)); [right; left|discriminate]. }
    assert (Hin1 : 1%nat ∈ ids).
    { refine (Hc eq_refl 1%nat _ _ eq_refl eq_refl (conj _ eq_refl)); [right; right; left|discriminate]. }
    apply list_elem_of_lookup in Hin0 as [i Hi]. apply list_elem_of_lookup in Hin1 as [j Hj].
    destruct (Hs i _ Hi) as (d & [= <-] & _ & Hd & _). destruct (Hs j _ Hj) as (d' & [= <-] & _ & Hd' & _).
    exists M, f, i, j. split_and!; [exact Ei|exact Hd|exact Hd'].
Defined.

Lemma pe_checksum_rfc1071_witness :
  read32le (writePEChecksum true None 511 (fun _ => 255)) (checkSumOffset None) = 0xff + 511.
Proof.
  destruct (pe_checksum_rfc1071 None 511 (fun _ => 255)) as [H _]; [intros a; split; done|done|]. rewrite H. vm_compute. reflexivity.
Defined.
