(* ===== verification/Tables.v ===== *)
(** * Tables the operating system searches (lld/COFF/Writer.cpp, Chunks.cpp)

    The tables of valid call targets of control flow guard and of exception
    handlers of /safeseh, and the exception table that is sorted after it is written. *)

From S2P Require Import Prelude Memory Reloc.

#[local] Open Scope string_scope.
#[local] Open Scope list_scope.
#[local] Open Scope Z_scope.

(** ** Chunks and symbols *)

Record gchunk := {
  gc_isSection : bool;
  gc_live : bool;
  gc_executable : bool;
  gc_align : Z;
  gc_repl : nat;
  gc_rva : Z
}.

(** [Symbol] by kind, with what the tables use of it: [GRegular] is its section,
    its value and whether its COFF type is a function; [GSynthetic] its chunk and
    offset and, where the chunk is an [ECExportThunkChunk], that one's target. *)
Inductive gsym :=
| GLocalImport (c : nat)
| GImportData (location : nat) (fileLive : bool) (loadThunkSym : option nat)
| GCommon (c : nat)
| GAbsolute
| GSynthetic (c : option nat) (offset : Z) (expTarget : option nat)
| GNotDefined
| GImportThunk (c : nat)
| GRegular (c : nat) (value : Z) (isFunction : bool).

Definition rva_set : Type := gset (nat * Z).

Inductive gwarning := IgnoringSection (name : string) | InvalidIndex (name : string).

(** A section of symbol table indices. *)
Record index_section := {
  ix_name : string;
  ix_live : bool;
  ix_contents : list Z
}.

Record guard_file := {
  hasGuardCF : bool;
  hasGuardEHCont : bool;
  hasSafeSEH : bool;
  gf_symbols : list (option nat);
  gf_chunks : list (bool * bool * list (Z * nat));  (* SectionChunk, live, relocations: type and symbol *)
  getGuardFidChunks : list index_section;
  getGuardIATChunks : list index_section;
  getGuardLJmpChunks : list index_section;
  getGuardEHContChunks : list index_section;
  getSXDataChunks : list index_section
}.

(** Entries of a table of little-endian words. *)
Fixpoint words32 (bs : list Z) : list Z :=
  match bs with
  | a :: b :: c :: d :: bs => le_value [a; b; c; d] :: words32 bs
  | _ => []
  end.

Section Marking.
  Context (heap : nat -> gchunk) (symbols : nat -> gsym).

(** [getChunk] and [getRVA] of a [Defined]; [None] for any other symbol. *)
Definition place_of (s : gsym) : option (option nat * Z) :=
  match s with
  | GLocalImport c | GImportData c _ _ | GCommon c | GImportThunk c => Some (Some c, gc_rva (heap c))
  | GAbsolute => Some (None, 0)
  | GSynthetic (Some c) off _ => Some (Some c, u32 (gc_rva (heap c) + off))
  | GSynthetic None _ _ => Some (None, 0)
  | GRegular c v _ => let r := gc_repl (heap c) in Some (Some r, gc_rva (heap r) + v)
  | GNotDefined => None
  end.

Definition isLive (s : gsym) : bool :=
  match s with
  | GRegular c _ _ => gc_live (heap (gc_repl (heap c)))
  | GImportData _ live _ => live
  | GImportThunk c => gc_live (heap c)
  | _ => true
  end.

(** [None]: [cast<Defined>] of a symbol that is not. *)
Definition addSymbolToRVASet (rvaSet : rva_set) (s : gsym) : option rva_set :=
  '(c, rva) ← place_of s;
  match c with
  | None => Some rvaSet
  | Some c =>
      let c := if gc_isSection (heap c) then gc_repl (heap c) else c in
      Some ({[ (c, u32 (rva - gc_rva (heap c))) ]} ∪ rvaSet)
  end.

Definition maybeAddAddressTakenFunction (addressTakenSyms : rva_set) (o : option nat) : option rva_set :=
  match o with
  | None => Some addressTakenSyms
  | Some id =>
      match symbols id with
      | GLocalImport _ | GImportData _ _ _ | GCommon _ | GAbsolute | GNotDefined => Some addressTakenSyms
      | GSynthetic _ _ None => Some addressTakenSyms
      | GSynthetic _ _ (Some target) =>
          rs ← addSymbolToRVASet addressTakenSyms (symbols id); addSymbolToRVASet rs (symbols target)
      | GImportThunk _ => addSymbolToRVASet addressTakenSyms (symbols id)
      | GRegular c _ isFunction =>
          let sc := heap (gc_repl (heap c)) in
          if isFunction && (gc_live sc && gc_executable sc) then addSymbolToRVASet addressTakenSyms (symbols id)
          else Some addressTakenSyms
      end
  end.

(** A loop that may fail. *)
Definition fold_opt {A B} (f : B -> A -> option B) (l : list A) (b : B) : option B :=
  fold_left (fun o a => b ← o; f b a) l (Some b).

(** A symbol index out of range is undefined behaviour ([None]). *)
Definition markSymbolsWithRelocations (isI386 : bool) (file : guard_file) (usedSymbols : rva_set) : option rva_set :=
  fold_opt (fun rs (c : bool * bool * list (Z * nat)) =>
    let '(isSection, live, relocs) := c in
    if negb isSection || negb live then Some rs
    else fold_opt (fun rs (r : Z * nat) =>
           if isI386 && (r.1 =? IMAGE_REL_I386_REL32) then Some rs
           else ref ← gf_symbols file !! r.2; maybeAddAddressTakenFunction rs ref) relocs rs) (gf_chunks file) usedSymbols.

(** One section of indices: the symbols, and the warnings. *)
Definition section_symbols (file : guard_file) (c : index_section) : list nat * list gwarning :=
  if negb (ix_live c) then ([], [])
  else if negb (Z.of_nat (length (ix_contents c)) mod 4 =? 0) then ([], [IgnoringSection (ix_name c)])
  else fold_left (fun st symIndex =>
         match gf_symbols file !! Z.to_nat symIndex with
         | None => (st.1, st.2 ++ [InvalidIndex (ix_name c)])
         | Some None => st
         | Some (Some s) => if isLive (symbols s) then (st.1 ++ [s], st.2) else st
         end) (words32 (ix_contents c)) ([], []).

Definition getSymbolsFromSections (file : guard_file) (symIdxChunks : list index_section) (syms : list nat)
    : list nat * list gwarning :=
  fold_left (fun st c => let r := section_symbols file c in (st.1 ++ r.1, st.2 ++ r.2)) symIdxChunks (syms, []).

Definition markSymbolsForRVATable (file : guard_file) (symIdxChunks : list index_section) (tableSymbols : rva_set)
    : option rva_set :=
  fold_opt (fun rs s => addSymbolToRVASet rs (symbols s)) (getSymbolsFromSections file symIdxChunks []).1 tableSymbols.

(** ** Control flow guard *)

Record guard_sets := {
  addressTakenSyms : rva_set;
  giatsRVASet : rva_set;
  giatsSymbols : list nat;
  longJmpTargets : rva_set;
  ehContTargets : rva_set
}.

Definition guard_file_step (isI386 : bool) (g : guard_sets) (file : guard_file) : option guard_sets :=
  g ← (if hasGuardCF file then
         fids ← markSymbolsForRVATable file (getGuardFidChunks file) (addressTakenSyms g);
         iat ← markSymbolsForRVATable file (getGuardIATChunks file) (giatsRVASet g);
         ljmp ← markSymbolsForRVATable file (getGuardLJmpChunks file) (longJmpTargets g);
         Some {| addressTakenSyms := fids; giatsRVASet := iat;
                 giatsSymbols := (getSymbolsFromSections file (getGuardIATChunks file) (giatsSymbols g)).1;
                 longJmpTargets := ljmp; ehContTargets := ehContTargets g |}
       else
         fids ← markSymbolsWithRelocations isI386 file (addressTakenSyms g);
         Some {| addressTakenSyms := fids; giatsRVASet := giatsRVASet g; giatsSymbols := giatsSymbols g;
                 longJmpTargets := longJmpTargets g; ehContTargets := ehContTargets g |});
  if hasGuardEHCont file then
    eh ← markSymbolsForRVATable file (getGuardEHContChunks file) (ehContTargets g);
    Some {| addressTakenSyms := addressTakenSyms g; giatsRVASet := giatsRVASet g; giatsSymbols := giatsSymbols g;
            longJmpTargets := longJmpTargets g; ehContTargets := eh |}
  else Some g.

(** The entry and the exports of a symbol table. *)
Record symtab_roots := {
  sr_entry : option nat;
  sr_exports : list (option nat)
}.

Definition mark_roots (rs : rva_set) (T : symtab_roots) : option rva_set :=
  rs ← maybeAddAddressTakenFunction rs (sr_entry T); fold_opt maybeAddAddressTakenFunction (sr_exports T) rs.

Definition mark_load_thunk (rs : rva_set) (s : nat) : option rva_set :=
  match symbols s with
  | GImportData _ _ (Some t) => addSymbolToRVASet rs (symbols t)
  | _ => Some rs
  end.

Definition guard_marks (isI386 : bool) (files : list guard_file) (symtabs : list symtab_roots) : option guard_sets :=
  g ← fold_opt (guard_file_step isI386) files
        {| addressTakenSyms := ∅; giatsRVASet := ∅; giatsSymbols := []; longJmpTargets := ∅; ehContTargets := ∅ |};
  fids ← fold_opt mark_roots symtabs (addressTakenSyms g);
  fids ← fold_opt mark_load_thunk (giatsSymbols g) fids;
  Some {| addressTakenSyms := fids; giatsRVASet := giatsRVASet g; giatsSymbols := giatsSymbols g;
          longJmpTargets := longJmpTargets g; ehContTargets := ehContTargets g |}.

(** A table and the value of its count symbol. *)
Record rva_table := {
  tableSyms : rva_set;
  tableCount : Z
}.

Definition RVATableChunk_getSize (syms : rva_set) : Z := 4 * Z.of_nat (size syms).

Definition maybeAddRVATable (tableSymbols : rva_set) : option rva_table :=
  if bool_decide (tableSymbols = ∅) then None
  else Some {| tableSyms := tableSymbols; tableCount := RVATableChunk_getSize tableSymbols / 4 |}.

Definition guardCF_LongJmp := 0x2.
Definition guardCF_EHCont := 0x4.
Definition CF_INSTRUMENTED := 0x100.
Definition CF_FUNCTION_TABLE_PRESENT := 0x400.
Definition CF_LONGJUMP_TABLE_PRESENT := 0x10000.
Definition EH_CONTINUATION_TABLE_PRESENT := 0x400000.

Definition has_bit (v b : Z) : bool := negb ((v &&& b) =? 0).

(** Sections that the table refers to are aligned to 16. *)
Definition align_targets (rs : rva_set) (id : nat) : gchunk :=
  let c := heap id in
  if bool_decide (id ∈ (set_map fst rs : gset nat)) && (gc_align c <? 16)
  then {| gc_isSection := gc_isSection c; gc_live := gc_live c; gc_executable := gc_executable c; gc_align := 16;
          gc_repl := gc_repl c; gc_rva := gc_rva c |}
  else c.

(** [__guard_flags] when it is set, the chunks, and the tables that are added. *)
Record guard_result := {
  guardFlags : option Z;
  gr_heap : nat -> gchunk;
  gr_fids : option rva_table;
  gr_iat : option rva_table;
  gr_longjmp : option rva_table;
  gr_ehcont : option rva_table
}.

Definition createGuardCFTables (isI386 : bool) (guardCF : Z) (files : list guard_file) (symtabs : list symtab_roots)
    : option guard_result :=
  if guardCF =? 0 then
    Some {| guardFlags := if existsb hasGuardCF files then Some CF_INSTRUMENTED else None; gr_heap := heap;
            gr_fids := None; gr_iat := None; gr_longjmp := None; gr_ehcont := None |}
  else
    g ← guard_marks isI386 files symtabs;
    let longJmp := has_bit guardCF guardCF_LongJmp in
    let ehCont := has_bit guardCF guardCF_EHCont in
    Some {| guardFlags := Some (CF_INSTRUMENTED ||| CF_FUNCTION_TABLE_PRESENT |||
              (if longJmp then CF_LONGJUMP_TABLE_PRESENT else 0) ||| (if ehCont then EH_CONTINUATION_TABLE_PRESENT else 0));
            gr_heap := align_targets (addressTakenSyms g);
            gr_fids := maybeAddRVATable (addressTakenSyms g);
            gr_iat := maybeAddRVATable (giatsRVASet g);
            gr_longjmp := if longJmp then maybeAddRVATable (longJmpTargets g) else None;
            gr_ehcont := if ehCont then maybeAddRVATable (ehContTargets g) else None |}.

(** ** Safe exception handlers *)

(** The table, [setNoSEHCharacteristic], and the indices of the files that are
    not compatible. *)
Definition createSEHTable (loadConfigUsed : bool) (files : list guard_file)
    : option (option rva_table * bool * list nat) :=
  handlers ← fold_opt (fun rs file => markSymbolsForRVATable file (getSXDataChunks file) rs) files ∅;
  Some (maybeAddRVATable handlers, bool_decide (handlers = ∅) || negb loadConfigUsed,
        map fst (List.filter (fun p : nat * guard_file => negb (hasSafeSEH p.2)) (combine (seq 0 (length files)) files))).

End Marking.

(** ** The contents of a table *)

(** The words from [p] on. *)
Fixpoint put_words (p : Z) (ws : list Z) (m : mem) : mem :=
  match ws with
  | [] => m
  | w :: ws => put_words (p + 4) ws (write32le m p w)
  end.

Definition sort_words (ws : list Z) : list Z := stable_sort Z.ltb ws.

(** The chunks' RVAs are final when it is written. *)
Definition table_rvas (heap : nat -> gchunk) (syms : rva_set) : list Z :=
  map (fun co => u32 (gc_rva (heap co.1) + co.2)) (elements syms).

Definition RVATableChunk_writeTo (heap : nat -> gchunk) (syms : rva_set) (buf : Z) (m : mem) : mem :=
  put_words buf (sort_words (table_rvas heap syms)) m.

(** Each word with a zero flag byte. *)
Fixpoint put_flagged (p : Z) (ws : list Z) (m : mem) : mem :=
  match ws with
  | [] => m
  | w :: ws => put_flagged (p + 5) ws (write 1 (write32le m p w) (p + 4) 0)
  end.

Definition RVAFlagTableChunk_writeTo (heap : nat -> gchunk) (syms : rva_set) (buf : Z) (m : mem) : mem :=
  put_flagged buf (sort_words (table_rvas heap syms)) m.

(** ** The exception table *)

(** Entries of [n] bytes. *)
Fixpoint entries_at (m : mem) (p : Z) (n : nat) (count : nat) : list (list Z) :=
  match count with
  | O => []
  | S count => bytes_at m p n :: entries_at m (p + Z.of_nat n) n count
  end.

Definition entry_begin (e : list Z) : Z := le_value (take 4 e).

Inductive sorted_table := Sorted (m : mem) | UnexpectedSize (n : Z).

Section ExceptionTable.
  (** [parallelSort] by [begin]; entries with one [begin] may come in any order. *)
  Context (parallelSort : list (list Z) -> list (list Z)).

(** [range]: the file offsets of the first chunk and of the end of the last. *)
Definition sortExceptionTable (entrySize : nat) (range : option (Z * Z)) (m : mem) : sorted_table :=
  match range with
  | None => Sorted m
  | Some (first, last) =>
      let size := last - first in
      if negb (size mod Z.of_nat entrySize =? 0) then UnexpectedSize size
      else Sorted (memcpy m first (concat (parallelSort (entries_at m first entrySize (Z.to_nat (size / Z.of_nat entrySize))))))
  end.

Inductive pdata_machine := PdataAMD64 | PdataARM64EC | PdataARM64X | PdataARMNT | PdataARM64 | PdataOther.

Definition sortExceptionTables (machine : pdata_machine) (pdata hybridPdata : option (Z * Z)) (m : mem) : sorted_table :=
  match machine with
  | PdataAMD64 => sortExceptionTable 12 pdata m
  | PdataARM64EC | PdataARM64X =>
      match sortExceptionTable 12 hybridPdata m with
      | Sorted m => sortExceptionTable 8 pdata m
      | e => e
      end
  | PdataARMNT | PdataARM64 => sortExceptionTable 8 pdata m
  | PdataOther => Sorted m
  end.

End ExceptionTable.

(** ** Searching a sorted table *)

(** The last index in [lo, hi) whose key is at most [k], or [lo - 1]. *)
Fixpoint last_le (fuel : nat) (key : Z -> Z) (lo hi k : Z) : Z :=
  match fuel with
  | O => lo - 1
  | S fuel =>
      if hi <=? lo then lo - 1
      else
        let mid := (lo + hi) / 2 in
        if key mid <=? k then last_le fuel key (mid + 1) hi k else last_le fuel key lo mid k
  end.

Definition search (key : Z -> Z) (n k : Z) : Z := last_le (S (Z.to_nat n)) key 0 n k.

(** The check of an indirect call: is the target in the table of [count] RVAs? *)
Definition guard_check (m : mem) (table count target : Z) : bool :=
  let i := search (fun i => read32le m (table + 4 * i)) count target in
  (0 <=? i) && (read32le m (table + 4 * i) =? target).

(** The entry of the function at [pc] in a table of x64 entries ([begin], [end],
    [unwind]). *)
Definition lookup_function (m : mem) (table count pc : Z) : option Z :=
  let i := search (fun i => read32le m (table + 12 * i)) count pc in
  if (0 <=? i) && (pc <? read32le m (table + 12 * i + 4)) then Some (table + 12 * i) else None.
