(* ===== verification/TablesProps.v ===== *)
(** * The tables are found by searching them (theorems on Tables.v) *)

From S2P Require Import Prelude Memory Reloc Tables.

#[local] Open Scope string_scope.
#[local] Open Scope list_scope.
#[local] Open Scope Z_scope.

(** ** Searching *)

Definition ascending (key : Z -> Z) (lo hi : Z) : Prop := forall i j, lo <= i <= j -> j < hi -> key i <= key j.

Lemma last_le_spec fuel key lo hi k : ascending key lo hi -> lo <= hi -> hi - lo < Z.of_nat fuel ->
  let r := last_le fuel key lo hi k in
  lo - 1 <= r < hi /\ (forall i, lo <= i <= r -> key i <= k) /\ (forall i, r < i < hi -> k < key i).
Proof.
  revert lo hi. induction fuel as [|fuel IH]; intros lo hi Ha Hle Hf; [lia|]. cbn [last_le].
  destruct (Z.leb_spec hi lo); [split_and!; intros; lia|].
  pose proof (Z.div_mod (lo + hi) 2 ltac:(lia)) as Hm. pose proof (Z.mod_pos_bound (lo + hi) 2 ltac:(lia)).
  cbn zeta. set (mid := (lo + hi) / 2) in *. destruct (Z.leb_spec (key mid) k) as [Hk|Hk].
  - destruct (IH (mid + 1) hi) as (H1 & H2 & H3); [intros i j ? ?; apply Ha; lia|lia|lia|].
    split_and!; [lia|lia| |done]. intros i Hi. destruct (Z.le_gt_cases i mid); [|apply H2; lia].
    specialize (Ha i mid ltac:(lia) ltac:(lia)). lia.
  - destruct (IH lo mid) as (H1 & H2 & H3); [intros i j ? ?; apply Ha; lia|lia|lia|].
    split_and!; [lia|lia|done|]. intros i Hi. destruct (Z.lt_ge_cases i mid); [apply H3; lia|].
    specialize (Ha mid i ltac:(lia) ltac:(lia)). lia.
Qed.

Lemma search_spec key n k : ascending key 0 n -> 0 <= n ->
  let r := search key n k in
  -1 <= r < n /\ (forall i, 0 <= i <= r -> key i <= k) /\ (forall i, r < i < n -> k < key i).
Proof. intros Ha Hn. apply (last_le_spec _ key 0 n k Ha); lia. Qed.

(** A key is found when it is there. *)
Lemma search_found key n k : ascending key 0 n -> 0 <= n ->
  ((0 <=? search key n k) && (key (search key n k) =? k) = true <-> exists i, 0 <= i < n /\ key i = k).
Proof.
  intros Ha Hn. destruct (search_spec key n k Ha Hn) as (H1 & H2 & H3). set (r := search key n k) in *.
  rewrite andb_true_iff, Z.leb_le, Z.eqb_eq. split; [intros [? ?]; exists r; lia|]. intros (i & Hi & E).
  destruct (Z.lt_ge_cases r i) as [Hlt|Hge]; [specialize (H3 i ltac:(lia)); lia|].
  split; [lia|]. specialize (H2 r ltac:(lia)). specialize (Ha i r ltac:(lia) ltac:(lia)). lia.
Qed.

(** ** Words in memory *)

Lemma put_words_other p ws m x : x < p \/ p + 4 * Z.of_nat (length ws) <= x -> put_words p ws m x = m x.
Proof.
  revert p m. induction ws as [|w ws IH]; intros p m Hx; [done|]. cbn [put_words length] in *.
  rewrite IH by lia. apply write_other. lia.
Qed.

Lemma read_put_words p ws m i w : ws !! i = Some w -> read32le (put_words p ws m) (p + 4 * Z.of_nat i) = u32 w.
Proof.
  revert p m i. induction ws as [|v ws IH]; intros p m i Hi; [done|]. cbn [put_words]. destruct i as [|i]; cbn in Hi.
  - simplify_eq. rewrite Z.mul_0_r, Z.add_0_r. transitivity (read32le (write32le m p w) p); [|apply read_write].
    apply read_ext. intros k Hk. apply put_words_other. lia.
  - rewrite <- (IH (p + 4) (write32le m p v) i Hi). f_equal. lia.
Qed.

#[export] Instance ltb_strict_weak : StrictWeak Z.ltb.
Proof. split; intros *; rewrite ?Z.ltb_irrefl, ?Z.ltb_lt, ?Z.ltb_ge; try done; lia. Qed.

Lemma sorted_words ws i j a b : (i <= j)%nat -> sort_words ws !! i = Some a -> sort_words ws !! j = Some b -> a <= b.
Proof.
  intros Hij Ha Hb. pose proof (stable_sort_sorted Z.ltb ws) as Hs. fold (sort_words ws) in Hs.
  destruct (decide (i = j)) as [->|]; [simplify_eq; lia|].
  enough (sorted_le Z.ltb a b) as Hle by (unfold sorted_le in Hle; lia).
  revert i j Ha Hb Hij n. induction Hs as [|x l Hs IH Hx]; intros i j Ha Hb Hij Hne; [done|].
  destruct i as [|i], j as [|j]; cbn in *; try lia; simplify_eq.
  - rewrite Forall_lookup in Hx. by eapply Hx.
  - by eapply (IH i j); [..|lia|lia].
Qed.

(** ** The table of call targets *)

Lemma fold_opt_cons {A B} (f : B -> A -> option B) a l b : fold_opt f (a :: l) b = (b ← f b a; fold_opt f l b).
Proof.
  unfold fold_opt. cbn [fold_left mbind option_bind]. destruct (f b a) as [c|]; [done|]. cbn.
  induction l; [done|]. by cbn.
Qed.

(** What a loop collects: what was there and what each step adds. *)
Lemma fold_opt_collects {A B X} (f : B -> A -> option B) (S : B -> X -> Prop) (P : A -> X -> Prop) l b b' :
  (forall a b b1, a ∈ l -> f b a = Some b1 -> forall x, S b1 x <-> S b x \/ P a x) ->
  fold_opt f l b = Some b' -> forall x, S b' x <-> S b x \/ exists a, a ∈ l /\ P a x.
Proof.
  revert b. induction l as [|a l IH]; intros b Hf E x.
  - unfold fold_opt in E. cbn in E. simplify_eq. split; [by left|]. intros [?|(? & ?%elem_of_nil & _)]; done.
  - rewrite fold_opt_cons in E. destruct (f b a) as [b1|] eqn:E1; [|done]. cbn in E.
    rewrite (IH b1) by (done || (intros a' b2 b3 Ha'; apply Hf; by right)). rewrite (Hf a b b1) by (done || by left).
    split.
    + intros [[?|?]|(a' & ? & ?)]; [by left|right; exists a; split; [by left|done]|right; exists a'; split; [by right|done]].
    + intros [?|(a' & [->|Ha']%elem_of_cons & ?)]; [left; by left|left; by right|right; by exists a'].
Qed.

Section Marks.
Context (heap : nat -> gchunk) (symbols : nat -> gsym).

(** The entry of a symbol that is added. *)
Definition mark_of (s : gsym) (x : nat * Z) : Prop :=
  exists c rva, place_of heap s = Some (Some c, rva) /\
    let c' := if gc_isSection (heap c) then gc_repl (heap c) else c in x = (c', u32 (rva - gc_rva (heap c'))).

Lemma add_symbol rs s rs' : addSymbolToRVASet heap rs s = Some rs' -> forall x, x ∈ rs' <-> x ∈ rs \/ mark_of s x.
Proof using Type.
  unfold addSymbolToRVASet, mark_of. destruct (place_of heap s) as [[[c|] rva]|]; cbn; [| |done]; intros [= <-] x.
  - rewrite elem_of_union, elem_of_singleton. split.
    + intros [->|?]; [right; by exists c, rva|by left].
    + intros [?|(c0 & rva0 & [= <- <-] & ->)]; [by right|by left].
  - split; [by left|]. by intros [?|(c0 & rva0 & ? & _)].
Qed.

(** The symbols that the reference to one marks: functions, thunks and, for an
    export thunk, its target. *)
Definition code_symbols (id : nat) : list nat :=
  match symbols id with
  | GSynthetic _ _ (Some target) => [id; target]
  | GImportThunk _ => [id]
  | GRegular c _ isFunction =>
      let sc := heap (gc_repl (heap c)) in if isFunction && (gc_live sc && gc_executable sc) then [id] else []
  | _ => []
  end.

Definition marked_by (ids : list nat) (x : nat * Z) : Prop := exists id, id ∈ ids /\ mark_of (symbols id) x.

Lemma maybe_add rs o rs' : maybeAddAddressTakenFunction heap symbols rs o = Some rs' ->
  forall x, x ∈ rs' <-> x ∈ rs \/ exists id, o = Some id /\ marked_by (code_symbols id) x.
Proof using Type.
  unfold maybeAddAddressTakenFunction. intros E x.
  assert (Hone : forall id rs1, addSymbolToRVASet heap rs (symbols id) = Some rs1 -> x ∈ rs1 <-> x ∈ rs \/ marked_by [id] x).
  { intros id rs1 H. rewrite (add_symbol _ _ _ H). split; (intros [?|H']; [by left|right]); [by exists id; split; [left|]|].
    by destruct H' as (i & ->%list_elem_of_singleton & ?). }
  assert (Hnone : forall id, code_symbols id = [] -> x ∈ rs <-> x ∈ rs \/ exists i, Some id = Some i /\ marked_by (code_symbols i) x).
  { intros id E0. split; [by left|]. intros [?|(i & [= <-] & i' & Hi & _)]; [done|]. rewrite E0 in Hi. by apply elem_of_nil in Hi. }
  assert (Hsome : forall id rs1, code_symbols id = [id] -> addSymbolToRVASet heap rs (symbols id) = Some rs1 ->
    x ∈ rs1 <-> x ∈ rs \/ exists i, Some id = Some i /\ marked_by (code_symbols i) x).
  { intros id rs1 E0 H. rewrite (Hone _ _ H). split; (intros [?|H']; [by left|right]); [by exists id; rewrite E0|].
    destruct H' as (i & [= <-] & ?). by rewrite <- E0. }
  destruct o as [id|]; [|simplify_eq; split; [by left|]; intros [?|(? & ? & _)]; done].
  destruct (symbols id) eqn:Es; simplify_eq; try (apply Hnone; unfold code_symbols; by rewrite Es).
  - destruct expTarget as [t|]; [|simplify_eq; apply Hnone; unfold code_symbols; by rewrite Es].
    destruct (addSymbolToRVASet _ rs _) as [rs1|] eqn:E1; [|done]. cbn in E.
    rewrite (add_symbol _ _ _ E), (add_symbol _ _ _ E1). rewrite <- Es. unfold code_symbols. split.
    + intros [[?|?]|?]; [by left|right; exists id; rewrite Es..]; (split; [done|]); [exists id|exists t]; (split; [|done]); set_solver.
    + intros [?|(i & [= <-] & i' & Hi & ?)]; [left; by left|]. rewrite Es in Hi.
      apply elem_of_cons in Hi as [->|Hi%list_elem_of_singleton]; [left; by right|right; by subst].
  - rewrite <- Es in E. apply (Hsome _ _ ltac:(unfold code_symbols; by rewrite Es) E).
  - destruct (_ && _) eqn:Ec.
    + rewrite <- Es in E. apply (Hsome _ _ ltac:(unfold code_symbols; by rewrite Es, Ec) E).
    + simplify_eq. apply Hnone. unfold code_symbols. by rewrite Es, Ec.
Qed.

(** The symbols that the sections of indices of a file list. *)
Definition listed_symbol (file : guard_file) (chunks : list index_section) (s : nat) : Prop :=
  exists c i, c ∈ chunks /\ ix_live c = true /\ Z.of_nat (length (ix_contents c)) mod 4 = 0 /\ i ∈ words32 (ix_contents c) /\
    gf_symbols file !! Z.to_nat i = Some (Some s) /\ isLive heap (symbols s) = true.

Lemma section_symbols_spec file c s : s ∈ (section_symbols heap symbols file c).1 <-> listed_symbol file [c] s.
Proof using Type.
  unfold section_symbols, listed_symbol. destruct (ix_live c) eqn:El; cbn [negb fst].
  2:{ split; [by intros ?%elem_of_nil|]. intros (c' & i & ->%list_elem_of_singleton & ? & _). congruence. }
  destruct (Z.eqb_spec (Z.of_nat (length (ix_contents c)) mod 4) 0) as [Em|Em]; cbn [negb fst].
  2:{ split; [by intros ?%elem_of_nil|]. by intros (c' & i & ->%list_elem_of_singleton & _ & ? & _). }
  assert (Hgen : forall ws st, s ∈ (fold_left (fun (st : list nat * list gwarning) symIndex =>
    match gf_symbols file !! Z.to_nat symIndex with
    | None => (st.1, st.2 ++ [InvalidIndex (ix_name c)])
    | Some None => st
    | Some (Some s) => if isLive heap (symbols s) then (st.1 ++ [s], st.2) else st
    end) ws st).1 <-> s ∈ st.1 \/ exists i, i ∈ ws /\ gf_symbols file !! Z.to_nat i = Some (Some s) /\ isLive heap (symbols s) = true).
  { induction ws as [|w ws IH]; intros st; cbn [fold_left].
    - split; [by left|]. intros [?|(? & ?%elem_of_nil & _)]; done.
    - rewrite IH. clear IH. set (P := fun i => gf_symbols file !! Z.to_nat i = Some (Some s) /\ isLive heap (symbols s) = true).
      assert (Hst : forall A : Prop, (A <-> s ∈ st.1 \/ P w) -> (A \/ (exists i, i ∈ ws /\ P i)) <-> s ∈ st.1 \/ exists i, i ∈ w :: ws /\ P i).
      { intros A HA. rewrite HA. split.
        - intros [[?|?]|(i & ? & ?)]; [by left|right; exists w; split; [by left|done]|right; exists i; split; [by right|done]].
        - intros [?|(i & [->|?]%elem_of_cons & ?)]; [left; by left|left; by right|right; by exists i]. }
      apply Hst. unfold P. destruct (gf_symbols file !! Z.to_nat w) as [[s'|]|]; cbn; [|naive_solver..].
      destruct (isLive heap (symbols s')) eqn:Elv; cbn; [rewrite elem_of_app, list_elem_of_singleton|]; naive_solver congruence. }
  rewrite Hgen. split.
  - intros [?%elem_of_nil|(i & ? & ? & ?)]; [done|]. exists c, i. split_and!; try done. by apply list_elem_of_singleton.
  - intros (c' & i & ->%list_elem_of_singleton & _ & _ & ? & ? & ?). right. by exists i.
Qed.

Lemma symbols_from_sections file l syms s : s ∈ (getSymbolsFromSections heap symbols file l syms).1 <-> s ∈ syms \/ listed_symbol file l s.
Proof using Type.
  unfold getSymbolsFromSections. set (f := fun (st : list nat * list gwarning) c => _).
  assert (Hgen : forall st, s ∈ (fold_left f l st).1 <-> s ∈ st.1 \/ listed_symbol file l s).
  { induction l as [|c l IH]; intros st; cbn [fold_left].
    - split; [by left|]. intros [?|(c & i & ?%elem_of_nil & _)]; done.
    - rewrite IH. subst f. cbn. rewrite elem_of_app, section_symbols_spec. unfold listed_symbol. split.
      + intros [[Hs|(c' & i & ->%list_elem_of_singleton & H)]|(c' & i & Hc & H)]; [by left|right..].
        * exists c, i. split; [by left|done].
        * exists c', i. split; [by right|done].
      + intros [Hs|(c' & i & [->|Hc]%elem_of_cons & H)]; [left; by left|left; right|right].
        * exists c, i. split; [by left|done].
        * by exists c', i. }
  apply Hgen.
Qed.

Lemma mark_table file l rs rs' : markSymbolsForRVATable heap symbols file l rs = Some rs' ->
  forall x, x ∈ rs' <-> x ∈ rs \/ exists s, listed_symbol file l s /\ mark_of (symbols s) x.
Proof using Type.
  intros E x. rewrite (fold_opt_collects _ (fun rs x => x ∈ (rs : rva_set)) (fun s x => mark_of (symbols s) x) _ _ _
    (fun s b b1 _ H => add_symbol _ _ _ H) E x).
  split; (intros [?|(s & Hs & ?)]; [by left|right; exists s; split; [|done]]).
  - apply symbols_from_sections in Hs as [?%elem_of_nil|?]; done.
  - apply symbols_from_sections. by right.
Qed.

(** The symbols that the relocations of a file refer to. *)
Definition relocated_symbol (isI386 : bool) (file : guard_file) (s : nat) : Prop :=
  exists relocs ty i, (true, true, relocs) ∈ gf_chunks file /\ (ty, i) ∈ relocs /\
    (isI386 && (ty =? IMAGE_REL_I386_REL32)) = false /\ gf_symbols file !! i = Some (Some s).

(** The relocations of one section. *)
Definition reloc_marks (isI386 : bool) (file : guard_file) (relocs : list (Z * nat)) (x : nat * Z) : Prop :=
  exists ty i s, (ty, i) ∈ relocs /\ (isI386 && (ty =? IMAGE_REL_I386_REL32)) = false /\
    gf_symbols file !! i = Some (Some s) /\ marked_by (code_symbols s) x.

Lemma mark_section isI386 file relocs rs rs' :
  fold_opt (fun rs (r : Z * nat) => if isI386 && (r.1 =? IMAGE_REL_I386_REL32) then Some rs
    else ref ← gf_symbols file !! r.2; maybeAddAddressTakenFunction heap symbols rs ref) relocs rs = Some rs' ->
  forall x, x ∈ rs' <-> x ∈ rs \/ reloc_marks isI386 file relocs x.
Proof using Type.
  intros E x.
  assert (Hstep : forall (r : Z * nat) (b b1 : rva_set), r ∈ relocs ->
    (if isI386 && (r.1 =? IMAGE_REL_I386_REL32) then Some b
     else ref ← gf_symbols file !! r.2; maybeAddAddressTakenFunction heap symbols b ref) = Some b1 ->
    forall x, x ∈ b1 <-> x ∈ b \/ ((isI386 && (r.1 =? IMAGE_REL_I386_REL32)) = false /\
      exists s, gf_symbols file !! r.2 = Some (Some s) /\ marked_by (code_symbols s) x)).
  { intros [ty i] b b1 _ E1 y. cbn in E1 |- *. destruct (isI386 && _) eqn:Et; [simplify_eq; naive_solver|].
    destruct (gf_symbols file !! i) as [ref|] eqn:Ei; [|done]. cbn in E1. rewrite (maybe_add _ _ _ E1).
    destruct ref as [s|]; naive_solver. }
  rewrite (fold_opt_collects _ (fun rs x => x ∈ (rs : rva_set)) _ _ _ _ Hstep E x). unfold reloc_marks.
  split; (intros [Hx|H]; [by left|right]).
  - destruct H as ([ty i] & Hr & Ht & s & Hs & Hm). by exists ty, i, s.
  - destruct H as (ty & i & s & Hr & Ht & Hs & Hm). exists (ty, i). split; [done|]. split; [done|]. by exists s.
Qed.

Lemma mark_relocations isI386 file rs rs' : markSymbolsWithRelocations heap symbols isI386 file rs = Some rs' ->
  forall x, x ∈ rs' <-> x ∈ rs \/ exists s, relocated_symbol isI386 file s /\ marked_by (code_symbols s) x.
Proof using Type.
  intros E x. unfold markSymbolsWithRelocations in E.
  match type of E with fold_opt ?f _ _ = _ => assert (Hstep : forall (c : bool * bool * list (Z * nat)) (b b1 : rva_set),
    c ∈ gf_chunks file -> f b c = Some b1 -> forall x, x ∈ b1 <-> x ∈ b \/ (c.1 = (true, true) /\ reloc_marks isI386 file c.2 x)) end.
  { intros [[b1 b2] relocs] b b' Hin E1 y. cbn in E1 |- *.
    destruct b1, b2; cbn in E1; try (simplify_eq; split; [by left|]; by intros [?|[[=] _]]).
    rewrite (mark_section _ _ _ _ _ E1 y). naive_solver. }
  rewrite (fold_opt_collects _ (fun rs x => x ∈ (rs : rva_set)) _ _ _ _ Hstep E x). unfold reloc_marks, relocated_symbol.
  split; (intros [Hx|H]; [by left|right]).
  - destruct H as ([[b1 b2] relocs] & Hc & [= -> ->] & ty & i & s & Hr & Ht & Hs & Hm). exists s. split; [|done]. by exists relocs, ty, i.
  - destruct H as (s & (relocs & ty & i & Hc & Hr & Ht & Hs) & Hm). exists (true, true, relocs). split; [done|]. split; [done|].
    by exists ty, i, s.
Qed.

(** The symbols whose address may be called: listed by objects compiled for the
    guard, referred to by the others, the entry, the exports, and load thunks. *)
Section AddressTaken.
Context (isI386 : bool) (files : list guard_file) (symtabs : list symtab_roots).

Inductive address_taken : nat -> Prop :=
| AT_listed file s : file ∈ files -> hasGuardCF file = true -> listed_symbol file (getGuardFidChunks file) s -> address_taken s
| AT_relocated file id s : file ∈ files -> hasGuardCF file = false -> relocated_symbol isI386 file id -> s ∈ code_symbols id ->
    address_taken s
| AT_root T id s : T ∈ symtabs -> sr_entry T = Some id \/ Some id ∈ sr_exports T -> s ∈ code_symbols id -> address_taken s
| AT_load_thunk file i c live t : file ∈ files -> hasGuardCF file = true -> listed_symbol file (getGuardIATChunks file) i ->
    symbols i = GImportData c live (Some t) -> address_taken t.

Lemma guard_file_step_spec g file g' : guard_file_step heap symbols isI386 g file = Some g' ->
  (forall x, x ∈ addressTakenSyms g' <-> x ∈ addressTakenSyms g \/
     if hasGuardCF file then exists s, listed_symbol file (getGuardFidChunks file) s /\ mark_of (symbols s) x
     else exists s, relocated_symbol isI386 file s /\ marked_by (code_symbols s) x) /\
  (forall i, i ∈ giatsSymbols g' <-> i ∈ giatsSymbols g \/ (hasGuardCF file = true /\ listed_symbol file (getGuardIATChunks file) i)).
Proof using Type.
  unfold guard_file_step. intros E. apply bind_Some in E as (g1 & E1 & E2).
  assert (Hg : addressTakenSyms g' = addressTakenSyms g1 /\ giatsSymbols g' = giatsSymbols g1).
  { destruct (hasGuardEHCont file); [|by simplify_eq]. apply bind_Some in E2 as (eh & _ & [= <-]). done. }
  destruct Hg as [-> ->]. clear E2. destruct (hasGuardCF file).
  - apply bind_Some in E1 as (fids & Ef & E1). apply bind_Some in E1 as (iat & _ & E1). apply bind_Some in E1 as (ljmp & _ & [= <-]).
    cbn [addressTakenSyms giatsSymbols]. split; [by apply mark_table|]. intros i. rewrite symbols_from_sections. naive_solver.
  - apply bind_Some in E1 as (fids & Ef & [= <-]). cbn [addressTakenSyms giatsSymbols]. split; [by apply mark_relocations|]. naive_solver.
Qed.

Lemma mark_roots_spec rs T rs' : mark_roots heap symbols rs T = Some rs' -> forall x, x ∈ rs' <-> x ∈ rs \/
  exists id, (sr_entry T = Some id \/ Some id ∈ sr_exports T) /\ marked_by (code_symbols id) x.
Proof using Type.
  unfold mark_roots. intros E x. apply bind_Some in E as (rs1 & E1 & E2).
  rewrite (fold_opt_collects _ (fun rs x => x ∈ (rs : rva_set)) _ _ _ _ (fun o b b1 _ H => maybe_add b o b1 H) E2 x).
  rewrite (maybe_add _ _ _ E1). naive_solver.
Qed.

Lemma mark_load_thunk_spec rs i rs' : mark_load_thunk heap symbols rs i = Some rs' -> forall x, x ∈ rs' <-> x ∈ rs \/
  exists c live t, symbols i = GImportData c live (Some t) /\ mark_of (symbols t) x.
Proof using Type.
  unfold mark_load_thunk. intros E x. destruct (symbols i) as [ | c live [t|] | | | | | | ] eqn:Es; simplify_eq;
    try (split; [by left|]; intros [?|(? & ? & ? & [=] & _)]; done).
  rewrite (add_symbol _ _ _ E). split; (intros [Hx|H]; [by left|right]); [by exists c, live, t|].
  by destruct H as (c' & live' & t' & [= <- <- <-] & ?).
Qed.

Lemma guard_marks_spec g : guard_marks heap symbols isI386 files symtabs = Some g ->
  forall x, x ∈ addressTakenSyms g <-> exists s, address_taken s /\ mark_of (symbols s) x.
Proof using Type.
  unfold guard_marks. intros E x. apply bind_Some in E as (g1 & E1 & E). apply bind_Some in E as (f1 & E2 & E).
  apply bind_Some in E as (f2 & E3 & [= <-]). cbn [addressTakenSyms].
  pose proof (fold_opt_collects _ (fun g x => x ∈ addressTakenSyms g) _ _ _ _
    (fun f b b1 _ H => proj1 (guard_file_step_spec b f b1 H)) E1 x) as H1.
  pose proof (fold_opt_collects _ (fun g i => i ∈ giatsSymbols g) _ _ _ _
    (fun f b b1 _ H => proj2 (guard_file_step_spec b f b1 H)) E1) as H1'.
  pose proof (fold_opt_collects _ (fun rs x => x ∈ (rs : rva_set)) _ _ _ _ (fun T b b1 _ H => mark_roots_spec b T b1 H) E2 x) as H2.
  pose proof (fold_opt_collects _ (fun rs x => x ∈ (rs : rva_set)) _ _ _ _ (fun i b b1 _ H => mark_load_thunk_spec b i b1 H) E3 x) as H3.
  cbn in H1, H1'. rewrite H3, H2, H1. split.
  - intros [[[?%not_elem_of_empty|(f & Hf & Hx)]|(T & HT & id & Hid & s & Hs & Hm)]|(i & Hi & c & live & t & Es & Hm)]; [done|..].
    + destruct (hasGuardCF f) eqn:Eg; destruct Hx as (s & Hs & Hm); [exists s; split; [by eapply AT_listed|done]|].
      destruct Hm as (s' & Hs' & Hm). exists s'. split; [by eapply AT_relocated|done].
    + exists s. split; [by eapply AT_root|done].
    + exists t. split; [|done]. apply H1' in Hi as [?%elem_of_nil|(f & Hf & Hg & Hl)]; [done|]. by eapply AT_load_thunk.
  - intros (s & Ht & Hm). destruct Ht as [f s Hf Hg Hl|f id s Hf Hg Hr Hs|T id s HT Hid Hs|f i c live t Hf Hg Hl Es].
    + left. left. right. exists f. split; [done|]. rewrite Hg. by exists s.
    + left. left. right. exists f. split; [done|]. rewrite Hg. exists id. split; [done|]. by exists s.
    + left. right. exists T. split; [done|]. exists id. split; [done|]. by exists s.
    + right. exists i. split; [apply H1'; right; by exists f|]. by exists c, live, t.
Qed.

End AddressTaken.
End Marks.

(** ** The table in the image *)

Lemma table_rvas_in heap syms r : r ∈ table_rvas heap syms <-> exists c off, (c, off) ∈ syms /\ u32 (gc_rva (heap c) + off) = r.
Proof.
  unfold table_rvas. change (@map (nat * Z) Z) with (@fmap list _ (nat * Z) Z). rewrite list_elem_of_fmap. split.
  - intros ([c off] & -> & Hin). apply elem_of_elements in Hin. by exists c, off.
  - intros (c & off & Hin & <-). exists (c, off). split; [done|by apply elem_of_elements].
Qed.

Lemma sort_words_perm ws : sort_words ws ≡ₚ ws.
Proof. apply stable_sort_perm. Qed.

Lemma table_rvas_word heap syms r : r ∈ table_rvas heap syms -> u32 r = r.
Proof. intros (c & off & _ & <-)%table_rvas_in. unfold wrap. by rewrite Z.mod_mod. Qed.

(** The check finds the RVAs of the table, and no other. *)
Lemma guard_check_table heap syms buf m target :
  guard_check (RVATableChunk_writeTo heap syms buf m) buf (Z.of_nat (size syms)) target = true <->
  exists c off, (c, off) ∈ syms /\ u32 (gc_rva (heap c) + off) = target.
Proof.
  set (ws := sort_words (table_rvas heap syms)). set (M := RVATableChunk_writeTo heap syms buf m).
  assert (Hlen : length ws = size syms).
  { unfold ws. rewrite sort_words_perm. unfold table_rvas. by rewrite length_map. }
  assert (Hread : forall i, 0 <= i < Z.of_nat (size syms) -> exists w, ws !! Z.to_nat i = Some w /\ read32le M (buf + 4 * i) = w).
  { intros i Hi. destruct (lookup_lt_is_Some_2 ws (Z.to_nat i) ltac:(lia)) as [w Hw]. exists w. split; [done|].
    unfold M, RVATableChunk_writeTo. fold ws. rewrite <- (Z2Nat.id i) by lia. rewrite (read_put_words _ _ _ _ _ Hw).
    eapply table_rvas_word. rewrite <- sort_words_perm. by eapply list_elem_of_lookup_2. }
  unfold guard_check. rewrite search_found; [|intros i j Hij Hj|lia].
  - rewrite <- table_rvas_in. rewrite <- (sort_words_perm (table_rvas heap syms)). fold ws. split.
    + intros (i & Hi & <-). destruct (Hread i Hi) as (w & Hw & ->). by eapply list_elem_of_lookup_2.
    + intros (i & Hi)%list_elem_of_lookup. exists (Z.of_nat i). pose proof (lookup_lt_Some _ _ _ Hi).
      split; [lia|]. destruct (Hread (Z.of_nat i) ltac:(lia)) as (w & Hw & ->). rewrite Nat2Z.id in Hw. by simplify_eq.
  - destruct (Hread i ltac:(lia)) as (a & Ha & ->). destruct (Hread j ltac:(lia)) as (b & Hb & ->).
    eapply (sorted_words _ (Z.to_nat i) (Z.to_nat j)); [lia|done..].
Qed.

(** Chunks keep what identifies them between the marking and the writing: only
    addresses and alignments are assigned. *)
Definition same_chunks (h h' : nat -> gchunk) : Prop :=
  forall c, gc_isSection (h' c) = gc_isSection (h c) /\ gc_repl (h' c) = gc_repl (h c).

(** The section of a symbol is not itself replaced. *)
Definition repl_ok (heap : nat -> gchunk) (symbols : nat -> gsym) : Prop :=
  forall s c rva, place_of heap (symbols s) = Some (Some c, rva) -> gc_isSection (heap c) = true -> gc_repl (heap c) = c.

Lemma u32_shift a b c : u32 (a + u32 (u32 (b + c) - b)) = u32 (a + c).
Proof.
  unfold wrap. rewrite Zminus_mod_idemp_l. replace (b + c - b) with c by lia. by rewrite Zplus_mod_idemp_r.
Qed.

(** Where a mark is in the image: at the symbol. *)
Lemma mark_address heap heap' symbols s c off : same_chunks heap heap' -> repl_ok heap symbols ->
  mark_of heap (symbols s) (c, off) -> exists rva, place_of heap' (symbols s) = Some (Some c, rva) /\ u32 (gc_rva (heap' c) + off) = u32 rva.
Proof.
  intros Hsame Hrepl (c0 & rva0 & Hp & E). cbn zeta in E.
  assert (Hc : (if gc_isSection (heap c0) then gc_repl (heap c0) else c0) = c0).
  { destruct (gc_isSection (heap c0)) eqn:Es; [|done]. by eapply Hrepl. }
  rewrite Hc in E. injection E as -> ->.
  assert (Hsh : forall a b v, u32 (a + u32 (b + v - b)) = u32 (a + v)).
  { intros a b v. replace (b + v - b) with v by lia. unfold wrap. by rewrite Zplus_mod_idemp_r. }
  unfold place_of in *. destruct (symbols s) as [l|l ? ?|l| |[l|] o ?| |l|l v ?]; simplify_eq; try (eexists; split; [done|]).
  - pose proof (Hsh (gc_rva (heap' c0)) (gc_rva (heap c0)) 0) as H. rewrite !Z.add_0_r in H. exact H.
  - pose proof (Hsh (gc_rva (heap' c0)) (gc_rva (heap c0)) 0) as H. rewrite !Z.add_0_r in H. exact H.
  - pose proof (Hsh (gc_rva (heap' c0)) (gc_rva (heap c0)) 0) as H. rewrite !Z.add_0_r in H. exact H.
  - rewrite u32_shift. unfold wrap. by rewrite Z.mod_mod.
  - pose proof (Hsh (gc_rva (heap' c0)) (gc_rva (heap c0)) 0) as H. rewrite !Z.add_0_r in H. exact H.
  - destruct (Hsame l) as [_ ->]. eexists. split; [done|]. apply Hsh.
Qed.

(** A symbol with a chunk has a mark. *)
Lemma mark_exists heap heap' symbols s c rva : same_chunks heap heap' -> repl_ok heap symbols ->
  place_of heap' (symbols s) = Some (Some c, rva) -> exists off, mark_of heap (symbols s) (c, off).
Proof.
  intros Hsame Hrepl Hp. unfold mark_of.
  assert (exists rva0, place_of heap (symbols s) = Some (Some c, rva0)) as [rva0 Hp0].
  { unfold place_of in *. destruct (symbols s) as [l|l ? ?|l| |[l|] o ?| |l|l v ?]; simplify_eq; try (by eexists).
    destruct (Hsame l) as [_ ->]. by eexists. }
  eexists. exists c, rva0. split; [done|]. cbn zeta.
  assert (Hc : (if gc_isSection (heap c) then gc_repl (heap c) else c) = c).
  { destruct (gc_isSection (heap c)) eqn:Es; [|done]. by eapply Hrepl. }
  by rewrite Hc.
Qed.

(** The addresses of the marks are those of the symbols. *)
Lemma marked_addresses heap heap' symbols (taken : nat -> Prop) (rs : rva_set) target : same_chunks heap heap' -> repl_ok heap symbols ->
  (forall x, x ∈ rs <-> exists s, taken s /\ mark_of heap (symbols s) x) ->
  (exists c off, (c, off) ∈ rs /\ u32 (gc_rva (heap' c) + off) = target) <->
  exists s c rva, taken s /\ place_of heap' (symbols s) = Some (Some c, rva) /\ u32 rva = target.
Proof.
  intros Hsame Hrepl Hrs. split.
  - intros (c & off & (s & Hs & Hm)%Hrs & <-). destruct (mark_address _ _ _ _ _ _ Hsame Hrepl Hm) as (rva & Hp & E).
    by exists s, c, rva.
  - intros (s & c & rva & Hs & Hp & <-). destruct (mark_exists _ _ _ _ _ _ Hsame Hrepl Hp) as [off Hm].
    exists c, off. split; [apply Hrs; by exists s|]. destruct (mark_address _ _ _ _ _ _ Hsame Hrepl Hm) as (rva' & Hp' & E).
    by rewrite Hp in Hp'; simplify_eq.
Qed.

(** The check of a call in the image that is produced. *)
Definition image_guard_check (r : guard_result) (heap : nat -> gchunk) (buf : Z) (m : mem) (target : Z) : bool :=
  match gr_fids r with
  | Some t => guard_check (RVATableChunk_writeTo heap (tableSyms t) buf m) buf (tableCount t) target
  | None => false
  end.

(** C29: control flow guard accepts a call target exactly when it is the final
    address of a symbol whose address is taken: listed in the guard sections of an
    object that has them, referred to by a live section of another object, the
    entry point or an export, or the load thunk of a delay-loaded import that is
    listed; so no valid call is rejected and nothing else can be called; and the
    chunks called are aligned to 16. *)
Theorem guard_table_exact (heap heap' : nat -> gchunk) (symbols : nat -> gsym) (isI386 : bool) (guardCF : Z)
    (files : list guard_file) (symtabs : list symtab_roots) (r : guard_result) (buf : Z) (m : mem)
    (Hr : createGuardCFTables heap symbols isI386 guardCF files symtabs = Some r) (Hon : guardCF <> 0)
    (Hrepl : repl_ok heap symbols) (Hsame : same_chunks heap heap') :
  (forall target, image_guard_check r heap' buf m target = true <->
     exists s c rva, address_taken heap symbols isI386 files symtabs s /\
       place_of heap' (symbols s) = Some (Some c, rva) /\ u32 rva = target) /\
  (forall s c rva, address_taken heap symbols isI386 files symtabs s -> place_of heap' (symbols s) = Some (Some c, rva) ->
     16 <= gc_align (gr_heap r c)).
Proof.
  unfold createGuardCFTables in Hr. rewrite (proj2 (Z.eqb_neq _ _) Hon) in Hr. apply bind_Some in Hr as (g & Eg & [= <-]).
  pose proof (guard_marks_spec heap symbols isI386 files symtabs g Eg) as Hg. split.
  - intros target. unfold image_guard_check, maybeAddRVATable. cbn [gr_fids]. rewrite <- (marked_addresses _ _ _ _ _ target Hsame Hrepl Hg).
    case_bool_decide as He.
    + split; [done|]. intros (c & off & Hin & _). rewrite He in Hin. by apply not_elem_of_empty in Hin.
    + cbn [tableSyms tableCount]. unfold RVATableChunk_getSize. rewrite (Z.mul_comm 4), Z.div_mul by done. apply guard_check_table.
  - intros s c rva Hs Hp. destruct (mark_exists _ _ _ _ _ _ Hsame Hrepl Hp) as [off Hm].
    assert (Hin : (c, off) ∈ addressTakenSyms g) by (apply Hg; by exists s). cbn [gr_heap]. unfold align_targets.
    rewrite bool_decide_eq_true_2 by (apply elem_of_map; by exists (c, off)). destruct (Z.ltb_spec (gc_align (heap c)) 16); cbn; lia.
Qed.

(** Two functions, one called only directly. *)
Definition demo_heap (c : nat) : gchunk :=
  {| gc_isSection := true; gc_live := true; gc_executable := true; gc_align := 4; gc_repl := c; gc_rva := 0 |}.
Definition demo_final (c : nat) : gchunk :=
  {| gc_isSection := true; gc_live := true; gc_executable := true; gc_align := 16; gc_repl := c;
     gc_rva := 0x1000 + 0x100 * Z.of_nat c |}.
Definition demo_syms (s : nat) : gsym := GRegular s 8 true.
Definition demo_file : guard_file :=
  {| hasGuardCF := true; hasGuardEHCont := false; hasSafeSEH := false; gf_symbols := [Some 0; None; Some 2]%nat; gf_chunks := [];
     getGuardFidChunks := [{| ix_name := ".gfids$y"; ix_live := true; ix_contents := [2; 0; 0; 0] |}];
     getGuardIATChunks := []; getGuardLJmpChunks := []; getGuardEHContChunks := []; getSXDataChunks := [] |}.
Definition demo_result : guard_result :=
  default {| guardFlags := None; gr_heap := demo_heap; gr_fids := None; gr_iat := None; gr_longjmp := None; gr_ehcont := None |}
    (createGuardCFTables demo_heap demo_syms false 1 [demo_file] [{| sr_entry := Some 7%nat; sr_exports := [] |}]).

Lemma guard_table_exact_witness :
  image_guard_check demo_result demo_final 0x500 (fun _ => 0) 0x1208 = true /\
  image_guard_check demo_result demo_final 0x500 (fun _ => 0) 0x1708 = true /\
  (image_guard_check demo_result demo_final 0x500 (fun _ => 0) 0x1008 = true ->
     exists s c rva, address_taken demo_heap demo_syms false [demo_file] [{| sr_entry := Some 7%nat; sr_exports := [] |}] s /\
       place_of demo_final (demo_syms s) = Some (Some c, rva) /\ u32 rva = 0x1008).
Proof.
  destruct (guard_table_exact demo_heap demo_final demo_syms false 1 [demo_file] [{| sr_entry := Some 7%nat; sr_exports := [] |}]
    demo_result 0x500 (fun _ => 0)) as [H _].
  - vm_compute. reflexivity.
  - discriminate.
  - intros s c rva [= <- _] _. reflexivity.
  - intros c. split; reflexivity.
  - split_and!; [apply H..|exact (proj1 (H 0x1008))].
    + exists 2%nat, 2%nat, 0x1208. split_and!; [|reflexivity..]. eapply AT_listed; [by left|reflexivity|].
      exists {| ix_name := ".gfids$y"; ix_live := true; ix_contents := [2; 0; 0; 0] |}, 2. split_and!; try reflexivity; by left.
    + exists 7%nat, 7%nat, 0x1708. split_and!; [|reflexivity..]. eapply AT_root; [by left|by left|by left].
Defined.

(** ** The exception table *)

Section Exceptions.
Context (parallelSort : list (list Z) -> list (list Z)).

(** Sorts by [begin], in any order of equal ones. *)
Record sorts_by_begin : Prop := {
  sb_perm l : parallelSort l ≡ₚ l;
  sb_sorted l i j a b : (i <= j)%nat -> parallelSort l !! i = Some a -> parallelSort l !! j = Some b -> entry_begin a <= entry_begin b
}.

Lemma length_entries_at m p n count : length (entries_at m p n count) = count.
Proof using Type. revert p. induction count as [|count IH]; intros p; [done|]. cbn. by rewrite IH. Qed.

Lemma entries_lookup m p n count i : (i < count)%nat -> entries_at m p n count !! i = Some (bytes_at m (p + Z.of_nat (n * i)) n).
Proof using Type.
  revert p i. induction count as [|count IH]; intros p i Hi; [lia|]. destruct i as [|i]; cbn.
  - do 2 f_equal. lia.
  - rewrite IH by lia. do 2 f_equal. lia.
Qed.

Lemma entries_size m p n count : Forall (fun e => length e = n) (entries_at m p n count).
Proof using Type. revert p. induction count as [|count IH]; intros p; constructor; [apply length_bytes_at|apply IH]. Qed.

(** Entries copied to memory. *)
Lemma entries_memcpy (l : list (list Z)) n m p : Forall (fun e => length e = n) l -> entries_at (memcpy m p (concat l)) p n (length l) = l.
Proof using Type.
  revert m p. induction l as [|e l IH]; intros m p Hl; [done|]. apply Forall_cons in Hl as [He Hl]. cbn [length entries_at concat].
  assert (Happ : forall x, memcpy m p (e ++ concat l) x = memcpy (memcpy m p e) (p + Z.of_nat (length e)) (concat l) x).
  { clear. revert m p. induction e as [|b e IH]; intros m p x; cbn [app memcpy length]; [by rewrite Z.add_0_r|].
    rewrite IH. f_equal. lia. }
  assert (Hext : forall (m1 m2 : mem) q k, (forall x, m1 x = m2 x) -> bytes_at m1 q k = bytes_at m2 q k).
  { intros m1 m2 q k H. unfold bytes_at. apply map_ext. intros. apply H. }
  assert (Hext2 : forall (m1 m2 : mem) q k c, (forall x, m1 x = m2 x) -> entries_at m1 q k c = entries_at m2 q k c).
  { intros m1 m2 q k c H. revert q. induction c as [|c IHc]; intros q; [done|]. cbn. by rewrite (Hext m1 m2), IHc. }
  f_equal.
  - rewrite (Hext _ _ _ _ Happ). transitivity (bytes_at (memcpy m p e) p n); [|rewrite <- He; apply bytes_at_memcpy].
    unfold bytes_at. apply map_ext_in. intros k Hk%in_seq. apply memcpy_other. lia.
  - rewrite (Hext2 _ _ _ _ _ Happ), He. by apply IH.
Qed.

Lemma read_bytes n k m p : (k <= n)%nat -> read k m p = le_value (take k (bytes_at m p n)).
Proof using Type.
  revert n p. induction k as [|k IH]; intros n p Hk; [done|]. destruct n as [|n]; [lia|].
  assert (E : bytes_at m p (S n) = m p :: bytes_at m (p + 1) n).
  { unfold bytes_at. cbn [seq map]. rewrite Z.add_0_r. f_equal. rewrite <- seq_shift, map_map. apply map_ext. intros j. f_equal. lia. }
  rewrite E. change (read (S k) m p) with (m p + 2 ^ 8 * read k m (p + 1)). cbn [take le_value]. by rewrite (IH n) by lia.
Qed.

Lemma read_bytes_drop n d k m p : (d + k <= n)%nat -> read k m (p + Z.of_nat d) = le_value (take k (drop d (bytes_at m p n))).
Proof using Type.
  intros H. rewrite (read_bytes (n - d)) by lia. do 2 f_equal. replace n with (d + (n - d))%nat at 2 by lia.
  by rewrite bytes_at_add, drop_app_length' by (by rewrite length_bytes_at).
Qed.

Definition entry_end (e : list Z) : Z := le_value (take 4 (drop 4 e)).

(** Functions that do not overlap. *)
Record functions_apart (l : list (list Z)) : Prop := {
  fa_nonempty e : e ∈ l -> entry_begin e < entry_end e;
  fa_disjoint e e' : e ∈ l -> e' ∈ l -> e <> e' -> entry_end e <= entry_begin e' \/ entry_end e' <= entry_begin e
}.

Lemma lookup_sorted (m : mem) (p : Z) (n : nat) pc : functions_apart (entries_at m p 12 n) ->
  (forall i j a b, (i <= j)%nat -> entries_at m p 12 n !! i = Some a -> entries_at m p 12 n !! j = Some b -> entry_begin a <= entry_begin b) ->
  match lookup_function m p (Z.of_nat n) pc with
  | Some q => bytes_at m q 12 ∈ entries_at m p 12 n /\ entry_begin (bytes_at m q 12) <= pc < entry_end (bytes_at m q 12)
  | None => forall e, e ∈ entries_at m p 12 n -> ~ entry_begin e <= pc < entry_end e
  end.
Proof using Type.
  intros [Hne Hdis] Hsort. set (key := fun i => read32le m (p + 12 * i)).
  assert (Hat : forall i, 0 <= i < Z.of_nat n -> entries_at m p 12 n !! Z.to_nat i = Some (bytes_at m (p + 12 * i) 12)).
  { intros i Hi. rewrite entries_lookup by lia. do 2 f_equal. lia. }
  assert (Hkey : forall i, key i = entry_begin (bytes_at m (p + 12 * i) 12)).
  { intros i. unfold key, entry_begin. by rewrite <- read_bytes by lia. }
  assert (Hend : forall i, read32le m (p + 12 * i + 4) = entry_end (bytes_at m (p + 12 * i) 12)).
  { intros i. unfold entry_end. by rewrite <- (read_bytes_drop 12 4 4) by lia. }
  assert (Hasc : ascending key 0 (Z.of_nat n)).
  { intros i j Hij Hj. rewrite !Hkey. eapply (Hsort (Z.to_nat i) (Z.to_nat j)); [lia|apply Hat; lia..]. }
  destruct (search_spec key (Z.of_nat n) pc Hasc ltac:(lia)) as (H1 & H2 & H3). unfold lookup_function. fold key.
  set (r := search key (Z.of_nat n) pc) in *.
  assert (Hnone : forall e, e ∈ entries_at m p 12 n -> entry_begin e <= pc < entry_end e -> 0 <= r /\ e = bytes_at m (p + 12 * r) 12).
  { intros e He Hpc. apply list_elem_of_lookup in He as [i Hi]. pose proof (lookup_lt_Some _ _ _ Hi) as Hlt. rewrite length_entries_at in Hlt.
    assert (Ei : e = bytes_at m (p + 12 * Z.of_nat i) 12) by (specialize (Hat (Z.of_nat i) ltac:(lia)); rewrite Nat2Z.id in Hat; by simplify_eq).
    destruct (Z.le_gt_cases (Z.of_nat i) r) as [Hle|Hgt]; [|specialize (H3 (Z.of_nat i) ltac:(lia)); rewrite Hkey, <- Ei in H3; lia].
    split; [lia|]. set (e' := bytes_at m (p + 12 * r) 12). destruct (decide (e = e')) as [|Hd]; [done|exfalso].
    assert (He' : e' ∈ entries_at m p 12 n) by (eapply list_elem_of_lookup_2; apply Hat; lia).
    assert (He : e ∈ entries_at m p 12 n) by (by eapply list_elem_of_lookup_2).
    pose proof (H2 r ltac:(lia)) as Hr. rewrite Hkey in Hr. fold e' in Hr. pose proof (Hne e' He').
    pose proof (Hasc (Z.of_nat i) r ltac:(lia) ltac:(lia)) as Hle2. rewrite !Hkey, <- Ei in Hle2. fold e' in Hle2.
    destruct (Hdis e e' He He' Hd); lia. }
  rewrite Hend. destruct (_ && _) eqn:E.
  - apply andb_true_iff in E as [E1%Z.leb_le E2%Z.ltb_lt]. split; [eapply list_elem_of_lookup_2, (Hat r); lia|].
    split; [|done]. rewrite <- Hkey. apply H2. lia.
  - intros e He Hpc. destruct (Hnone e He Hpc) as [Hr ->]. rewrite (proj2 (Z.leb_le 0 r)) in E by done. rewrite andb_true_l in E.
    apply Z.ltb_ge in E. lia.
Qed.

(** Sorting: the same entries, in order. *)
Lemma sort_table_spec entrySize first last m : sorts_by_begin -> 0 < Z.of_nat entrySize -> first <= last ->
  (last - first) mod Z.of_nat entrySize = 0 -> let n := Z.to_nat ((last - first) / Z.of_nat entrySize) in
  exists m', sortExceptionTable parallelSort entrySize (Some (first, last)) m = Sorted m' /\
    entries_at m' first entrySize n = parallelSort (entries_at m first entrySize n) /\
    forall x, x < first \/ last <= x -> m' x = m x.
Proof using Type.
  intros [Hp _] Hes Hle Hmod n. unfold sortExceptionTable. rewrite Hmod. cbn [negb Z.eqb]. eexists. split; [done|].
  fold n. set (l := parallelSort _). assert (Hl : length l = n) by (unfold l; by rewrite Hp, length_entries_at).
  assert (Hsz : Forall (fun e => length e = entrySize) l) by (unfold l; rewrite Hp; apply entries_size).
  assert (Hcat : length (concat l) = (n * entrySize)%nat).
  { rewrite <- Hl. clear - Hsz. induction Hsz as [|e l He _ IH]; [done|]. cbn. rewrite length_app, IH, He. lia. }
  split; [rewrite <- Hl at 1; by apply entries_memcpy|]. intros x Hx. apply memcpy_other. rewrite Hcat.
  pose proof (Z.div_mod (last - first) (Z.of_nat entrySize) ltac:(lia)) as Hd. rewrite Hmod in Hd.
  assert (0 <= (last - first) / Z.of_nat entrySize) by (apply Z.div_pos; lia). lia.
Qed.

Lemma entries_ext (m m' : mem) p es n : (forall x, p <= x < p + Z.of_nat (es * n) -> m' x = m x) ->
  entries_at m' p es n = entries_at m p es n.
Proof using Type.
  revert p. induction n as [|n IH]; intros p H; [done|]. cbn. f_equal; [|apply IH; intros x Hx; apply H; lia].
  unfold bytes_at. apply map_ext_in. intros k Hk%in_seq. apply H. lia.
Qed.

(** A table, the size of its entries and the offsets of its first byte and its
    end. ARM64EC code has x64 entries ([begin], [end], [unwind]), the ARM machines
    have entries of two words ([begin], [unwind]). *)
Definition pdata_table : Type := nat * (Z * Z).
Definition x64_entry : nat := 12.
Definition arm_entry : nat := 8.
Definition table_of (es : nat) (range : option (Z * Z)) : list pdata_table :=
  match range with Some r => [(es, r)] | None => [] end.
Definition pdata_tables (machine : pdata_machine) (pdata hybridPdata : option (Z * Z)) : list pdata_table :=
  match machine with
  | PdataAMD64 => table_of x64_entry pdata
  | PdataARM64EC | PdataARM64X => table_of x64_entry hybridPdata ++ table_of arm_entry pdata
  | PdataARMNT | PdataARM64 => table_of arm_entry pdata
  | PdataOther => []
  end.

Definition table_first (t : pdata_table) : Z := t.2.1.
Definition table_last (t : pdata_table) : Z := t.2.2.
Definition table_count (t : pdata_table) : nat := Z.to_nat ((table_last t - table_first t) / Z.of_nat t.1).
Definition table_entries (m : mem) (t : pdata_table) : list (list Z) := entries_at m (table_first t) t.1 (table_count t).

Definition whole_entries (t : pdata_table) : Prop :=
  table_first t <= table_last t /\ (table_last t - table_first t) mod Z.of_nat t.1 = 0.
Definition tables_apart (t t' : pdata_table) : Prop :=
  table_last t <= table_first t' \/ table_last t' <= table_first t.

(** The entry with the last [begin] that is not behind [pc]: where the unwinder
    looks for the function of [pc]. *)
Definition find_entry (m : mem) (t : pdata_table) (pc : Z) : option Z :=
  let i := search (fun i => read32le m (table_first t + Z.of_nat t.1 * i)) (Z.of_nat (table_count t)) pc in
  if 0 <=? i then Some (table_first t + Z.of_nat t.1 * i) else None.

(** The table in [m'] is that of [m], reordered, and can be searched. *)
Definition searchable (m m' : mem) (t : pdata_table) : Prop :=
  table_entries m' t ≡ₚ table_entries m t /\
  forall pc, match find_entry m' t pc with
    | Some q => bytes_at m' q t.1 ∈ table_entries m t /\ entry_begin (bytes_at m' q t.1) <= pc /\
        forall e, e ∈ table_entries m t -> entry_begin e <= pc -> entry_begin e <= entry_begin (bytes_at m' q t.1)
    | None => forall e, e ∈ table_entries m t -> pc < entry_begin e
    end.

Lemma table_extent t : (0 < t.1)%nat -> whole_entries t ->
  table_last t = table_first t + Z.of_nat (t.1 * table_count t).
Proof using Type.
  intros Hes [Hle Hmod]. unfold table_count. pose proof (Z.div_mod (table_last t - table_first t) (Z.of_nat t.1) ltac:(lia)).
  assert (0 <= (table_last t - table_first t) / Z.of_nat t.1) by (apply Z.div_pos; lia). lia.
Qed.

Lemma sorted_searchable m m' t : sorts_by_begin -> (4 <= t.1)%nat ->
  table_entries m' t = parallelSort (table_entries m t) -> searchable m m' t.
Proof using Type.
  intros [Hp Hs] Hes E. assert (HP : table_entries m' t ≡ₚ table_entries m t) by by rewrite E. split; [done|]. intros pc.
  set (n := table_count t) in *. set (p := table_first t) in *. set (es := t.1) in *.
  set (key := fun i => read32le m' (p + Z.of_nat es * i)).
  assert (Hat : forall i, 0 <= i < Z.of_nat n ->
    table_entries m' t !! Z.to_nat i = Some (bytes_at m' (p + Z.of_nat es * i) es)).
  { intros i Hi. unfold table_entries. fold n p es. rewrite entries_lookup by lia. do 2 f_equal. lia. }
  assert (Hkey : forall i, key i = entry_begin (bytes_at m' (p + Z.of_nat es * i) es)).
  { intros i. unfold key, entry_begin. by rewrite <- read_bytes by lia. }
  assert (Hasc : ascending key 0 (Z.of_nat n)).
  { intros i j Hij Hj. rewrite !Hkey. eapply (Hs (table_entries m t) (Z.to_nat i) (Z.to_nat j)); [lia|rewrite <- E; apply Hat; lia..]. }
  assert (Hof : forall e, e ∈ table_entries m t -> exists i, 0 <= i < Z.of_nat n /\ e = bytes_at m' (p + Z.of_nat es * i) es).
  { intros e He. rewrite <- HP in He. apply list_elem_of_lookup in He as [i Hi]. pose proof (lookup_lt_Some _ _ _ Hi) as Hlt.
    unfold table_entries in Hlt. rewrite length_entries_at in Hlt. exists (Z.of_nat i). split; [fold n in Hlt; lia|].
    specialize (Hat (Z.of_nat i) ltac:(fold n in Hlt; lia)). rewrite Nat2Z.id in Hat. by simplify_eq. }
  destruct (search_spec key (Z.of_nat n) pc Hasc ltac:(lia)) as (H1 & H2 & H3). unfold find_entry. fold n p es key.
  set (r := search key (Z.of_nat n) pc) in *. destruct (Z.leb_spec 0 r) as [Hr|Hr].
  - split_and!.
    + rewrite <- HP. eapply list_elem_of_lookup_2, (Hat r). lia.
    + rewrite <- Hkey. apply H2. lia.
    + intros e (i & Hi & ->)%Hof Hpc. rewrite <- !Hkey in *. destruct (Z.le_gt_cases i r) as [Hle|Hgt]; [apply Hasc; lia|].
      specialize (H3 i ltac:(lia)). lia.
  - intros e (i & Hi & ->)%Hof. rewrite <- Hkey. apply H3. lia.
Qed.

(** Sorting the tables of an image one after the other. *)
Lemma sort_one es range m : sorts_by_begin -> (0 < es)%nat -> Forall whole_entries (table_of es range) ->
  exists m', sortExceptionTable parallelSort es range m = Sorted m' /\
    Forall (fun t => table_entries m' t = parallelSort (table_entries m t)) (table_of es range) /\
    forall x, Forall (fun t => x < table_first t \/ table_last t <= x) (table_of es range) -> m' x = m x.
Proof using Type.
  intros Hs Hes Hw. destruct range as [[first last]|]; [|exists m; split_and!; [done|constructor|done]].
  apply Forall_singleton in Hw as [Hle Hmod].
  destruct (sort_table_spec es first last m Hs ltac:(lia) Hle Hmod) as (m' & E & El & Ho). exists m'. split; [done|]. split.
  - by apply Forall_singleton.
  - intros x Hx. apply Ho. by apply Forall_cons in Hx as [Hx _].
Qed.

Lemma sort_tables machine pdata hybridPdata m : sorts_by_begin ->
  Forall whole_entries (pdata_tables machine pdata hybridPdata) ->
  ForallOrdPairs tables_apart (pdata_tables machine pdata hybridPdata) ->
  exists m', sortExceptionTables parallelSort machine pdata hybridPdata m = Sorted m' /\
    Forall (fun t => table_entries m' t = parallelSort (table_entries m t)) (pdata_tables machine pdata hybridPdata) /\
    forall x, Forall (fun t => x < table_first t \/ table_last t <= x) (pdata_tables machine pdata hybridPdata) -> m' x = m x.
Proof using Type.
  intros Hs Hw Ha.
  assert (Hboth : forall m0, Forall whole_entries (table_of 12 hybridPdata ++ table_of 8 pdata) ->
    ForallOrdPairs tables_apart (table_of 12 hybridPdata ++ table_of 8 pdata) -> exists m',
    match sortExceptionTable parallelSort 12 hybridPdata m0 with
    | Sorted m => sortExceptionTable parallelSort 8 pdata m | e => e end = Sorted m' /\
    Forall (fun t => table_entries m' t = parallelSort (table_entries m0 t)) (table_of 12 hybridPdata ++ table_of 8 pdata) /\
    forall x, Forall (fun t => x < table_first t \/ table_last t <= x) (table_of 12 hybridPdata ++ table_of 8 pdata) -> m' x = m0 x).
  { clear Hw Ha. intros m0 [Hw1 Hw2]%Forall_app Ha.
    destruct (sort_one 12 hybridPdata m0 Hs ltac:(lia) Hw1) as (m1 & -> & E1 & F1).
    destruct (sort_one 8 pdata m1 Hs ltac:(lia) Hw2) as (m2 & -> & E2 & F2). exists m2. split; [done|]. split.
    - destruct hybridPdata as [[f1 l1]|], pdata as [[f2 l2]|]; cbn [table_of app] in *; rewrite ?Forall_cons, ?Forall_nil in *.
      + inversion Ha as [|? ? Ht _]; subst. apply Forall_cons in Ht as [Ht _]. destruct E1 as [E1 _], E2 as [E2 _], Hw1 as [Hw1 _], Hw2 as [Hw2 _].
        apply table_extent in Hw1; [|cbn; lia]. apply table_extent in Hw2; [|cbn; lia]. split_and!; [|etrans; [exact E2|]|done].
        * rewrite <- E1. apply entries_ext. intros x Hx. apply F2, Forall_singleton. unfold tables_apart in Ht. lia.
        * f_equal. apply entries_ext. intros x Hx. apply F1, Forall_singleton. unfold tables_apart in Ht. lia.
      + split; [|done]. rewrite <- (proj1 E1). apply entries_ext. intros x _. apply F2. constructor.
      + split; [|done]. rewrite (proj1 E2). f_equal. apply entries_ext. intros x _. apply F1. constructor.
      + done.
    - intros x [Hx1 Hx2]%Forall_app. by rewrite F2, F1. }
  destruct machine; cbn [pdata_tables sortExceptionTables] in *; 
    try (apply sort_one; [done|unfold x64_entry, arm_entry; lia|done]); try by apply Hboth.
  exists m. split_and!; [done|constructor|done].
Qed.

End Exceptions.

(** C31: on every machine sorting the exception tables keeps the entries of each
    table, only reorders them, and leaves everything else in the image as it is;
    afterwards a binary search finds for every address the entry with the last
    [begin] that is not behind it, and none when there is no such entry, and in a
    table of x64 entries of functions that do not overlap, the entry of the function
    the address is in, if it is in one. Equal keys may come in any order. On ARM64EC
    and ARM64X both tables are sorted, each with the size of its entries. *)
Theorem exception_table_searchable (parallelSort : list (list Z) -> list (list Z)) (machine : pdata_machine)
    (pdata hybridPdata : option (Z * Z)) (m : mem)
    (Hsort : sorts_by_begin parallelSort)
    (Hwhole : Forall whole_entries (pdata_tables machine pdata hybridPdata))
    (Hapart : ForallOrdPairs tables_apart (pdata_tables machine pdata hybridPdata)) :
  exists m', sortExceptionTables parallelSort machine pdata hybridPdata m = Sorted m' /\
    Forall (searchable m m') (pdata_tables machine pdata hybridPdata) /\
    (forall x, Forall (fun t => x < table_first t \/ table_last t <= x) (pdata_tables machine pdata hybridPdata) -> m' x = m x) /\
    forall t pc, t ∈ pdata_tables machine pdata hybridPdata -> t.1 = x64_entry -> functions_apart (table_entries m t) ->
      match lookup_function m' (table_first t) (Z.of_nat (table_count t)) pc with
      | Some q => bytes_at m' q 12 ∈ table_entries m t /\ entry_begin (bytes_at m' q 12) <= pc < entry_end (bytes_at m' q 12)
      | None => forall e, e ∈ table_entries m t -> ~ entry_begin e <= pc < entry_end e
      end.
Proof.
  destruct (sort_tables parallelSort machine pdata hybridPdata m Hsort Hwhole Hapart) as (m' & E & Hs & Ho).
  assert (Hes : forall t, t ∈ pdata_tables machine pdata hybridPdata -> (4 <= t.1)%nat).
  { intros t. destruct machine, pdata, hybridPdata; cbn; rewrite ?elem_of_cons, ?elem_of_nil; intros Ht; destruct_or! Ht;
      subst; cbn; try done; unfold x64_entry, arm_entry; lia. }
  exists m'. split_and!; [done| |done|].
  - rewrite Forall_forall in *. intros t Ht. apply (sorted_searchable parallelSort); auto.
  - intros t pc Ht H12 Hfun. rewrite Forall_forall in Hs. specialize (Hs t Ht). unfold table_entries in *. rewrite H12 in *. unfold x64_entry in *.
    assert (Hp : entries_at m' (table_first t) 12 (table_count t) ≡ₚ entries_at m (table_first t) 12 (table_count t))
      by (rewrite Hs; apply (sb_perm _ Hsort)).
    assert (Hfun' : functions_apart (entries_at m' (table_first t) 12 (table_count t))).
    { destruct Hfun as [H1 H2]. split; [intros e; rewrite Hp; apply H1|intros e e'; rewrite !Hp; apply H2]. }
    pose proof (lookup_sorted m' (table_first t) (table_count t) pc Hfun') as H.
    specialize (H ltac:(rewrite Hs; apply (sb_sorted _ Hsort))).
    destruct (lookup_function _ _ _ _); [by rewrite Hp in H|]. intros e He. apply H. by rewrite Hp.
Qed.

Lemma strongly_sorted_lookup {A} (R : A -> A -> Prop) l i j a b : StronglySorted R l -> (i < j)%nat -> l !! i = Some a -> l !! j = Some b -> R a b.
Proof.
  intros Hs. revert i j. induction Hs as [|x l _ IH Hx]; intros i j Hij Ha Hb; [done|]. destruct j as [|j]; [lia|].
  destruct i as [|i]; cbn in *; [|eapply (IH i j); [lia|done..]]. simplify_eq.
  rewrite Forall_forall in Hx. apply Hx. by eapply list_elem_of_lookup_2.
Qed.

Lemma stable_sort_sorts : sorts_by_begin (stable_sort (fun a b => entry_begin a <? entry_begin b)).
Proof.
  split; [intros l; apply stable_sort_perm|]. intros l i j a b Hij Ha Hb.
  assert (Hs := stable_sort_sorted (fun a b => entry_begin a <? entry_begin b) l).
  destruct (decide (i = j)) as [->|]; [simplify_eq; lia|].
  apply (strongly_sorted_lookup _ _ i j a b) in Hs; [|lia|done..]. unfold sorted_le in Hs. lia.
Qed.

(** Three functions, out of order. *)
Definition demo_pdata : mem :=
  put_words 0x600 [0x1100; 0x1180; 0x2010; 0x1000; 0x1040; 0x2000; 0x1040; 0x10f0; 0x2008] (fun _ => 0).

(** On ARM64X: the x64 entries, and two ARM64 ones out of order. *)
Definition demo_native_pdata : mem := put_words 0x700 [0x4000; 0x9; 0x3000; 0x5] demo_pdata.

Lemma exception_table_searchable_witness :
  exists m', sortExceptionTables (stable_sort (fun a b => entry_begin a <? entry_begin b)) PdataARM64X
      (Some (0x700, 0x710)) (Some (0x600, 0x624)) demo_native_pdata = Sorted m' /\
    m' 0x624 = 0 /\
    (exists q, find_entry m' (arm_entry, (0x700, 0x710)) 0x3800 = Some q /\ entry_begin (bytes_at m' q 8) = 0x3000) /\
    match lookup_function m' 0x600 3 0x1050 with Some q => entry_begin (bytes_at m' q 12) <= 0x1050 | None => False end.
Proof.
  assert (El : table_entries demo_native_pdata (x64_entry, (0x600, 0x624)) =
    [[0; 17; 0; 0; 128; 17; 0; 0; 16; 32; 0; 0]; [0; 16; 0; 0; 64; 16; 0; 0; 0; 32; 0; 0];
     [64; 16; 0; 0; 240; 16; 0; 0; 8; 32; 0; 0]]) by (vm_compute; reflexivity).
  assert (Hapart : functions_apart (table_entries demo_native_pdata (x64_entry, (0x600, 0x624)))).
  { rewrite El. clear El. split.
    - intros e He. set_unfold in He. destruct_or! He; subst; try done; by vm_compute.
    - intros e e' He He' Hne. set_unfold in He. set_unfold in He'. destruct_or! He; destruct_or! He'; subst; try done; vm_compute; naive_solver congruence. }
  assert (En : table_entries demo_native_pdata (arm_entry, (0x700, 0x710)) =
    [[0; 64; 0; 0; 9; 0; 0; 0]; [0; 48; 0; 0; 5; 0; 0; 0]]) by (vm_compute; reflexivity).
  destruct (exception_table_searchable (stable_sort (fun a b => entry_begin a <? entry_begin b)) PdataARM64X
    (Some (0x700, 0x710)) (Some (0x600, 0x624)) demo_native_pdata stable_sort_sorts) as (m' & E & Hs & Ho & Hl).
  - repeat constructor; vm_compute; discriminate.
  - repeat constructor; vm_compute; discriminate.
  - exists m'. split; [exact E|].
    split; [rewrite Ho by (repeat (apply Forall_cons_2 || apply Forall_nil_2); unfold table_first, table_last; cbn; lia); reflexivity|].
    specialize (Hl (x64_entry, (0x600, 0x624)) 0x1050 ltac:(by left) eq_refl Hapart).
    change (table_first (x64_entry, (0x600, 0x624))) with 0x600 in Hl.
    change (Z.of_nat (table_count (x64_entry, (0x600, 0x624)))) with 3 in Hl. split.
    + apply Forall_cons in Hs as [_ [[_ Hs] _]%Forall_cons]. specialize (Hs 0x3800). rewrite En in Hs.
      destruct (find_entry m' (arm_entry, (0x700, 0x710)) 0x3800) as [q|].
      * exists q. split; [done|]. destruct Hs as (Hq & Hle & _). cbn [fst] in *. unfold arm_entry in *.
        apply elem_of_cons in Hq as [Hq|Hq%list_elem_of_singleton]; rewrite Hq in *; [exfalso; revert Hle; vm_compute; congruence|reflexivity].
      * specialize (Hs [0; 48; 0; 0; 5; 0; 0; 0] ltac:(apply list_elem_of_further; by left)). by vm_compute in Hs.
    + destruct (lookup_function m' 0x600 3 0x1050); [apply Hl|].
      apply (Hl [64; 16; 0; 0; 240; 16; 0; 0; 8; 32; 0; 0]); [rewrite El; apply list_elem_of_further, list_elem_of_further; by left|].
      vm_compute. split; congruence.
Defined.
