(* ===== verification/LoadConfig.v ===== *)
(** * The load configuration and the TLS directory (lld/COFF/SymbolTable.cpp,
    Writer.cpp)

    [_load_config_used] and [_tls_used] are data of the program that the linker
    completes after the image is written: the load configuration points to the
    guard tables, which the linker checks, and to the dynamic relocations, which
    it fills in; the TLS directory gets the alignment of the thread-local data. *)

From S2P Require Import Prelude Memory Baserel Tables TablesProps.

#[local] Open Scope string_scope.
#[local] Open Scope list_scope.
#[local] Open Scope Z_scope.

(** ** Finding the load configuration *)

Inductive lc_init_error := UninitializedData | ChunkTooSmall | SizeTooLarge.
Inductive lc_init_warning :=
| ECMissing | NativeMissing | GuardWithoutLoadConfig | FlagsWithoutLoadConfig
| MisalignedChunk (align : Z) | MisalignedOffset (value : Z).

(** [_load_config_used]: the alignment and the contents of its section, unless it
    has no data, its size, and its offset. *)
Record load_config_sym := {
  ls_contents : option (list Z);
  ls_size : Z;
  ls_align : Z;
  ls_value : Z
}.

(** [loadConfigSym] is set, and its size, with a warning; or an error; or it is not. *)
Inductive lc_init :=
| LoadConfigSet (size : Z) (w : list lc_init_warning)
| LoadConfigError (e : lc_init_error)
| LoadConfigMissing (w : list lc_init_warning).

Definition initializeLoadConfig (is64 isEC isARM64X : bool) (guardCF dependentLoadFlags : Z)
    (sym : option load_config_sym) : lc_init :=
  match sym with
  | None =>
      LoadConfigMissing
        (if isEC then [ECMissing]
         else if isARM64X then [NativeMissing]
         else (if guardCF =? 0 then [] else [GuardWithoutLoadConfig]) ++
              (if dependentLoadFlags =? 0 then [] else [FlagsWithoutLoadConfig]))
  | Some sc =>
      match ls_contents sc with
      | None => LoadConfigError UninitializedData
      | Some secContents =>
          let offsetInChunk := ls_value sc in
          if ls_size sc <? u64 (offsetInChunk + 4) then LoadConfigError ChunkTooSmall
          else
            let loadConfigSize := le_value (take 4 (drop (Z.to_nat offsetInChunk) secContents)) in
            if ls_size sc <? u64 (offsetInChunk + loadConfigSize) then LoadConfigError SizeTooLarge
            else
              let expectedAlign := if is64 then 8 else 4 in
              LoadConfigSet loadConfigSize
                (if ls_align sc <? expectedAlign then [MisalignedChunk (ls_align sc)]
                 else if negb (offsetInChunk mod expectedAlign =? 0) then [MisalignedOffset offsetInChunk]
                 else [])
      end
  end.

(** ** The load configuration *)

(** [coff_load_configuration32] and [64]: the fields and their widths. *)
Definition load_config_fields (is64 : bool) : list (string * nat) :=
  let w := if is64 then 8%nat else 4%nat in
  [("Size", 4); ("TimeDateStamp", 4); ("MajorVersion", 2); ("MinorVersion", 2); ("GlobalFlagsClear", 4);
   ("GlobalFlagsSet", 4); ("CriticalSectionDefaultTimeout", 4); ("DeCommitFreeBlockThreshold", w);
   ("DeCommitTotalFreeThreshold", w); ("LockPrefixTable", w); ("MaximumAllocationSize", w);
   ("VirtualMemoryThreshold", w); ("ProcessAffinityMask", w); ("ProcessHeapFlags", 4); ("CSDVersion", 2);
   ("DependentLoadFlags", 2); ("EditList", w); ("SecurityCookie", w); ("SEHandlerTable", w); ("SEHandlerCount", w);
   ("GuardCFCheckFunction", w); ("GuardCFCheckDispatch", w); ("GuardCFFunctionTable", w); ("GuardCFFunctionCount", w);
   ("GuardFlags", 4); ("CodeIntegrity", 12); ("GuardAddressTakenIatEntryTable", w); ("GuardAddressTakenIatEntryCount", w);
   ("GuardLongJumpTargetTable", w); ("GuardLongJumpTargetCount", w); ("DynamicValueRelocTable", w);
   ("CHPEMetadataPointer", w); ("GuardRFFailureRoutine", w); ("GuardRFFailureRoutineFunctionPointer", w);
   ("DynamicValueRelocTableOffset", 4); ("DynamicValueRelocTableSection", 2); ("Reserved2", 2);
   ("GuardRFVerifyStackPointerFunctionPointer", w); ("HotPatchTableOffset", 4); ("Reserved3", 4);
   ("EnclaveConfigurationPointer", w); ("VolatileMetadataPointer", w); ("GuardEHContinuationTable", w);
   ("GuardEHContinuationCount", w); ("GuardXFGCheckFunctionPointer", w); ("GuardXFGDispatchFunctionPointer", w);
   ("GuardXFGTableDispatchFunctionPointer", w); ("CastGuardOsDeterminedFailureMode", w)]%nat.

(** [offsetof] and [sizeof] of a field. *)
Fixpoint field_of (l : list (string * nat)) (name : string) (off : Z) : Z * nat :=
  match l with
  | [] => (off, O)
  | (n, w) :: l => if String.eqb n name then (off, w) else field_of l name (off + Z.of_nat w)
  end.

(** The field [getBaserels] lists a fixup for. *)
Lemma chpe_field_offset :
  field_of (load_config_fields true) "CHPEMetadataPointer" 0 =
  (CHPEMetadataPointer_offset, Z.to_nat CHPEMetadataPointer_size).
Proof. reflexivity. Qed.

Inductive lc_warning := TooSmall (field : string) | NoDynamicRelocations | NotSet (field : string).

(** What a symbol of the load configuration is. *)
Inductive guard_symbol := IsSynthetic (rva : Z) | IsAbsolute (va : Z) | IsOther.

Section LoadConfig.
  Context (is64 : bool) (imageBase guardCF dependentLoadFlags : Z).
  (** The index of .reloc and the offset of the dynamic relocations in it, where
      there are any; on ARM64X, for the native table, where the EC load
      configuration is, if that one has the field. *)
  Context (dynamicRelocs : option (Z * Z)) (hybridLoadConfig : option Z) (findUnderscore : string -> guard_symbol).

Definition lc_field (name : string) : Z * nat := field_of (load_config_fields is64) name 0.
Definition lc_contains (size : Z) (name : string) : bool := (lc_field name).1 + Z.of_nat (lc_field name).2 <=? size.
Definition lc_read (m : mem) (p : Z) (name : string) : Z := read (lc_field name).2 m (p + (lc_field name).1).
Definition lc_write (m : mem) (p : Z) (name : string) (v : Z) : mem := write (lc_field name).2 m (p + (lc_field name).1) v.

Definition check_va (m : mem) (p : Z) (field sym : string) : list lc_warning :=
  match findUnderscore sym with
  | IsSynthetic rva => if lc_read m p field =? imageBase + rva then [] else [NotSet field]
  | _ => []
  end.

Definition check_absolute (m : mem) (p : Z) (field sym : string) : list lc_warning :=
  match findUnderscore sym with
  | IsAbsolute va => if lc_read m p field =? va then [] else [NotSet field]
  | _ => []
  end.

(** The checks of the guard fields. *)
Definition check_guard (m : mem) (p size : Z) : list lc_warning :=
  if guardCF =? 0 then []
  else if negb (lc_contains size "GuardFlags") then [TooSmall "GuardFlags"]
  else
    check_va m p "GuardCFFunctionTable" "__guard_fids_table" ++
    check_absolute m p "GuardCFFunctionCount" "__guard_fids_count" ++
    check_absolute m p "GuardFlags" "__guard_flags" ++
    (if lc_contains size "GuardAddressTakenIatEntryCount"
     then check_va m p "GuardAddressTakenIatEntryTable" "__guard_iat_table" ++
          check_absolute m p "GuardAddressTakenIatEntryCount" "__guard_iat_count"
     else []) ++
    (if negb (has_bit guardCF guardCF_LongJmp) then []
     else if negb (lc_contains size "GuardLongJumpTargetCount") then [TooSmall "GuardLongJumpTargetCount"]
     else
       check_va m p "GuardLongJumpTargetTable" "__guard_longjmp_table" ++
       check_absolute m p "GuardLongJumpTargetCount" "__guard_longjmp_count" ++
       (if negb (has_bit guardCF guardCF_EHCont) then []
        else if negb (lc_contains size "GuardEHContinuationCount") then [TooSmall "GuardEHContinuationCount"]
        else
          check_va m p "GuardEHContinuationTable" "__guard_eh_cont_table" ++
          check_absolute m p "GuardEHContinuationCount" "__guard_eh_cont_count")).

(** The fields that are filled in, at the structure at [p]; [None]: it is too
    small for /dependentloadflag. *)
Definition fill_load_config (m : mem) (p size : Z) : option (mem * list lc_warning) :=
  m ← (if dependentLoadFlags =? 0 then Some m
       else if lc_contains size "DependentLoadFlags" then Some (lc_write m p "DependentLoadFlags" dependentLoadFlags)
       else None);
  let '(m, ws) :=
    match dynamicRelocs with
    | None => (m, [])
    | Some (sec, off) =>
        if lc_contains size "DynamicValueRelocTableSection"
        then (lc_write (lc_write m p "DynamicValueRelocTableSection" sec) p "DynamicValueRelocTableOffset" off, [])
        else (m, [NoDynamicRelocations])
    end in
  let m := match hybridLoadConfig with
           | Some q => if lc_contains size "CHPEMetadataPointer"
                       then lc_write m p "CHPEMetadataPointer" (lc_read m q "CHPEMetadataPointer") else m
           | None => m
           end in
  Some (m, ws).

Definition prepareLoadConfig (m : mem) (p : Z) : mem * list lc_warning :=
  let size := read32le m p in
  match fill_load_config m p size with
  | None => (m, [TooSmall "DependentLoadFlags"])
  | Some (m, ws) => (m, ws ++ check_guard m p size)
  end.

End LoadConfig.

(** ** The alignment of thread-local data *)

Definition IMAGE_SCN_ALIGN_MASK := 0x00F00000.

(** The offset of [Characteristics] in the TLS directory. *)
Definition tls_characteristics (is64 : bool) : Z := if is64 then 36 else 20.

Definition getAlignment (characteristics : Z) : Z :=
  let Shift := (characteristics &&& IMAGE_SCN_ALIGN_MASK) >>> 20 in
  if 0 <? Shift then 1 <<< (Shift - 1) else 0.

Definition setAlignment (characteristics Align : Z) : Z :=
  let AlignBits := if Align =? 0 then 0 else (Z.log2 Align + 1) <<< 20 in
  (characteristics &&& u32 (Z.lnot IMAGE_SCN_ALIGN_MASK)) ||| AlignBits.

(** [tls]: the RVA of [_tls_used], with its section's RVA, file offset and raw
    size. [None]: it is malformed. *)
Definition fixTlsAlignment (is64 : bool) (tlsAlignment : Z) (tls : option (Z * Z * Z * Z)) (m : mem) : option mem :=
  match tls with
  | None => Some m
  | Some (rva, secRVA, fileOff, rawSize) =>
      let tlsOffset := rva - secRVA in
      if rawSize <? tlsOffset + (if is64 then 40 else 24) then None
      else
        let p := fileOff + tlsOffset + tls_characteristics is64 in
        Some (write32le m p (setAlignment (read32le m p) tlsAlignment))
  end.

(** ** Fields *)

Lemma field_of_pos l name off : off <= (field_of l name off).1.
Proof. revert off. induction l as [|[n w] l IH]; intros off; [done|]. cbn. case_match; [done|]. specialize (IH (off + Z.of_nat w)). lia. Qed.

Lemma lc_write_other is64 m p size name v x : lc_contains is64 size name = true -> x < p \/ p + size <= x ->
  lc_write is64 m p name v x = m x.
Proof.
  unfold lc_contains, lc_write. intros H%Z.leb_le Hx. apply write_other. pose proof (field_of_pos (load_config_fields is64) name 0).
  unfold lc_field in *. lia.
Qed.

Lemma lc_read_write is64 m p name v : lc_read is64 (lc_write is64 m p name v) p name = wrap (8 * Z.of_nat (lc_field is64 name).2) v.
Proof. apply read_write. Qed.

Definition fields_apart (a b : Z * nat) : Prop := a.1 + Z.of_nat a.2 <= b.1 \/ b.1 + Z.of_nat b.2 <= a.1.

Lemma lc_read_write_other is64 m p f g v : fields_apart (lc_field is64 f) (lc_field is64 g) ->
  lc_read is64 (lc_write is64 m p g v) p f = lc_read is64 m p f.
Proof. intros H. apply read_write_other. destruct H; lia. Qed.

(** The fields that the linker fills in, and the ones it checks. *)
Definition filled_fields : list string :=
  ["DependentLoadFlags"; "DynamicValueRelocTableSection"; "DynamicValueRelocTableOffset"; "CHPEMetadataPointer"].

(** ** Filling in *)

Section Fill.
Context (is64 : bool) (dependentLoadFlags : Z) (dynamicRelocs : option (Z * Z)) (hybridLoadConfig : option Z).
Abbreviation fill := (fill_load_config is64 dependentLoadFlags dynamicRelocs hybridLoadConfig).
Abbreviation contains := (lc_contains is64).

(** The three steps. *)
Definition flags_step (p size : Z) (m m1 : mem) : Prop :=
  m1 = m /\ dependentLoadFlags = 0 \/
   m1 = lc_write is64 m p "DependentLoadFlags" dependentLoadFlags /\ dependentLoadFlags <> 0 /\ contains size "DependentLoadFlags" = true.
Definition relocs_step (p size : Z) (ws : list lc_warning) (m1 m2 : mem) : Prop :=
  match dynamicRelocs with
  | Some (sec, off) =>
      m2 = lc_write is64 (lc_write is64 m1 p "DynamicValueRelocTableSection" sec) p "DynamicValueRelocTableOffset" off /\
        contains size "DynamicValueRelocTableSection" = true /\ ws = [] \/
      m2 = m1 /\ contains size "DynamicValueRelocTableSection" = false /\ ws = [NoDynamicRelocations]
  | None => m2 = m1 /\ ws = []
  end.
Definition chpe_step (p size : Z) (m2 M : mem) : Prop :=
  match hybridLoadConfig with
  | Some q => M = lc_write is64 m2 p "CHPEMetadataPointer" (lc_read is64 m2 q "CHPEMetadataPointer") /\ contains size "CHPEMetadataPointer" = true \/
      M = m2 /\ contains size "CHPEMetadataPointer" = false
  | None => M = m2
  end.

Lemma fill_steps m p size M ws : fill m p size = Some (M, ws) -> exists m1 m2,
  flags_step p size m m1 /\
  relocs_step p size ws m1 m2 /\
  chpe_step p size m2 M.
Proof using Type.
  unfold fill_load_config, flags_step, relocs_step, chpe_step. intros E. destruct (dependentLoadFlags =? 0) eqn:Ef;
    [|destruct (contains size "DependentLoadFlags") eqn:Ec; [|done]]; cbn in E.
  - exists m. destruct dynamicRelocs as [[sec off]|]; [destruct (contains size "DynamicValueRelocTableSection")|]; cbn in E; simplify_eq;
      eexists; (split; [left; split; [done|lia]|]); (split; [eauto|]);
      (destruct hybridLoadConfig; [case_match; eauto|done]).
  - eexists. destruct dynamicRelocs as [[sec off]|]; [destruct (contains size "DynamicValueRelocTableSection")|]; cbn in E; simplify_eq;
      eexists; (split; [right; split_and!; [done|lia|done]|]); (split; [eauto|]);
      (destruct hybridLoadConfig; [case_match; eauto|done]).
Qed.

(** The structure is the only memory that is written. *)
Lemma before_chpe m m1 m2 p size ws x :
  flags_step p size m m1 ->
  relocs_step p size ws m1 m2 -> x < p \/ p + size <= x -> m2 x = m x.
Proof using Type.
  unfold flags_step, relocs_step. intros H1 H2 Hx. transitivity (m1 x).
  - destruct dynamicRelocs as [[sec off]|]; [|by destruct H2 as [-> _]]. destruct H2 as [(-> & Hc & _)|[-> _]]; [|done].
    rewrite (lc_write_other is64 _ p size); [by apply (lc_write_other is64 _ p size)| |done].
    revert Hc. unfold lc_contains. destruct is64; intros Hc%Z.leb_le; apply Z.leb_le; revert Hc; vm_compute ((lc_field _ _).1 + _);
      vm_compute ((lc_field _ _).1 + _); lia.
  - destruct H1 as [[-> _]|(-> & _ & ?)]; [done|by apply (lc_write_other is64 m p size)].
Qed.

Lemma fill_outside m p size M ws x : fill m p size = Some (M, ws) -> x < p \/ p + size <= x -> M x = m x.
Proof using Type.
  intros (m1 & m2 & H1 & H2 & H3)%fill_steps Hx. rewrite <- (before_chpe m m1 m2 p size ws x H1 H2 Hx). unfold chpe_step in H3.
  destruct hybridLoadConfig as [q|]; [|by subst]. destruct H3 as [[-> ?]|[-> _]]; [|done]. by apply (lc_write_other is64 _ p size).
Qed.

Lemma other_field f g : f ∈ map fst (load_config_fields is64) -> g ∈ map fst (load_config_fields is64) -> f <> g ->
  fields_apart (lc_field is64 f) (lc_field is64 g).
Proof using Type.
  set (check := fun f g => String.eqb f g || ((lc_field is64 f).1 + Z.of_nat (lc_field is64 f).2 <=? (lc_field is64 g).1) ||
    ((lc_field is64 g).1 + Z.of_nat (lc_field is64 g).2 <=? (lc_field is64 f).1)).
  assert (H : forallb (fun f => forallb (check f) (map fst (load_config_fields is64))) (map fst (load_config_fields is64)) = true)
    by (destruct is64; vm_compute; reflexivity).
  intros Hf%list_elem_of_In Hg%list_elem_of_In Hne. rewrite forallb_forall in H. specialize (H f Hf). rewrite forallb_forall in H.
  specialize (H g Hg). unfold check in H. apply orb_true_iff in H as [[H%String.eqb_eq|H]%orb_true_iff|H]; [done|left; lia|right; lia].
Qed.

Lemma field_known f : existsb (String.eqb f) (map fst (load_config_fields is64)) = true -> f ∈ map fst (load_config_fields is64).
Proof using Type. intros (g & Hg & ->%String.eqb_eq)%existsb_exists. by apply list_elem_of_In. Qed.

#[local] Ltac field_in := apply field_known; destruct is64; reflexivity.

(** What the fields hold afterwards; the others are as they were. *)
Lemma fill_values m p size M ws : mem_ok m -> fill m p size = Some (M, ws) ->
  (dependentLoadFlags <> 0 -> lc_read is64 M p "DependentLoadFlags" = u16 dependentLoadFlags) /\
  (forall sec off, dynamicRelocs = Some (sec, off) -> ws = [] ->
    lc_read is64 M p "DynamicValueRelocTableSection" = u16 sec /\ lc_read is64 M p "DynamicValueRelocTableOffset" = u32 off) /\
  (forall q, hybridLoadConfig = Some q -> contains size "CHPEMetadataPointer" = true ->
    (forall x, p <= x < p + size -> x < q \/ q + 4096 <= x) ->
    lc_read is64 M p "CHPEMetadataPointer" = lc_read is64 m q "CHPEMetadataPointer") /\
  forall f, f ∈ map fst (load_config_fields is64) -> f ∉ filled_fields -> lc_read is64 M p f = lc_read is64 m p f.
Proof using Type.
  intros Hok E. pose proof E as (m1 & m2 & H1 & H2 & H3)%fill_steps.
  pose proof (before_chpe m m1 m2 p size ws) as Hbefore. specialize (fun x => Hbefore x H1 H2) as Hbefore.
  unfold flags_step, relocs_step, chpe_step in H1, H2, H3.
  assert (HM : forall f, f ∈ map fst (load_config_fields is64) -> f <> "CHPEMetadataPointer" -> lc_read is64 M p f = lc_read is64 m2 p f).
  { intros f Hf Hne. destruct hybridLoadConfig as [q|]; [|by subst]. destruct H3 as [[-> _]|[-> _]]; [|done].
    apply lc_read_write_other, other_field; [done|field_in|done]. }
  assert (H21 : forall f, f ∈ map fst (load_config_fields is64) -> f <> "DynamicValueRelocTableSection" -> f <> "DynamicValueRelocTableOffset" ->
    lc_read is64 m2 p f = lc_read is64 m1 p f).
  { intros f Hf Hne1 Hne2. destruct dynamicRelocs as [[sec off]|]; [|by destruct H2 as [-> _]]. destruct H2 as [(-> & _)|[-> _]]; [|done].
    rewrite !lc_read_write_other; [done|apply other_field; [done|field_in|done]..]. }
  split_and!.
  - intros Hf. rewrite HM, H21 by (done || field_in). destruct H1 as [[_ ?]|(-> & _)]; [done|].
    rewrite lc_read_write. destruct is64; reflexivity.
  - intros sec off -> ->. destruct H2 as [(-> & _ & _)|(_ & _ & ?)]; [|done].
    rewrite !HM by (done || field_in). split; [|rewrite lc_read_write; by destruct is64].
    rewrite lc_read_write_other by (apply other_field; [field_in..|done]). rewrite lc_read_write. by destruct is64.
  - intros q Eq Hc Hout. rewrite Eq in H3. destruct H3 as [[-> _]|[_ ?]]; [|congruence]. rewrite lc_read_write.
    assert (Er : lc_read is64 m2 q "CHPEMetadataPointer" = lc_read is64 m q "CHPEMetadataPointer").
    { apply read_ext. intros k Hk. apply Hbefore.
      assert (0 <= (lc_field is64 "CHPEMetadataPointer").1 <= 1024 /\ Z.of_nat (lc_field is64 "CHPEMetadataPointer").2 <= 8)
        by (destruct is64; vm_compute; repeat split; discriminate).
      set (x := q + (lc_field is64 "CHPEMetadataPointer").1 + k) in *.
      destruct (decide (p <= x < p + size)) as [Hin|Hin]; [specialize (Hout x Hin)|]; lia. }
    rewrite Er. apply wrap_small. apply read_bound, Hok.
  - intros f Hf Hnot. unfold filled_fields in Hnot. rewrite !not_elem_of_cons in Hnot. destruct Hnot as (Hn1 & Hn2 & Hn3 & Hn4 & _).
    rewrite HM, H21 by done. destruct H1 as [[-> _]|(-> & _)]; [done|].
    apply lc_read_write_other, other_field; [done|field_in|done].
Qed.

End Fill.

(** ** Checking *)

(** The field [f] points to where the table [sym] is; it is the number [sym] stands for. *)
Definition points_to is64 imageBase (find : string -> guard_symbol) (m : mem) (p : Z) (f sym : string) : Prop :=
  forall rva, find sym = IsSynthetic rva -> lc_read is64 m p f = imageBase + rva.
Definition holds_value is64 (find : string -> guard_symbol) (m : mem) (p : Z) (f sym : string) : Prop :=
  forall va, find sym = IsAbsolute va -> lc_read is64 m p f = va.

(** A table and its count. *)
Definition describes is64 imageBase find m p (table count sym_table sym_count : string) : Prop :=
  points_to is64 imageBase find m p table sym_table /\ holds_value is64 find m p count sym_count.

Lemma check_va_nil is64 imageBase find m p f sym : check_va is64 imageBase find m p f sym = [] -> points_to is64 imageBase find m p f sym.
Proof. unfold check_va, points_to. intros H rva E. rewrite E in H. destruct (_ =? _) eqn:Eq; [lia|done]. Qed.

Lemma check_absolute_nil is64 find m p f sym : check_absolute is64 find m p f sym = [] -> holds_value is64 find m p f sym.
Proof. unfold check_absolute, holds_value. intros H rva E. rewrite E in H. destruct (_ =? _) eqn:Eq; [lia|done]. Qed.

#[local] Strategy 1000 [check_va check_absolute lc_contains lc_read has_bit app].

Lemma check_guard_nil is64 imageBase guardCF find m p size : check_guard is64 imageBase guardCF find m p size = [] -> guardCF <> 0 ->
  describes is64 imageBase find m p "GuardCFFunctionTable" "GuardCFFunctionCount" "__guard_fids_table" "__guard_fids_count" /\
  holds_value is64 find m p "GuardFlags" "__guard_flags" /\
  (lc_contains is64 size "GuardAddressTakenIatEntryCount" = true ->
    describes is64 imageBase find m p "GuardAddressTakenIatEntryTable" "GuardAddressTakenIatEntryCount" "__guard_iat_table" "__guard_iat_count") /\
  (has_bit guardCF guardCF_LongJmp = true ->
    describes is64 imageBase find m p "GuardLongJumpTargetTable" "GuardLongJumpTargetCount" "__guard_longjmp_table" "__guard_longjmp_count") /\
  (has_bit guardCF guardCF_LongJmp = true -> has_bit guardCF guardCF_EHCont = true ->
    describes is64 imageBase find m p "GuardEHContinuationTable" "GuardEHContinuationCount" "__guard_eh_cont_table" "__guard_eh_cont_count").
Proof.
  intros H Hg. unfold check_guard in H. rewrite (proj2 (Z.eqb_neq _ _) Hg) in H. destruct (negb _); [done|].
  apply app_nil in H as [H1 H]. apply app_nil in H as [H2 H]. apply app_nil in H as [H3 H]. apply app_nil in H as [H4 H].
  apply check_va_nil in H1. apply check_absolute_nil in H2. apply check_absolute_nil in H3.
  split; [exact (conj H1 H2)|]. split; [exact H3|]. clear H1 H2 H3. split.
  { intros Ec. rewrite Ec in H4. apply app_nil in H4 as [H1 H2]. apply check_va_nil in H1. apply check_absolute_nil in H2. exact (conj H1 H2). }
  clear H4. destruct (has_bit guardCF guardCF_LongJmp); [|split; intros; discriminate]. cbn [negb] in H. destruct (negb _); [discriminate|].
  apply app_nil in H as [H5 H]. apply app_nil in H as [H6 H]. apply check_va_nil in H5. apply check_absolute_nil in H6.
  split; [intros _; exact (conj H5 H6)|]. intros _ He. rewrite He in H. cbn [negb] in H. destruct (negb _); [discriminate|].
  apply app_nil in H as [H7 H8]. apply check_va_nil in H7. apply check_absolute_nil in H8. exact (conj H7 H8).
Qed.

(** Nothing is checked after the long jump targets when there are none: the
    continuation table of exception handlers goes unchecked. *)
Example eh_continuations_unchecked m :
  check_guard true 0 (0x1 ||| guardCF_EHCont) (fun _ => IsSynthetic 4) m 0 320 =
  check_guard true 0 0x1 (fun _ => IsSynthetic 4) m 0 320.
Proof. reflexivity. Qed.

Lemma le_value_ok bs : bytes_ok bs -> word_ok (8 * Z.of_nat (length bs)) (le_value bs).
Proof.
  induction 1 as [|b bs Hb _ IH]; [done|]. cbn [le_value length]. unfold word_ok, byte_ok in *.
  replace (8 * Z.of_nat (S (length bs))) with (8 + 8 * Z.of_nat (length bs)) by lia. rewrite Z.pow_add_r by lia. lia.
Qed.

(** Completing the load configuration never writes outside the section chunk it is
    in, when no relocation changes its Size field. When [_load_config_used] was
    accepted on its section contents and the image holds the Size they have, the
    structure at its place in the image is inside the chunk, and whatever the flags,
    the dynamic relocations and the native copy on ARM64X, every byte before and
    after the structure is what it was; where /dependentloadflag does not fit,
    nothing at all is written. *)
Theorem load_config_bounds (is64 isEC isARM64X : bool) (imageBase guardCF flags size : Z) (dyn : option (Z * Z)) (hybrid : option Z)
    (find : string -> guard_symbol) (sc : load_config_sym) (contents : list Z) (iw : list lc_init_warning) (m : mem) (q : Z)
    (Hinit : initializeLoadConfig is64 isEC isARM64X guardCF flags (Some sc) = LoadConfigSet size iw)
    (Hdata : ls_contents sc = Some contents) (Hsize : ls_size sc = Z.of_nat (length contents)) (Hlen : Z.of_nat (length contents) < 2 ^ 32)
    (Hval : word_ok 32 (ls_value sc)) (Hok : bytes_ok contents)
    (Hplaced : bytes_at m (q + ls_value sc) 4 = take 4 (drop (Z.to_nat (ls_value sc)) contents)) :
  let p := q + ls_value sc in
  let M := (prepareLoadConfig is64 imageBase guardCF flags dyn hybrid find m p).1 in
  read32le m p = size /\ q <= p /\ p + 4 <= q + ls_size sc /\ p + size <= q + ls_size sc /\
  (forall x, x < p \/ p + size <= x -> M x = m x) /\
  (flags <> 0 -> lc_contains is64 size "DependentLoadFlags" = false -> M = m).
Proof.
  unfold word_ok in Hval. unfold initializeLoadConfig in Hinit. rewrite Hdata in Hinit.
  destruct (ls_size sc <? u64 (ls_value sc + 4)) eqn:E1; [done|]. rewrite wrap_small in E1 by (unfold word_ok; lia).
  set (s := le_value (take 4 (drop (Z.to_nat (ls_value sc)) contents))) in Hinit.
  assert (Hs : word_ok 32 s).
  { pose proof (le_value_ok (take 4 (drop (Z.to_nat (ls_value sc)) contents)) ltac:(by apply Forall_take, Forall_drop)) as H.
    rewrite length_take, length_drop, Nat.min_l in H by lia. exact H. }
  destruct (ls_size sc <? u64 (ls_value sc + s)) eqn:E2; [done|]. unfold word_ok in Hs. rewrite wrap_small in E2 by (unfold word_ok; lia).
  assert (s = size) as <- by (cbn in Hinit; by simplify_eq). cbn zeta. set (p := q + ls_value sc).
  assert (Hread : read32le m p = s).
  { unfold s. rewrite <- Hplaced, (read_bytes 4 4) by lia. done. }
  unfold prepareLoadConfig. rewrite Hread. split_and!; [done|lia|lia|lia|..].
  - intros x Hx. destruct (fill_load_config _ _ _ _ _ _ _) as [[M ws]|] eqn:E; [|done]. by apply (fill_outside _ _ _ _ _ _ _ _ _ _ E).
  - intros Hf Hc. unfold fill_load_config. rewrite Hc, (proj2 (Z.eqb_neq _ _) Hf). done.
Qed.

(** A link without a warning about the load configuration leaves it complete.
    The flags, the place of the dynamic relocations and, on ARM64X, the metadata of
    the EC structure are what the fields hold, every other field is what the program
    put there; and with control flow guard on, the fields of each table that the
    options and the size of the structure call for hold the address of the table
    and its count. *)
Theorem load_config_checked (is64 : bool) (imageBase guardCF flags : Z) (dyn : option (Z * Z)) (hybrid : option Z)
    (find : string -> guard_symbol) (m : mem) (p : Z) (Hok : mem_ok m) (Hguard : guardCF <> 0) :
  let size := read32le m p in
  let '(M, ws) := prepareLoadConfig is64 imageBase guardCF flags dyn hybrid find m p in
  ws = [] ->
  (flags <> 0 -> lc_read is64 M p "DependentLoadFlags" = u16 flags) /\
  (forall sec off, dyn = Some (sec, off) ->
    lc_read is64 M p "DynamicValueRelocTableSection" = u16 sec /\ lc_read is64 M p "DynamicValueRelocTableOffset" = u32 off) /\
  (forall q, hybrid = Some q -> lc_contains is64 size "CHPEMetadataPointer" = true ->
    (forall x, p <= x < p + size -> x < q \/ q + 4096 <= x) ->
    lc_read is64 M p "CHPEMetadataPointer" = lc_read is64 m q "CHPEMetadataPointer") /\
  (forall f, f ∈ map fst (load_config_fields is64) -> f ∉ filled_fields -> lc_read is64 M p f = lc_read is64 m p f) /\
  describes is64 imageBase find M p "GuardCFFunctionTable" "GuardCFFunctionCount" "__guard_fids_table" "__guard_fids_count" /\
  holds_value is64 find M p "GuardFlags" "__guard_flags" /\
  (lc_contains is64 size "GuardAddressTakenIatEntryCount" = true ->
    describes is64 imageBase find M p "GuardAddressTakenIatEntryTable" "GuardAddressTakenIatEntryCount" "__guard_iat_table" "__guard_iat_count") /\
  (has_bit guardCF guardCF_LongJmp = true ->
    describes is64 imageBase find M p "GuardLongJumpTargetTable" "GuardLongJumpTargetCount" "__guard_longjmp_table" "__guard_longjmp_count" /\
    (has_bit guardCF guardCF_EHCont = true ->
      describes is64 imageBase find M p "GuardEHContinuationTable" "GuardEHContinuationCount" "__guard_eh_cont_table" "__guard_eh_cont_count")).
Proof.
  cbn zeta. unfold prepareLoadConfig. destruct (fill_load_config _ _ _ _ _ _ _) as [[M ws]|] eqn:E; [|done].
  intros [-> Hc]%app_nil. destruct (fill_values _ _ _ _ m p _ M [] Hok E) as (H1 & H2 & H3 & H4).
  apply check_guard_nil in Hc as (G1 & G2 & G3 & G4 & G5); [|done].
  split; [exact H1|]. split; [intros sec off Ed; by apply H2|]. split; [exact H3|]. split; [exact H4|].
  split; [exact G1|]. split; [exact G2|]. split; [exact G3|]. intros Hl. split; [exact (G4 Hl)|]. exact (G5 Hl).
Qed.

(** A structure of 0xa0 bytes at 8 in a chunk, with guard tables. *)
Definition demo_lc_contents : list Z :=
  repeat 0 8 ++ le_bytes 4 0x94 ++ repeat 0 124 ++ le_bytes 8 0x140002000 ++ le_bytes 8 3 ++ le_bytes 4 0x500 ++ repeat 0 20.
Definition demo_lc : load_config_sym :=
  {| ls_contents := Some demo_lc_contents; ls_size := Z.of_nat (length demo_lc_contents); ls_align := 8; ls_value := 8 |}.
Definition demo_lc_find (s : string) : guard_symbol :=
  if String.eqb s "__guard_fids_table" then IsSynthetic 0x2000
  else if String.eqb s "__guard_fids_count" then IsAbsolute 3
  else if String.eqb s "__guard_flags" then IsAbsolute 0x500 else IsOther.
Definition demo_lc_mem : mem := memcpy (fun _ => 0) 0x400 demo_lc_contents.

Lemma load_config_bounds_witness :
  initializeLoadConfig true false false 1 0x800 (Some demo_lc) = LoadConfigSet 0x94 [] /\
  (prepareLoadConfig true 0x140000000 1 0x800 None None demo_lc_find demo_lc_mem 0x408).1 0x4a0 = demo_lc_mem 0x4a0 /\
  read32le demo_lc_mem 0x408 = 0x94.
Proof.
  assert (Hinit : initializeLoadConfig true false false 1 0x800 (Some demo_lc) = LoadConfigSet 0x94 []) by (vm_compute; reflexivity).
  split; [exact Hinit|].
  destruct (load_config_bounds true false false 0x140000000 1 0x800 0x94 None None demo_lc_find demo_lc demo_lc_contents [] demo_lc_mem 0x400
    Hinit eq_refl eq_refl ltac:(vm_compute; reflexivity) ltac:(split; vm_compute; congruence)
    ltac:(apply (bool_decide_unpack _); vm_compute; exact I) ltac:(vm_compute; reflexivity)) as (H1 & _ & _ & _ & H2 & _).
  split; [apply H2; right; vm_compute; discriminate|exact H1].
Defined.

(** With a Size that a relocation made larger than the one that was checked, a
    field behind the end of the chunk is written. *)
Lemma relocated_size_escapes :
  let m := write64le (write32le demo_lc_mem 0x408 0x140) (0x800 + 200) 7 in
  initializeLoadConfig true false false 1 0x800 (Some demo_lc) = LoadConfigSet 0x94 [] /\
  0x400 + ls_size demo_lc <= 0x408 + 200 /\
  (prepareLoadConfig true 0x140000000 1 0x800 None (Some 0x800) demo_lc_find m 0x408).1 (0x408 + 200) = 7 /\
  m (0x408 + 200) = 0.
Proof. vm_compute. split_and!; congruence. Qed.

Lemma load_config_checked_witness :
  mem_ok demo_lc_mem /\ (prepareLoadConfig true 0x140000000 1 0x800 None None demo_lc_find demo_lc_mem 0x408).2 = [] /\
  lc_read true (prepareLoadConfig true 0x140000000 1 0x800 None None demo_lc_find demo_lc_mem 0x408).1 0x408 "GuardCFFunctionTable" = 0x140002000.
Proof.
  assert (Hok : mem_ok demo_lc_mem).
  { apply memcpy_ok; [intros a; by split|]. apply (bool_decide_unpack _); vm_compute; exact I. }
  split; [exact Hok|]. assert (Hw : (prepareLoadConfig true 0x140000000 1 0x800 None None demo_lc_find demo_lc_mem 0x408).2 = [])
    by (vm_compute; reflexivity). split; [exact Hw|].
  pose proof (load_config_checked true 0x140000000 1 0x800 None None demo_lc_find demo_lc_mem 0x408 Hok ltac:(discriminate)) as H.
  destruct (prepareLoadConfig _ _ _ _ _ _ _ _ _) as [M ws]. destruct (H Hw) as (_ & _ & _ & _ & [H1 _] & _).
  exact (H1 0x2000 eq_refl).
Defined.

(** ** Thread-local alignment *)

Lemma testbit_align_mask i : 0 <= i -> Z.testbit IMAGE_SCN_ALIGN_MASK i = (20 <=? i) && (i <? 24).
Proof.
  intros Hi. change IMAGE_SCN_ALIGN_MASK with (Z.shiftl (Z.ones 4) 20). rewrite Z.shiftl_spec by done.
  destruct (Z.leb_spec 20 i); cbn; [|apply Z.testbit_neg_r; lia].
  destruct (Z.ltb_spec i 24); [apply Z.ones_spec_low; lia|apply Z.ones_spec_high; lia].
Qed.

(** Each bit of the new characteristics. *)
Lemma testbit_setAlignment c k i : word_ok 32 c -> 0 <= k <= 13 -> 0 <= i ->
  Z.testbit (setAlignment c (2 ^ k)) i = if (20 <=? i) && (i <? 24) then Z.testbit (k + 1) (i - 20) else Z.testbit c i.
Proof.
  intros Hc Hk Hi. unfold setAlignment. pose proof (Z.pow_pos_nonneg 2 k ltac:(lia) ltac:(lia)).
  rewrite (proj2 (Z.eqb_neq (2 ^ k) 0)), Z.log2_pow2 by lia.
  rewrite Z.lor_spec, Z.land_spec, testbit_wrap, Z.lnot_spec, testbit_align_mask, Z.shiftl_spec by lia.
  destruct (Z.leb_spec 20 i); cbn.
  - destruct (Z.ltb_spec i 24); cbn; [by rewrite !andb_false_r|]. rewrite andb_true_r.
    rewrite (testbit_high 4 (k + 1)) by (unfold word_ok; lia). rewrite orb_false_r.
    destruct (Z.ltb_spec i 32); [by rewrite andb_true_r|]. by rewrite (testbit_high 32 c) by (done || lia).
  - rewrite (Z.testbit_neg_r (k + 1)) by lia. rewrite orb_false_r. rewrite (proj2 (Z.ltb_lt i 32)) by lia. by rewrite andb_true_r.
Qed.

Lemma getAlignment_setAlignment c k : word_ok 32 c -> 0 <= k <= 13 -> getAlignment (setAlignment c (2 ^ k)) = 2 ^ k.
Proof.
  intros Hc Hk. unfold getAlignment.
  assert (E : (setAlignment c (2 ^ k) &&& IMAGE_SCN_ALIGN_MASK) >>> 20 = k + 1).
  { apply Z.bits_inj'. intros i Hi. rewrite Z.shiftr_spec, Z.land_spec, testbit_setAlignment, testbit_align_mask by (done || lia).
    rewrite (proj2 (Z.leb_le 20 (i + 20))) by lia. cbn [andb]. destruct (Z.ltb_spec (i + 20) 24); cbn [andb].
    - rewrite andb_true_r. f_equal. lia.
    - rewrite andb_false_r. symmetry. apply (testbit_high 4); [unfold word_ok; lia|lia]. }
  rewrite E. rewrite (proj2 (Z.ltb_lt 0 (k + 1))) by lia. rewrite Z.shiftl_mul_pow2 by lia. replace (k + 1 - 1) with k by lia. lia.
Qed.

Lemma setAlignment_ok c k : word_ok 32 c -> 0 <= k <= 13 -> word_ok 32 (setAlignment c (2 ^ k)).
Proof.
  intros Hc Hk. apply word_ok_bits; [lia| |].
  - unfold setAlignment. apply Z.lor_nonneg. split; [apply Z.land_nonneg; left; apply Hc|].
    case_match; [done|]. apply Z.shiftl_nonneg. pose proof (Z.log2_nonneg (2 ^ k)). lia.
  - intros i Hi. rewrite testbit_setAlignment by (done || lia). rewrite (proj2 (Z.ltb_ge i 24)), andb_false_r by lia.
    by apply (testbit_high 32); [|lia].
Qed.

(** The alignment of thread-local data that the loader reads from the TLS
    directory is the one the linker computed, for every power of two up to 8192; the
    other bits of the directory's characteristics are the program's, and only the
    four bytes of that field, inside the section's raw data, are written. *)
Theorem tls_alignment_roundtrip (is64 : bool) (k rva secRVA fileOff rawSize : Z) (m m' : mem) (Hok : mem_ok m)
    (Hk : 0 <= k <= 13) (Hrva : secRVA <= rva)
    (E : fixTlsAlignment is64 (2 ^ k) (Some (rva, secRVA, fileOff, rawSize)) m = Some m') :
  let p := fileOff + (rva - secRVA) + tls_characteristics is64 in
  fileOff <= p /\ p + 4 <= fileOff + rawSize /\
  getAlignment (read32le m' p) = 2 ^ k /\
  (forall i, 0 <= i -> i < 20 \/ 24 <= i -> Z.testbit (read32le m' p) i = Z.testbit (read32le m p) i) /\
  (forall x, x < p \/ p + 4 <= x -> m' x = m x) /\
  fixTlsAlignment is64 (2 ^ k) (Some (rva, secRVA, fileOff, rawSize)) m' = Some (write32le m' p (read32le m' p)).
Proof.
  unfold fixTlsAlignment in E. cbn zeta. destruct (rawSize <? _) eqn:Hr; [done|]. set (p := fileOff + (rva - secRVA) + tls_characteristics is64) in *.
  injection E as <-. pose proof (read_bound 4 m p Hok) as Hc. change (8 * Z.of_nat 4) with 32 in Hc.
  assert (Er : read32le (write32le m p (setAlignment (read32le m p) (2 ^ k))) p = setAlignment (read32le m p) (2 ^ k)).
  { rewrite read_write. apply wrap_small. by apply setAlignment_ok. }
  rewrite Er. assert (Ht : 0 <= tls_characteristics is64 /\ tls_characteristics is64 + 4 <= if is64 then 40 else 24) by (by destruct is64).
  split_and!; [lia|lia|by apply getAlignment_setAlignment|..].
  - intros i Hi Hout. rewrite testbit_setAlignment by done. destruct (Z.leb_spec 20 i), (Z.ltb_spec i 24); cbn; (done || lia).
  - intros x Hx. apply write_other. lia.
  - unfold fixTlsAlignment. rewrite Hr. fold p. rewrite Er. do 2 f_equal.
    apply Z.bits_inj'. intros i Hi. rewrite !testbit_setAlignment by (done || by apply setAlignment_ok).
    by destruct (_ && _).
Qed.

Lemma tls_alignment_roundtrip_witness :
  mem_ok (fun _ => 0xff) /\
  exists m', fixTlsAlignment true (2 ^ 6) (Some (0x3010, 0x3000, 0x800, 0x200)) (fun _ => 0xff) = Some m' /\
    getAlignment (read32le m' 0x834) = 64 /\ m' 0x833 = 0xff.
Proof.
  assert (Hok : mem_ok (fun _ => 0xff)) by (intros a; split; reflexivity || discriminate).
  split; [exact Hok|]. eexists. split; [reflexivity|].
  destruct (tls_alignment_roundtrip true 6 0x3010 0x3000 0x800 0x200 (fun _ => 0xff) _ Hok ltac:(lia) ltac:(lia) eq_refl)
    as (_ & _ & H1 & _ & H2 & _).
  split; [exact H1|]. apply H2. left. reflexivity.
Defined.
