(* ===== verification/Chpe.v ===== *)
(** * CHPE metadata (lld/COFF/Writer.cpp, Chunks.cpp)

    The tables by which an ARM64EC or ARM64X image tells the system which code it
    is in: the code map, the ranges of the x64 export thunks and their
    redirections. [createECCodeMap] itself is in Layout.v, since the layout makes
    room for it; here are the chunks that write the tables ([ECCodeMapChunk],
    [CHPECodeRangesChunk], [CHPERedirectionChunk]), what fills them
    ([createECChunks]) and the values of the symbols that name them
    ([setECSymbols]; its dynamic relocations are in Arm64X.v). *)

From S2P Require Import Prelude Memory Layout.

#[local] Open Scope string_scope.
#[local] Open Scope list_scope.
#[local] Open Scope Z_scope.

(** [chpe_range_type]. *)
Definition RANGE_Arm64 : Z := 0.
Definition RANGE_Arm64EC : Z := 1.
Definition RANGE_Amd64 : Z := 2.

(** An export thunk and the symbol it stands for. *)
Definition export_thunk : Type := nat * nat.

Definition sizeof_chpe_range_entry : Z := 8.
Definition sizeof_chpe_code_range_entry : Z := 12.
Definition sizeof_chpe_redirection_entry : Z := 8.

(** ** Writing the tables *)

Section Chunks.
  Context (chunkRVA chunkSize symRVA : nat -> Z).

Definition ECCodeMapChunk_getSize (map : list (lchunk * lchunk * Z)) : Z := Z.of_nat (length map) * sizeof_chpe_range_entry.

Fixpoint ECCodeMapChunk_writeTo (map : list (lchunk * lchunk * Z)) (table : Z) (m : mem) : mem :=
  match map with
  | [] => m
  | (first, last, type) :: map =>
      let start := u32 (chunkRVA (c_id first) &&& Z.lnot 0xfff) in
      let m := write32le m table (start ||| type) in
      let m := write32le m (table + 4) (chunkRVA (c_id last) + c_size last - start) in
      ECCodeMapChunk_writeTo map (table + sizeof_chpe_range_entry) m
  end.

Definition CHPECodeRangesChunk_getSize (exportThunks : list export_thunk) : Z :=
  Z.of_nat (length exportThunks) * sizeof_chpe_code_range_entry.

Fixpoint CHPECodeRangesChunk_writeTo (exportThunks : list export_thunk) (ranges : Z) (m : mem) : mem :=
  match exportThunks with
  | [] => m
  | (thunk, _) :: exportThunks =>
      let start := u32 (chunkRVA thunk) in
      let m := write32le m ranges start in
      let m := write32le m (ranges + 4) (start + chunkSize thunk) in
      let m := write32le m (ranges + 8) start in
      CHPECodeRangesChunk_writeTo exportThunks (ranges + sizeof_chpe_code_range_entry) m
  end.

(** With room for a terminator, which is left as the buffer is. *)
Definition CHPERedirectionChunk_getSize (exportThunks : list export_thunk) : Z :=
  (Z.of_nat (length exportThunks) + 1) * sizeof_chpe_redirection_entry.

Fixpoint CHPERedirectionChunk_writeTo (exportThunks : list export_thunk) (entries : Z) (m : mem) : mem :=
  match exportThunks with
  | [] => m
  | (thunk, target) :: exportThunks =>
      let m := write32le m entries (chunkRVA thunk) in
      let m := write32le m (entries + 4) (symRVA target) in
      CHPERedirectionChunk_writeTo exportThunks (entries + sizeof_chpe_redirection_entry) m
  end.
End Chunks.

(** ** Filling them *)

(** The chunk of an EXP+ symbol, as [createECChunks] asks of it. *)
Inductive exp_chunk :=
  | ExportThunkChunk (chunk target : nat)
  | RegularChunk (chunk : nat) (live amd64 : bool)    (* of a DefinedRegular *)
  | AnotherChunk.

(** [es_chunk]: [None] when the symbol is not defined or has no chunk. *)
Record exp_symbol := { es_name : string; es_chunk : option exp_chunk }.

(** A symbol found by name: not defined, or defined without a chunk, or with one
    of an EC machine or not. *)
Inductive found_symbol :=
  | FoundUndefined
  | FoundNoChunk
  | FoundChunk (sym : nat) (ec : bool).

Record ec_chunks := {
  hexpthk : list nat;                  (* chunks added to .hexpthk *)
  exportThunks : list export_thunk;
  ec_rdata : list string;              (* the tables added to .rdata, by the symbol set to each *)
  ec_a64xrm : list string              (* and to .a64xrm *)
}.

Section Create.
  Context (find : string -> option found_symbol).

(** One turn of the loop. None: the chunk of a symbol without one is asked for
    its machine. *)
Definition add_export_thunk (st : ec_chunks) (s : exp_symbol) : option ec_chunks :=
  match es_chunk s with
  | None | Some AnotherChunk => Some st
  | Some (ExportThunkChunk thunk target) =>
      Some {| hexpthk := hexpthk st ++ [thunk]; exportThunks := exportThunks st ++ [(thunk, target)];
              ec_rdata := ec_rdata st; ec_a64xrm := ec_a64xrm st |}
  | Some (RegularChunk chunk live amd64) =>
      if negb live || negb amd64 then Some st
      else
        let targetName := str_drop 4 (es_name s) in
        let targetSym := match find (targetName ++ "$hp_target") with Some t => Some t | None => find targetName end in
        match targetSym with
        | None | Some FoundUndefined => Some st
        | Some FoundNoChunk => None
        | Some (FoundChunk t ec) =>
            Some (if ec then {| hexpthk := hexpthk st; exportThunks := exportThunks st ++ [(chunk, t)];
                                ec_rdata := ec_rdata st; ec_a64xrm := ec_a64xrm st |}
                  else st)
        end
  end.

Fixpoint add_export_thunks (l : list exp_symbol) (st : ec_chunks) : option ec_chunks :=
  match l with
  | [] => Some st
  | s :: l => st ← add_export_thunk st s; add_export_thunks l st
  end.

Definition createECChunks (expSymbols : list exp_symbol) : option ec_chunks :=
  st ← add_export_thunks expSymbols {| hexpthk := []; exportThunks := []; ec_rdata := []; ec_a64xrm := [] |};
  Some {| hexpthk := hexpthk st; exportThunks := exportThunks st;
          ec_rdata := ["__hybrid_code_map"; "__x64_code_ranges_to_entry_points"];
          ec_a64xrm := ["__arm64x_redirection_metadata"] |}.
End Create.

(** ** The symbols *)

(** What [setECSymbols] gives the metadata symbols: a chunk or a number. *)
Record ec_symbols := {
  sorted_thunks : list export_thunk;
  rfe_table : option nat;
  rfe_size : option Z;
  ranges_count : Z;
  redirection_count : Z;
  auxiliary_iat : option nat;
  auxiliary_iat_copy : option nat;
  auxiliary_delayload_iat : option nat;
  auxiliary_delayload_iat_copy : option nat;
  native_entrypoint : option nat      (* the symbol of the EC entry point, ARM64X only *)
}.

Section Symbols.
  Context (chunkRVA chunkSize : nat -> Z).

(** [chpePdata]: the exception table of the EC view. [entry]: the entry symbol of
    the EC view, with its target if it is an export thunk. *)
Definition setECSymbols (arm64x : bool) (thunks : list export_thunk) (pdata hybridPdata : option (nat * nat))
    (auxIat auxIatCopy delayAuxIat delayAuxIatCopy : list nat) (entry : option (nat * option nat)) : ec_symbols :=
  let chpePdata := if arm64x then hybridPdata else pdata in
  let thunks := stable_sort (fun a b => chunkRVA a.1 <? chunkRVA b.1) thunks in
  {| sorted_thunks := thunks;
     rfe_table := fst <$> chpePdata;
     rfe_size := (fun p => u64 (chunkRVA p.2 + chunkSize p.2 - chunkRVA p.1)) <$> chpePdata;
     ranges_count := Z.of_nat (length thunks);
     redirection_count := Z.of_nat (length thunks);
     auxiliary_iat := head auxIat;
     auxiliary_iat_copy := head auxIatCopy;
     auxiliary_delayload_iat := head delayAuxIat;
     auxiliary_delayload_iat_copy := head delayAuxIatCopy;
     native_entrypoint :=
       if arm64x then match entry with Some (s, target) => Some (default s target) | None => None end else None |}.
End Symbols.

(** ** The system's side *)

(** The type of the code at an RVA, by the code map of [count] entries. *)
Fixpoint code_type (m : mem) (table : Z) (count : nat) (rva : Z) : option Z :=
  match count with
  | O => None
  | S count =>
      let start := read32le m table in
      if ((start &&& Z.lnot 3) <=? rva) && (rva <? (start &&& Z.lnot 3) + read32le m (table + 4))
      then Some (start &&& 3)
      else code_type m (table + 8) count rva
  end.
