(* ===== verification/ChpeProps.v ===== *)
(** * The code map tells the type of all code

    The layout starts a page where the type of code changes, and the code map
    rounds ranges to pages: the map as written gives every byte of every chunk the
    type the linker knows it by, and none to data. *)

From S2P Require Import Prelude Memory Layout LayoutProps Chpe.

#[local] Open Scope list_scope.
#[local] Open Scope Z_scope.

(** ** Pages *)

Definition page_floor (a : Z) : Z := a / 4096 * 4096.

Lemma page_floor_ge b a : b mod 4096 = 0 -> b <= a -> b <= page_floor a <= a.
Proof.
  intros Hb Ha. unfold page_floor. pose proof (Z.div_mod b 4096 ltac:(lia)). pose proof (Z.div_le_mono b a 4096 ltac:(lia) Ha).
  pose proof (Z.div_mod a 4096 ltac:(lia)). pose proof (Z.mod_pos_bound a 4096 ltac:(lia)). lia.
Qed.

Lemma page_floor_le a : page_floor a <= a.
Proof. unfold page_floor. pose proof (Z.div_mod a 4096 ltac:(lia)). pose proof (Z.mod_pos_bound a 4096 ltac:(lia)). lia. Qed.

Lemma page_floor_word a : 0 <= a < 2 ^ 32 -> u32 (a &&& Z.lnot 0xfff) = page_floor a.
Proof.
  intros Ha. assert (E : a &&& Z.lnot 0xfff = page_floor a).
  { change 0xfff with (Z.ones 12). rewrite <- Z.ldiff_land, Z.ldiff_ones_r, Z.shiftl_mul_pow2, Z.shiftr_div_pow2 by lia. done. }
  rewrite E. apply wrap_small. pose proof (page_floor_le a). pose proof (Z.div_pos a 4096). unfold word_ok, page_floor in *. lia.
Qed.

(** ** Chunks of different types are on different pages *)

Definition chunk_end (x : lchunk * Z) : Z := x.2 + c_size x.1.

Definition typed_apart (x y : lchunk * Z) : Prop :=
  chunk_end x <= y.2 /\ (c_range y.1 <> None -> c_range x.1 <> c_range y.1 -> chunk_end x <= page_floor y.2).

Section Place.
  Context (cfg : config) (rva padding : Z) (isCode : bool).
  Context (Hpad : 0 <= padding).

(** Where [x] may start when the section is [vs] long and its last chunk is of
    type [prev]. *)
Definition after (vs : Z) (prev : option Z) (x : lchunk * Z) : Prop :=
  vs <= x.2 /\ (isEC cfg && isCode = true -> c_range x.1 <> prev -> vs <= page_floor x.2).

Lemma place_chunk_page st c :
  chunk_ok c -> exists o,
    after (virtualSize st) (prevECRange st) (c, o) /\
    virtualSize (place_chunk cfg rva padding isCode st c) = o + c_size c /\
    placed (place_chunk cfg rva padding isCode st c) = placed st ++ [(c, u32 (rva + o))] /\
    (isEC cfg && isCode = true -> prevECRange (place_chunk cfg rva padding isCode st c) = c_range c).
Proof using Hpad.
  intros [Hal Hsz]. unfold place_chunk. cbv zeta. cbn [virtualSize placed prevECRange].
  set (v0 := if (isEC cfg && isCode) && negb (bool_decide (c_range c = prevECRange st)) then alignTo (virtualSize st) 4096 else virtualSize st).
  match goal with |- context [alignTo ?x (c_align c)] => set (v := x) end.
  pose proof (alignTo_spec (virtualSize st) 4096 ltac:(lia)) as [Hv4 Hm4].
  assert (Hv0 : virtualSize st <= v0) by (unfold v0; case_match; lia).
  assert (Hv : v0 <= v) by (unfold v; repeat case_match; lia).
  destruct (alignTo_spec v _ Hal) as [[Hv1 _] _].
  exists (alignTo v (c_align c)). split; [|split_and!; [done|done|by intros ->]].
  split; cbn [fst snd]; [lia|]. intros Hr Hne. revert Hv0 Hv. unfold v0. rewrite Hr, bool_decide_false by done. cbn [andb negb]. intros Hv0 Hv.
  pose proof (page_floor_ge (alignTo (virtualSize st) 4096) (alignTo v (c_align c)) Hm4 ltac:(lia)). lia.
Qed.

Lemma after_mono vs vs' prev prev' x y :
  after vs prev y -> after (chunk_end y) (c_range y.1) x -> 0 <= c_size y.1 -> vs' = vs -> prev' = prev -> after vs' prev' x.
Proof using Type.
  intros [Hy1 Hy2] [Hx1 Hx2] Hs -> ->. unfold chunk_end in *. split; [lia|]. intros Hr Hne.
  destruct (decide (c_range y.1 = prev)) as [E|E].
  - assert (y.2 + c_size y.1 <= page_floor x.2) by (apply Hx2; [done|congruence]). lia.
  - specialize (Hy2 Hr E). assert (page_floor y.2 <= page_floor x.2); [|lia].
    unfold page_floor. pose proof (Z.div_le_mono y.2 x.2 4096 ltac:(lia) ltac:(lia)). lia.
Qed.

Lemma place_fold_pages l st :
  Forall chunk_ok l ->
  let st' := fold_left (place_chunk cfg rva padding isCode) l st in
  exists offs,
    offs.*1 = l /\ placed st' = placed st ++ (prod_map id (fun o => u32 (rva + o)) <$> offs) /\
    virtualSize st <= virtualSize st' /\
    Forall (fun x => after (virtualSize st) (prevECRange st) x /\ chunk_end x <= virtualSize st') offs /\
    StronglySorted (fun x y => after (chunk_end x) (c_range x.1) y) offs.
Proof using Hpad.
  revert st. induction l as [|c l IH]; intros st Hl; cbn zeta.
  { exists []. split; [done|]. split; [by rewrite app_nil_r|]. split; [simpl; lia|]. split; constructor. }
  apply Forall_cons in Hl as [Hc Hl]. cbn [fold_left].
  destruct (place_chunk_page st c Hc) as (o & Hafter & Hvs & Hpl & Hprev). set (st1 := place_chunk _ _ _ _ st c) in *.
  destruct (IH st1 Hl) as (offs & E1 & E2 & E3 & E4 & E5). destruct Hc as [_ Hsz]. destruct Hafter as [Ho Ho2] eqn:E. clear E.
  cbn [fst snd] in Ho, Ho2. rewrite Hvs in E3, E4.
  assert (Hrest : Forall (fun x => after (chunk_end (c, o)) (c_range c) x) offs).
  { eapply Forall_impl; [exact E4|]. intros x [[Ha Hb] _]. split; [exact Ha|]. intros Hr. rewrite (Hprev Hr) in Hb. by apply Hb. }
  exists ((c, o) :: offs). split_and!.
  - by rewrite fmap_cons, E1.
  - by rewrite E2, Hpl, <- app_assoc.
  - lia.
  - constructor; [split; [done|unfold chunk_end; cbn; lia]|].
    rewrite Forall_forall in E4, Hrest |- *. intros x Hx. split; [|by apply E4].
    apply (after_mono (virtualSize st) _ (prevECRange st) _ x (c, o)); auto.
  - by constructor.
Qed.
End Place.

(** The placements of one section, as addresses. *)
Lemma place_section_pages cfg rva s :
  isEC cfg = true -> 0 <= functionPadMin cfg -> Forall chunk_ok (os_chunks s) ->
  (isCodeSection s = true \/ Forall (fun c => c_range c = None) (os_chunks s)) ->
  0 <= rva -> rva mod 4096 = 0 -> rva + virtualSize (place_section cfg rva s) < 2 ^ 32 ->
  (placed (place_section cfg rva s)).*1 = os_chunks s /\
  0 <= virtualSize (place_section cfg rva s) /\
  Forall (fun x => rva <= x.2 /\ chunk_end x <= rva + virtualSize (place_section cfg rva s)) (placed (place_section cfg rva s)) /\
  StronglySorted typed_apart (placed (place_section cfg rva s)).
Proof.
  intros Hec Hpad Hc Hcode Hrva Hmod Hlim. unfold place_section in *. set (pad := if isCodeSection s then _ else 0) in *.
  destruct (place_fold_pages cfg rva pad (isCodeSection s) ltac:(unfold pad; by case_match) (os_chunks s)
    {| virtualSize := 0; rawSize := 0; prevECRange := None; placed := [] |} Hc) as (offs & E1 & E2 & E3 & E4 & E5).
  set (st := fold_left _ _ _) in *. cbn [virtualSize placed prevECRange app] in *.
  assert (Hsz : Forall (fun x => 0 <= c_size x.1) offs) by by eapply chunk_sizes.
  assert (Epl : placed st = prod_map id (Z.add rva) <$> offs).
  { rewrite E2. apply list_fmap_ext. intros i [c o] Hi. unfold prod_map. cbn [fst snd]. f_equal.
    rewrite Forall_lookup in E4, Hsz. destruct (E4 i _ Hi) as [[H1 _] H2]. specialize (Hsz i _ Hi). unfold chunk_end in H2. cbn [fst snd] in *.
    apply wrap_small. split; lia. }
  rewrite Epl. split_and!.
  - rewrite <- list_fmap_compose, <- E1. by apply list_fmap_ext.
  - done.
  - apply Forall_fmap. eapply Forall_impl; [exact E4|]. intros [c o] [[H1 _] H2]. unfold chunk_end, compose, prod_map in *. cbn [fst snd id] in *. lia.
  - assert (Hpage : forall o, page_floor (rva + o) = rva + page_floor o).
    { intros o. unfold page_floor. pose proof (Z.div_mod rva 4096 ltac:(lia)) as Hd. rewrite Hmod in Hd.
      replace (rva + o) with (o + rva / 4096 * 4096) by lia. rewrite Z.div_add by lia. lia. }
    assert (Hty : Forall (fun x => isCodeSection s = true \/ c_range x.1 = None) offs).
    { apply Forall_forall. intros x Hx. destruct Hcode as [?|Hn]; [by left|right]. rewrite <- E1, Forall_fmap, Forall_forall in Hn. by apply Hn. }
    clear E1 E2 E4 Epl Hsz. induction E5 as [|x offs _ IH Hx]; cbn [fmap list_fmap]; [constructor|]. apply Forall_cons in Hty as [_ Hty].
    constructor; [by apply IH|]. apply Forall_fmap. rewrite Forall_forall in Hx, Hty |- *. intros y Hy. destruct (Hx y Hy) as [H1 H2].
    unfold typed_apart, chunk_end, compose, prod_map in *. cbn [fst snd id]. split; [lia|]. intros Hn Hd. rewrite Hpage.
    destruct (Hty y Hy) as [Hco|]; [|done]. rewrite Hec, Hco in H2. specialize (H2 eq_refl ltac:(congruence)). lia.
Qed.

(** ** The image *)

(** Code is in code sections, and none in base relocations. *)
Definition code_where_expected (secs : list osection) (relocChunks : list (lchunk * Z) -> list lchunk) : Prop :=
  Forall (fun s => isCodeSection s = true \/ Forall (fun c => c_range c = None) (os_chunks s)) secs /\
  forall r, Forall (fun c => c_range c = None) (relocChunks r).

Section Assign.
  Context (cfg : config) (relocChunks : list (lchunk * Z) -> list lchunk).
  Context (Hec : isEC cfg = true) (Hcfg : config_ok cfg) (Halign : align cfg mod 4096 = 0).

Record pages_inv (L : layout) : Prop := {
  pi_rva : 0 <= l_rva L /\ l_rva L mod 4096 = 0;
  pi_below : Forall (fun x => 0 <= x.2 /\ chunk_end x <= l_rva L) (l_rvas L);
  pi_apart : StronglySorted typed_apart (l_rvas L);
  pi_chunks : (l_rvas L).*1 = concat (map os_chunks (l_sections L))
}.

Lemma sorted_app (l1 l2 : list (lchunk * Z)) :
  StronglySorted typed_apart l1 -> StronglySorted typed_apart l2 -> Forall (fun x => Forall (typed_apart x) l2) l1 ->
  StronglySorted typed_apart (l1 ++ l2).
Proof using Type.
  intros H1 H2. induction H1 as [|x l1 _ IH Hx]; intros HF; [done|]. apply Forall_cons in HF as [Hx2 HF]. cbn [app].
  constructor; [by apply IH|]. by apply Forall_app.
Qed.

Lemma assign_section_pages L s :
  Forall chunk_ok (os_chunks s) -> (forall r, Forall chunk_ok (relocChunks r)) ->
  (isCodeSection s = true \/ Forall (fun c => c_range c = None) (os_chunks s)) -> (forall r, Forall (fun c => c_range c = None) (relocChunks r)) ->
  pages_inv L -> l_rva (assign_section cfg relocChunks L s) < 2 ^ 32 -> pages_inv (assign_section cfg relocChunks L s).
Proof using Hec Hcfg Halign.
  destruct Hcfg as [Hfa Hal Hp _]. intros Hs Hr Hcode Hrcode [[H0 Hm] Hb Ha Hch]. unfold assign_section. cbn zeta.
  set (s' := if os_isReloc s then _ else s).
  assert (Hs' : Forall chunk_ok (os_chunks s')) by (subst s'; case_match; simpl; auto).
  assert (Hcode' : isCodeSection s' = true \/ Forall (fun c => c_range c = None) (os_chunks s')) by (subst s'; case_match; simpl; auto).
  set (st := place_section cfg (l_rva L) s') in *. cbn [l_rva l_rvas l_sections]. intros Hlim.
  pose proof (alignTo_spec (virtualSize st) _ Hal) as [Hv1 Hv2].
  destruct (place_section_pages cfg (l_rva L) s' Hec Hp Hs' Hcode' H0 Hm) as (P1 & P2 & P3 & P4); [fold st; lia|]. fold st in P1, P2, P3, P4.
  split; cbn [l_rva l_rvas l_sections].
  - split; [lia|]. apply mod_add_0; [lia|done|]. apply Z.mod_divide in Hv2, Halign; [|lia..]. apply Z.mod_divide; [lia|].
    by etrans.
  - apply Forall_app. split; [eapply Forall_impl; [exact Hb|]; intros x [? ?]; lia|].
    eapply Forall_impl; [exact P3|]. intros x [? ?]. lia.
  - apply sorted_app; [done|done|]. rewrite Forall_forall in Hb |- *. intros x Hx. destruct (Hb x Hx) as [_ Hxe].
    rewrite Forall_forall in P3 |- *. intros y Hy. destruct (P3 y Hy) as [Hy1 _]. split; [lia|]. intros _ _.
    pose proof (page_floor_ge (l_rva L) y.2 Hm Hy1). lia.
  - rewrite fmap_app, Hch, P1, map_app, concat_app. cbn [map concat os_chunks]. by rewrite app_nil_r.
Qed.

Lemma assign_pages secs L :
  chunks_ok relocChunks secs -> code_where_expected secs relocChunks ->
  pages_inv L -> l_rva (fold_left (assign_section cfg relocChunks) secs L) < 2 ^ 32 ->
  pages_inv (fold_left (assign_section cfg relocChunks) secs L).
Proof using Hec Hcfg Halign.
  intros [Hs Hr] [Hc Hrc]. revert L Hc. induction Hs as [|s secs H Hs IH]; intros L Hc Hinv Hlim; cbn [fold_left] in *; [done|].
  apply Forall_cons in Hc as [Hc1 Hc].
  pose proof (assign_fold_grows cfg relocChunks secs (assign_section cfg relocChunks L s) Hcfg (conj Hs Hr)).
  apply IH; [done| |done]. apply assign_section_pages; auto. lia.
Qed.

Lemma addresses_typed secs :
  chunks_ok relocChunks secs -> code_where_expected secs relocChunks ->
  l_rva (assignAddresses cfg relocChunks secs).1 < 2 ^ 32 ->
  pages_inv (assignAddresses cfg relocChunks secs).1.
Proof using Hec Hcfg Halign.
  intros Hc Hw Hlim. unfold assignAddresses in *. cbn [fst] in *. apply assign_pages; [done|done| |done].
  destruct Hcfg as [Hfa Hal _ Hd]. split; cbn [l_rva l_rvas l_sections]; [|constructor|constructor|done].
  set (hdr := sizeOfHeaders cfg (length secs)). destruct (alignTo_spec hdr _ Hal) as [Hh1 Hh2].
  assert (0 <= hdr).
  { subst hdr. unfold sizeOfHeaders. match goal with |- context [alignTo ?x _] => set (n := x) end.
    assert (0 < n) by (subst n; case_match; lia). pose proof (alignTo_spec n _ Hfa). lia. }
  split; [lia|]. apply Z.mod_divide in Hh2, Halign; [|lia..]. apply Z.mod_divide; [lia|]. by etrans.
Qed.
End Assign.

(** ** The code map *)

Definition counted (c : lchunk) : bool := negb (c_isSection c && (c_size c =? 0)).

(** A maximal run of chunks of one type. *)
Definition block : Type := option Z * list lchunk.

Definition block_entry (b : block) : list (lchunk * lchunk * Z) :=
  match b with
  | (Some t, c :: l) => [(c, List.last l c, t)]
  | _ => []
  end.

Fixpoint blocks_ok (bs : list block) : Prop :=
  match bs with
  | [] => True
  | (t, l) :: bs => l <> [] /\ Forall (fun c => c_range c = t) l /\ blocks_ok bs /\
      match bs with (t', _) :: _ => t <> t' | [] => True end
  end.

Definition init_map : code_map_state := {| cm_done := []; cm_open := None; cm_last := None |}.
Definition code_map (l : list lchunk) : list (lchunk * lchunk * Z) := cm_done (closeRange (fold_left code_map_step l init_map)).

Lemma code_map_step_skip st c : counted c = false -> code_map_step st c = st.
Proof. unfold counted, code_map_step. intros ->%negb_false_iff. done. Qed.

(** The state inside a run [lb] of type [t]. *)
Definition in_run (st : code_map_state) (t : option Z) (c0 : lchunk) (lb : list lchunk) : Prop :=
  cm_open st = pair c0 <$> t /\ cm_last st = Some (List.last lb c0).

Lemma run_closed st t c0 lb : in_run st t c0 lb -> cm_done (closeRange st) = cm_done st ++ block_entry (t, c0 :: lb).
Proof.
  intros [Ho Hl]. unfold closeRange. rewrite Ho, Hl. destruct t as [t|]; cbn [fmap option_fmap option_map cm_done block_entry]; [|by rewrite app_nil_r].
  do 4 f_equal.
Qed.

Lemma last_snoc (lb : list lchunk) c d : List.last (lb ++ [c]) d = c.
Proof. apply List.last_last. Qed.

Lemma code_map_run l : forall st t c0 lb,
  in_run st t c0 lb -> Forall (fun c => c_range c = t) (c0 :: lb) ->
  exists l0 bs, c0 :: lb ++ filter (fun c => counted c = true) l = concat (map snd ((t, l0) :: bs)) /\
    blocks_ok ((t, l0) :: bs) /\
    cm_done (closeRange (fold_left code_map_step l st)) = cm_done st ++ flat_map block_entry ((t, l0) :: bs).
Proof.
  induction l as [|c l IH]; intros st t c0 lb Hrun Ht; cbn [fold_left].
  { exists (c0 :: lb), []. cbn [map snd concat flat_map blocks_ok]. rewrite !app_nil_r. split; [done|]. split; [done|].
    by apply run_closed. }
  rewrite filter_cons. destruct (decide (counted c = true)) as [Hc|Hc].
  2: { rewrite code_map_step_skip by by apply not_true_is_false. by apply IH. }
  assert (Estep : code_map_step st c =
    let st := if bool_decide (c_range c = t) then st
              else {| cm_done := cm_done (closeRange st); cm_open := pair c <$> c_range c; cm_last := cm_last (closeRange st) |} in
    {| cm_done := cm_done st; cm_open := cm_open st; cm_last := Some c |}).
  { unfold code_map_step. unfold counted in Hc. apply negb_true_iff in Hc. rewrite Hc.
    destruct Hrun as [-> _]. replace (snd <$> (pair c0 <$> t)) with t by by destruct t. done. }
  rewrite Estep. cbv zeta. destruct (decide (c_range c = t)) as [E|E].
  - rewrite bool_decide_true by done. set (st' := {| cm_done := _; cm_open := _; cm_last := _ |}).
    destruct (IH st' t c0 (lb ++ [c])) as (l0 & bs & E1 & E2 & E3).
    + destruct Hrun as [Ho _]. split; [done|]. cbn [cm_last st']. by rewrite last_snoc.
    + rewrite app_comm_cons. apply Forall_app. split; [done|]. by constructor.
    + exists l0, bs. split; [|done]. by rewrite <- E1, <- app_assoc.
  - rewrite bool_decide_false by done. set (st' := {| cm_done := _; cm_open := _; cm_last := _ |}).
    destruct (IH st' (c_range c) c []) as (l0 & bs & E1 & E2 & E3); [done|by repeat constructor|].
    exists (c0 :: lb), ((c_range c, l0) :: bs). split; [|split].
    + cbn [map snd concat] in *. by rewrite <- E1.
    + split; [done|]. split; [done|]. split; [done|]. congruence.
    + rewrite E3. cbn [cm_done st']. rewrite (run_closed _ _ _ _ Hrun). cbn [flat_map]. by rewrite <- app_assoc.
Qed.

Lemma code_map_blocks l :
  exists bs, filter (fun c => counted c = true) l = concat (map snd bs) /\ blocks_ok bs /\ code_map l = flat_map block_entry bs.
Proof.
  unfold code_map. induction l as [|c l IH]; [by exists []|]. cbn [fold_left]. rewrite filter_cons.
  destruct (decide (counted c = true)) as [Hc|Hc].
  2: { by rewrite code_map_step_skip by by apply not_true_is_false. }
  destruct (code_map_run l (code_map_step init_map c) (c_range c) c []) as (l0 & bs & E1 & E2 & E3).
  - unfold code_map_step, init_map. unfold counted in Hc. apply negb_true_iff in Hc. rewrite Hc. cbn [cm_open cm_done cm_last fmap option_fmap option_map].
    case_bool_decide as E; [rewrite E; done|]. done.
  - by repeat constructor.
  - exists ((c_range c, l0) :: bs). split; [exact E1|]. split; [exact E2|]. rewrite E3. unfold code_map_step. case_match; [done|].
    case_bool_decide; done.
Qed.

(** Data at the end changes nothing. *)
Lemma code_map_data l1 l2 : Forall (fun c => c_range c = None) l2 -> code_map (l1 ++ l2) = code_map l1.
Proof.
  intros H. unfold code_map. rewrite fold_left_app. generalize (fold_left code_map_step l1 init_map). intros st.
  revert st. induction H as [|c l2 Hc _ IH]; intros st; [done|]. cbn [fold_left]. rewrite IH. unfold code_map_step.
  case_match; [done|]. rewrite Hc. destruct (cm_open st) as [[f t]|] eqn:Eo; cbn [fmap option_fmap option_map].
  - rewrite bool_decide_false by done. done.
  - rewrite bool_decide_true by done. unfold closeRange. cbn [cm_open cm_last cm_done]. by rewrite Eo.
Qed.

(** Nothing from .reloc on is code: the map made before base relocations are
    there is the one of the final chunks. *)
Definition code_before_reloc (secs : list osection) : Prop :=
  exists l1 l2, secs = l1 ++ l2 /\ Forall (fun s => os_isReloc s = false) l1 /\
    Forall (fun s => Forall (fun c => c_range c = None) (os_chunks s)) l2.

Lemma assign_chunks cfg relocChunks secs L :
  (forall r, Forall (fun c => c_range c = None) (relocChunks r)) ->
  exists ls, map os_chunks (l_sections (fold_left (assign_section cfg relocChunks) secs L)) = map os_chunks (l_sections L) ++ ls /\
    Forall2 (fun s l => if os_isReloc s then Forall (fun c => c_range c = None) l else l = os_chunks s) secs ls.
Proof.
  intros Hr. revert L. induction secs as [|s secs IH]; intros L; cbn [fold_left].
  { exists []. by rewrite app_nil_r. }
  destruct (IH (assign_section cfg relocChunks L s)) as (ls & E & HF).
  exists (os_chunks (if os_isReloc s then with_chunks (relocChunks (l_rvas L)) s else s) :: ls). split.
  - rewrite E. unfold assign_section. cbn [l_sections]. rewrite map_app, <- app_assoc. done.
  - constructor; [|done]. destruct (os_isReloc s); [apply Hr|done].
Qed.

Lemma final_code_map cfg relocChunks secs :
  (forall r, Forall (fun c => c_range c = None) (relocChunks r)) -> code_before_reloc secs ->
  createECCodeMap secs = code_map (concat (map os_chunks (l_sections (assignAddresses cfg relocChunks secs).1))).
Proof.
  intros Hr (l1 & l2 & -> & H1 & H2). unfold assignAddresses. cbn [fst].
  match goal with |- context [fold_left _ _ ?L] => destruct (assign_chunks cfg relocChunks (l1 ++ l2) L Hr) as (ls & -> & HF) end.
  cbn [l_sections map app]. apply Forall2_app_inv_l in HF as (k1 & k2 & F1 & F2 & ->).
  assert (E1 : k1 = map os_chunks l1).
  { clear F2 H2. induction F1 as [|s k l1 k1 Hs _ IH]; [done|]. apply Forall_cons in H1 as [H1 H1']. rewrite H1 in Hs. cbn [map].
    by rewrite Hs, IH. }
  assert (E2 : Forall (fun c => c_range c = None) (concat k2)).
  { clear F1 E1. induction F2 as [|s k l2 k2 Hs _ IH]; [constructor|]. apply Forall_cons in H2 as [H2 H2']. cbn [concat]. apply Forall_app.
    split; [|by apply IH]. destruct (os_isReloc s); [done|]. by subst k. }
  change (createECCodeMap (l1 ++ l2)) with (code_map (concat (map os_chunks (l1 ++ l2)))).
  rewrite map_app, !concat_app, E1, (code_map_data _ _ E2). apply code_map_data. apply Forall_concat, Forall_map. done.
Qed.

(** ** Reading the map *)

Section Read.
  Context (chunkRVA : nat -> Z).

Definition addr (c : lchunk) : Z := chunkRVA (c_id c).
Definition cend (c : lchunk) : Z := addr c + c_size c.
Definition before (c d : lchunk) : Prop :=
  cend c <= addr d /\ (c_range d <> None -> c_range c <> c_range d -> cend c <= page_floor (addr d)).

Definition entry_start (e : lchunk * lchunk * Z) : Z := page_floor (addr e.1.1).
Definition entry_end (e : lchunk * lchunk * Z) : Z := cend e.1.2.

(** An entry that can be read back. *)
Definition entry_fits (e : lchunk * lchunk * Z) : Prop :=
  0 <= addr e.1.1 /\ entry_start e <= entry_end e < 2 ^ 32 /\ addr e.1.1 < 2 ^ 32 /\ 0 <= e.2 < 4.

Lemma writeTo_other map table m x : x < table -> ECCodeMapChunk_writeTo chunkRVA map table m x = m x.
Proof using Type.
  revert table m. induction map as [|[[f l] t] map IH]; intros table m Hx; [done|]. cbn [ECCodeMapChunk_writeTo].
  unfold sizeof_chpe_range_entry. rewrite IH by lia. by rewrite !write_other by lia.
Qed.

Lemma typed_start a t : 0 <= a < 2 ^ 32 -> 0 <= t < 4 ->
  u32 (page_floor a ||| t) &&& Z.lnot 3 = page_floor a /\ u32 (page_floor a ||| t) &&& 3 = t.
Proof using Type.
  intros Ha Ht. pose proof (page_floor_le a). assert (0 <= page_floor a) by (unfold page_floor; pose proof (Z.div_pos a 4096); lia).
  assert (E : page_floor a ||| t = page_floor a / 4 * 4 + t).
  { unfold page_floor. replace (a / 4096 * 4096 / 4) with (a / 4096 * 1024) by (apply (Z.div_unique_exact _ 4); lia).
    replace (a / 4096 * 4096) with ((a / 4096 * 1024) <<< 2) by (rewrite Z.shiftl_mul_pow2; lia).
    rewrite shl_or_add by (lia || (unfold word_ok; lia)). done. }
  assert (E4 : page_floor a / 4 * 4 = page_floor a).
  { unfold page_floor. replace (a / 4096 * 4096 / 4) with (a / 4096 * 1024) by (apply (Z.div_unique_exact _ 4); lia). lia. }
  assert (Hlt : page_floor a + t < 2 ^ 32).
  { unfold page_floor in *. pose proof (Z.div_mod a 4096 ltac:(lia)). pose proof (Z.mod_pos_bound a 4096 ltac:(lia)).
    assert (a / 4096 < 2 ^ 20) by (apply Z.div_lt_upper_bound; lia). lia. }
  rewrite E, wrap_small by (unfold word_ok; lia).
  change 3 with (Z.ones 2). rewrite <- Z.ldiff_land, Z.ldiff_ones_r, Z.land_ones, Z.shiftl_mul_pow2, Z.shiftr_div_pow2 by lia.
  change (2 ^ 2) with 4. rewrite Z.div_add_l, (Z.div_small t), Z.add_0_r, E4 by lia. split; [done|].
  rewrite <- E4, Z.add_comm, Z.mod_add by lia. by apply Z.mod_small.
Qed.

(** An entry of the table, as it is read. *)
Definition entry_read (m : mem) (p : Z) (e : lchunk * lchunk * Z) : Prop :=
  read32le m p &&& Z.lnot 3 = entry_start e /\ read32le m p &&& 3 = e.2 /\ read32le m (p + 4) = entry_end e - entry_start e.

Lemma writeTo_entry map table m i e :
  Forall entry_fits map -> map !! i = Some e ->
  entry_read (ECCodeMapChunk_writeTo chunkRVA map table m) (table + 8 * Z.of_nat i) e.
Proof using Type.
  intros Hf. revert table m i. induction Hf as [|[[f l] t] map Hfit Hf IH]; intros table m i Hi; [done|].
  cbn [ECCodeMapChunk_writeTo]. unfold sizeof_chpe_range_entry. destruct i as [|i].
  - injection Hi as <-. change (8 * Z.of_nat 0) with 0. rewrite Z.add_0_r. set (m' := write32le _ (table + 4) _).
    assert (R : forall q n, q + Z.of_nat n <= table + 8 -> read n (ECCodeMapChunk_writeTo chunkRVA map (table + 8) m') q = read n m' q)
      by (intros q n Hq; apply read_ext; intros k Hk; by apply writeTo_other; lia).
    unfold entry_read. rewrite !R by lia. unfold m'. rewrite read_write. rewrite read_write_other by lia. rewrite read_write.
    destruct Hfit as (H0 & [H1 H2] & H3 & H4). cbn [fst snd] in *. unfold entry_start, entry_end in *. cbn [fst snd] in *. fold (addr f) in *.
    change (8 * Z.of_nat 4) with 32. rewrite page_floor_word by lia. destruct (typed_start (addr f) t ltac:(lia) H4) as [-> ->]. split; [done|]. split; [done|].
    apply wrap_small. unfold word_ok, page_floor in *. unfold cend in *. fold (addr l). pose proof (Z.div_pos (addr f) 4096). lia.
  - replace (table + 8 * Z.of_nat (S i)) with (table + 8 + 8 * Z.of_nat i) by lia. by apply IH.
Qed.

(** The lookup is the search for the first entry around the address. *)
Lemma code_type_first m table map x :
  (forall i e, map !! i = Some e -> entry_read m (table + 8 * Z.of_nat i) e) ->
  code_type m table (length map) x =
  (fun e => e.2) <$> List.find (fun e => (entry_start e <=? x) && (x <? entry_end e)) map.
Proof using Type.
  revert table. induction map as [|e map IH]; intros table H; [done|]. cbn [length code_type List.find].
  destruct (H 0%nat e eq_refl) as (E1 & E2 & E3). change (8 * Z.of_nat 0) with 0 in E1, E2, E3. rewrite Z.add_0_r in E1, E2, E3.
  rewrite E1, E2, E3. replace (entry_start e + (entry_end e - entry_start e)) with (entry_end e) by lia.
  destruct (_ && _); [done|]. apply IH. intros i e' Hi. replace (table + 8 + 8 * Z.of_nat i) with (table + 8 * Z.of_nat (S i)) by lia.
  by apply H.
Qed.

(** ** The entries of a sorted list of chunks *)

Definition sized (c : lchunk) : Prop := 0 <= c_size c.

Lemma last_cons (l : list lchunk) c d : List.last (d :: l) c = List.last l d.
Proof using Type.
  revert c d. induction l as [|e l IH]; intros c d; [done|]. change (List.last (d :: e :: l) c) with (List.last (e :: l) c).
  by rewrite !IH.
Qed.

Lemma last_in (l : list lchunk) c : List.last l c ∈ c :: l.
Proof using Type. revert c. induction l as [|d l IH]; intros c; [left|]. rewrite last_cons. right. apply IH. Qed.

Lemma last_end f l c :
  StronglySorted before (f :: l) -> Forall sized (f :: l) -> c ∈ f :: l -> addr f <= addr c /\ cend c <= cend (List.last l f).
Proof using Type.
  intros Hs Hz. revert f c Hs Hz. induction l as [|d l IH]; intros f c Hs Hz Hc.
  { apply list_elem_of_singleton in Hc as ->. cbn. lia. }
  apply StronglySorted_inv in Hs as [Hs Hf]. apply Forall_cons in Hz as [Hzf Hz].
  rewrite last_cons. apply Forall_cons in Hf as [[Hfd _] _]. unfold sized in *.
  destruct (IH d d Hs Hz ltac:(left)) as [_ Hd]. apply Forall_cons in Hz as [Hzd Hz']. unfold sized, cend in *.
  apply elem_of_cons in Hc as [->|Hc]; [lia|]. destruct (IH d c Hs ltac:(by constructor) Hc). lia.
Qed.

Lemma sorted_parts l1 l2 :
  StronglySorted before (l1 ++ l2) -> StronglySorted before l1 /\ StronglySorted before l2 /\ forall c d, c ∈ l1 -> d ∈ l2 -> before c d.
Proof using Type.
  induction l1 as [|e l1 IH]; cbn [app]; intros H; [split_and!; [constructor|done|by intros ??[]%elem_of_nil]|].
  apply StronglySorted_inv in H as [H He]. destruct (IH H) as (H1 & H2 & H3). apply Forall_app in He as [He1 He2].
  split_and!; [by constructor|done|]. intros c d [->|Hc]%elem_of_cons Hd; [|auto]. rewrite Forall_forall in He2. auto.
Qed.

Lemma entry_in e bs : e ∈ flat_map block_entry bs -> exists t c l, (Some t, c :: l) ∈ bs /\ e = (c, List.last l c, t).
Proof using Type.
  intros ([[t|] [|c l]] & Hb & He)%list_elem_of_In%in_flat_map; try by destruct He.
  destruct He as [<-|[]]. exists t, c, l. split; [by apply list_elem_of_In|done].
Qed.

Lemma block_chunks (b : block) bs c : b ∈ bs -> c ∈ b.2 -> c ∈ concat (map snd bs).
Proof using Type. intros Hb Hc. apply list_elem_of_In, in_concat. exists b.2. split; apply list_elem_of_In; [by apply list_elem_of_fmap_2|done]. Qed.

(** Everything of a run ends before the page of a later entry. *)
Lemma entries_after t l bs d e :
  blocks_ok ((t, l) :: bs) -> StronglySorted before (l ++ concat (map snd bs)) -> Forall sized (l ++ concat (map snd bs)) ->
  d ∈ l -> e ∈ flat_map block_entry bs -> cend d <= entry_start e.
Proof using Type.
  revert t l d. induction bs as [|[t2 l2] bs IH]; intros t l d (Hne & Ht & Hbs & Hneq) Hs Hz Hd He; [by apply elem_of_nil in He|].
  cbn [map snd concat flat_map] in *. destruct (sorted_parts _ _ Hs) as (_ & Hs2 & Hb).
  apply Forall_app in Hz as [_ Hz2]. apply elem_of_app in He as [He|He].
  - destruct t2 as [t2|]; [|by apply elem_of_nil in He]. destruct l2 as [|c l2]; [by apply elem_of_nil in He|].
    apply list_elem_of_singleton in He as ->. unfold entry_start. cbn [fst].
    destruct (Hb d c Hd ltac:(left)) as [_ Hp]. destruct Hbs as (_ & Hc & _). apply Forall_cons in Hc as [Hc _].
    rewrite Forall_forall in Ht. rewrite (Ht d Hd), Hc in Hp. by apply Hp.
  - destruct l2 as [|p l2]; [by destruct Hbs as [? _]|].
    specialize (IH t2 (p :: l2) p Hbs Hs2 Hz2 ltac:(left) He).
    destruct (Hb d p Hd ltac:(left)) as [Hp _]. apply Forall_cons in Hz2 as [Hzp _]. unfold sized, cend in *. lia.
Qed.

Lemma entries_sorted bs :
  blocks_ok bs -> StronglySorted before (concat (map snd bs)) -> Forall sized (concat (map snd bs)) ->
  StronglySorted (fun e e' => entry_end e <= entry_start e') (flat_map block_entry bs).
Proof using Type.
  induction bs as [|[t l] bs IH]; intros Hok Hs Hz; cbn [map snd concat flat_map] in *; [constructor|].
  destruct (sorted_parts _ _ Hs) as (_ & Hs2 & _). pose proof Hz as [_ Hz2]%Forall_app. destruct Hok as (H1 & H2 & H3 & H4).
  specialize (IH H3 Hs2 Hz2). destruct t as [t|]; [|done]. destruct l as [|c l]; [done|]. cbn [block_entry app].
  constructor; [done|]. apply Forall_forall. intros e He.
  apply (entries_after (Some t) (c :: l) bs (List.last l c) e); [done..|apply last_in|done].
Qed.

(** The first entry around an address of a chunk has the chunk's type. *)
Lemma find_type bs c x :
  blocks_ok bs -> StronglySorted before (concat (map snd bs)) -> Forall sized (concat (map snd bs)) ->
  c ∈ concat (map snd bs) -> addr c <= x < cend c ->
  (fun e => e.2) <$> List.find (fun e => (entry_start e <=? x) && (x <? entry_end e)) (flat_map block_entry bs) = c_range c.
Proof using Type.
  induction bs as [|[t l] bs IH]; intros Hok Hs Hz Hc Hx; cbn [map snd concat flat_map] in *; [by apply elem_of_nil in Hc|].
  destruct (sorted_parts _ _ Hs) as (Hs1 & Hs2 & Hb). pose proof Hz as [Hz1 Hz2]%Forall_app. pose proof Hok as (Hne & Ht & Hok2 & _).
  destruct l as [|f l]; [done|]. apply elem_of_app in Hc as [Hc|Hc].
  - pose proof Ht as Ht'. rewrite Forall_forall in Ht'. rewrite (Ht' c Hc). destruct t as [t|]; cbn [block_entry app].
    + destruct (last_end f l c Hs1 Hz1 Hc) as [H1 H2]. cbn [List.find]. unfold entry_start, entry_end. cbn [fst snd].
      pose proof (page_floor_le (addr f)). rewrite (proj2 (Z.leb_le _ _)), (proj2 (Z.ltb_lt _ _)) by lia. done.
    + destruct (List.find _ _) as [e|] eqn:Ef; [|done]. exfalso. apply List.find_some in Ef as [He Hin].
      apply andb_true_iff in Hin as [Hin%Z.leb_le _].
      pose proof (entries_after None (f :: l) bs c e Hok Hs Hz Hc ltac:(by apply list_elem_of_In)). lia.
  - destruct t as [t|]; cbn [block_entry app]; [|by apply IH]. cbn [List.find]. unfold entry_end at 1. cbn [fst snd].
    destruct (Hb (List.last l f) c (last_in l f) Hc) as [Hle _]. rewrite (proj2 (Z.ltb_ge x _)) by lia. rewrite andb_false_r. by apply IH.
Qed.
End Read.

Definition map_start (m : mem) (table : Z) (i : nat) : Z := read32le m (table + 8 * Z.of_nat i) &&& Z.lnot 3.
Definition map_end (m : mem) (table : Z) (i : nat) : Z := map_start m table i + read32le m (table + 8 * Z.of_nat i + 4).

Definition range_type (c : lchunk) : Prop := match c_range c with Some t => 0 <= t <= RANGE_Amd64 | None => True end.

Lemma sorted_filter_dec {A} (R : A -> A -> Prop) (P : A -> Prop) `{!forall x, Decision (P x)} l :
  StronglySorted R l -> StronglySorted R (filter P l).
Proof.
  induction 1 as [|x l _ IH Hx]; [constructor|]. rewrite filter_cons. case_decide; [|done]. constructor; [done|].
  apply Forall_forall. intros y [_ Hy]%list_elem_of_filter. rewrite Forall_forall in Hx. auto.
Qed.

Lemma sorted_map_in {A B} (f : A -> B) (R : A -> A -> Prop) (S : B -> B -> Prop) l :
  (forall x y, x ∈ l -> y ∈ l -> R x y -> S (f x) (f y)) -> StronglySorted R l -> StronglySorted S (map f l).
Proof.
  intros H. induction 1 as [|x l _ IH Hx]; [constructor|]. cbn [map]. constructor.
  - apply IH. intros y z Hy Hz. apply H; by right.
  - rewrite Forall_forall in Hx. apply Forall_forall. intros y (z & <- & Hz%list_elem_of_In)%list_elem_of_In%in_map_iff.
    apply H; [left|by right|auto].
Qed.

Lemma blocks_typed bs : blocks_ok bs -> Forall (fun b : block => Forall (fun c => c_range c = b.1) b.2) bs.
Proof. induction bs as [|[t l] bs IH]; [done|]. intros (_ & Ht & Hok & _). constructor; [done|auto]. Qed.

Lemma assign_forall (P : lchunk -> Prop) cfg relocChunks secs L :
  Forall (fun s => Forall P (os_chunks s)) secs -> (forall r, Forall P (relocChunks r)) ->
  Forall P (concat (map os_chunks (l_sections L))) ->
  Forall P (concat (map os_chunks (l_sections (fold_left (assign_section cfg relocChunks) secs L)))).
Proof.
  intros Hs Hr. revert L. induction Hs as [|s secs H _ IH]; intros L HL; cbn [fold_left]; [done|]. apply IH.
  unfold assign_section. cbn [l_sections]. rewrite map_app, concat_app. cbn [map concat os_chunks]. rewrite app_nil_r.
  apply Forall_app. split; [done|]. destruct (os_isReloc s); [apply Hr|done].
Qed.

Lemma sorted_lookup {A} (R : A -> A -> Prop) l i j x y :
  StronglySorted R l -> (i < j)%nat -> l !! i = Some x -> l !! j = Some y -> R x y.
Proof.
  intros H. revert i j. induction H as [|z l _ IH Hz]; intros i j Hij Hi Hj; [done|]. destruct j as [|j]; [lia|]. destruct i as [|i].
  - injection Hi as <-. rewrite Forall_forall in Hz. by apply Hz, (list_elem_of_lookup_2 _ j).
  - apply (IH i j); [lia|done|done].
Qed.

(** C30: the code map of an ARM64EC image, as written after layout, has disjoint
    ranges in ascending order, and by it the system finds for every byte of every
    chunk the type of code the linker knows it to be, and none for data. *)
Theorem code_map_exact (cfg : config) (relocChunks : list (lchunk * Z) -> list lchunk) (secs : list osection) (chunkRVA : nat -> Z)
    (table : Z) (m : mem)
    (Hec : isEC cfg = true) (Hcfg : config_ok cfg) (Halign : align cfg mod 4096 = 0)
    (Hchunks : chunks_ok relocChunks secs) (Hcode : code_where_expected secs relocChunks) (Hreloc : code_before_reloc secs)
    (Htypes : Forall (fun s => Forall range_type (os_chunks s)) secs)
    (Himage : l_rva (assignAddresses cfg relocChunks secs).1 < 2 ^ 32)
    (Hrva : forall x, x ∈ l_rvas (assignAddresses cfg relocChunks secs).1 -> chunkRVA (c_id x.1) = x.2) :
  let count := length (createECCodeMap secs) in
  let M := ECCodeMapChunk_writeTo chunkRVA (createECCodeMap secs) table m in
  (forall i j, (i < j < count)%nat -> map_end M table i <= map_start M table j) /\
  (forall c a x, (c, a) ∈ l_rvas (assignAddresses cfg relocChunks secs).1 -> a <= x < a + c_size c ->
     code_type M table count x = c_range c).
Proof.
  pose proof (addresses_typed cfg relocChunks Hec Hcfg Halign secs Hchunks Hcode Himage) as [[Hr0 _] Hbelow Hapart Hch].
  rewrite (final_code_map cfg relocChunks secs (proj2 Hcode) Hreloc). cbn zeta.
  set (P := l_rvas (assignAddresses cfg relocChunks secs).1) in *.
  set (chunks := concat (map os_chunks _)) in *.
  assert (Htyped : Forall range_type chunks).
  { apply assign_forall; [done| |constructor]. intros r. eapply Forall_impl; [apply (proj2 Hcode)|]. intros c Hc. unfold range_type. by rewrite Hc. }
  assert (Hsz : Forall chunk_ok chunks) by (apply assign_forall; [apply Hchunks..|constructor]).
  assert (HP : forall c, c ∈ chunks -> (c, addr chunkRVA c) ∈ P).
  { intros c Hc. rewrite <- Hch in Hc. apply list_elem_of_fmap in Hc as ([c' a] & -> & Hin). pose proof (Hrva _ Hin) as E. cbn [fst snd] in *. unfold addr. by rewrite E. }
  assert (Hsorted : StronglySorted (before chunkRVA) chunks).
  { rewrite <- Hch. apply (sorted_map_in fst typed_apart); [|done]. intros x y Hx Hy. unfold typed_apart, before, chunk_end, cend, addr.
    by rewrite (Hrva x Hx), (Hrva y Hy). }
  destruct (code_map_blocks chunks) as (bs & Ebs & Hok & Emap). rewrite Emap.
  assert (Hbs : forall c, c ∈ concat (map snd bs) -> c ∈ chunks).
  { intros c Hc. rewrite <- Ebs in Hc. by apply list_elem_of_filter in Hc as [_ ?]. }
  assert (Hs : StronglySorted (before chunkRVA) (concat (map snd bs))) by (rewrite <- Ebs; by apply sorted_filter_dec).
  assert (Hz : Forall sized (concat (map snd bs))).
  { apply Forall_forall. intros c Hc. rewrite Forall_forall in Hsz. by destruct (Hsz c (Hbs c Hc)). }
  assert (Hbound : forall c, c ∈ concat (map snd bs) -> 0 <= addr chunkRVA c /\ cend chunkRVA c < 2 ^ 32).
  { intros c Hc. rewrite Forall_forall in Hbelow. destruct (Hbelow _ (HP c (Hbs c Hc))) as [H1 H2]. unfold chunk_end in H2. cbn [fst snd] in *.
    unfold cend. lia. }
  assert (Hfits : Forall (entry_fits chunkRVA) (flat_map block_entry bs)).
  { apply Forall_forall. intros e (t & c & l & Hb & ->)%entry_in.
    assert (Hin : forall d, d ∈ c :: l -> d ∈ concat (map snd bs)) by (intros d Hd; by apply (block_chunks (Some t, c :: l))).
    destruct (Hbound c (Hin c ltac:(left))) as [H1 H2]. destruct (Hbound _ (Hin _ (last_in l c))) as [H3 H4].
    pose proof (page_floor_le (addr chunkRVA c)).
    apply list_elem_of_split in Hb as (bs1 & bs2 & ->). rewrite map_app, concat_app in Hs, Hz. cbn [map snd concat] in Hs, Hz.
    apply sorted_parts in Hs as (_ & Hs & _). apply sorted_parts in Hs as (Hs & _ & _). apply Forall_app in Hz as [_ Hz]. apply Forall_app in Hz as [Hz _].
    destruct (last_end chunkRVA c l c Hs Hz ltac:(left)) as [_ Hle]. pose proof Hz as [Hzc _]%Forall_cons.
    assert (Hc : c ∈ chunks) by (apply Hbs, Hin; left). rewrite Forall_forall in Htyped. specialize (Htyped c Hc). unfold range_type in Htyped.
      pose proof (blocks_typed _ Hok) as Hbt. apply Forall_app in Hbt as [_ Hbt]. apply Forall_cons in Hbt as [Hbt _]. cbn [fst snd] in Hbt.
      apply Forall_cons in Hbt as [Hbt _]. rewrite Hbt in Htyped. unfold RANGE_Amd64 in Htyped.
    split_and!; unfold entry_start, entry_end; cbn [fst snd]; unfold sized, cend in *; lia. }
  assert (Hread : forall i e, flat_map block_entry bs !! i = Some e ->
    entry_read chunkRVA (ECCodeMapChunk_writeTo chunkRVA (flat_map block_entry bs) table m) (table + 8 * Z.of_nat i) e).
  { intros i e Hi. by apply writeTo_entry. }
  split.
  - intros i j Hij. destruct (lookup_lt_is_Some_2 (flat_map block_entry bs) i ltac:(lia)) as [e Hi].
    destruct (lookup_lt_is_Some_2 (flat_map block_entry bs) j ltac:(lia)) as [e' Hj].
    destruct (Hread i e Hi) as (E1 & _ & E3). destruct (Hread j e' Hj) as (E1' & _ & _). unfold map_end, map_start. rewrite E1, E1', E3.
    pose proof (entries_sorted chunkRVA bs Hok Hs Hz) as HS. enough (entry_end chunkRVA e <= entry_start chunkRVA e') by lia.
    by apply (sorted_lookup _ _ i j e e' HS); [lia|..].
  - intros c a x Hin Hx. rewrite (code_type_first chunkRVA _ _ _ _ Hread).
    assert (Hc : c ∈ chunks) by (rewrite <- Hch; apply list_elem_of_fmap; by exists (c, a)).
    pose proof (Hrva _ Hin) as Ha. cbn [fst snd] in Ha. apply find_type; [done..| |unfold cend, addr; lia].
    rewrite <- Ebs. apply list_elem_of_filter. split; [|done]. unfold counted. destruct (Z.eqb_spec (c_size c) 0); [lia|]. by rewrite andb_false_r.
Qed.

(** ** Export thunks *)

Section Thunks.
  Context (chunkRVA chunkSize symRVA : nat -> Z).

(** The tables as the system reads them. *)
Fixpoint read_ranges (m : mem) (p : Z) (n : nat) : list (Z * Z * Z) :=
  match n with
  | O => []
  | S n => (read32le m p, read32le m (p + 4), read32le m (p + 8)) :: read_ranges m (p + 12) n
  end.

Fixpoint read_redirections (m : mem) (p : Z) (n : nat) : list (Z * Z) :=
  match n with
  | O => []
  | S n => (read32le m p, read32le m (p + 4)) :: read_redirections m (p + 8) n
  end.

Lemma ranges_from l p : from p (CHPECodeRangesChunk_writeTo chunkRVA chunkSize l p).
Proof using Type.
  revert p. induction l as [|[t s] l IH]; intros p m x Hx; [done|]. cbn [CHPECodeRangesChunk_writeTo].
  unfold sizeof_chpe_code_range_entry. rewrite IH by lia. by rewrite !write_other by lia.
Qed.

Lemma redirections_from l p : from p (CHPERedirectionChunk_writeTo chunkRVA symRVA l p).
Proof using Type.
  revert p. induction l as [|[t s] l IH]; intros p m x Hx; [done|]. cbn [CHPERedirectionChunk_writeTo].
  unfold sizeof_chpe_redirection_entry. rewrite IH by lia. by rewrite !write_other by lia.
Qed.

Lemma read_written_ranges l p m :
  read_ranges (CHPECodeRangesChunk_writeTo chunkRVA chunkSize l p m) p (length l) =
  map (fun t => (u32 (chunkRVA t.1), u32 (chunkRVA t.1 + chunkSize t.1), u32 (chunkRVA t.1))) l.
Proof using Type.
  revert p m. induction l as [|[t s] l IH]; intros p m; [done|]. cbn [length read_ranges map fst CHPECodeRangesChunk_writeTo].
  unfold sizeof_chpe_code_range_entry. rewrite IH. f_equal. rewrite !(read_from 4 (p + 12)) by (apply ranges_from || lia).
  repeat (rewrite read_write || (rewrite read_write_other by lia)).
  change (8 * Z.of_nat 4) with 32. rewrite !wrap_wrap_le, wrap_add_wrap_l by lia. done.
Qed.

Lemma read_written_redirections l p m :
  read_redirections (CHPERedirectionChunk_writeTo chunkRVA symRVA l p m) p (length l) = map (fun t => (u32 (chunkRVA t.1), u32 (symRVA t.2))) l.
Proof using Type.
  revert p m. induction l as [|[t s] l IH]; intros p m; [done|]. cbn [length read_redirections map fst snd CHPERedirectionChunk_writeTo].
  unfold sizeof_chpe_redirection_entry. rewrite IH. f_equal. rewrite !(read_from 4 (p + 8)) by (apply redirections_from || lia).
  repeat (rewrite read_write || (rewrite read_write_other by lia)). done.
Qed.

(** Every export thunk is in both tables, in ascending order of addresses, with
    its range and the address of what it stands for, and the counts are right. *)
Lemma export_thunks_listed arm64x thunks pdata hybridPdata a b c d entry ranges entries m :
  let S := setECSymbols chunkRVA chunkSize arm64x thunks pdata hybridPdata a b c d entry in
  let l := sorted_thunks S in
  Permutation l thunks /\ StronglySorted (fun t u => chunkRVA t.1 <= chunkRVA u.1) l /\
  read_ranges (CHPECodeRangesChunk_writeTo chunkRVA chunkSize l ranges m) ranges (Z.to_nat (ranges_count S)) =
    map (fun t => (u32 (chunkRVA t.1), u32 (chunkRVA t.1 + chunkSize t.1), u32 (chunkRVA t.1))) l /\
  read_redirections (CHPERedirectionChunk_writeTo chunkRVA symRVA l entries m) entries (Z.to_nat (redirection_count S)) =
    map (fun t => (u32 (chunkRVA t.1), u32 (symRVA t.2))) l.
Proof using Type.
  cbn zeta. unfold setECSymbols. cbn [sorted_thunks ranges_count redirection_count]. set (l := stable_sort (fun t u : nat * nat => chunkRVA t.1 <? chunkRVA u.1) thunks). rewrite Nat2Z.id.
  split; [apply stable_sort_perm|]. split; [|split; [apply read_written_ranges|apply read_written_redirections]].
  assert (StrictWeak (fun t u : nat * nat => chunkRVA t.1 <? chunkRVA u.1)).
  { split; intros *; rewrite ?Z.ltb_irrefl, ?Z.ltb_lt, ?Z.ltb_ge; try done; lia. }
  pose proof (stable_sort_sorted (fun t u : nat * nat => chunkRVA t.1 <? chunkRVA u.1) thunks) as Hs. fold l in Hs.
  clearbody l. induction Hs as [|t l _ IH Hx]; constructor; [done|]. eapply Forall_impl; [exact Hx|]. intros u Hu%Z.ltb_ge. done.
Qed.
End Thunks.

(** ** An image with two kinds of code *)

Definition ec_cfg : config :=
  {| fileAlign := 512; align := 4096; is64 := true; isEC := true; functionPadMin := 0; dosStubSize := 128; merge_ := []; sectionAttrs := [];
     sectionOrder := [] |}.

Definition ec_chunk (id : nat) (size : Z) (range : option Z) : lchunk :=
  {| c_id := id; c_align := 16; c_size := size; c_hasData := true; c_isSection := true; c_hotPatchable := false; c_entryThunk := false;
     c_amd64 := false; c_range := range; c_object := ""; c_sectionNumber := 1 |}.

Definition ec_section (name : string) (chars : Z) (reloc : bool) (l : list lchunk) : osection :=
  {| os_name := name; os_Characteristics := chars; os_isReloc := reloc; os_chunks := l; VirtualAddress_ := 0; VirtualSize := 0;
     SizeOfRawData_ := 0; PointerToRawData := 0 |}.

(** EC code, an empty section, x64 code, data, x64 thunks, then .reloc. *)
Definition ec_sections : list osection :=
  [ec_section ".text" 0x60000020 false [ec_chunk 0 0x30 (Some RANGE_Arm64EC); ec_chunk 1 0 (Some RANGE_Amd64);
     ec_chunk 2 0x18 (Some RANGE_Arm64EC); ec_chunk 3 0x40 (Some RANGE_Amd64)];
   ec_section ".hexpthk" 0x60000020 false [ec_chunk 4 0x10 (Some RANGE_Amd64)];
   ec_section ".rdata" 0x40000040 false [ec_chunk 5 0x100 None];
   ec_section ".reloc" 0x42000040 true []].

Definition ec_relocs (r : list (lchunk * Z)) : list lchunk := [ec_chunk 6 12 None].

Definition ec_rva (id : nat) : Z :=
  match List.find (fun x => Nat.eqb (c_id x.1) id) (l_rvas (assignAddresses ec_cfg ec_relocs ec_sections).1) with
  | Some x => x.2
  | None => 0
  end.

Lemma ec_layout : l_rvas (assignAddresses ec_cfg ec_relocs ec_sections).1 =
  [(ec_chunk 0 0x30 (Some RANGE_Arm64EC), 0x1000); (ec_chunk 1 0 (Some RANGE_Amd64), 0x2000); (ec_chunk 2 0x18 (Some RANGE_Arm64EC), 0x2000);
   (ec_chunk 3 0x40 (Some RANGE_Amd64), 0x3000); (ec_chunk 4 0x10 (Some RANGE_Amd64), 0x4000); (ec_chunk 5 0x100 None, 0x5000);
   (ec_chunk 6 12 None, 0x6000)].
Proof. by vm_compute. Qed.

Lemma code_map_exact_witness :
  let M := ECCodeMapChunk_writeTo ec_rva (createECCodeMap ec_sections) 0x100 (fun _ => 0) in
  length (createECCodeMap ec_sections) = 2%nat /\
  code_type M 0x100 2 0x1000 = Some RANGE_Arm64EC /\ code_type M 0x100 2 0x3000 = Some RANGE_Amd64 /\
  code_type M 0x100 2 0x4008 = Some RANGE_Amd64 /\ code_type M 0x100 2 0x5000 = None.
Proof.
  split; [by vm_compute|].
  destruct (code_map_exact ec_cfg ec_relocs ec_sections ec_rva 0x100 (fun _ => 0)) as [_ H].
  - done.
  - by split.
  - done.
  - split; [|intros r]; repeat constructor; vm_compute; congruence.
  - split; [|intros r; by repeat constructor].
    apply Forall_cons; split; [by left|]. apply Forall_cons; split; [by left|].
    apply Forall_cons; split; [by right; repeat constructor|]. apply Forall_cons; split; [by right; repeat constructor|constructor].
  - exists (take 3 ec_sections), (drop 3 ec_sections). split; [done|]. split; repeat constructor.
  - repeat constructor; vm_compute; congruence.
  - by vm_compute.
  - rewrite ec_layout. apply Forall_forall. repeat (apply Forall_cons; split; [by vm_compute|]). constructor.
  - rewrite ec_layout in H. split; [|split; [|split]].
    + apply (H (ec_chunk 0 0x30 (Some RANGE_Arm64EC)) 0x1000); [left|by vm_compute].
    + apply (H (ec_chunk 3 0x40 (Some RANGE_Amd64)) 0x3000); [|by vm_compute]. apply list_elem_of_lookup. by exists 3%nat.
    + apply (H (ec_chunk 4 0x10 (Some RANGE_Amd64)) 0x4000); [|by vm_compute]. apply list_elem_of_lookup. by exists 4%nat.
    + apply (H (ec_chunk 5 0x100 None) 0x5000); [|by vm_compute]. apply list_elem_of_lookup. by exists 5%nat.
Defined.
