(* ===== verification/PseudoReloc.v ===== *)
(** * Runtime pseudo-relocations (lld/COFF/Chunks.cpp, Writer.cpp)

    A MinGW program may use a variable of a DLL without declaring it dllimport.
    The relocation then resolves to the IAT slot of the variable
    ([handleMinGWAutomaticImport] in SymbolTable.v), and the linker lists the
    field in a table ([getRuntimePseudoRelocs], [PseudoRelocTableChunk]) for the
    run-time library, which replaces the address of the slot in it by the address
    the loader stored in the slot ([run_pseudo_relocs]: the adjustment that the
    comment in [getRuntimePseudoRelocSize] gives). *)

From S2P Require Import Prelude Memory Reloc SectionChunk.

#[local] Open Scope list_scope.
#[local] Open Scope Z_scope.

(** ** Which relocations can be deferred *)

(** [Triple::ArchType], as far as COFF uses it. *)
Inductive arch_type := x86_64 | x86 | thumb | aarch64.

(** In bits; 0: the relocation cannot be deferred. *)
Definition getRuntimePseudoRelocSize (type : Z) (arch : arch_type) : Z :=
  match arch with
  | x86_64 =>
      if type =? IMAGE_REL_AMD64_ADDR64 then 64
      else if (type =? IMAGE_REL_AMD64_ADDR32) || (type =? IMAGE_REL_AMD64_REL32) || (type =? IMAGE_REL_AMD64_REL32_1) ||
              (type =? IMAGE_REL_AMD64_REL32_2) || (type =? IMAGE_REL_AMD64_REL32_3) || (type =? IMAGE_REL_AMD64_REL32_4) ||
              (type =? IMAGE_REL_AMD64_REL32_5) then 32
      else 0
  | x86 => if (type =? IMAGE_REL_I386_DIR32) || (type =? IMAGE_REL_I386_REL32) then 32 else 0
  | thumb => if type =? IMAGE_REL_ARM_ADDR32 then 32 else 0
  | aarch64 =>
      if type =? IMAGE_REL_ARM64_ADDR64 then 64
      else if type =? IMAGE_REL_ARM64_ADDR32 then 32
      else 0
  end.

(** A defined symbol as the pass reads it: its identity, whether the linker
    imported it by itself, whether it has a chunk, and what relocating reads. *)
Record auto_symbol := { au_id : nat; au_pseudo : bool; au_chunk : bool; au_defined : Defined }.

(** A section of an input file: its chunk, the symbol table of its file, its
    architecture, and its symbols ([None]: no defined symbol). *)
Record auto_section := {
  as_chunk : nat;
  as_symtab : nat;
  as_arch : arch_type;
  as_live : bool;
  as_discardable : bool;
  as_relocs : list coff_relocation;
  as_symbol : nat -> option auto_symbol
}.

Record RuntimePseudoReloc := { rpr_sym : nat; rpr_target : nat; rpr_targetOffset : Z; rpr_flags : Z }.

Inductive pseudo_diag :=
  | UnableToImport (sym : nat) (type : Z) (chunk : nat)
  | TooNarrow (chunk sym : nat) (sizeInBits : Z)
  | RequiresPseudoRelocs (sym chunk : nat)
  | MissingRelocator (symtab : nat).

(** [warn()] or [error()]. *)
Definition is_warning (d : pseudo_diag) : bool := match d with TooNarrow _ _ _ => true | _ => false end.

(** One turn of the loop of [getRuntimePseudoRelocs]. *)
Definition pseudo_step (is64 : bool) (s : auto_section) (acc : list RuntimePseudoReloc * list pseudo_diag) (rel : coff_relocation)
    : list RuntimePseudoReloc * list pseudo_diag :=
  let '(res, diags) := acc in
  match as_symbol s (SymbolTableIndex rel) with
  | None => acc
  | Some target =>
      if negb (au_pseudo target) then acc
      else if negb (au_chunk target) then acc
      else
        let sizeInBits := getRuntimePseudoRelocSize (Type_ rel) (as_arch s) in
        if sizeInBits =? 0 then (res, diags ++ [UnableToImport (au_id target) (Type_ rel) (as_chunk s)])
        else
          let addressSizeInBits := if is64 then 64 else 32 in
          (res ++ [{| rpr_sym := au_id target; rpr_target := as_chunk s; rpr_targetOffset := VirtualAddress rel; rpr_flags := sizeInBits |}],
           if sizeInBits <? addressSizeInBits then diags ++ [TooNarrow (as_chunk s) (au_id target) sizeInBits] else diags)
  end.

Definition getRuntimePseudoRelocs (is64 : bool) (s : auto_section) (acc : list RuntimePseudoReloc * list pseudo_diag)
    : list RuntimePseudoReloc * list pseudo_diag :=
  fold_left (pseudo_step is64 s) (as_relocs s) acc.

(** ** The table *)

(** What the pass adds to .rdata. *)
Inductive rdata_chunk :=
  | PseudoRelocTableChunk (relocs : list RuntimePseudoReloc)
  | EndOfList.

Record pseudo_state := {
  ps_rdata : list rdata_chunk;
  ps_list : nat -> option nat;       (* __RUNTIME_PSEUDO_RELOC_LIST__ of each symbol table: the chunk of .rdata *)
  ps_list_end : nat -> option nat;   (* __RUNTIME_PSEUDO_RELOC_LIST_END__ *)
  ps_diags : list pseudo_diag
}.

Record pseudo_cfg := {
  pc_is64 : bool;
  pc_pseudoRelocs : bool;
  pc_has_relocator : nat -> bool    (* _pei386_runtime_relocator is found in the symbol table *)
}.

Definition set_at {A} (f : nat -> A) (i : nat) (x : A) : nat -> A := fun j => if Nat.eqb j i then x else f j.

(** The gathering loop. *)
Definition symtab_pseudo_relocs (cfg : pseudo_cfg) (chunks : list auto_section) (symtab : nat) : list RuntimePseudoReloc * list pseudo_diag :=
  fold_left (fun acc s =>
    if negb (as_live s) || negb (Nat.eqb (as_symtab s) symtab) then acc
    else if as_discardable s then acc
    else getRuntimePseudoRelocs (pc_is64 cfg) s acc) chunks ([], []).

(** The body of [forEachSymtab]. *)
Definition create_pseudo_table (cfg : pseudo_cfg) (chunks : list auto_section) (st : pseudo_state) (symtab : nat) : pseudo_state :=
  let '(rels, diags) := symtab_pseudo_relocs cfg chunks symtab in
  let diags := ps_diags st ++ diags in
  if negb (pc_pseudoRelocs cfg) then
    {| ps_rdata := ps_rdata st; ps_list := ps_list st; ps_list_end := ps_list_end st;
       ps_diags := diags ++ map (fun r => RequiresPseudoRelocs (rpr_sym r) (rpr_target r)) rels |}
  else
    let diags := if negb (bool_decide (rels = [])) && negb (pc_has_relocator cfg symtab) then diags ++ [MissingRelocator symtab] else diags in
    let table := length (ps_rdata st) in
    {| ps_rdata := ps_rdata st ++ [PseudoRelocTableChunk rels; EndOfList];
       ps_list := set_at (ps_list st) symtab (Some table);
       ps_list_end := set_at (ps_list_end st) symtab (Some (S table));
       ps_diags := diags |}.

Definition createRuntimePseudoRelocs (cfg : pseudo_cfg) (chunks : list auto_section) (symtabs : list nat) (st : pseudo_state) : pseudo_state :=
  fold_left (create_pseudo_table cfg chunks) symtabs st.

Definition pseudo_getSize (relocs : list RuntimePseudoReloc) : Z :=
  match relocs with [] => 0 | _ => 12 + 12 * Z.of_nat (length relocs) end.

Section Table.
  Context (symRVA chunkRVA : nat -> Z).

(** [table[idx + 0] = ...]: the memory and [idx]. *)
Definition pseudo_entry (buf : Z) (st : mem * Z) (rpr : RuntimePseudoReloc) : mem * Z :=
  let '(m, idx) := st in
  let m := write32le m (buf + 4 * (idx + 0)) (symRVA (rpr_sym rpr)) in
  let m := write32le m (buf + 4 * (idx + 1)) (chunkRVA (rpr_target rpr) + rpr_targetOffset rpr) in
  let m := write32le m (buf + 4 * (idx + 2)) (rpr_flags rpr) in
  (m, idx + 3).

Definition pseudo_writeTo (relocs : list RuntimePseudoReloc) (buf : Z) (m : mem) : mem :=
  match relocs with
  | [] => m
  | _ =>
      let m := write32le m (buf + 4 * 0) 0 in
      let m := write32le m (buf + 4 * 1) 0 in
      let m := write32le m (buf + 4 * 2) 1 in
      (fold_left (pseudo_entry buf) relocs (m, 3)).1
  end.
End Table.

(** ** The run-time library *)

Section Runtime.
  Context (is64 : bool) (base : Z).

Definition pointer_bytes : nat := if is64 then 8 else 4.

(** [*(base + .target) += *(base + .sym) - (base + .sym)], [flags] bits wide. *)
Definition run_item (p : Z) (m : mem) : mem :=
  let sym := base + read32le m p in
  let target := base + read32le m (p + 4) in
  let n := Z.to_nat (read32le m (p + 8) / 8) in
  write n m target (read n m target + (read pointer_bytes m sym - sym)).

Fixpoint run_items (k : nat) (p : Z) (m : mem) : mem :=
  match k with
  | O => m
  | S k => run_items k (p + 12) (run_item p m)
  end.

(** From [__RUNTIME_PSEUDO_RELOC_LIST__] to [__RUNTIME_PSEUDO_RELOC_LIST_END__].
    None: not a table of version 2. *)
Definition run_pseudo_relocs (list_rva end_rva : Z) (m : mem) : option mem :=
  if end_rva <=? list_rva then Some m
  else
    let p := base + list_rva in
    if (read32le m p =? 0) && (read32le m (p + 4) =? 0) && (read32le m (p + 8) =? 1)
    then Some (run_items (Z.to_nat ((end_rva - list_rva - 12) / 12)) (p + 12) m)
    else None.
End Runtime.
