(* ===== verification/PseudoRelocProps.v ===== *)
(** * Pseudo-relocations give references to the variable

    The code of a program whose references to variables of other DLLs were
    imported automatically is, once the run-time library walked the table, the
    code that a link with the addresses of the variables would have written. *)

From S2P Require Import Prelude Memory Reloc RelocProps SectionChunk Rebase Tables TablesProps PseudoReloc.

#[local] Open Scope list_scope.
#[local] Open Scope Z_scope.

(** ** One field *)

(** The adjustment of a field of [n] bytes. *)
Definition rt_fix (n : nat) (d off : Z) (st : rstate) : rstate :=
  on_mem (fun m => write n m off (read n m off + d)) st.

Lemma rt_fix_field n d : FieldOp (Z.of_nat n) (rt_fix n d).
Proof. by apply (fieldop_modify0 (Z.of_nat n) n (fun x => x + d)). Qed.

Definition reloc_arch (a : arch_type) : RelocArch :=
  match a with x86_64 => archX64 | x86 => archX86 | thumb => archARM | aarch64 => archARM64 end.

(** The slot is not in an executable section, where ARM sets the Thumb bit. *)
Definition not_code (os : option OutputSection) : bool :=
  match os with Some o => (osCharacteristics o &&& IMAGE_SCN_MEM_EXECUTE) =? 0 | None => true end.

Lemma add32_fix off v d w st a : u32 w = u32 (v + d) -> rmem (add32 off w st) a = rmem (rt_fix 4 d off (add32 off v st)) a.
Proof.
  intros H. unfold rt_fix, add32, on_mem. cbn [rmem].
  rewrite (write_congr 4 (rmem st) off _ (read32le (rmem st) off + w)) by by apply wrap_add_sext_r.
  rewrite (add_add 4 (rmem st) off v w d a H). rewrite !write_write, !read_write. apply write_congr.
  rewrite !wrap_add_wrap_l by lia. apply wrap_add_congr; [lia|]. symmetry. by apply wrap_add_sext_r.
Qed.

Lemma add64_fix off v d w st a : u64 w = u64 (v + d) -> rmem (add64 off w st) a = rmem (rt_fix 8 d off (add64 off v st)) a.
Proof.
  intros H. unfold rt_fix, add64, on_mem. cbn [rmem].
  rewrite (write_congr 8 (rmem st) off _ (read64le (rmem st) off + w)) by by apply wrap_add_sext_r.
  rewrite (add_add 8 (rmem st) off v w d a H). rewrite !write_write, !read_write. apply write_congr.
  rewrite !wrap_add_wrap_l by lia. apply wrap_add_congr; [lia|]. symmetry. by apply wrap_add_sext_r.
Qed.

Ltac deferred_cases type H :=
  repeat match type of H with
  | context [type =? ?b] => destruct (Z.eqb_spec type b) as [->|]; [|cbn [orb] in H]
  end; try done; simpl Z.eqb; cbv iota; cbn [orb].

(** The two addresses are equal modulo the width of the field. *)
Ltac deferred_case s d :=
  first [apply add32_fix | apply add64_fix];
  let k := fresh "k" in let E := fresh "E" in
  destruct (wrap_split 64 (s + d) ltac:(lia)) as [k E]; unfold u64 in *; rewrite E;
  apply wrap_eq; [lia|]; first [exists (k * 2 ^ 32); lia | exists k; lia].

Lemma deferred_X64 sec off type os s d p base st a :
  getRuntimePseudoRelocSize type x86_64 <> 0 ->
  rmem (applyRelX64 sec off type os (u64 (s + d)) p base st) a =
  rmem (rt_fix (Z.to_nat (getRuntimePseudoRelocSize type x86_64 / 8)) d off (applyRelX64 sec off type os s p base st)) a.
Proof. unfold getRuntimePseudoRelocSize, applyRelX64. intros H. deferred_cases type H; deferred_case s d. Qed.

Lemma deferred_X86 sec off type os s d p base st a :
  getRuntimePseudoRelocSize type x86 <> 0 ->
  rmem (applyRelX86 sec off type os (u64 (s + d)) p base st) a =
  rmem (rt_fix (Z.to_nat (getRuntimePseudoRelocSize type x86 / 8)) d off (applyRelX86 sec off type os s p base st)) a.
Proof. unfold getRuntimePseudoRelocSize, applyRelX86. intros H. deferred_cases type H; deferred_case s d. Qed.

Lemma deferred_ARM sec off type os s d p base st a :
  getRuntimePseudoRelocSize type thumb <> 0 -> not_code os = true ->
  rmem (applyRelARM sec off type os (u64 (s + d)) p base st) a =
  rmem (rt_fix (Z.to_nat (getRuntimePseudoRelocSize type thumb / 8)) d off (applyRelARM sec off type os s p base st)) a.
Proof.
  unfold getRuntimePseudoRelocSize, applyRelARM, not_code. intros H Hos.
  destruct os as [o|]; [rewrite Hos|]; deferred_cases type H; deferred_case s d.
Qed.

Lemma applyRelARM64_ADDR64 sec off os s p base st : applyRelARM64 sec off IMAGE_REL_ARM64_ADDR64 os s p base st = add64 off (s + base) st.
Proof. reflexivity. Qed.

Lemma applyRelARM64_ADDR32 sec off os s p base st : applyRelARM64 sec off IMAGE_REL_ARM64_ADDR32 os s p base st = add32 off (s + base) st.
Proof. reflexivity. Qed.

Lemma deferred_ARM64 sec off type os s d p base st a :
  getRuntimePseudoRelocSize type aarch64 <> 0 ->
  rmem (applyRelARM64 sec off type os (u64 (s + d)) p base st) a =
  rmem (rt_fix (Z.to_nat (getRuntimePseudoRelocSize type aarch64 / 8)) d off (applyRelARM64 sec off type os s p base st)) a.
Proof.
  intros H. destruct (Z.eq_dec type IMAGE_REL_ARM64_ADDR64) as [->|H64].
  { rewrite !applyRelARM64_ADDR64. change (Z.to_nat (_ / 8)) with 8%nat. deferred_case s d. }
  destruct (Z.eq_dec type IMAGE_REL_ARM64_ADDR32) as [->|H32].
  { rewrite !applyRelARM64_ADDR32. change (Z.to_nat (_ / 8)) with 4%nat. deferred_case s d. }
  unfold getRuntimePseudoRelocSize in H. by rewrite !(proj2 (Z.eqb_neq _ _)) in H by done.
Qed.

(** A relocation that can be deferred, applied with the address of the slot and
    adjusted, is the relocation applied with the address of the variable. *)
Lemma apply_deferred arch sec off type os s d p base st a :
  getRuntimePseudoRelocSize type arch <> 0 -> not_code os = true ->
  rmem (apply (RelocArch := reloc_arch arch) sec off type os (u64 (s + d)) p base st) a =
  rmem (rt_fix (Z.to_nat (getRuntimePseudoRelocSize type arch / 8)) d off (apply (RelocArch := reloc_arch arch) sec off type os s p base st)) a.
Proof.
  intros H Hos.
  destruct arch; [by apply deferred_X64|by apply deferred_X86|by apply deferred_ARM|by apply deferred_ARM64].
Qed.

Lemma deferred_width arch ty :
  getRuntimePseudoRelocSize ty arch <> 0 ->
  0 < getRuntimePseudoRelocSize ty arch < 256 /\
  Z.of_nat (Z.to_nat (getRuntimePseudoRelocSize ty arch / 8)) = width (RelocArch := reloc_arch arch) ty.
Proof.
  destruct arch; unfold getRuntimePseudoRelocSize; intros H;
    repeat match type of H with context [ty =? ?b] => destruct (Z.eqb_spec ty b) as [E|_]; [rewrite E|cbn [orb] in H] end;
    try done; (split; [lia|]); reflexivity.
Qed.

(** ** One section *)

(** The bytes of a section chunk. *)
Record section_body := { b_hasData : bool; b_contents : list Z; b_size : Z; b_isCodeView : bool; b_isDWARF : bool }.

Section Image.
  Context (is64 : bool) (cfg : link_cfg) (symtab : nat) (secs : list auto_section).
  Context (body : nat -> section_body) (symRVA' chunkRVA : nat -> Z).
  (** Where the loader found the variable behind the IAT slot of a symbol. *)
  Context (variable : nat -> Z).

Definition base : Z := imageBase cfg.

Definition section_with (f : auto_symbol -> Defined) (s : auto_section) : SectionChunk :=
  {| hasData := b_hasData (body (as_chunk s)); contents := b_contents (body (as_chunk s));
     SizeOfRawData := b_size (body (as_chunk s)); rva := chunkRVA (as_chunk s); relocs := as_relocs s;
     getSymbol := fun i => f <$> as_symbol s i;
     sc_isCodeView := b_isCodeView (body (as_chunk s)); sc_isDWARF := b_isDWARF (body (as_chunk s)) |}.

(** The section as it is linked, and as a link that knows the variables'
    addresses would write it. *)
Definition linked : auto_section -> SectionChunk := section_with au_defined.

Definition deferred (t : auto_symbol) : bool := au_pseudo t && au_chunk t.

Definition resolve (t : auto_symbol) : Defined :=
  if deferred t then
    {| SectionChunk.symRVA := u64 (variable (au_id t) - base); symOutputSection := symOutputSection (au_defined t);
       isAbsolute := isAbsolute (au_defined t); isSynthetic := isSynthetic (au_defined t) |}
  else au_defined t.

Definition resolved : auto_section -> SectionChunk := section_with resolve.

Definition write_section (sc : auto_section -> SectionChunk) (s : auto_section) (st : rstate) : rstate :=
  writeTo (A := reloc_arch (as_arch s)) cfg (sc s) (base + chunkRVA (as_chunk s)) st.

Definition field_end (s : auto_section) (rel : coff_relocation) : Z := VirtualAddress rel + width (RelocArch := reloc_arch (as_arch s)) (Type_ rel).
Definition fields_apart (s : auto_section) (r1 r2 : coff_relocation) : Prop :=
  field_end s r1 <= VirtualAddress r2 \/ field_end s r2 <= VirtualAddress r1.

(** A relocation inside its section; a deferred one is against a live slot that
    is not code, and that the table knows by its RVA. *)
Record rel_deferrable (s : auto_section) (rel : coff_relocation) : Prop := {
  rd_inside : 0 <= VirtualAddress rel /\ field_end s rel <= b_size (body (as_chunk s));
  rd_rva : 0 <= chunkRVA (as_chunk s) + VirtualAddress rel < 2 ^ 32;
  rd_type : forall t, as_symbol s (SymbolTableIndex rel) = Some t -> deferred t = true ->
    not_code (symOutputSection (au_defined t)) = true /\
    (symOutputSection (au_defined t) <> None \/ isAbsolute (au_defined t) = true \/ isSynthetic (au_defined t) = true) /\
    SectionChunk.symRVA (au_defined t) = symRVA' (au_id t)
}.

Definition type_ok (s : auto_section) (rel : coff_relocation) : Prop :=
  forall t, as_symbol s (SymbolTableIndex rel) = Some t -> deferred t = true -> getRuntimePseudoRelocSize (Type_ rel) (as_arch s) <> 0.

Definition shift (id : nat) : Z := variable id - (base + symRVA' id).

(** The adjustment of one entry of the table. *)
Definition fix_item (st : rstate) (r : RuntimePseudoReloc) : rstate :=
  rt_fix (Z.to_nat (rpr_flags r / 8)) (shift (rpr_sym r)) (base + (chunkRVA (rpr_target r) + rpr_targetOffset r)) st.

Definition item_of (s : auto_section) (rel : coff_relocation) : option RuntimePseudoReloc :=
  t ← as_symbol s (SymbolTableIndex rel);
  let n := getRuntimePseudoRelocSize (Type_ rel) (as_arch s) in
  if deferred t && negb (n =? 0)
  then Some {| rpr_sym := au_id t; rpr_target := as_chunk s; rpr_targetOffset := VirtualAddress rel; rpr_flags := n |}
  else None.

Definition fix_rel (s : auto_section) (st : rstate) (rel : coff_relocation) : rstate :=
  match item_of s rel with Some r => fix_item st r | None => st end.

Lemma item_of_spec s rel r :
  item_of s rel = Some r ->
  exists t, as_symbol s (SymbolTableIndex rel) = Some t /\ deferred t = true /\
    getRuntimePseudoRelocSize (Type_ rel) (as_arch s) <> 0 /\
    r = {| rpr_sym := au_id t; rpr_target := as_chunk s; rpr_targetOffset := VirtualAddress rel;
           rpr_flags := getRuntimePseudoRelocSize (Type_ rel) (as_arch s) |} /\
    Z.of_nat (Z.to_nat (rpr_flags r / 8)) = width (RelocArch := reloc_arch (as_arch s)) (Type_ rel) /\
    0 < rpr_flags r < 256.
Proof using Type.
  unfold item_of. destruct (as_symbol s (SymbolTableIndex rel)) as [t|] eqn:Et; [|done]. cbn [mbind option_bind].
  destruct (deferred t) eqn:Ed; cbn [andb]; [|done]. destruct (Z.eqb_spec (getRuntimePseudoRelocSize (Type_ rel) (as_arch s)) 0) as [|Hn]; [done|].
  intros [= <-]. exists t. destruct (deferred_width _ _ Hn) as [Hr Hw]. cbn [rpr_flags]. split_and!; done || lia.
Qed.

Lemma fix_item_same_mem st st' r : same_mem st st' -> same_mem (fix_item st r) (fix_item st' r).
Proof using Type. apply (fieldop_same_mem _ _ (FieldOp0 := rt_fix_field _ _)). Qed.

Lemma fix_rel_respects s : respects (fix_rel s).
Proof using Type. intros rel st st' H. unfold fix_rel. destruct (item_of s rel); [by apply fix_item_same_mem|done]. Qed.

Lemma write_reloc_respects s sc : respects (write_reloc (A := reloc_arch (as_arch s)) cfg sc (base + chunkRVA (as_chunk s))).
Proof using Type. intros rel st st' H. by apply (write_reloc_same_mem (A := reloc_arch (as_arch s))). Qed.

(** Writing the variable's address is writing the slot's and adjusting it. *)
Lemma write_reloc_resolved s rel st :
  rel_deferrable s rel -> type_ok s rel ->
  same_mem (write_reloc (A := reloc_arch (as_arch s)) cfg (resolved s) (base + chunkRVA (as_chunk s)) st rel)
    (fix_rel s (write_reloc (A := reloc_arch (as_arch s)) cfg (linked s) (base + chunkRVA (as_chunk s)) st rel) rel).
Proof using Type.
  intros [Hin Hrva Hty] Hok. unfold write_reloc, resolved, linked. cbn [SizeOfRawData section_with].
  pose proof (width_range (RelocArch := reloc_arch (as_arch s)) (Type_ rel)) as Hw. unfold field_end in Hin.
  rewrite (proj2 (Z.leb_gt _ _)) by lia. unfold applyRelocation, fix_rel, item_of. cbn [getSymbol section_with rva].
  destruct (as_symbol s (SymbolTableIndex rel)) as [t|] eqn:Et; cbn [mbind option_bind fmap option_fmap option_map]; [|by intros a].
  unfold resolve. destruct (deferred t) eqn:Ed; cbn [andb]; [|by intros a].
  destruct (Hty t eq_refl Ed) as (Hos & Hlive & Hsym). pose proof (Hok t Et Ed) as Hn.
  rewrite (proj2 (Z.eqb_neq _ _) Hn). cbn [negb symOutputSection isAbsolute isSynthetic SectionChunk.symRVA].
  destruct (bool_decide (symOutputSection (au_defined t) = None) && negb (isAbsolute (au_defined t)) && negb (isSynthetic (au_defined t))) eqn:El.
  { apply andb_true_iff in El as [[El1%bool_decide_eq_true El2%negb_true_iff]%andb_true_iff El3%negb_true_iff]. intuition congruence. }
  intros a. unfold fix_item. cbn [rpr_flags rpr_sym rpr_target rpr_targetOffset].
  replace (variable (au_id t) - base) with (SectionChunk.symRVA (au_defined t) + shift (au_id t)) by (rewrite Hsym; unfold shift; lia).
  rewrite Z.add_assoc. by apply apply_deferred.
Qed.

Lemma fix_write_commute s r1 r2 st :
  fields_apart s r1 r2 ->
  same_mem (fix_rel s (write_reloc (A := reloc_arch (as_arch s)) cfg (linked s) (base + chunkRVA (as_chunk s)) st r2) r1)
    (write_reloc (A := reloc_arch (as_arch s)) cfg (linked s) (base + chunkRVA (as_chunk s)) (fix_rel s st r1) r2).
Proof using Type.
  intros Hd. unfold fix_rel. destruct (item_of s r1) as [r|] eqn:Ei; [|done].
  apply item_of_spec in Ei as (t & _ & _ & _ & Er & Hw & _). unfold write_reloc. case_match; [done|]. unfold fix_item.
  apply (fieldop_commute _ (width (RelocArch := reloc_arch (as_arch s)) (Type_ r2)) _
    (fun off => applyRelocation (A := reloc_arch (as_arch s)) cfg (linked s) r2 off)
    (FieldOp0 := rt_fix_field _ _) (FieldOp1 := applyRelocation_field (A := reloc_arch (as_arch s)) cfg (linked s) r2)).
  rewrite Hw. subst r. cbn [rpr_target rpr_targetOffset]. unfold fields_apart, field_end in Hd. lia.
Qed.

Lemma fold_fix_rel s rels st : fold_left (fix_rel s) rels st = fold_left fix_item (omap (item_of s) rels) st.
Proof using Type.
  revert st. induction rels as [|rel rels IH]; intros st; [done|]. cbn [fold_left omap list_omap]. rewrite IH. unfold fix_rel.
  by destruct (item_of s rel).
Qed.

(** A section whose relocations can be deferred. *)
Record section_deferrable (s : auto_section) : Prop := {
  sd_relocs : Forall (rel_deferrable s) (as_relocs s);
  sd_apart : StronglySorted (fields_apart s) (as_relocs s);
  sd_data : b_hasData (body (as_chunk s)) = false -> as_relocs s = []
}.

Lemma section_resolved s st :
  section_deferrable s -> Forall (type_ok s) (as_relocs s) ->
  same_mem (write_section resolved s st) (fold_left fix_item (omap (item_of s) (as_relocs s)) (write_section linked s st)).
Proof using Type.
  intros [Hrel Hap Hdata] Hty. rewrite <- fold_fix_rel. unfold write_section, writeTo.
  cbn [hasData contents relocs resolved linked section_with].
  destruct (b_hasData (body (as_chunk s))); cbn [negb]; [|by rewrite Hdata].
  eapply fold_after; [apply write_reloc_respects..|apply fix_rel_respects| | |exact Hap|done].
  - rewrite Forall_forall in Hrel, Hty |- *. intros rel Hr st'. apply write_reloc_resolved; auto.
  - intros r1 r2 st'. apply fix_write_commute.
Qed.

(** ** The table *)

Definition mapped (s : auto_section) : Prop := as_live s = true /\ as_symtab s = symtab /\ as_discardable s = false.
#[local] Instance mapped_dec s : Decision (mapped s).
Proof. unfold mapped. apply _. Defined.

Definition items (s : auto_section) : list RuntimePseudoReloc := omap (item_of s) (as_relocs s).

(** What one relocation adds to the diagnostics. *)
Definition diag_of (s : auto_section) (rel : coff_relocation) : list pseudo_diag := (pseudo_step is64 s ([], []) rel).2.

Lemma pseudo_step_eq s acc rel :
  pseudo_step is64 s acc rel = (acc.1 ++ omap (item_of s) [rel], acc.2 ++ diag_of s rel).
Proof using Type.
  destruct acc as [res diags]. unfold diag_of, pseudo_step, item_of, deferred. cbn [omap list_omap fst snd].
  destruct (as_symbol s (SymbolTableIndex rel)) as [t|]; cbn [mbind option_bind]; [|by rewrite !app_nil_r].
  destruct (au_pseudo t), (au_chunk t); cbn [negb andb]; try by rewrite !app_nil_r.
  destruct (_ =? 0); cbn [negb app]; [by rewrite app_nil_r|]. destruct (_ <? _); by rewrite ?app_nil_r.
Qed.

Lemma getRuntimePseudoRelocs_eq s acc :
  getRuntimePseudoRelocs is64 s acc = (acc.1 ++ items s, acc.2 ++ flat_map (diag_of s) (as_relocs s)).
Proof using Type.
  unfold getRuntimePseudoRelocs, items. revert acc. induction (as_relocs s) as [|rel rels IH]; intros acc; cbn [fold_left flat_map].
  { rewrite !app_nil_r. by destruct acc. }
  rewrite pseudo_step_eq, IH. cbn [fst snd]. rewrite <- !app_assoc. f_equal. f_equal. by rewrite <- omap_app.
Qed.

Definition all_items : list RuntimePseudoReloc := flat_map items (filter mapped secs).

Lemma gathered pcfg :
  pc_is64 pcfg = is64 ->
  symtab_pseudo_relocs pcfg secs symtab =
  (all_items, flat_map (fun s => flat_map (diag_of s) (as_relocs s)) (filter mapped secs)).
Proof using Type.
  intros E. unfold symtab_pseudo_relocs, all_items. rewrite E.
  enough (forall acc, fold_left (fun acc s => if negb (as_live s) || negb (Nat.eqb (as_symtab s) symtab) then acc
    else if as_discardable s then acc else getRuntimePseudoRelocs is64 s acc) secs acc =
    (acc.1 ++ flat_map items (filter mapped secs), acc.2 ++ flat_map (fun s => flat_map (diag_of s) (as_relocs s)) (filter mapped secs)))
    as H by apply (H ([], [])).
  induction secs as [|s l IH]; intros acc; [cbn; rewrite !app_nil_r; by destruct acc|]. cbn [fold_left]. rewrite filter_cons.
  destruct (decide (mapped s)) as [(H1 & H2 & H3)|Hn].
  - rewrite H1, H2, H3, Nat.eqb_refl. cbn [negb orb flat_map]. rewrite IH, getRuntimePseudoRelocs_eq. cbn [fst snd].
    by rewrite <- !app_assoc.
  - rewrite <- IH. f_equal. destruct (as_live s) eqn:E1; [|done]. cbn [negb orb].
    destruct (Nat.eqb_spec (as_symtab s) symtab) as [E2|]; [|done]. cbn [negb]. destruct (as_discardable s) eqn:E3; [done|]. by destruct Hn.
Qed.

(** Without an error, every deferred relocation is of a type that can be. *)
Lemma no_error_types pcfg s :
  pc_is64 pcfg = is64 -> mapped s -> s ∈ secs ->
  Forall (fun d => is_warning d = true) (symtab_pseudo_relocs pcfg secs symtab).2 -> Forall (type_ok s) (as_relocs s).
Proof using Type.
  intros E Hm Hin H. rewrite (gathered pcfg E) in H. cbn [snd] in H. rewrite Forall_forall in H. rewrite Forall_forall.
  intros rel Hrel t Ht Hd Hz. enough (is_warning (UnableToImport (au_id t) (Type_ rel) (as_chunk s)) = true) by done.
  apply H. apply list_elem_of_In, in_flat_map. exists s. split; [apply list_elem_of_In, list_elem_of_filter; done|].
  apply in_flat_map. exists rel. split; [by apply list_elem_of_In|].
  unfold diag_of, pseudo_step. rewrite Ht. unfold deferred in Hd. apply andb_true_iff in Hd as [-> ->]. cbn [negb].
  rewrite Hz, Z.eqb_refl. left. done.
Qed.

(** The table as words. *)
Definition item_words (r : RuntimePseudoReloc) : list Z :=
  [symRVA' (rpr_sym r); chunkRVA (rpr_target r) + rpr_targetOffset r; rpr_flags r].

Lemma pseudo_entries_words buf l m idx :
  (fold_left (pseudo_entry symRVA' chunkRVA buf) l (m, idx)).1 = put_words (buf + 4 * idx) (flat_map item_words l) m.
Proof using Type.
  revert m idx. induction l as [|r l IH]; intros m idx; [done|]. cbn [fold_left flat_map item_words app put_words]. unfold pseudo_entry at 2.
  rewrite IH. replace (buf + 4 * (idx + 3)) with (buf + 4 * idx + 4 + 4 + 4) by lia. rewrite Z.add_0_r.
  replace (buf + 4 * (idx + 1)) with (buf + 4 * idx + 4) by lia. by replace (buf + 4 * (idx + 2)) with (buf + 4 * idx + 4 + 4) by lia.
Qed.

Lemma pseudo_words buf l m :
  l <> [] -> pseudo_writeTo symRVA' chunkRVA l buf m = put_words buf (0 :: 0 :: 1 :: flat_map item_words l) m.
Proof using Type.
  intros Hl. unfold pseudo_writeTo. destruct l as [|r l]; [done|]. rewrite pseudo_entries_words. cbn [put_words].
  change (4 * 0) with 0. rewrite Z.add_0_r. replace (buf + 4 * 3) with (buf + 4 + 4 + 4) by lia.
  change (4 * 1) with 4. by replace (buf + 4 * 2) with (buf + 4 + 4) by lia.
Qed.

Lemma item_word l i r j :
  l !! i = Some r -> (j < 3)%nat -> flat_map item_words l !! (3 * i + j)%nat = item_words r !! j.
Proof using Type.
  revert i. induction l as [|r' l IH]; intros i Hi Hj; [done|]. destruct i as [|i]; cbn [flat_map].
  - injection Hi as ->. by rewrite lookup_app_l by done.
  - rewrite lookup_app_r by (cbn; lia). rewrite <- (IH i Hi Hj). f_equal. cbn [length item_words]. lia.
Qed.

Lemma item_words_length l : length (flat_map item_words l) = (3 * length l)%nat.
Proof using Type. induction l; cbn [flat_map length]; [done|]. rewrite length_app. cbn [length item_words]. lia. Qed.

(** ** The whole image *)

Section Loaded.
  Context (list_rva : Z) (M : mem) (st0 : rstate).

Definition in_section (s : auto_section) (x : Z) : Prop :=
  base + chunkRVA (as_chunk s) <= x < base + chunkRVA (as_chunk s) + b_size (body (as_chunk s)).
Definition in_table (x : Z) : Prop := base + list_rva <= x < base + list_rva + pseudo_getSize all_items.
Definition in_slot (x : Z) : Prop :=
  exists r, r ∈ all_items /\ base + symRVA' (rpr_sym r) <= x < base + symRVA' (rpr_sym r) + Z.of_nat (pointer_bytes is64).

(** The image in memory: its sections as linked, the table, and the variables'
    addresses in the slots. *)
Record loaded : Prop := {
  ld_secs s : s ∈ secs -> mapped s -> section_deferrable s;
  ld_apart i j s t x : filter mapped secs !! i = Some s -> filter mapped secs !! j = Some t -> i <> j -> in_section s x -> ~ in_section t x;
  ld_others s x : s ∈ secs -> mapped s -> in_section s x -> ~ in_table x /\ ~ in_slot x;
  ld_written s : s ∈ secs -> mapped s ->
    same_window (b_size (body (as_chunk s))) M (base + chunkRVA (as_chunk s)) (rmem (write_section linked s st0)) (base + chunkRVA (as_chunk s));
  ld_table : same_window (pseudo_getSize all_items) M (base + list_rva) (pseudo_writeTo symRVA' chunkRVA all_items 0 (fun _ => 0)) 0;
  ld_slot r : r ∈ all_items ->
    0 <= symRVA' (rpr_sym r) < 2 ^ 32 /\ read (pointer_bytes is64) M (base + symRVA' (rpr_sym r)) = variable (rpr_sym r)
}.

Context (Hld : loaded).

Lemma all_items_in r : r ∈ all_items <-> exists s, s ∈ secs /\ mapped s /\ r ∈ items s.
Proof using Type.
  unfold all_items. split.
  - intros (s & Hs%list_elem_of_In & Hr)%list_elem_of_In%in_flat_map. apply list_elem_of_filter in Hs as [? ?]. exists s. split_and!; [done..|by apply list_elem_of_In].
  - intros (s & Hs & Hm & Hr). apply list_elem_of_In, in_flat_map. exists s.
    split; apply list_elem_of_In; [by apply list_elem_of_filter|done].
Qed.

(** The field of an item is inside its section. *)
Lemma item_field s r :
  s ∈ secs -> mapped s -> r ∈ items s ->
  rpr_target r = as_chunk s /\ 0 < rpr_flags r < 256 /\ 0 <= chunkRVA (rpr_target r) + rpr_targetOffset r < 2 ^ 32 /\
  0 <= rpr_targetOffset r /\ rpr_targetOffset r + Z.of_nat (Z.to_nat (rpr_flags r / 8)) <= b_size (body (as_chunk s)).
Proof using Hld.
  intros Hs Hm Hr. apply list_elem_of_omap in Hr as (rel & Hrel & Hi).
  apply item_of_spec in Hi as (t & _ & _ & _ & -> & Hw & Hf).
  pose proof (sd_relocs _ (ld_secs Hld s Hs Hm)) as HF. rewrite Forall_forall in HF.
  destruct (HF rel Hrel) as [[H0 H1] H2 _]. unfold field_end in H1. cbn [rpr_target rpr_targetOffset rpr_flags] in *. lia.
Qed.

Lemma fix_item_frame s r st x :
  s ∈ secs -> mapped s -> r ∈ items s -> ~ in_section s x -> rmem (fix_item st r) x = rmem st x.
Proof using Hld.
  intros Hs Hm Hr Hx. destruct (item_field s r Hs Hm Hr) as (Et & _ & _ & H0 & H1).
  apply (fo_frame (FieldOp := rt_fix_field _ _)). unfold in_section in Hx. rewrite Et. lia.
Qed.

Lemma fix_item_local s r st st' :
  s ∈ secs -> mapped s -> r ∈ items s ->
  same_window (b_size (body (as_chunk s))) (rmem st) (base + chunkRVA (as_chunk s)) (rmem st') (base + chunkRVA (as_chunk s)) ->
  same_window (b_size (body (as_chunk s))) (rmem (fix_item st r)) (base + chunkRVA (as_chunk s)) (rmem (fix_item st' r)) (base + chunkRVA (as_chunk s)).
Proof using Hld.
  intros Hs Hm Hr H k Hk. destruct (item_field s r Hs Hm Hr) as (Et & _ & _ & H0 & H1). unfold fix_item. rewrite Et.
  set (n := Z.to_nat _) in *. set (off := base + (_ + _)).
  destruct (fo_local (FieldOp := rt_fix_field n (shift (rpr_sym r))) off off st st') as [Hl _].
  { intros j Hj. unfold off. replace (base + (chunkRVA (as_chunk s) + rpr_targetOffset r) + j)
      with (base + chunkRVA (as_chunk s) + (rpr_targetOffset r + j)) by lia. apply H. lia. }
  destruct (decide (rpr_targetOffset r <= k < rpr_targetOffset r + Z.of_nat n)).
  - replace (base + chunkRVA (as_chunk s) + k) with (off + (k - rpr_targetOffset r)) by (unfold off; lia). apply Hl. lia.
  - rewrite !(fo_frame (FieldOp := rt_fix_field n _)) by (unfold off; lia). by apply H.
Qed.

Definition agrees (m : mem) : Prop := forall x, in_table x \/ in_slot x -> m x = M x.

Lemma table_word i r j m :
  agrees m -> all_items !! i = Some r -> (j < 3)%nat ->
  read32le m (base + list_rva + 12 + 12 * Z.of_nat i + 4 * Z.of_nat j) = u32 (nth j (item_words r) 0).
Proof using Hld.
  intros Hm Hi Hj. pose proof (lookup_lt_Some _ _ _ Hi) as Hlen.
  assert (Hne : all_items <> []) by (intros E; rewrite E in Hi; done).
  assert (Hsz : pseudo_getSize all_items = 12 + 12 * Z.of_nat (length all_items)) by (unfold pseudo_getSize; by destruct all_items).
  transitivity (read32le (pseudo_writeTo symRVA' chunkRVA all_items 0 (fun _ => 0)) (4 * Z.of_nat (3 + (3 * i + j)))).
  - apply read_ext. intros k Hk. rewrite Hm by (left; unfold in_table; lia).
    replace (4 * Z.of_nat (3 + (3 * i + j)) + k) with (0 + (12 + 12 * Z.of_nat i + 4 * Z.of_nat j + k)) by lia.
    rewrite <- (ld_table Hld) by lia. f_equal. lia.
  - rewrite pseudo_words by done. apply (read_put_words 0). cbn [app]. rewrite !lookup_cons_ne_0 by lia.
    cbn [Nat.pred]. replace (Nat.pred _) with (3 * i + j)%nat by lia.
    rewrite (item_word _ _ r) by done. destruct j as [|[|[|j]]]; [done..|lia].
Qed.

Lemma run_item_fix i r st :
  agrees (rmem st) -> all_items !! i = Some r ->
  run_item is64 base (base + list_rva + 12 + 12 * Z.of_nat i) (rmem st) = rmem (fix_item st r).
Proof using Hld.
  intros Hm Hi. pose proof (list_elem_of_lookup_2 _ _ _ Hi) as Hr. destruct (ld_slot Hld r Hr) as [Hrva Hslot].
  apply all_items_in in Hr as Hr'. destruct Hr' as (s & Hs & Hmap & Hr'). destruct (item_field s r Hs Hmap Hr') as (_ & Hf & Ht & _).
  unfold run_item. pose proof (table_word i r 0 _ Hm Hi ltac:(lia)) as E0. pose proof (table_word i r 1 _ Hm Hi ltac:(lia)) as E1.
  pose proof (table_word i r 2 _ Hm Hi ltac:(lia)) as E2. cbn [nth item_words] in E0, E1, E2.
  change (4 * Z.of_nat 0) with 0 in E0. rewrite Z.add_0_r in E0.
  change (4 * Z.of_nat 1) with 4 in E1. change (4 * Z.of_nat 2) with 8 in E2. rewrite E0, E1, E2.
  rewrite (wrap_small 32 (symRVA' _)), (wrap_small 32 (chunkRVA _ + _)), (wrap_small 32 (rpr_flags r)) by (unfold word_ok; lia).
  unfold fix_item, rt_fix, on_mem. cbn [rmem]. f_equal. f_equal. unfold shift. f_equal. rewrite <- Hslot.
  apply read_ext. intros k Hk. apply Hm. right. exists r. split; [done|lia].
Qed.

Lemma agrees_fix st r : agrees (rmem st) -> r ∈ all_items -> agrees (rmem (fix_item st r)).
Proof using Hld.
  intros Hm Hr x Hx. apply all_items_in in Hr as (s & Hs & Hmap & Hr). rewrite (fix_item_frame s r) by
    (done || (intros Hin; destruct (ld_others Hld s x Hs Hmap Hin) as [? ?]; tauto)). by apply Hm.
Qed.

Lemma run_items_fold l i st :
  agrees (rmem st) -> drop i all_items = l ->
  run_items is64 base (length l) (base + list_rva + 12 + 12 * Z.of_nat i) (rmem st) = rmem (fold_left fix_item l st).
Proof using Hld.
  revert i st. induction l as [|r l IH]; intros i st Hm Hl; [done|]. cbn [length run_items fold_left].
  assert (Hi : all_items !! i = Some r) by (rewrite <- (Nat.add_0_r i), <- lookup_drop, Hl; done).
  rewrite (run_item_fix i r st Hm Hi). replace (base + list_rva + 12 + 12 * Z.of_nat i + 12) with (base + list_rva + 12 + 12 * Z.of_nat (S i)) by lia.
  apply IH; [apply agrees_fix; [done|by eapply list_elem_of_lookup_2]|].
  rewrite <- (Nat.add_1_r i), <- drop_drop, Hl. done.
Qed.

Lemma run_table :
  run_pseudo_relocs is64 base list_rva (list_rva + pseudo_getSize all_items) M =
  Some (rmem (fold_left fix_item all_items {| rmem := M; errs := [] |})).
Proof using Hld.
  unfold run_pseudo_relocs. destruct (decide (all_items = [])) as [E|Hne].
  { rewrite E. cbn [pseudo_getSize fold_left rmem]. by rewrite (proj2 (Z.leb_le _ _)) by lia. }
  assert (Hsz : pseudo_getSize all_items = 12 + 12 * Z.of_nat (length all_items)) by (unfold pseudo_getSize; by destruct all_items).
  rewrite (proj2 (Z.leb_gt _ _)) by lia.
  assert (Hhead : forall j w, (0 :: 0 :: 1 :: flat_map item_words all_items) !! j = Some w -> (j < 3)%nat ->
    read32le M (base + list_rva + 4 * Z.of_nat j) = u32 w).
  { intros j w Hj Hlt. transitivity (read32le (pseudo_writeTo symRVA' chunkRVA all_items 0 (fun _ => 0)) (0 + 4 * Z.of_nat j)).
    - apply read_ext. intros k Hk. rewrite <- Z.add_assoc. rewrite (ld_table Hld) by lia. done.
    - rewrite pseudo_words by done. by apply read_put_words. }
  pose proof (Hhead 0%nat 0 eq_refl ltac:(lia)) as H0. rewrite Z.add_0_r in H0.
  pose proof (Hhead 1%nat 0 eq_refl ltac:(lia)) as H1. pose proof (Hhead 2%nat 1 eq_refl ltac:(lia)) as H2.
  change (4 * Z.of_nat 1) with 4 in H1. change (4 * Z.of_nat 2) with 8 in H2. rewrite H0, H1, H2. cbn [andb Z.eqb].
  assert (Hk : (list_rva + pseudo_getSize all_items - list_rva - 12) / 12 = Z.of_nat (length all_items))
    by (rewrite Hsz; symmetry; apply (Z.div_unique_exact _ 12); lia).
  rewrite Hk, Nat2Z.id.
  pose proof (run_items_fold all_items 0 {| rmem := M; errs := [] |} ltac:(by intros x _) (drop_0 _)) as Hr.
  change (12 * Z.of_nat 0) with 0 in Hr. rewrite Z.add_0_r in Hr. cbn [rmem] in Hr. by rewrite <- Hr.
Qed.

Lemma fold_frame l st x :
  Forall (fun r => exists s, s ∈ secs /\ mapped s /\ r ∈ items s /\ ~ in_section s x) l ->
  rmem (fold_left fix_item l st) x = rmem st x.
Proof using Hld.
  intros H. revert st. induction H as [|r l (s & Hs & Hm & Hr & Hx) _ IH]; intros st; [done|]. cbn [fold_left]. rewrite IH.
  by apply (fix_item_frame s).
Qed.

Lemma fold_local s l st st' :
  s ∈ secs -> mapped s -> Forall (fun r => r ∈ items s) l ->
  same_window (b_size (body (as_chunk s))) (rmem st) (base + chunkRVA (as_chunk s)) (rmem st') (base + chunkRVA (as_chunk s)) ->
  same_window (b_size (body (as_chunk s))) (rmem (fold_left fix_item l st)) (base + chunkRVA (as_chunk s))
    (rmem (fold_left fix_item l st')) (base + chunkRVA (as_chunk s)).
Proof using Hld.
  intros Hs Hm Hl. revert st st'. induction Hl as [|r l Hr _ IH]; intros st st' H; [done|]. cbn [fold_left].
  apply IH. by apply fix_item_local.
Qed.

(** The items of other sections stay outside a section. *)
Lemma others_outside l1 s l2 x :
  filter mapped secs = l1 ++ s :: l2 -> in_section s x ->
  Forall (fun r => exists t, t ∈ secs /\ mapped t /\ r ∈ items t /\ ~ in_section t x) (flat_map items l1) /\
  Forall (fun r => exists t, t ∈ secs /\ mapped t /\ r ∈ items t /\ ~ in_section t x) (flat_map items l2).
Proof using Hld.
  intros El Hx. assert (Hs : filter mapped secs !! length l1 = Some s) by (rewrite El; by apply list_lookup_middle).
  assert (Hall : forall i t r, filter mapped secs !! i = Some t -> i <> length l1 -> r ∈ items t ->
    exists t, t ∈ secs /\ mapped t /\ r ∈ items t /\ ~ in_section t x).
  { intros i t r Ht Hi Hr. apply list_elem_of_lookup_2 in Ht as Hin. apply list_elem_of_filter in Hin as [Hm Hin]. exists t. split_and!; try done.
    by apply (ld_apart Hld (length l1) i s t x). }
  split; apply Forall_forall; intros r (t & Ht & Hr)%list_elem_of_In%in_flat_map; apply list_elem_of_In in Ht, Hr;
    apply list_elem_of_lookup in Ht as [i Hi].
  - apply (Hall i t); [|apply lookup_lt_Some in Hi; lia|done]. rewrite El. by apply lookup_app_l_Some.
  - apply (Hall (length l1 + S i)%nat t); [|lia|done]. rewrite El. by rewrite lookup_app_r, Nat.add_comm, Nat.add_sub by lia.
Qed.

Lemma fixed_section s :
  s ∈ secs -> mapped s -> Forall (type_ok s) (as_relocs s) ->
  same_window (b_size (body (as_chunk s))) (rmem (fold_left fix_item all_items {| rmem := M; errs := [] |})) (base + chunkRVA (as_chunk s))
    (rmem (write_section resolved s st0)) (base + chunkRVA (as_chunk s)).
Proof using Hld.
  intros Hs Hm Hty. assert (Hf : s ∈ filter mapped secs) by by apply list_elem_of_filter.
  apply list_elem_of_split in Hf as (l1 & l2 & El). unfold all_items. rewrite El, flat_map_app. cbn [flat_map]. rewrite !fold_left_app.
  set (stM := {| rmem := M; errs := [] |}). set (st1 := fold_left fix_item (flat_map items l1) stM).
  intros k Hk. assert (Hin : in_section s (base + chunkRVA (as_chunk s) + k)) by (unfold in_section; lia).
  destruct (others_outside l1 s l2 _ El Hin) as [_ H2]. rewrite fold_frame by done.
  rewrite (section_resolved s st0 (ld_secs Hld s Hs Hm) Hty).
  apply (fold_local s (items s)); [done|done|by apply Forall_forall| |done].
  intros j Hj. unfold st1. destruct (others_outside l1 s l2 (base + chunkRVA (as_chunk s) + j) El) as [H1 _]; [unfold in_section; lia|].
  rewrite fold_frame by done. by apply (ld_written Hld).
Qed.
End Loaded.
End Image.

(** C26: in an image linked without errors, the run-time library's walk over the
    table makes every loaded section the bytes that a link with the addresses of
    the imported variables would have written, on every machine, and changes
    nothing else. *)
Theorem auto_import_transparent (pcfg : pseudo_cfg) (cfg : link_cfg) (symtab : nat) (secs : list auto_section) (body : nat -> section_body)
    (symRVA chunkRVA variable : nat -> Z) (st : pseudo_state) (list_rva : Z) (M : mem) (st0 : rstate)
    (Hon : pc_pseudoRelocs pcfg = true)
    (Hok : Forall (fun d => is_warning d = true) (ps_diags (createRuntimePseudoRelocs pcfg secs [symtab] st)))
    (Hld : loaded (pc_is64 pcfg) cfg symtab secs body symRVA chunkRVA variable list_rva M st0) :
  exists rels M', ps_rdata (createRuntimePseudoRelocs pcfg secs [symtab] st) = ps_rdata st ++ [PseudoRelocTableChunk rels; EndOfList] /\
    run_pseudo_relocs (pc_is64 pcfg) (base cfg) list_rva (list_rva + pseudo_getSize rels) M = Some M' /\
    (forall s, s ∈ secs -> mapped symtab s ->
      same_window (b_size (body (as_chunk s))) M' (base cfg + chunkRVA (as_chunk s))
        (rmem (write_section cfg chunkRVA (resolved cfg body chunkRVA variable) s st0)) (base cfg + chunkRVA (as_chunk s))) /\
    (forall x, (forall s, s ∈ secs -> mapped symtab s -> ~ in_section cfg body chunkRVA s x) -> M' x = M x).
Proof.
  set (rels := all_items symtab secs). exists rels. eexists. unfold createRuntimePseudoRelocs in *. cbn [fold_left] in *. unfold create_pseudo_table in *.
  rewrite Hon in *. cbn [negb] in *. rewrite (gathered (pc_is64 pcfg) symtab secs pcfg eq_refl) in *. cbn [ps_rdata ps_diags] in *. fold rels in Hok.
  split; [done|]. split; [by eapply run_table|]. split.
  - intros s Hs Hm. eapply fixed_section; [done..|]. eapply (no_error_types (pc_is64 pcfg) symtab secs pcfg); [done..|].
    rewrite (gathered (pc_is64 pcfg) symtab secs pcfg eq_refl). cbn [snd].
    case_match; rewrite ?Forall_app in Hok; tauto.
  - intros x Hx. erewrite fold_frame; [done|done|]. apply Forall_forall. intros r Hr. apply all_items_in in Hr as (s & Hs & Hm & Hr).
    exists s. split_and!; auto.
Qed.

(** ** A program that uses one variable *)

Lemma same_window_check n m off m' off' :
  forallb (fun k => m (off + Z.of_nat k) =? m' (off' + Z.of_nat k)) (seq 0 n) = true -> same_window (Z.of_nat n) m off m' off'.
Proof.
  intros H k Hk. rewrite forallb_forall in H. specialize (H (Z.to_nat k)). rewrite Z2Nat.id in H by lia.
  apply Z.eqb_eq, H, in_seq. lia.
Qed.

Definition auto_cfg : link_cfg := {| imageBase := 0x140000000; mingw := true; outputSections_size := 3 |}.
Definition auto_pcfg : pseudo_cfg := {| pc_is64 := true; pc_pseudoRelocs := true; pc_has_relocator := fun _ => true |}.

(** [mov (%rip), %rax] and a pointer, both to the variable. *)
Definition auto_text : auto_section :=
  {| as_chunk := 0; as_symtab := 0; as_arch := x86_64; as_live := true; as_discardable := false;
     as_relocs := [{| VirtualAddress := 3; SymbolTableIndex := 0; Type_ := IMAGE_REL_AMD64_REL32 |};
                   {| VirtualAddress := 8; SymbolTableIndex := 0; Type_ := IMAGE_REL_AMD64_ADDR64 |}];
     as_symbol := fun _ => Some {| au_id := 0; au_pseudo := true; au_chunk := true;
       au_defined := {| SectionChunk.symRVA := 0x2000; symOutputSection := Some {| osRVA := 0x2000; sectionIndex := 2; osCharacteristics := 0x40000040 |};
                        isAbsolute := false; isSynthetic := false |} |} |}.

(** Debug information is not fixed. *)
Definition auto_debug : auto_section :=
  {| as_chunk := 1; as_symtab := 0; as_arch := x86_64; as_live := true; as_discardable := true;
     as_relocs := as_relocs auto_text; as_symbol := as_symbol auto_text |}.

Definition auto_body (c : nat) : section_body :=
  {| b_hasData := true; b_contents := [0x48; 0x8b; 5; 0; 0; 0; 0; 0x90; 0; 0; 0; 0; 0; 0; 0; 0]; b_size := 16; b_isCodeView := false; b_isDWARF := false |}.

Definition auto_rva (c : nat) : Z := 0x1000 + 0x4000 * Z.of_nat c.
Definition auto_symRVA (s : nat) : Z := 0x2000.
Definition auto_variable (s : nat) : Z := 0x150001230.

Definition auto_init : rstate := {| rmem := fun _ => 0; errs := [] |}.

Definition auto_memory : mem :=
  write64le
    (pseudo_writeTo auto_symRVA auto_rva (all_items 0 [auto_text; auto_debug]) 0x140003000
       (rmem (write_section auto_cfg auto_rva (linked auto_body auto_rva) auto_text auto_init)))
    0x140002000 (auto_variable 0).

Definition auto_start : pseudo_state := {| ps_rdata := []; ps_list := fun _ => None; ps_list_end := fun _ => None; ps_diags := [] |}.

Lemma auto_loaded : loaded true auto_cfg 0 [auto_text; auto_debug] auto_body auto_symRVA auto_rva auto_variable 0x3000 auto_memory auto_init.
Proof.
  assert (Hone : forall s, s ∈ [auto_text; auto_debug] -> mapped 0 s -> s = auto_text).
  { intros s Hs (_ & _ & Hd). apply list_elem_of_In in Hs as [<-|[<-|[]]]; done. }
  assert (Hitems : forall r, r ∈ all_items 0 [auto_text; auto_debug] -> rpr_sym r = 0%nat).
  { intros r Hr. apply list_elem_of_In in Hr as [<-|[<-|[]]]; done. }
  split.
  - intros s Hs Hm. rewrite (Hone s Hs Hm). split; [| |done].
    + apply Forall_forall. intros rel [<-|[<-|[]]]%list_elem_of_In; (split; [vm_compute; intuition congruence..|]);
        intros t [= <-] _; (split_and!; [done| |done]); by left.
    + apply SSorted_cons; [apply SSorted_cons; constructor|]. apply Forall_singleton. left. vm_compute. congruence.
  - intros i j s t x Hi Hj Hne. change (filter _ _) with [auto_text] in Hi, Hj. apply lookup_lt_Some in Hi, Hj. cbn in *. lia.
  - intros s x Hs Hm. rewrite (Hone s Hs Hm). unfold in_section, in_table, in_slot, auto_symRVA.
    assert (Hsz : pseudo_getSize (all_items 0 [auto_text; auto_debug]) = 36) by by vm_compute. rewrite Hsz.
    change (base auto_cfg) with 0x140000000. change (auto_rva _) with 0x1000. change (b_size _) with 16. change (Z.of_nat _) with 8.
    intros Hx. split; [lia|]. intros (r & Hr & Hrx). lia.
  - intros s Hs Hm. rewrite (Hone s Hs Hm). apply (same_window_check 16). by vm_compute.
  - apply (same_window_check 36). by vm_compute.
  - intros r Hr. rewrite (Hitems r Hr). split; [done|]. by vm_compute.
Qed.

(** The pointer holds the variable's address, and the instruction its distance. *)
Lemma auto_import_transparent_witness :
  loaded true auto_cfg 0 [auto_text; auto_debug] auto_body auto_symRVA auto_rva auto_variable 0x3000 auto_memory auto_init /\
  exists M', run_pseudo_relocs true 0x140000000 0x3000 (0x3000 + 36) auto_memory = Some M' /\
    read64le M' 0x140001008 = 0x150001230 /\ read32le M' 0x140001003 + 0x140001007 = 0x150001230.
Proof.
  split; [exact auto_loaded|].
  destruct (auto_import_transparent auto_pcfg auto_cfg 0 [auto_text; auto_debug] auto_body auto_symRVA auto_rva auto_variable auto_start 0x3000
    auto_memory auto_init eq_refl ltac:(repeat constructor) auto_loaded) as (rels & M' & Hr & Hrun & Hs & _).
  injection Hr as <-. exists M'. split; [exact Hrun|].
  assert (Hw : forall k, 0 <= k < 16 -> M' (0x140001000 + k) =
    rmem (write_section auto_cfg auto_rva (resolved auto_cfg auto_body auto_rva auto_variable) auto_text auto_init) (0x140001000 + k)).
  { intros k Hk. apply (Hs auto_text); [left|done|done]. }
  split.
  - transitivity (read64le (rmem (write_section auto_cfg auto_rva (resolved auto_cfg auto_body auto_rva auto_variable) auto_text auto_init)) 0x140001008);
      [|by vm_compute].
    apply read_ext. intros k Hk. replace (0x140001008 + k) with (0x140001000 + (8 + k)) by lia. apply Hw. lia.
  - transitivity (read32le (rmem (write_section auto_cfg auto_rva (resolved auto_cfg auto_body auto_rva auto_variable) auto_text auto_init)) 0x140001003 + 0x140001007);
      [|by vm_compute].
    f_equal. apply read_ext. intros k Hk. replace (0x140001003 + k) with (0x140001000 + (3 + k)) by lia. apply Hw. lia.
Defined.
