(* ===== verification/Arm64X.v ===== *)
(** * ARM64X dynamic relocations (lld/COFF/Chunks.cpp, Writer.cpp and llvm/Object)

    An ARM64X image is one file with two views: ARM64 as it is, and ARM64EC after
    the system applied a list of patches. The writer's part is the list
    ([createDynamicRelocs] and the entries of the import tables), its values
    ([set_ec_values]) and its encoding ([DynamicRelocsChunk]); the reader's part is
    COFFObjectFile, which validates the list ([initDynamicRelocPtr]) and applies it
    ([getHybridObjectView]). *)

From S2P Require Import Prelude Memory Reloc Thunks Imports Image.

#[local] Open Scope list_scope.
#[local] Open Scope Z_scope.

(** ** Entries *)

(** A value, relative to a symbol or a chunk if there is one; the constructors
    with a symbol or a chunk sign-extend the offset to 64 bits. *)
Record Arm64XRelocVal := { rv_sym : option nat; rv_chunk : option nat; rv_value : Z }.

Definition rv_const (v : Z) : Arm64XRelocVal := {| rv_sym := None; rv_chunk := None; rv_value := u64 v |}.
Definition rv_of_sym (s : option nat) (offset : Z) : Arm64XRelocVal :=
  {| rv_sym := s; rv_chunk := None; rv_value := u64 (s32 offset) |}.
Definition rv_of_chunk (c : option nat) (offset : Z) : Arm64XRelocVal :=
  {| rv_sym := None; rv_chunk := c; rv_value := u64 (s32 offset) |}.

Inductive Arm64XFixupType := ZEROFILL | VALUE | DELTA.
#[export] Instance fixup_eq_dec : EqDecision Arm64XFixupType.
Proof. solve_decision. Defined.

Definition fixup_code (t : Arm64XFixupType) : Z := match t with ZEROFILL => 0 | VALUE => 1 | DELTA => 2 end.

Record Arm64XDynamicRelocEntry := {
  ae_type : Arm64XFixupType;
  ae_size : Z;
  ae_offset : Arm64XRelocVal;
  ae_value : Arm64XRelocVal
}.

Record DynamicRelocsChunk := { arm64xRelocs : list Arm64XDynamicRelocEntry; dr_chunkSize : Z }.

Definition set_entries (l : list Arm64XDynamicRelocEntry) (d : DynamicRelocsChunk) : DynamicRelocsChunk :=
  {| arm64xRelocs := l; dr_chunkSize := dr_chunkSize d |}.

Definition dr_add (e : Arm64XDynamicRelocEntry) (d : DynamicRelocsChunk) : DynamicRelocsChunk :=
  set_entries (arm64xRelocs d ++ [e]) d.

Definition fixup (t : Arm64XFixupType) (size : Z) (offset value : Arm64XRelocVal) : Arm64XDynamicRelocEntry :=
  {| ae_type := t; ae_size := size; ae_offset := offset; ae_value := value |}.

(** The entries that the import tables add. *)
Definition of_dynreloc (r : dynreloc) : Arm64XDynamicRelocEntry :=
  fixup (if dr_type r =? FIXUP_ZEROFILL then ZEROFILL else if dr_type r =? FIXUP_VALUE then VALUE else DELTA)
    (dr_size r) (rv_of_chunk (Some (dr_chunk r)) (dr_offset r))
    match dr_value r with
    | RelocChunk c => rv_of_chunk (Some c) 0
    | RelocConst v => rv_const v
    | RelocNone => rv_const 0
    end.

Definition bit_width (v : Z) : Z := if v =? 0 then 0 else Z.log2 v + 1.

(** [*p |= v] on a 16-bit field. *)
Definition or16 (p v : Z) (m : mem) : mem := write16le m p (read16le m p ||| v).

Definition sizeof_base_reloc_block_header : Z := 8.
Definition sizeof_coff_dynamic_reloc_table : Z := 8.
Definition sizeof_coff_dynamic_relocation64 : Z := 12.
Definition IMAGE_DYNAMIC_RELOCATION_ARM64X : Z := 6.

Section Writer.
  Context (symRVA chunkRVA : nat -> Z).

Definition rv_get (v : Arm64XRelocVal) : Z :=
  u64 (match rv_sym v with Some s => symRVA s | None => 0 end +
       match rv_chunk v with Some c => chunkRVA c | None => 0 end + rv_value v).

Definition ae_getSize (e : Arm64XDynamicRelocEntry) : Z :=
  match ae_type e with
  | ZEROFILL => 2
  | VALUE => 2 + ae_size e
  | DELTA => 4
  end.

(** None: a size that no case handles. *)
Definition ae_writeTo (e : Arm64XDynamicRelocEntry) (buf : Z) (m : mem) : option mem :=
  let m := write16le m buf ((rv_get (ae_offset e) &&& 0xfff) ||| (fixup_code (ae_type e) <<< 12)) in
  let value := rv_get (ae_value e) in
  match ae_type e with
  | ZEROFILL => Some (or16 buf ((bit_width (ae_size e) - 1) <<< 14) m)
  | VALUE =>
      let m := or16 buf ((bit_width (ae_size e) - 1) <<< 14) m in
      if ae_size e =? 2 then Some (write16le m (buf + 2) value)
      else if ae_size e =? 4 then Some (write32le m (buf + 2) value)
      else if ae_size e =? 8 then Some (write64le m (buf + 2) value)
      else None
  | DELTA =>
      let delta := s32 value in
      let '(delta, m) := if delta <? 0 then (s32 (- delta), or16 buf (1 <<< 14) m) else (delta, m) in
      let '(delta, m) :=
        if (delta &&& 7) =? 0 then (delta >>> 3, or16 buf (1 <<< 15) m) else (delta >>> 2, m) in
      Some (write16le m (buf + 2) delta)
  end.

Definition ae_page (e : Arm64XDynamicRelocEntry) : Z := u32 (rv_get (ae_offset e) &&& Z.lnot 0xfff).

Definition finalize_step (st : Z * Z) (e : Arm64XDynamicRelocEntry) : Z * Z :=
  let '(size, prevPage) := st in
  let page := ae_page e in
  let '(size, prevPage) :=
    if page =? prevPage then (size, prevPage)
    else (alignTo size 4 + sizeof_base_reloc_block_header, page) in
  (size + ae_getSize e, prevPage).

Definition dr_finalize (d : DynamicRelocsChunk) : DynamicRelocsChunk :=
  let l := stable_sort (fun a b => rv_get (ae_offset a) <? rv_get (ae_offset b)) (arm64xRelocs d) in
  let '(size, _) :=
    fold_left finalize_step l (sizeof_coff_dynamic_reloc_table + sizeof_coff_dynamic_relocation64, 0xfff) in
  {| arm64xRelocs := l; dr_chunkSize := alignTo size 4 |}.

(** The first entry at [offset] gets the value. None: there is none. *)
Fixpoint set_first (rva : Z) (value : Arm64XRelocVal) (l : list Arm64XDynamicRelocEntry) : option (list Arm64XDynamicRelocEntry) :=
  match l with
  | [] => None
  | e :: l =>
      if rv_get (ae_offset e) =? rva then Some (fixup (ae_type e) (ae_size e) (ae_offset e) value :: l)
      else l ← set_first rva value l; Some (e :: l)
  end.

Definition dr_set (offset value : Arm64XRelocVal) (d : DynamicRelocsChunk) : option DynamicRelocsChunk :=
  l ← set_first (u32 (rv_get offset)) value (arm64xRelocs d);
  Some (set_entries l d).

(** The loop of [writeTo]: the memory, the header of the page and the size so far. *)
Definition dr_write_step (buf : Z) (st : mem * option Z * Z) (e : Arm64XDynamicRelocEntry) : option (mem * option Z * Z) :=
  let '(m, pageHeader, relocSize) := st in
  let page := ae_page e in
  let new_page := match pageHeader with Some h => negb (page =? read32le m h) | None => true end in
  let '(m, pageHeader, relocSize) :=
    if new_page then
      let relocSize := alignTo relocSize 4 in
      let m := match pageHeader with
               | Some h => write32le m (h + 4) (buf + relocSize - h)
               | None => m
               end in
      let h := buf + relocSize in
      (write32le m h page, Some h, relocSize + sizeof_base_reloc_block_header)
    else (m, pageHeader, relocSize) in
  m ← ae_writeTo e (buf + relocSize) m;
  Some (m, pageHeader, relocSize + ae_getSize e).

Fixpoint dr_write_entries (buf : Z) (st : mem * option Z * Z) (l : list Arm64XDynamicRelocEntry) : option (mem * option Z * Z) :=
  match l with
  | [] => Some st
  | e :: l => st ← dr_write_step buf st e; dr_write_entries buf st l
  end.

(** None: an entry of a size that cannot be written, or no entry at all, when the
    null header of the page is written through. *)
Definition dr_writeTo (d : DynamicRelocsChunk) (table : Z) (m : mem) : option mem :=
  let m := write32le m table 1 in
  let m := write32le m (table + 4) sizeof_coff_dynamic_relocation64 in
  let header := table + sizeof_coff_dynamic_reloc_table in
  let m := write64le m header IMAGE_DYNAMIC_RELOCATION_ARM64X in
  let buf := header + sizeof_coff_dynamic_relocation64 in
  '(m, pageHeader, relocSize) ← dr_write_entries buf (m, None, 0) (arm64xRelocs d);
  let relocSize := alignTo relocSize 4 in
  h ← pageHeader;
  let m := write32le m (h + 4) (buf + relocSize - h) in
  let m := write32le m (header + 8) relocSize in
  Some (write32le m (table + 4) (read32le m (table + 4) + relocSize)).

(** ** What the writer patches *)

Definition AMD64 : Z := 0x8664.
Definition DIR_EXPORT : Z := 0.
Definition DIR_EXCEPTION : Z := 3.
Definition DIR_TLS : Z := 9.
Definition DIR_LOAD_CONFIG : Z := 10.
Definition sizeof_coff_tls_directory64 : Z := 40.

(** The two symbol tables as the patches use them: [ctx.symtab] is the EC view.
    [x_chpe] is the result of looking up __chpe_metadata. *)
Record hybrid_symtabs := {
  x_entry : option nat;
  x_hybrid_entry : option nat;
  x_edata : option (nat * nat);
  x_hybrid_edata : option (nat * nat);
  x_pdata : option (nat * nat);
  x_hybrid_pdata : option (nat * nat);
  x_chpe : option nat;
  x_loadConfigSym : option nat;
  x_loadConfigSize : Z;
  x_native_tls : option nat;
  x_ec_tls : option nat;
  x_sameAddressThunks : list (nat * nat)     (* the thunk and its hybrid target *)
}.

Inductive dynreloc_warning := MissingChpeMetadata.

Section Create.
  Context (coffHeaderOff peHeaderOff dataDirOff : Z) (X : hybrid_symtabs).

Definition dir_rva (i : Z) : Arm64XRelocVal := rv_const (dataDirOff + i * 8).
Definition dir_size (i : Z) : Arm64XRelocVal := rv_const (dataDirOff + i * 8 + 4).
Definition value32 (offset value : Arm64XRelocVal) : Arm64XDynamicRelocEntry := fixup VALUE 4 offset value.
Definition no_value : Arm64XRelocVal := rv_const 0.

(** Offsets in [chpe_metadata]. *)
Definition AlternateEntryPoint : Z := 40.
Definition ExtraRFETable : Z := 64.
Definition ExtraRFETableSize : Z := 68.

Definition entries_differ : bool := negb (bool_decide (x_entry X = x_hybrid_entry X)).
Definition edata_differ : bool := negb (bool_decide (fst <$> x_edata X = fst <$> x_hybrid_edata X)).
Definition pdata_differ : bool := negb (bool_decide (fst <$> x_pdata X = fst <$> x_hybrid_pdata X)).

(** [chpeSym], once looked up. *)
Definition chpeSym : option nat := if entries_differ || pdata_differ then x_chpe X else None.

Definition entry_patches : list Arm64XDynamicRelocEntry :=
  if entries_differ then
    value32 (rv_const (peHeaderOff + 16)) (rv_of_sym (x_entry X) 0) ::
    match chpeSym with
    | Some s => [value32 (rv_of_sym (Some s) AlternateEntryPoint) (rv_of_sym (x_hybrid_entry X) 0)]
    | None => []
    end
  else [].

Definition edata_patches : list Arm64XDynamicRelocEntry :=
  if edata_differ then
    [value32 (dir_rva DIR_EXPORT) (rv_of_chunk (fst <$> x_edata X) 0); value32 (dir_size DIR_EXPORT) no_value]
  else [].

Definition pdata_patches : list Arm64XDynamicRelocEntry :=
  if pdata_differ then
    [value32 (dir_rva DIR_EXCEPTION) (rv_of_chunk (fst <$> x_hybrid_pdata X) 0);
     value32 (dir_size DIR_EXCEPTION) no_value] ++
    match chpeSym with
    | Some s =>
        [value32 (rv_of_sym (Some s) ExtraRFETable) (rv_of_chunk (fst <$> x_pdata X) 0);
         value32 (rv_of_sym (Some s) ExtraRFETableSize) no_value]
    | None => []
    end
  else [].

Definition load_config_patches : list Arm64XDynamicRelocEntry :=
  [value32 (dir_rva DIR_LOAD_CONFIG) (rv_of_sym (x_loadConfigSym X) 0);
   value32 (dir_size DIR_LOAD_CONFIG) (rv_const (x_loadConfigSize X))].

Definition tls_patches : list Arm64XDynamicRelocEntry :=
  match x_native_tls X, x_ec_tls X with
  | None, None => []
  | native, ec =>
      value32 (dir_rva DIR_TLS) (rv_of_sym ec 0) ::
      match native, ec with
      | Some _, Some _ => []
      | _, _ => [value32 (dir_size DIR_TLS) (rv_const (if ec is Some _ then sizeof_coff_tls_directory64 else 0))]
      end
  end.

(** [Writer::createDynamicRelocs]. *)
Definition createDynamicRelocs (d : DynamicRelocsChunk) : DynamicRelocsChunk * list dynreloc_warning :=
  (set_entries (arm64xRelocs d ++
     fixup VALUE 2 (rv_const coffHeaderOff) (rv_const AMD64) ::
     entry_patches ++ edata_patches ++ pdata_patches ++ load_config_patches ++ tls_patches) d,
   match entries_differ || pdata_differ, x_chpe X with
   | true, None => [MissingChpeMetadata]
   | _, _ => []
   end).

(** The end of [Writer::createECChunks]. *)
Definition add_thunk_patches (d : DynamicRelocsChunk) : DynamicRelocsChunk :=
  fold_left (fun d t =>
    dr_add (value32 (rv_of_chunk (Some t.1) 4) no_value) (dr_add (value32 (rv_of_chunk (Some t.1) 0) no_value) d))
    (x_sameAddressThunks X) d.

(** [SameAddressThunkARM64EC::setDynamicRelocs]: the ADRP and ADD of a thunk to
    the hybrid target at the same address. *)
Definition setDynamicRelocs (t : nat * nat) (d : DynamicRelocsChunk) : option DynamicRelocsChunk :=
  let m := rmem (RangeExtensionThunkARM64_writeTo (symRVA t.2) (chunkRVA t.1) 0 {| rmem := fun _ => 0; errs := [] |}) in
  d ← dr_set (rv_of_chunk (Some t.1) 0) (rv_const (read32le m 0)) d;
  dr_set (rv_of_chunk (Some t.1) 4) (rv_const (read32le m 4)) d.

(** [end->getRVA() - start->getRVA() + end->getSize()]. *)
Context (chunkSize : nat -> Z).
Definition range_size (r : nat * nat) : Z := u64 (chunkRVA r.2 - chunkRVA r.1 + chunkSize r.2).

Definition set_if (r : option (nat * nat)) (offset : Arm64XRelocVal) (d : DynamicRelocsChunk) : option DynamicRelocsChunk :=
  match r with
  | Some r => dr_set offset (rv_const (range_size r)) d
  | None => Some d
  end.

Fixpoint set_thunks (l : list (nat * nat)) (d : DynamicRelocsChunk) : option DynamicRelocsChunk :=
  match l with
  | [] => Some d
  | t :: l => d ← setDynamicRelocs t d; set_thunks l d
  end.

(** The values [Writer::setECSymbols] gives once addresses are final. *)
Definition set_ec_values (d : DynamicRelocsChunk) : option DynamicRelocsChunk :=
  d ← set_if (x_edata X) (dir_size DIR_EXPORT) d;
  d ← set_if (x_hybrid_pdata X) (dir_size DIR_EXCEPTION) d;
  d ← match chpeSym with
      | Some s => set_if (x_pdata X) (rv_const (symRVA s + ExtraRFETableSize)) d
      | None => Some d
      end;
  set_thunks (x_sameAddressThunks X) d.
End Create.
End Writer.
