(* ===== verification/Arm64XHeaders.v ===== *)
(** * The headers of the EC view

    [createDynamicRelocs] and [set_ec_values] together make the headers of the
    hybrid view those of the EC symbol table, whatever the two symbol tables share
    ([ec_headers_patched]). *)

From S2P Require Import Prelude Memory Reloc Thunks Image Arm64X.

#[local] Open Scope list_scope.
#[local] Open Scope Z_scope.

(** Comparisons that linear arithmetic decides. *)
Ltac eqb_lia :=
  repeat match goal with
  | |- context [?a =? ?b] => first [rewrite (proj2 (Z.eqb_eq a b)) by lia | rewrite (proj2 (Z.eqb_neq a b)) by lia]
  end.

Section Patches.
  Context (symRVA chunkRVA : nat -> Z).

Abbreviation rv_get := (rv_get symRVA chunkRVA).
Abbreviation entry := Arm64XDynamicRelocEntry.

(** The value the first entry at an RVA has. *)
Fixpoint value_at (l : list entry) (rva : Z) : option Z :=
  match l with
  | [] => None
  | e :: l => if rv_get (ae_offset e) =? rva then Some (rv_get (ae_value e)) else value_at l rva
  end.

(** A field of the view: its native value, unless it is patched. *)
Definition view_field (d : DynamicRelocsChunk) (rva native : Z) : Z := default native (value_at (arm64xRelocs d) rva).

Lemma value_at_app l l' rva : value_at (l ++ l') rva = match value_at l rva with Some v => Some v | None => value_at l' rva end.
Proof. induction l as [|e l IH]; [done|]. cbn. by destruct (_ =? _). Qed.

Lemma value_at_none l rva : Forall (fun e => rv_get (ae_offset e) <> rva) l -> value_at l rva = None.
Proof. induction 1 as [|e l He _ IH]; [done|]. cbn. by rewrite (proj2 (Z.eqb_neq _ _)). Qed.

(** [set] finds the entry and changes the value at its RVA only. *)
Lemma set_first_value rva v l : is_Some (value_at l rva) ->
  exists l', set_first symRVA chunkRVA rva v l = Some l' /\
    (forall r, value_at l' r = if r =? rva then Some (rv_get v) else value_at l r) /\
    map (fun e => rv_get (ae_offset e)) l' = map (fun e => rv_get (ae_offset e)) l.
Proof.
  induction l as [|e l IH]; intros [x Hx]; [done|]. cbn [value_at set_first] in *. destruct (Z.eqb_spec (rv_get (ae_offset e)) rva) as [E|E].
  - eexists. split; [done|]. split; [|done]. intros r. cbn [value_at fixup ae_offset ae_value]. rewrite E, (Z.eqb_sym rva). by destruct (_ =? _).
  - destruct IH as (l' & -> & Hv & Hm); [by exists x|]. cbn. eexists. split; [done|]. split; [|by rewrite <- Hm].
    intros r. cbn [value_at]. rewrite Hv. destruct (Z.eqb_spec (rv_get (ae_offset e)) r) as [<-|]; [|done].
    by rewrite (proj2 (Z.eqb_neq _ _)).
Qed.

Lemma dr_set_value offset v d : rv_get offset < 2 ^ 32 -> is_Some (value_at (arm64xRelocs d) (rv_get offset)) ->
  exists d', dr_set symRVA chunkRVA offset v d = Some d' /\
    forall r, value_at (arm64xRelocs d') r = if r =? rv_get offset then Some (rv_get v) else value_at (arm64xRelocs d) r.
Proof.
  intros Hlt Hs. assert (E : u32 (rv_get offset) = rv_get offset).
  { apply wrap_small. split; [|done]. unfold Arm64X.rv_get. by apply Z.mod_pos_bound. }
  destruct (set_first_value _ v _ Hs) as (l' & Hl & Hv & _). unfold dr_set. rewrite E, Hl. cbn. by eexists.
Qed.

Lemma some_override {A} (o : option A) (b : bool) (f : A -> Z) v :
  is_Some v -> is_Some (match o with Some q => if b then Some (f q) else v | None => v end).
Proof. intros H. destruct o, b; done. Qed.

Lemma rv_get_const v : word_ok 64 v -> rv_get (rv_const v) = v.
Proof. intros H. unfold Arm64X.rv_get, rv_const. cbn [rv_sym rv_chunk rv_value]. rewrite (wrap_small 64 v) by done. exact (wrap_small 64 v H). Qed.
End Patches.

(** ** The two views' headers *)

Record view_headers := {
  vh_machine : Z;
  vh_entry : Z;
  vh_export : Z * Z;
  vh_exception : Z * Z;
  vh_load_config : Z * Z;
  vh_tls : Z * Z
}.

Section Headers.
  Context (symRVA chunkRVA chunkSize : nat -> Z) (X : hybrid_symtabs).

Definition sym_rva (s : option nat) : Z := match s with Some s => symRVA s | None => 0 end.

Definition range_directory (r : option (nat * nat)) : Z * Z :=
  match r with Some r => (chunkRVA r.1, range_size chunkRVA chunkSize r) | None => (0, 0) end.

Definition tls_directory (s : option nat) : Z * Z :=
  match s with Some s => (symRVA s, sizeof_coff_tls_directory64) | None => (0, 0) end.

(** What the headers of an image of one of the symbol tables alone hold; of the
    native load configuration the model knows the directory. *)
Definition ec_headers : view_headers :=
  {| vh_machine := AMD64; vh_entry := sym_rva (x_entry X); vh_export := range_directory (x_edata X);
     vh_exception := range_directory (x_hybrid_pdata X); vh_load_config := (sym_rva (x_loadConfigSym X), x_loadConfigSize X);
     vh_tls := tls_directory (x_ec_tls X) |}.

Definition native_headers (loadConfig : Z * Z) : view_headers :=
  {| vh_machine := 0xaa64; vh_entry := sym_rva (x_hybrid_entry X); vh_export := range_directory (x_hybrid_edata X);
     vh_exception := range_directory (x_pdata X); vh_load_config := loadConfig; vh_tls := tls_directory (x_native_tls X) |}.

(** The headers with the patches at their fields, the COFF header being at [coff]. *)
Definition headers_view (coff : Z) (d : DynamicRelocsChunk) (h : view_headers) : view_headers :=
  let f := view_field symRVA chunkRVA d in
  let dir i v := (f (coff + 132 + i * 8) v.1, f (coff + 132 + i * 8 + 4) v.2) in
  {| vh_machine := f coff (vh_machine h); vh_entry := f (coff + 36) (vh_entry h); vh_export := dir 0 (vh_export h);
     vh_exception := dir 3 (vh_exception h); vh_load_config := dir 10 (vh_load_config h); vh_tls := dir 9 (vh_tls h) |}.

(** ** The patches at the headers *)

Record hybrid_ok (coff : Z) (d0 : DynamicRelocsChunk) : Prop := {
  hy_coff : 0 <= coff /\ coff + 132 + 128 <= 4096;
  hy_syms : forall s, word_ok 31 (symRVA s);
  hy_chunks : forall c, word_ok 31 (chunkRVA c);
  hy_sections : Forall (fun e => 4096 <= rv_get symRVA chunkRVA (ae_offset e)) (arm64xRelocs d0);
  hy_thunks : Forall (fun t => 4096 <= chunkRVA t.1) (x_sameAddressThunks X);
  hy_chpe : forall s, x_chpe X = Some s -> 4096 <= symRVA s;
  hy_edata : forall r r', x_edata X = Some r -> x_hybrid_edata X = Some r' -> r.1 <> r'.1;
  hy_pdata : forall r r', x_pdata X = Some r -> x_hybrid_pdata X = Some r' -> r.1 <> r'.1;
  hy_load : word_ok 64 (x_loadConfigSize X)
}.

Section Values.
  Context (coff : Z) (d0 : DynamicRelocsChunk) (Hok : hybrid_ok coff d0).

Abbreviation vat := (value_at symRVA chunkRVA).
Abbreviation get := (rv_get symRVA chunkRVA).

Lemma get_sym s k : 0 <= k < 2 ^ 31 -> get (rv_of_sym s k) = sym_rva s + k.
Proof using Hok.
  intros Hk. unfold rv_get, rv_of_sym, sym_rva. cbn [rv_sym rv_chunk rv_value]. rewrite (sext_unique 32 k k) by (done || lia).
  rewrite (wrap_small 64 k) by (split; lia).
  assert (0 <= match s with Some s0 => symRVA s0 | None => 0 end < 2 ^ 31) by (destruct s as [s|]; [apply (hy_syms _ _ Hok)|lia]).
  rewrite wrap_small; [lia|split; lia].
Qed.

Definition chunk_rva (c : option nat) : Z := match c with Some c => chunkRVA c | None => 0 end.

Lemma get_chunk c k : 0 <= k < 2 ^ 31 -> get (rv_of_chunk c k) = chunk_rva c + k.
Proof using Hok.
  intros Hk. unfold rv_get, rv_of_chunk, chunk_rva. cbn [rv_sym rv_chunk rv_value]. rewrite (sext_unique 32 k k) by (done || lia).
  rewrite (wrap_small 64 k) by (split; lia).
  assert (0 <= match c with Some c0 => chunkRVA c0 | None => 0 end < 2 ^ 31) by (destruct c as [c|]; [apply (hy_chunks _ _ Hok)|lia]).
  rewrite wrap_small; [lia|split; lia].
Qed.

Let created := (createDynamicRelocs coff (coff + 20) (coff + 132) X (add_thunk_patches X d0)).1.

(** Entries of the thunks, past the headers. *)
Lemma thunk_patches_app : exists l, arm64xRelocs (add_thunk_patches X d0) = arm64xRelocs d0 ++ l /\
  Forall (fun e => 4096 <= get (ae_offset e)) l /\
  forall t, t ∈ x_sameAddressThunks X -> forall k, k = 0 \/ k = 4 -> is_Some (vat l (chunkRVA t.1 + k)).
Proof using Hok.
  unfold add_thunk_patches. pose proof (hy_thunks _ _ Hok) as Ht. revert Ht. generalize d0. induction (x_sameAddressThunks X) as [|t ts IH]; intros d Ht.
  { exists []. rewrite app_nil_r. split_and!; [done|done|by intros ? ?%elem_of_nil]. }
  apply Forall_cons in Ht as [Ht Hts]. cbn [fold_left]. destruct (IH (dr_add (value32 (rv_of_chunk (Some t.1) 4) no_value) (dr_add (value32 (rv_of_chunk (Some t.1) 0) no_value) d)) Hts) as (l & -> & Hl & Hin).
  exists (value32 (rv_of_chunk (Some t.1) 0) no_value :: value32 (rv_of_chunk (Some t.1) 4) no_value :: l).
  split; [cbn; by rewrite <- !app_assoc|]. split.
  - constructor; [|constructor; [|done]]; cbn [value32 fixup ae_offset]; rewrite get_chunk by lia; cbn [chunk_rva]; lia.
  - intros t' [->|Ht']%elem_of_cons k Hk; cbn [value_at value32 fixup ae_offset]; rewrite !get_chunk by lia; cbn [chunk_rva].
    + destruct (_ =? _) eqn:E1; [by eexists|]. destruct (chunkRVA t.1 + 4 =? _) eqn:E2; [by eexists|]. apply Z.eqb_neq in E1, E2. lia.
    + destruct (_ =? _); [by eexists|]. destruct (_ =? _); [by eexists|]. by apply Hin.
Qed.

Definition header_patches : list Arm64XDynamicRelocEntry :=
  fixup VALUE 2 (rv_const coff) (rv_const AMD64) ::
  entry_patches (coff + 20) X ++ edata_patches (coff + 132) X ++ pdata_patches (coff + 132) X ++
  load_config_patches (coff + 132) X ++ tls_patches (coff + 132) X.

Lemma created_value r : r < 4096 -> vat (arm64xRelocs created) r = vat header_patches r.
Proof using Hok.
  intros Hr. destruct thunk_patches_app as (l & E & Hl & _). subst created. unfold createDynamicRelocs. cbn [fst set_entries arm64xRelocs].
  fold header_patches. rewrite E, (value_at_app _ _ (_ ++ _)), (value_at_app _ _ (arm64xRelocs d0)). rewrite (value_at_none _ _ (arm64xRelocs d0)), (value_at_none _ _ l); [done| |].
  - eapply Forall_impl; [exact Hl|]. cbn. lia.
  - eapply Forall_impl; [exact (hy_sections _ _ Hok)|]. cbn. lia.
Qed.

Lemma created_thunks t k : t ∈ x_sameAddressThunks X -> k = 0 \/ k = 4 -> is_Some (vat (arm64xRelocs created) (chunkRVA t.1 + k)).
Proof using Hok.
  intros Ht Hk. destruct thunk_patches_app as (l & E & _ & Hl). subst created. unfold createDynamicRelocs. cbn [fst set_entries arm64xRelocs].
  fold header_patches. rewrite E, (value_at_app _ _ (_ ++ _)), (value_at_app _ _ (arm64xRelocs d0)). destruct (vat (arm64xRelocs d0) _); [by eexists|]. destruct (Hl t Ht k Hk) as [v ->]. by eexists.
Qed.

Lemma get_const v : 0 <= v < 2 ^ 64 -> get (rv_const v) = v.
Proof using Type. apply rv_get_const. Qed.

Lemma get_dir i : 0 <= i < 16 -> get (dir_rva (coff + 132) i) = coff + 132 + i * 8 /\ get (dir_size (coff + 132) i) = coff + 132 + i * 8 + 4.
Proof using Hok. intros Hi. pose proof (hy_coff _ _ Hok). unfold dir_rva, dir_size. rewrite !get_const by lia. done. Qed.

(** Entries of the header patches, as RVA and value. *)
Definition assoc (l : list Arm64XDynamicRelocEntry) : list (Z * Z) := map (fun e => (get (ae_offset e), get (ae_value e))) l.

Fixpoint lookup_rva (l : list (Z * Z)) (r : Z) : option Z :=
  match l with
  | [] => None
  | (a, v) :: l => if a =? r then Some v else lookup_rva l r
  end.

Lemma value_at_assoc l r : vat l r = lookup_rva (assoc l) r.
Proof using Type. induction l as [|e l IH]; [done|]. cbn. by rewrite IH. Qed.

Definition when (b : bool) (l : list (Z * Z)) : list (Z * Z) := if b then l else [].

Lemma header_assoc :
  assoc header_patches =
  (coff, AMD64) ::
  when (entries_differ X) ((coff + 36, sym_rva (x_entry X)) ::
    match chpeSym X with Some s => [(symRVA s + 40, sym_rva (x_hybrid_entry X))] | None => [] end) ++
  when (edata_differ X) [(coff + 132, chunk_rva (fst <$> x_edata X)); (coff + 136, 0)] ++
  when (pdata_differ X) ([(coff + 156, chunk_rva (fst <$> x_hybrid_pdata X)); (coff + 160, 0)] ++
    match chpeSym X with Some s => [(symRVA s + 64, chunk_rva (fst <$> x_pdata X)); (symRVA s + 68, 0)] | None => [] end) ++
  [(coff + 212, sym_rva (x_loadConfigSym X)); (coff + 216, x_loadConfigSize X)] ++
  match x_native_tls X, x_ec_tls X with
  | None, None => []
  | Some _, Some _ => [(coff + 204, sym_rva (x_ec_tls X))]
  | _, _ => [(coff + 204, sym_rva (x_ec_tls X)); (coff + 208, if x_ec_tls X is Some _ then 40 else 0)]
  end.
Proof using Hok.
  pose proof (hy_coff _ _ Hok) as Hc. unfold assoc, header_patches. cbn [map]. rewrite !map_app.
  assert (Hcp : forall (a a' v : Z) l l', a = a' -> l = l' -> (a, v) :: l = (a', v) :: l') by (by intros; subst).
  assert (Hv : forall o v, (get (ae_offset (value32 o v)), get (ae_value (value32 o v))) = (get o, get v)) by done.
  assert (Hs : forall s, get (rv_of_sym s 0) = sym_rva s) by (intros; rewrite get_sym by lia; lia).
  assert (Hch : forall c, get (rv_of_chunk c 0) = chunk_rva c) by (intros; rewrite get_chunk by lia; lia).
  assert (Hss : forall s k, 0 <= k < 100 -> get (rv_of_sym (Some s) k) = symRVA s + k) by (intros; rewrite get_sym by lia; done).
  f_equal; [cbn [fixup ae_offset ae_value]; rewrite !get_const by (unfold AMD64; lia); done|].
  f_equal; [|f_equal; [|f_equal; [|f_equal]]].
  - unfold entry_patches, when. destruct (entries_differ X); [|done]. unfold AlternateEntryPoint.
    destruct (chpeSym X); cbn [map]; rewrite !Hv, ?Hs, ?Hss, get_const by lia; (apply Hcp; [lia|done]).
  - unfold edata_patches, when. destruct (edata_differ X); [|done]. cbn [map]. rewrite !Hv, Hch. unfold no_value, DIR_EXPORT. destruct (get_dir 0) as [-> ->]; [lia|].
    rewrite get_const by lia. apply Hcp; [lia|]. apply Hcp; [lia|done].
  - unfold pdata_patches, when. destruct (pdata_differ X); [|done]. rewrite map_app. cbn [map]. rewrite !Hv, Hch. unfold no_value, DIR_EXCEPTION. destruct (get_dir 3) as [-> ->]; [lia|].
    rewrite !get_const by lia. f_equal; [apply Hcp; [lia|]; apply Hcp; [lia|done]|]. destruct (chpeSym X); [|done]. cbn [map]. unfold ExtraRFETable, ExtraRFETableSize. by rewrite !Hv, !Hss, Hch, get_const by lia.
  - unfold load_config_patches. cbn [map app]. rewrite !Hv, Hs. unfold DIR_LOAD_CONFIG. destruct (get_dir 10) as [-> ->]; [lia|].
    rewrite get_const by apply (hy_load _ _ Hok). apply Hcp; [lia|]. apply Hcp; [lia|done].
  - unfold tls_patches, DIR_TLS, sizeof_coff_tls_directory64. destruct (get_dir 9) as [E1 E2]; [lia|].
    destruct (x_native_tls X), (x_ec_tls X); cbn [map]; rewrite ?Hv, ?Hs, ?E1, ?E2, ?get_const by lia; [|apply Hcp; [lia|]..|done]; apply Hcp; by try lia.
Qed.

(** ** The values set once the addresses are final *)

Lemma set_if_value ro offset d : get offset < 2 ^ 32 -> (ro <> None -> is_Some (vat (arm64xRelocs d) (get offset))) ->
  exists d', set_if symRVA chunkRVA chunkSize ro offset d = Some d' /\
    forall r, vat (arm64xRelocs d') r =
      match ro with
      | Some q => if r =? get offset then Some (range_size chunkRVA chunkSize q) else vat (arm64xRelocs d) r
      | None => vat (arm64xRelocs d) r
      end.
Proof using Type.
  intros Hlt Hs. destruct ro as [q|]; [|by exists d]. cbn [set_if].
  destruct (dr_set_value symRVA chunkRVA offset (rv_const (range_size chunkRVA chunkSize q)) d Hlt (Hs ltac:(done))) as (d' & -> & Hv).
  exists d'. split; [done|]. intros r. rewrite Hv, rv_get_const; [done|]. by apply wrap_ok.
Qed.

Lemma set_thunks_value ts : forall d, Forall (fun t => 4096 <= chunkRVA t.1) ts ->
  (forall t k, t ∈ ts -> k = 0 \/ k = 4 -> is_Some (vat (arm64xRelocs d) (chunkRVA t.1 + k))) ->
  exists d', set_thunks symRVA chunkRVA ts d = Some d' /\ forall r, r < 4096 -> vat (arm64xRelocs d') r = vat (arm64xRelocs d) r.
Proof using Hok.
  induction ts as [|t ts IH]; intros d Hlo Hin; [by exists d|]. apply Forall_cons in Hlo as [Ht Hlo]. cbn [set_thunks].
  assert (Hg : forall k, 0 <= k < 8 -> get (rv_of_chunk (Some t.1) k) = chunkRVA t.1 + k /\ chunkRVA t.1 + k < 2 ^ 32).
  { intros k Hk. rewrite get_chunk by lia. split; [done|]. destruct (hy_chunks _ _ Hok t.1). lia. }
  destruct (Hg 0) as [E0 L0], (Hg 4) as [E4 L4]; [lia..|].
  set (m := rmem (RangeExtensionThunkARM64_writeTo (symRVA t.2) (chunkRVA t.1) 0 {| rmem := fun _ => 0; errs := [] |})).
  destruct (dr_set_value symRVA chunkRVA (rv_of_chunk (Some t.1) 0) (rv_const (read32le m 0)) d) as (d1 & H1 & V1); [lia|rewrite E0; apply Hin; [by left|by left]|].
  destruct (dr_set_value symRVA chunkRVA (rv_of_chunk (Some t.1) 4) (rv_const (read32le m 4)) d1) as (d2 & H2 & V2); [lia| |].
  { rewrite E4, V1. case_match; [by eexists|]. apply Hin; [by left|by right]. }
  assert (Hd2 : setDynamicRelocs symRVA chunkRVA t d = Some d2) by (unfold setDynamicRelocs; fold m; rewrite H1; exact H2).
  rewrite Hd2. cbn [mbind option_bind]. destruct (IH d2 Hlo) as (d' & -> & Hd').
  { intros t' k Ht' Hk. rewrite V2, V1. repeat case_match; try (by eexists). apply Hin; [by right|done]. }
  exists d'. split; [done|]. intros r Hr. rewrite Hd', V2, V1 by done. rewrite E0, E4. by rewrite !(proj2 (Z.eqb_neq r _)) by lia.
Qed.

Lemma starts_differ (a b : option (nat * nat)) : (forall r r', a = Some r -> b = Some r' -> r.1 <> r'.1) ->
  bool_decide (fst <$> a = fst <$> b) = true -> a = None /\ b = None.
Proof using Type.
  intros H E%bool_decide_eq_true. destruct a as [r|], b as [r'|]; cbn in E; [|done|done|done]. injection E as E. by destruct (H r r').
Qed.

(** The patches of the headers alone, by field. *)
Lemma header_lookup r : r < 4096 ->
  vat header_patches r =
  if coff =? r then Some AMD64
  else if entries_differ X && (coff + 36 =? r) then Some (sym_rva (x_entry X))
  else if edata_differ X && (coff + 132 =? r) then Some (chunk_rva (fst <$> x_edata X))
  else if edata_differ X && (coff + 136 =? r) then Some 0
  else if pdata_differ X && (coff + 156 =? r) then Some (chunk_rva (fst <$> x_hybrid_pdata X))
  else if pdata_differ X && (coff + 160 =? r) then Some 0
  else if coff + 212 =? r then Some (sym_rva (x_loadConfigSym X))
  else if coff + 216 =? r then Some (x_loadConfigSize X)
  else match x_native_tls X, x_ec_tls X with
       | None, None => None
       | n, e =>
           if coff + 204 =? r then Some (sym_rva e)
           else match n, e with
                | Some _, Some _ => None
                | _, _ => if coff + 208 =? r then Some (if e is Some _ then 40 else 0) else None
                end
       end.
Proof using Hok.
  intros Hr. rewrite value_at_assoc, header_assoc. cbn [lookup_rva]. destruct (coff =? r); [done|].
  assert (Happ : forall l l', lookup_rva (l ++ l') r = match lookup_rva l r with Some v => Some v | None => lookup_rva l' r end).
  { induction l as [|[a v] l IH]; intros l'; cbn [app lookup_rva]; [done|]. by destruct (a =? r). }
  assert (Hchpe : forall s k, chpeSym X = Some s -> 0 <= k -> (symRVA s + k =? r) = false).
  { intros s k Hs Hk. apply Z.eqb_neq. unfold chpeSym in Hs. destruct (_ || _); [|done]. pose proof (hy_chpe _ _ Hok s Hs). lia. }
  rewrite !Happ. unfold when. destruct (chpeSym X) as [s|] eqn:Es;
    destruct (entries_differ X); cbn [lookup_rva andb]; rewrite ?(Hchpe s) by (done || lia); destruct (coff + 36 =? r); try done;
    destruct (edata_differ X); cbn [lookup_rva andb]; destruct (coff + 132 =? r); try done; destruct (coff + 136 =? r); try done;
    destruct (pdata_differ X); cbn [lookup_rva andb app]; rewrite ?(Hchpe s) by (done || lia); destruct (coff + 156 =? r); try done;
    destruct (coff + 160 =? r); try done; destruct (coff + 212 =? r); try done; destruct (coff + 216 =? r); try done;
    destruct (x_native_tls X), (x_ec_tls X); done.
Qed.

Lemma both_none (a b : option (nat * nat)) : (forall r r', a = Some r -> b = Some r' -> r.1 <> r'.1) ->
  negb (bool_decide (fst <$> a = fst <$> b)) = false -> a = None /\ b = None.
Proof using Type. intros H E%negb_false_iff. by apply starts_differ. Qed.

Lemma created_some r : In r (map fst (assoc header_patches)) -> is_Some (vat (arm64xRelocs created) r).
Proof using Hok.
  intros Hin. destruct thunk_patches_app as (l & E & _). subst created. unfold createDynamicRelocs. cbn [fst set_entries arm64xRelocs].
  fold header_patches. rewrite (value_at_app _ _ (arm64xRelocs (add_thunk_patches X d0))). destruct (vat _ r); [by eexists|].
  rewrite value_at_assoc. induction (assoc header_patches) as [|[a v] l' IH]; [done|]. cbn [lookup_rva]. destruct (Z.eqb_spec a r); [by eexists|].
  apply IH. by destruct Hin.
Qed.

(** The EC values of the header fields, where there is a patch. *)
Lemma ec_values : exists d, set_ec_values symRVA chunkRVA (coff + 132) X chunkSize created = Some d /\
  forall r, r < 4096 -> vat (arm64xRelocs d) r =
    match x_hybrid_pdata X, r =? coff + 160 with
    | Some q, true => Some (range_size chunkRVA chunkSize q)
    | _, _ =>
        match x_edata X, r =? coff + 136 with
        | Some q, true => Some (range_size chunkRVA chunkSize q)
        | _, _ => vat header_patches r
        end
    end.
Proof using Hok.
  pose proof (hy_coff _ _ Hok) as Hc. destruct (get_dir 0) as [_ E0], (get_dir 3) as [_ E3]; [lia..|]. unfold set_ec_values.
  destruct (set_if_value (x_edata X) (dir_size (coff + 132) DIR_EXPORT) created) as (d1 & -> & V1).
  { unfold DIR_EXPORT. lia. }
  { intros Hne. apply created_some. unfold DIR_EXPORT. rewrite E0, header_assoc. destruct (edata_differ X) eqn:E; [|by apply (both_none _ _ (hy_edata _ _ Hok)) in E as [? _]].
    cbn [when map]. right. rewrite !map_app, !in_app_iff. right. left. right. left. cbn. lia. }
  cbn [mbind option_bind]. destruct (set_if_value (x_hybrid_pdata X) (dir_size (coff + 132) DIR_EXCEPTION) d1) as (d2 & -> & V2).
  { unfold DIR_EXCEPTION. lia. }
  { intros Hne. unfold DIR_EXCEPTION. rewrite E3, V1. assert (Hs : is_Some (vat (arm64xRelocs created) (coff + 132 + 3 * 8 + 4))).
    { apply created_some. rewrite header_assoc. destruct (pdata_differ X) eqn:E; [|by apply (both_none _ _ (hy_pdata _ _ Hok)) in E as [_ ?]].
      cbn [when map]. right. rewrite !map_app, !in_app_iff. right. right. left. left. right. left. cbn. lia. }
    by apply some_override. }
  cbn [mbind option_bind]. unfold DIR_EXCEPTION, DIR_EXPORT in *. rewrite E3 in V2. rewrite E0 in V1.
  assert (Hd3 : exists d3, (match chpeSym X with Some s => set_if symRVA chunkRVA chunkSize (x_pdata X) (rv_const (symRVA s + ExtraRFETableSize)) d2 | None => Some d2 end) = Some d3 /\
    (forall r, r < 4096 -> vat (arm64xRelocs d3) r = vat (arm64xRelocs d2) r) /\
    (forall r, is_Some (vat (arm64xRelocs d2) r) -> is_Some (vat (arm64xRelocs d3) r))).
  { destruct (chpeSym X) as [s|] eqn:Es; [|by exists d2].
    assert (Hlo : 4096 <= symRVA s < 2 ^ 31).
    { pose proof (hy_syms _ _ Hok s) as [? ?]. unfold chpeSym in Es. destruct (_ || _); [|done]. pose proof (hy_chpe _ _ Hok s Es). lia. }
    assert (Hg : get (rv_const (symRVA s + ExtraRFETableSize)) = symRVA s + 68) by (unfold ExtraRFETableSize; rewrite get_const by lia; done).
    destruct (set_if_value (x_pdata X) (rv_const (symRVA s + ExtraRFETableSize)) d2) as (d3 & -> & V3); [lia| |].
    - intros Hne. rewrite Hg, V2, V1. assert (Hs : is_Some (vat (arm64xRelocs created) (symRVA s + 68))).
      { apply created_some. rewrite header_assoc. destruct (pdata_differ X) eqn:E; [|by apply (both_none _ _ (hy_pdata _ _ Hok)) in E as [? _]].
        cbn [when map]. right. rewrite !map_app, !in_app_iff. right. right. left. right. rewrite Es. cbn. tauto. }
      by repeat apply some_override.
    - exists d3. split; [done|]. split.
      + intros r Hr. rewrite V3, Hg. destruct (x_pdata X); [|done]. by rewrite (proj2 (Z.eqb_neq _ _)) by lia.
      + intros r Hr. rewrite V3. destruct (x_pdata X); [|done]. destruct (_ =? _); [by eexists|done]. }
  destruct Hd3 as (d3 & -> & V3 & S3). cbn [mbind option_bind].
  destruct (set_thunks_value (x_sameAddressThunks X) d3 (hy_thunks _ _ Hok)) as (d & -> & V).
  { intros t k Ht Hk. apply S3. rewrite V2, V1. repeat apply some_override. by apply created_thunks. }
  exists d. split; [done|]. intros r Hr. rewrite V, V3, V2, V1, created_value by done.
  replace (coff + 132 + 3 * 8 + 4) with (coff + 160) by lia. replace (coff + 132 + 0 * 8 + 4) with (coff + 136) by lia. done.
Qed.
End Values.
End Headers.

(** The header fields of a goal, from the patches. *)
Ltac header_fields Hv Hok coff :=
  repeat (erewrite Hv by (try reflexivity; lia)); rewrite !(header_lookup _ _ _ coff _ Hok) by lia; eqb_lia;
  rewrite ?andb_false_r, ?andb_true_r.

(** C32: with the values [setECSymbols] gives, the patches turn the headers of the native
    view into those of the EC view (machine, entry point, export, exception, load
    configuration and TLS directories), whichever of them the two views share. *)
Theorem ec_headers_patched (symRVA chunkRVA chunkSize : nat -> Z) (X : hybrid_symtabs) (coff : Z) (d0 : DynamicRelocsChunk) (loadConfig : Z * Z)
    (Hok : hybrid_ok symRVA chunkRVA X coff d0) :
  exists d, set_ec_values symRVA chunkRVA (coff + 132) X chunkSize
      (createDynamicRelocs coff (coff + 20) (coff + 132) X (add_thunk_patches X d0)).1 = Some d /\
    headers_view symRVA chunkRVA coff d (native_headers symRVA chunkRVA chunkSize X loadConfig) = ec_headers symRVA chunkRVA chunkSize X.
Proof.
  destruct (ec_values symRVA chunkRVA chunkSize X coff d0 Hok) as (d & Hd & V). exists d. split; [exact Hd|].
  pose proof (hy_coff _ _ _ _ _ Hok) as Hc. unfold headers_view, view_field, ec_headers, native_headers.
  cbn [vh_machine vh_entry vh_export vh_exception vh_load_config vh_tls fst snd].
  assert (Hed : edata_differ X = false -> x_edata X = None /\ x_hybrid_edata X = None) by apply (both_none _ _ (hy_edata _ _ _ _ _ Hok)).
  assert (Hpd : pdata_differ X = false -> x_pdata X = None /\ x_hybrid_pdata X = None) by apply (both_none _ _ (hy_pdata _ _ _ _ _ Hok)).
  assert (Hen : entries_differ X = false -> x_entry X = x_hybrid_entry X) by (intros E%negb_false_iff; by apply bool_decide_eq_true in E).
  assert (Hv : forall r n, r < 4096 -> forall v,
    (match x_hybrid_pdata X, r =? coff + 160 with
     | Some q, true => Some (range_size chunkRVA chunkSize q)
     | _, _ => match x_edata X, r =? coff + 136 with Some q, true => Some (range_size chunkRVA chunkSize q) | _, _ => value_at symRVA chunkRVA (header_patches X coff) r end
     end = v) -> default n (value_at symRVA chunkRVA (arm64xRelocs d) r) = default n v) by (intros r n Hr v <-; by rewrite V).
  f_equal.
  - header_fields Hv Hok coff. by destruct (x_hybrid_pdata X), (x_edata X).
  - header_fields Hv Hok coff. destruct (entries_differ X); [by destruct (x_hybrid_pdata X), (x_edata X)|].
    rewrite Hen by done. by destruct (x_hybrid_pdata X), (x_edata X), (x_native_tls X), (x_ec_tls X).
  - header_fields Hv Hok coff. destruct (edata_differ X).
    + by destruct (x_hybrid_pdata X), (x_edata X) as [[? ?]|].
    + destruct Hed as [-> ->]; [done|]. by destruct (x_hybrid_pdata X), (x_native_tls X), (x_ec_tls X).
  - header_fields Hv Hok coff. destruct (pdata_differ X).
    + by destruct (x_hybrid_pdata X) as [[? ?]|], (x_edata X).
    + destruct Hpd as [-> ->]; [done|]. by destruct (x_edata X), (x_native_tls X), (x_ec_tls X).
  - header_fields Hv Hok coff. by destruct (x_hybrid_pdata X), (x_edata X).
  - header_fields Hv Hok coff. by destruct (x_hybrid_pdata X), (x_edata X), (x_native_tls X), (x_ec_tls X).
Qed.

Definition demo_symRVA (s : nat) : Z := 0x1000 + 0x10 * Z.of_nat (s mod 16).
Definition demo_chunkRVA (c : nat) : Z := 0x2000 + 0x10 * Z.of_nat (c mod 16).

(** Own entry points, a shared exception table (none), an EC export table only. *)
Definition demo_symtabs : hybrid_symtabs :=
  {| x_entry := Some 1%nat; x_hybrid_entry := Some 2%nat; x_edata := Some (3, 4)%nat; x_hybrid_edata := None;
     x_pdata := None; x_hybrid_pdata := None; x_chpe := Some 8%nat; x_loadConfigSym := Some 6%nat; x_loadConfigSize := 320;
     x_native_tls := Some 7%nat; x_ec_tls := None; x_sameAddressThunks := [(7, 5)%nat] |}.

Definition demo_imports : DynamicRelocsChunk :=
  {| arm64xRelocs := [fixup ZEROFILL 8 (rv_of_chunk (Some 9%nat) 0) (rv_const 0);
                      fixup DELTA 0 (rv_of_chunk (Some 10%nat) 4) (rv_const 16)]; dr_chunkSize := 0 |}.

Lemma demo_hybrid_ok : hybrid_ok demo_symRVA demo_chunkRVA demo_symtabs 0x84 demo_imports.
Proof.
  assert (Hm : forall n : nat, 0 <= Z.of_nat (n mod 16) < 16) by (intros n; pose proof (Nat.mod_upper_bound n 16); lia).
  constructor; cbn [demo_symtabs x_sameAddressThunks x_chpe x_edata x_hybrid_edata x_pdata x_hybrid_pdata x_loadConfigSize].
  - lia.
  - intros s. unfold demo_symRVA, word_ok. specialize (Hm s). lia.
  - intros c. unfold demo_chunkRVA, word_ok. specialize (Hm c). lia.
  - repeat constructor; vm_compute; congruence.
  - repeat constructor; vm_compute; congruence.
  - intros s [= <-]. vm_compute. congruence.
  - done.
  - done.
  - done.
Qed.

Lemma ec_headers_patched_witness :
  exists d, set_ec_values demo_symRVA demo_chunkRVA (0x84 + 132) demo_symtabs (fun _ => 40)
      (createDynamicRelocs 0x84 (0x84 + 20) (0x84 + 132) demo_symtabs (add_thunk_patches demo_symtabs demo_imports)).1 = Some d /\
    headers_view demo_symRVA demo_chunkRVA 0x84 d (native_headers demo_symRVA demo_chunkRVA (fun _ => 40) demo_symtabs (0x5000, 256)) =
    {| vh_machine := 0x8664; vh_entry := 0x1010; vh_export := (0x2030, 56); vh_exception := (0, 0);
       vh_load_config := (0x1060, 320); vh_tls := (0, 0) |}.
Proof.
  destruct (ec_headers_patched demo_symRVA demo_chunkRVA (fun _ => 40) demo_symtabs 0x84 demo_imports (0x5000, 256) demo_hybrid_ok) as (d & Hd & Hv).
  exists d. split; [exact Hd|]. rewrite Hv. vm_compute. reflexivity.
Defined.
