(* ===== verification/Arm64XReader.v ===== *)
(** * The reader of dynamic relocations (llvm/lib/Object/COFFObjectFile.cpp)

    A file is memory from 0 to its size. Every access is checked against that
    range, so a read the code does not guard is an [OutOfBounds] of the model;
    [Crash] is an unreachable case or a failed [cantFail]. Iterators are the
    addresses they hold. *)

From S2P Require Import Prelude Memory Image.

#[local] Open Scope list_scope.
#[local] Open Scope Z_scope.

(** ** Results *)

Inductive dyn_error :=
  | SectionIndexOutOfBounds
  | SectionContentsOutOfFile
  | SectionStripped
  | RvaNotFound (rva : Z)
  | TooLargeTableOffset
  | UnsupportedVersion (v : Z)
  | InvalidDirectorySize (n : Z)
  | UnexpectedEnd
  | InvalidHeaderSize (n : Z)
  | TooLargeRelocationSize (n : Z)
  | Arm64XUnexpectedEnd
  | BlockTooSmall (n : Z)
  | BlockUnaligned (n : Z)
  | BlockTooLarge (n : Z)
  | PageUnaligned (rva : Z)
  | InvalidValueSize
  | InvalidType
  | UnexpectedTerminator
  | EntryPastBlock
  | UnalignedRva (rva : Z).

Inductive outcome (A : Type) :=
  | Done (a : A)
  | Error (e : dyn_error)
  | OutOfBounds
  | Crash
  | NoFuel.
Arguments Done {A}. Arguments Error {A}. Arguments OutOfBounds {A}. Arguments Crash {A}. Arguments NoFuel {A}.

Definition obind {A B} (x : outcome A) (f : A -> outcome B) : outcome B :=
  match x with
  | Done a => f a
  | Error e => Error e
  | OutOfBounds => OutOfBounds
  | Crash => Crash
  | NoFuel => NoFuel
  end.

Declare Scope outcome_scope.
Delimit Scope outcome_scope with outcome.
Notation "'let!' x := e 'in' f" := (obind e (fun x => f)) (at level 10, x name, e at level 200, f at level 200) : outcome_scope.
Notation "'let!' ' x := e 'in' f" := (obind e (fun x => f)) (at level 10, x strict pattern, e at level 200, f at level 200) : outcome_scope.
#[local] Open Scope outcome_scope.

(** [if (cond) return error;]. *)
Definition reject (c : bool) (e : dyn_error) : outcome unit := if c then Error e else Done tt.

(** A file, with the section table and the header it was opened with. *)
Record object_file := {
  o_data : mem;
  o_size : Z;
  o_is64 : bool;
  o_dosHeader : bool;
  o_sections : list coff_section
}.

Definition sizeof_block_header : Z := 8.
Definition sizeof_reloc_table : Z := 8.

Section Reader.
  Context (o : object_file).

Definition in_file (p n : Z) : bool := (0 <=? p) && (p + n <=? o_size o).

Definition load (n : nat) (p : Z) : outcome Z :=
  if in_file p (Z.of_nat n) then Done (read n (o_data o) p) else OutOfBounds.

(** ** Sections *)

Definition getSection (index : Z) : outcome (option coff_section) :=
  let index := s32 index in
  if index <=? 0 then Done None
  else if index <=? Z.of_nat (length (o_sections o)) then Done (o_sections o !! Z.to_nat (index - 1))
  else Error SectionIndexOutOfBounds.

Definition getSectionSize (s : coff_section) : Z :=
  if o_dosHeader o then Z.min (sn_VirtualSize s) (sn_SizeOfRawData s) else sn_SizeOfRawData s.

(** The contents, an address and a size. *)
Definition getSectionContents (s : coff_section) : outcome (Z * Z) :=
  if sn_PointerToRawData s =? 0 then Done (0, 0)
  else if checkOffset (o_size o) (sn_PointerToRawData s) (getSectionSize s)
  then Done (sn_PointerToRawData s, getSectionSize s)
  else Error SectionContentsOutOfFile.

Definition sectionEnd (s : coff_section) : Z := u32 (sn_VirtualAddress s + sn_VirtualSize s).

(** The file offset of an RVA. *)
Definition getRvaPtr (addr : Z) : outcome Z :=
  match List.find (fun s => (sn_VirtualAddress s <=? addr) && (addr <? sectionEnd s)) (o_sections o) with
  | Some s =>
      if (sn_SizeOfRawData s <? sn_VirtualSize s) && (u32 (sn_VirtualAddress s + sn_SizeOfRawData s) <=? addr)
      then Error SectionStripped
      else Done (sn_PointerToRawData s + u32 (addr - sn_VirtualAddress s))
  | None => Error (RvaNotFound addr)
  end.

(** ** The table *)

Section Table.
  Context (table : Z).

Definition table_version : outcome Z := load 4 table.
Definition table_size : outcome Z := load 4 (table + 4).
Definition table_begin : Z := table + sizeof_reloc_table.
Definition table_end : outcome Z := let! n := table_size in Done (table_begin + n).

(** [sizeof] of the header of a relocation. *)
Definition dyn_header_size (version : Z) : Z :=
  if version =? 1 then if o_is64 o then 12 else 8 else if o_is64 o then 24 else 20.

(** [DynamicRelocRef]: the address of its header. *)
Definition dyn_getContents (h : Z) : outcome (Z * Z) :=
  let! version := table_version in
  if version =? 1 then
    let! n := load 4 (if o_is64 o then h + 8 else h + 4) in Done (h + dyn_header_size 1, n)
  else if version =? 2 then
    let! hs := load 4 h in
    let! n := load 4 (h + 4) in
    Done (h + hs, n)
  else Done (0, 0).

Definition dyn_moveNext (h : Z) : outcome Z :=
  let! version := table_version in
  if version =? 1 then
    let! n := load 4 (if o_is64 o then h + 8 else h + 4) in Done (h + dyn_header_size 1 + n)
  else if version =? 2 then
    let! hs := load 4 h in
    let! n := load 4 (h + 4) in
    Done (h + u32 (hs + n))
  else Done h.

(** 64-bit symbols are truncated to the 32 bits of the result. *)
Definition dyn_getType (h : Z) : outcome Z :=
  let! version := table_version in
  if version =? 1 then
    if o_is64 o then let! s := load 8 h in Done (u32 s) else load 4 h
  else if version =? 2 then
    if o_is64 o then let! s := load 8 (h + 8) in Done (u32 s) else load 4 (h + 8)
  else Crash.

(** ** ARM64X relocations

    [Arm64XRelocRef]: the header of its block and its index. *)

Definition reloc_ref : Type := Z * Z.

Definition BlockSize (r : reloc_ref) : outcome Z := load 4 (r.1 + 4).
Definition PageRVA (r : reloc_ref) : outcome Z := load 4 r.1.

Definition entry_addr (r : reloc_ref) (offset : Z) : Z := r.1 + sizeof_block_header + 2 * u32 (r.2 + offset).

Definition getReloc (r : reloc_ref) (offset : Z) : outcome Z := load 2 (entry_addr r offset).

Definition fixup_type (w : Z) : Z := (w >>> 12) &&& 3.
Definition fixup_arg (w : Z) : Z := w >>> 14.

Definition getType (r : reloc_ref) : outcome Z := let! w := getReloc r 0 in Done (fixup_type w).
Definition getArg (r : reloc_ref) : outcome Z := let! w := getReloc r 0 in Done (fixup_arg w).
Definition getRVA (r : reloc_ref) : outcome Z :=
  let! page := PageRVA r in
  let! w := getReloc r 0 in
  Done (u32 (page + (w &&& 0xfff))).

Definition getEntrySize (r : reloc_ref) : outcome Z :=
  let! w := getReloc r 0 in
  Done (if fixup_type w =? 1 then u8 ((1 <<< fixup_arg w) / 2 + 1) else if fixup_type w =? 2 then 2 else 1).

Definition moveNext (r : reloc_ref) : outcome reloc_ref :=
  let! n := getEntrySize r in
  let r := (r.1, u32 (r.2 + n)) in
  let! size := BlockSize r in
  let! pad :=
    if sizeof_block_header + r.2 * 2 <? size then let! w := getReloc r 0 in Done (w =? 0) else Done false in
  let r := if pad : bool then (r.1, u32 (r.2 + 1)) else r in
  if sizeof_block_header + r.2 * 2 =? size then Done (entry_addr r 0, 0) else Done r.

Definition getSize (r : reloc_ref) : outcome Z :=
  let! w := getReloc r 0 in
  if (fixup_type w =? 0) || (fixup_type w =? 1) then Done (u8 (1 <<< fixup_arg w))
  else if fixup_type w =? 2 then Done 4
  else Crash.

Definition getValue (r : reloc_ref) : outcome Z :=
  let! w := getReloc r 0 in
  if fixup_type w =? 1 then
    let! n := getSize r in load (Z.to_nat n) (entry_addr r 0 + 2)
  else if fixup_type w =? 2 then
    let! delta := load 2 (entry_addr r 0 + 2) in
    let delta := if Z.odd (fixup_arg w) then - delta else delta in
    Done (u64 (delta * (if Z.testbit (fixup_arg w) 1 then 8 else 4)))
  else Done 0.

(** The checks of a block, at its first entry. *)
Definition validate_block (r : reloc_ref) : outcome unit :=
  let! e := table_end in
  let contentsSize := u64 (e - r.1) in
  let! _ := reject (contentsSize <? sizeof_block_header) Arm64XUnexpectedEnd in
  let! size := BlockSize r in
  let! _ := reject (size <=? sizeof_block_header) (BlockTooSmall size) in
  let! _ := reject (negb (size mod 4 =? 0)) (BlockUnaligned size) in
  let! _ := reject (contentsSize <? size) (BlockTooLarge size) in
  let! page := PageRVA r in
  reject (negb (page &&& 0xfff =? 0)) (PageUnaligned page).

Definition reloc_validate (r : reloc_ref) : outcome unit :=
  let! _ := if r.2 =? 0 then validate_block r else Done tt in
  let! w := getReloc r 0 in
  let! _ := reject (fixup_type w =? 3) InvalidType in
  let! _ := reject ((fixup_type w =? 1) && (fixup_arg w =? 0)) InvalidValueSize in
  let! size := BlockSize r in
  let relocsSize := u32 ((size - sizeof_block_header) / 2) in
  let! n := getEntrySize r in
  let! _ := reject (w =? 0) UnexpectedTerminator in
  let! last :=
    if u32 (r.2 + n + 1) <? relocsSize then let! w' := getReloc r n in Done (w' =? 0) else Done false in
  let! _ := reject last UnexpectedTerminator in
  let! _ := reject (relocsSize <? u32 (r.2 + n)) EntryPastBlock in
  let! rva := getRVA r in
  let! bytes := getSize r in
  let! _ := reject (negb (rva mod bytes =? 0)) (UnalignedRva rva) in
  let! page := PageRVA r in
  if page =? 0 then Done tt else let! _ := getRvaPtr (u32 (rva + bytes)) in Done tt.

(** [for (auto reloc : arm64x_relocs())]: until the iterator is [last]. *)
Fixpoint for_arm64x {A} (fuel : nat) (body : reloc_ref -> A -> outcome A) (r : reloc_ref) (last : Z) (a : A) : outcome A :=
  if (r.1 =? last) && (r.2 =? 0) then Done a
  else match fuel with
       | O => NoFuel
       | S fuel =>
           let! a := body r a in
           let! r := moveNext r in
           for_arm64x fuel body r last a
       end.

(** The relocations of one header, from its contents' begin to their end. *)
Definition for_relocs {A} (fuel : nat) (body : reloc_ref -> A -> outcome A) (h : Z) (a : A) : outcome A :=
  let! '(p, n) := dyn_getContents h in
  for_arm64x fuel body (p, 0) (p + n) a.

Definition IMAGE_DYNAMIC_RELOCATION_ARM64X : Z := 6.

(** [DynamicRelocRef::validate]. *)
Definition dyn_validate (fuel : nat) (h : Z) : outcome unit :=
  let! e := table_end in
  let contentsSize := u64 (e - h) in
  let! version := table_version in
  let headerSize := dyn_header_size version in
  let! _ := reject (contentsSize <? headerSize) UnexpectedEnd in
  let! headerSize :=
    if version =? 2 then
      let! size := load 4 h in
      let! _ := reject ((size <? headerSize) || (contentsSize <? size)) (InvalidHeaderSize size) in
      Done size
    else Done headerSize in
  let! '(_, n) := dyn_getContents h in
  let! _ := reject (contentsSize - headerSize <? n) (TooLargeRelocationSize n) in
  let! ty := dyn_getType h in
  if ty =? IMAGE_DYNAMIC_RELOCATION_ARM64X then for_relocs fuel (fun r _ => reloc_validate r) h tt else Done tt.

(** [for (auto DynReloc : dynamic_relocs())]. *)
Fixpoint for_dynamic {A} (fuel : nat) (body : Z -> A -> outcome A) (h last : Z) (a : A) : outcome A :=
  if h =? last then Done a
  else match fuel with
       | O => NoFuel
       | S fuel =>
           let! a := body h a in
           let! h := dyn_moveNext h in
           for_dynamic fuel body h last a
       end.

(** One round of a loop covers two bytes of the table or more. *)
Definition dyn_fuel : outcome nat := let! n := table_size in Done (S (Z.to_nat n)).

Definition for_dynamic_relocs {A} (body : nat -> Z -> A -> outcome A) (a : A) : outcome A :=
  let! fuel := dyn_fuel in
  let! e := table_end in
  for_dynamic fuel (body fuel) table_begin e a.

End Table.

(** [ArrayRef::drop_front], whose assertion is not compiled in a release. *)
Definition drop_front (c : Z * Z) (n : Z) : Z * Z := (c.1 + n, u64 (c.2 - n)).

(** The table that was found and validated, if the section is not a reserved one. *)
Definition initDynamicRelocPtr (sectionIndex sectionOffset : Z) : outcome (option Z) :=
  let! sec := getSection sectionIndex in
  match sec with
  | None => Done None
  | Some sec =>
      let! c := getSectionContents sec in
      let '(table, size) := drop_front c sectionOffset in
      let! _ := reject (size <? sizeof_reloc_table) TooLargeTableOffset in
      let! version := table_version table in
      let! _ := reject (negb (version =? 1) && negb (version =? 2)) (UnsupportedVersion version) in
      let! n := table_size table in
      let! _ := reject (size - sizeof_reloc_table <? n) (InvalidDirectorySize n) in
      let! _ := for_dynamic_relocs table (fun fuel h _ => dyn_validate table fuel h) tt in
      Done (Some table)
  end.

(** ** The hybrid view *)

(** A store into the copy of the file. *)
Definition store (n : nat) (p v : Z) (m : mem) : outcome mem :=
  if in_file p (Z.of_nat n) then Done (write n m p v) else OutOfBounds.

Definition fixup_ptr (rva : Z) : outcome Z :=
  if negb (rva &&& Z.lnot 0xfff =? 0) then
    match getRvaPtr rva with Done p => Done p | _ => Crash end
  else Done rva.

Definition apply_fixup (r : reloc_ref) (view : mem) : outcome mem :=
  let! rva := getRVA r in
  let! p := fixup_ptr rva in
  let! ty := getType r in
  if ty =? 0 then let! n := getSize r in store (Z.to_nat n) p 0 view
  else if ty =? 1 then
    let! v := getValue r in
    let! n := getSize r in
    store (Z.to_nat n) p v view
  else if ty =? 2 then
    let! v := getValue r in
    store 4 p (read32le view p + v) view
  else Done view.

(** [getHybridObjectView]: none without a relocation. *)
Definition getHybridObjectView (arm64x : bool) (table : option Z) : outcome (option mem) :=
  match arm64x, table with
  | true, Some table =>
      for_dynamic_relocs table (fun fuel h view =>
        let! ty := dyn_getType table h in
        if negb (ty =? IMAGE_DYNAMIC_RELOCATION_ARM64X) then Done view
        else for_relocs table fuel (fun r view =>
               let! m := apply_fixup r (default (o_data o) view) in Done (Some m)) h view) None
  | _, _ => Done None
  end.

End Reader.
