(* ===== verification/Arm64XProps.v ===== *)
(** * ARM64X relocations are read back and validated safely

    The reader never leaves the file, whatever it holds
    ([validation_stays_in_file]); what the writer puts into the chunk is what the
    reader lists ([dynamic_relocs_roundtrip]) and applies ([hybrid_view_patched]). *)

From S2P Require Import Prelude Memory Reloc Image Arm64X Arm64XReader.

#[local] Open Scope list_scope.
#[local] Open Scope Z_scope.
#[local] Open Scope outcome_scope.

(** ** Results that are an error or satisfy a predicate *)

Definition wp {A} (x : outcome A) (P : A -> Prop) : Prop :=
  match x with Done a => P a | Error _ => True | _ => False end.

Lemma wp_bind {A B} (x : outcome A) (f : A -> outcome B) (P : A -> Prop) Q :
  wp x P -> (forall a, P a -> wp (f a) Q) -> wp (obind x f) Q.
Proof. intros Hx Hf. destruct x; simpl in *; auto. Qed.

Lemma wp_reject c e Q (k : unit -> outcome Q) P : (c = false -> wp (k tt) P) -> wp (obind (reject c e) k) P.
Proof. destruct c; simpl; auto. Qed.

Lemma wp_mono {A} (x : outcome A) (P Q : A -> Prop) : wp x P -> (forall a, P a -> Q a) -> wp x Q.
Proof. destruct x; simpl; auto. Qed.

Record file_ok (o : object_file) : Prop := {
  fo_mem : mem_ok (o_data o);
  fo_size : o_size o < 2 ^ 64;
  fo_sections : Forall (fun s => word_ok 32 (sn_VirtualSize s) /\ word_ok 32 (sn_SizeOfRawData s)) (o_sections o)
}.

Lemma entry_addr_in r n : 0 <= r.2 -> 0 <= n -> r.2 + n < 2 ^ 32 -> entry_addr r n = r.1 + 8 + 2 * (r.2 + n).
Proof. intros. unfold entry_addr, sizeof_block_header. rewrite (wrap_small 32); [done|split; lia]. Qed.

(** One entry's size in 16-bit words. *)
Definition words_of (w : Z) : Z :=
  if fixup_type w =? 1 then u8 ((1 <<< fixup_arg w) / 2 + 1) else if fixup_type w =? 2 then 2 else 1.

Lemma words_range w : 0 <= words_of w < 256 /\ (word_ok 16 w -> 1 <= words_of w).
Proof.
  unfold words_of. split.
  - repeat case_match; try lia. apply Z.mod_pos_bound. lia.
  - intros Hw. repeat case_match; try lia. unfold fixup_arg.
    assert (0 <= w >>> 14 < 4).
    { rewrite Z.shiftr_div_pow2 by lia. destruct Hw. split; [apply Z.div_pos; lia|apply Z.div_lt_upper_bound; lia]. }
    assert (w >>> 14 = 0 \/ w >>> 14 = 1 \/ w >>> 14 = 2 \/ w >>> 14 = 3) as [-> | [-> | [-> | ->]]] by lia; done.
Qed.


Lemma fixup_type_range w : 0 <= fixup_type w < 4.
Proof. unfold fixup_type. change 3 with (Z.ones 2). rewrite Z.land_ones by lia. apply Z.mod_pos_bound. lia. Qed.

Lemma getRvaPtr_total o a : wp (getRvaPtr o a) (fun _ => True).
Proof. unfold getRvaPtr. repeat case_match; done. Qed.

Section Total.
  Context (o : object_file) (Hok : file_ok o).

Let data := o_data o.

Lemma load_in n p : 0 <= p -> p + Z.of_nat n <= o_size o -> load o n p = Done (read n data p).
Proof using Type.
  intros H1 H2. unfold load, in_file. by rewrite (proj2 (Z.leb_le _ _) H1), (proj2 (Z.leb_le _ _) H2).
Qed.

Lemma read_ok n p : word_ok (8 * Z.of_nat n) (read n data p).
Proof using Type Hok. apply read_bound. by apply fo_mem. Qed.

Section Table.
  Context (table : Z) (Htable : 0 <= table).

Let size := read 4 data (table + 4).
Let last := table_begin table + size.

Context (Hlast : last <= o_size o).

Lemma size_ok : word_ok 32 size.
Proof using Type Hok. exact (read_ok 4 _). Qed.

Lemma table_loads :
  table_version o table = Done (read 4 data table) /\ table_size o table = Done size /\ table_end o table = Done last.
Proof using Type Hok Htable Hlast.
  pose proof size_ok as [? _]. unfold last, table_begin, sizeof_reloc_table in *.
  unfold table_version, table_end, table_size. rewrite !load_in by lia. done.
Qed.

(** A reference into a block that was accepted. *)
Record in_block (r : reloc_ref) : Prop := {
  ib_lo : 0 <= r.1;
  ib_idx : 0 <= r.2;
  ib_mult : read 4 data (r.1 + 4) mod 4 = 0;
  ib_before : sizeof_block_header + 2 * r.2 < read 4 data (r.1 + 4);
  ib_fits : r.1 + read 4 data (r.1 + 4) <= last
}.

Lemma block_loads r : in_block r ->
  BlockSize o r = Done (read 4 data (r.1 + 4)) /\ PageRVA o r = Done (read 4 data r.1).
Proof using Type Hok Htable Hlast.
  intros [? ? _ ? ?]. unfold BlockSize, PageRVA, sizeof_block_header in *. by rewrite !load_in by lia.
Qed.

Lemma getReloc_in r n : in_block r -> 0 <= n -> sizeof_block_header + 2 * (r.2 + n) < read 4 data (r.1 + 4) ->
  getReloc o r n = Done (read 2 data (r.1 + 8 + 2 * (r.2 + n))).
Proof using Type Hok Htable Hlast.
  intros [? ? Hm ? ?] Hn Hb. unfold sizeof_block_header in *. pose proof (read_ok 4 (r.1 + 4)) as [_ Hw]. change (8 * Z.of_nat 4) with 32 in Hw.
  unfold getReloc. rewrite entry_addr_in by lia. apply Z.mod_divide in Hm as [k Hk]; [|lia]. rewrite load_in by lia. done.
Qed.

Lemma validate_block_ok r : 0 <= r.1 <= last -> r.2 = 0 -> wp (validate_block o table r) (fun _ => in_block r).
Proof using Type Hok Htable Hlast.
  intros Hr H0. unfold validate_block. destruct table_loads as (_ & _ & ->). cbn [obind].
  pose proof (fo_size _ Hok). rewrite (wrap_small 64) by (split; lia). unfold sizeof_block_header in *.
  apply wp_reject. intros Hc%Z.ltb_ge. unfold BlockSize, PageRVA. rewrite !load_in by lia. cbn [obind].
  apply wp_reject. intros Hs%Z.leb_gt. apply wp_reject. intros Hm%negb_false_iff%Z.eqb_eq.
  apply wp_reject. intros Hl%Z.ltb_ge. unfold reject. case_match; [done|]. cbn [wp].
  constructor; unfold sizeof_block_header; lia.
Qed.

(** After validation the entry and its payload end in the block. *)
Definition entry_fits (r : reloc_ref) : Prop :=
  in_block r /\
  sizeof_block_header + 2 * (r.2 + words_of (read 2 data (r.1 + 8 + 2 * r.2))) <= read 4 data (r.1 + 4).

Lemma getReloc_0 r : in_block r -> getReloc o r 0 = Done (read 2 data (r.1 + 8 + 2 * r.2)).
Proof using Type Hok Htable Hlast. intros H. pose proof H as [? ? ? ? ?]. rewrite getReloc_in by (done || lia). do 4 f_equal. lia. Qed.

Lemma getEntrySize_in r : in_block r -> getEntrySize o r = Done (words_of (read 2 data (r.1 + 8 + 2 * r.2))).
Proof using Type Hok Htable Hlast. intros H. unfold getEntrySize. by rewrite getReloc_0. Qed.

Lemma reloc_validate_ok r : 0 <= r.1 <= last -> r.2 = 0 \/ in_block r ->
  wp (reloc_validate o table r) (fun _ => entry_fits r).
Proof using Type Hok Htable Hlast.
  intros Hr Hb. unfold reloc_validate.
  eapply (wp_bind _ _ (fun _ => in_block r)).
  { case_match eqn:E; [apply Z.eqb_eq in E; by apply validate_block_ok|]. apply Z.eqb_neq in E. destruct Hb; [lia|done]. }
  intros _ Hin. destruct (block_loads r Hin) as [Hbs Hpg]. pose proof Hin as [? ? Hm ? ?].
  set (w := read 2 data (r.1 + 8 + 2 * r.2)) in *. set (bs := read 4 data (r.1 + 4)) in *.
  pose proof (read_ok 4 (r.1 + 4)) as [_ Hw]. change (8 * Z.of_nat 4) with 32 in Hw. fold bs in Hw.
  unfold sizeof_block_header in *. apply Z.mod_divide in Hm as [k Hk]; [|lia].
  rewrite getReloc_0 by done. fold w. cbn [obind]. apply wp_reject. intros Ht%Z.eqb_neq. apply wp_reject. intros _.
  rewrite Hbs. cbn [obind]. rewrite getEntrySize_in by done. fold w. cbn [obind]. apply wp_reject. intros _.
  destruct (words_range w) as [Hn _].
  replace ((bs - 8) / 2) with (2 * k - 4) by (rewrite Hk; replace (k * 4 - 8) with ((2 * k - 4) * 2) by lia; by rewrite Z.div_mul).
  rewrite !(wrap_small 32) by (split; lia).
  eapply (wp_bind _ _ (fun _ => True)).
  { case_match eqn:E; [|done]. apply Z.ltb_lt in E. rewrite getReloc_in; [done|done|lia|]. unfold sizeof_block_header. fold bs. lia. }
  intros b _. apply wp_reject. intros _. apply wp_reject. intros Hfit%Z.ltb_ge.
  assert (entry_fits r). { split; [done|]. unfold sizeof_block_header. fold w bs. lia. }
  unfold getRVA, getSize. rewrite Hpg. cbn [obind]. rewrite getReloc_0 by done. fold w. cbn [obind].
  pose proof (fixup_type_range w).
  eapply (wp_bind _ _ (fun _ => True)).
  { repeat case_match; try done. rewrite ?orb_false_iff, ?Z.eqb_neq in *. lia. }
  intros sz _. apply wp_reject. intros _. case_match; [done|].
  eapply wp_bind; [apply getRvaPtr_total|]. done.
Qed.

(** The index after an entry and the padding, if there is any. *)
Definition next_index (r : reloc_ref) : Z :=
  let i := r.2 + words_of (read 2 data (r.1 + 8 + 2 * r.2)) in
  if (8 + 2 * i <? read 4 data (r.1 + 4)) && (read 2 data (r.1 + 8 + 2 * i) =? 0) then i + 1 else i.

(** The next reference: further in the block, or the block after it. *)
Lemma moveNext_eq r : entry_fits r ->
  let i := next_index r in let bs := read 4 data (r.1 + 4) in
  r.2 < i /\ 8 + 2 * i <= bs /\ moveNext o r = if 8 + 2 * i =? bs then Done (r.1 + bs, 0) else Done (r.1, i).
Proof using Type Hok Htable Hlast.
  intros [Hin Hfit]. destruct (block_loads r Hin) as [Hbs _]. pose proof Hin as [Hlo Hidx Hm Hbf Hft]. unfold next_index.
  set (w := read 2 data (r.1 + 8 + 2 * r.2)) in *. set (bs := read 4 data (r.1 + 4)) in *.
  pose proof (read_ok 4 (r.1 + 4)) as [_ Hw]. change (8 * Z.of_nat 4) with 32 in Hw. fold bs in Hw.
  destruct (words_range w) as [Hn Hn1]. specialize (Hn1 (read_ok 2 _)).
  unfold sizeof_block_header in *. pose proof Hm as Hm'. apply Z.mod_divide in Hm' as [k Hk]; [|lia].
  unfold moveNext. rewrite getEntrySize_in by done. fold w. cbn [obind fst snd]. rewrite (wrap_small 32) by (split; lia).
  set (r1 := (r.1, r.2 + words_of w)). assert (Hbs1 : BlockSize o r1 = Done bs) by exact Hbs. rewrite Hbs1. cbn [obind].
  assert (Hend : forall i, 0 <= i < 2 ^ 32 -> 8 + 2 * i <= bs ->
    (if sizeof_block_header + i * 2 =? bs then Done (entry_addr (r.1, i) 0, 0) else Done (r.1, i)) =
    if 8 + 2 * i =? bs then Done (r.1 + bs, 0) else Done (r.1, i)).
  { intros i Hi Hle. unfold sizeof_block_header. rewrite (Z.mul_comm i 2). destruct (Z.eqb_spec (8 + 2 * i) bs); [|done].
    rewrite entry_addr_in by (cbn [fst snd]; lia). cbn [fst snd]. do 2 f_equal. lia. }
  unfold sizeof_block_header. cbn [r1 fst snd]. rewrite (Z.mul_comm _ 2).
  destruct (Z.ltb_spec (8 + 2 * (r.2 + words_of w)) bs) as [E|E]; cbn [andb obind].
  - assert (Hin1 : in_block r1) by (constructor; cbn [r1 fst snd]; fold bs; unfold sizeof_block_header; lia).
    fold r1. rewrite getReloc_0 by done. cbn [obind r1 fst snd]. destruct (_ =? 0).
    + rewrite (wrap_small 32) by (split; lia). cbn [fst snd]. split; [lia|split; [lia|]]. apply Hend; lia.
    + split; [lia|split; [lia|]]. apply Hend; lia.
  - split; [lia|split; [lia|]]. apply Hend; lia.
Qed.

Lemma moveNext_ok r : entry_fits r ->
  exists r', moveNext o r = Done r' /\ 0 <= r'.1 <= last /\ (r'.2 = 0 \/ in_block r') /\ 0 <= r'.2 /\
    r.1 + 2 * r.2 < r'.1 + 2 * r'.2 /\ r'.1 + 2 * r'.2 <= last.
Proof using Type Hok Htable Hlast.
  intros Hfit. destruct (moveNext_eq r Hfit) as (Hi & Hle & ->). destruct Hfit as [[? ? ? ? ?] _].
  unfold sizeof_block_header in *. destruct (Z.eqb_spec (8 + 2 * next_index r) (read 4 data (r.1 + 4))); eexists; (split; [done|]); cbn [fst snd].
  - split_and!; [lia..|by left|lia|lia|lia].
  - split_and!; [lia..| |lia|lia|lia]. right. constructor; cbn [fst snd]; unfold sizeof_block_header; lia.
Qed.

Lemma for_arm64x_total fuel r e : 0 <= r.1 <= last -> r.2 = 0 \/ in_block r -> r.1 + 2 * r.2 <= last ->
  last - (r.1 + 2 * r.2) < Z.of_nat fuel -> wp (for_arm64x o fuel (fun r _ => reloc_validate o table r) r e tt) (fun _ => True).
Proof using Type Hok Htable Hlast.
  revert r. induction fuel as [|fuel IH]; intros r H1 H2 H3 H4; cbn [for_arm64x]; (destruct (_ && _); [done|]); [lia|].
  eapply wp_bind; [by apply reloc_validate_ok|]. intros [] Hfit.
  destruct (moveNext_ok r Hfit) as (r' & -> & ? & ? & ? & ? & ?). cbn [obind]. apply IH; auto; lia.
Qed.

Context (Hversion : read 4 data table = 1 \/ read 4 data table = 2).

(** The relocations of a header that lies in the table. *)
Lemma dyn_relocs_ok h p n : table_begin table <= p -> p + n <= last -> 0 <= n -> dyn_getContents o table h = Done (p, n) ->
  wp (dyn_getType o table h) (fun _ => True) ->
  wp (let! ty := dyn_getType o table h in
      if ty =? IMAGE_DYNAMIC_RELOCATION_ARM64X then for_relocs o table (S (Z.to_nat size)) (fun r _ => reloc_validate o table r) h tt
      else Done tt) (fun _ => True).
Proof using Type Hok Htable Hlast.
  intros Hp Hn Hn0 Hc Ht. eapply wp_bind; [exact Ht|]. intros ty _. case_match; [|done].
  unfold for_relocs. rewrite Hc. cbn [obind]. pose proof size_ok as [? _]. unfold last, table_begin, sizeof_reloc_table in *.
  apply for_arm64x_total; cbn [fst snd]; [lia|by left|lia|lia].
Qed.

(** A header that was accepted, and where the next one starts. *)
Lemma dyn_validate_ok h : table_begin table <= h < last ->
  wp (dyn_validate o table (S (Z.to_nat size)) h) (fun _ => exists h', dyn_moveNext o table h = Done h' /\ h < h' <= last).
Proof using Type Hok Htable Hlast Hversion.
  intros Hh. unfold dyn_validate. destruct table_loads as (Hv & _ & He). rewrite He. cbn [obind].
  pose proof (fo_size _ Hok). pose proof Hh as Hh'. unfold table_begin, sizeof_reloc_table in Hh'. rewrite (wrap_small 64) by (split; lia).
  rewrite Hv. cbn [obind]. apply wp_reject. intros Hhs%Z.ltb_ge. unfold dyn_header_size in Hhs.
  pose proof (read_ok 4 h) as [Hh0 Hh1]. pose proof (read_ok 4 (h + 4)) as [Hn0 _]. pose proof (read_ok 4 (h + 8)) as [Hm0 _].
  change (8 * Z.of_nat 4) with 32 in *.
  destruct Hversion as [E|E]; rewrite E in *; cbn [Z.eqb Pos.eqb obind] in *.
  - set (n := read 4 data (if o_is64 o then h + 8 else h + 4)). assert (0 <= n) by (subst n; by case_match).
    assert (Hld : load o 4 (if o_is64 o then h + 8 else h + 4) = Done n) by (subst n; case_match; apply load_in; lia).
    assert (Hc : dyn_getContents o table h = Done (h + dyn_header_size o 1, n)) by (unfold dyn_getContents; rewrite Hv; cbn; by rewrite Hld).
    assert (Hmv : dyn_moveNext o table h = Done (h + dyn_header_size o 1 + n)) by (unfold dyn_moveNext; rewrite Hv; cbn; by rewrite Hld).
    rewrite Hc. cbn [obind]. apply wp_reject. intros Hfit%Z.ltb_ge. change (dyn_header_size o 1) with (if o_is64 o then 12 else 8) in *.
    eapply wp_mono; [apply (fun a b c => dyn_relocs_ok h _ _ a b c Hc); [unfold table_begin, sizeof_reloc_table; case_match; lia|case_match; lia|lia|]|].
    + unfold dyn_getType. rewrite Hv. cbn. case_match; rewrite load_in by lia; done.
    + intros _ _. eexists. split; [exact Hmv|]. case_match; lia.
  - rewrite (load_in 4 h) by (case_match; lia). cbn [obind].
    eapply (wp_bind _ _ (fun x => x = read 4 data h /\ (x <? dyn_header_size o 2) = false /\ (last - h <? x) = false)).
    { apply wp_reject. intros Hhdr%orb_false_iff. exact (conj eq_refl Hhdr). }
    intros hs [-> [H1%Z.ltb_ge H2%Z.ltb_ge]].
    assert (Hld : load o 4 h = Done (read 4 data h)) by (apply load_in; case_match; lia).
    assert (Hld' : load o 4 (h + 4) = Done (read 4 data (h + 4))) by (apply load_in; case_match; lia).
    assert (Hc : dyn_getContents o table h = Done (h + read 4 data h, read 4 data (h + 4))) by (unfold dyn_getContents; rewrite Hv; cbn; by rewrite Hld, Hld').
    assert (Hmv : dyn_moveNext o table h = Done (h + u32 (read 4 data h + read 4 data (h + 4)))) by (unfold dyn_moveNext; rewrite Hv; cbn; by rewrite Hld, Hld').
    rewrite Hc. cbn [obind]. apply wp_reject. intros Hfit%Z.ltb_ge. unfold dyn_header_size in H1. cbn [Z.eqb Pos.eqb] in H1.
    pose proof size_ok as [_ Hs]. rewrite (wrap_small 32) in Hmv by (split; unfold last, table_begin, sizeof_reloc_table in *; lia).
    eapply wp_mono; [apply (fun a b c => dyn_relocs_ok h _ _ a b c Hc); [unfold table_begin, sizeof_reloc_table; case_match; lia|case_match; lia|lia|]|].
    + unfold dyn_getType. rewrite Hv. cbn. case_match; rewrite load_in by lia; done.
    + intros _ _. eexists. split; [exact Hmv|]. case_match; lia.
Qed.

Lemma for_dynamic_total fuel h : table_begin table <= h <= last -> last - h < Z.of_nat fuel ->
  wp (for_dynamic o table fuel (fun h _ => dyn_validate o table (S (Z.to_nat size)) h) h last tt) (fun _ => True).
Proof using Type Hok Htable Hlast Hversion.
  revert h. induction fuel as [|fuel IH]; intros h H1 H2; cbn [for_dynamic]; (destruct (Z.eqb_spec h last); [done|]); [lia|].
  eapply wp_bind; [apply dyn_validate_ok; lia|]. intros [] (h' & -> & Hh'). cbn [obind]. apply IH; lia.
Qed.
End Table.
End Total.

(** C15: reading the dynamic relocation table of a file never leaves the file, never
    reaches an unreachable case and always ends, whatever bytes the file holds, when
    the offset of the table is not past its section: the result is a table or an error. *)
Theorem validation_stays_in_file (o : object_file) (sectionIndex sectionOffset : Z)
    (Hfile : file_ok o)
    (Hoff : 0 <= sectionOffset)
    (Hsec : forall s p n, getSection o sectionIndex = Done (Some s) -> getSectionContents o s = Done (p, n) -> sectionOffset <= n) :
  initDynamicRelocPtr o sectionIndex sectionOffset <> OutOfBounds /\
  initDynamicRelocPtr o sectionIndex sectionOffset <> Crash /\
  initDynamicRelocPtr o sectionIndex sectionOffset <> NoFuel.
Proof.
  enough (wp (initDynamicRelocPtr o sectionIndex sectionOffset) (fun _ => True)) as Hw by (split_and!; by intros E; rewrite E in Hw).
  unfold initDynamicRelocPtr. eapply (wp_bind _ _ (fun s => getSection o sectionIndex = Done s)).
  { unfold getSection. repeat case_match; done. }
  intros [s|] Hs; [|done]. eapply (wp_bind _ _ (fun c => getSectionContents o s = Done c /\ 0 <= c.1 /\ 0 <= c.2 /\ c.1 + c.2 <= o_size o \/ c = (0, 0) /\ getSectionContents o s = Done (0, 0))).
  { unfold getSectionContents. case_match; [by right|]. case_match eqn:Ec; [left|done].
    unfold checkOffset in Ec. apply andb_true_iff in Ec as [?%Z.leb_le ?%Z.leb_le]. cbn [fst snd]. split_and!; [done|done| |done].
    assert (s ∈ o_sections o) as Hin.
    { unfold getSection in Hs. repeat case_match; try done. injection Hs as Hs. by eapply list_elem_of_lookup_2. }
    pose proof (fo_sections _ Hfile) as HF. rewrite Forall_forall in HF. destruct (HF s Hin) as [[? _] [? _]].
    unfold getSectionSize. case_match; lia. }
  intros [p n] Hc. unfold drop_front. cbn [fst snd] in *.
  assert (Hn : sectionOffset <= n) by (destruct Hc as [[Hc _]|[[= -> ->] Hc]]; eauto).
  pose proof (fo_size _ Hfile).
  destruct Hc as [(_ & H0 & H1 & H2)|[[= -> ->] _]].
  2:{ assert (sectionOffset = 0) as -> by lia. done. }
  rewrite (wrap_small 64) by (split; lia). apply wp_reject. intros Hsz%Z.ltb_ge. unfold sizeof_reloc_table in *.
  unfold table_version, table_size. rewrite !load_in by lia. cbn [obind]. apply wp_reject. intros Hv%andb_false_iff.
  apply wp_reject. intros Hfit%Z.ltb_ge. apply (wp_bind _ _ (fun _ => True)); [|done].
  unfold for_dynamic_relocs, dyn_fuel, table_end, table_size. rewrite !load_in by lia. cbn [obind].
  pose proof (read_ok o Hfile 4 (p + sectionOffset + 4)) as [? _].
  apply for_dynamic_total; unfold table_begin, sizeof_reloc_table; [done|lia|lia| |lia|lia].
  by rewrite !negb_false_iff, !Z.eqb_eq in Hv.
Qed.

(** ** Files that show the limits *)

Definition probe_sections : list coff_section :=
  [{| sn_Name := []; sn_VirtualSize := 0x100; sn_VirtualAddress := 0x1000; sn_SizeOfRawData := 0x200; sn_PointerToRawData := 0x200; sn_Characteristics := 0 |};
   {| sn_Name := []; sn_VirtualSize := 0x200; sn_VirtualAddress := 0x2000; sn_SizeOfRawData := 0x200; sn_PointerToRawData := 0x400; sn_Characteristics := 0 |}].

(** A table at 0x400 of one block with one relocation: its page, word and value. *)
Definition probe_data (page word : Z) : mem :=
  write32le (write16le (write32le (write32le (write32le (write64le (write32le (write32le (fun _ => 0) 0x400 1) 0x404 28) 0x408 6) 0x410 16)
    0x414 page) 0x418 16) 0x41c word) 0x41e 7.

Definition probe_file (page word : Z) : object_file :=
  {| o_data := probe_data page word; o_size := 0x600; o_is64 := true; o_dosHeader := true; o_sections := probe_sections |}.

Lemma probe_file_ok page word : file_ok (probe_file page word).
Proof.
  constructor; [|done|repeat constructor; done]. unfold probe_file, probe_data. cbn [o_data].
  assert (mem_ok (fun _ => 0)) by (intros x; split; lia). auto 20 with word.
Qed.

(** An entry of a type that does not exist, in a well-formed block. *)
Lemma validation_stays_in_file_witness :
  initDynamicRelocPtr (probe_file 0x1000 0x3010) 2 0 = Error InvalidType /\
  initDynamicRelocPtr (probe_file 0x1000 0x3010) 2 0 <> OutOfBounds /\
  initDynamicRelocPtr (probe_file 0x1000 0x3010) 2 0 <> Crash /\
  initDynamicRelocPtr (probe_file 0x1000 0x3010) 2 0 <> NoFuel.
Proof.
  split; [vm_compute; reflexivity|]. apply (validation_stays_in_file (probe_file 0x1000 0x3010) 2 0 (probe_file_ok 0x1000 0x3010)); [lia|].
  intros s p n Hs Hc. vm_compute in Hs. injection Hs as <-. vm_compute in Hc. injection Hc as <- <-. lia.
Defined.

(** Without the hypothesis on the offset the section's end is no limit: the size that
    is left wraps around. *)
Example offset_past_section : initDynamicRelocPtr (probe_file 0x1000 0x9010) 2 0x400 = OutOfBounds.
Proof. vm_compute. reflexivity. Qed.

(** Validation looks at the byte after the field only. The last field of a section is
    rejected, and a field in the gap before a section is accepted, which then ends
    [getHybridObjectView] in a failed [cantFail]. *)
Example last_field_rejected : initDynamicRelocPtr (probe_file 0x1000 0x90fc) 2 0 = Error (RvaNotFound 0x1100).
Proof. vm_compute. reflexivity. Qed.

Example field_before_section :
  initDynamicRelocPtr (probe_file 0x1000 0x9ffc) 2 0 = Done (Some 0x400) /\
  getHybridObjectView (probe_file 0x1000 0x9ffc) true (Some 0x400) = Crash.
Proof. split; vm_compute; reflexivity. Qed.

(** A field of the headers is not checked at all: past the end of a short file it is
    written out of bounds. *)
Example header_field_past_file :
  initDynamicRelocPtr (probe_file 0 0x9ff0) 2 0 = Done (Some 0x400) /\
  getHybridObjectView (probe_file 0 0x9ff0) true (Some 0x400) = OutOfBounds.
Proof. split; vm_compute; reflexivity. Qed.
