(* ===== verification/Arm64XView.v ===== *)
(** * The two views of an ARM64X image

    The dynamic relocations as the writer encodes them are those the reader lists
    ([dynamic_relocs_roundtrip]), and the reader's hybrid view is the image with
    every one of them applied ([hybrid_view_patched]). *)

From S2P Require Import Prelude Memory Reloc Image Arm64X Arm64XReader Arm64XProps.

#[local] Open Scope list_scope.
#[local] Open Scope Z_scope.
#[local] Open Scope outcome_scope.

Section Entries.
  Context (symRVA chunkRVA : nat -> Z).

Abbreviation rv_get := (rv_get symRVA chunkRVA).
Abbreviation ae_page := (ae_page symRVA chunkRVA).
Abbreviation ae_writeTo := (ae_writeTo symRVA chunkRVA).
Abbreviation entry := Arm64XDynamicRelocEntry.

(** ** The encoding of an entry *)

Definition ae_rva (e : entry) : Z := rv_get (ae_offset e).
Definition ae_delta (e : entry) : Z := s32 (rv_get (ae_value e)).

(** The bytes an entry patches. *)
Definition ae_bytes (e : entry) : Z := match ae_type e with DELTA => 4 | _ => ae_size e end.

(** The entries that can be encoded: a size of the format, at an aligned RVA; a
    delta of up to 16 bits once shifted. A one-byte ZEROFILL at the start of a
    page would be the word zero, which the reader takes for a terminator. *)
Definition entry_okb (e : entry) : bool :=
  (ae_rva e <? 2 ^ 32) && (ae_rva e mod ae_bytes e =? 0) &&
  match ae_type e with
  | ZEROFILL => existsb (Z.eqb (ae_size e)) [1; 2; 4; 8] && negb ((ae_size e =? 1) && (ae_rva e mod 4096 =? 0))
  | VALUE => existsb (Z.eqb (ae_size e)) [2; 4; 8]
  | DELTA =>
      if ae_delta e mod 8 =? 0 then Z.abs (ae_delta e) / 8 <? 2 ^ 16
      else (ae_delta e mod 4 =? 0) && (Z.abs (ae_delta e) / 4 <? 2 ^ 16)
  end.

Definition ae_arg (e : entry) : Z :=
  match ae_type e with
  | ZEROFILL | VALUE => Z.log2 (ae_size e)
  | DELTA => (if ae_delta e <? 0 then 1 else 0) + (if ae_delta e mod 8 =? 0 then 2 else 0)
  end.

Definition ae_word (e : entry) : Z := ae_rva e mod 4096 + fixup_code (ae_type e) * 2 ^ 12 + ae_arg e * 2 ^ 14.

(** The entry at [p]. *)
Definition entry_at (m : mem) (p : Z) (e : entry) : Prop :=
  read16le m p = ae_word e /\
  match ae_type e with
  | ZEROFILL => True
  | VALUE => read (Z.to_nat (ae_size e)) m (p + 2) = wrap (8 * ae_size e) (rv_get (ae_value e))
  | DELTA => read16le m (p + 2) = Z.abs (ae_delta e) / (if ae_delta e mod 8 =? 0 then 8 else 4)
  end.

Lemma rva_range e : word_ok 64 (ae_rva e).
Proof. unfold ae_rva, Arm64X.rv_get. by apply wrap_ok. Qed.

Lemma or16_read m p x b k :
  read16le m p = x -> 0 <= k <= 16 -> word_ok k x -> 0 <= b -> x + b * 2 ^ k < 2 ^ 16 ->
  read16le (or16 p (b <<< k) m) p = x + b * 2 ^ k.
Proof.
  intros Hx Hk Hw Hb Hs. unfold or16. rewrite read_write, Hx, Z.lor_comm, shl_or_add by (done || lia).
  rewrite Z.add_comm. apply wrap_small. destruct Hw. split; nia.
Qed.

Lemma or16_other m p v x : x < p \/ p + 2 <= x -> or16 p v m x = m x.
Proof. intros. unfold or16. apply write_other. lia. Qed.

Lemma header_read m p off t : 0 <= t < 3 ->
  read16le (write16le m p ((off &&& 0xfff) ||| (t <<< 12))) p = off mod 4096 + t * 2 ^ 12.
Proof.
  intros Ht. change 4096 with (2 ^ 12). change 0xfff with (Z.ones 12). rewrite Z.land_ones, Z.lor_comm by lia.
  pose proof (Z.mod_pos_bound off (2 ^ 12) ltac:(lia)).
  rewrite shl_or_add by (done || lia). rewrite read_write, Z.add_comm. apply wrap_small. split; lia.
Qed.

Lemma entry_ok_split e : entry_okb e = true ->
  0 <= ae_rva e < 2 ^ 32 /\ ae_rva e mod ae_bytes e = 0 /\
  match ae_type e with
  | ZEROFILL => (ae_size e = 1 \/ ae_size e = 2 \/ ae_size e = 4 \/ ae_size e = 8) /\ (ae_size e = 1 -> ae_rva e mod 4096 <> 0)
  | VALUE => ae_size e = 2 \/ ae_size e = 4 \/ ae_size e = 8
  | DELTA => Z.abs (ae_delta e) / (if ae_delta e mod 8 =? 0 then 8 else 4) < 2 ^ 16 /\ ae_delta e mod 4 = 0
  end.
Proof.
  unfold entry_okb. rewrite !andb_true_iff, Z.ltb_lt, Z.eqb_eq. intros [[H1 H2] H3]. pose proof (rva_range e) as [? _].
  split; [lia|]. split; [done|]. destruct (ae_type e).
  - apply andb_true_iff in H3 as [H3 H4]. cbn [existsb] in H3. rewrite !orb_true_iff, !Z.eqb_eq in H3.
    rewrite negb_true_iff, andb_false_iff, !Z.eqb_neq in H4. split; [|intros ?; destruct H4; [lia|done]].
    destruct H3 as [|[|[|[|]]]]; [lia..|done].
  - cbn [existsb] in H3. rewrite !orb_true_iff, !Z.eqb_eq in H3. destruct H3 as [|[|[|]]]; [lia..|done].
  - destruct (Z.eqb_spec (ae_delta e mod 8) 0) as [E|E]; [rewrite Z.ltb_lt in H3; split; [done|Z.div_mod_to_equations; lia]|].
    rewrite andb_true_iff, Z.eqb_eq, Z.ltb_lt in H3. tauto.
Qed.

Lemma mod_land_7 d : (d &&& 7) = d mod 8.
Proof. change 7 with (Z.ones 3). by rewrite Z.land_ones. Qed.

Lemma delta_range e : - 2 ^ 31 <= ae_delta e < 2 ^ 31.
Proof. unfold ae_delta. by apply (sext_range 32). Qed.

Lemma ae_writeTo_spec e buf m : entry_okb e = true ->
  exists m', ae_writeTo e buf m = Some m' /\ entry_at m' buf e /\
    forall x, x < buf \/ buf + ae_getSize e <= x -> m' x = m x.
Proof.
  intros Hok. apply entry_ok_split in Hok as (Hr & _ & Hk). unfold Arm64X.ae_writeTo, entry_at, ae_word, ae_arg, ae_getSize.
  fold (ae_rva e). set (m1 := write16le m buf _).
  assert (H1 : read16le m1 buf = ae_rva e mod 4096 + fixup_code (ae_type e) * 2 ^ 12) by (apply header_read; destruct (ae_type e); simpl; lia).
  assert (H1x : forall x, x < buf \/ buf + 2 <= x -> m1 x = m x) by (intros; subst m1; apply write_other; lia). clearbody m1.
  pose proof (Z.mod_pos_bound (ae_rva e) 4096 ltac:(lia)) as Hm.
  destruct (ae_type e); cbn [fixup_code] in H1 |- *.
  - assert (Hb : 0 <= Z.log2 (ae_size e) < 4 /\ bit_width (ae_size e) - 1 = Z.log2 (ae_size e)) by (destruct Hk as [[->|[->|[->| ->]]] _]; vm_compute; intuition congruence).
    destruct Hb as [Hb ->]. eexists. split; [done|]. split; [split; [|done]|].
    + eapply or16_read; [exact H1|lia|split; lia|lia|lia].
    + intros x Hx. rewrite or16_other by done. by apply H1x.
  - assert (Hb : 0 <= Z.log2 (ae_size e) < 4 /\ bit_width (ae_size e) - 1 = Z.log2 (ae_size e)) by (destruct Hk as [->|[->| ->]]; vm_compute; intuition congruence).
    destruct Hb as [Hb ->]. set (m2 := or16 _ _ _).
    assert (H2 : read16le m2 buf = ae_rva e mod 4096 + 1 * 2 ^ 12 + Z.log2 (ae_size e) * 2 ^ 14) by (eapply or16_read; [exact H1|lia|split; lia|lia|lia]).
    assert (H2x : forall x, x < buf \/ buf + 2 <= x -> m2 x = m x) by (intros; subst m2; rewrite or16_other by done; by apply H1x). clearbody m2.
    destruct Hk as [E|[E|E]]; rewrite E in *; cbn [Z.eqb Pos.eqb]; eexists; (split; [done|]); (split; [split; [rewrite read_write_other by lia; exact H2|apply read_write]|]);
      intros x Hx; (rewrite write_other by lia); apply H2x; lia.
  - pose proof (delta_range e) as Hd. unfold ae_delta in *. set (d := s32 _) in *. destruct Hk as [Hk Hk4].
    assert (Habs : s32 (- d) = - d \/ d = - 2 ^ 31).
    { destruct (decide (d = - 2 ^ 31)); [by right|left]. apply sext_unique; [lia|lia|done]. }
    assert (d <> - 2 ^ 31) by (intros E; rewrite E in Hk; vm_compute in Hk; done). destruct Habs as [Habs|]; [|done].
    set (pair := if d <? 0 then _ else _).
    assert (Hp : pair = (Z.abs d, pair.2) /\ read16le pair.2 buf = ae_rva e mod 4096 + 2 * 2 ^ 12 + (if d <? 0 then 1 else 0) * 2 ^ 14 /\
      forall x, x < buf \/ buf + 2 <= x -> pair.2 x = m x).
    { subst pair. destruct (Z.ltb_spec d 0).
      - rewrite Habs. cbn [snd]. split; [f_equal; lia|]. split; [eapply or16_read; [exact H1|lia|split; lia|lia|lia]|].
        intros x Hx. rewrite or16_other by done. by apply H1x.
      - cbn [snd]. split; [f_equal; lia|]. split; [rewrite H1; lia|done]. }
    destruct Hp as (-> & H2 & H2x). set (m2 := pair.2) in *. cbn [snd] in H2, H2x. clearbody m2. clear pair.
    rewrite mod_land_7. assert (Hmm : (Z.abs d mod 8 =? 0) = (d mod 8 =? 0)).
    { apply eq_true_iff_eq. rewrite !Z.eqb_eq. Z.div_mod_to_equations. lia. }
    rewrite Hmm. rewrite !Z.shiftr_div_pow2 by lia. change (2 ^ 3) with 8. change (2 ^ 2) with 4.
    set (q := Z.abs d / (if d mod 8 =? 0 then 8 else 4)) in *.
    assert (Hq : 0 <= q < 2 ^ 16) by (split; [apply Z.div_pos; [lia|destruct (_ =? _); lia]|done]).
    assert (Hs : 0 <= (if d <? 0 then 1 else 0) < 2) by (case_match; lia).
    destruct (d mod 8 =? 0); cbn iota beta; eexists; (split; [reflexivity|]).
    + split; [split|].
      * rewrite read_write_other by lia. rewrite (or16_read m2 buf _ 1 15 H2); [lia|lia|split; lia|lia|lia].
      * rewrite read_write. by apply wrap_small.
      * intros x Hx. rewrite write_other, or16_other by lia. apply H2x. lia.
    + split; [split|].
      * rewrite read_write_other by lia. rewrite H2. lia.
      * rewrite read_write. by apply wrap_small.
      * intros x Hx. rewrite write_other by lia. apply H2x. lia.
Qed.

Lemma ae_getSize_pos e : entry_okb e = true -> 2 <= ae_getSize e <= 10.
Proof.
  intros (_ & _ & H)%entry_ok_split. unfold ae_getSize. destruct (ae_type e); lia.
Qed.

Lemma ae_arg_range e : entry_okb e = true -> 0 <= ae_arg e < 4.
Proof.
  intros (_ & _ & H)%entry_ok_split. unfold ae_arg. destruct (ae_type e).
  - destruct H as [[->|[->|[->| ->]]] _]; vm_compute; intuition congruence.
  - destruct H as [->|[->| ->]]; vm_compute; intuition congruence.
  - repeat case_match; lia.
Qed.

Lemma word_parts e : entry_okb e = true ->
  fixup_type (ae_word e) = fixup_code (ae_type e) /\ fixup_arg (ae_word e) = ae_arg e /\
  (ae_word e &&& 0xfff) = ae_rva e mod 4096 /\ 2 * words_of (ae_word e) = ae_getSize e /\ ae_word e <> 0.
Proof.
  intros Hok. pose proof (ae_arg_range e Hok) as Ha. pose proof (entry_ok_split e Hok) as (Hr & _ & Hk).
  pose proof (Z.mod_pos_bound (ae_rva e) 4096 ltac:(lia)) as Hm.
  assert (Ht : 0 <= fixup_code (ae_type e) < 3) by (destruct (ae_type e); simpl; lia).
  assert (H1 : fixup_type (ae_word e) = fixup_code (ae_type e)).
  { unfold fixup_type. change 3 with (Z.ones 2). rewrite Z.land_ones, Z.shiftr_div_pow2 by lia. unfold ae_word.
    change (2 ^ 12) with 4096. change (2 ^ 14) with 16384. change (2 ^ 2) with 4. Z.div_mod_to_equations. lia. }
  assert (H2 : fixup_arg (ae_word e) = ae_arg e).
  { unfold fixup_arg. rewrite Z.shiftr_div_pow2 by lia. unfold ae_word. change (2 ^ 12) with 4096. change (2 ^ 14) with 16384. Z.div_mod_to_equations. lia. }
  assert (H3 : (ae_word e &&& 0xfff) = ae_rva e mod 4096).
  { change 0xfff with (Z.ones 12). rewrite Z.land_ones by lia. unfold ae_word. change (2 ^ 12) with 4096. change (2 ^ 14) with 16384. Z.div_mod_to_equations. lia. }
  split_and!; [done|done|done| |].
  - unfold words_of. rewrite H1, H2. unfold ae_getSize, ae_arg. destruct (ae_type e); cbn [fixup_code Z.eqb Pos.eqb]; [done| |done].
    destruct Hk as [->|[->| ->]]; done.
  - unfold ae_word. intros E. assert (fixup_code (ae_type e) = 0 /\ ae_arg e = 0 /\ ae_rva e mod 4096 = 0) as (E1 & E2 & E3) by lia.
    unfold ae_arg in E2. destruct (ae_type e); [|done|done]. destruct Hk as [Hk Hk1]. destruct Hk as [Hk|[Hk|[Hk|Hk]]]; [by apply Hk1|rewrite Hk in E2; done..].
Qed.

Lemma even_size e : entry_okb e = true -> ae_getSize e mod 2 = 0.
Proof. intros He. destruct (word_parts e He) as (_ & _ & _ & <- & _). rewrite Z.mul_comm. apply Z.mod_mul. lia. Qed.

Lemma size_arg e : entry_okb e = true -> ae_type e <> DELTA -> u8 (1 <<< ae_arg e) = ae_size e /\ 1 <= ae_size e <= 8.
Proof.
  intros (_ & _ & H)%entry_ok_split Ht. unfold ae_arg. destruct (ae_type e); [| |done].
  - destruct H as [[->|[->|[->| ->]]] _]; vm_compute; intuition congruence.
  - destruct H as [->|[->| ->]]; vm_compute; intuition congruence.
Qed.

(** ** The blocks

    The entries of a chunk in memory: [h] is the header of the open block, [pos]
    the address of the next entry; the chunk is at [table]. *)

Section Chunk.
  Context (table : Z).

Definition aligned (pos : Z) : Z := table + alignTo (pos - table) 4.

(** The block at [h] whose entries end at [pos] has its size and its padding. *)
Definition closed (m : mem) (h pos q : Z) : Prop :=
  q = aligned pos /\ read32le m (h + 4) = q - h /\ forall x, pos <= x < q -> m x = 0.

Fixpoint chain (m : mem) (h pos page : Z) (l : list entry) (q : Z) : Prop :=
  match l with
  | [] => closed m h pos q
  | e :: l =>
      if ae_page e =? page then entry_at m pos e /\ chain m h (pos + ae_getSize e) page l q
      else exists h', closed m h pos h' /\ read32le m h' = ae_page e /\ entry_at m (h' + 8) e /\
             chain m h' (h' + 8 + ae_getSize e) (ae_page e) l q
  end.

Lemma aligned_spec pos : pos <= aligned pos < pos + 4 /\ (aligned pos - table) mod 4 = 0.
Proof.
  unfold aligned. destruct (alignTo_spec (pos - table) 4 ltac:(lia)) as [? E]. split; [lia|].
  by replace (table + alignTo (pos - table) 4 - table) with (alignTo (pos - table) 4) by lia.
Qed.

Lemma entry_at_ext m m' p e : entry_okb e = true -> (forall x, p <= x < p + ae_getSize e -> m x = m' x) -> entry_at m p e -> entry_at m' p e.
Proof.
  intros Hok Hx [H1 H2]. pose proof (ae_getSize_pos e Hok). apply entry_ok_split in Hok as (_ & _ & Hok).
  assert (Hr : forall n q, p <= q -> q + Z.of_nat n <= p + ae_getSize e -> read n m' q = read n m q).
  { intros n q ? ?. apply read_ext. intros k Hk. symmetry. apply Hx. lia. }
  unfold entry_at, ae_getSize in *. destruct (ae_type e); (split; [rewrite Hr by lia; done|]); [done| |]; (rewrite Hr by lia); done.
Qed.

(** The size of the chunk so far, through the rest of the entries. *)
Definition size_after (size page : Z) (l : list entry) : Z := alignTo (fold_left (finalize_step symRVA chunkRVA) l (size, page)).1 4.

Lemma size_after_cons size page e l :
  size_after size page (e :: l) =
  if ae_page e =? page then size_after (size + ae_getSize e) page l
  else size_after (alignTo size 4 + 8 + ae_getSize e) (ae_page e) l.
Proof. unfold size_after. cbn [fold_left]. unfold finalize_step at 2. fold (ae_page e). by destruct (ae_page e =? page). Qed.

Lemma size_after_ge l size page : forallb entry_okb l = true -> size <= size_after size page l.
Proof.
  revert size page. induction l as [|e l IH]; intros size page Hl.
  { unfold size_after. cbn. pose proof (alignTo_spec size 4). lia. }
  cbn [forallb] in Hl. apply andb_true_iff in Hl as [He Hl]. pose proof (ae_getSize_pos e He).
  rewrite size_after_cons. pose proof (alignTo_spec size 4). case_match.
  - specialize (IH (size + ae_getSize e) page Hl). lia.
  - specialize (IH (alignTo size 4 + 8 + ae_getSize e) (ae_page e) Hl). lia.
Qed.

Definition block_open (m : mem) (h pos page : Z) : Prop := table + 20 <= h /\ h + 8 <= pos /\ read32le m h = page.

(** Where the blocks start. *)
Definition buf : Z := table + 20.

Lemma aligned_rel rs : buf + alignTo rs 4 = aligned (buf + rs).
Proof.
  unfold aligned, buf. replace (table + 20 + rs - table) with (rs + 5 * 4) by lia. unfold alignTo.
  replace (rs + 5 * 4 + 4 - 1) with (rs + 4 - 1 + 5 * 4) by lia. rewrite Z.div_add by lia. lia.
Qed.

Lemma closed_ext m m' h pos q : h + 8 <= pos -> (forall x, h + 4 <= x < q -> m x = m' x) -> closed m h pos q -> closed m' h pos q.
Proof.
  intros Hh Hx (Hq & Hs & Hp). pose proof (aligned_spec pos) as [? _]. split_and!; [done| |].
  - rewrite <- Hs. apply read_ext. intros k Hk. symmetry. apply Hx. lia.
  - intros x Hxp. rewrite <- Hx by lia. apply Hp. lia.
Qed.

Lemma alignTo_20 size : alignTo (size - 20) 4 = alignTo size 4 - 20.
Proof. unfold alignTo. replace (size + 4 - 1) with (size - 20 + 4 - 1 + 5 * 4) by lia. rewrite Z.div_add by lia. lia. Qed.

Lemma page_word e : word_ok 32 (ae_page e).
Proof. by apply wrap_ok. Qed.

(** What the rest of the loop and the last patch leave: the chain, and the bytes
    outside of it. *)
Definition writes_chain (m : mem) (h pos page size : Z) (l : list entry) : Prop :=
  let q := table + size_after size page l in
  exists m' h' rs, dr_write_entries symRVA chunkRVA buf (m, Some h, size - 20) l = Some (m', Some h', rs) /\
    buf + alignTo rs 4 = q /\
    let M := write32le m' (h' + 4) (q - h') in
    table + 20 <= h' /\ h' + 8 <= q /\ chain M h pos page l q /\
    (forall x, x < pos -> ~ (h + 4 <= x < h + 8) -> M x = m x) /\ (forall x, q <= x -> M x = m x).

Lemma write_chain l : forall m h pos page size, block_open m h pos page -> pos = table + size -> forallb entry_okb l = true ->
  size_after size page l < 2 ^ 32 -> (forall x, pos <= x < table + size_after size page l -> m x = 0) ->
  writes_chain m h pos page size l.
Proof.
  induction l as [|e l IH]; intros m h pos page size (Hh & Hpos & Hpage) -> Hl Hsz Hz; unfold writes_chain.
  { exists m, h, (size - 20). split; [done|]. unfold size_after in *. cbn [fold_left fst] in *. rewrite alignTo_20.
    unfold buf. split; [lia|]. pose proof (alignTo_spec size 4 ltac:(lia)) as [? _]. set (q := table + alignTo size 4) in *.
    assert (Hq : q = aligned (table + size)) by (unfold aligned, q; do 2 f_equal; lia).
    split_and!; [done|lia| | |].
    - cbn [chain]. split_and!; [exact Hq| |].
      + rewrite read_write. apply wrap_small. split; lia.
      + intros x Hx. rewrite write_other by lia. apply Hz. lia.
    - intros x Hx Hn. apply write_other. lia.
    - intros x Hx. apply write_other. lia. }
  cbn [forallb] in Hl. apply andb_true_iff in Hl as [He Hl]. pose proof (ae_getSize_pos e He) as Hes.
  cbn [dr_write_entries]. unfold dr_write_step. fold (ae_page e). rewrite Hpage. cbn [chain].
  rewrite size_after_cons in *. destruct (ae_page e =? page) eqn:Ep; cbn [negb].
  - apply Z.eqb_eq in Ep. pose proof (size_after_ge l (size + ae_getSize e) page Hl) as Hge.
    replace (buf + (size - 20)) with (table + size) by (unfold buf; lia).
    destruct (ae_writeTo_spec e (table + size) m He) as (m1 & -> & Hat & Hfr). cbn [mbind option_bind].
    destruct (IH m1 h (table + (size + ae_getSize e)) page (size + ae_getSize e)) as (m' & h' & rs & Hw & Hrs & Hh' & Hq & Hc & Hlo & Hhi); try done.
    + split_and!; [done|lia|]. rewrite <- Hpage. apply read_ext. intros k Hk. apply Hfr. lia.
    + intros x Hx. rewrite Hfr by lia. apply Hz. lia.
    + exists m', h', rs. replace (size - 20 + ae_getSize e) with (size + ae_getSize e - 20) by lia. split; [exact Hw|].
      split; [done|]. split; [done|]. split; [done|]. split; [split|split].
      * eapply entry_at_ext; [done| |exact Hat]. intros x Hx. symmetry. apply Hlo; lia.
      * replace (table + size + ae_getSize e) with (table + (size + ae_getSize e)) by lia. exact Hc.
      * intros x Hx Hn. rewrite Hlo by lia. apply Hfr. lia.
      * intros x Hx. rewrite Hhi by lia. apply Hfr. lia.
  - rewrite alignTo_20. unfold sizeof_base_reloc_block_header. pose proof (alignTo_spec size 4 ltac:(lia)) as [Hal _].
    pose proof (size_after_ge l (alignTo size 4 + 8 + ae_getSize e) (ae_page e) Hl) as Hge.
    set (h1 := table + alignTo size 4) in *. replace (buf + (alignTo size 4 - 20)) with h1 by (unfold buf, h1; lia).
    replace (buf + (alignTo size 4 - 20 + 8)) with (h1 + 8) by (unfold buf, h1; lia).
    set (m1 := write32le m (h + 4) (h1 - h)). set (m2 := write32le m1 h1 (ae_page e)).
    assert (Hm2 : forall x, ~ (h + 4 <= x < h + 8) -> ~ (h1 <= x < h1 + 4) -> m2 x = m x) by (intros; subst m2 m1; rewrite !write_other by lia; done).
    destruct (ae_writeTo_spec e (h1 + 8) m2 He) as (m3 & -> & Hat & Hfr). cbn [mbind option_bind].
    set (size1 := alignTo size 4 + 8 + ae_getSize e) in *.
    destruct (IH m3 h1 (table + size1) (ae_page e) size1) as (m' & h' & rs & Hw & Hrs & Hh' & Hq & Hc & Hlo & Hhi); try done.
    + split_and!; [lia|lia|]. rewrite (read_ext _ _ m2 _ h1) by (intros k Hk; apply Hfr; lia). subst m2. rewrite read_write. apply wrap_small, page_word.
    + intros x Hx. rewrite Hfr, Hm2 by lia. apply Hz. lia.
    + exists m', h', rs. replace (alignTo size 4 - 20 + 8 + ae_getSize e) with (size1 - 20) by lia. split; [exact Hw|].
      split; [done|]. split; [done|]. split; [done|]. set (M := write32le m' _ _) in *.
      split; [exists h1; split_and!|split].
      * split_and!; [unfold aligned, h1; do 2 f_equal; lia| |].
        -- rewrite (read_ext _ _ m2 _ (h + 4)) by (intros k Hk; rewrite Hlo by lia; apply Hfr; lia). subst m2 m1.
           rewrite read_write_other by lia. rewrite read_write. apply wrap_small. split; lia.
        -- intros x Hx. rewrite Hlo, Hfr, Hm2 by lia. apply Hz. lia.
      * rewrite (read_ext _ _ m2 _ h1) by (intros k Hk; rewrite Hlo by lia; apply Hfr; lia). subst m2. rewrite read_write. apply wrap_small, page_word.
      * eapply entry_at_ext; [done| |exact Hat]. intros x Hx. symmetry. apply Hlo; lia.
      * replace (h1 + 8 + ae_getSize e) with (table + size1) by lia. exact Hc.
      * intros x Hx Hn. rewrite Hlo, Hfr, Hm2 by lia. done.
      * intros x Hx. rewrite Hhi, Hfr, Hm2 by lia. done.
Qed.

(** ** The whole chunk *)

(** The table at [table] with its entries. *)
Definition table_written (M : mem) (l : list entry) : Prop :=
  let size := size_after 20 0xfff l in
  read32le M table = 1 /\ read32le M (table + 4) = size - 8 /\ read64le M (table + 8) = 6 /\ read32le M (table + 16) = size - 20 /\
  match l with
  | [] => False
  | e :: l =>
      read32le M (table + 20) = ae_page e /\ entry_at M (table + 28) e /\
      chain M (table + 20) (table + 28 + ae_getSize e) (ae_page e) l (table + size)
  end.

Lemma page_div e : ae_rva e < 2 ^ 32 -> ae_page e = ae_rva e - ae_rva e mod 4096.
Proof.
  intros Hr. pose proof (rva_range e) as [H0 _]. unfold Arm64X.ae_page. fold (ae_rva e).
  assert (E : ae_rva e &&& Z.lnot 0xfff = ae_rva e - ae_rva e mod 4096).
  { change (Z.lnot 0xfff) with (Z.lnot (Z.ones 12)). rewrite <- Z.ldiff_land, Z.ldiff_ones_r by lia.
    rewrite Z.shiftl_mul_pow2, Z.shiftr_div_pow2 by lia. change (2 ^ 12) with 4096. Z.div_mod_to_equations. lia. }
  rewrite E. apply wrap_small. pose proof (Z.mod_pos_bound (ae_rva e) 4096 ltac:(lia)).
  split; Z.div_mod_to_equations; lia.
Qed.

Lemma size_after_first e l : entry_okb e = true -> size_after 20 0xfff (e :: l) = size_after (28 + ae_getSize e) (ae_page e) l.
Proof.
  intros (Hr & _ & _)%entry_ok_split. rewrite size_after_cons. rewrite page_div by lia.
  rewrite (proj2 (Z.eqb_neq _ _)); [done|]. intros E. apply (f_equal (fun x => x mod 4096)) in E. Z.div_mod_to_equations. lia.
Qed.

Lemma dr_finalize_eq d :
  dr_finalize symRVA chunkRVA d =
  let l := stable_sort (fun a b => ae_rva a <? ae_rva b) (arm64xRelocs d) in {| arm64xRelocs := l; dr_chunkSize := size_after 20 0xfff l |}.
Proof. unfold dr_finalize, size_after. cbn zeta. by destruct (fold_left _ _ _). Qed.

Lemma chain_ext m m' h pos page l q : h + 8 <= pos -> forallb entry_okb l = true -> (forall x, h + 4 <= x < q -> m x = m' x) ->
  chain m h pos page l q -> chain m' h pos page l q /\ pos <= q.
Proof.
  revert h pos page. induction l as [|e l IH]; intros h pos page Hh Hl Hx; cbn [chain].
  { intros Hc. pose proof (aligned_spec pos) as [? _]. pose proof Hc as (-> & _). split; [|lia]. by eapply closed_ext. }
  cbn [forallb] in Hl. apply andb_true_iff in Hl as [He Hl]. pose proof (ae_getSize_pos e He) as Hes. case_match.
  - intros [Hat Hc]. destruct (IH h (pos + ae_getSize e) page ltac:(lia) Hl Hx Hc) as [Hc' ?]. split; [|lia]. split; [|done].
    eapply entry_at_ext; [done| |exact Hat]. intros x ?. apply Hx. lia.
  - intros (h' & Hcl & Hp & Hat & Hc). pose proof Hcl as (Hh' & _). pose proof (aligned_spec pos) as [? _].
    destruct (IH h' (h' + 8 + ae_getSize e) (ae_page e)) as [Hc' ?]; [lia|done|intros x ?; apply Hx; lia|exact Hc|]. split; [|lia].
    exists h'. split_and!; [|rewrite <- Hp; apply read_ext; intros k ?; symmetry; apply Hx; lia| |done].
    + eapply closed_ext; [done| |exact Hcl]. intros x ?. apply Hx. lia.
    + eapply entry_at_ext; [done| |exact Hat]. intros x ?. apply Hx. lia.
Qed.

Lemma dr_writeTo_spec l n m : l <> [] -> forallb entry_okb l = true -> size_after 20 0xfff l < 2 ^ 32 ->
  (forall x, table <= x < table + size_after 20 0xfff l -> m x = 0) ->
  exists M, dr_writeTo symRVA chunkRVA {| arm64xRelocs := l; dr_chunkSize := n |} table m = Some M /\ table_written M l /\
    forall x, x < table \/ table + size_after 20 0xfff l <= x -> M x = m x.
Proof.
  destruct l as [|e l]; [done|]. intros _ Hl Hsz Hz. unfold table_written. cbn [forallb] in Hl. apply andb_true_iff in Hl as [He Hl].
  pose proof (ae_getSize_pos e He) as Hes. rewrite size_after_first in * by done.
  pose proof (size_after_ge l (28 + ae_getSize e) (ae_page e) Hl) as Hge. set (size := size_after (28 + ae_getSize e) (ae_page e) l) in *.
  unfold dr_writeTo. cbn [arm64xRelocs]. unfold sizeof_coff_dynamic_reloc_table, sizeof_coff_dynamic_relocation64, IMAGE_DYNAMIC_RELOCATION_ARM64X.
  replace (table + 8 + 12) with buf by (unfold buf; lia). set (m0 := write64le _ _ _).
  assert (Hm0 : forall x, x < table \/ table + 16 <= x -> m0 x = m x) by (intros; subst m0; rewrite !write_other by lia; done).
  cbn [dr_write_entries]. unfold dr_write_step at 1. fold (ae_page e). unfold sizeof_base_reloc_block_header.
  change (alignTo 0 4) with 0. replace (buf + 0) with buf by lia. set (m1 := write32le m0 buf (ae_page e)). fold (ae_page e) in m1.
  replace (buf + (0 + 8)) with (table + 28) by (unfold buf; lia).
  destruct (ae_writeTo_spec e (table + 28) m1 He) as (m2 & -> & Hat & Hfr). cbn [mbind option_bind].
  assert (Hm1 : forall x, ~ (buf <= x < buf + 4) -> m1 x = m0 x) by (intros; subst m1; apply write_other; lia).
  assert (Hb : buf = table + 20) by done.
  destruct (write_chain l m2 buf (table + (28 + ae_getSize e)) (ae_page e) (28 + ae_getSize e)) as (m' & h' & rs & Hw & Hrs & Hh' & Hq & Hc & Hlo & Hhi); try done.
  { split_and!; [lia|lia|]. rewrite (read_ext _ _ m1 _ buf) by (intros k Hk; apply Hfr; lia). subst m1. rewrite read_write. apply wrap_small, page_word. }
  { intros x Hx. rewrite Hfr, Hm1, Hm0 by lia. apply Hz. fold size. lia. }
  replace (0 + 8 + ae_getSize e) with (28 + ae_getSize e - 20) by lia. rewrite Hw. cbn [mbind option_bind]. fold size in Hrs, Hq, Hc, Hlo, Hhi. rewrite Hrs.
  set (M1 := write32le m' (h' + 4) (table + size - h')) in *.
  assert (Hrs' : alignTo rs 4 = size - 20) by lia. rewrite Hrs'.
  set (M2 := write32le M1 (table + 8 + 8) (size - 20)). set (M := write32le M2 _ _). exists M. split; [done|].
  assert (HM2 : forall x, ~ (table + 16 <= x < table + 20) -> M2 x = M1 x) by (intros; subst M2; apply write_other; lia).
  assert (HM : forall x, ~ (table + 4 <= x < table + 8) -> M x = M2 x) by (intros; subst M; apply write_other; lia).
  assert (H16 : forall x, table <= x < table + 16 -> M1 x = m0 x) by (intros x Hx; rewrite Hlo, Hfr, Hm1 by lia; done).
  assert (HMr : forall n p, buf <= p -> read n M p = read n M1 p) by (intros; apply read_ext; intros k Hk; rewrite HM, HM2 by lia; done).
  split.
  - split_and!.
    + rewrite (read_ext _ _ m0 _ table) by (intros k Hk; rewrite HM, HM2, H16 by lia; done).
      subst m0. rewrite !read_write_other by lia. rewrite read_write. done.
    + subst M. rewrite read_write. rewrite (read_ext _ M2 m0 _ (table + 4)) by (intros k Hk; rewrite HM2, H16 by lia; done).
      subst m0. rewrite read_write_other by lia. rewrite read_write. change (wrap (8 * Z.of_nat 4) 12) with 12.
      replace (12 + (size - 20)) with (size - 8) by lia. apply wrap_small. split; lia.
    + rewrite (read_ext _ _ m0 _ (table + 8)) by (intros k Hk; rewrite HM, HM2, H16 by lia; done). subst m0. by rewrite read_write.
    + rewrite (read_ext _ _ M2 _ (table + 16)) by (intros k Hk; apply HM; lia). subst M2. replace (table + 8 + 8) with (table + 16) by lia.
      rewrite read_write. apply wrap_small. split; lia.
    + rewrite <- Hb, HMr by lia. rewrite (read_ext _ _ m1 _ buf) by (intros k Hk; rewrite Hlo, Hfr by lia; done). subst m1. rewrite read_write. apply wrap_small, page_word.
    + eapply entry_at_ext; [done| |exact Hat]. intros x Hx. rewrite HM, HM2, Hlo by lia. done.
    + rewrite <- Hb. replace (table + 28 + ae_getSize e) with (table + (28 + ae_getSize e)) by lia.
      eapply chain_ext; [|done| |exact Hc]; [lia|]. intros x Hx. rewrite HM, HM2 by lia. done.
  - intros x Hx. destruct Hx.
    + rewrite HM, HM2, Hlo, Hfr, Hm1, Hm0 by lia. done.
    + rewrite HM, HM2, Hhi, Hfr, Hm1, Hm0 by lia. done.
Qed.

(** ** The reader on the chunk *)

Section Reader.
  Context (o : object_file) (Hok : file_ok o) (Htable : 0 <= table).

Let data := o_data o.
Let last := table_begin table + read32le data (table + 4).

Context (Hlast : last <= o_size o).

(** A reference at an entry. *)
Record at_entry (r : reloc_ref) (e : entry) : Prop := {
  at_in : in_block o table r;
  at_ok : entry_okb e = true;
  at_here : entry_at data (r.1 + 8 + 2 * r.2) e;
  at_page : read32le data r.1 = ae_page e;
  at_fits : 8 + 2 * r.2 + ae_getSize e <= read32le data (r.1 + 4);
  at_next : 8 + 2 * r.2 + ae_getSize e + 2 < read32le data (r.1 + 4) -> read16le data (r.1 + 8 + 2 * r.2 + ae_getSize e) <> 0
}.

(** The open block: where it ends and what comes after its entry. *)
Lemma chain_block l : forall h pos page q, table + 20 <= h -> (h - table) mod 4 = 0 -> h + 8 <= pos -> (pos - table) mod 2 = 0 ->
  forallb entry_okb l = true -> chain data h pos page l q ->
  let bs := read32le data (h + 4) in
  bs mod 4 = 0 /\ pos <= h + bs <= q /\
  match l with
  | e :: _ =>
      if ae_page e =? page then pos + ae_getSize e <= h + bs else h + bs = aligned pos
  | [] => h + bs = aligned pos /\ q = h + bs
  end.
Proof using Type.
  clear Hlast. intros h pos page q Hh Hmod Hpos Hev Hl. revert pos Hpos Hev.
  assert (Hcl : forall pos q, (pos - table) mod 2 = 0 -> closed data h pos q -> let bs := read32le data (h + 4) in bs mod 4 = 0 /\ pos <= h + bs /\ h + bs = aligned pos /\ h + bs = q).
  { intros pos q' Hev (-> & -> & _). pose proof (aligned_spec pos) as [? Ha]. cbn zeta. split_and!; [|lia..].
    replace (aligned pos - h) with ((aligned pos - table) - (h - table)) by lia. by rewrite Zminus_mod, Ha, Hmod. }
  induction l as [|e l IH]; intros pos Hpos Hev Hc; cbn [chain] in Hc.
  - destruct (Hcl pos q Hev Hc) as (? & ? & ? & ?). cbn zeta. split_and!; [done|lia..].
  - cbn [forallb] in Hl. apply andb_true_iff in Hl as [He Hl]. pose proof (ae_getSize_pos e He) as Hes. destruct (ae_page e =? page) eqn:Ep.
    + destruct Hc as [_ Hc]. destruct (word_parts e He) as (_ & _ & _ & Hw & _).
      assert (Hev' : (pos + ae_getSize e - table) mod 2 = 0) by (rewrite <- Hw; Z.div_mod_to_equations; lia).
      destruct (IH Hl (pos + ae_getSize e) ltac:(lia) Hev' Hc) as (? & ? & _). cbn zeta. split_and!; [done|lia..].
    + destruct Hc as (h' & Hc0 & _ & _ & Hc). destruct (Hcl pos h' Hev Hc0) as (? & ? & ? & Hq).
      destruct (chain_ext data data h' (h' + 8 + ae_getSize e) (ae_page e) l q) as [_ ?]; [lia|done|done|exact Hc|].
      cbn zeta. split_and!; [done|lia..].
Qed.

Lemma at_entry_fits r e : at_entry r e -> entry_fits o table r.
Proof using Type.
  intros [Hin He [Hw _] _ Hf _]. split; [done|]. fold data. rewrite Hw. destruct (word_parts e He) as (_ & _ & _ & Hn & _).
  unfold sizeof_block_header. fold data. lia.
Qed.

Lemma at_getReloc r e : at_entry r e -> getReloc o r 0 = Done (ae_word e).
Proof using Type Hok Htable Hlast. intros [Hin _ [Hw _] _ _ _]. rewrite (getReloc_0 o Hok table) by done. fold data. by rewrite Hw. Qed.

(** What the reader shows of an entry. *)
Definition shown_value (e : entry) : Z :=
  match ae_type e with
  | ZEROFILL => 0
  | VALUE => wrap (8 * ae_size e) (rv_get (ae_value e))
  | DELTA => u64 (ae_delta e)
  end.

Lemma at_getSize r e : at_entry r e -> getSize o r = Done (ae_bytes e).
Proof using Type Hok Htable Hlast.
  intros Ha. pose proof (at_ok _ _ Ha) as He. unfold getSize. rewrite (at_getReloc r e Ha). cbn [obind].
  destruct (word_parts e He) as (-> & -> & _). unfold ae_bytes. destruct (ae_type e) eqn:Et; cbn [fixup_code Z.eqb Pos.eqb orb]; [| |done].
  - destruct (size_arg e He) as [-> _]; [congruence|done].
  - destruct (size_arg e He) as [-> _]; [congruence|done].
Qed.

Lemma at_getType r e : at_entry r e -> getType o r = Done (fixup_code (ae_type e)).
Proof using Type Hok Htable Hlast.
  intros Ha. unfold getType. rewrite (at_getReloc r e Ha). cbn [obind]. by destruct (word_parts e (at_ok _ _ Ha)) as (-> & _).
Qed.

Lemma at_getRVA r e : at_entry r e -> getRVA o r = Done (ae_rva e).
Proof using Type Hok Htable Hlast.
  intros Ha. pose proof (at_ok _ _ Ha) as He. unfold getRVA. destruct (block_loads o Hok table Htable Hlast r (at_in _ _ Ha)) as [_ ->]. cbn [obind].
  rewrite (at_getReloc r e Ha). cbn [obind]. destruct (word_parts e He) as (_ & _ & -> & _). fold data. rewrite (at_page _ _ Ha).
  apply entry_ok_split in He as (Hr & _ & _). rewrite page_div by lia. f_equal.
  replace (ae_rva e - ae_rva e mod 4096 + ae_rva e mod 4096) with (ae_rva e) by lia. by apply wrap_small.
Qed.

Lemma at_addr r e : at_entry r e -> entry_addr r 0 = r.1 + 8 + 2 * r.2 /\ 0 <= r.1 + 8 + 2 * r.2 /\ r.1 + 8 + 2 * r.2 + ae_getSize e <= o_size o.
Proof using Type Hok Htable Hlast.
  intros Ha. destruct (at_in _ _ Ha) as [? ? Hm Hb Hf]. fold data in Hm, Hb, Hf. fold last in Hf. pose proof (at_fits _ _ Ha).
  pose proof (read_ok o Hok 4 (r.1 + 4)) as [_ Hw]. change (8 * Z.of_nat 4) with 32 in Hw. fold data in Hw. unfold sizeof_block_header in *.
  rewrite entry_addr_in by lia. split; lia.
Qed.

Lemma at_getValue r e : at_entry r e -> getValue o r = Done (shown_value e).
Proof using Type Hok Htable Hlast.
  intros Ha. pose proof (at_ok _ _ Ha) as He. destruct (at_addr r e Ha) as (Haddr & Hlo & Hhi). unfold getValue.
  rewrite (at_getReloc r e Ha). cbn [obind]. destruct (word_parts e He) as (-> & -> & _). pose proof (at_here _ _ Ha) as [_ Hv].
  unfold shown_value, ae_getSize in *. destruct (ae_type e) eqn:Et; cbn [fixup_code Z.eqb Pos.eqb].
  - done.
  - rewrite (at_getSize r e Ha). unfold ae_bytes. rewrite Et. cbn [obind]. rewrite Haddr.
    destruct (size_arg e He) as [_ Hs]; [congruence|]. rewrite load_in by lia. fold data. by rewrite Hv.
  - rewrite Haddr, load_in by lia. cbn [obind]. fold data. rewrite Hv.
    pose proof (entry_ok_split e He) as (_ & _ & Hd). rewrite Et in Hd. destruct Hd as [_ Hd].
    assert (Harg : Z.odd (ae_arg e) = (ae_delta e <? 0) /\ Z.testbit (ae_arg e) 1 = (ae_delta e mod 8 =? 0)).
    { unfold ae_arg. rewrite Et. by destruct (ae_delta e <? 0), (ae_delta e mod 8 =? 0). }
    destruct Harg as [-> ->]. do 2 f_equal. destruct (Z.eqb_spec (ae_delta e mod 8) 0), (Z.ltb_spec (ae_delta e) 0); Z.div_mod_to_equations; lia.
Qed.

(** The page RVA of zero is that of the headers, which no section holds. *)
Definition rva_known (e : entry) : Prop := ae_page e <> 0 -> exists p, getRvaPtr o (u32 (ae_rva e + ae_bytes e)) = Done p.

Lemma at_validate r e : at_entry r e -> rva_known e -> reloc_validate o table r = Done tt.
Proof using Type Hok Htable Hlast.
  intros Ha Hknown. pose proof (at_ok _ _ Ha) as He. pose proof (at_in _ _ Ha) as Hin.
  destruct (block_loads o Hok table Htable Hlast r Hin) as [Hbs Hpg].
  pose proof (at_entry_fits r e Ha) as [_ Hfit]. pose proof Hin as [Hlo Hidx Hm Hb Hf].
  destruct (table_loads o Hok table Htable Hlast) as (_ & _ & Hend).
  fold data in Hm, Hb, Hf, Hfit, Hbs, Hpg. fold last in Hf. change (table_end o table = Done last) in Hend. set (bs := read32le data (r.1 + 4)) in *.
  pose proof (read_ok o Hok 4 (r.1 + 4)) as [_ Hw]. change (8 * Z.of_nat 4) with 32 in Hw. fold data bs in Hw.
  pose proof (fo_size _ Hok). unfold sizeof_block_header in *. pose proof (entry_ok_split e He) as (Hr & Hal & Hk).
  destruct (word_parts e He) as (Hty & Harg & _ & Hn & Hne). pose proof (at_fits _ _ Ha) as Hfits. pose proof (at_next _ _ Ha) as Hnext.
  fold data bs in Hfits, Hnext. pose proof Hm as Hm'. apply Z.mod_divide in Hm' as [k Hk']; [|lia].
  pose proof (ae_getSize_pos e He) as Hes.
  unfold reloc_validate. assert (Hblock : (if r.2 =? 0 then validate_block o table r else Done tt) = Done tt).
  { destruct (r.2 =? 0); [|done]. unfold validate_block. rewrite Hend, Hbs, Hpg. cbn [obind]. rewrite (wrap_small 64) by (split; lia).
    unfold reject, sizeof_block_header. rewrite (proj2 (Z.ltb_ge _ _)), (proj2 (Z.leb_gt _ _)), Hm, (proj2 (Z.ltb_ge _ _)) by lia. cbn [obind negb Z.eqb].
    fold data. rewrite (at_page _ _ Ha). change 0xfff with (Z.ones 12). rewrite Z.land_ones, page_div by lia. change (2 ^ 12) with 4096.
    by replace ((ae_rva e - ae_rva e mod 4096) mod 4096) with 0 by (Z.div_mod_to_equations; lia). }
  rewrite Hblock, (at_getReloc r e Ha), Hbs. cbn [obind]. rewrite Hty, Harg. unfold reject.
  rewrite (proj2 (Z.eqb_neq (fixup_code (ae_type e)) 3)) by (by destruct (ae_type e)).
  assert (Harg0 : (fixup_code (ae_type e) =? 1) && (ae_arg e =? 0) = false).
  { unfold ae_arg. destruct (ae_type e); [done| |done]. destruct Hk as [->|[->| ->]]; done. }
  rewrite Harg0. cbn [obind]. rewrite (getEntrySize_in o Hok table Htable Hlast r Hin). cbn [obind]. fold data.
  destruct (at_here _ _ Ha) as [Hword _]. rewrite Hword. rewrite (proj2 (Z.eqb_neq (ae_word e) 0)) by done. cbn [obind].
  unfold sizeof_block_header. replace ((bs - 8) / 2) with (2 * k - 4) by (rewrite Hk'; replace (k * 4 - 8) with ((2 * k - 4) * 2) by lia; by rewrite Z.div_mul).
  rewrite !(wrap_small 32) by (split; lia).
  assert (Hlast' : (if r.2 + words_of (ae_word e) + 1 <? 2 * k - 4 then let! w' := getReloc o r (words_of (ae_word e)) in Done (w' =? 0) else Done false) = Done false).
  { destruct (Z.ltb_spec (r.2 + words_of (ae_word e) + 1) (2 * k - 4)); [|done].
    rewrite (getReloc_in o Hok table Htable Hlast) by (done || unfold sizeof_block_header; fold data bs; lia). cbn [obind]. fold data.
    replace (r.1 + 8 + 2 * (r.2 + words_of (ae_word e))) with (r.1 + 8 + 2 * r.2 + ae_getSize e) by lia.
    rewrite (proj2 (Z.eqb_neq _ _)); [done|]. apply Hnext. lia. }
  rewrite Hlast'. cbn [obind]. rewrite (proj2 (Z.ltb_ge _ _)) by lia. cbn [obind].
  rewrite (at_getRVA r e Ha), (at_getSize r e Ha), Hpg. cbn [obind]. rewrite Hal. cbn [negb Z.eqb obind]. fold data. rewrite (at_page _ _ Ha).
  destruct (Z.eqb_spec (ae_page e) 0) as [|Hp0]; [done|]. destruct (Hknown Hp0) as (p & Hp). by rewrite Hp.
Qed.

(** ** The loop over the relocations *)

(** A reference with the chain of the entries after it. *)
Record ref_chain (r : reloc_ref) (e : entry) (l : list entry) : Prop := {
  rc_at : entry_at data (r.1 + 8 + 2 * r.2) e;
  rc_page : read32le data r.1 = ae_page e;
  rc_ok : forallb entry_okb (e :: l) = true;
  rc_lo : table + 20 <= r.1;
  rc_mod : (r.1 - table) mod 4 = 0;
  rc_idx : 0 <= r.2;
  rc_chain : chain data r.1 (r.1 + 8 + 2 * r.2 + ae_getSize e) (ae_page e) l last
}.

Lemma ref_chain_entry r e l : ref_chain r e l -> at_entry r e /\
  match l with
  | [] => r.1 + read32le data (r.1 + 4) = last
  | _ => True
  end.
Proof using Type Htable.
  intros [Hat Hp Hok' Hlo Hmod Hidx Hc]. cbn [forallb] in Hok'. apply andb_true_iff in Hok' as [He Hl].
  pose proof (even_size e He) as Hev. pose proof (ae_getSize_pos e He) as Hes.
  destruct (chain_block l r.1 (r.1 + 8 + 2 * r.2 + ae_getSize e) (ae_page e) last) as (Hm & Hb & Hn); [done|done|lia|Z.div_mod_to_equations; lia|done|done|].
  split; [|destruct l; [by destruct Hn|done]].
  constructor; [|done|done|done|lia|].
  - constructor; [lia|lia|done| |exact (proj2 Hb)]. unfold sizeof_block_header. fold data. lia.
  - intros Hnext. destruct l as [|e' l]; cbn [chain] in Hc.
    + destruct Hn as [Hn _]. pose proof (aligned_spec (r.1 + 8 + 2 * r.2 + ae_getSize e)) as [? ?]. exfalso. Z.div_mod_to_equations; lia.
    + cbn [forallb] in Hl. apply andb_true_iff in Hl as [He' Hl]. destruct (ae_page e' =? ae_page e).
      * destruct Hc as [[-> _] _]. by destruct (word_parts e' He') as (_ & _ & _ & _ & ?).
      * pose proof (aligned_spec (r.1 + 8 + 2 * r.2 + ae_getSize e)) as [? ?]. exfalso. Z.div_mod_to_equations; lia.
Qed.

(** A block that ends after the entry: past its padding comes the next one. *)
Lemma next_block r e h' : at_entry r e -> table + 20 <= r.1 -> (r.1 - table) mod 4 = 0 ->
  closed data r.1 (r.1 + 8 + 2 * r.2 + ae_getSize e) h' -> r.1 + read32le data (r.1 + 4) = h' -> moveNext o r = Done (h', 0).
Proof using Type Hok Htable Hlast.
  intros Ha Hlo Hmod (Hq & _ & Hz) Hb. destruct (moveNext_eq o Hok table Htable Hlast r (at_entry_fits r e Ha)) as (_ & Hle & ->).
  fold data in Hle |- *. destruct (at_here _ _ Ha) as [Hw _]. unfold next_index in *. fold data in Hle |- *. rewrite Hw in *.
  pose proof (at_ok _ _ Ha) as He. destruct (word_parts e He) as (_ & _ & _ & Hn & _). pose proof (even_size e He) as Hev.
  pose proof (aligned_spec (r.1 + 8 + 2 * r.2 + ae_getSize e)) as [Hr Hal].
  set (bs := read32le data (r.1 + 4)) in *. set (i := r.2 + words_of (ae_word e)) in *.
  destruct (Z.ltb_spec (8 + 2 * i) bs) as [Hlt|Hge]; cbn [andb].
  - assert (read16le data (r.1 + 8 + 2 * i) = 0) as ->.
    { unfold read. rewrite !Hz by (Z.div_mod_to_equations; lia). done. }
    cbn [Z.eqb]. rewrite (proj2 (Z.eqb_eq _ _)) by (Z.div_mod_to_equations; lia). do 2 f_equal. lia.
  - rewrite (proj2 (Z.eqb_eq _ _)) by (Z.div_mod_to_equations; lia). do 2 f_equal. lia.
Qed.

Lemma ref_chain_next r e l : ref_chain r e l ->
  match l with
  | [] => moveNext o r = Done (last, 0)
  | e' :: l' => exists r', moveNext o r = Done r' /\ ref_chain r' e' l'
  end.
Proof using Type Hok Htable Hlast.
  intros Hrc. destruct (ref_chain_entry r e l Hrc) as [Ha Hend]. destruct Hrc as [Hat Hp Hok' Hlo Hmod Hidx Hc].
  cbn [forallb] in Hok'. apply andb_true_iff in Hok' as [He Hl]. pose proof (ae_getSize_pos e He) as Hes.
  destruct l as [|e' l]; cbn [chain] in Hc.
  { by apply (next_block r e). }
  pose proof (even_size e He) as Hev.
  destruct (chain_block (e' :: l) r.1 (r.1 + 8 + 2 * r.2 + ae_getSize e) (ae_page e) last) as (Hm & Hb & Hn); [done|done|lia|Z.div_mod_to_equations; lia|done|exact Hc|].
  pose proof Hl as Hl2. cbn [forallb] in Hl2. apply andb_true_iff in Hl2 as [He' Hl']. destruct (word_parts e He) as (_ & _ & _ & Hw & _).
  destruct (Z.eqb_spec (ae_page e') (ae_page e)) as [Ep|Ep].
  - destruct Hc as [Hat' Hc]. exists (r.1, r.2 + words_of (ae_word e)).
    replace (r.1 + 8 + 2 * r.2 + ae_getSize e) with (r.1 + 8 + 2 * (r.2 + words_of (ae_word e))) in * by lia. split.
    + destruct (moveNext_eq o Hok table Htable Hlast r (at_entry_fits r e Ha)) as (_ & _ & ->). unfold next_index. fold data.
      destruct Hat as [-> _]. destruct Hat' as [-> _]. destruct (word_parts e' He') as (_ & _ & _ & _ & Hne).
      rewrite (proj2 (Z.eqb_neq _ _) Hne), andb_false_r. pose proof (ae_getSize_pos e' He'). rewrite (proj2 (Z.eqb_neq _ _)); [done|]. lia.
    + constructor; cbn [fst snd]; [done|by rewrite Hp|done|done|done|lia|by rewrite Ep].
  - destruct Hc as (h' & Hcl & Hp' & Hat' & Hc). exists (h', 0). pose proof Hcl as (Hh' & Hsz & _). split.
    + apply (next_block r e); [done..|]. lia.
    + pose proof (aligned_spec (r.1 + 8 + 2 * r.2 + ae_getSize e)) as [? Hal].
      constructor; cbn [fst snd]; [by replace (h' + 8 + 2 * 0) with (h' + 8) by lia|done|done|lia|by rewrite Hh'|lia|].
      by replace (h' + 8 + 2 * 0) with (h' + 8) by lia.
Qed.

Fixpoint ofold {A} (step : entry -> A -> outcome A) (l : list entry) (a : A) : outcome A :=
  match l with
  | [] => Done a
  | e :: l => let! a := step e a in ofold step l a
  end.

Lemma for_chain {A} (body : reloc_ref -> A -> outcome A) step l : forall e r a fuel, ref_chain r e l -> (length l < fuel)%nat ->
  (forall r' e' b, e' ∈ e :: l -> at_entry r' e' -> body r' b = step e' b) ->
  for_arm64x o fuel body r last a = ofold step (e :: l) a.
Proof using Type Hok Htable Hlast.
  induction l as [|e' l IH]; intros e r a fuel Hrc Hf Hb; (destruct fuel as [|fuel]; [simpl in Hf; lia|]); cbn [for_arm64x ofold];
    destruct (ref_chain_entry r e _ Hrc) as [Ha _]; destruct (at_in _ _ Ha) as [? ? _ Hb1 Hb2]; fold data in Hb1, Hb2; fold last in Hb2;
    unfold sizeof_block_header in *; (rewrite (proj2 (Z.eqb_neq r.1 last)) by lia); cbn [andb];
    (rewrite (Hb r e a) by (done || by left)); destruct (step e a); try done; cbn [obind].
  - rewrite (ref_chain_next r e [] Hrc). cbn [obind]. destruct fuel; cbn [for_arm64x fst snd]; by rewrite !Z.eqb_refl.
  - destruct (ref_chain_next r e _ Hrc) as (r' & -> & Hrc'). cbn [obind]. apply (IH e' r' _ fuel Hrc'); [simpl in Hf; lia|].
    intros r2 e2 b Hin. apply Hb. by right.
Qed.
End Reader.

(** ** The file *)

(** The chunk's bytes are in a 64-bit file, where the section and the offset say. *)
Record holds_table (o : object_file) (M : mem) (size sectionIndex sectionOffset : Z) : Prop := {
  ht_file : file_ok o;
  ht_is64 : o_is64 o = true;
  ht_bytes : forall x, table <= x < table + size -> o_data o x = M x;
  ht_section : exists s p n, getSection o sectionIndex = Done (Some s) /\ getSectionContents o s = Done (p, n) /\
    0 <= p /\ 0 <= sectionOffset /\ table = p + sectionOffset /\ sectionOffset + size <= n /\ p + n <= o_size o
}.

Lemma size_after_length l : forall size page, forallb entry_okb l = true -> size + 2 * Z.of_nat (length l) <= size_after size page l.
Proof.
  induction l as [|e l IH]; intros size page Hl.
  { unfold size_after. cbn. pose proof (alignTo_spec size 4). lia. }
  cbn [forallb length] in *. apply andb_true_iff in Hl as [He Hl]. pose proof (ae_getSize_pos e He).
  rewrite size_after_cons. pose proof (alignTo_spec size 4). case_match.
  - specialize (IH (size + ae_getSize e) page Hl). lia.
  - specialize (IH (alignTo size 4 + 8 + ae_getSize e) (ae_page e) Hl). lia.
Qed.

Lemma table_written_ext M M' l : forallb entry_okb l = true -> (forall x, table <= x < table + size_after 20 0xfff l -> M x = M' x) ->
  table_written M l -> table_written M' l.
Proof.
  intros Hl Hx. pose proof (size_after_length l 20 0xfff Hl) as Hlen. destruct l as [|e l]; [by intros (_ & _ & _ & _ & ?)|].
  intros (H1 & H2 & H3 & H4 & H5 & H6 & H7). pose proof Hl as Hl'. cbn [forallb] in Hl'. apply andb_true_iff in Hl' as [He Hl'].
  pose proof (ae_getSize_pos e He). rewrite (size_after_first e l He) in Hx, Hlen, H2, H4, H7.
  pose proof (size_after_ge l (28 + ae_getSize e) (ae_page e) Hl'). unfold table_written. rewrite (size_after_first e l He).
  split_and!; (etransitivity; [apply read_ext; intros k Hk; symmetry; apply Hx; lia|done]) || idtac.
  - eapply entry_at_ext; [done| |exact H6]. intros x ?. apply Hx. lia.
  - eapply chain_ext; [|done| |exact H7]; [lia|]. intros x ?. apply Hx. lia.
Qed.

Lemma written_size M l : forallb entry_okb l = true -> table_written M l -> 28 <= size_after 20 0xfff l.
Proof.
  destruct l as [|e l]; [by intros _ (_ & _ & _ & _ & ?)|]. intros Hl _. cbn [forallb] in Hl. apply andb_true_iff in Hl as [He Hl].
  rewrite (size_after_first e l He). pose proof (ae_getSize_pos e He). pose proof (size_after_ge l (28 + ae_getSize e) (ae_page e) Hl). lia.
Qed.

Section Listed.
  Context (o : object_file) (M : mem) (l : list entry) (sectionIndex sectionOffset : Z).
  Context (Hl : forallb entry_okb l = true) (HM : table_written M l).
  Context (Ho : holds_table o M (size_after 20 0xfff l) sectionIndex sectionOffset).

Let size := size_after 20 0xfff l.
Let fuel := S (Z.to_nat (size - 8)).

Lemma table_here : table_written (o_data o) l /\ 0 <= table /\ table + size <= o_size o /\ 28 <= size.
Proof using Type HM Ho Hl.
  destruct Ho as [Hf _ Hb (s & p & n & _ & _ & ? & ? & ? & ? & ?)]. split_and!; [|lia|unfold size; lia|].
  - eapply table_written_ext; [done| |exact HM]. intros x Hx. symmetry. apply Hb; lia.
  - by eapply written_size.
Qed.

Lemma written_loads :
  read32le (o_data o) (table + 4) = size - 8 /\ table_begin table + read32le (o_data o) (table + 4) = table + size /\
  table_version o table = Done 1 /\ table_size o table = Done (size - 8) /\ table_end o table = Done (table + size) /\
  dyn_getContents o table (table + 8) = Done (table + 20, size - 20) /\ dyn_moveNext o table (table + 8) = Done (table + size) /\
  dyn_getType o table (table + 8) = Done 6.
Proof using Type HM Ho Hl.
  destruct table_here as ((H1 & H2 & H3 & H4 & _) & H0 & Hs & H28). fold size in H2, H4.
  assert (Hv : table_version o table = Done 1) by (unfold table_version; rewrite load_in by lia; by rewrite H1).
  assert (Hn : table_size o table = Done (size - 8)) by (unfold table_size; rewrite load_in by lia; by rewrite H2).
  assert (Hc : load o 4 (table + 8 + 8) = Done (size - 20)).
  { rewrite load_in by lia. replace (table + 8 + 8) with (table + 16) by lia. by rewrite H4. }
  assert (Hcont : dyn_getContents o table (table + 8) = Done (table + 20, size - 20)).
  { unfold dyn_getContents. rewrite Hv, (ht_is64 _ _ _ _ _ Ho). cbn [obind Z.eqb Pos.eqb]. rewrite Hc. cbn [obind]. unfold dyn_header_size. rewrite (ht_is64 _ _ _ _ _ Ho). cbn. do 2 f_equal. lia. }
  split_and!; [done|unfold table_begin, sizeof_reloc_table; lia|done|done| |done| |].
  - unfold table_end. rewrite Hn. cbn [obind]. unfold table_begin, sizeof_reloc_table. f_equal. lia.
  - unfold dyn_moveNext. rewrite Hv, (ht_is64 _ _ _ _ _ Ho). cbn [obind Z.eqb Pos.eqb]. rewrite Hc. cbn [obind]. unfold dyn_header_size. rewrite (ht_is64 _ _ _ _ _ Ho). cbn. f_equal. lia.
  - unfold dyn_getType. rewrite Hv, (ht_is64 _ _ _ _ _ Ho). cbn [obind Z.eqb Pos.eqb]. rewrite load_in by lia. by rewrite H3.
Qed.

(** The one header of the table. *)
Lemma for_dynamic_written {A} (body : nat -> Z -> A -> outcome A) a : for_dynamic_relocs o table body a = body fuel (table + 8) a.
Proof using Type HM Ho Hl.
  destruct table_here as (_ & _ & _ & H28). destruct written_loads as (_ & _ & _ & Hn & He & _ & Hmv & _).
  unfold for_dynamic_relocs, dyn_fuel. rewrite Hn, He. cbn [obind]. fold fuel. unfold table_begin, sizeof_reloc_table.
  unfold fuel at 1. cbn [for_dynamic]. rewrite (proj2 (Z.eqb_neq _ _)) by lia. destruct (body fuel (table + 8) a); try done.
  cbn [obind]. rewrite Hmv. cbn [obind]. destruct (Z.to_nat (size - 8)); cbn [for_dynamic]; by rewrite Z.eqb_refl.
Qed.

Lemma for_relocs_written {A} (body : reloc_ref -> A -> outcome A) step a :
  (forall r e b, e ∈ l -> at_entry o r e -> body r b = step e b) -> for_relocs o table fuel body (table + 8) a = ofold step l a.
Proof using Type HM Ho Hl.
  intros Hb. destruct table_here as (Hw & H0 & Hs & H28). destruct written_loads as (_ & Hlast & _ & _ & _ & Hc & _).
  pose proof (size_after_length l 20 0xfff Hl) as Hlen. unfold for_relocs. rewrite Hc. cbn [obind].
  replace (table + 20 + (size - 20)) with (table_begin table + read32le (o_data o) (table + 4)) by lia.
  destruct l as [|e l'] eqn:El; [by destruct Hw as (_ & _ & _ & _ & ?)|]. apply (for_chain o (ht_file _ _ _ _ _ Ho)); [lia|lia| |unfold fuel, size; simpl in *; lia|done].
  destruct Hw as (_ & _ & _ & _ & Hp & Hat & Hch). constructor; cbn [fst snd]; [|done|done|lia| |lia|].
  - by replace (table + 20 + 8 + 2 * 0) with (table + 28) by lia.
  - by replace (table + 20 - table) with (5 * 4) by lia.
  - replace (table + 20 + 8 + 2 * 0 + ae_getSize e) with (table + 28 + ae_getSize e) by lia. rewrite Hlast. exact Hch.
Qed.

Lemma written_validates : (forall e, e ∈ l -> rva_known o e) -> initDynamicRelocPtr o sectionIndex sectionOffset = Done (Some table).
Proof using Type HM Ho Hl.
  intros Hk. pose proof Ho as [Hf _ _ (s & p & n & Hs & Hc & Hp0 & Hoff0 & Ht & Hfit & Hn)]. fold size in Hfit.
  destruct table_here as (_ & H0 & Hs' & H28). destruct written_loads as (_ & Hlast & Hv & Hsz & He & Hcont & _ & Hty).
  pose proof (fo_size _ Hf). unfold initDynamicRelocPtr. rewrite Hs. cbn [obind]. rewrite Hc. cbn [obind]. unfold drop_front. cbn [fst snd]. rewrite <- Ht, (wrap_small 64) by (split; lia).
  unfold sizeof_reloc_table, reject. rewrite (proj2 (Z.ltb_ge _ _)) by lia. cbn [obind]. rewrite Hv. cbn [obind Z.eqb Pos.eqb negb andb].
  rewrite Hsz. cbn [obind]. rewrite (proj2 (Z.ltb_ge _ _)) by lia. cbn [obind]. rewrite for_dynamic_written.
  unfold dyn_validate. rewrite He. cbn [obind]. rewrite (wrap_small 64) by (split; lia). rewrite Hv. cbn [obind]. unfold dyn_header_size.
  rewrite (ht_is64 _ _ _ _ _ Ho). cbn [Z.eqb Pos.eqb]. unfold reject. rewrite (proj2 (Z.ltb_ge _ _)) by lia. cbn [obind]. rewrite Hcont. cbn [obind].
  rewrite (proj2 (Z.ltb_ge _ _)) by lia. cbn [obind]. rewrite Hty. cbn [obind]. unfold IMAGE_DYNAMIC_RELOCATION_ARM64X. cbn [Z.eqb Pos.eqb].
  rewrite (for_relocs_written _ (fun _ _ => Done tt)).
  - assert (Hof : forall l' u, ofold (fun (_ : entry) (_ : unit) => Done tt) l' u = Done tt) by (induction l' as [|? l' IH]; [by intros []|intros u; cbn; apply IH]).
    by rewrite Hof.
  - intros r e [] Hin Ha. eapply (at_validate o Hf); [done| |exact Ha|by apply Hk]. lia.
Qed.
End Listed.
End Chunk.
End Entries.

(** ** The list is read back *)

(** The relocations of every header: type, size, RVA and value. *)
Definition listed_relocs (o : object_file) (table : Z) : outcome (list (Z * list (Z * Z * Z * Z))) :=
  for_dynamic_relocs o table (fun fuel h acc =>
    let! ty := dyn_getType o table h in
    let! l := for_relocs o table fuel (fun r acc =>
      let! t := getType o r in
      let! n := getSize o r in
      let! rva := getRVA o r in
      let! v := getValue o r in
      Done (acc ++ [(t, n, rva, v)])) h [] in
    Done (acc ++ [(ty, l)])) [].

(** An entry as the reader shows it. *)
Definition shown (symRVA chunkRVA : nat -> Z) (e : Arm64XDynamicRelocEntry) : Z * Z * Z * Z :=
  (fixup_code (ae_type e), ae_bytes e, ae_rva symRVA chunkRVA e, shown_value symRVA chunkRVA e).

(** The entries in the order of the chunk. *)
Definition final_entries (symRVA chunkRVA : nat -> Z) (d : DynamicRelocsChunk) : list Arm64XDynamicRelocEntry :=
  arm64xRelocs (dr_finalize symRVA chunkRVA d).

Lemma final_entries_sorted symRVA chunkRVA d :
  Permutation (final_entries symRVA chunkRVA d) (arm64xRelocs d) /\
  StronglySorted (fun a b => ae_rva symRVA chunkRVA a <= ae_rva symRVA chunkRVA b) (final_entries symRVA chunkRVA d).
Proof.
  unfold final_entries. rewrite dr_finalize_eq. cbn. split; [apply stable_sort_perm|].
  pose proof (stable_sort_sorted (fun a b => ae_rva symRVA chunkRVA a <? ae_rva symRVA chunkRVA b) (arm64xRelocs d)) as H.
  induction H as [|a l _ IH HF]; constructor; [exact IH|]. eapply Forall_impl; [exact HF|]. intros x Hx%Z.ltb_ge. exact Hx.
Qed.

Lemma entries_okb_perm symRVA chunkRVA l l' : Permutation l l' -> forallb (entry_okb symRVA chunkRVA) l = true -> forallb (entry_okb symRVA chunkRVA) l' = true.
Proof. intros Hp. rewrite !forallb_forall. intros H x Hx. apply H. eapply Permutation_in; [symmetry; exact Hp|exact Hx]. Qed.

(** The chunk is written, and a file that has it holds the table. *)
Lemma dr_chunk_written symRVA chunkRVA d table m :
  arm64xRelocs d <> [] -> forallb (entry_okb symRVA chunkRVA) (arm64xRelocs d) = true ->
  let f := dr_finalize symRVA chunkRVA d in
  dr_chunkSize f < 2 ^ 32 -> (forall x, table <= x < table + dr_chunkSize f -> m x = 0) ->
  exists M, dr_writeTo symRVA chunkRVA f table m = Some M /\ table_written symRVA chunkRVA table M (arm64xRelocs f) /\
    forallb (entry_okb symRVA chunkRVA) (arm64xRelocs f) = true /\ (forall x, x < table \/ table + dr_chunkSize f <= x -> M x = m x).
Proof.
  intros Hne Hok. destruct (final_entries_sorted symRVA chunkRVA d) as [Hp _]. unfold final_entries in Hp. cbn zeta.
  rewrite dr_finalize_eq in *. cbn [arm64xRelocs dr_chunkSize] in *. intros Hs Hz.
  assert (Hok' : forallb (entry_okb symRVA chunkRVA) (stable_sort (fun a b => ae_rva symRVA chunkRVA a <? ae_rva symRVA chunkRVA b) (arm64xRelocs d)) = true) by (by eapply entries_okb_perm; [symmetry|]).
  edestruct dr_writeTo_spec as (M & HM & Hw & Hfr); [|exact Hok'|exact Hs|exact Hz|].
  - intros E. rewrite E in Hp. by apply Permutation_nil in Hp.
  - exists M. by split_and!.
Qed.

(** The writer encodes every list of valid entries, and a file that holds the chunk
    is accepted by the reader, which lists exactly these entries, sorted by RVA,
    under one header for ARM64X. *)
Theorem dynamic_relocs_roundtrip (symRVA chunkRVA : nat -> Z) (d : DynamicRelocsChunk) (table : Z) (m : mem)
    (Hne : arm64xRelocs d <> [])
    (Hok : forallb (entry_okb symRVA chunkRVA) (arm64xRelocs d) = true)
    (Hsize : dr_chunkSize (dr_finalize symRVA chunkRVA d) < 2 ^ 32)
    (Hzero : forall x, table <= x < table + dr_chunkSize (dr_finalize symRVA chunkRVA d) -> m x = 0) :
  let f := dr_finalize symRVA chunkRVA d in
  Permutation (arm64xRelocs f) (arm64xRelocs d) /\
  StronglySorted (fun a b => ae_rva symRVA chunkRVA a <= ae_rva symRVA chunkRVA b) (arm64xRelocs f) /\
  exists M, dr_writeTo symRVA chunkRVA f table m = Some M /\
    (forall x, x < table \/ table + dr_chunkSize f <= x -> M x = m x) /\
    forall o sectionIndex sectionOffset,
      holds_table table o M (dr_chunkSize f) sectionIndex sectionOffset ->
      (forall e, e ∈ arm64xRelocs d -> rva_known symRVA chunkRVA o e) ->
      initDynamicRelocPtr o sectionIndex sectionOffset = Done (Some table) /\
      listed_relocs o table = Done [(6, map (shown symRVA chunkRVA) (arm64xRelocs f))].
Proof.
  destruct (final_entries_sorted symRVA chunkRVA d) as [Hp Hs]. split; [exact Hp|]. split; [exact Hs|].
  destruct (dr_chunk_written symRVA chunkRVA d table m Hne Hok Hsize Hzero) as (M & HM & Hw & Hok' & Hfr). exists M. split; [exact HM|]. split; [exact Hfr|].
  intros o si so Ho Hk. unfold final_entries in Hp. rewrite dr_finalize_eq in *. cbn [arm64xRelocs dr_chunkSize] in *.
  set (l := stable_sort _ _) in *. split.
  - eapply written_validates; [exact Hok'|exact Hw|exact Ho|]. intros e He. apply Hk. by rewrite <- Hp.
  - unfold listed_relocs. erewrite for_dynamic_written; [|exact Hok'|exact Hw|exact Ho].
    destruct (written_loads _ _ _ _ _ _ _ _ Hok' Hw Ho) as (_ & _ & _ & _ & _ & _ & _ & Hty). rewrite Hty. cbn [obind].
    erewrite (for_relocs_written _ _ table o M l si so Hok' Hw Ho _ (fun e acc => Done (acc ++ [shown symRVA chunkRVA e]))).
    + assert (Hof : forall l' acc, ofold (fun e acc => Done (acc ++ [shown symRVA chunkRVA e])) l' acc = Done (acc ++ map (shown symRVA chunkRVA) l')).
      { induction l' as [|e l' IH]; intros acc; cbn; [by rewrite app_nil_r|]. rewrite IH. by rewrite <- app_assoc. }
      rewrite Hof. done.
    + intros r e b Hin Ha. pose proof (ht_file _ _ _ _ _ _ Ho) as Hf.
      destruct (table_here _ _ _ _ _ _ _ _ Hok' Hw Ho) as (_ & H0 & Hs' & _). destruct (written_loads _ _ _ _ _ _ _ _ Hok' Hw Ho) as (_ & Hlast & _).
      assert (Hl' : table_begin table + read32le (o_data o) (table + 4) <= o_size o) by lia.
      rewrite (at_getType _ _ _ o Hf H0 Hl' r e Ha), (at_getSize _ _ _ o Hf H0 Hl' r e Ha), (at_getRVA _ _ _ o Hf H0 Hl' r e Ha), (at_getValue _ _ _ o Hf H0 Hl' r e Ha). done.
Qed.

(** ** The hybrid view *)

Section View.
  Context (symRVA chunkRVA : nat -> Z) (ptr : Arm64XDynamicRelocEntry -> Z).

Abbreviation entry := Arm64XDynamicRelocEntry.

(** The field an entry patches is at [ptr e] of the file: the headers by their
    offset, a section's data by the section table. *)
Definition placed (o : object_file) (e : entry) : Prop :=
  (if ae_rva symRVA chunkRVA e <? 4096 then ptr e = ae_rva symRVA chunkRVA e else getRvaPtr o (ae_rva symRVA chunkRVA e) = Done (ptr e)) /\
  0 <= ptr e /\ ptr e + ae_bytes e <= o_size o.

Definition apart (a b : entry) : Prop := ptr a + ae_bytes a <= ptr b \/ ptr b + ae_bytes b <= ptr a.

(** The value of the field in the EC view, from the native one. *)
Definition patched (m : mem) (e : entry) : Z :=
  match ae_type e with
  | ZEROFILL => 0
  | VALUE => wrap (8 * ae_size e) (rv_get symRVA chunkRVA (ae_value e))
  | DELTA => u32 (read32le m (ptr e) + ae_delta symRVA chunkRVA e)
  end.

Definition width (e : entry) : nat := Z.to_nat (ae_bytes e).

Definition patch (m : mem) (e : entry) : mem := write (width e) m (ptr e) (patched m e).

Lemma ae_bytes_pos e : entry_okb symRVA chunkRVA e = true -> 1 <= ae_bytes e <= 8.
Proof. intros (_ & _ & H)%entry_ok_split. unfold ae_bytes. destruct (ae_type e); lia. Qed.

Lemma patched_wrap m e : wrap (8 * Z.of_nat (width e)) (patched m e) = patched m e \/ ae_bytes e < 0.
Proof.
  destruct (Z.lt_ge_cases (ae_bytes e) 0); [by right|left]. unfold width. rewrite Z2Nat.id by done. unfold patched, ae_bytes in *.
  destruct (ae_type e); [apply Z.mod_0_l; pose proof (Z.pow_pos_nonneg 2 (8 * ae_size e)); lia| |]; rewrite wrap_wrap_le by lia; done.
Qed.

Lemma patch_read m e : entry_okb symRVA chunkRVA e = true -> read (width e) (patch m e) (ptr e) = patched m e.
Proof.
  intros Hok. pose proof (ae_bytes_pos e Hok). unfold patch. rewrite read_write. destruct (patched_wrap m e); [done|lia].
Qed.

Lemma patch_other m e x : entry_okb symRVA chunkRVA e = true -> ~ (ptr e <= x < ptr e + ae_bytes e) -> patch m e x = m x.
Proof. intros Hok Hx. pose proof (ae_bytes_pos e Hok). unfold patch, width. apply write_other. lia. Qed.

Lemma patched_ext m m' e : (forall x, ptr e <= x < ptr e + ae_bytes e -> m x = m' x) -> patched m e = patched m' e.
Proof.
  intros Hx. unfold patched, ae_bytes in *. destruct (ae_type e); [done..|]. do 2 f_equal. apply read_ext. intros k Hk. apply Hx. lia.
Qed.

Lemma patches_spec l : forall m, forallb (entry_okb symRVA chunkRVA) l = true -> ForallOrdPairs apart l ->
  let V := fold_left patch l m in
  (forall e, e ∈ l -> read (width e) V (ptr e) = patched m e) /\
  forall x, (forall e, e ∈ l -> ~ (ptr e <= x < ptr e + ae_bytes e)) -> V x = m x.
Proof.
  induction l as [|e l IH]; intros m Hok Ha; cbn [fold_left]; [split; [by intros ? ?%elem_of_nil|done]|].
  cbn [forallb] in Hok. apply andb_true_iff in Hok as [He Hl]. inversion Ha as [|? ? Hae Hal]; subst.
  destruct (IH (patch m e) Hl Hal) as [H1 H2]. rewrite Forall_forall in Hae. pose proof (ae_bytes_pos e He) as Hb.
  assert (Hfr : forall e', e' ∈ l -> forall x, ptr e <= x < ptr e + ae_bytes e -> ~ (ptr e' <= x < ptr e' + ae_bytes e')).
  { intros e' He' x Hx. destruct (Hae e' He'); lia. }
  split.
  - intros e' [->|Hin]%elem_of_cons.
    + rewrite <- (patch_read m e He). apply read_ext. intros k Hk. apply H2. intros e' Hin. apply Hfr; [done|]. unfold width in Hk. lia.
    + rewrite (H1 e' Hin). apply patched_ext. intros x Hx. apply patch_other; [done|]. intros Hx'. by apply (Hfr e' Hin x).
  - intros x Hx. rewrite H2; [|intros e' Hin; apply Hx; by right]. apply patch_other; [done|]. apply Hx. by left.
Qed.

Lemma apart_perm l l' : Permutation l l' -> ForallOrdPairs apart l -> ForallOrdPairs apart l'.
Proof.
  assert (Hsym : forall a b, apart a b -> apart b a) by (unfold apart; intros; lia).
  induction 1 as [|a l l' Hp IH|a b l|l l' l'' _ IH1 _ IH2]; intros H; [done| | |by apply IH2, IH1].
  - inversion H; subst. constructor; [|by apply IH]. by rewrite <- Hp.
  - inversion H as [|? ? Hb H']; subst. inversion H' as [|? ? Ha' H'']; subst. inversion Hb; subst.
    constructor; [constructor; [by apply Hsym|done]|constructor; done].
Qed.
End View.

Lemma store_in o n p v m : 0 <= p -> p + Z.of_nat n <= o_size o -> store o n p v m = Done (write n m p v).
Proof. intros H1 H2. unfold store, in_file. by rewrite (proj2 (Z.leb_le _ _) H1), (proj2 (Z.leb_le _ _) H2). Qed.

(** Writing depends on the low bytes of the value only. *)
Lemma write_wrap n : forall m p v, write n m p (wrap (8 * Z.of_nat n) v) = write n m p v.
Proof.
  induction n as [|n IH]; intros m p v; [done|].
  change (write n (upd m p (u8 (wrap (8 * Z.of_nat (S n)) v))) (p + 1) (wrap (8 * Z.of_nat (S n)) v / 2 ^ 8) =
    write n (upd m p (u8 v)) (p + 1) (v / 2 ^ 8)).
  assert (Hlo : u8 (wrap (8 * Z.of_nat (S n)) v) = u8 v) by (apply wrap_wrap_le; lia).
  assert (Hhi : wrap (8 * Z.of_nat (S n)) v / 2 ^ 8 = wrap (8 * Z.of_nat n) (v / 2 ^ 8)).
  { unfold wrap. replace (8 * Z.of_nat (S n)) with (8 + 8 * Z.of_nat n) by lia. rewrite Z.pow_add_r by lia.
    pose proof (Z.pow_pos_nonneg 2 (8 * Z.of_nat n) ltac:(lia) ltac:(lia)).
    rewrite Z.rem_mul_r by lia. rewrite (Z.mul_comm (2 ^ 8)), Z.div_add by lia. rewrite (Z.div_small (v mod 2 ^ 8)); [lia|]. apply Z.mod_pos_bound. lia. }
  rewrite Hlo, Hhi. apply IH.
Qed.

Section Apply.
  Context (symRVA chunkRVA : nat -> Z) (ptr : Arm64XDynamicRelocEntry -> Z) (o : object_file) (table : Z).
  Context (Hf : file_ok o) (H0 : 0 <= table) (Hlast : table_begin table + read32le (o_data o) (table + 4) <= o_size o).

Lemma apply_fixup_patch r e m : at_entry symRVA chunkRVA table o r e -> placed symRVA chunkRVA ptr o e ->
  apply_fixup o r m = Done (patch symRVA chunkRVA ptr m e).
Proof using Type Hf H0 Hlast.
  intros Ha (Hptr & Hp0 & Hp1). pose proof (at_ok _ _ _ _ _ _ Ha) as He. pose proof (ae_bytes_pos symRVA chunkRVA e He) as Hb.
  unfold apply_fixup. rewrite (at_getRVA _ _ _ o Hf H0 Hlast r e Ha). cbn [obind].
  assert (Hfp : fixup_ptr o (ae_rva symRVA chunkRVA e) = Done (ptr e)).
  { unfold fixup_ptr. apply entry_ok_split in He as (Hr & _ & _). set (v := ae_rva symRVA chunkRVA e) in *.
    assert (E : (v &&& Z.lnot 0xfff) = v - v mod 4096).
    { change (Z.lnot 0xfff) with (Z.lnot (Z.ones 12)). rewrite <- Z.ldiff_land, Z.ldiff_ones_r by lia.
      rewrite Z.shiftl_mul_pow2, Z.shiftr_div_pow2 by lia. change (2 ^ 12) with 4096. Z.div_mod_to_equations. lia. }
    rewrite E. destruct (Z.ltb_spec v 4096).
    - rewrite Z.mod_small by lia. rewrite Z.sub_diag. cbn. by rewrite Hptr.
    - rewrite (proj2 (Z.eqb_neq _ _)) by (Z.div_mod_to_equations; lia). cbn. by rewrite Hptr. }
  rewrite Hfp. cbn [obind]. rewrite (at_getType _ _ _ o Hf H0 Hlast r e Ha), (at_getValue _ _ _ o Hf H0 Hlast r e Ha), (at_getSize _ _ _ o Hf H0 Hlast r e Ha).
  unfold patch, patched, width, shown_value. unfold ae_bytes in *. destruct (ae_type e); cbn [obind fixup_code Z.eqb Pos.eqb]; rewrite store_in by lia; [done..|].
  f_equal. change (Z.to_nat 4) with 4%nat. rewrite <- (write_wrap 4 m (ptr e)). change (8 * Z.of_nat 4) with 32.
  rewrite <- (wrap_add_wrap_r 32) by lia. rewrite (wrap_wrap_le 32 64) by lia. by rewrite wrap_add_wrap_r by lia.
Qed.
End Apply.

(** C14: for an image whose relocation fields are apart, the hybrid view of the file that
    holds the chunk is the file with every field given the value of its entry
    (zeroes, the value or the sum), and every other byte as it was. *)
Theorem hybrid_view_patched (symRVA chunkRVA : nat -> Z) (d : DynamicRelocsChunk) (table : Z) (m : mem)
    (ptr : Arm64XDynamicRelocEntry -> Z)
    (Hne : arm64xRelocs d <> [])
    (Hok : forallb (entry_okb symRVA chunkRVA) (arm64xRelocs d) = true)
    (Hsize : dr_chunkSize (dr_finalize symRVA chunkRVA d) < 2 ^ 32)
    (Hzero : forall x, table <= x < table + dr_chunkSize (dr_finalize symRVA chunkRVA d) -> m x = 0)
    (Hapart : ForallOrdPairs (apart ptr) (arm64xRelocs d)) :
  let f := dr_finalize symRVA chunkRVA d in
  exists M, dr_writeTo symRVA chunkRVA f table m = Some M /\
    forall o sectionIndex sectionOffset,
      holds_table table o M (dr_chunkSize f) sectionIndex sectionOffset ->
      (forall e, e ∈ arm64xRelocs d -> rva_known symRVA chunkRVA o e /\ placed symRVA chunkRVA ptr o e) ->
      exists V, (let! t := initDynamicRelocPtr o sectionIndex sectionOffset in getHybridObjectView o true t) = Done (Some V) /\
        (forall e, e ∈ arm64xRelocs d -> read (Z.to_nat (ae_bytes e)) V (ptr e) = patched symRVA chunkRVA ptr (o_data o) e) /\
        forall x, (forall e, e ∈ arm64xRelocs d -> ~ (ptr e <= x < ptr e + ae_bytes e)) -> V x = o_data o x.
Proof.
  cbn zeta. destruct (final_entries_sorted symRVA chunkRVA d) as [Hp _].
  destruct (dr_chunk_written symRVA chunkRVA d table m Hne Hok Hsize Hzero) as (M & HM & Hw & Hok' & _). exists M. split; [exact HM|].
  intros o si so Ho Hk. unfold final_entries in Hp. rewrite dr_finalize_eq in *. cbn [arm64xRelocs dr_chunkSize] in *.
  set (l := stable_sort _ _) in *. pose proof (apart_perm ptr _ _ (Permutation_sym Hp) Hapart) as Ha.
  rewrite (written_validates _ _ _ _ _ _ _ _ Hok' Hw Ho) by (intros e He; apply Hk; by rewrite <- Hp). cbn [obind].
  pose proof (ht_file _ _ _ _ _ _ Ho) as Hf. destruct (table_here _ _ _ _ _ _ _ _ Hok' Hw Ho) as (_ & H0 & Hs' & _).
  destruct (written_loads _ _ _ _ _ _ _ _ Hok' Hw Ho) as (_ & Hlast & _ & _ & _ & _ & _ & Hty).
  assert (Hl' : table_begin table + read32le (o_data o) (table + 4) <= o_size o) by lia.
  destruct (patches_spec symRVA chunkRVA ptr l (o_data o) Hok' Ha) as [H1 H2].
  exists (fold_left (patch symRVA chunkRVA ptr) l (o_data o)). split; [|split; [intros e He; apply H1; by rewrite Hp|intros x Hx; apply H2; intros e He; apply Hx; by rewrite <- Hp]].
  unfold getHybridObjectView. erewrite for_dynamic_written; [|exact Hok'|exact Hw|exact Ho]. rewrite Hty. cbn [obind negb].
  unfold IMAGE_DYNAMIC_RELOCATION_ARM64X. cbn [Z.eqb Pos.eqb negb].
  erewrite (for_relocs_written _ _ table o M l si so Hok' Hw Ho _ (fun e v => Done (Some (patch symRVA chunkRVA ptr (default (o_data o) v) e)))).
  - assert (Hof : forall l' e v, ofold (fun e v => Done (Some (patch symRVA chunkRVA ptr (default (o_data o) v) e))) (e :: l') v =
      Done (Some (fold_left (patch symRVA chunkRVA ptr) (e :: l') (default (o_data o) v)))).
    { induction l' as [|e' l' IH]; intros e v; [done|]. cbn [ofold obind] in *. by rewrite IH. }
    destruct l as [|e l']; [by apply Permutation_nil in Hp|]. by rewrite Hof.
  - intros r e v Hin Hat. rewrite (apply_fixup_patch symRVA chunkRVA ptr o table Hf H0 Hl' r e _ Hat); [done|]. apply Hk. by rewrite <- Hp.
Qed.

(** ** An image *)

Lemma ae_writeTo_ok symRVA chunkRVA e buf m m' : mem_ok m -> Arm64X.ae_writeTo symRVA chunkRVA e buf m = Some m' -> mem_ok m'.
Proof.
  intros Hm. unfold Arm64X.ae_writeTo, or16. destruct (ae_type e).
  - intros [= <-]. auto with word.
  - repeat case_match; intros [= <-]; auto with word.
  - destruct (_ <? 0), (_ =? 0); intros [= <-]; auto 10 with word.
Qed.

Lemma dr_write_entries_ok symRVA chunkRVA buf l : forall m ph rs m' ph' rs', mem_ok m ->
  dr_write_entries symRVA chunkRVA buf (m, ph, rs) l = Some (m', ph', rs') -> mem_ok m'.
Proof.
  induction l as [|e l IH]; intros m ph rs m' ph' rs' Hm; cbn [dr_write_entries]; [by intros [= <- _ _]|].
  unfold dr_write_step. set (b := match ph with Some _ => _ | None => _ end).
  destruct b, ph as [h|]; cbn iota beta; (destruct (Arm64X.ae_writeTo _ _ _ _ _) as [m1|] eqn:E; [|done]); cbn [mbind option_bind];
    intros Hw; (eapply IH; [|exact Hw]); (eapply ae_writeTo_ok; [|exact E]); auto 10 with word.
Qed.

Lemma dr_writeTo_ok symRVA chunkRVA d table m M : mem_ok m -> dr_writeTo symRVA chunkRVA d table m = Some M -> mem_ok M.
Proof.
  intros Hm. unfold dr_writeTo. destruct (dr_write_entries _ _ _ _ _) as [[[m' ph] rs]|] eqn:E; [|done]. cbn [mbind option_bind].
  destruct ph as [h|]; [|done]. intros [= <-]. apply dr_write_entries_ok in E; auto 10 with word.
Qed.

Definition view_demo_sections : list coff_section :=
  [{| sn_Name := []; sn_VirtualSize := 0x100; sn_VirtualAddress := 0x1000; sn_SizeOfRawData := 0x200; sn_PointerToRawData := 0x200; sn_Characteristics := 0 |};
   {| sn_Name := []; sn_VirtualSize := 0x180; sn_VirtualAddress := 0x2000; sn_SizeOfRawData := 0x200; sn_PointerToRawData := 0x400; sn_Characteristics := 0 |};
   {| sn_Name := []; sn_VirtualSize := 0x100; sn_VirtualAddress := 0x3000; sn_SizeOfRawData := 0x200; sn_PointerToRawData := 0x600; sn_Characteristics := 0 |}].

Definition view_demo_file (M : mem) : object_file :=
  {| o_data := M; o_size := 0x800; o_is64 := true; o_dosHeader := true; o_sections := view_demo_sections |}.

Definition view_demo_rva (c : nat) : Z := 0x2000 + 0x10 * Z.of_nat c.

(** The machine, an entry point, an import of the EC view, its terminator, and the
    start of a lookup table, in two pages. *)
Definition view_demo : DynamicRelocsChunk :=
  {| arm64xRelocs :=
       [fixup VALUE 8 (rv_of_chunk (Some 4%nat) 0) (rv_of_chunk (Some 6%nat) 0);
        fixup ZEROFILL 8 (rv_of_chunk (Some 4%nat) 8) (rv_const 0);
        fixup DELTA 0 (rv_of_chunk (Some 2%nat) 4) (rv_const (-24));
        fixup VALUE 2 (rv_const 0x84) (rv_const AMD64);
        fixup VALUE 4 (rv_const 0xa8) (rv_of_sym (Some 1%nat) 0)]; dr_chunkSize := 0 |}.

Definition view_demo_sym (s : nat) : Z := 0x1000.

Definition view_demo_ptr (e : Arm64XDynamicRelocEntry) : Z :=
  let rva := ae_rva view_demo_sym view_demo_rva e in if rva <? 4096 then rva else rva - 0x2000 + 0x400.

Lemma view_demo_file_ok M : mem_ok M -> file_ok (view_demo_file M).
Proof. intros Hm. constructor; [done|done|]. repeat constructor; done. Qed.

Lemma view_demo_holds M : mem_ok M -> holds_table 0x600 (view_demo_file M) M (dr_chunkSize (dr_finalize view_demo_sym view_demo_rva view_demo)) 3 0.
Proof.
  intros Hm. constructor; [by apply view_demo_file_ok|done|done|].
  exists {| sn_Name := []; sn_VirtualSize := 0x100; sn_VirtualAddress := 0x3000; sn_SizeOfRawData := 0x200; sn_PointerToRawData := 0x600; sn_Characteristics := 0 |}, 0x600, 0x100.
  split_and!; done.
Qed.

Lemma view_demo_known M e : e ∈ arm64xRelocs view_demo -> rva_known view_demo_sym view_demo_rva (view_demo_file M) e.
Proof.
  intros He. unfold rva_known. repeat (apply elem_of_cons in He as [->|He]; [intros Hp; first [by vm_compute in Hp|by eexists]|]). by apply elem_of_nil in He.
Qed.

Lemma view_demo_placed M e : e ∈ arm64xRelocs view_demo -> placed view_demo_sym view_demo_rva view_demo_ptr (view_demo_file M) e.
Proof.
  intros He. repeat (apply elem_of_cons in He as [->|He]; [unfold placed; split_and!; [done| |]; vm_compute; congruence|]). by apply elem_of_nil in He.
Qed.

Lemma dynamic_relocs_roundtrip_witness :
  exists M, dr_writeTo view_demo_sym view_demo_rva (dr_finalize view_demo_sym view_demo_rva view_demo) 0x600 (fun _ => 0) = Some M /\
    initDynamicRelocPtr (view_demo_file M) 3 0 = Done (Some 0x600) /\
    listed_relocs (view_demo_file M) 0x600 =
      Done [(6, [(1, 2, 0x84, 0x8664); (1, 4, 0xa8, 0x1000); (2, 4, 0x2024, 2 ^ 64 - 24); (1, 8, 0x2040, 0x2060); (0, 8, 0x2048, 0)])].
Proof.
  destruct (dynamic_relocs_roundtrip view_demo_sym view_demo_rva view_demo 0x600 (fun _ => 0)) as (_ & _ & M & HM & _ & Hread).
  - done.
  - vm_compute. reflexivity.
  - vm_compute. reflexivity.
  - done.
  - exists M. split; [exact HM|]. assert (Hm : mem_ok M) by (eapply dr_writeTo_ok; [|exact HM]; intros x; split; lia).
    destruct (Hread (view_demo_file M) 3 0 (view_demo_holds M Hm) (fun e He => view_demo_known M e He)) as [H1 H2].
    split; [exact H1|]. rewrite H2. vm_compute. reflexivity.
Defined.

Lemma hybrid_view_patched_witness :
  exists M, dr_writeTo view_demo_sym view_demo_rva (dr_finalize view_demo_sym view_demo_rva view_demo) 0x600 (fun _ => 0) = Some M /\
    exists V, (let! t := initDynamicRelocPtr (view_demo_file M) 3 0 in getHybridObjectView (view_demo_file M) true t) = Done (Some V) /\
      read16le V 0x84 = 0x8664 /\ read32le V 0xa8 = 0x1000 /\ read64le V 0x440 = 0x2060 /\ read64le V 0x448 = 0.
Proof.
  destruct (hybrid_view_patched view_demo_sym view_demo_rva view_demo 0x600 (fun _ => 0) view_demo_ptr) as (M & HM & Hview).
  - done.
  - vm_compute. reflexivity.
  - vm_compute. reflexivity.
  - done.
  - repeat (apply FOP_cons; [repeat (apply List.Forall_cons; [(left; vm_compute; congruence) || (right; vm_compute; congruence)|]); apply List.Forall_nil|]).
    apply FOP_nil.
  - exists M. split; [exact HM|]. assert (Hm : mem_ok M) by (eapply dr_writeTo_ok; [|exact HM]; intros x; split; lia).
    destruct (Hview (view_demo_file M) 3 0 (view_demo_holds M Hm) (fun e He => conj (view_demo_known M e He) (view_demo_placed M e He))) as (V & HV & Hf & _).
    exists V. split; [exact HV|].
    pose proof (Hf _ (list_elem_of_lookup_2 (arm64xRelocs view_demo) 3 _ eq_refl)) as F1.
    pose proof (Hf _ (list_elem_of_lookup_2 (arm64xRelocs view_demo) 4 _ eq_refl)) as F2.
    pose proof (Hf _ (list_elem_of_lookup_2 (arm64xRelocs view_demo) 0 _ eq_refl)) as F3.
    pose proof (Hf _ (list_elem_of_lookup_2 (arm64xRelocs view_demo) 1 _ eq_refl)) as F4.
    split; [exact F1|]. split; [exact F2|]. split; [exact F3|exact F4].
Defined.
