(* ===== verification/StringRef.v ===== *)
(** * Strings as the parsers of options and definition files use them
      (llvm/lib/Support/StringRef.cpp, llvm/ADT/StringRef.h)

    Splitting, trimming, and the numbers of [getAsInteger], whose overflow check
    is that of the code; then what they compute, in terms of unbounded integers. *)

From S2P Require Import Prelude.

#[local] Open Scope string_scope.
#[local] Open Scope list_scope.
#[local] Open Scope Z_scope.

(** ** Characters and sets of characters *)

Definition code (c : Ascii.ascii) : Z := Z.of_nat (Ascii.nat_of_ascii c).

Fixpoint has_char (set : string) (c : Ascii.ascii) : bool :=
  match set with EmptyString => false | String d set => Ascii.eqb d c || has_char set c end.

Definition chars (l : list nat) : string := fold_right (fun n s => String (Ascii.ascii_of_nat n) s) "" l.
(** [" \t\n\v\f\r"], the default of [trim]. *)
Definition whitespace : string := chars [32; 9; 10; 11; 12; 13]%nat.

Fixpoint str_all (p : Ascii.ascii -> bool) (s : string) : bool :=
  match s with EmptyString => true | String c s => p c && str_all p s end.
Fixpoint str_any (p : Ascii.ascii -> bool) (s : string) : bool :=
  match s with EmptyString => false | String c s => p c || str_any p s end.

(** The longest prefix of characters satisfying [p], and what follows it:
    [substr(0, End)] and [drop_front(End)] for the [End] of [find_first_of]. *)
Fixpoint span (p : Ascii.ascii -> bool) (s : string) : string * string :=
  match s with
  | EmptyString => ("", "")
  | String c s' => if p c then let '(a, b) := span p s' in (String c a, b) else ("", s)
  end.

Definition ltrim (set s : string) : string := (span (has_char set) s).2.
Fixpoint rtrim (set s : string) : string :=
  match s with
  | EmptyString => ""
  | String c s =>
      match rtrim set s with
      | EmptyString => if has_char set c then "" else String c ""
      | r => String c r
      end
  end.
Definition trim (s : string) : string := rtrim whitespace (ltrim whitespace s).

(** [split(c)]: around the first [c]; no second part when there is none. *)
Fixpoint split (c : Ascii.ascii) (s : string) : string * string :=
  match s with
  | EmptyString => ("", "")
  | String d s => if Ascii.eqb d c then ("", s) else let '(a, b) := split c s in (String d a, b)
  end.

Definition starts_with_insensitive (p s : string) : bool :=
  (String.length p <=? String.length s)%nat && equals_insensitive (str_take (String.length p) s) p.

(** ** Numbers *)

Definition is_digit (c : Ascii.ascii) : bool := (48 <=? code c) && (code c <=? 57).

Definition getAutoSenseRadix (Str : string) : Z * string :=
  if String.eqb Str "" then (10, Str)
  else if starts_with_insensitive "0x" Str then (16, str_drop 2 Str)
  else if starts_with_insensitive "0b" Str then (2, str_drop 2 Str)
  else if starts_with "0o" Str then (8, str_drop 2 Str)
  else match Str with
       | String z (String d _ as s) => if (code z =? 48) && is_digit d then (8, s) else (10, Str)
       | _ => (10, Str)
       end.

Definition char_val (c : Ascii.ascii) : option Z :=
  if is_digit c then Some (code c - 48)
  else if (97 <=? code c) && (code c <=? 122) then Some (code c - 97 + 10)
  else if (65 <=? code c) && (code c <=? 90) then Some (code c - 65 + 10)
  else None.

(** The loop over the characters; [None] when bits were lost. *)
Fixpoint consume_digits (Radix : Z) (Str2 : string) (Result : Z) : option (Z * string) :=
  match Str2 with
  | EmptyString => Some (Result, Str2)
  | String c s =>
      match char_val c with
      | None => Some (Result, Str2)
      | Some CharVal =>
          if Radix <=? CharVal then Some (Result, Str2)
          else
            let r := u64 (Result * Radix + CharVal) in
            if r / Radix <? Result then None else consume_digits Radix s r
      end
  end.

Definition consumeUnsignedInteger (Str : string) (Radix : Z) : option (Z * string) :=
  let '(Radix, Str) := if Radix =? 0 then getAutoSenseRadix Str else (Radix, Str) in
  if String.eqb Str "" then None
  else match consume_digits Radix Str 0 with
       | Some (r, Str2) => if (String.length Str =? String.length Str2)%nat then None else Some (r, Str2)
       | None => None
       end.

Definition consumeSignedInteger (Str : string) (Radix : Z) : option (Z * string) :=
  if negb (starts_with "-" Str) then
    match consumeUnsignedInteger Str Radix with
    | Some (u, rest) => if s64 u <? 0 then None else Some (s64 u, rest)
    | None => None
    end
  else
    match consumeUnsignedInteger (str_drop 1 Str) Radix with
    | Some (u, rest) => if 0 <? s64 (u64 (- u)) then None else Some (s64 (u64 (- u)), rest)
    | None => None
    end.

(** The whole string must be consumed. *)
Definition whole (r : option (Z * string)) : option Z :=
  match r with Some (v, rest) => if String.eqb rest "" then Some v else None | None => None end.
Definition getAsUnsignedInteger (Str : string) (Radix : Z) : option Z := whole (consumeUnsignedInteger Str Radix).
Definition getAsSignedInteger (Str : string) (Radix : Z) : option Z := whole (consumeSignedInteger Str Radix).

(** [getAsInteger(Radix, Result)] for an unsigned and a signed type of [w]
    bits; [None] when the call reports an error. *)
Definition getAsInteger (w Radix : Z) (Str : string) : option Z :=
  match getAsUnsignedInteger Str Radix with
  | Some v => if wrap w v =? v then Some v else None
  | None => None
  end.
Definition getAsInteger_signed (w Radix : Z) (Str : string) : option Z :=
  match getAsSignedInteger Str Radix with
  | Some v => if sext w v =? v then Some v else None
  | None => None
  end.

(** [raw_ostream << n] for an unsigned [n]; [fuel] digits at most. *)
Fixpoint dec_digits (fuel : nat) (n : Z) (acc : string) : string :=
  match fuel with
  | O => acc
  | S fuel =>
      let acc := String (Ascii.ascii_of_nat (Z.to_nat (48 + n mod 10))) acc in
      if n <? 10 then acc else dec_digits fuel (n / 10) acc
  end.
Definition print_dec (n : Z) : string := dec_digits 20 n "".

(** ** What the numbers are

    The value of a string of digits, unbounded. *)
Definition digit_of (Radix : Z) (c : Ascii.ascii) : option Z :=
  match char_val c with Some d => if Radix <=? d then None else Some d | None => None end.

Fixpoint digits_value (Radix : Z) (s : string) (acc : Z) : Z * string :=
  match s with
  | EmptyString => (acc, "")
  | String c s' =>
      match digit_of Radix c with Some d => digits_value Radix s' (acc * Radix + d) | None => (acc, s) end
  end.

Lemma code_range c : 0 <= code c < 256.
Proof. unfold code. pose proof (Ascii.nat_ascii_bounded c). lia. Qed.

Lemma char_val_nonneg c d : char_val c = Some d -> 0 <= d.
Proof.
  unfold char_val, is_digit.
  destruct ((48 <=? code c) && (code c <=? 57)) eqn:E1; [|destruct ((97 <=? code c) && (code c <=? 122)) eqn:E2;
    [|destruct ((65 <=? code c) && (code c <=? 90)) eqn:E3; [|done]]];
    intros [= <-]; apply andb_true_iff in E1 || apply andb_true_iff in E2 || apply andb_true_iff in E3; lia.
Qed.

Lemma digits_value_mono Radix s acc : 1 <= Radix -> 0 <= acc -> acc <= (digits_value Radix s acc).1.
Proof.
  intros HR. revert acc. induction s as [|c s IH]; intros acc Ha; cbn; [lia|].
  unfold digit_of. destruct (char_val c) as [d|] eqn:Ed; [|cbn; lia]. apply char_val_nonneg in Ed.
  destruct (Z.leb_spec Radix d); [cbn; lia|]. etrans; [|apply IH; nia]. nia.
Qed.

(** The check of the code finds every overflow of 64 bits, and no other. *)
Lemma consume_digits_exact Radix s acc : 2 <= Radix <= 36 -> 0 <= acc < 2 ^ 64 ->
  consume_digits Radix s acc =
  if (digits_value Radix s acc).1 <? 2 ^ 64 then Some (digits_value Radix s acc) else None.
Proof.
  intros HR. revert acc. induction s as [|c s IH]; intros acc Ha; cbn -[Z.pow wrap].
  { by rewrite (proj2 (Z.ltb_lt _ _)) by lia. }
  unfold digit_of. destruct (char_val c) as [d|] eqn:Ed; [|cbn -[Z.pow]; by rewrite (proj2 (Z.ltb_lt _ _)) by lia].
  apply char_val_nonneg in Ed. destruct (Z.leb_spec Radix d); [cbn -[Z.pow]; by rewrite (proj2 (Z.ltb_lt _ _)) by lia|].
  destruct (Z.ltb_spec (acc * Radix + d) (2 ^ 64)) as [Hlt|Hge].
  - rewrite wrap_small by (split; nia). rewrite Z.div_add_l, Z.div_small by lia.
    rewrite Z.add_0_r, Z.ltb_irrefl. apply IH. nia.
  - assert (u64 (acc * Radix + d) / Radix < acc) as Hov.
    { apply Z.div_lt_upper_bound; [lia|]. unfold wrap. rewrite Z.mod_eq by done.
      assert (1 <= (acc * Radix + d) / 2 ^ 64) by (apply Z.div_le_lower_bound; lia). nia. }
    apply Z.ltb_lt in Hov as ->.
    pose proof (digits_value_mono Radix s (acc * Radix + d) ltac:(lia) ltac:(nia)).
    by rewrite (proj2 (Z.ltb_ge _ _)) by lia.
Qed.

Lemma digits_value_rest Radix s acc : (String.length (digits_value Radix s acc).2 <= String.length s)%nat.
Proof.
  revert acc. induction s as [|c s IH]; intros acc; cbn; [done|]. destruct (digit_of Radix c); cbn; [|lia].
  etrans; [apply IH|]. lia.
Qed.

(** All of the string is digits. *)
Fixpoint all_digits (Radix : Z) (s : string) : bool :=
  match s with
  | EmptyString => true
  | String c s => match digit_of Radix c with Some _ => all_digits Radix s | None => false end
  end.
Definition value (Radix : Z) (s : string) : Z := (digits_value Radix s 0).1.

Lemma digits_value_all Radix s acc : ((digits_value Radix s acc).2 = "") <-> all_digits Radix s = true.
Proof.
  revert acc. induction s as [|c s IH]; intros acc; cbn; [done|]. destruct (digit_of Radix c); cbn; [apply IH|done].
Qed.

Lemma getAsUnsigned_spec Radix s v : 2 <= Radix <= 36 ->
  getAsUnsignedInteger s Radix = Some v <-> s <> "" /\ all_digits Radix s = true /\ v = value Radix s /\ v < 2 ^ 64.
Proof.
  intros HR. unfold getAsUnsignedInteger, consumeUnsignedInteger, value. rewrite (proj2 (Z.eqb_neq Radix 0)) by lia.
  destruct (String.eqb_spec s "") as [->|Hne]; [cbn; naive_solver|].
  rewrite consume_digits_exact by lia. rewrite <- (digits_value_all Radix s 0).
  destruct (digits_value Radix s 0) as [x rest] eqn:E. cbn -[Z.pow]. destruct (Z.ltb_spec x (2 ^ 64)).
  - destruct (Nat.eqb_spec (String.length s) (String.length rest)) as [El|El]; cbn -[Z.pow].
    + split; [done|]. intros (_ & -> & _). by destruct s.
    + destruct (String.eqb_spec rest ""); naive_solver.
  - cbn -[Z.pow]. split; [done|]. intros (_ & _ & -> & ?). lia.
Qed.

(** [getAsInteger] of an unsigned type gives the number the string is, and
    reports every string that is no number or does not fit. *)
Lemma getAsInteger_spec w Radix s v : 0 <= w <= 64 -> 2 <= Radix <= 36 ->
  getAsInteger w Radix s = Some v <-> s <> "" /\ all_digits Radix s = true /\ v = value Radix s /\ v < 2 ^ w.
Proof.
  intros Hw HR. unfold getAsInteger.
  assert (2 ^ w <= 2 ^ 64) by (apply Z.pow_le_mono_r; lia).
  assert (0 <= value Radix s) by (unfold value; etrans; [|apply digits_value_mono]; lia).
  destruct (getAsUnsignedInteger s Radix) as [x|] eqn:E.
  - apply getAsUnsigned_spec in E as (Hne & Hd & -> & Hx); [|lia].
    destruct (Z.eqb_spec (wrap w (value Radix s)) (value Radix s)) as [Ew|Ew].
    + split; [intros [= <-]|naive_solver]. split_and!; try done. rewrite <- Ew. apply Z.mod_pos_bound. lia.
    + split; [done|]. intros (_ & _ & -> & Hlt). destruct Ew. by apply wrap_small.
  - split; [done|]. intros (Hne & Hd & -> & Hlt). 
    assert (getAsUnsignedInteger s Radix = Some (value Radix s)); [|congruence].
    apply getAsUnsigned_spec; [lia|]. split_and!; try done. lia.
Qed.

(** A printed number reads back. *)
Lemma digit_of_dec d : 0 <= d < 10 -> digit_of 10 (Ascii.ascii_of_nat (Z.to_nat (48 + d))) = Some d.
Proof.
  intros Hd. unfold digit_of, char_val, is_digit, code. rewrite Ascii.nat_ascii_embedding by lia. rewrite Z2Nat.id by lia.
  rewrite (proj2 (Z.leb_le 48 (48 + d))), (proj2 (Z.leb_le (48 + d) 57)) by lia. cbn [andb].
  replace (48 + d - 48) with d by lia. by rewrite (proj2 (Z.leb_gt 10 d)) by lia.
Qed.

Lemma dec_digits_value fuel n s : 0 <= n < 10 ^ Z.of_nat fuel -> (0 < fuel)%nat ->
  all_digits 10 (dec_digits fuel n s) = all_digits 10 s /\
  digits_value 10 (dec_digits fuel n s) 0 = digits_value 10 s n.
Proof.
  revert n s. induction fuel as [|fuel IH]; intros n s Hn Hf; [lia|]. cbn [dec_digits].
  assert (Hm : 0 <= n mod 10 < 10) by (apply Z.mod_pos_bound; lia).
  destruct (Z.ltb_spec n 10) as [Hlt|Hge].
  - cbn [all_digits digits_value]. rewrite digit_of_dec by done. rewrite Z.mod_small by lia. done.
  - rewrite Nat2Z.inj_succ, Z.pow_succ_r in Hn by lia.
    destruct fuel as [|fuel]; [change (10 ^ Z.of_nat 0) with 1 in Hn; lia|].
    assert (Hq : 0 <= n / 10 < 10 ^ Z.of_nat (S fuel)) by (split; [apply Z.div_pos|apply Z.div_lt_upper_bound]; lia).
    destruct (IH (n / 10) (String (Ascii.ascii_of_nat (Z.to_nat (48 + n mod 10))) s) Hq ltac:(lia)) as [-> ->].
    cbn [all_digits digits_value]. rewrite digit_of_dec by done. split; [done|]. f_equal.
    pose proof (Z.div_mod n 10). lia.
Qed.

Lemma dec_digits_nonempty fuel n s : (0 < fuel)%nat \/ s <> "" -> dec_digits fuel n s <> "".
Proof.
  revert n s. induction fuel as [|fuel IH]; intros n s H; cbn; [destruct H; [lia|done]|].
  case_match; [done|]. apply IH. by right.
Qed.

Lemma print_dec_roundtrip w n : 0 <= w <= 64 -> 0 <= n < 2 ^ w -> getAsInteger w 10 (print_dec n) = Some n.
Proof.
  intros Hw Hn. assert (2 ^ w <= 2 ^ 64) by (apply Z.pow_le_mono_r; lia).
  destruct (dec_digits_value 20 n "") as [Ha Hv]; [|lia|].
  { change (10 ^ Z.of_nat 20) with 100000000000000000000. lia. }
  apply getAsInteger_spec; [lia..|]. unfold value, print_dec. rewrite Ha, Hv. split_and!; try done; [|lia].
  apply dec_digits_nonempty. lia.
Qed.

(** ** Parts of strings *)

Lemma str_app_cons c a b : (String c a ++ b)%string = String c (a ++ b).
Proof. done. Qed.

Lemma str_app_nil s : (s ++ "")%string = s.
Proof. induction s as [|c s IH]; [done|]. by rewrite str_app_cons, IH. Qed.

Lemma str_app_assoc a b c : ((a ++ b) ++ c)%string = (a ++ (b ++ c))%string.
Proof. induction a as [|x a IH]; [done|]. by rewrite !str_app_cons, IH. Qed.

Lemma str_length_app a b : String.length (a ++ b)%string = (String.length a + String.length b)%nat.
Proof. induction a as [|c a IH]; [done|]. rewrite str_app_cons. cbn. by rewrite IH. Qed.

Lemma span_app p s : let '(a, b) := span p s in s = (a ++ b)%string.
Proof.
  induction s as [|c s IH]; [done|]. cbn. destruct (p c); [|done]. destruct (span p s) as [a b]. cbn. by rewrite IH.
Qed.

Lemma span_length p s : (String.length (span p s).2 <= String.length s)%nat.
Proof.
  induction s as [|c s IH]; cbn; [done|]. destruct (p c); cbn; [|lia]. destruct (span p s). cbn in *. lia.
Qed.

Lemma rtrim_length set s : (String.length (rtrim set s) <= String.length s)%nat.
Proof.
  induction s as [|c s IH]; cbn; [done|]. destruct (rtrim set s); [destruct (has_char set c); cbn; lia|].
  cbn in *. lia.
Qed.

Lemma trim_length s : (String.length (trim s) <= String.length s)%nat.
Proof. unfold trim, ltrim. etrans; [apply rtrim_length|apply span_length]. Qed.

Lemma split_length c s : (String.length (split c s).2 <= String.length s)%nat.
Proof.
  induction s as [|d s IH]; cbn; [done|]. destruct (Ascii.eqb d c); cbn; [lia|]. destruct (split c s). cbn in *. lia.
Qed.

(** Trimmed strings do not start with white space. *)
Lemma ltrim_head set s c r : ltrim set s = String c r -> has_char set c = false.
Proof.
  unfold ltrim. induction s as [|d s IH]; cbn; [done|]. destruct (has_char set d) eqn:E.
  - intros H. apply IH. by destruct (span _ s).
  - cbn. intros [= <- <-]. done.
Qed.

Lemma rtrim_head set s c r : rtrim set s = String c r -> exists s', s = String c s'.
Proof.
  destruct s as [|d s]; cbn; [done|]. destruct (rtrim set s); [destruct (has_char set d); [done|]|];
    intros [= <- _]; by eexists.
Qed.

Lemma trim_head s c r : trim s = String c r -> has_char whitespace c = false.
Proof. intros [s' H]%rtrim_head. by eapply ltrim_head. Qed.

Lemma str_all_app p a b : str_all p (a ++ b)%string = str_all p a && str_all p b.
Proof. induction a as [|c a IH]; [done|]. rewrite str_app_cons. cbn. by rewrite IH, andb_assoc. Qed.

Lemma str_all_impl (p q : Ascii.ascii -> bool) s : (forall c, p c = true -> q c = true) -> str_all p s = true -> str_all q s = true.
Proof. intros H. induction s as [|c s IH]; [done|]. cbn. rewrite !andb_true_iff. naive_solver. Qed.

Lemma str_all_take p n s : str_all p s = true -> str_all p (str_take n s) = true.
Proof.
  revert s. induction n as [|n IH]; intros [|c s]; cbn; try done. intros [-> H]%andb_true_iff. by rewrite IH.
Qed.

Lemma str_all_drop p n s : str_all p s = true -> str_all p (str_drop n s) = true.
Proof. revert s. induction n as [|n IH]; intros [|c s]; cbn; try done. intros [_ H]%andb_true_iff. by apply IH. Qed.

Lemma str_take_length n s : (String.length (str_take n s) <= String.length s)%nat.
Proof. revert s. induction n as [|n IH]; intros [|c s]; cbn; try lia. specialize (IH s). lia. Qed.

Lemma str_drop_length n s : (String.length (str_drop n s) = String.length s - n)%nat.
Proof. revert s. induction n as [|n IH]; intros [|c s]; cbn [str_drop String.length Nat.sub]; auto using Nat.sub_0_r. Qed.

Lemma starts_with_cons a p c s :
  starts_with (String a p) (String c s) = if Ascii.ascii_dec a c then starts_with p s else false.
Proof. done. Qed.

Lemma starts_with_first a b s : starts_with (String a "") s = true -> starts_with (String b "") s = true -> a = b.
Proof.
  destruct s as [|c s]; [done|]. rewrite !starts_with_cons. by destruct (Ascii.ascii_dec a c), (Ascii.ascii_dec b c); subst.
Qed.

(** ** Trimming *)

Lemma span_rest p c s : (span p (String c s)).2 = if p c then (span p s).2 else String c s.
Proof. cbn. destruct (p c); [|done]. by destruct (span p s). Qed.

Lemma rtrim_cons set c s :
  rtrim set (String c s) = if String.eqb (rtrim set s) "" && has_char set c then "" else String c (rtrim set s).
Proof. cbn. by destruct (rtrim set s). Qed.

Lemma rtrim_idem set s : rtrim set (rtrim set s) = rtrim set s.
Proof.
  induction s as [|c s IH]; [done|]. rewrite rtrim_cons. destruct (String.eqb (rtrim set s) "" && has_char set c) eqn:E; [done|].
  by rewrite rtrim_cons, IH, E.
Qed.

Lemma ltrim_rtrim set s : ltrim set (rtrim set s) = rtrim set (ltrim set s).
Proof.
  unfold ltrim. induction s as [|c s IH]; [done|]. rewrite span_rest, rtrim_cons. destruct (has_char set c) eqn:Ec.
  - rewrite <- IH. destruct (String.eqb_spec (rtrim set s) "") as [->|]; [done|]. cbn [andb]. by rewrite span_rest, Ec.
  - rewrite andb_false_r, span_rest, Ec, rtrim_cons. by rewrite Ec, andb_false_r.
Qed.

Lemma trim_rtrim s : trim (rtrim whitespace s) = trim s.
Proof. unfold trim. by rewrite ltrim_rtrim, rtrim_idem. Qed.
