(* ===== verification/CommandLine.v ===== *)
(** * Command lines (llvm/lib/Support/CommandLine.cpp, Windows/Program.inc)

    The tokenizer the linker uses for its environment, response files and the
    directives of objects, and the quoting LLVM uses when it starts a program; the
    tokenizer always ends, and undoes the quoting. *)

From S2P Require Import Prelude StringRef.

#[local] Open Scope string_scope.
#[local] Open Scope list_scope.
#[local] Open Scope Z_scope.

(** ** The tokenizer *)

Definition tok_isWhitespace (C : Ascii.ascii) : bool :=
  (code C =? 32) || (code C =? 9) || (code C =? 13) || (code C =? 10).
Definition isWhitespaceOrNull (C : Ascii.ascii) : bool := tok_isWhitespace C || (code C =? 0).
Definition isWindowsSpecialChar (C : Ascii.ascii) : bool :=
  isWhitespaceOrNull C || (code C =? 92) || (code C =? 34).
Definition isWindowsSpecialCharInCommandName (C : Ascii.ascii) : bool := isWhitespaceOrNull C || (code C =? 34).

Definition backslash : Ascii.ascii := Ascii.ascii_of_nat 92.
Definition dquote : Ascii.ascii := Ascii.ascii_of_nat 34.

Fixpoint str_repeat (n : nat) (c : Ascii.ascii) : string :=
  match n with O => "" | S n => String c (str_repeat n c) end.

(** A run of [n] backslashes before [s], which starts with no backslash: what
    is appended to the token, and what is left. *)
Definition after_backslashes (n : nat) (s : string) : string * string :=
  match s with
  | String c s' =>
      if code c =? 34 then
        if Nat.even n then (str_repeat (n / 2) backslash, s)
        else ((str_repeat (n / 2) backslash ++ String dquote "")%string, s')
      else (str_repeat n backslash, s)
  | EmptyString => (str_repeat n backslash, s)
  end.

Fixpoint skip_backslashes (n : nat) (s : string) : nat * string :=
  match s with
  | String c s' => if code c =? 92 then skip_backslashes (S n) s' else (n, s)
  | EmptyString => (n, s)
  end.

Definition parseBackslash (s : string) : string * string :=
  let '(n, s) := skip_backslashes 0 s in after_backslashes n s.

Inductive tok_state := INIT | UNQUOTED | QUOTED.

(** What the callbacks are told. *)
Inductive tok_out := AddToken (s : string) | MarkEOL.

Fixpoint eat_whitespace (s : string) : list tok_out * string :=
  match s with
  | String c s' =>
      if isWhitespaceOrNull c then
        let '(o, r) := eat_whitespace s' in ((if code c =? 10 then [MarkEOL] else []) ++ o, r)
      else ([], s)
  | EmptyString => ([], s)
  end.

Definition push (Token : string) (c : Ascii.ascii) : string := (Token ++ String c "")%string.

Section Tokenize.
  Context (InitialCommandName : bool).

(** The end of a token at the white space [c]. *)
Definition token_end (c : Ascii.ascii) : list tok_out * bool :=
  if code c =? 10 then ([MarkEOL], InitialCommandName) else ([], false).

(** [None] would be out of fuel; each round reads at least one character. *)
Fixpoint tokenize_loop (fuel : nat) (State : tok_state) (CommandName : bool) (Token Src : string)
    : option (list tok_out) :=
  match Src with
  | EmptyString => Some (match State with INIT => [] | _ => [AddToken Token] end)
  | String c s =>
      match fuel with
      | O => None
      | S fuel =>
          match State with
          | INIT =>
              let '(eols, s1) := eat_whitespace Src in
              let special := if CommandName then isWindowsSpecialCharInCommandName else isWindowsSpecialChar in
              let '(NormalChars, s2) := span (fun c => negb (special c)) s1 in
              match s1, s2 with
              | EmptyString, _ => Some eols
              | _, EmptyString => Some (eols ++ [AddToken NormalChars])
              | _, String c2 s3 =>
                  if isWhitespaceOrNull c2 then
                    let '(o, cmd) := token_end c2 in
                    app (eols ++ AddToken NormalChars :: o) <$> tokenize_loop fuel INIT cmd Token s3
                  else if code c2 =? 34 then
                    app eols <$> tokenize_loop fuel QUOTED CommandName (Token ++ NormalChars) s3
                  else
                    let '(t, r) := parseBackslash s2 in
                    app eols <$> tokenize_loop fuel UNQUOTED CommandName (Token ++ NormalChars ++ t) r
              end
          | UNQUOTED =>
              if isWhitespaceOrNull c then
                let '(o, cmd) := token_end c in
                app (AddToken Token :: o) <$> tokenize_loop fuel INIT cmd "" s
              else if code c =? 34 then tokenize_loop fuel QUOTED CommandName Token s
              else if (code c =? 92) && negb CommandName then
                let '(t, r) := parseBackslash Src in tokenize_loop fuel UNQUOTED CommandName (Token ++ t) r
              else tokenize_loop fuel UNQUOTED CommandName (push Token c) s
          | QUOTED =>
              if code c =? 34 then
                match s with
                | String d s' =>
                    if code d =? 34 then tokenize_loop fuel QUOTED CommandName (push Token dquote) s'
                    else tokenize_loop fuel UNQUOTED CommandName Token s
                | EmptyString => tokenize_loop fuel UNQUOTED CommandName Token s
                end
              else if (code c =? 92) && negb CommandName then
                let '(t, r) := parseBackslash Src in tokenize_loop fuel QUOTED CommandName (Token ++ t) r
              else tokenize_loop fuel QUOTED CommandName (push Token c) s
          end
      end
  end.

End Tokenize.

Fixpoint tokens_of (o : list tok_out) : list string :=
  match o with
  | [] => []
  | AddToken t :: o => t :: tokens_of o
  | MarkEOL :: o => tokens_of o
  end.

(** [TokenizeWindowsCommandLine], which marks no ends of lines here. *)
Definition TokenizeWindowsCommandLine (Src : string) : option (list string) :=
  tokens_of <$> tokenize_loop false (String.length Src) INIT false "" Src.

(** ** Quoting *)

Definition needs_quotes_chars : string := chars [9; 32; 34; 38; 39; 40; 41; 42; 60; 62; 92; 96; 94; 124; 10]%nat.

Definition argNeedsQuotes (Arg : string) : bool :=
  String.eqb Arg "" || str_any (has_char needs_quotes_chars) Arg.

(** The loop of [quoteSingleArg], after [n] backslashes. *)
Fixpoint quote_loop (n : nat) (Arg : string) : string :=
  match Arg with
  | EmptyString => str_repeat (n * 2) backslash
  | String c Arg =>
      if code c =? 92 then quote_loop (S n) Arg
      else if code c =? 34 then (str_repeat (n * 2 + 1) backslash ++ String dquote (quote_loop 0 Arg))%string
      else (str_repeat n backslash ++ String c (quote_loop 0 Arg))%string
  end.
Definition quoteSingleArg (Arg : string) : string := (String dquote (quote_loop 0 Arg) ++ String dquote "")%string.

Definition flattenWindowsCommandLine (Args : list string) : string :=
  fold_right (fun a s => ((if argNeedsQuotes a then quoteSingleArg a else a) ++ " " ++ s)%string) "" Args.

(** ** The tokenizer ends *)

Lemma eat_whitespace_length s : (String.length (eat_whitespace s).2 <= String.length s)%nat.
Proof.
  induction s as [|c s IH]; cbn; [done|]. destruct (isWhitespaceOrNull c); cbn; [|lia]. destruct (eat_whitespace s). cbn in *. lia.
Qed.

Lemma after_backslashes_length n s : (String.length (after_backslashes n s).2 <= String.length s)%nat.
Proof. destruct s as [|c s]; cbn; [done|]. repeat case_match; cbn; lia. Qed.

Lemma skip_backslashes_length n s : (String.length (skip_backslashes n s).2 <= String.length s)%nat.
Proof. revert n. induction s as [|c s IH]; intros n; cbn; [done|]. case_match; cbn; [|lia]. etrans; [apply IH|]. lia. Qed.

Lemma parseBackslash_length c s : code c = 92 -> (String.length (parseBackslash (String c s)).2 <= String.length s)%nat.
Proof.
  intros Hc. unfold parseBackslash. cbn [skip_backslashes]. rewrite Hc. cbn [Z.eqb Pos.eqb].
  pose proof (skip_backslashes_length 1 s). destruct (skip_backslashes 1 s) as [n r]. cbn in *.
  pose proof (after_backslashes_length n r). lia.
Qed.

(** In the initial state, what stops the ordinary characters is special. *)
Lemma special_cases (cmd : bool) c :
  (if cmd then isWindowsSpecialCharInCommandName c else isWindowsSpecialChar c) = true ->
  isWhitespaceOrNull c = true \/ code c = 34 \/ code c = 92.
Proof.
  unfold isWindowsSpecialCharInCommandName, isWindowsSpecialChar.
  destruct cmd; rewrite !orb_true_iff, !Z.eqb_eq; tauto.
Qed.

Lemma span_stops p s a c r : span p s = (a, String c r) -> p c = false.
Proof.
  revert a. induction s as [|d s IH]; intros a; cbn; [done|]. destruct (p d) eqn:E; [|by intros [= <- <- <-]].
  destruct (span p s) as [a' b']. intros [= <- ->]. by eapply IH.
Qed.

Section Runs.
  Context (icn : bool).

Definition runs (st : tok_state) (cmd : bool) (tok Src : string) (o : list tok_out) : Prop :=
  forall f, (String.length Src <= f)%nat -> tokenize_loop icn f st cmd tok Src = Some o.

(** Enough fuel gives a result, and it does not depend on the fuel. *)
Lemma tokenize_runs st cmd tok Src : exists o, runs st cmd tok Src o.
Proof using Type.
  remember (String.length Src) as n eqn:Hn. assert (H : (String.length Src <= n)%nat) by lia. clear Hn.
  revert st cmd tok Src H. induction n as [|n IH]; intros st cmd tok Src H.
  { destruct Src; [|cbn in H; lia]. eexists. intros [|f] _; done. }
  destruct Src as [|c s]; [eexists; intros [|f] _; done|]. cbn in H.
  assert (Hrec : forall st cmd tok r (g : list tok_out -> list tok_out), (String.length r <= String.length s)%nat ->
    exists o, forall f, (String.length s <= f)%nat -> g <$> tokenize_loop icn f st cmd tok r = Some o).
  { intros st' cmd' tok' r g Hr. destruct (IH st' cmd' tok' r) as [o Ho]; [lia|]. exists (g o). intros f Hf. rewrite Ho by lia. done. }
  assert (Hrec' : forall st cmd tok r, (String.length r <= String.length s)%nat ->
    exists o, forall f, (String.length s <= f)%nat -> tokenize_loop icn f st cmd tok r = Some o).
  { intros st' cmd' tok' r Hr. destruct (IH st' cmd' tok' r) as [o Ho]; [lia|]. exists o. intros f Hf. by rewrite Ho by lia. }
  enough (exists o, forall f, (String.length s <= f)%nat -> tokenize_loop icn (S f) st cmd tok (String c s) = Some o) as [o Ho].
  { exists o. intros [|f] Hf; cbn in Hf; [lia|]. apply Ho. lia. }
  destruct st; cbn [tokenize_loop].
  - pose proof (eat_whitespace_length (String c s)) as He.
    destruct (eat_whitespace (String c s)) as [eols s1] eqn:Ee. cbn in He.
    set (special := if cmd then _ else _). pose proof (span_length (fun c => negb (special c)) s1) as Hl.
    destruct (span (fun c => negb (special c)) s1) as [Norm s2] eqn:Es. cbn in Hl.
    destruct s1 as [|c1 s1]; [by eexists|]. destruct s2 as [|c2 s3]; [by eexists|].
    apply span_stops in Es as Hsp. apply negb_false_iff in Hsp. unfold special in Hsp.
    destruct (isWhitespaceOrNull c2) eqn:Ew.
    { destruct (token_end icn c2) as [o cmd']. apply Hrec. cbn in *. lia. }
    destruct (Z.eqb_spec (code c2) 34); [apply Hrec; cbn in *; lia|].
    assert (H92 : code c2 = 92).
    { assert (Hc := special_cases cmd c2). destruct cmd; specialize (Hc Hsp) as [?|[?|?]]; congruence. }
    pose proof (parseBackslash_length c2 s3 H92). destruct (parseBackslash (String c2 s3)) as [t r].
    apply Hrec. cbn in *. lia.
  - destruct (isWhitespaceOrNull c); [destruct (token_end icn c); apply Hrec; lia|].
    destruct (code c =? 34); [apply Hrec'; lia|]. destruct (Z.eqb_spec (code c) 92); cbn [andb]; [|apply Hrec'; lia].
    destruct (negb cmd); [|apply Hrec'; lia]. pose proof (parseBackslash_length c s e).
    destruct (parseBackslash (String c s)). apply Hrec'. cbn in *. lia.
  - destruct (code c =? 34).
    { destruct s as [|d s']; [apply Hrec'; lia|]. destruct (code d =? 34); apply Hrec'; cbn; lia. }
    destruct (Z.eqb_spec (code c) 92); cbn [andb]; [|apply Hrec'; lia].
    destruct (negb cmd); [|apply Hrec'; lia]. pose proof (parseBackslash_length c s e).
    destruct (parseBackslash (String c s)). apply Hrec'. cbn in *. lia.
Qed.

(** *** Steps *)

Lemma runs_unquoted_end tok c s o : isWhitespaceOrNull c = true -> code c <> 10 ->
  runs INIT false "" s o -> runs UNQUOTED false tok (String c s) (AddToken tok :: o).
Proof using Type.
  intros Hc Hn H [|f] Hf; [cbn in Hf; lia|]. cbn [tokenize_loop]. rewrite Hc. unfold token_end.
  rewrite (proj2 (Z.eqb_neq _ _) Hn), H by (cbn in Hf; lia). done.
Qed.

Lemma runs_quoted_end tok c s o : code c <> 34 ->
  runs UNQUOTED false tok (String c s) o -> runs QUOTED false tok (String dquote (String c s)) o.
Proof using Type.
  intros Hc H [|f] Hf; [cbn in Hf; lia|]. cbn [tokenize_loop]. change (code dquote =? 34) with true. cbv iota.
  rewrite (proj2 (Z.eqb_neq _ _) Hc). apply H. cbn in *. lia.
Qed.

Lemma runs_quoted_char tok c s o : code c <> 34 -> code c <> 92 ->
  runs QUOTED false (push tok c) s o -> runs QUOTED false tok (String c s) o.
Proof using Type.
  intros H34 H92 H [|f] Hf; [cbn in Hf; lia|]. cbn [tokenize_loop].
  rewrite (proj2 (Z.eqb_neq _ _) H34), (proj2 (Z.eqb_neq _ _) H92). apply H. cbn in *. lia.
Qed.

Definition no_backslash (s : string) : Prop := match s with String c _ => code c <> 92 | EmptyString => True end.

Lemma skip_repeat n k s : no_backslash s -> skip_backslashes n (str_repeat k backslash ++ s)%string = ((n + k)%nat, s).
Proof using Type.
  intros Hs. revert n. induction k as [|k IH]; intros n.
  - change (str_repeat 0 backslash ++ s)%string with s. rewrite Nat.add_0_r. destruct s as [|c s]; [done|]. cbn.
    by rewrite (proj2 (Z.eqb_neq _ _) Hs).
  - change (str_repeat (S k) backslash ++ s)%string with (String backslash (str_repeat k backslash ++ s)%string).
    cbn [skip_backslashes]. change (code backslash =? 92) with true. cbv iota. rewrite IH. f_equal. lia.
Qed.

Lemma runs_quoted_backslashes tok k s t r o : no_backslash s -> after_backslashes (S k) s = (t, r) ->
  runs QUOTED false (tok ++ t) r o -> runs QUOTED false tok (str_repeat (S k) backslash ++ s)%string o.
Proof using Type.
  intros Hs Ha H [|f] Hf; [rewrite str_length_app in Hf; cbn in Hf; lia|].
  pose proof (after_backslashes_length (S k) s) as Hl. rewrite Ha in Hl. cbn [snd] in Hl.
  change (str_repeat (S k) backslash ++ s)%string with (String backslash (str_repeat k backslash ++ s)%string) in *.
  cbn [tokenize_loop]. change (code backslash =? 34) with false. change (code backslash =? 92) with true. cbn [negb andb]. cbv iota.
  unfold parseBackslash. change (String backslash (str_repeat k backslash ++ s)%string) with (str_repeat (S k) backslash ++ s)%string.
  rewrite skip_repeat by done. change (0 + S k)%nat with (S k). rewrite Ha. apply H.
  cbn [String.length] in Hf. rewrite str_length_app in Hf. lia.
Qed.

End Runs.

(** ** Round trip *)

Lemma repeat_add n m c : str_repeat (n + m) c = (str_repeat n c ++ str_repeat m c)%string.
Proof. induction n as [|n IH]; [done|]. cbn [Nat.add str_repeat]. by rewrite IH. Qed.

Lemma half_even n : Nat.even (n * 2) = true /\ (n * 2 / 2 = n)%nat.
Proof. split; [apply Nat.even_spec; exists n; lia|by apply Nat.div_mul]. Qed.

Lemma half_odd n : Nat.even (n * 2 + 1) = false /\ ((n * 2 + 1) / 2 = n)%nat.
Proof.
  split; [by rewrite Nat.add_1_r, Nat.even_succ, <- Nat.negb_even, (proj1 (half_even n))|].
  symmetry. apply (Nat.div_unique _ _ _ 1); lia.
Qed.

Lemma quote_loop_runs icn Arg n tok rest o :
  runs icn UNQUOTED false (tok ++ str_repeat n backslash ++ Arg)%string (" " ++ rest)%string o ->
  runs icn QUOTED false tok (quote_loop n Arg ++ String dquote "" ++ " " ++ rest)%string o.
Proof.
  revert n tok. induction Arg as [|c Arg IH]; intros n tok H; cbn [quote_loop].
  - rewrite str_app_nil in H. assert (Hend : forall t, runs icn UNQUOTED false t (" " ++ rest)%string o ->
      runs icn QUOTED false t (String dquote "" ++ " " ++ rest)%string o) by (intros t Ht; by apply runs_quoted_end).
    destruct n as [|n]; [apply Hend; by rewrite str_app_nil in H|].
    destruct (half_even (S n)) as [He Hh]. change (S n * 2)%nat with (S (S (n * 2))) in *.
    eapply runs_quoted_backslashes; [done| |apply Hend; exact H].
    rewrite str_app_cons. cbn [after_backslashes]. change (code dquote =? 34) with true. cbv iota. by rewrite He, Hh.
  - destruct (Z.eqb_spec (code c) 92) as [Ec|H92].
    { apply IH. cbn [str_repeat]. assert (c = backslash) as ->.
      { unfold code in Ec. rewrite <- (Ascii.ascii_nat_embedding c). unfold backslash. f_equal. lia. }
      replace (String backslash (str_repeat n backslash) ++ Arg)%string
        with (str_repeat n backslash ++ String backslash Arg)%string; [done|].
      change (String backslash (str_repeat n backslash)) with (str_repeat (1 + n) backslash).
      rewrite Nat.add_comm, repeat_add, str_app_assoc. done. }
    destruct (Z.eqb_spec (code c) 34) as [Ec|H34].
    + assert (c = dquote) as ->.
      { unfold code in Ec. rewrite <- (Ascii.ascii_nat_embedding c). unfold dquote. f_equal. lia. }
      rewrite str_app_assoc, str_app_cons. destruct (half_odd n) as [He Hh]. rewrite Nat.add_1_r in *.
      eapply runs_quoted_backslashes; [done| |].
      { cbn [after_backslashes]. change (code dquote =? 34) with true. cbv iota. by rewrite He, Hh. }
      apply (IH O). cbn [str_repeat]. change ("" ++ Arg)%string with Arg. rewrite !str_app_assoc.
      rewrite str_app_cons. done.
    + assert (Hchar : forall t, runs icn UNQUOTED false (t ++ String c Arg)%string (" " ++ rest)%string o ->
        runs icn QUOTED false t (String c (quote_loop 0 Arg) ++ String dquote "" ++ " " ++ rest)%string o).
      { intros t Ht. rewrite str_app_cons. apply runs_quoted_char; [done..|]. apply (IH O).
        unfold push. cbn [str_repeat]. change ("" ++ Arg)%string with Arg. rewrite str_app_assoc, str_app_cons. done. }
      rewrite str_app_assoc. destruct n as [|n]; [by apply Hchar|].
      eapply runs_quoted_backslashes; [done| |apply Hchar; by rewrite str_app_assoc].
      rewrite str_app_cons. cbn [after_backslashes]. by rewrite (proj2 (Z.eqb_neq _ _) H34).
Qed.

(** Characters that end a word for the tokenizer but are written as they are. *)
Definition no_return (c : Ascii.ascii) : bool := negb (code c =? 13) && negb (code c =? 0).

Lemma unquoted_char c : has_char needs_quotes_chars c = false -> no_return c = true -> isWindowsSpecialChar c = false.
Proof. destruct c as [[][][][][][][][]]; intros H1 H2; try discriminate H1; try discriminate H2; reflexivity. Qed.

Lemma span_unquoted a rest : str_any (has_char needs_quotes_chars) a = false -> str_all no_return a = true ->
  span (fun c => negb (isWindowsSpecialChar c)) (a ++ " " ++ rest)%string = (a, (" " ++ rest)%string).
Proof.
  induction a as [|c a IH]; [done|]. cbn [str_any str_all]. rewrite orb_false_iff, andb_true_iff. intros [Hc Ha] [Hr Hs].
  rewrite str_app_cons. cbn [span]. rewrite (unquoted_char c Hc Hr), IH by done. done.
Qed.

Definition blank : Ascii.ascii := Ascii.ascii_of_nat 32.

Lemma runs_word icn a rest o : str_any (has_char needs_quotes_chars) a = false -> str_all no_return a = true -> a <> "" ->
  runs icn INIT false "" rest o -> runs icn INIT false "" (a ++ " " ++ rest)%string (AddToken a :: o).
Proof.
  intros Hq Hr Hne H f Hf. pose proof (span_unquoted a rest Hq Hr) as Hs. destruct a as [|c a]; [done|].
  rewrite str_app_cons in *. destruct f as [|f]; [cbn in Hf; lia|]. cbn [tokenize_loop].
  assert (Hw : isWhitespaceOrNull c = false).
  { cbn [str_any str_all] in *. apply orb_false_iff in Hq as [Hq _]. apply andb_true_iff in Hr as [Hr _].
    pose proof (unquoted_char c Hq Hr) as Hsp. unfold isWindowsSpecialChar in Hsp. by apply orb_false_iff in Hsp as [[? _]%orb_false_iff _]. }
  assert (Hew : eat_whitespace (String c (a ++ " " ++ rest)) = ([], String c (a ++ " " ++ rest))) by (cbn; by rewrite Hw).
  rewrite Hew, Hs. change (" " ++ rest)%string with (String blank rest).
  change (isWhitespaceOrNull blank) with true. unfold token_end. change (code blank =? 10) with false. cbv iota.
  rewrite H; [done|]. cbn [String.length] in Hf. rewrite !str_length_app in Hf. cbn [String.length] in Hf. lia.
Qed.

Lemma runs_quoted_arg icn a rest o : runs icn INIT false "" rest o ->
  runs icn INIT false "" (quoteSingleArg a ++ " " ++ rest)%string (AddToken a :: o).
Proof.
  intros H f Hf.
  assert (E : (quoteSingleArg a ++ " " ++ rest)%string = String dquote (quote_loop 0 a ++ String dquote "" ++ " " ++ rest)).
  { unfold quoteSingleArg. by rewrite !str_app_cons, str_app_assoc. }
  rewrite E in *. destruct f as [|f]; [cbn in Hf; lia|]. cbn [tokenize_loop].
  assert (Hew : forall s, eat_whitespace (String dquote s) = ([], String dquote s)) by done. rewrite Hew.
  change (span (fun c => negb (isWindowsSpecialChar c)) (String dquote (quote_loop 0 a ++ String dquote "" ++ " " ++ rest)))
    with ("", String dquote (quote_loop 0 a ++ String dquote "" ++ " " ++ rest)).
  cbv iota beta. change (isWhitespaceOrNull dquote) with false. change (code dquote =? 34) with true. cbv iota.
  rewrite (quote_loop_runs icn a 0 "" rest (AddToken a :: o)); [done| |].
  - change ("" ++ str_repeat 0 backslash ++ a)%string with a. by apply runs_unquoted_end.
  - cbn [String.length] in Hf. lia.
Qed.

(** The command line [flattenWindowsCommandLine] builds is split into the
    arguments it was built from, whatever quotes, backslashes and white space
    they have; but for carriage returns and NULs, which are written without
    quotes and taken for white space. *)
Theorem command_line_roundtrip (Args : list string) (H : Forall (fun a => str_all no_return a = true) Args) :
  TokenizeWindowsCommandLine (flattenWindowsCommandLine Args) = Some Args.
Proof.
  unfold TokenizeWindowsCommandLine.
  assert (Hr : runs false INIT false "" (flattenWindowsCommandLine Args) (map AddToken Args)).
  { unfold flattenWindowsCommandLine. induction H as [|a Args Ha _ IH]; [by intros [|f] _|]. cbn [fold_right map].
    destruct (argNeedsQuotes a) eqn:Eq.
    - by apply runs_quoted_arg.
    - unfold argNeedsQuotes in Eq. apply orb_false_iff in Eq as [Hne%String.eqb_neq Hq]. by apply runs_word. }
  rewrite Hr by lia. cbn. f_equal. clear. induction Args as [|a Args IH]; [done|]. cbn. by rewrite IH.
Qed.

Lemma command_line_roundtrip_witness :
  TokenizeWindowsCommandLine (flattenWindowsCommandLine ["a b\"; ""; ("q" ++ String dquote "\\")%string; "/x:y\z"]) =
  Some ["a b\"; ""; ("q" ++ String dquote "\\")%string; "/x:y\z"].
Proof. apply command_line_roundtrip. repeat constructor. Defined.

(** A carriage return splits an argument. *)
Lemma carriage_return_splits :
  TokenizeWindowsCommandLine (flattenWindowsCommandLine [("a" ++ chars [13]%nat ++ "b")%string]) = Some ["a"; "b"].
Proof. reflexivity. Qed.
