(* ===== verification/Directives.v ===== *)
(** * Directives and the options they hold (lld/COFF/DriverUtils.cpp, Driver.cpp,
      SymbolTable.cpp)

    The parsers of options that have a syntax of their own, the fast path over the
    tokens of a .drectve section, and [LinkerDriver::parseDirectives], which runs
    them. The parser of the option table (LLVM's) and the search for libraries are
    parameters; a library to be queued is an event. *)

From S2P Require Import Prelude SymbolTable Exports StringRef CommandLine.

#[local] Open Scope string_scope.
#[local] Open Scope list_scope.
#[local] Open Scope Z_scope.

(** ** Results

    [Fatal] ends the link; [UndefinedBehaviour] is what the standard leaves open;
    [Unfinished] would be out of fuel. *)
Inductive res (A : Type) := Ret (a : A) | Fatal (arg : string) | UndefinedBehaviour | Unfinished.
Arguments Ret {A}. Arguments Fatal {A}. Arguments UndefinedBehaviour {A}. Arguments Unfinished {A}.

Definition res_bind {A B} (m : res A) (f : A -> res B) : res B :=
  match m with Ret a => f a | Fatal e => Fatal e | UndefinedBehaviour => UndefinedBehaviour | Unfinished => Unfinished end.
Declare Scope res_scope.
Notation "x <~ m ; f" := (res_bind m (fun x => f)) (at level 100, m at next level, right associativity) : res_scope.
#[local] Open Scope res_scope.

Fixpoint res_fold {A B} (f : A -> B -> res B) (l : list A) (b : B) : res B :=
  match l with [] => Ret b | a :: l => b <~ f a b; res_fold f l b end.

Inductive option_event :=
  | AlreadyMerged (s existing : string)
  | InvalidExportAs (rest : string)
  | InvalidAligncomm (s : string)
  | UnknownArgument (s : string)
  | NotAllowedInDrectve (s : string)
  | NotAllowedInNative (s : string)
  | DuplicateLayoutSection (s : string)
  | InvalidOption (s : string)
  | EnqueueDefaultLib (s : string).

(** ** Numbers and versions *)

(** ["<integer>[,<integer>]"]: the second stays when it is absent. *)
Definition parseNumbers (arg : string) (size : Z) : res (Z * Z) :=
  let '(s1, s2) := split (ch 44) arg in
  match getAsInteger 64 0 s1 with
  | None => Fatal s1
  | Some addr =>
      if String.eqb s2 "" then Ret (addr, size)
      else match getAsInteger 64 0 s2 with Some v => Ret (addr, v) | None => Fatal s2 end
  end.

(** ["<integer>[.<integer>]"]. *)
Definition parseVersion (arg : string) : res (Z * Z) :=
  let '(s1, s2) := split (ch 46) arg in
  match getAsInteger 32 10 s1 with
  | None => Fatal s1
  | Some major =>
      if String.eqb s2 "" then Ret (major, 0)
      else match getAsInteger 32 10 s2 with Some minor => Ret (major, minor) | None => Fatal s2 end
  end.

Definition subsystems : list (string * Z) :=
  [("boot_application", 16); ("console", 3); ("default", 0); ("efi_application", 10);
   ("efi_boot_service_driver", 11); ("efi_rom", 13); ("efi_runtime_driver", 12); ("native", 1); ("posix", 7);
   ("windows", 2); ("xbox", 14)].

Fixpoint lookup_string {A} (l : list (string * A)) (s : string) : option A :=
  match l with [] => None | (k, v) :: l => if String.eqb k s then Some v else lookup_string l s end.

(** The subsystem, and the version when there is one ([gotVersion]). *)
Definition parseSubsystem (arg : string) : res (Z * option (Z * Z)) :=
  let '(sysStr, ver) := split (ch 44) arg in
  let sys := default 0 (lookup_string subsystems (str_lower sysStr)) in
  if (sys =? 0) && negb (String.eqb (str_lower sysStr) "default") then Fatal sysStr
  else if String.eqb ver "" then Ret (sys, None)
  else v <~ parseVersion ver; Ret (sys, Some v).

(** ** Sections *)

(** The first binding stays; the event when a different one is given. *)
Definition parseMerge (s : string) (merge : gmap string string) : res (gmap string string * list option_event) :=
  let '(from, to) := split (ch 61) s in
  if String.eqb from "" || String.eqb to "" then Fatal s
  else if String.eqb from ".rsrc" || String.eqb to ".rsrc" then Fatal s
  else if String.eqb from ".reloc" || String.eqb to ".reloc" then Fatal s
  else match merge !! from with
       | None => Ret (<[from := to]> merge, [])
       | Some existing => Ret (merge, if String.eqb existing to then [] else [AlreadyMerged s existing])
       end.

(** IMAGE_SCN_MEM_*, by the letter of /section. *)
Definition section_letters : list (Z * Z) :=
  [(100, 33554432); (101, 536870912); (107, 67108864); (112, 134217728); (114, 1073741824); (115, 268435456);
   (119, 2147483648)].

Definition section_letter (c : Ascii.ascii) : option Z :=
  snd <$> List.find (fun p => p.1 =? code c) section_letters.

Fixpoint section_attributes (s lower : string) (ret : Z) : res Z :=
  match lower with
  | EmptyString => Ret ret
  | String c lower => match section_letter c with Some v => section_attributes s lower (ret ||| v) | None => Fatal s end
  end.
Definition parseSectionAttributes (s : string) : res Z := section_attributes s (str_lower s) 0.

Definition parseSection (s : string) (section : gmap string Z) : res (gmap string Z) :=
  let '(name, attrs) := split (ch 44) s in
  if String.eqb name "" || String.eqb attrs "" then Fatal s
  else v <~ parseSectionAttributes attrs; Ret (<[name := v]> section).

(** [1 << v] is not defined outside [0, 31], and the sign bit of an [int] at 31. *)
Definition parseAligncomm (s : string) (alignComm : gmap string Z) : res (gmap string Z * list option_event) :=
  let '(name, align) := split (ch 44) s in
  if String.eqb name "" || String.eqb align "" then Ret (alignComm, [InvalidAligncomm s])
  else match getAsInteger_signed 32 0 align with
       | None => Ret (alignComm, [InvalidAligncomm s])
       | Some v =>
           if (v <? 0) || (32 <=? v) then UndefinedBehaviour
           else Ret (<[name := Z.max (default 0 (alignComm !! name)) (sext 32 (1 <<< v))]> alignComm, [])
       end.

(** ** /failifmismatch *)

(** The empty value is no value: the map gives it for a new key. *)
Definition checkFailIfMismatch (arg : string) (mustMatch : gmap string string) : res (gmap string string) :=
  let '(k, v) := split (ch 61) arg in
  if String.eqb k "" || String.eqb v "" then Fatal arg
  else
    let existing := default "" (mustMatch !! k) in
    if negb (String.eqb existing "") && negb (String.eqb v existing) then Fatal arg
    else Ret (<[k := v]> mustMatch).

(** ** /export *)

Definition plain_export (name ext fwd : string) (src : ExportSource) : Export :=
  {| e_name := name; extName := ext; exportAs := ""; importName := ""; e_sym := None; ordinal := 0; noname := false;
     data := false; isPrivate := false; constant := false; forwardTo := fwd; source := src; symbolName := "";
     exportName := "" |}.
Definition export_flags (n d p c : bool) (e : Export) : Export :=
  {| e_name := e_name e; extName := extName e; exportAs := exportAs e; importName := importName e; e_sym := e_sym e;
     ordinal := ordinal e; noname := noname e || n; data := data e || d; isPrivate := isPrivate e || p;
     constant := constant e || c; forwardTo := forwardTo e; source := source e; symbolName := symbolName e;
     exportName := exportName e |}.
Definition with_exportAs (a : string) (e : Export) : Export :=
  {| e_name := e_name e; extName := extName e; exportAs := a; importName := importName e; e_sym := e_sym e;
     ordinal := ordinal e; noname := noname e; data := data e; isPrivate := isPrivate e; constant := constant e;
     forwardTo := forwardTo e; source := source e; symbolName := symbolName e; exportName := exportName e |}.
Definition with_source (s : ExportSource) (e : Export) : Export :=
  {| e_name := e_name e; extName := extName e; exportAs := exportAs e; importName := importName e; e_sym := e_sym e;
     ordinal := ordinal e; noname := noname e; data := data e; isPrivate := isPrivate e; constant := constant e;
     forwardTo := forwardTo e; source := s; symbolName := symbolName e; exportName := exportName e |}.

(** The parameters, one token at a time; [arg] is the argument for the message. *)
Fixpoint export_parameters (fuel : nat) (arg rest : string) (e : Export) : res (Export * list option_event) :=
  match rest with
  | EmptyString => Ret (e, [])
  | _ =>
      match fuel with
      | O => Unfinished
      | S fuel =>
          let '(tok, rest) := split (ch 44) rest in
          if equals_insensitive tok "noname" then
            if ordinal e =? 0 then Fatal arg else export_parameters fuel arg rest (export_flags true false false false e)
          else if equals_insensitive tok "data" then export_parameters fuel arg rest (export_flags false true false false e)
          else if equals_insensitive tok "constant" then export_parameters fuel arg rest (export_flags false false false true e)
          else if equals_insensitive tok "private" then export_parameters fuel arg rest (export_flags false false true false e)
          else if equals_insensitive tok "exportas" then
            if negb (String.eqb rest "") && negb (str_contains "," rest) then Ret (with_exportAs rest e, [])
            else Ret (e, [InvalidExportAs rest])
          else if starts_with "@" tok then
            match getAsInteger_signed 32 0 (str_drop 1 tok) with
            | Some ord =>
                if (ord <=? 0) || (65535 <? ord) then Fatal arg
                else export_parameters fuel arg rest (with_ordinal ord e)
            | None => Fatal arg
            end
          else Fatal arg
      end
  end.

Definition parseExport (arg : string) : res (Export * list option_event) :=
  let '(name, rest) := split (ch 44) arg in
  if String.eqb name "" then Fatal arg
  else
    let params := export_parameters (String.length rest) arg rest in
    if str_contains "=" name then
      let '(x, y) := split (ch 61) name in
      if str_contains "." y then params (plain_export x "" y ExportOption)
      else if String.eqb y "" then Fatal arg
      else params (plain_export y x "" ExportOption)
    else params (plain_export name "" "" ExportOption).

(** ** The directives of an object *)

Record ParsedDirectives := { pd_exports : list string; pd_includes : list string; pd_excludes : list string }.

Definition has_option (name tok : string) : bool :=
  starts_with_insensitive ("/" ++ name)%string tok || starts_with_insensitive ("-" ++ name)%string tok.
Definition option_value (name tok : string) : string := str_drop (S (String.length name)) tok.

(** The fast path; the tokens that are left are C strings. *)
Fixpoint fast_path (tokens : list string) : ParsedDirectives * list string :=
  match tokens with
  | [] => ({| pd_exports := []; pd_includes := []; pd_excludes := [] |}, [])
  | tok :: tokens =>
      let '(d, rest) := fast_path tokens in
      if has_option "export:" tok then
        ({| pd_exports := option_value "export:" tok :: pd_exports d; pd_includes := pd_includes d;
            pd_excludes := pd_excludes d |}, rest)
      else if has_option "include:" tok then
        ({| pd_exports := pd_exports d; pd_includes := option_value "include:" tok :: pd_includes d;
            pd_excludes := pd_excludes d |}, rest)
      else if has_option "exclude-symbols:" tok then
        ({| pd_exports := pd_exports d; pd_includes := pd_includes d;
            pd_excludes := option_value "exclude-symbols:" tok :: pd_excludes d |}, rest)
      else (d, c_string tok :: rest)
  end.

(** The options allowed in a directive, and the rest of them. *)
Inductive directive_option :=
  | OPT_aligncomm | OPT_alternatename | OPT_arm64xsameaddress | OPT_defaultlib | OPT_entry | OPT_failifmismatch
  | OPT_incl | OPT_manifestdependency | OPT_merge | OPT_nodefaultlib | OPT_release | OPT_section | OPT_stack
  | OPT_subsystem | OPT_ignored | OPT_UNKNOWN | OPT_other.

Record arg := { a_option : directive_option; a_value : string; a_spelling : string }.

Record options := {
  o_merge : gmap string string;
  o_section : gmap string Z;
  o_mustMatch : gmap string string;
  o_subsystem : Z;
  o_subsystemVersion : Z * Z;
  o_osVersion : Z * Z;
  o_stack : Z * Z;                       (* reserve, commit *)
  o_writeCheckSum : bool;
  o_manifestDependencies : list string;
  o_noDefaultLibs : gset string;
  o_log : list option_event
}.

Record link_state := {
  l_options : options;
  l_symtab : symtab;                     (* of the file *)
  l_other : option (st_config * symtab); (* the other one of a hybrid link *)
  l_entry : option sref;
  l_otherEntry : option sref;
  directivesExports : gset string;
  exports : list Export;
  alternateNames : gmap string string;
  alignComm : gmap string Z;
  excludedSymbols : gset string;
  sameAddresses : list (string * string)
}.

Definition log_events (l : list option_event) (o : options) : options :=
  {| o_merge := o_merge o; o_section := o_section o; o_mustMatch := o_mustMatch o; o_subsystem := o_subsystem o;
     o_subsystemVersion := o_subsystemVersion o; o_osVersion := o_osVersion o; o_stack := o_stack o;
     o_writeCheckSum := o_writeCheckSum o; o_manifestDependencies := o_manifestDependencies o;
     o_noDefaultLibs := o_noDefaultLibs o; o_log := o_log o ++ l |}.
Definition with_maps (m : gmap string string) (s : gmap string Z) (f : gmap string string) (o : options) : options :=
  {| o_merge := m; o_section := s; o_mustMatch := f; o_subsystem := o_subsystem o;
     o_subsystemVersion := o_subsystemVersion o; o_osVersion := o_osVersion o; o_stack := o_stack o;
     o_writeCheckSum := o_writeCheckSum o; o_manifestDependencies := o_manifestDependencies o;
     o_noDefaultLibs := o_noDefaultLibs o; o_log := o_log o |}.
Definition with_subsystem (s : Z) (v os : Z * Z) (o : options) : options :=
  {| o_merge := o_merge o; o_section := o_section o; o_mustMatch := o_mustMatch o; o_subsystem := s;
     o_subsystemVersion := v; o_osVersion := os; o_stack := o_stack o;
     o_writeCheckSum := o_writeCheckSum o; o_manifestDependencies := o_manifestDependencies o;
     o_noDefaultLibs := o_noDefaultLibs o; o_log := o_log o |}.
Definition with_misc (st : Z * Z) (w : bool) (md : list string) (nd : gset string) (o : options) : options :=
  {| o_merge := o_merge o; o_section := o_section o; o_mustMatch := o_mustMatch o; o_subsystem := o_subsystem o;
     o_subsystemVersion := o_subsystemVersion o; o_osVersion := o_osVersion o; o_stack := st;
     o_writeCheckSum := w; o_manifestDependencies := md; o_noDefaultLibs := nd; o_log := o_log o |}.

Definition on_options (f : options -> options) (s : link_state) : link_state :=
  {| l_options := f (l_options s); l_symtab := l_symtab s; l_other := l_other s; l_entry := l_entry s;
     l_otherEntry := l_otherEntry s; directivesExports := directivesExports s; exports := exports s;
     alternateNames := alternateNames s; alignComm := alignComm s; excludedSymbols := excludedSymbols s;
     sameAddresses := sameAddresses s |}.
Definition on_symtab (f : symtab -> symtab) (s : link_state) : link_state :=
  {| l_options := l_options s; l_symtab := f (l_symtab s); l_other := l_other s; l_entry := l_entry s;
     l_otherEntry := l_otherEntry s; directivesExports := directivesExports s; exports := exports s;
     alternateNames := alternateNames s; alignComm := alignComm s; excludedSymbols := excludedSymbols s;
     sameAddresses := sameAddresses s |}.
Definition with_exports (d : gset string) (l : list Export) (s : link_state) : link_state :=
  {| l_options := l_options s; l_symtab := l_symtab s; l_other := l_other s; l_entry := l_entry s;
     l_otherEntry := l_otherEntry s; directivesExports := d; exports := l;
     alternateNames := alternateNames s; alignComm := alignComm s; excludedSymbols := excludedSymbols s;
     sameAddresses := sameAddresses s |}.
Definition with_names_of (an : gmap string string) (al : gmap string Z) (ex : gset string) (s : link_state) : link_state :=
  {| l_options := l_options s; l_symtab := l_symtab s; l_other := l_other s; l_entry := l_entry s;
     l_otherEntry := l_otherEntry s; directivesExports := directivesExports s; exports := exports s;
     alternateNames := an; alignComm := al; excludedSymbols := ex; sameAddresses := sameAddresses s |}.

Section Driver.
  Context (cfg : st_config) (mingw hybrid : bool) (insertion_point : string -> option nat).
  (** The option table of the linker: the options of the arguments and whether
      one lacks its argument; and the name a library is found under. *)
  Context (ParseArgs : list string -> list arg * bool) (findLib : string -> string).

Definition parser_parseDirectives (s : string) : res (ParsedDirectives * list arg * list option_event) :=
  match TokenizeWindowsCommandLine s with
  | None => Unfinished
  | Some tokens =>
      let '(d, rest) := fast_path tokens in
      let '(args, missing) := ParseArgs rest in
      if missing : bool then Fatal s
      else Ret (d, args,
                map (fun a => UnknownArgument (a_spelling a))
                  (List.filter (fun a => match a_option a with OPT_UNKNOWN => true | _ => false end) args))
  end.

Definition isDecorated (sym : string) : bool :=
  starts_with "@" sym || str_contains "@@" sym || starts_with "?" sym || (negb mingw && str_contains "@" sym).

(** The names of an exported symbol on a machine with leading underscores. *)
Definition decorate_export (e : Export) : Export :=
  if is_I386 cfg && mingw then
    with_names
      (if negb (isDecorated (e_name e)) then ("_" ++ e_name e)%string else e_name e)
      (if negb (String.eqb (extName e) "") && negb (isDecorated (extName e)) then ("_" ++ extName e)%string
       else extName e)
      (symbolName e) (exportName e) e
  else e.

Definition directive_export (e : string) (s : link_state) : res link_state :=
  if bool_decide (e ∈ directivesExports s) then Ret s
  else
    x <~ parseExport e;
    let exp := with_source Directives (decorate_export x.1) in
    Ret (on_options (log_events x.2) (with_exports ({[ e ]} ∪ directivesExports s) (exports s ++ [exp]) s)).

Definition directive_include (inc : string) : link_state -> link_state :=
  on_symtab (addGCRoot cfg insertion_point inc false).

Definition directive_exclude (e : string) (s : link_state) : link_state :=
  with_names_of (alternateNames s) (alignComm s)
    (list_to_set (map (mangle cfg) (str_split (ch 44) e)) ∪ excludedSymbols s) s.

Definition set_entry (v : string) (s : link_state) : link_state :=
  let root c T := addGCRoot c insertion_point (mangle c v) true T in
  {| l_options := l_options s;
     l_symtab := root cfg (l_symtab s);
     l_other := (fun x : st_config * symtab => (x.1, root x.1 x.2)) <$> l_other s;
     l_entry := Some (Global (mangle cfg v));
     l_otherEntry := (fun x : st_config * symtab => Global (mangle x.1 v)) <$> l_other s;
     directivesExports := directivesExports s; exports := exports s; alternateNames := alternateNames s;
     alignComm := alignComm s; excludedSymbols := excludedSymbols s; sameAddresses := sameAddresses s |}.

(** [parseSameAddress], for a file whose table is the ARM64EC one. *)
Definition parseSameAddress (v : string) (s : link_state) : link_state :=
  let n := default v (getArm64ECMangledFunctionName insertion_point v) in
  let s := on_symtab (addUndefined cfg n false false) s in
  match l_other s with
  | Some (c, T) =>
      if hybrid then
        {| l_options := l_options s; l_symtab := l_symtab s; l_other := Some (c, addUndefined c v false false T);
           l_entry := l_entry s; l_otherEntry := l_otherEntry s; directivesExports := directivesExports s;
           exports := exports s; alternateNames := alternateNames s; alignComm := alignComm s;
           excludedSymbols := excludedSymbols s; sameAddresses := sameAddresses s ++ [(n, v)] |}
      else s
  | None => s
  end.

Definition set_insert (x : string) (l : list string) : list string := if existsb (String.eqb x) l then l else l ++ [x].

Definition directive_arg (a : arg) (s : link_state) : res link_state :=
  let o := l_options s in
  let v := a_value a in
  let maps m sec f ev := Ret (on_options (fun o => log_events ev (with_maps m sec f o)) s) in
  let misc st w md nd := Ret (on_options (with_misc st w md nd) s) in
  match a_option a with
  | OPT_aligncomm =>
      x <~ parseAligncomm v (alignComm s);
      Ret (on_options (log_events x.2) (with_names_of (alternateNames s) x.1 (excludedSymbols s) s))
  | OPT_alternatename =>
      match parseAlternateName v (alternateNames s) with
      | Some m => Ret (with_names_of m (alignComm s) (excludedSymbols s) s)
      | None => Fatal v
      end
  | OPT_arm64xsameaddress =>
      if isEC cfg then Ret (parseSameAddress v s)
      else Ret (on_options (log_events [NotAllowedInNative (a_spelling a)]) s)
  | OPT_defaultlib => Ret (on_options (log_events [EnqueueDefaultLib v]) s)
  | OPT_entry => if String.eqb v "" then Fatal v else Ret (set_entry v s)
  | OPT_failifmismatch => f <~ checkFailIfMismatch v (o_mustMatch o); maps (o_merge o) (o_section o) f []
  | OPT_incl => Ret (directive_include v s)
  | OPT_manifestdependency =>
      misc (o_stack o) (o_writeCheckSum o) (set_insert v (o_manifestDependencies o)) (o_noDefaultLibs o)
  | OPT_merge => x <~ parseMerge v (o_merge o); maps x.1 (o_section o) (o_mustMatch o) x.2
  | OPT_nodefaultlib =>
      misc (o_stack o) (o_writeCheckSum o) (o_manifestDependencies o) ({[ str_lower (findLib v) ]} ∪ o_noDefaultLibs o)
  | OPT_release => misc (o_stack o) true (o_manifestDependencies o) (o_noDefaultLibs o)
  | OPT_section => x <~ parseSection v (o_section o); maps (o_merge o) x (o_mustMatch o) []
  | OPT_stack =>
      st <~ parseNumbers v (o_stack o).2;
      misc st (o_writeCheckSum o) (o_manifestDependencies o) (o_noDefaultLibs o)
  | OPT_subsystem =>
      x <~ parseSubsystem v;
      Ret (on_options (match x.2 with
                       | Some ver => with_subsystem x.1 ver ver
                       | None => with_subsystem x.1 (o_subsystemVersion o) (o_osVersion o)
                       end) s)
  | OPT_ignored => Ret s
  | OPT_UNKNOWN | OPT_other => Ret (on_options (log_events [NotAllowedInDrectve (a_spelling a)]) s)
  end.

(** [LinkerDriver::parseDirectives], of the file whose table is [l_symtab]. *)
Definition parseDirectives (directives : string) (s : link_state) : res link_state :=
  if String.eqb directives "" then Ret s
  else
    p <~ parser_parseDirectives directives;
    let '(d, args, unknown) := p in
    let s := on_options (log_events unknown) s in
    s <~ res_fold directive_export (pd_exports d) s;
    let s := fold_left (fun s i => directive_include i s) (pd_includes d) s in
    let s := fold_left (fun s e => directive_exclude e s) (pd_excludes d) s in
    res_fold directive_arg args s.

End Driver.

(** ** What the compiler writes (llvm/lib/IR/Mangler.cpp)

    A global: its name in the IR and the symbol [getNameWithPrefix] makes of it. *)
Record global := {
  gv_hasName : bool;
  gv_name : string;
  gv_symbol : string;
  gv_dllexport : bool;
  gv_hidden : bool;
  gv_declaration : bool;
  gv_function : bool
}.

Record triple := {
  tt_msvc : bool;            (* isWindowsMSVCEnvironment *)
  tt_uefi : bool;            (* isUEFI *)
  tt_gnu : bool;             (* isWindowsGNUEnvironment or isWindowsCygwinEnvironment *)
  tt_arm64ec : bool;
  tt_cygming : bool;         (* isOSCygMing *)
  tt_prefix : Ascii.ascii    (* getGlobalPrefix; NUL for none *)
}.

Definition isAlnum (c : Ascii.ascii) : bool :=
  is_digit c || ((97 <=? code c) && (code c <=? 122)) || ((65 <=? code c) && (code c <=? 90)).
Definition unquoted_directive_char (c : Ascii.ascii) : bool :=
  isAlnum c || (code c =? 95) || (code c =? 64) || (code c =? 35).
Definition canBeUnquotedInDirective (Name : string) : bool :=
  negb (String.eqb Name "") && str_all unquoted_directive_char Name.

(** The symbol without the prefix of the target. *)
Definition without_prefix (tt : triple) (Flag : string) : string :=
  match Flag with
  | String c s => if Ascii.eqb c (tt_prefix tt) then s else Flag
  | EmptyString => Flag
  end.

Definition quoted (needs : bool) (s : string) : string :=
  if needs then (String dquote s ++ String dquote "")%string else s.
Definition needs_directive_quotes (g : global) : bool := gv_hasName g && negb (canBeUnquotedInDirective (gv_name g)).

(** [isWindowsMSVCEnvironment() || isUEFI()]. *)
Definition upper_case (tt : triple) : bool := tt_msvc tt || tt_uefi tt.

Definition emitLinkerFlagsForGlobalCOFF (tt : triple) (g : global) : string :=
  ((if gv_dllexport g && negb (gv_declaration g) then
     (if upper_case tt then " /EXPORT:" else " -export:") ++
     quoted (needs_directive_quotes g)
       ((if tt_gnu tt then without_prefix tt (gv_symbol g) else gv_symbol g) ++
        (if tt_arm64ec tt then
           match getArm64ECDemangledFunctionName (gv_name g) with
           | Some demangledName => ",EXPORTAS," ++ demangledName
           | None => ""
           end
         else "")) ++
     (if gv_function g then "" else if upper_case tt then ",DATA" else ",data")
   else "") ++
  (if gv_hidden g && negb (gv_declaration g) && tt_cygming tt then
     " -exclude-symbols:" ++ quoted (needs_directive_quotes g) (without_prefix tt (gv_symbol g))
   else ""))%string.

Definition emitLinkerFlagsForUsedCOFF (tt : triple) (g : global) : string :=
  if tt_msvc tt then (" /INCLUDE:" ++ quoted (needs_directive_quotes g) (gv_symbol g))%string else "".
