(* ===== verification/DirectivesProps.v ===== *)
(** * Directives: what the compiler writes is what the linker reads *)

From S2P Require Import Prelude SymbolTable Exports StringRef CommandLine Directives.

#[local] Open Scope string_scope.
#[local] Open Scope list_scope.
#[local] Open Scope Z_scope.
#[local] Open Scope res_scope.

(** ** Tokens with a quoted part *)

Definition plain_tok_char (c : Ascii.ascii) : bool := negb (isWindowsSpecialChar c).
Definition quotable_char (c : Ascii.ascii) : bool := negb (code c =? 34) && negb (code c =? 92).

Lemma plain_tok_spec c : plain_tok_char c = true -> isWhitespaceOrNull c = false /\ code c <> 34 /\ code c <> 92.
Proof.
  unfold plain_tok_char, isWindowsSpecialChar. rewrite negb_true_iff, !orb_false_iff, !Z.eqb_neq. tauto.
Qed.

(** The end of a token: of the text, or a blank and more tokens. *)
Definition ends (rest : string) (o : list tok_out) : Prop :=
  (rest = "" /\ o = []) \/ exists r, rest = String blank r /\ runs false INIT false "" r o.

Lemma runs_unquoted_plain t s rest o : str_all plain_tok_char s = true -> ends rest o ->
  runs false UNQUOTED false t (s ++ rest)%string (AddToken (t ++ s)%string :: o).
Proof.
  intros Hs Hr. revert t. induction s as [|c s IH]; intros t.
  - rewrite str_app_nil. change ("" ++ rest)%string with rest. destruct Hr as [[-> ->]|(r & -> & Hr)]; [by intros [|f] _|].
    by apply runs_unquoted_end.
  - cbn in Hs. apply andb_true_iff in Hs as [Hc Hs]. apply plain_tok_spec in Hc as (Hw & H34 & H92).
    rewrite str_app_cons. replace (t ++ String c s)%string with (push t c ++ s)%string by (unfold push; by rewrite str_app_assoc).
    specialize (IH Hs (push t c)). intros [|f] Hf; [cbn in Hf; lia|]. cbn [tokenize_loop].
    rewrite Hw, (proj2 (Z.eqb_neq _ _) H34), (proj2 (Z.eqb_neq _ _) H92). apply IH. cbn in Hf. lia.
Qed.

Lemma runs_quoted_body t b s o : str_all quotable_char b = true -> (forall c r, s = String c r -> code c <> 34) ->
  runs false UNQUOTED false (t ++ b)%string s o ->
  runs false QUOTED false t (b ++ String dquote s)%string o.
Proof.
  intros Hb Hs. revert t. induction b as [|c b IH]; intros t H.
  - rewrite str_app_nil in H. change ("" ++ String dquote s)%string with (String dquote s). destruct s as [|c r].
    + intros [|f] Hf; [cbn in Hf; lia|]. cbn [tokenize_loop]. change (code dquote =? 34) with true. cbv iota. apply H. cbn in *; lia.
    + apply runs_quoted_end; [by eapply Hs|done].
  - cbn in Hb. apply andb_true_iff in Hb as [Hc Hb]. unfold quotable_char in Hc.
    rewrite andb_true_iff, !negb_true_iff, !Z.eqb_neq in Hc. rewrite str_app_cons. apply runs_quoted_char; [tauto..|].
    apply IH; [done|]. unfold push. rewrite str_app_assoc. done.
Qed.

Lemma span_plain w s : str_all plain_tok_char w = true -> (forall c r, s = String c r -> plain_tok_char c = false) ->
  span (fun c => negb (isWindowsSpecialChar c)) (w ++ s)%string = (w, s).
Proof.
  intros Hw Hs. induction w as [|c w IH].
  - change ("" ++ s)%string with s. destruct s as [|c r]; [done|]. cbn. specialize (Hs c r eq_refl).
    unfold plain_tok_char in Hs. by rewrite Hs.
  - cbn in Hw. apply andb_true_iff in Hw as [Hc Hw]. rewrite str_app_cons. cbn [span]. unfold plain_tok_char in Hc.
    by rewrite Hc, IH.
Qed.

(** A word, quoted in part: after [w1], [b] is in quotes. *)
Record word := { w_pre : string; w_quoted : bool; w_body : string; w_suf : string }.
Definition word_text (w : word) : string := (w_pre w ++ quoted (w_quoted w) (w_body w) ++ w_suf w)%string.
Definition word_token (w : word) : string := (w_pre w ++ w_body w ++ w_suf w)%string.
Definition tok_word_ok (w : word) : Prop :=
  w_pre w <> "" /\ str_all plain_tok_char (w_pre w) = true /\ str_all plain_tok_char (w_suf w) = true /\
  str_all (if w_quoted w then quotable_char else plain_tok_char) (w_body w) = true.

Definition words_text (ws : list word) : string := fold_right (fun w s => (" " ++ word_text w ++ s)%string) "" ws.

Lemma eat_plain c s : isWhitespaceOrNull c = false -> eat_whitespace (String c s) = ([], String c s).
Proof. intros H. cbn. by rewrite H. Qed.

Lemma runs_tok_word w rest o : tok_word_ok w -> ends rest o ->
  runs false INIT false "" (word_text w ++ rest)%string (AddToken (word_token w) :: o).
Proof.
  intros (Hne & Hp & Hs & Hb) He. unfold word_text, word_token. destruct (w_quoted w); cbn [quoted].
  - assert (Hq : runs false QUOTED false (w_pre w) (w_body w ++ String dquote (w_suf w ++ rest))%string
             (AddToken (w_pre w ++ w_body w ++ w_suf w)%string :: o)).
    { apply runs_quoted_body; [done| |].
      - intros c r E. destruct (w_suf w) as [|d sf].
        + destruct He as [[-> _]|(r' & -> & _)]; [done|]. by injection E as <- _.
        + rewrite str_app_cons in E. injection E as <- _. cbn in Hs. apply andb_true_iff in Hs as [Hd _].
          apply plain_tok_spec in Hd as (_ & Hd & _). exact Hd.
      - rewrite <- str_app_assoc. by apply runs_unquoted_plain. }
    assert (E : ((w_pre w ++ (String dquote (w_body w) ++ String dquote "") ++ w_suf w) ++ rest)%string =
                (w_pre w ++ String dquote (w_body w ++ String dquote (w_suf w ++ rest)))%string).
    { repeat (rewrite str_app_assoc || rewrite str_app_cons). done. }
    rewrite E. intros f Hf. destruct (w_pre w) as [|c p] eqn:Ep; [done|]. rewrite str_app_cons in *.
    destruct f as [|f]; [cbn in Hf; lia|]. cbn [tokenize_loop].
    pose proof Hp as Hc. cbn in Hc. apply andb_true_iff in Hc as [Hc _]. apply plain_tok_spec in Hc as (Hw & _).
    rewrite eat_plain by done. rewrite <- (str_app_cons c p).
    rewrite span_plain; [|done|by intros ? ? [= <- _]]. rewrite str_app_cons.
    change (isWhitespaceOrNull dquote) with false. change (code dquote =? 34) with true. cbv iota beta.
    change ("" ++ String c p)%string with (String c p). rewrite Hq; [done|].
    cbn [String.length] in Hf. rewrite str_length_app in Hf. cbn [String.length] in Hf. lia.
  - set (t := (w_pre w ++ w_body w ++ w_suf w)%string).
    assert (Ht : str_all plain_tok_char t = true) by (unfold t; by rewrite !str_all_app, Hp, Hb, Hs).
    assert (Htn : t <> "") by (unfold t; destruct (w_pre w); [done|]; by rewrite str_app_cons).
    clearbody t. intros f Hf. destruct t as [|c t]; [done|]. rewrite str_app_cons in *.
    destruct f as [|f]; [cbn in Hf; lia|]. cbn [tokenize_loop].
    pose proof Ht as Hc. cbn in Hc. apply andb_true_iff in Hc as [Hc _]. apply plain_tok_spec in Hc as (Hw & _).
    rewrite eat_plain by done. rewrite <- (str_app_cons c t).
    destruct He as [[-> ->]|(r & -> & Hr)].
    + rewrite span_plain by done. done.
    + rewrite span_plain; [|done|by intros ? ? [= <- _]].
      change (isWhitespaceOrNull blank) with true. unfold token_end. change (code blank =? 10) with false. cbv iota beta.
      rewrite Hr; [done|]. cbn [String.length] in Hf. rewrite str_length_app in Hf. cbn [String.length] in Hf. lia.
Qed.

Lemma words_tokens ws : Forall tok_word_ok ws ->
  TokenizeWindowsCommandLine (words_text ws) = Some (map word_token ws).
Proof.
  intros H. unfold TokenizeWindowsCommandLine.
  assert (He : ends (words_text ws) (map (fun w => AddToken (word_token w)) ws)).
  { induction H as [|w ws Hw _ IH]; [by left|]. right. eexists. split; [done|]. cbn [map fold_right].
    apply runs_tok_word; [done|exact IH]. }
  assert (Hr : runs false INIT false "" (words_text ws) (map (fun w => AddToken (word_token w)) ws)).
  { destruct He as [[-> ->]|(r & -> & Hr)]; [by intros [|f] _|]. intros f Hf. destruct f as [|f]; [cbn in Hf; lia|].
    specialize (Hr (S f) ltac:(cbn in Hf; lia)). destruct r as [|c r]; [injection Hr as <-; done|].
    cbn [tokenize_loop] in Hr |- *.
    change (eat_whitespace (String blank (String c r))) with
      (let '(o, r) := eat_whitespace (String c r) in ([] ++ o, r)).
    destruct (eat_whitespace (String c r)) as [o s1]. exact Hr. }
  rewrite Hr by lia. cbn. f_equal. clear. induction ws as [|w ws IH]; [done|]. cbn. by rewrite IH.
Qed.

(** ** The options of the fast path *)

Lemma str_take_app p x : str_take (String.length p) (p ++ x)%string = p.
Proof. induction p as [|c p IH]; [by destruct x|]. rewrite str_app_cons. cbn. by rewrite IH. Qed.

Lemma str_drop_app p x : str_drop (String.length p) (p ++ x)%string = x.
Proof. induction p as [|c p IH]; [done|]. rewrite str_app_cons. cbn. done. Qed.

Lemma split_none (c : Ascii.ascii) n : str_all (fun d => negb (code d =? code c)) n = true -> split c n = (n, "").
Proof.
  induction n as [|d n IH]; [done|]. cbn. rewrite andb_true_iff. intros [Hd Hn].
  destruct (Ascii.eqb_spec d c) as [->|]; [by rewrite Z.eqb_refl in Hd|]. by rewrite IH.
Qed.

Lemma split_first (c : Ascii.ascii) n r : str_all (fun d => negb (code d =? code c)) n = true ->
  split c (n ++ String c r)%string = (n, r).
Proof.
  induction n as [|d n IH].
  - intros _. change ("" ++ String c r)%string with (String c r). cbn. by rewrite Ascii.eqb_refl.
  - cbn [str_all]. rewrite andb_true_iff. intros [Hd Hn]. rewrite str_app_cons. cbn.
    destruct (Ascii.eqb_spec d c) as [->|]; [by rewrite Z.eqb_refl in Hd|]. by rewrite IH.
Qed.

Lemma contains_none (c : Ascii.ascii) n : str_all (fun d => negb (code d =? code c)) n = true -> str_contains (String c "") n = false.
Proof.
  induction n as [|d n IH]; [done|]. cbn [str_all str_contains]. rewrite andb_true_iff. intros [Hd Hn]. rewrite IH by done.
  rewrite orb_false_r. unfold starts_with. cbn [String.prefix].
  destruct (Ascii.ascii_dec c d) as [->|]; [by rewrite Z.eqb_refl in Hd|done].
Qed.

(** ** The words of a global *)

(** Symbols that can be written: no quote, backslash, comma, equals sign or NUL. *)
Definition symbol_char (c : Ascii.ascii) : bool :=
  quotable_char c && negb (code c =? 0) && negb (code c =? 44) && negb (code c =? 61).

Definition exported_by (g : global) : bool := gv_dllexport g && negb (gv_declaration g).
Definition excluded_by (tt : triple) (g : global) : bool := gv_hidden g && negb (gv_declaration g) && tt_cygming tt.

Definition directive_name (tt : triple) (g : global) : string :=
  if tt_gnu tt then without_prefix tt (gv_symbol g) else gv_symbol g.
Definition export_as (tt : triple) (g : global) : option string :=
  if tt_arm64ec tt then getArm64ECDemangledFunctionName (gv_name g) else None.

Definition export_word (tt : triple) (g : global) : word :=
  {| w_pre := if upper_case tt then "/EXPORT:" else "-export:";
     w_quoted := needs_directive_quotes g;
     w_body := directive_name tt g ++ match export_as tt g with Some d => ",EXPORTAS," ++ d | None => "" end;
     w_suf := if gv_function g then "" else if upper_case tt then ",DATA" else ",data" |}.
Definition exclude_word (tt : triple) (g : global) : word :=
  {| w_pre := "-exclude-symbols:"; w_quoted := needs_directive_quotes g; w_body := without_prefix tt (gv_symbol g);
     w_suf := "" |}.
Definition include_word (g : global) : word :=
  {| w_pre := "/INCLUDE:"; w_quoted := needs_directive_quotes g; w_body := gv_symbol g; w_suf := "" |}.

Definition global_words (tt : triple) (g : global) : list word :=
  (if exported_by g then [export_word tt g] else []) ++ (if excluded_by tt g then [exclude_word tt g] else []).

Lemma words_text_app a b : words_text (a ++ b) = (words_text a ++ words_text b)%string.
Proof.
  induction a as [|w a IH]; [done|]. change (words_text ((w :: a) ++ b)) with (" " ++ word_text w ++ words_text (a ++ b))%string.
  change (words_text (w :: a)) with (" " ++ word_text w ++ words_text a)%string. by rewrite IH, !str_app_assoc.
Qed.

Lemma emit_words tt g : emitLinkerFlagsForGlobalCOFF tt g = words_text (global_words tt g).
Proof.
  unfold emitLinkerFlagsForGlobalCOFF, global_words, exported_by, excluded_by. rewrite words_text_app. f_equal.
  - destruct (gv_dllexport g && negb (gv_declaration g)); [|done]. unfold words_text, word_text, export_word, directive_name, export_as. cbn [fold_right w_pre w_quoted w_body w_suf].
    rewrite str_app_nil. destruct (upper_case tt), (tt_arm64ec tt); try done.
    all: destruct (getArm64ECDemangledFunctionName (gv_name g)); done.
  - destruct (gv_hidden g && negb (gv_declaration g) && tt_cygming tt); [|done].
    unfold words_text, word_text, exclude_word. cbn [fold_right w_pre w_quoted w_body w_suf]. by rewrite !str_app_nil.
Qed.

Lemma emit_used tt g : tt_msvc tt = true -> emitLinkerFlagsForUsedCOFF tt g = words_text [include_word g].
Proof.
  intros H. unfold emitLinkerFlagsForUsedCOFF, words_text, word_text, include_word. rewrite H. cbn [fold_right w_pre w_quoted w_body w_suf].
  by rewrite !str_app_nil.
Qed.

Definition append_all {A} (f : A -> string) (l : list A) : string := fold_right (fun a s => (f a ++ s)%string) "" l.

Lemma append_words {A} (f : A -> string) (g : A -> list word) l : (forall a, a ∈ l -> f a = words_text (g a)) ->
  append_all f l = words_text (concat (map g l)).
Proof.
  intros H. induction l as [|a l IH]; [done|]. cbn [append_all fold_right concat map]. rewrite words_text_app, H by by left.
  f_equal. apply IH. intros b Hb. apply H. by right.
Qed.

(** A global of the target whose names can be written and are decorated as the
    target's are. *)
Record global_ok (cfg : st_config) (mingw : bool) (tt : triple) (g : global) : Prop := {
  go_nonempty : without_prefix tt (gv_symbol g) <> "" /\ gv_symbol g <> "";
  go_chars : str_all symbol_char (gv_symbol g) = true;
  go_plain : needs_directive_quotes g = false -> str_all plain_tok_char (gv_symbol g) = true;
  go_as : forall d, export_as tt g = Some d -> d <> "" /\ str_all symbol_char d = true /\ gv_function g = true /\
                   (needs_directive_quotes g = false -> str_all plain_tok_char d = true);
  go_decorated : is_I386 cfg = true -> mingw = true ->
    (exists r, gv_symbol g = ("_" ++ r)%string /\ isDecorated mingw r = false) \/
    (starts_with "_" (gv_symbol g) = false /\ isDecorated mingw (gv_symbol g) = true)
}.

(** The flavour and the prefix of the target. *)
Definition target_ok (cfg : st_config) (mingw : bool) (tt : triple) : Prop :=
  tt_gnu tt = mingw /\
  tt_prefix tt = (if is_I386 cfg then Ascii.ascii_of_nat 95 else Ascii.zero).

Lemma without_prefix_all tt p s : str_all p s = true -> str_all p (without_prefix tt s) = true.
Proof. destruct s as [|c s]; [done|]. cbn. destruct (Ascii.eqb c (tt_prefix tt)); [|done]. by intros [_ ?]%andb_true_iff. Qed.

Lemma directive_name_all tt p g : str_all p (gv_symbol g) = true -> str_all p (directive_name tt g) = true.
Proof. unfold directive_name. destruct (tt_gnu tt); [apply without_prefix_all|done]. Qed.

Lemma symbol_quotable c : symbol_char c = true -> quotable_char c = true.
Proof. unfold symbol_char. rewrite !andb_true_iff. tauto. Qed.

Lemma global_words_ok cfg mingw tt g : global_ok cfg mingw tt g -> Forall tok_word_ok (global_words tt g).
Proof.
  intros [_ Hc Hp Ha _]. unfold global_words. apply Forall_app. split; case_match; try apply Forall_nil_2; apply Forall_singleton.
  - unfold tok_word_ok, export_word. cbn [w_pre w_quoted w_body w_suf].
    split_and!; [by destruct (upper_case tt)|by destruct (upper_case tt)|by destruct (gv_function g), (upper_case tt)|].
    destruct (needs_directive_quotes g); rewrite str_all_app; apply andb_true_iff.
    + split; [apply directive_name_all, (str_all_impl symbol_char); [apply symbol_quotable|done]|].
      destruct (export_as tt g) as [d|]; [|done]. rewrite str_all_app. apply andb_true_iff. split; [done|].
      destruct (Ha d eq_refl) as (_ & Hd & _). apply (str_all_impl symbol_char); [apply symbol_quotable|done].
    + split; [by apply directive_name_all, Hp|]. destruct (export_as tt g) as [d|]; [|done].
      rewrite str_all_app. apply andb_true_iff. split; [done|]. by apply (Ha d).
  - unfold tok_word_ok, exclude_word. cbn [w_pre w_quoted w_body w_suf]. split_and!; [done..|]. apply without_prefix_all. destruct (needs_directive_quotes g); [|by apply Hp].
    apply (str_all_impl symbol_char); [apply symbol_quotable|done].
Qed.

(** ** Reading them *)

(** The argument of an export directive. *)
Definition export_arg (tt : triple) (g : global) : string :=
  (directive_name tt g ++ match export_as tt g with Some d => ",EXPORTAS," ++ d | None => "" end ++
   (if gv_function g then "" else if upper_case tt then ",DATA" else ",data"))%string.

Definition no_directives : ParsedDirectives := {| pd_exports := []; pd_includes := []; pd_excludes := [] |}.
Definition add_directives (a b : ParsedDirectives) : ParsedDirectives :=
  {| pd_exports := pd_exports a ++ pd_exports b; pd_includes := pd_includes a ++ pd_includes b;
     pd_excludes := pd_excludes a ++ pd_excludes b |}.

Lemma fast_path_app a b : fast_path (a ++ b) =
  (add_directives (fast_path a).1 (fast_path b).1, (fast_path a).2 ++ (fast_path b).2).
Proof.
  induction a as [|t a IH]; cbn [app fast_path]; [by destruct (fast_path b) as [[] ?]|]. rewrite IH.
  destruct (fast_path a) as [d r]. cbn [fst snd]. repeat case_match; done.
Qed.

Lemma fast_path_export tt g : fast_path [word_token (export_word tt g)] =
  ({| pd_exports := [export_arg tt g]; pd_includes := []; pd_excludes := [] |}, []).
Proof.
  unfold word_token, export_word, export_arg. cbn [w_pre w_quoted w_body w_suf]. rewrite str_app_assoc.
  set (x := (directive_name tt g ++ _)%string). by destruct (upper_case tt).
Qed.

Lemma fast_path_exclude tt g : fast_path [word_token (exclude_word tt g)] =
  ({| pd_exports := []; pd_includes := []; pd_excludes := [without_prefix tt (gv_symbol g)] |}, []).
Proof. unfold word_token, exclude_word. cbn [w_pre w_quoted w_body w_suf]. by rewrite str_app_nil. Qed.

Lemma fast_path_include g : fast_path [word_token (include_word g)] =
  ({| pd_exports := []; pd_includes := [gv_symbol g]; pd_excludes := [] |}, []).
Proof. unfold word_token, include_word. cbn [w_pre w_quoted w_body w_suf]. by rewrite str_app_nil. Qed.

Lemma fast_path_globals tt gs : fast_path (map word_token (concat (map (global_words tt) gs))) =
  ({| pd_exports := map (export_arg tt) (List.filter exported_by gs); pd_includes := [];
      pd_excludes := map (fun g => without_prefix tt (gv_symbol g)) (List.filter (excluded_by tt) gs) |}, []).
Proof.
  induction gs as [|g gs IH]; [done|]. cbn [map concat List.filter]. rewrite map_app, fast_path_app, IH.
  unfold global_words. rewrite map_app, fast_path_app.
  destruct (exported_by g), (excluded_by tt g); cbn [map]; rewrite ?fast_path_export, ?fast_path_exclude; done.
Qed.

Lemma fast_path_includes us : fast_path (map word_token (concat (map (fun u => [include_word u]) us))) =
  ({| pd_exports := []; pd_includes := map gv_symbol us; pd_excludes := [] |}, []).
Proof.
  induction us as [|u us IH]; [done|]. cbn [map concat]. rewrite map_app, fast_path_app, IH.
  cbn [map]. by rewrite fast_path_include.
Qed.

(** The export of a global. *)
Definition exported_global (tt : triple) (name : string) (g : global) : Export :=
  with_exportAs (default "" (export_as tt g)) (export_flags false (negb (gv_function g)) false false
    (plain_export name "" "" Directives)).

Lemma symbol_no (c : Ascii.ascii) s : code c = 44 \/ code c = 61 -> str_all symbol_char s = true ->
  str_all (fun d => negb (code d =? code c)) s = true.
Proof.
  intros Hc. apply str_all_impl. intros d. unfold symbol_char. rewrite !andb_true_iff. by intros [[_ ?] ?]; destruct Hc as [-> | ->].
Qed.

Lemma export_parameters_as fuel arg d e : str_all (fun c => negb (code c =? 44)) d = true ->
  export_parameters (S fuel) arg ("EXPORTAS" ++ String (ch 44) d)%string e =
  if negb (String.eqb d "") && negb (str_contains "," d) then Ret (with_exportAs d e, []) else Ret (e, [InvalidExportAs d]).
Proof.
  intros Hd. change ("EXPORTAS" ++ String (ch 44) d)%string with (String (ch 69) ("XPORTAS" ++ String (ch 44) d)).
  cbn [export_parameters]. change (String (ch 69) ("XPORTAS" ++ String (ch 44) d)) with ("EXPORTAS" ++ String (ch 44) d)%string.
  by rewrite (split_first (ch 44) "EXPORTAS" d).
Qed.

Lemma parse_export_arg cfg mingw tt g : global_ok cfg mingw tt g ->
  exists e, parseExport (export_arg tt g) = Ret (e, []) /\
    with_source Directives e = exported_global tt (directive_name tt g) g.
Proof.
  intros [Hne Hc _ Ha _]. unfold parseExport, export_arg, exported_global.
  assert (Hn : str_all symbol_char (directive_name tt g) = true) by by apply directive_name_all.
  assert (Hnn : directive_name tt g <> "") by (unfold directive_name; by destruct (tt_gnu tt), Hne).
  set (n := directive_name tt g) in *. clearbody n.
  assert (H44 : str_all (fun d => negb (code d =? code (ch 44))) n = true) by (apply symbol_no; [by left|done]).
  assert (H61 : str_contains "=" n = false) by (apply contains_none, symbol_no; [by right|done]).
  apply String.eqb_neq in Hnn.
  destruct (export_as tt g) as [d|].
  - destruct (Ha d eq_refl) as (Hd & Hdc & -> & _). rewrite str_app_nil. 
    change (",EXPORTAS," ++ d)%string with (String (ch 44) ("EXPORTAS" ++ String (ch 44) d)).
    rewrite split_first, Hnn, H61 by done.
    assert (Hcd : str_contains "," d = false) by (apply contains_none, symbol_no; [by left|done]).
    apply String.eqb_neq in Hd. eexists. split.
    { change (String.length ("EXPORTAS" ++ String (ch 44) d)) with (S (7 + S (String.length d))).
      rewrite export_parameters_as by (apply (symbol_no (ch 44)); [by left|done]). by rewrite Hd, Hcd. }
    done.
  - change ("" ++ ?x)%string with x. destruct (gv_function g).
    + rewrite str_app_nil, split_none, Hnn, H61 by done. by eexists.
    + assert (E : forall suf r, suf = String (ch 44) r -> split (ch 44) (n ++ suf)%string = (n, r)) by (intros ? ? ->; by apply split_first).
      destruct (upper_case tt); [rewrite (E _ "DATA") by done|rewrite (E _ "data") by done]; rewrite Hnn, H61; by eexists.
Qed.

Section Link.
  Context (cfg : st_config) (mingw hybrid : bool) (insertion_point : string -> option nat).
  Context (ParseArgs : list string -> list arg * bool) (findLib : string -> string) (tt : triple).
  Context (Htarget : target_ok cfg mingw tt).

(** The decoration that was taken off is put back. *)
Lemma decorate_directive_name g : global_ok cfg mingw tt g ->
  decorate_export cfg mingw (exported_global tt (directive_name tt g) g) = exported_global tt (gv_symbol g) g.
Proof using Htarget.
  intros [[_ Hne] Hc _ _ Hd]. destruct Htarget as [Hg Hp]. unfold decorate_export, directive_name.
  assert (Hnul : is_I386 cfg = false -> without_prefix tt (gv_symbol g) = gv_symbol g).
  { intros E. rewrite E in Hp. destruct (gv_symbol g) as [|c s]; [done|]. cbn in Hc |- *.
    destruct (Ascii.eqb_spec c (tt_prefix tt)) as [->|]; [|done]. rewrite Hp in Hc. done. }
  rewrite Hg. destruct (is_I386 cfg) eqn:E386; cbn [andb].
  - destruct mingw; [|done]. unfold with_names. cbn [e_name extName exported_global with_exportAs export_flags plain_export].
    destruct (Hd eq_refl eq_refl) as [(r & Er & Hr)|[Hs Hdec]].
    + assert (Ew : without_prefix tt ("_" ++ r)%string = r) by (rewrite str_app_cons; unfold without_prefix; by rewrite Hp).
      rewrite Er, Ew, Hr. done.
    + assert (Ew : without_prefix tt (gv_symbol g) = gv_symbol g).
      { destruct (gv_symbol g) as [|c s]; [done|]. cbn. rewrite Hp.
        destruct (Ascii.eqb_spec c (Ascii.ascii_of_nat 95)) as [->|]; [|done]. unfold starts_with in Hs. cbn in Hs. by destruct s. }
      rewrite Ew, Hdec. done.
  - destruct mingw; [|done]. by rewrite Hnul.
Qed.

Lemma directive_export_one g s : global_ok cfg mingw tt g -> export_arg tt g ∉ directivesExports s ->
  exists s', directive_export cfg mingw (export_arg tt g) s = Ret s' /\
    exports s' = exports s ++ [exported_global tt (gv_symbol g) g] /\
    directivesExports s' = {[ export_arg tt g ]} ∪ directivesExports s /\
    l_symtab s' = l_symtab s /\ o_log (l_options s') = o_log (l_options s).
Proof using Htarget.
  intros Hg Hs. unfold directive_export. rewrite bool_decide_eq_false_2 by done.
  destruct (parse_export_arg cfg mingw tt g Hg) as (e & -> & He). cbn [res_bind fst snd]. eexists. split; [done|].
  cbn [exports with_exports on_options directivesExports l_symtab l_options o_log log_events]. rewrite app_nil_r.
  split_and!; try done. do 2 f_equal. rewrite <- (decorate_directive_name g Hg), <- He. unfold decorate_export.
  by destruct (is_I386 cfg && mingw).
Qed.

(** Directives of different symbols are different. *)
Lemma export_arg_inj g g' : global_ok cfg mingw tt g -> global_ok cfg mingw tt g' ->
  export_arg tt g = export_arg tt g' -> gv_symbol g = gv_symbol g'.
Proof using Htarget.
  intros Hg Hg' E. destruct (parse_export_arg cfg mingw tt g Hg) as (e & H & He).
  destruct (parse_export_arg cfg mingw tt g' Hg') as (e' & H' & He'). rewrite E, H' in H. injection H as ->.
  apply (f_equal (decorate_export cfg mingw)) in He, He'. rewrite decorate_directive_name in He by done.
  rewrite decorate_directive_name in He' by done. rewrite He in He'. by apply (f_equal e_name) in He'.
Qed.

Lemma directive_exports_all gs s : Forall (global_ok cfg mingw tt) gs -> NoDup (map gv_symbol gs) ->
  (forall g, g ∈ gs -> export_arg tt g ∉ directivesExports s) ->
  exists s', res_fold (directive_export cfg mingw) (map (export_arg tt) gs) s = Ret s' /\
    exports s' = exports s ++ map (fun g => exported_global tt (gv_symbol g) g) gs /\
    l_symtab s' = l_symtab s /\ o_log (l_options s') = o_log (l_options s).
Proof using Htarget.
  intros Hgs. revert s. induction Hgs as [|g gs Hg Hgs IH]; intros s Hnd Hfresh.
  { exists s. split; [done|]. by rewrite app_nil_r. }
  cbn [map] in Hnd. apply NoDup_cons in Hnd as [Hni Hnd]. cbn [map res_fold].
  destruct (directive_export_one g s Hg) as (s1 & -> & He & Hd & Ht & Hl); [apply Hfresh; by left|]. cbn [res_bind].
  destruct (IH s1 Hnd) as (s2 & -> & He2 & Ht2 & Hl2).
  { intros g' Hg'. rewrite Hd. intros [Hin%elem_of_singleton|Hin]%elem_of_union; [|destruct (Hfresh g'); [by right|done]].
    destruct Hni. rewrite Forall_forall in Hgs. rewrite <- (export_arg_inj g' g (Hgs g' Hg') Hg Hin).
    by apply (list_elem_of_fmap_2 gv_symbol). }
  exists s2. split; [done|]. rewrite He2, He, <- app_assoc, Ht2, Ht, Hl2, Hl. done.
Qed.

Lemma includes_all l s :
  let s' := fold_left (fun s i => directive_include cfg insertion_point i s) l s in
  exports s' = exports s /\ l_options s' = l_options s /\
  l_symtab s' = fold_left (fun T i => addGCRoot cfg insertion_point i false T) l (l_symtab s).
Proof using Type. revert s. induction l as [|i l IH]; intros s; [done|]. exact (IH _). Qed.

Lemma excludes_all l s :
  let s' := fold_left (fun s e => directive_exclude cfg e s) l s in
  exports s' = exports s /\ l_options s' = l_options s /\ l_symtab s' = l_symtab s.
Proof using Type. revert s. induction l as [|i l IH]; intros s; [done|]. exact (IH _). Qed.

(** What LLVM writes for the exported and the used globals of a module. *)
Definition module_directives (gs us : list global) : string :=
  (append_all (emitLinkerFlagsForGlobalCOFF tt) gs ++ append_all (emitLinkerFlagsForUsedCOFF tt) us)%string.

Definition used_ok (g : global) : Prop :=
  str_all (if needs_directive_quotes g then quotable_char else plain_tok_char) (gv_symbol g) = true.

Definition used_by (us : list global) : list global := if tt_msvc tt then us else [].

Lemma module_words gs us : module_directives gs us =
  words_text (concat (map (global_words tt) gs) ++ concat (map (fun u => [include_word u]) (used_by us))).
Proof using Type.
  unfold module_directives, used_by. rewrite words_text_app. f_equal; [apply append_words; intros; apply emit_words|].
  destruct (tt_msvc tt) eqn:E; [apply append_words; intros; by apply emit_used|].
  induction us as [|u us IH]; [done|]. cbn [append_all fold_right]. unfold append_all in IH. rewrite IH.
  unfold emitLinkerFlagsForUsedCOFF. by rewrite E.
Qed.


End Link.

(** ** A MinGW module on x86 *)

Definition mingw_x86 : st_config :=
  {| st_machine := I386; hybridEC := false; wordsize := 4; stdcallFixup := true; autoImport := true;
     forceUnresolved := false; allowDuplicateWeak := false; warnLocallyDefinedImported := false |}.
Definition mingw_target : triple :=
  {| tt_msvc := false; tt_uefi := false; tt_gnu := true; tt_arm64ec := false; tt_cygming := true; tt_prefix := Ascii.ascii_of_nat 95 |}.
Definition a_global (n sym : string) (exp fn : bool) : global :=
  {| gv_hasName := true; gv_name := n; gv_symbol := sym; gv_dllexport := exp; gv_hidden := negb exp;
     gv_declaration := false; gv_function := fn |}.
Definition a_module : list global :=
  [a_global "f" "_f@4" true true; a_global "hidden" "_hidden" false true; a_global "a var" "_a var" true false;
   a_global "fast" "@fast@8" true true].
Definition fresh_state : link_state :=
  {| l_options := {| o_merge := ∅; o_section := ∅; o_mustMatch := ∅; o_subsystem := 0; o_subsystemVersion := (0, 0);
                     o_osVersion := (0, 0); o_stack := (0, 0); o_writeCheckSum := false; o_manifestDependencies := [];
                     o_noDefaultLibs := ∅; o_log := [] |};
     l_symtab := {| symMap := ∅; locals := ∅; lazyFiles := ∅; archiveSeen := ∅; dllSeen := ∅; chunks := ∅; gcroot := [];
                    expSymbols := []; log := [] |};
     l_other := None; l_entry := None; l_otherEntry := None; directivesExports := ∅; exports := [];
     alternateNames := ∅; alignComm := ∅; excludedSymbols := ∅; sameAddresses := [] |}.


(** ** The parsers of options *)

Lemma split_shorter c s : s <> "" -> (String.length (split c s).2 < String.length s)%nat.
Proof.
  destruct s as [|d s]; [done|]. intros _. cbn. pose proof (split_length c s).
  destruct (Ascii.eqb d c); [cbn; lia|]. destruct (split c s). cbn in *. lia.
Qed.

(** [parseExport] ends, with an export or the fatal error. *)
Lemma export_parameters_total fuel arg rest e : (String.length rest <= fuel)%nat ->
  (exists x, export_parameters fuel arg rest e = Ret x) \/ export_parameters fuel arg rest e = Fatal arg.
Proof.
  revert rest e. induction fuel as [|fuel IH]; intros rest e Hf.
  - destruct rest; [left; by eexists|cbn in Hf; lia].
  - destruct rest as [|c rest]; [left; by eexists|]. cbn [export_parameters].
    pose proof (split_shorter (ch 44) (String c rest) ltac:(done)) as Hl.
    destruct (split (ch 44) (String c rest)) as [tok r]. cbn in Hl, Hf.
    assert (Hr : (String.length r <= fuel)%nat) by lia.
    repeat match goal with
      | |- context [if ?b then _ else _] => destruct b
      | |- context [match getAsInteger_signed ?w ?r ?s with _ => _ end] => destruct (getAsInteger_signed w r s)
      end; try (by apply IH); try (by right); left; by eexists.
Qed.

Lemma parseExport_outcomes arg : (exists x, parseExport arg = Ret x) \/ parseExport arg = Fatal arg.
Proof.
  unfold parseExport. destruct (split (ch 44) arg) as [name rest]. destruct (String.eqb name ""); [by right|].
  destruct (str_contains "=" name); [|by apply export_parameters_total].
  destruct (split (ch 61) name) as [x y]. destruct (str_contains "." y); [by apply export_parameters_total|].
  destruct (String.eqb y ""); [by right|by apply export_parameters_total].
Qed.

(** The attributes of /section are the letters given: a bit is set exactly when
    one of its letters is there. *)
Lemma section_attributes_exact s l ret v i :
  section_attributes s l ret = Ret v ->
  Z.testbit v i = Z.testbit ret i || str_any (fun c => match section_letter c with Some b => Z.testbit b i | None => false end) l.
Proof.
  revert ret. induction l as [|c l IH]; intros ret; cbn [section_attributes str_any]; [intros [= ->]; by rewrite orb_false_r|].
  destruct (section_letter c) as [b|]; [|intros H; discriminate H]. intros H. rewrite (IH _ H), Z.lor_spec. by rewrite orb_assoc.
Qed.

(** ** /failifmismatch *)

Definition binding (arg : string) : string * string := split (ch 61) arg.

Lemma checkFail_step arg m m' : checkFailIfMismatch arg m = Ret m' ->
  (binding arg).2 <> "" /\ m' = <[(binding arg).1 := (binding arg).2]> m /\
  (forall v, m !! (binding arg).1 = Some v -> v <> "" -> v = (binding arg).2).
Proof.
  unfold checkFailIfMismatch, binding. destruct (split (ch 61) arg) as [k v]. cbn.
  destruct (String.eqb_spec k ""), (String.eqb_spec v ""); try done. cbn [orb].
  destruct (m !! k) as [x|] eqn:E; cbn; [|intros [= <-]; split_and!; naive_solver].
  destruct (String.eqb_spec x ""), (String.eqb_spec v x); try done; intros [= <-]; split_and!; naive_solver.
Qed.

(** The /failifmismatch directives of all files are accepted exactly when each
    is a key and a value and no key is given two values, whatever the order of the
    files. *)
Theorem failifmismatch_consistent (args : list string) :
  (exists m, res_fold checkFailIfMismatch args ∅ = Ret m) <->
  Forall (fun a => (binding a).1 <> "" /\ (binding a).2 <> "") args /\
  (forall a b, a ∈ args -> b ∈ args -> (binding a).1 = (binding b).1 -> (binding a).2 = (binding b).2).
Proof.
  set (ok := Forall (fun a => (binding a).1 <> "" /\ (binding a).2 <> "") args).
  enough (H : forall m, (forall k v, m !! k = Some v -> v <> "") ->
    (exists m', res_fold checkFailIfMismatch args m = Ret m') <->
    ok /\ (forall a b, a ∈ args -> b ∈ args -> (binding a).1 = (binding b).1 -> (binding a).2 = (binding b).2) /\
    (forall a v, a ∈ args -> m !! (binding a).1 = Some v -> v = (binding a).2)).
  { rewrite (H ∅) by (intros k v Hkv; by rewrite lookup_empty in Hkv). split; [tauto|]. intros [? ?].
    split_and!; [done|done|]. intros a v _ Hv. by rewrite lookup_empty in Hv. }
  subst ok. induction args as [|a args IH]; intros m Hm.
  { cbn. split; [|by eexists]. intros _. split_and!; [constructor|by intros ? ? ?%elem_of_nil|by intros ? ? ?%elem_of_nil]. }
  cbn [res_fold]. split.
  - intros [m' H]. destruct (checkFailIfMismatch a m) as [m1| | |] eqn:E; try done. cbn [res_bind] in H.
    assert (Hk : (binding a).1 <> "") by (intros Hk; unfold checkFailIfMismatch, binding in *; destruct (split (ch 61) a); cbn in *; by subst).
    apply checkFail_step in E as (Hv & -> & Hold).
    destruct (proj1 (IH (<[(binding a).1 := (binding a).2]> m) ltac:(intros k v [[? <-]|[? ?]]%lookup_insert_Some; [done|by eapply Hm])) (ex_intro _ _ H)) as (Hok & Hall & Hnew).
    assert (Hsame : forall b, b ∈ args -> (binding a).1 = (binding b).1 -> (binding a).2 = (binding b).2).
    { intros b Hb Hab. apply (Hnew b); [done|]. by rewrite <- Hab, lookup_insert_eq. }
    split_and!; [by constructor| |].
    + intros x y [->|Hx]%elem_of_cons [->|Hy]%elem_of_cons Hxy; [done|by apply Hsame|symmetry; by apply Hsame|by apply Hall].
    + intros x v [->|Hx]%elem_of_cons Hv'; [by apply Hold; [|eapply Hm]|].
      destruct (decide ((binding a).1 = (binding x).1)) as [Hax|Hax]; [|apply (Hnew x); [done|by rewrite lookup_insert_ne]].
      rewrite <- (Hsame x Hx Hax). rewrite <- Hax in Hv'. by apply Hold; [|eapply Hm].
  - intros (Hok & Hall & Hold). apply Forall_cons in Hok as [[Hk Hv] Hok].
    assert (E : checkFailIfMismatch a m = Ret (<[(binding a).1 := (binding a).2]> m)).
    { pose proof (Hold a) as Ha. unfold checkFailIfMismatch, binding in *. destruct (split (ch 61) a) as [k v]. cbn in *.
      apply String.eqb_neq in Hk as ->. apply String.eqb_neq in Hv as ->. cbn [orb].
      destruct (m !! k) as [x|] eqn:Ex; cbn [default]; [|done].
      rewrite (Ha x ltac:(by left) eq_refl), String.eqb_refl, andb_false_r. done. }
    rewrite E. cbn [res_bind]. apply IH; [intros k v [[? <-]|[? ?]]%lookup_insert_Some; [done|by eapply Hm]|].
    split_and!; [done|intros x y Hx Hy; apply Hall; by right|].
    intros x v Hx [[Hax <-]|[_ Hv']]%lookup_insert_Some; [apply Hall; [by left|by right|done]|apply Hold; [by right|done]].
Qed.
