(* ===== verification/Options.v ===== *)
(** * Options with a syntax of their own (lld/COFF/DriverUtils.cpp, Driver.cpp,
      lld/Common/Args.cpp)

    The parsers of the command line's options that directives do not have, over the
    part of the configuration they write. The contents of files are arguments. *)

From S2P Require Import Prelude SymbolTable Exports StringRef CommandLine Directives.

#[local] Open Scope string_scope.
#[local] Open Scope list_scope.
#[local] Open Scope Z_scope.

(** ** /guard *)

Definition Guard_Off : Z := 0.
Definition Guard_CF : Z := 1.
Definition Guard_LongJmp : Z := 2.
Definition Guard_EHCont : Z := 4.

Definition guard_arg (arg : string) (guardCF : Z) : option Z :=
  if equals_insensitive arg "no" then Some Guard_Off
  else if equals_insensitive arg "nolongjmp" then Some (Z.land guardCF (Z.lnot Guard_LongJmp))
  else if equals_insensitive arg "noehcont" then Some (Z.land guardCF (Z.lnot Guard_EHCont))
  else if equals_insensitive arg "cf" || equals_insensitive arg "longjmp" then
    Some (guardCF ||| (Guard_CF ||| Guard_LongJmp))
  else if equals_insensitive arg "ehcont" then Some (guardCF ||| (Guard_CF ||| Guard_EHCont))
  else None.

Fixpoint parseGuard_args (args : list string) (guardCF : Z) : res Z :=
  match args with
  | [] => Ret guardCF
  | a :: args => match guard_arg a guardCF with Some g => parseGuard_args args g | None => Fatal a end
  end.
Definition parseGuard (fullArg : string) (guardCF : Z) : res Z := parseGuard_args (str_split (ch 44) fullArg) guardCF.

(** ** Numbers *)

(** The new value, or the error that leaves the old one. *)
Definition parsePDBPageSize (s : string) : option Z :=
  match getAsInteger_signed 32 0 s with
  | Some v => if (v =? 4096) || (v =? 8192) || (v =? 16384) || (v =? 32768) then Some v else None
  | None => None
  end.

Definition parseFunctionPadMin (mach : machine) (arg : string) : option Z :=
  if negb (String.eqb arg "") then getAsInteger 32 0 arg
  else match mach with I386 => Some 5 | AMD64 => Some 6 | _ => None end.

Definition parseDependentLoadFlags (arg : string) : option Z :=
  if negb (String.eqb arg "") then getAsInteger 16 0 arg else None.

(** What is reported for a DOS stub, which is kept in every case; a file is read
    with a NUL after it. *)
Definition parseDosStub (stub : list Z) : list option_event :=
  let buffer := stub ++ [0] in
  (if Z.of_nat (length stub) <? 64 then [InvalidOption "stub must be greater than or equal to 64 bytes"] else []) ++
  (if negb (nth 0 buffer 0 =? 77) || negb (nth 1 buffer 0 =? 90) then [InvalidOption "invalid DOS signature"] else []).

(** ** Manifests *)

Inductive ManifestKind := Default | SideBySide | Embed | No.

(** The kind, and the id when one is given. *)
Definition parseManifest (arg : string) : res (ManifestKind * option Z) :=
  if equals_insensitive arg "no" then Ret (No, None)
  else if negb (starts_with_insensitive "embed" arg) then Fatal arg
  else
    let arg := str_drop 5 arg in
    if String.eqb arg "" then Ret (Embed, None)
    else if negb (starts_with_insensitive ",id=" arg) then Fatal arg
    else match getAsInteger_signed 32 0 (str_drop 4 arg) with
         | Some id => Ret (Embed, Some id)
         | None => Fatal (str_drop 4 arg)
         end.

Record uac := { manifestUAC : bool; manifestLevel : string; manifestUIAccess : string }.

(** [split(" ")] around the first blank. *)
Fixpoint parseManifestUAC_loop (fuel : nat) (arg : string) (u : uac) : res uac :=
  match fuel with
  | O => Unfinished
  | S fuel =>
      let arg := ltrim whitespace arg in
      if String.eqb arg "" then Ret u
      else if starts_with_insensitive "level=" arg then
        let '(v, arg) := split (ch 32) (str_drop 6 arg) in
        parseManifestUAC_loop fuel arg {| manifestUAC := manifestUAC u; manifestLevel := v; manifestUIAccess := manifestUIAccess u |}
      else if starts_with_insensitive "uiaccess=" arg then
        let '(v, arg) := split (ch 32) (str_drop 9 arg) in
        parseManifestUAC_loop fuel arg {| manifestUAC := manifestUAC u; manifestLevel := manifestLevel u; manifestUIAccess := v |}
      else Fatal arg
  end.
Definition parseManifestUAC (arg : string) (u : uac) : res uac :=
  if equals_insensitive arg "no" then
    Ret {| manifestUAC := false; manifestLevel := manifestLevel u; manifestUIAccess := manifestUIAccess u |}
  else parseManifestUAC_loop (S (String.length arg)) arg u.

(** ** /swaprun *)

Definition last_is (c : Ascii.ascii) (s : string) : bool :=
  (1 <=? String.length s)%nat && String.eqb (str_last 1 s) (String c "").

Fixpoint parseSwaprun_loop (fuel : nat) (arg : string) (swaprunCD swaprunNet : bool)
    : option (bool * bool * list option_event) :=
  match fuel with
  | O => None
  | S fuel =>
      let '(swaprun, newArg) := split (ch 44) arg in
      let cd := swaprunCD || equals_insensitive swaprun "cd" in
      let net := swaprunNet || (negb (equals_insensitive swaprun "cd") && equals_insensitive swaprun "net") in
      let ev := (if equals_insensitive swaprun "cd" || equals_insensitive swaprun "net" then []
                 else [InvalidOption swaprun]) ++
                (if String.eqb newArg "" && last_is (ch 44) arg then [InvalidOption ""] else []) in
      if String.eqb newArg "" then Some (cd, net, ev)
      else (fun x => (x.1, ev ++ x.2)) <$> parseSwaprun_loop fuel newArg cd net
  end.
Definition parseSwaprun (arg : string) (swaprunCD swaprunNet : bool) : option (bool * bool * list option_event) :=
  parseSwaprun_loop (S (String.length arg)) arg swaprunCD swaprunNet.

(** ** Files of names *)

Definition line_end : string := chars [13; 10]%nat.

(** [parseSectionLayout]: the names in their order, and the ones given twice. *)
Fixpoint parseSectionLayout_loop (fuel : nat) (content : string) (index : Z) (order : gmap string Z)
    : option (gmap string Z * list option_event) :=
  match content with
  | EmptyString => Some (order, [])
  | _ =>
      match fuel with
      | O => None
      | S fuel =>
          let '(line, content) := span (fun c => negb (has_char line_end c)) content in
          let content := ltrim line_end content in
          let line := trim line in
          if String.eqb line "" then parseSectionLayout_loop fuel content index order
          else
            let sectionName := (split (ch 32) line).1 in
            if bool_decide (is_Some (order !! sectionName)) then
              prod_map id (cons (DuplicateLayoutSection sectionName)) <$> parseSectionLayout_loop fuel content index order
            else parseSectionLayout_loop fuel content (index + 1) (<[sectionName := index]> order)
      end
  end.
Definition parseSectionLayout (content : string) (order : gmap string Z) : option (gmap string Z * list option_event) :=
  parseSectionLayout_loop (String.length content) content 0 order.

(** [args::getLines]. *)
Definition getLines (buffer : string) : list string :=
  List.filter (fun s => match s with String c _ => negb (code c =? 35) | EmptyString => false end)
    (map trim (str_split (ch 10) buffer)).

(** [parseOrderFile]: the rank of the symbols of the lines, from INT_MIN; those
    with no COMDAT section ([comdats]) are reported. *)
Definition order_line (mach : machine) (mingw : bool) (comdats : gset string)
    (st : gmap string Z * list string) (arg : string) : gmap string Z * list string :=
  let s := match mach with I386 => if isDecorated mingw arg then arg else ("_" ++ arg)%string | _ => arg end in
  if bool_decide (s ∈ comdats) then (<[s := - 2 ^ 31 + Z.of_nat (size st.1)]> st.1, st.2) else (st.1, st.2 ++ [s]).

Definition parseOrderFile (mach : machine) (mingw : bool) (comdats : gset string) (buffer : string)
    (order : gmap string Z) : gmap string Z * list string :=
  fold_left (order_line mach mingw comdats) (getLines buffer) (order, []).

(** ** The loops end *)

Lemma ltrim_length set s : (String.length (ltrim set s) <= String.length s)%nat.
Proof. apply span_length. Qed.

Lemma starts_insensitive_length p s : starts_with_insensitive p s = true -> (String.length p <= String.length s)%nat.
Proof. unfold starts_with_insensitive. intros [H _]%andb_true_iff. by apply Nat.leb_le. Qed.

Lemma parseManifestUAC_total arg u :
  (exists u', parseManifestUAC arg u = Ret u') \/ (exists a, parseManifestUAC arg u = Fatal a).
Proof.
  unfold parseManifestUAC. destruct (equals_insensitive arg "no"); [left; by eexists|].
  enough (H : forall f arg u, (String.length arg < f)%nat ->
    (exists u', parseManifestUAC_loop f arg u = Ret u') \/ (exists a, parseManifestUAC_loop f arg u = Fatal a)) by (apply H; lia).
  clear arg u. induction f as [|f IH]; intros arg u Hf; [lia|]. cbn [parseManifestUAC_loop].
  pose proof (ltrim_length whitespace arg) as Hl. set (a := ltrim whitespace arg) in *. clearbody a.
  destruct (String.eqb_spec a ""); [left; by eexists|].
  destruct (starts_with_insensitive "level=" a) eqn:E1; [|destruct (starts_with_insensitive "uiaccess=" a) eqn:E2].
  3: { right. by eexists. }
  - apply starts_insensitive_length in E1. cbn in E1. pose proof (split_length (ch 32) (str_drop 6 a)). rewrite str_drop_length in *. destruct (split _ _). apply IH. cbn in *. lia.
  - apply starts_insensitive_length in E2. cbn in E2. pose proof (split_length (ch 32) (str_drop 9 a)). rewrite str_drop_length in *. destruct (split _ _). apply IH. cbn in *. lia.
Qed.

Lemma parseSwaprun_total arg cd net : is_Some (parseSwaprun arg cd net).
Proof.
  unfold parseSwaprun.
  enough (H : forall f arg cd net, (String.length arg < f)%nat -> is_Some (parseSwaprun_loop f arg cd net)) by (apply H; lia).
  clear. induction f as [|f IH]; intros arg cd net Hf; [lia|]. cbn [parseSwaprun_loop].
  pose proof (split_length (ch 44) arg) as Hl. destruct (decide (arg = "")) as [->|Hne]; [by eexists|].
  assert (Hs : (String.length (split (ch 44) arg).2 < String.length arg)%nat).
  { destruct arg as [|d s]; [done|]. cbn. pose proof (split_length (ch 44) s).
    destruct (Ascii.eqb d (ch 44)); [cbn; lia|]. destruct (split (ch 44) s). cbn in *. lia. }
  destruct (split (ch 44) arg) as [s n]. cbn in Hs. destruct (String.eqb n ""); [by eexists|].
  edestruct (IH n) as [x ->]; [lia|by eexists].
Qed.

(** ** /sectionlayout

    The names get the ranks from 0 on, each one its own. *)
Definition ranks_ok (order : gmap string Z) : Prop :=
  (forall n i, order !! n = Some i -> 0 <= i < Z.of_nat (size order)) /\
  (forall a b i, order !! a = Some i -> order !! b = Some i -> a = b).

Lemma ranks_insert order n : ranks_ok order -> order !! n = None ->
  ranks_ok (<[n := Z.of_nat (size order)]> order) /\ size (<[n := Z.of_nat (size order)]> order) = S (size order).
Proof.
  intros [Hr Hi] Hn. assert (Hs : size (<[n := Z.of_nat (size order)]> order) = S (size order)) by by rewrite map_size_insert_None.
  split; [|done]. split; rewrite ?Hs.
  - intros m i [[-> <-]|[_ H]]%lookup_insert_Some; [lia|]. specialize (Hr _ _ H). lia.
  - intros a b i [[<- <-]|[_ Ha]]%lookup_insert_Some [[<- E]|[_ Hb]]%lookup_insert_Some; try done.
    + specialize (Hr _ _ Hb). lia.
    + subst i. specialize (Hr _ _ Ha). lia.
    + by eapply Hi.
Qed.

Theorem section_layout_ranks (content : string) :
  exists order ev, parseSectionLayout content ∅ = Some (order, ev) /\ ranks_ok order.
Proof.
  unfold parseSectionLayout.
  enough (H : forall f content order, (String.length content <= f)%nat -> ranks_ok order ->
    exists order' ev, parseSectionLayout_loop f content (Z.of_nat (size order)) order = Some (order', ev) /\ ranks_ok order').
  { specialize (H (String.length content) content ∅). rewrite map_size_empty in H. apply H; [done|]. split; intros ? ?; [intros Hx|intros ? Hx]; by rewrite lookup_empty in Hx. }
  clear content. induction f as [|f IH]; intros content order Hf Ho.
  { destruct content; [by eexists _, _|cbn in Hf; lia]. }
  destruct content as [|c s]; [by eexists _, _|]. cbn [parseSectionLayout_loop].
  assert (Hlt : (String.length (ltrim line_end (span (fun c => negb (has_char line_end c)) (String c s)).2) <= f)%nat).
  { unfold ltrim. destruct (has_char line_end c) eqn:Ec.
    - rewrite (span_rest (fun c => negb (has_char line_end c)) c s), Ec. cbn [negb]. rewrite (span_rest (has_char line_end) c s), Ec.
      pose proof (span_length (has_char line_end) s). cbn in Hf. lia.
    - rewrite (span_rest (fun c => negb (has_char line_end c)) c s), Ec. cbn [negb].
      etrans; [apply span_length|]. etrans; [apply span_length|]. cbn in Hf. lia. }
  destruct (span _ (String c s)) as [line rest]. cbn [snd] in Hlt.
  destruct (String.eqb (trim line) ""); [by apply IH|].
  case_bool_decide as Hn.
  - destruct (IH (ltrim line_end rest) order Hlt Ho) as (o' & ev & -> & H). by eexists _, _.
  - apply eq_None_not_Some in Hn. destruct (ranks_insert order _ Ho Hn) as [Ho' Hs].
    replace (Z.of_nat (size order) + 1) with (Z.of_nat (S (size order))) by lia. rewrite <- Hs. by apply IH.
Qed.

(** ** /guard and /order *)

Definition guard_levels : list Z := [0; 1; 3; 5; 7].

(** Every table of the guard needs the first one. *)
Theorem guard_levels_closed (arg : string) (g g' : Z) : g ∈ guard_levels -> parseGuard arg g = Ret g' -> g' ∈ guard_levels.
Proof.
  assert (Hdec : forall x, x ∈ guard_levels <-> x = 0 \/ x = 1 \/ x = 3 \/ x = 5 \/ x = 7).
  { intros x. unfold guard_levels. rewrite !elem_of_cons, elem_of_nil. tauto. }
  unfold parseGuard. generalize (str_split (ch 44) arg). intros args. revert g. induction args as [|a args IH]; intros g Hg; cbn [parseGuard_args]; [by intros [= <-]|].
  destruct (guard_arg a g) as [x|] eqn:E; [|done]. apply IH. clear IH. revert E. unfold guard_arg. rewrite Hdec in *.
  repeat case_match; intros [= <-]; destruct Hg as [->|[->|[->|[->| ->]]]]; vm_compute; tauto.
Qed.

(** A symbol given twice takes the rank after the ones so far, which the next
    symbol then gets as well. *)
Lemma order_file_tie :
  let '(order, missing) := parseOrderFile AMD64 false {[ "a"; "b"; "c" ]} ("a" ++ chars [10]%nat ++ "b" ++ chars [10]%nat ++ "a" ++ chars [10]%nat ++ "c")%string ∅ in
  order !! "a" = Some (- 2 ^ 31 + 2) /\ order !! "c" = Some (- 2 ^ 31 + 2) /\ missing = [].
Proof. vm_compute. done. Qed.
