(* ===== verification/DefFile.v ===== *)
(** * Module-definition files (llvm/lib/Object/COFFModuleDefinition.cpp,
      lld/COFF/SymbolTable.cpp, MinGW.cpp)

    The lexer and parser of .def files, [parseModuleDefs], which takes the result
    over to the configuration and the exports, and [writeDefFile], which writes
    one. Tokens that are put back go to a stack, as in the code; reading the first
    character of an empty token is an error of its own. *)

From S2P Require Import Prelude SymbolTable Exports StringRef.

#[local] Open Scope string_scope.
#[local] Open Scope list_scope.
#[local] Open Scope Z_scope.

(** ** Tokens *)

Inductive Kind :=
  | Unknown | Eof | Identifier | Comma | Equal | EqualEqual | KwBase | KwConstant | KwData | KwExports | KwExportAs
  | KwHeapsize | KwLibrary | KwName | KwNoname | KwPrivate | KwStacksize | KwVersion.

#[export] Instance Kind_eq_dec : EqDecision Kind.
Proof. solve_decision. Defined.

Record Token := { K : Kind; Value : string }.

Definition isDecorated (Sym : string) (MingwDef : bool) : bool :=
  starts_with "@" Sym || str_contains "@@" Sym || starts_with "?" Sym || (negb MingwDef && str_contains "@" Sym).

(** The characters that end a word: ["=,;\r\n \t\v"]. *)
Definition word_end : string := ("=,;" ++ chars [13; 10; 32; 9; 11]%nat)%string.

Definition keywords : list (string * Kind) :=
  [("BASE", KwBase); ("CONSTANT", KwConstant); ("DATA", KwData); ("EXPORTS", KwExports); ("EXPORTAS", KwExportAs);
   ("HEAPSIZE", KwHeapsize); ("LIBRARY", KwLibrary); ("NAME", KwName); ("NONAME", KwNoname); ("PRIVATE", KwPrivate);
   ("STACKSIZE", KwStacksize); ("VERSION", KwVersion)].

Fixpoint string_switch (l : list (string * Kind)) (w : string) : Kind :=
  match l with [] => Identifier | (s, k) :: l => if String.eqb s w then k else string_switch l w end.

(** A token and the rest of the buffer. A comment starts over. *)
Fixpoint lex_loop (fuel : nat) (Buf : string) : option (Token * string) :=
  match fuel with
  | O => None
  | S fuel =>
      let Buf := trim Buf in
      match Buf with
      | EmptyString => Some ({| K := Eof; Value := "" |}, Buf)
      | String c rest =>
          if code c =? 0 then Some ({| K := Eof; Value := "" |}, Buf)
          else if code c =? 59 then lex_loop fuel (span (fun c => negb (code c =? 10)) Buf).2
          else if code c =? 61 then
            if starts_with "=" rest then Some ({| K := EqualEqual; Value := "==" |}, str_drop 1 rest)
            else Some ({| K := Equal; Value := "=" |}, rest)
          else if code c =? 44 then Some ({| K := Comma; Value := "," |}, rest)
          else if code c =? 34 then let '(S_, Buf) := split (ch 34) rest in Some ({| K := Identifier; Value := S_ |}, Buf)
          else let '(Word, Buf) := span (fun c => negb (has_char word_end c)) Buf in
               Some ({| K := string_switch keywords Word; Value := Word |}, Buf)
      end
  end.
Definition lex (Buf : string) : option (Token * string) := lex_loop (S (String.length Buf)) Buf.

(** ** The parser *)

Record COFFShortExport := {
  Name : string;
  ExtName : string;
  SymbolName : string;
  ImportName : string;
  ExportAs : string;
  Ordinal : Z;
  Noname : bool;
  Data : bool;
  Private : bool;
  Constant : bool
}.

Record COFFModuleDefinition := {
  md_Exports : list COFFShortExport;
  OutputFile : string;
  md_ImportName : string;
  ImageBase : Z;
  StackReserve : Z;
  StackCommit : Z;
  HeapReserve : Z;
  HeapCommit : Z;
  MajorImageVersion : Z;
  MinorImageVersion : Z;
  MajorOSVersion : Z;
  MinorOSVersion : Z
}.
Definition empty_definition : COFFModuleDefinition :=
  {| md_Exports := []; OutputFile := ""; md_ImportName := ""; ImageBase := 0; StackReserve := 0; StackCommit := 0;
     HeapReserve := 0; HeapCommit := 0; MajorImageVersion := 0; MinorImageVersion := 0; MajorOSVersion := 0;
     MinorOSVersion := 0 |}.

Record Parser := { Buf : string; Tok : Token; Stack : list Token; Info : COFFModuleDefinition }.

Inductive def_error :=
  | UnknownDirective (v : string)
  | IdentifierExpected (got : string)
  | IntegerExpected
  | IntegerExpectedGot (got : string)
  | EqualExpected
  | ExportAsExpected
  | EmptyTokenIndexed.

(** A step of the parser: a result, an error, or no fuel. *)
Inductive dres (A : Type) := Done (a : A) (p : Parser) | Failed (e : def_error) | NoFuel.
Arguments Done {A}. Arguments Failed {A}. Arguments NoFuel {A}.

Definition parser (A : Type) := Parser -> dres A.
Definition ret {A} (a : A) : parser A := Done a.
Definition fail {A} (e : def_error) : parser A := fun _ => Failed e.
Definition bind {A B} (m : parser A) (f : A -> parser B) : parser B := fun p =>
  match m p with Done a p => f a p | Failed e => Failed e | NoFuel => NoFuel end.
Declare Scope def_scope.
Notation "x <~ m ; f" := (bind m (fun x => f)) (at level 100, m at next level, right associativity) : def_scope.
Notation "m ;~ f" := (bind m (fun _ => f)) (at level 100, right associativity) : def_scope.
#[local] Open Scope def_scope.

Definition with_info (f : COFFModuleDefinition -> COFFModuleDefinition) : parser unit := fun p =>
  Done tt {| Buf := Buf p; Tok := Tok p; Stack := Stack p; Info := f (Info p) |}.

(** The token that was put back last, or the next one of the buffer; it
    becomes the current one. *)
Definition read : parser Token := fun p =>
  match Stack p with
  | [] => match lex (Buf p) with
          | Some (t, b) => Done t {| Buf := b; Tok := t; Stack := []; Info := Info p |}
          | None => NoFuel
          end
  | t :: st => Done t {| Buf := Buf p; Tok := t; Stack := st; Info := Info p |}
  end.
Definition unget : parser unit := fun p =>
  Done tt {| Buf := Buf p; Tok := Tok p; Stack := Tok p :: Stack p; Info := Info p |}.
Definition current : parser Token := fun p => Done (Tok p) p.

Definition readAsInt : parser Z :=
  t <~ read;
  if decide (K t = Identifier) then
    match getAsInteger 64 0 (Value t) with Some v => ret v | None => fail IntegerExpected end
  else fail IntegerExpected.

Definition expect (Expected : Kind) (Msg : def_error) : parser unit :=
  t <~ read; if decide (K t = Expected) then ret tt else fail Msg.

(** [HEAPSIZE/STACKSIZE reserve[,commit]]; without a commit, [old] stays. *)
Definition parseNumbers (old : Z) : parser (Z * Z) :=
  Reserve <~ readAsInt;
  t <~ read;
  if decide (K t = Comma) then Commit <~ readAsInt; ret (Reserve, Commit)
  else unget ;~ ret (Reserve, old).

(** [NAME outputPath [BASE=address]]: the name, and the address unless it stays. *)
Definition parseName : parser (string * option Z) :=
  t <~ read;
  if decide (K t = Identifier) then
    b <~ read;
    if decide (K b = KwBase) then
      expect Equal EqualExpected ;~ Baseaddr <~ readAsInt; ret (Value t, Some Baseaddr)
    else unget ;~ ret (Value t, Some 0)
  else unget ;~ ret ("", None).

(** [VERSION major[.minor]]. *)
Definition parseVersion : parser (Z * Z) :=
  t <~ read;
  if decide (K t = Identifier) then
    let '(V1, V2) := split (ch 46) (Value t) in
    match getAsInteger 32 10 V1 with
    | None => fail (IntegerExpectedGot (Value t))
    | Some Major =>
        if String.eqb V2 "" then ret (Major, 0)
        else match getAsInteger 32 10 V2 with
             | None => fail (IntegerExpectedGot (Value t))
             | Some Minor => ret (Major, Minor)
             end
    end
  else fail (IdentifierExpected (Value t)).

(** *** Exports *)

Definition with_ord (o : Z) (E : COFFShortExport) : COFFShortExport :=
  {| Name := Name E; ExtName := ExtName E; SymbolName := SymbolName E; ImportName := ImportName E;
     ExportAs := ExportAs E; Ordinal := o; Noname := Noname E; Data := Data E; Private := Private E;
     Constant := Constant E |}.
Definition with_flags (n d p c : bool) (E : COFFShortExport) : COFFShortExport :=
  {| Name := Name E; ExtName := ExtName E; SymbolName := SymbolName E; ImportName := ImportName E;
     ExportAs := ExportAs E; Ordinal := Ordinal E; Noname := Noname E || n; Data := Data E || d;
     Private := Private E || p; Constant := Constant E || c |}.
Definition with_imp (i a : string) (E : COFFShortExport) : COFFShortExport :=
  {| Name := Name E; ExtName := ExtName E; SymbolName := SymbolName E; ImportName := i;
     ExportAs := a; Ordinal := Ordinal E; Noname := Noname E; Data := Data E; Private := Private E;
     Constant := Constant E |}.
Definition named_export (name ext : string) : COFFShortExport :=
  {| Name := name; ExtName := ext; SymbolName := ""; ImportName := ""; ExportAs := ""; Ordinal := 0; Noname := false;
     Data := false; Private := false; Constant := false |}.

Definition push_export (E : COFFShortExport) : parser unit :=
  with_info (fun i =>
    {| md_Exports := md_Exports i ++ [E]; OutputFile := OutputFile i; md_ImportName := md_ImportName i;
       ImageBase := ImageBase i; StackReserve := StackReserve i; StackCommit := StackCommit i;
       HeapReserve := HeapReserve i; HeapCommit := HeapCommit i; MajorImageVersion := MajorImageVersion i;
       MinorImageVersion := MinorImageVersion i; MajorOSVersion := MajorOSVersion i;
       MinorOSVersion := MinorOSVersion i |}).

Definition set_ordinal (v : option Z) (E : COFFShortExport) : COFFShortExport :=
  match v with Some o => with_ord o E | None => E end.

(** The options after the names of an export. *)
Fixpoint export_options (fuel : nat) (E : COFFShortExport) : parser unit :=
  match fuel with
  | O => fun _ => NoFuel
  | S fuel =>
      let after_ordinal E :=
        t <~ read;
        if decide (K t = KwNoname) then export_options fuel (with_flags true false false false E)
        else unget ;~ export_options fuel E in
      let finish := unget ;~ push_export E in
      t <~ read;
      match K t with
      | Identifier =>
          match Value t with
          | EmptyString => fail EmptyTokenIndexed
          | String c v =>
              if code c =? 64 then
                if String.eqb v "" then t <~ read; after_ordinal (set_ordinal (getAsInteger 16 10 (Value t)) E)
                else match getAsInteger 16 10 v with
                     | Some o => after_ordinal (with_ord o E)
                     | None => unget ;~ push_export E
                     end
              else finish
          end
      | KwData => export_options fuel (with_flags false true false false E)
      | KwConstant => export_options fuel (with_flags false false false true E)
      | KwPrivate => export_options fuel (with_flags false false true false E)
      | EqualEqual => t <~ read; export_options fuel (with_imp (Value t) (ExportAs E) E)
      | KwExportAs =>
          t <~ read;
          if decide (K t = Eof) then fail ExportAsExpected
          else push_export (with_imp (ImportName E) (Value t) E)
      | _ => finish
      end
  end.

Section Parse.
  Context (Machine : machine) (MingwDef AddUnderscores_ : bool) (has_extension : string -> bool).

Definition AddUnderscores : bool := match Machine with I386 => AddUnderscores_ | _ => false end.

Definition underscored (E : COFFShortExport) : COFFShortExport :=
  let name :=
    if negb (isDecorated (Name E) MingwDef) && (String.eqb (ExtName E) "" || negb (str_contains "." (Name E)))
    then ("_" ++ Name E)%string else Name E in
  let ext :=
    if negb (String.eqb (ExtName E) "") && negb (isDecorated (ExtName E) MingwDef)
    then ("_" ++ ExtName E)%string else ExtName E in
  named_export name ext.

Definition parseExport (fuel : nat) : parser unit :=
  n <~ current;
  t <~ read;
  E <~ (if decide (K t = Equal) then
          t <~ read;
          if decide (K t = Identifier) then ret (named_export (Value t) (Value n))
          else fail (IdentifierExpected (Value t))
        else unget ;~ ret (named_export (Value n) ""));
  export_options fuel (if AddUnderscores then underscored E else E).

Fixpoint export_list (fuel : nat) : parser unit :=
  match fuel with
  | O => fun _ => NoFuel
  | S fuel =>
      t <~ read;
      if decide (K t = Identifier) then parseExport fuel ;~ export_list fuel else unget
  end.

Definition set_numbers (sr sc hr hc maj min : Z) (i : COFFModuleDefinition) : COFFModuleDefinition :=
  {| md_Exports := md_Exports i; OutputFile := OutputFile i; md_ImportName := md_ImportName i;
     ImageBase := ImageBase i; StackReserve := sr; StackCommit := sc; HeapReserve := hr; HeapCommit := hc;
     MajorImageVersion := maj; MinorImageVersion := min; MajorOSVersion := MajorOSVersion i;
     MinorOSVersion := MinorOSVersion i |}.

(** The output file of the first NAME or LIBRARY stays. *)
Definition set_name (IsDll : bool) (name : string) (base : option Z) (i : COFFModuleDefinition) : COFFModuleDefinition :=
  {| md_Exports := md_Exports i;
     OutputFile :=
       if String.eqb (OutputFile i) "" then
         (if has_extension name then name else name ++ (if IsDll then ".dll" else ".exe"))%string
       else OutputFile i;
     md_ImportName := name;
     ImageBase := match base with Some b => b | None => ImageBase i end;
     StackReserve := StackReserve i; StackCommit := StackCommit i; HeapReserve := HeapReserve i;
     HeapCommit := HeapCommit i; MajorImageVersion := MajorImageVersion i;
     MinorImageVersion := MinorImageVersion i; MajorOSVersion := MajorOSVersion i;
     MinorOSVersion := MinorOSVersion i |}.

Definition get_info : parser COFFModuleDefinition := fun p => Done (Info p) p.

Definition parseOne (fuel : nat) : parser unit :=
  t <~ read;
  i <~ get_info;
  match K t with
  | Eof => ret tt
  | KwExports => export_list fuel
  | KwHeapsize =>
      x <~ parseNumbers (HeapCommit i);
      with_info (fun i => set_numbers (StackReserve i) (StackCommit i) x.1 x.2
                            (MajorImageVersion i) (MinorImageVersion i) i)
  | KwStacksize =>
      x <~ parseNumbers (StackCommit i);
      with_info (fun i => set_numbers x.1 x.2 (HeapReserve i) (HeapCommit i)
                            (MajorImageVersion i) (MinorImageVersion i) i)
  | KwLibrary => x <~ parseName; with_info (set_name true x.1 x.2)
  | KwName => x <~ parseName; with_info (set_name false x.1 x.2)
  | KwVersion =>
      x <~ parseVersion;
      with_info (fun i => set_numbers (StackReserve i) (StackCommit i) (HeapReserve i) (HeapCommit i) x.1 x.2 i)
  | _ => fail (UnknownDirective (Value t))
  end.

Fixpoint parse_loop (fuel : nat) : parser COFFModuleDefinition :=
  match fuel with
  | O => fun _ => NoFuel
  | S fuel =>
      parseOne fuel ;~
      t <~ current;
      if decide (K t = Eof) then get_info else parse_loop fuel
  end.

Definition parse (S_ : string) : dres COFFModuleDefinition :=
  parse_loop (S (String.length S_))
    {| Buf := S_; Tok := {| K := Unknown; Value := "" |}; Stack := []; Info := empty_definition |}.

End Parse.

(** ** Taking it over *)

Record def_config := {
  outputFile : string;
  c_importName : string;
  imageBase : Z;
  stackReserve : Z;
  stackCommit : Z;
  heapReserve : Z;
  heapCommit : Z;
  majorImageVersion : Z;
  minorImageVersion : Z;
  majorOSVersion : Z;
  minorOSVersion : Z
}.

Definition unless_zero (new old : Z) : Z := if new =? 0 then old else new.

Definition import_export (e1 : COFFShortExport) : Export :=
  let fwd := negb (String.eqb (ExtName e1) "") && negb (String.eqb (ExtName e1) (Name e1)) && str_contains "." (Name e1) in
  {| e_name := if fwd then ExtName e1 else Name e1;
     extName := if fwd then "" else ExtName e1;
     exportAs := ExportAs e1;
     importName := ImportName e1;
     e_sym := None;
     ordinal := Ordinal e1;
     noname := Noname e1;
     data := Data e1;
     isPrivate := Private e1;
     constant := Constant e1;
     forwardTo := if fwd then Name e1 else "";
     source := ModuleDefinition;
     symbolName := "";
     exportName := "" |}.

Definition apply_definition (m : COFFModuleDefinition) (c : def_config) : def_config :=
  {| outputFile := if String.eqb (outputFile c) "" then OutputFile m else outputFile c;
     c_importName := md_ImportName m;
     imageBase := unless_zero (ImageBase m) (imageBase c);
     stackReserve := unless_zero (StackReserve m) (stackReserve c);
     stackCommit := unless_zero (StackCommit m) (stackCommit c);
     heapReserve := unless_zero (HeapReserve m) (heapReserve c);
     heapCommit := unless_zero (HeapCommit m) (heapCommit c);
     majorImageVersion := unless_zero (MajorImageVersion m) (majorImageVersion c);
     minorImageVersion := unless_zero (MinorImageVersion m) (minorImageVersion c);
     majorOSVersion := unless_zero (MajorOSVersion m) (majorOSVersion c);
     minorOSVersion := unless_zero (MinorOSVersion m) (minorOSVersion c) |}.

(** The contents of the file; the configuration and the exports, or the error. *)
Definition parseModuleDefs (mach : machine) (mingw : bool) (has_extension : string -> bool) (mb : string)
    (c : def_config) (exports : list Export) : def_error + option (def_config * list Export) :=
  match parse mach mingw true has_extension mb with
  | Done m _ => inr (Some (apply_definition m c, exports ++ map import_export (md_Exports m)))
  | Failed e => inl e
  | NoFuel => inr None
  end.

(** ** Writing one

    [characteristics r]: the output characteristics of the chunk of the symbol
    [r], when it is defined and has one. *)
Section Write.
  Context (characteristics : sref -> option Z).

Definition DEF_SCN_MEM_EXECUTE : Z := 536870912.

Definition writes_data (e : Export) : bool :=
  match e_sym e ≫= characteristics with
  | Some c => (c &&& DEF_SCN_MEM_EXECUTE) =? 0
  | None => false
  end.

Definition newline : string := chars [10]%nat.

Definition def_line (e : Export) : string :=
  ("    " ++ exportName e ++ " " ++ "@" ++ print_dec (ordinal e) ++
   (if writes_data e then " DATA" else "") ++ newline)%string.

Definition writeDefFile (exports : list Export) : string :=
  ("EXPORTS" ++ newline ++ fold_right (fun e s => (def_line e ++ s)%string) "" exports)%string.

End Write.
