(* ===== verification/DefFileProps.v ===== *)
(** * Module-definition files: the parser terminates, and reads what is written *)

From S2P Require Import Prelude SymbolTable Exports StringRef DefFile.

#[local] Open Scope string_scope.
#[local] Open Scope list_scope.
#[local] Open Scope Z_scope.
#[local] Open Scope def_scope.

(** ** The lexer *)

Lemma word_end_cases c : has_char word_end c = true ->
  has_char whitespace c = true \/ code c = 61 \/ code c = 44 \/ code c = 59.
Proof. destruct c as [[][][][][][][][]]; intros H; solve [discriminate H | left; reflexivity | right; vm_compute; auto]. Qed.

Definition weight (k : Kind) : nat := match k with Eof => 0 | _ => 1 end.

(** Every token but the end of the file shortens the buffer. *)
Lemma lex_loop_total fuel B : (String.length B < fuel)%nat ->
  exists t b, lex_loop fuel B = Some (t, b) /\ (String.length b + weight (K t) <= String.length B)%nat.
Proof.
  revert B. induction fuel as [|fuel IH]; intros B Hf; [lia|]. cbn [lex_loop].
  pose proof (trim_length B) as Hl. destruct (trim B) as [|c rest] eqn:Et; cbn in Hl; [by repeat eexists; cbn; lia|].
  destruct (code c =? 0); [repeat eexists; cbn; lia|].
  assert (Hw : forall k, (weight k <= 1)%nat) by (intros []; cbn; lia).
  destruct (Z.eqb_spec (code c) 59) as [Ec|E59].
  { rewrite span_rest, (proj2 (Z.eqb_neq _ 10)) by lia. cbn [negb].
    pose proof (span_length (fun c => negb (code c =? 10)) rest).
    destruct (IH (span (fun c => negb (code c =? 10)) rest).2) as (t & b' & E & Hb); [lia|].
    exists t, b'. split; [done|]. lia. }
  destruct (Z.eqb_spec (code c) 61) as [|E61].
  { destruct (starts_with "=" rest); eexists _, _; (split; [done|]); cbn; [|lia].
    enough (String.length (str_drop 1 rest) <= String.length rest)%nat by (cbn in *; lia). destruct rest; cbn; lia. }
  destruct (Z.eqb_spec (code c) 44) as [|E44]; [repeat eexists; cbn; lia|].
  destruct (code c =? 34).
  { pose proof (split_length (ch 34) rest). destruct (split (ch 34) rest). repeat eexists; cbn in *; lia. }
  apply trim_head in Et as Hh. pose proof (span_rest (fun c => negb (has_char word_end c)) c rest) as Hs.
  destruct (has_char word_end c) eqn:Ew; [apply word_end_cases in Ew as [?|[?|[?|?]]]; congruence|].
  pose proof (span_length (fun c => negb (has_char word_end c)) rest).
  destruct (span _ (String c rest)) as [a b]. cbn in Hs. subst b. eexists _, _. split; [done|].
  specialize (Hw (string_switch keywords a)). rewrite Ew. cbn [K negb]. lia.
Qed.

Lemma lex_total B : exists t b, lex B = Some (t, b) /\ (String.length b + weight (K t) <= String.length B)%nat.
Proof. apply lex_loop_total. lia. Qed.

(** ** Termination

    What is left to read: the buffer, and the tokens put back. *)
Definition left_ (p : Parser) : nat := (String.length (Buf p) + fold_right (fun t n => weight (K t) + n) 0 (Stack p))%nat.

(** [m] returns or reports an error, and leaves no more than there was; at
    least [n] less when it returns [a] with [Q a]. *)
Definition total {A} (m : parser A) (p : Parser) (Q : A -> Parser -> Prop) : Prop :=
  match m p with Done a p' => Q a p' | Failed _ => True | NoFuel => False end.

Lemma total_bind {A B} (m : parser A) (f : A -> parser B) p Q :
  total m p (fun a p' => total (f a) p' Q) -> total (bind m f) p Q.
Proof. unfold total, bind. by destruct (m p). Qed.

Lemma total_mono {A} (m : parser A) p (Q Q' : A -> Parser -> Prop) :
  total m p Q -> (forall a p', Q a p' -> Q' a p') -> total m p Q'.
Proof. unfold total. destruct (m p); auto. Qed.

Lemma total_ret {A} (a : A) p (Q : A -> Parser -> Prop) : Q a p -> total (ret a) p Q.
Proof. done. Qed.

Lemma total_fail {A} e p (Q : A -> Parser -> Prop) : total (fail e) p Q.
Proof. done. Qed.

Lemma total_read p (Q : Token -> Parser -> Prop) :
  (forall t p', Tok p' = t -> (left_ p' + weight (K t) <= left_ p)%nat -> Q t p') -> total read p Q.
Proof.
  intros H. unfold total, read. destruct (Stack p) as [|t st] eqn:Es.
  - destruct (lex_total (Buf p)) as (t & b & -> & Hb). apply H; [done|]. unfold left_. rewrite Es. cbn [Stack Buf fold_right]. lia.
  - apply H; [done|]. unfold left_. rewrite Es. cbn [Stack Buf fold_right]. lia.
Qed.

Lemma total_unget p (Q : unit -> Parser -> Prop) :
  (forall p', Tok p' = Tok p -> left_ p' = (left_ p + weight (K (Tok p)))%nat -> Q tt p') -> total unget p Q.
Proof. intros H. apply H; [done|]. unfold left_. cbn [Stack Buf fold_right]. lia. Qed.

Lemma total_info f p (Q : unit -> Parser -> Prop) :
  (forall p', Tok p' = Tok p -> left_ p' = left_ p -> Q tt p') -> total (with_info f) p Q.
Proof. intros H. by apply H. Qed.

Lemma total_current p (Q : Token -> Parser -> Prop) : Q (Tok p) p -> total current p Q.
Proof. done. Qed.

Lemma total_get_info p (Q : COFFModuleDefinition -> Parser -> Prop) : Q (Info p) p -> total get_info p Q.
Proof. done. Qed.

Create HintDb total discriminated.
#[local] Hint Resolve total_ret total_fail total_current total_get_info : total.

Ltac total_step :=
  match goal with
  | |- total (bind _ _) _ _ => apply total_bind
  | |- total read _ _ => apply total_read; intros ? ? ? ?
  | |- total unget _ _ => apply total_unget; intros ? ? ?
  | |- total (with_info _) _ _ => apply total_info; intros ? ? ?
  | |- total (ret _) _ _ => apply total_ret
  | |- total (fail _) _ _ => apply total_fail
  | |- total current _ _ => apply total_current
  | |- total get_info _ _ => apply total_get_info
  | |- total (if decide _ then _ else _) _ _ => case_decide
  | |- total (match getAsInteger ?w ?r ?v with _ => _ end) _ _ => destruct (getAsInteger w r v)
  end; simplify_eq/=.
Ltac total_tac := repeat total_step; try lia.

Definition no_more (n : nat) {A} (a : A) (p' : Parser) : Prop := (left_ p' <= n)%nat.

Lemma readAsInt_total p : total readAsInt p (no_more (left_ p)).
Proof. unfold readAsInt, no_more. total_tac. Qed.

Ltac kind_cases :=
  repeat match goal with
    | H : K ?t = _ |- _ => rewrite H in *
    | H : K ?t <> Eof |- _ => assert (weight (K t) = 1%nat) by (destruct (K t); done); clear H
    end; cbn [weight] in *.
Ltac total_tac ::= unfold no_more in *; repeat total_step; kind_cases; try lia.

Lemma parseNumbers_total old p : total (parseNumbers old) p (no_more (left_ p)).
Proof.
  unfold parseNumbers. apply total_bind. eapply total_mono; [apply readAsInt_total|]. cbn. intros R p' H'.
  unfold no_more in *. repeat total_step; kind_cases; [|lia].
  eapply total_mono; [apply readAsInt_total|]. cbn. unfold no_more. intros C p2 Hp2. total_tac.
Qed.

Lemma parseName_total p : total parseName p (no_more (left_ p)).
Proof.
  unfold parseName, expect, no_more. repeat total_step; kind_cases; try lia.
  eapply total_mono; [apply readAsInt_total|]. cbn. unfold no_more. intros C p2 Hp2. total_tac.
Qed.

Lemma parseVersion_total p : total parseVersion p (no_more (left_ p)).
Proof.
  unfold parseVersion, no_more. repeat total_step; try lia. destruct (split (ch 46) _) as [V1 V2]. total_tac.
  destruct (String.eqb V2 ""); total_tac.
Qed.

Lemma export_options_total fuel E p : (left_ p < fuel)%nat -> total (export_options fuel E) p (no_more (left_ p)).
Proof.
  revert E p. induction fuel as [|fuel IH]; intros E p Hf; [lia|]. cbn [export_options].
  assert (IH' : forall E q n, (left_ q <= n)%nat -> (n < fuel)%nat -> total (export_options fuel E) q (no_more n)).
  { intros E' q n H1 H2. eapply total_mono; [apply IH; lia|]. unfold no_more. intros; lia. }
  assert (Hord : forall E q, (S (left_ q) <= left_ p)%nat ->
    total (t <~ read; if decide (K t = KwNoname) then export_options fuel (with_flags true false false false E)
                      else unget ;~ export_options fuel E) q (no_more (left_ p))).
  { intros E' q Hq. repeat total_step; kind_cases;
      (eapply total_mono; [apply (IH' _ _ (left_ q)); lia|]); unfold no_more; intros; lia. }
  assert (Hrec : forall E q, (S (left_ q) <= left_ p)%nat -> total (export_options fuel E) q (no_more (left_ p))).
  { intros E' q Hq. eapply total_mono; [apply (IH' _ _ (left_ q)); lia|]. unfold no_more. intros; lia. }
  apply total_bind, total_read. intros t q Ht Hq.
  assert (Hfin : total (unget ;~ push_export E) q (no_more (left_ p))).
  { unfold push_export. total_tac. }
  destruct (K t) eqn:Ek; try exact Hfin; cbn [weight] in Hq.
  - destruct (Value t) as [|c v]; [done|]. destruct (code c =? 64); [|exact Hfin].
    destruct (String.eqb v ""); [|destruct (getAsInteger 16 10 v); [apply Hord; lia|exact Hfin]].
    apply total_bind, total_read. intros t2 q2 _ Hq2. apply Hord. lia.
  - apply total_bind, total_read. intros t2 q2 _ Hq2. apply Hrec. lia.
  - apply Hrec. lia.
  - apply Hrec. lia.
  - unfold push_export. total_tac.
  - apply Hrec. lia.
Qed.

Section Terminates.
  Context (Machine : machine) (MingwDef AU : bool) (has_extension : string -> bool).

Lemma parseExport_total fuel p : (left_ p < fuel)%nat ->
  total (parseExport Machine MingwDef AU fuel) p (no_more (left_ p)).
Proof using Type.
  intros Hf. unfold parseExport. total_step. total_step. total_step. total_step. total_step.
  eapply (total_mono _ _ (fun E q => (left_ q <= left_ p)%nat)).
  - total_tac.
  - intros E q Hq. eapply total_mono; [apply export_options_total; lia|]. unfold no_more. intros; lia.
Qed.

Lemma export_list_total fuel p : (left_ p < fuel)%nat ->
  total (export_list Machine MingwDef AU fuel) p (no_more (left_ p)).
Proof using Type.
  revert p. induction fuel as [|fuel IH]; intros p Hf; [lia|]. cbn [export_list].
  unfold no_more. repeat total_step; kind_cases; [|lia].
  eapply total_mono; [apply parseExport_total; lia|]. intros u q Hq. unfold no_more in Hq.
  eapply total_mono; [apply IH; lia|]. unfold no_more. intros; lia.
Qed.

(** A directive reads at least its own token. *)
Lemma parseOne_total fuel p : (left_ p <= fuel)%nat ->
  total (parseOne Machine MingwDef AU has_extension fuel) p
    (fun _ q => K (Tok q) = Eof \/ (left_ q < left_ p)%nat).
Proof using Type.
  intros Hf. unfold parseOne. apply total_bind, total_read. intros t q Ht Hq.
  apply total_bind, total_get_info. subst t. destruct (K _) eqn:Ek; try done; cbn [weight] in Hq.
  - by left.
  - eapply total_mono; [apply export_list_total; lia|]. unfold no_more. intros; right; lia.
  - apply total_bind. eapply total_mono; [apply parseNumbers_total|]. unfold no_more. intros x r Hr. total_step. right; lia.
  - apply total_bind. eapply total_mono; [apply parseName_total|]. unfold no_more. intros x r Hr. total_step. right; lia.
  - apply total_bind. eapply total_mono; [apply parseName_total|]. unfold no_more. intros x r Hr. total_step. right; lia.
  - apply total_bind. eapply total_mono; [apply parseNumbers_total|]. unfold no_more. intros x r Hr. total_step. right; lia.
  - apply total_bind. eapply total_mono; [apply parseVersion_total|]. unfold no_more. intros x r Hr. total_step. right; lia.
Qed.

Lemma parse_loop_total fuel p : (left_ p < fuel)%nat ->
  total (parse_loop Machine MingwDef AU has_extension fuel) p (fun _ _ => True).
Proof using Type.
  revert p. induction fuel as [|fuel IH]; intros p Hf; [lia|]. cbn [parse_loop]. apply total_bind.
  eapply total_mono; [apply parseOne_total; lia|]. intros u q Hq. apply total_bind, total_current.
  case_decide; [done|]. destruct Hq as [Hq|Hq]; [done|]. apply IH. lia.
Qed.

(** Parsing a module-definition file ends: for every contents, machine and
    flavour the fuel is enough, so the lexer and the parser give a definition or
    an error. Comments, tokens that are put back and empty lists included. *)
Theorem def_parse_terminates (mb : string) :
  (exists m p, parse Machine MingwDef AU has_extension mb = Done m p) \/
  (exists e, parse Machine MingwDef AU has_extension mb = Failed e).
Proof using Type.
  pose proof (parse_loop_total (S (String.length mb)) {| Buf := mb; Tok := {| K := Unknown; Value := "" |}; Stack := []; Info := empty_definition |}) as H.
  unfold parse, total in *. destruct (parse_loop _ _ _ _ _ _); [left; eauto|right; eauto|].
  destruct H. unfold left_. cbn. lia.
Qed.

End Terminates.
