(* ===== verification/DefFileRoundtrip.v ===== *)
(** * Module-definition files: what [writeDefFile] writes reads back *)

From S2P Require Import Prelude SymbolTable Exports ExportsProps StringRef DefFile DefFileProps.

#[local] Open Scope string_scope.
#[local] Open Scope list_scope.
#[local] Open Scope Z_scope.
#[local] Open Scope def_scope.

(** ** Words *)

Definition plain_char (c : Ascii.ascii) : bool := negb (has_char word_end c) && negb (has_char whitespace c).
(** A word the lexer reads as one: no separators, and neither a quote nor a
    NUL at the start. *)
Definition plain_word (w : string) : bool :=
  match w with
  | EmptyString => false
  | String c _ => negb (code c =? 0) && negb (code c =? 34) && str_all plain_char w
  end.

Lemma plain_char_spec c : plain_char c = true ->
  has_char word_end c = false /\ has_char whitespace c = false /\ code c <> 59 /\ code c <> 61 /\ code c <> 44.
Proof. destruct c as [[][][][][][][][]]; intros H; try discriminate H; vm_compute; repeat split; congruence. Qed.

Lemma digit_plain c d : digit_of 10 c = Some d -> plain_char c = true.
Proof. destruct c as [[][][][][][][][]]; intros H; try discriminate H; reflexivity. Qed.

Lemma digits_plain s : all_digits 10 s = true -> str_all plain_char s = true.
Proof.
  induction s as [|c s IH]; cbn; [done|]. destruct (digit_of 10 c) eqn:E; [|done]. intros H.
  by rewrite (digit_plain c z E), IH.
Qed.

Lemma rtrim_app_plain w r : str_all plain_char w = true -> rtrim whitespace (w ++ r)%string = (w ++ rtrim whitespace r)%string.
Proof.
  induction w as [|c w IH]; intros H; [done|]. cbn [str_all] in H. apply andb_true_iff in H as [Hc Hw].
  apply plain_char_spec in Hc as (_ & Hc & _). rewrite !str_app_cons, rtrim_cons, IH, Hc by done.
  by rewrite andb_false_r.
Qed.

Lemma span_app_plain w r : str_all plain_char w = true ->
  (forall c s, r = String c s -> has_char word_end c = true) ->
  span (fun c => negb (has_char word_end c)) (w ++ r)%string = (w, r).
Proof.
  induction w as [|c w IH]; intros H Hr.
  - change ("" ++ r)%string with r. destruct r as [|c r]; [done|]. cbn [span]. by rewrite (Hr c r).
  - cbn in H. apply andb_true_iff in H as [Hc Hw]. apply plain_char_spec in Hc as (Hc & _).
    rewrite str_app_cons. cbn [span]. rewrite Hc, IH by done. done.
Qed.

Lemma ltrim_app pre s : str_all (has_char whitespace) pre = true ->
  ltrim whitespace (pre ++ s)%string = ltrim whitespace s.
Proof.
  intros H. unfold ltrim. induction pre as [|c pre IH]; [done|]. rewrite str_app_cons. cbn [str_all] in *.
  apply andb_true_iff in H as [Hc Hp]. rewrite span_rest, Hc. auto.
Qed.

Lemma trim_same B B' : rtrim whitespace B = rtrim whitespace B' -> trim B = trim B'.
Proof. intros H. by rewrite <- (trim_rtrim B), H, trim_rtrim. Qed.

(** A word after white space, in a buffer that may have been trimmed. *)
Lemma lex_word B pre w r :
  rtrim whitespace B = rtrim whitespace (pre ++ w ++ r)%string ->
  str_all (has_char whitespace) pre = true -> plain_word w = true ->
  (forall c s, r = String c s -> has_char word_end c = true) ->
  lex B = Some ({| K := string_switch keywords w; Value := w |}, rtrim whitespace r).
Proof.
  intros HB Hpre Hw Hr. unfold lex. cbn [lex_loop]. rewrite (trim_same _ _ HB). unfold trim. rewrite ltrim_app by done.
  destruct w as [|c w]; [done|]. cbn [plain_word] in Hw. apply andb_true_iff in Hw as [Hw Hplain].
  apply andb_true_iff in Hw as [H0 H34]. pose proof Hplain as Hc. cbn [str_all] in Hc. apply andb_true_iff in Hc as [Hc _].
  apply plain_char_spec in Hc as (_ & Hws & H59 & H61 & H44).
  assert (Hlt : ltrim whitespace (String c w ++ r)%string = (String c w ++ r)%string).
  { unfold ltrim. by rewrite str_app_cons, span_rest, Hws. }
  rewrite Hlt, (rtrim_app_plain _ _ Hplain), str_app_cons.
  apply negb_true_iff in H0 as ->. apply negb_true_iff in H34 as ->.
  rewrite (proj2 (Z.eqb_neq _ _) H59), (proj2 (Z.eqb_neq _ _) H61), (proj2 (Z.eqb_neq _ _) H44).
  rewrite <- str_app_cons,  span_app_plain; [done|done|]. intros d s Hd. apply rtrim_head in Hd as [s' ->]. by eapply Hr.
Qed.

Lemma lex_end B : rtrim whitespace B = "" -> lex B = Some ({| K := Eof; Value := "" |}, "").
Proof. intros HB. unfold lex. cbn [lex_loop]. by rewrite (trim_same B ""). Qed.

(** ** The lines of exports *)

Section Roundtrip.
  Context (characteristics : sref -> option Z).
  Context (Machine : machine) (MingwDef : bool) (has_extension : string -> bool).

(** Names that are read back: one word, no keyword, and no ordinal. *)
Definition no_ordinal (n : string) : bool :=
  match n with
  | String c v => negb (code c =? 64) || negb (String.eqb v "") && match getAsInteger 16 10 v with Some _ => false | None => true end
  | EmptyString => false
  end.
Definition def_name (n : string) : bool :=
  plain_word n && bool_decide (string_switch keywords n = Identifier) && no_ordinal n.
Definition writable (e : Export) : Prop := def_name (exportName e) = true /\ 0 <= ordinal e < 2 ^ 16.

Lemma def_name_spec n : def_name n = true ->
  plain_word n = true /\ string_switch keywords n = Identifier /\ no_ordinal n = true.
Proof using Type.
  unfold def_name. rewrite !andb_true_iff, bool_decide_eq_true. by intros [[? ?] ?].
Qed.

Definition body (es : list Export) : string := fold_right (fun e s => (def_line characteristics e ++ s)%string) "" es.

(** What follows the ordinal, and the name, of an export. *)
Definition after_at (e : Export) (es : list Export) : string :=
  ((if writes_data characteristics e then " DATA" else "") ++ newline ++ body es)%string.
Definition at_word (e : Export) : string := ("@" ++ print_dec (ordinal e))%string.
Definition after_name (e : Export) (es : list Export) : string := (" " ++ at_word e ++ after_at e es)%string.

Definition eof_tok : Token := {| K := Eof; Value := "" |}.
Definition next_tok (es : list Export) : Token :=
  match es with [] => eof_tok | e :: _ => {| K := Identifier; Value := exportName e |} end.
Definition next_buf (es : list Export) : string :=
  match es with [] => "" | e :: es => rtrim whitespace (after_name e es) end.

Lemma body_cons e es : body (e :: es) = ("    " ++ exportName e ++ after_name e es)%string.
Proof using Type.
  unfold body, after_name, after_at, at_word. cbn [fold_right]. unfold def_line. rewrite !str_app_assoc. done.
Qed.

Lemma lex_next B pre es : rtrim whitespace B = rtrim whitespace (pre ++ body es)%string ->
  str_all (has_char whitespace) pre = true -> Forall writable es ->
  lex B = Some (next_tok es, next_buf es).
Proof using Type.
  intros HB Hpre Hes. destruct es as [|e es].
  - apply lex_end. rewrite HB. cbn [body fold_right]. clear -Hpre. induction pre as [|c pre IH]; [done|].
    cbn [str_all] in Hpre. apply andb_true_iff in Hpre as [Hc Hp]. rewrite str_app_cons, rtrim_cons, IH, Hc by done. done.
  - inversion Hes as [|? ? [Hn _] _]; subst. apply def_name_spec in Hn as (Hw & Hk & _).
    rewrite (lex_word B (pre ++ "    ")%string (exportName e) (after_name e es)).
    + by rewrite Hk.
    + by rewrite HB, body_cons, str_app_assoc.
    + clear -Hpre. induction pre as [|c pre IH]; [done|]. cbn [str_all] in Hpre |- *. rewrite str_app_cons.
      apply andb_true_iff in Hpre as [Hc Hp]. cbn [str_all]. by rewrite Hc, IH.
    + done.
    + unfold after_name. intros c s [= <- _]. done.
Qed.

Lemma print_dec_plain o : 0 <= o < 2 ^ 16 ->
  str_all plain_char (print_dec o) = true /\ print_dec o <> "" /\ getAsInteger 16 10 (print_dec o) = Some o.
Proof using Type.
  intros Ho. pose proof (print_dec_roundtrip 16 o ltac:(lia) Ho) as H. split_and!; [| |done].
  - apply getAsInteger_spec in H as (_ & H & _); [|lia..]. by apply digits_plain.
  - intros E. by rewrite E in H.
Qed.

(** The ordinal is read next, and then the rest. *)
Lemma lex_at B e es : rtrim whitespace B = rtrim whitespace (after_name e es) -> 0 <= ordinal e < 2 ^ 16 ->
  lex B = Some ({| K := Identifier; Value := at_word e |}, rtrim whitespace (after_at e es)).
Proof using Type.
  intros HB Ho. destruct (print_dec_plain _ Ho) as (Hp & _ & _).
  rewrite (lex_word B " " (at_word e) (after_at e es)); [done|done|done| |].
  - unfold at_word, plain_word. rewrite str_app_cons. cbn [str_all]. done.
  - unfold after_at. destruct (writes_data characteristics e); intros c s [= <- _]; done.
Qed.

Definition state (B : string) (t : Token) (st : list Token) (i : COFFModuleDefinition) : Parser :=
  {| Buf := B; Tok := t; Stack := st; Info := i |}.

Definition add_exports (l : list COFFShortExport) (i : COFFModuleDefinition) : COFFModuleDefinition :=
  {| md_Exports := md_Exports i ++ l; OutputFile := OutputFile i; md_ImportName := md_ImportName i;
     ImageBase := ImageBase i; StackReserve := StackReserve i; StackCommit := StackCommit i;
     HeapReserve := HeapReserve i; HeapCommit := HeapCommit i; MajorImageVersion := MajorImageVersion i;
     MinorImageVersion := MinorImageVersion i; MajorOSVersion := MajorOSVersion i;
     MinorOSVersion := MinorOSVersion i |}.

(** An export ends where the next one, or the end, is read. *)
Lemma export_options_end fuel E p es i : Forall writable es ->
  read p = Done (next_tok es) (state (next_buf es) (next_tok es) [] i) ->
  export_options (S fuel) E p = Done tt (state (next_buf es) (next_tok es) [next_tok es] (add_exports [E] i)).
Proof using Type.
  intros Hes Hp. cbn [export_options]. unfold bind at 1. rewrite Hp. destruct es as [|e es]; [done|].
  inversion Hes as [|? ? [Hn _] _]; subst. apply def_name_spec in Hn as (_ & _ & Hn).
  cbn [next_tok K Value]. destruct (exportName e) as [|c v] eqn:En; [done|]. cbn [no_ordinal] in Hn.
  destruct (code c =? 64); [|done]. cbn [negb orb] in Hn. apply andb_true_iff in Hn as [Hv Ho].
  apply negb_true_iff in Hv as ->. by destruct (getAsInteger 16 10 v).
Qed.

Lemma export_options_written fuel E p e es i : Forall writable es -> 0 <= ordinal e < 2 ^ 16 ->
  read p = Done {| K := Identifier; Value := at_word e |}
             (state (rtrim whitespace (after_at e es)) {| K := Identifier; Value := at_word e |} [] i) ->
  export_options (S (S (S fuel))) E p =
  Done tt (state (next_buf es) (next_tok es) [next_tok es]
    (add_exports [with_flags false (writes_data characteristics e) false false (with_ord (ordinal e) E)] i)).
Proof using Type.
  intros Hes Ho Hp. destruct (print_dec_plain _ Ho) as (_ & Hd & Hi). cbn [export_options]. unfold bind at 1. rewrite Hp.
  cbn [K Value at_word]. unfold at_word. rewrite str_app_cons. change (code (Ascii.Ascii false false false false false false true false) =? 64) with true. cbv iota.
  apply String.eqb_neq in Hd. change ("" ++ print_dec (ordinal e))%string with (print_dec (ordinal e)).
  rewrite Hd, Hi. unfold bind at 1, read at 1. cbn [Stack state Buf].
  destruct (writes_data characteristics e) eqn:Ew.
  - assert (Hl : lex (rtrim whitespace (after_at e es)) = Some ({| K := KwData; Value := "DATA" |}, rtrim whitespace (newline ++ body es)%string)).
    { rewrite (lex_word _ " " "DATA" (newline ++ body es)%string); [done| |done|done|by intros c s [= <- _]].
      rewrite rtrim_idem. unfold after_at. by rewrite Ew. }
    rewrite Hl. cbn [K]. rewrite decide_False by done. unfold bind at 1, unget at 1. cbn [Buf Tok Stack Info state].
    unfold bind at 1, read at 1. cbn [Stack K Value]. apply export_options_end; [done|].
    unfold read. cbn [Stack Buf]. rewrite (lex_next _ newline es); [done|by rewrite rtrim_idem|done|done].
  - assert (Hl : lex (rtrim whitespace (after_at e es)) = Some (next_tok es, next_buf es)).
    { apply (lex_next _ newline); [|done|done]. rewrite rtrim_idem. unfold after_at. by rewrite Ew. }
    rewrite Hl. rewrite decide_False by (by destruct es). unfold bind at 1, unget at 1. cbn [Buf Tok Stack Info state].
    replace (with_flags false false false false (with_ord (ordinal e) E)) with (with_ord (ordinal e) E)
      by (unfold with_flags, with_ord; cbn; by rewrite !orb_false_r).
    by apply (export_options_end (S fuel)).
Qed.

(** What is read for an export that was written. *)
Definition reread (e : Export) : COFFShortExport :=
  let E := named_export (exportName e) "" in
  with_flags false (writes_data characteristics e) false false
    (with_ord (ordinal e) (if AddUnderscores Machine true then underscored MingwDef E else E)).

Lemma parseExport_written fuel p t e es i : Forall writable es -> writable e ->
  p = state (next_buf (e :: es)) {| K := Identifier; Value := exportName e |} [] i -> t = Tok p ->
  parseExport Machine MingwDef true (S (S (S fuel))) p =
  Done tt (state (next_buf es) (next_tok es) [next_tok es] (add_exports [reread e] i)).
Proof using Type.
  intros Hes [Hn Ho] -> _. unfold parseExport. unfold bind at 1, current at 1. cbn [Tok state].
  unfold bind at 1, read at 1. cbn [Stack Buf state next_buf]. rewrite (lex_at _ e es) by (rewrite ?rtrim_idem; done).
  unfold bind at 1. cbn [K]. rewrite decide_False by done. unfold bind at 1, unget at 1, ret at 1. cbn [Buf Tok Stack Info Value].
  apply (export_options_written fuel); done.
Qed.

Lemma export_list_written fuel es p i : Forall writable es -> (length es + 4 <= fuel)%nat ->
  read p = Done (next_tok es) (state (next_buf es) (next_tok es) [] i) ->
  export_list Machine MingwDef true fuel p = Done tt (state "" eof_tok [eof_tok] (add_exports (map reread es) i)).
Proof using Type.
  revert fuel p i. induction es as [|e es IH]; intros fuel p i Hes Hf Hp;
    (destruct fuel as [|fuel]; [cbn in Hf; lia|]); cbn [export_list]; unfold bind at 1; rewrite Hp; cbn [K next_tok].
  - rewrite decide_False by done. unfold unget, state, add_exports. cbn. rewrite app_nil_r. by destruct i.
  - rewrite decide_True by done. apply Forall_cons in Hes as [He Hes]. cbn [length] in Hf.
    do 3 (destruct fuel as [|fuel]; [lia|]). unfold bind at 1.
    rewrite (parseExport_written fuel _ (next_tok (e :: es)) e es i) by done.
    rewrite (IH _ _ (add_exports [reread e] i)); [|done|lia|done].
    f_equal. unfold state. f_equal. unfold add_exports. cbn. f_equal. by rewrite <- app_assoc.
Qed.

Lemma body_length es : (8 * length es <= String.length (body es))%nat.
Proof using Type.
  induction es as [|e es IH]; [done|]. rewrite body_cons. unfold after_name, at_word, after_at. rewrite !str_length_app. cbn [String.length].
  assert (1 <= String.length (print_dec (ordinal e)))%nat; [|change (String.length newline) with 1%nat; cbn [length]; lia].
  assert (print_dec (ordinal e) <> "") by (apply dec_digits_nonempty; lia). destruct (print_dec _); [done|cbn; lia].
Qed.

Lemma parse_written es : Forall writable es ->
  parse Machine MingwDef true has_extension (writeDefFile characteristics es) =
  Done (add_exports (map reread es) empty_definition) (state "" eof_tok [eof_tok] (add_exports (map reread es) empty_definition)).
Proof using Type.
  intros Hes. unfold parse. set (fuel := String.length _).
  assert (Hf : (8 * length es + 8 <= fuel)%nat).
  { pose proof (body_length es). unfold fuel, writeDefFile. fold (body es). 
    change (String.length ("EXPORTS" ++ newline ++ body es)%string) with (8 + String.length (body es))%nat. lia. }
  clearbody fuel. cbn [parse_loop]. unfold bind at 1, parseOne, bind at 1, read at 1. cbn [Stack Buf].
  rewrite (lex_word _ "" "EXPORTS" (newline ++ body es)%string); [|done|done|done|by intros c s [= <- _]].
  unfold bind at 1, get_info at 1. cbn [K].
  change (string_switch keywords "EXPORTS") with KwExports. cbv iota.
  rewrite (export_list_written fuel es _ empty_definition); [| done|lia|].
  - unfold bind at 1, current at 1. cbn [Tok state]. rewrite decide_True by done. done.
  - unfold read. cbn [Stack Buf Info]. rewrite (lex_next _ newline es); [done|by rewrite rtrim_idem|done|done].
Qed.

End Roundtrip.

(** ** Linking again with the file *)

Section Relink.
  Context (cfg : st_config) (mingw : bool) (has_extension : string -> bool) (characteristics : sref -> option Z).

(** Names that are the same after decoration and removal of the decoration. *)
Definition name_kept (e : Export) : Prop :=
  (is_I386 cfg = true -> mingw = true -> starts_with "_" (exportName e) = true -> str_contains "@@" (exportName e) = false) /\
  (isEC cfg = true -> writes_data characteristics e = false -> getArm64ECDemangledFunctionName (exportName e) = None).

Definition reimport (e : Export) : Export := import_export (reread characteristics (st_machine cfg) mingw e).

Lemma contains_two a s : str_contains (String a (String a "")) s = true -> str_contains (String a "") s = true.
Proof using Type.
  induction s as [|c s IH]; [done|]. cbn [str_contains]. rewrite !orb_true_iff, !starts_with_cons.
  destruct (Ascii.ascii_dec a c); [left; by destruct s|]. intros [?|?]; auto.
Qed.

Lemma starts_underscore s : starts_with "_" ("_" ++ s)%string = true.
Proof using Type. unfold starts_with. rewrite str_app_cons. cbn. by destruct s. Qed.

Lemma contains_underscore s : str_contains "@" ("_" ++ s)%string = str_contains "@" s.
Proof using Type. rewrite str_app_cons. done. Qed.

Lemma reread_name e : Name (reread characteristics (st_machine cfg) mingw e) =
  if is_I386 cfg && negb (isDecorated (exportName e) mingw) then ("_" ++ exportName e)%string else exportName e.
Proof using Type.
  unfold reread, is_I386, AddUnderscores, underscored. destruct (st_machine cfg); cbn; try done.
  destruct (isDecorated (exportName e) mingw); done.
Qed.

Lemma reimport_name e : name_kept e -> export_name cfg mingw (reimport e) = exportName e.
Proof using Type.
  intros [Hx Hec]. unfold export_name, reimport, import_export.
  assert (Hext : ExtName (reread characteristics (st_machine cfg) mingw e) = "").
  { unfold reread, AddUnderscores, underscored. by destruct (st_machine cfg). }
  assert (Has : ExportAs (reread characteristics (st_machine cfg) mingw e) = "").
  { unfold reread, AddUnderscores, underscored. by destruct (st_machine cfg). }
  assert (Hd : Data (reread characteristics (st_machine cfg) mingw e) = writes_data characteristics e).
  { unfold reread, AddUnderscores, underscored. by destruct (st_machine cfg). }
  cbn [exportAs forwardTo extName e_name data constant]. rewrite Hext, Has, Hd. cbn [String.eqb negb andb orb].
  rewrite reread_name. set (n := exportName e) in *.
  destruct (is_I386 cfg) eqn:E386; cbn [andb].
  - assert (Hno : isEC cfg = false) by (unfold is_I386, isEC in *; by destruct (st_machine cfg)). rewrite Hno. cbn [andb].
    unfold isDecorated. destruct (starts_with "@" n || str_contains "@@" n || starts_with "?" n || negb mingw && str_contains "@" n) eqn:Ed; cbn [negb].
    + destruct (starts_with "_" n) eqn:Eu; [|done]. cbn [andb].
      assert (starts_with "@" n = false /\ starts_with "?" n = false) as [H1 H2].
      { split; apply not_true_is_false; intros H; by pose proof (starts_with_first _ _ _ Eu H). }
      rewrite H1, H2 in Ed. destruct mingw; cbn [negb orb andb] in *.
      * rewrite Hx in Ed by done. done.
      * destruct (str_contains "@" n) eqn:Ec; [done|]. rewrite !orb_false_r in Ed. cbn in Ed.
        apply contains_two in Ed. congruence.
    + rewrite starts_underscore, contains_underscore. cbn [andb].
      rewrite !orb_false_iff in Ed. destruct Ed as [_ Ed].
      assert ((mingw || negb (str_contains "@" n)) = true) as -> by (destruct mingw; [done|]; cbn in *; by rewrite Ed). done.
  - destruct (isEC cfg) eqn:Eec; [|done]. cbn [andb negb].
    assert (Hc : Constant (reread characteristics (st_machine cfg) mingw e) = false).
    { unfold reread, AddUnderscores, underscored. by destruct (st_machine cfg). }
    rewrite Hc. destruct (writes_data characteristics e) eqn:Ew; [done|]. cbn [negb andb]. by rewrite Hec.
Qed.

Lemma uniquefy_id l : NoDup (map exportName l) -> uniquefy l = (l, []).
Proof using Type.
  unfold uniquefy. induction l as [|e l IH] using rev_ind; intros Hnd; [done|].
  rewrite map_app in Hnd. apply NoDup_app in Hnd as (Hnd & Hd & _). rewrite fold_left_app, IH by done. cbn.
  destruct (find_export (exportName e) l) as [[i e']|] eqn:E; [|done].
  apply find_export_Some in E as [Hl Hn]. destruct (Hd (exportName e)); [|by left].
  rewrite <- Hn. by eapply (list_elem_of_fmap_2 exportName), list_elem_of_lookup_2.
Qed.

Lemma duplicate_ordinal_none ords l : NoDup (map ordinal l) -> (forall e, e ∈ l -> ordinal e ∉ ords) ->
  duplicate_ordinal ords l = false.
Proof using Type.
  revert ords. induction l as [|e l IH]; intros ords Hnd Hd; [done|]. cbn in Hnd |- *. apply NoDup_cons in Hnd as [He Hnd].
  destruct (ordinal e =? 0); [apply IH; [done|]; intros x Hx; apply Hd; by right|].
  destruct (existsb _ ords) eqn:Ex.
  { apply existsb_exists in Ex as (o & Ho & <-%Z.eqb_eq). destruct (Hd e); [by left|by apply list_elem_of_In]. }
  apply IH; [done|]. intros x Hx [Hin|Hin]%elem_of_cons; [|destruct (Hd x); [by right|done]].
  destruct He. rewrite <- Hin. by apply (list_elem_of_fmap_2 ordinal).
Qed.

Lemma assign_ordinals_id max l : Forall (fun e => 1 <= ordinal e) l -> assign_ordinals max l = (l, max).
Proof using Type.
  intros H. revert max. induction H as [|e l He _ IH]; intros max; [done|]. cbn. rewrite (proj2 (Z.eqb_neq _ 0)) by lia.
  by rewrite IH.
Qed.

Lemma max_ordinal_le l : Forall (fun e => ordinal e <= 65535) l -> max_ordinal l <= 65535.
Proof using Type.
  unfold max_ordinal. intros H. induction l as [|e l IH] using rev_ind; [done|]. rewrite fold_left_app. cbn.
  apply Forall_app in H as [H He]. inversion He; subst. specialize (IH H). lia.
Qed.

Lemma map_before (f : Export -> Export) l : (forall e, e ∈ l -> exportName (f e) = exportName e) ->
  StronglySorted before l -> StronglySorted (sorted_le name_lt) (map f l).
Proof using Type.
  intros Hf. induction 1 as [|e l _ IH Hall]; [constructor|]. cbn. constructor.
  - apply IH. intros x Hx. apply Hf. by right.
  - apply Forall_map. rewrite Forall_forall in Hall |- *. intros x Hx. unfold sorted_le. apply name_lt_false. right.
    rewrite !Hf by (by left || by right). by apply Hall.
Qed.

Lemma before_names l : StronglySorted before l -> NoDup (map exportName l).
Proof using Type.
  induction 1 as [|e l _ IH Hall]; [constructor|]. cbn. constructor; [|done].
  intros (x & E & Hx)%list_elem_of_fmap. rewrite Forall_forall in Hall. specialize (Hall x Hx).
  rewrite E, string_compare_refl in Hall. done.
Qed.

(** The exports the second link ends with. *)
Definition relinked (e : Export) : Export := with_exportName (export_name cfg mingw (reimport e)) (reimport e).

Lemma reimport_ordinal e : ordinal (reimport e) = ordinal e /\ data (reimport e) = writes_data characteristics e.
Proof using Type. unfold reimport, reread, AddUnderscores, underscored. by destruct (st_machine cfg). Qed.

Lemma fixup_reimported es : StronglySorted before es -> NoDup (map ordinal es) -> Forall name_kept es ->
  fixupExports cfg mingw false (map reimport es) = Some (map relinked es, []).
Proof using Type.
  intros Hs Hnd Hk. unfold fixupExports.
  assert (Ho : map ordinal (map reimport es) = map ordinal es).
  { rewrite map_map. apply map_ext. intros e. apply reimport_ordinal. }
  rewrite (duplicate_ordinal_none [] (map reimport es)) by (rewrite ?Ho; try done; by intros ? _ ?%elem_of_nil).
  cbn [andb]. rewrite map_map. change (map (fun x => with_exportName _ (reimport x)) es) with (map relinked es).
  assert (Hn : forall e, e ∈ es -> exportName (relinked e) = exportName e).
  { intros e He. rewrite Forall_forall in Hk. cbn. by apply reimport_name, Hk. }
  rewrite uniquefy_id.
  - rewrite stable_sort_id; [done|]. by apply map_before.
  - rewrite map_map. rewrite (map_ext_in (fun x => exportName (relinked x)) exportName); [by apply before_names|].
    intros e He%list_elem_of_In. auto.
Qed.

Definition no_import_name (c : def_config) : def_config :=
  {| outputFile := outputFile c; c_importName := ""; imageBase := imageBase c; stackReserve := stackReserve c;
     stackCommit := stackCommit c; heapReserve := heapReserve c; heapCommit := heapCommit c;
     majorImageVersion := majorImageVersion c; minorImageVersion := minorImageVersion c;
     majorOSVersion := majorOSVersion c; minorOSVersion := minorOSVersion c |}.

Definition numbering (e : Export) : string * Z * bool := (exportName e, ordinal e, data e).


End Relink.

(** ** Witnesses, and what is lost *)

Definition win_config : st_config :=
  {| st_machine := I386; hybridEC := false; wordsize := 4; stdcallFixup := true; autoImport := true;
     forceUnresolved := false; allowDuplicateWeak := false; warnLocallyDefinedImported := false |}.
Definition exported (n : string) (o : Z) (r : option sref) : Export :=
  {| e_name := ("_" ++ n)%string; extName := ""; exportAs := ""; importName := ""; e_sym := r; ordinal := o;
     noname := false; data := false; isPrivate := false; constant := false; forwardTo := ""; source := ExportAll;
     symbolName := ("_" ++ n)%string; exportName := n |}.
Definition dll_exports : list Export :=
  [exported "@fast@8" 3 (Some (Global "@fast@8")); exported "func@4" 1 (Some (Global "_func@4"));
   exported "var" 70 (Some (Global "_var"))].
(** Code and data. *)
Definition dll_chunks (r : sref) : option Z :=
  match r with Global "_var" => Some 3221225536 | Global _ => Some 1610612768 | Local _ => None end.
Definition no_config : def_config :=
  {| outputFile := "a.dll"; c_importName := "b.dll"; imageBase := 4194304; stackReserve := 1; stackCommit := 2;
     heapReserve := 3; heapCommit := 4; majorImageVersion := 0; minorImageVersion := 0; majorOSVersion := 6;
     minorOSVersion := 0 |}.


(** A name that is a keyword is written without quotes, and read as the keyword. *)
Lemma keyword_name_lost :
  parse AMD64 false true (fun _ => false) (writeDefFile dll_chunks [exported "DATA" 1 None]) =
  Failed (UnknownDirective "DATA").
Proof. vm_compute. reflexivity. Qed.

(** The first character of an empty identifier is read. *)
Lemma empty_name_indexed :
  parse AMD64 false true (fun _ => false) ("EXPORTS f " ++ chars [34; 34]%nat)%string = Failed EmptyTokenIndexed.
Proof. vm_compute. reflexivity. Qed.

(** What is no number after a separate at sign is dropped without an error. *)
Lemma bad_ordinal_dropped :
  exists p, parse AMD64 false true (fun _ => false) "EXPORTS f @ g" =
            Done (add_exports [named_export "f" ""] empty_definition) p.
Proof. eexists. vm_compute. reflexivity. Qed.
