(* ===== verification/ImportLib.v ===== *)
(** * Import libraries (llvm/lib/Object/COFFImportFile.cpp, lld/COFF/Driver.cpp,
      InputFiles.cpp)

    [createImportLibrary] hands the exports of the link to [writeImportLibrary],
    which writes one member per export; [ImportFile::parse] reads them when the
    library is linked. The members that only hold constant data (the import
    descriptor and the terminators) are left out; a weak external is known by its
    names. *)

From S2P Require Import Prelude Memory SymbolTable Exports StringRef DefFile.

#[local] Open Scope string_scope.
#[local] Open Scope list_scope.
#[local] Open Scope Z_scope.

(** ** The format *)

Definition machine_code (m : machine) : Z :=
  match m with I386 => 332 | AMD64 => 34404 | ARMNT => 452 | ARM64 => 43620 | ARM64EC => 42561 end.
(** [isArm64EC]: ARM64EC and ARM64X. *)
Definition isArm64EC_code (c : Z) : bool := (c =? 42561) || (c =? 42574).

Inductive ImportType := IMPORT_CODE | IMPORT_DATA | IMPORT_CONST.
Definition type_code (t : ImportType) : Z := match t with IMPORT_CODE => 0 | IMPORT_DATA => 1 | IMPORT_CONST => 2 end.

Inductive ImportNameType :=
  | IMPORT_ORDINAL | IMPORT_NAME | IMPORT_NAME_NOPREFIX | IMPORT_NAME_UNDECORATE | IMPORT_NAME_EXPORTAS.
Definition name_type_code (t : ImportNameType) : Z :=
  match t with
  | IMPORT_ORDINAL => 0 | IMPORT_NAME => 1 | IMPORT_NAME_NOPREFIX => 2 | IMPORT_NAME_UNDECORATE => 3
  | IMPORT_NAME_EXPORTAS => 4
  end.

(** ** Names *)

Definition prefix_chars : list Ascii.ascii := [ch 63; ch 64; ch 95].
Definition until_at (s : string) : string := match str_index (ch 64) s with Some i => str_take i s | None => s end.

Definition applyNameType (Type_ : ImportNameType) (name : string) : string :=
  match Type_ with
  | IMPORT_NAME_NOPREFIX => ltrim1 name prefix_chars
  | IMPORT_NAME_UNDECORATE => until_at (ltrim1 name prefix_chars)
  | _ => name
  end.

Definition getNameType (Sym ExtName_ : string) (Machine : machine) (MinGW : bool) : ImportNameType :=
  if starts_with "_" ExtName_ && str_contains "@" ExtName_ && negb MinGW then IMPORT_NAME
  else if negb (String.eqb Sym ExtName_) then IMPORT_NAME_UNDECORATE
  else match Machine with
       | I386 => if starts_with "_" Sym then IMPORT_NAME_NOPREFIX else IMPORT_NAME
       | _ => IMPORT_NAME
       end.

(** [S] with the first [From] replaced. *)
Fixpoint replace_first (S_ From To : string) : option string :=
  if starts_with From S_ then Some (To ++ str_drop (String.length From) S_)%string
  else match S_ with EmptyString => None | String c S_ => String c <$> replace_first S_ From To end.

Definition replace (S_ From To : string) : option string :=
  match replace_first S_ From To with
  | Some r => Some r
  | None => if starts_with "_" From && starts_with "_" To then replace_first S_ (str_drop 1 From) (str_drop 1 To) else None
  end.

(** ** Members *)

Inductive member := ShortImport (bytes : list Z) | WeakExternal (Sym Weak : string) (Imp : bool).

Definition createShortImport (ImportName_ Sym : string) (Ordinal_ : Z) (Type_ : ImportType) (NameType : ImportNameType)
    (ExportName : string) (Machine : machine) : member :=
  let names := str_bytes Sym ++ [0] ++ str_bytes ImportName_ ++ [0] ++
               (if String.eqb ExportName "" then [] else str_bytes ExportName ++ [0]) in
  ShortImport (le_bytes 2 0 ++ le_bytes 2 65535 ++ le_bytes 2 0 ++ le_bytes 2 (machine_code Machine) ++ le_bytes 4 0 ++
               le_bytes 4 (Z.of_nat (length names)) ++ le_bytes 2 (if 0 <? Ordinal_ then Ordinal_ else 0) ++
               le_bytes 2 ((name_type_code NameType <<< 2) ||| type_code Type_) ++ names).

Section Write.
  Context (insertion_point : string -> option nat).
  Context (ImportName_ : string) (MinGW : bool).

Record deferred := { d_name : string; d_type : ImportType; d_export : COFFShortExport }.

Record members := { RegularImports : gmap string string; Renames : list deferred; Members : list member }.

Definition import_type (E : COFFShortExport) : ImportType :=
  if Constant E then IMPORT_CONST else if Data E then IMPORT_DATA else IMPORT_CODE.

Definition is_code (t : ImportType) : bool := match t with IMPORT_CODE => true | _ => false end.
Definition is_EC (M : machine) : bool := match M with ARM64EC => true | _ => false end.
Definition is_386 (M : machine) : bool := match M with I386 => true | _ => false end.

(** The name of the symbol, or the error of [replace]. *)
Definition import_name_of (E : COFFShortExport) : option string :=
  let SymbolName_ := if String.eqb (SymbolName E) "" then Name E else SymbolName E in
  if String.eqb (ExtName E) "" then Some SymbolName_ else replace SymbolName_ (Name E) (ExtName E).

(** The name type and the export name; none for an import that is deferred. *)
Definition import_name_type (Machine M : machine) (E : COFFShortExport) (name : string) : option (ImportNameType * string) :=
  let SymbolName_ := if String.eqb (SymbolName E) "" then Name E else SymbolName E in
  if Noname E then Some (IMPORT_ORDINAL, "")
  else if negb (String.eqb (ExportAs E) "") then Some (IMPORT_NAME_EXPORTAS, ExportAs E)
  else if negb (String.eqb (ImportName E) "") then
    if is_386 Machine && String.eqb (applyNameType IMPORT_NAME_UNDECORATE name) (ImportName E) then
      Some (IMPORT_NAME_UNDECORATE, "")
    else if is_386 Machine && String.eqb (applyNameType IMPORT_NAME_NOPREFIX name) (ImportName E) then
      Some (IMPORT_NAME_NOPREFIX, "")
    else if is_EC M then Some (IMPORT_NAME_EXPORTAS, ImportName E)
    else if String.eqb name (ImportName E) then Some (IMPORT_NAME, "")
    else None
  else Some (getNameType SymbolName_ (Name E) M MinGW, "").

(** On ARM64EC the symbol is the mangled one and the import has the other name;
    none for an error. *)
Definition mangle_import (M : machine) (E : COFFShortExport) (name : string) (ty : ImportNameType) (ExportName : string)
    : option (string * ImportNameType * string) :=
  if is_code (import_type E) && is_EC M then
    let plain := negb (Noname E) && String.eqb ExportName "" in
    match getArm64ECMangledFunctionName insertion_point name with
    | Some MangledName => Some (MangledName, if plain then IMPORT_NAME_EXPORTAS else ty, if plain then name else ExportName)
    | None =>
        if plain then
          match getArm64ECDemangledFunctionName name with
          | Some DemangledName => Some (name, IMPORT_NAME_EXPORTAS, DemangledName)
          | None => None
          end
        else Some (name, ty, ExportName)
    end
  else Some (name, ty, ExportName).

Definition add_import (Machine M : machine) (E : COFFShortExport) (s : members) : option members :=
  if Private E then Some s
  else
    name ← import_name_of E;
    match import_name_type Machine M E name with
    | None => Some {| RegularImports := RegularImports s;
                      Renames := Renames s ++ [{| d_name := name; d_type := import_type E; d_export := E |}];
                      Members := Members s |}
    | Some (ty, ExportName) =>
        x ← mangle_import M E name ty ExportName;
        let '(name, ty, ExportName) := x in
        Some {| RegularImports := <[applyNameType ty name := name]> (RegularImports s);
                Renames := Renames s;
                Members := Members s ++
                  [createShortImport ImportName_ name (Ordinal E) (import_type E) ty ExportName M] |}
    end.

Definition renamed (M : machine) (s : members) (d : deferred) : list member :=
  match RegularImports s !! ImportName (d_export d) with
  | Some Symbol_ =>
      (if is_code (d_type d) then [WeakExternal Symbol_ (d_name d) false] else []) ++
      [WeakExternal Symbol_ (d_name d) true]
  | None => [createShortImport ImportName_ (d_name d) (Ordinal (d_export d)) (d_type d) IMPORT_NAME_EXPORTAS
               (ImportName (d_export d)) M]
  end.

Fixpoint add_imports (Machine M : machine) (Exp : list COFFShortExport) (s : members) : option members :=
  match Exp with [] => Some s | E :: Exp => s ← add_import Machine M E s; add_imports Machine M Exp s end.

Definition addExports (Machine M : machine) (Exp : list COFFShortExport) : option (list member) :=
  s ← add_imports Machine M Exp {| RegularImports := ∅; Renames := []; Members := [] |};
  Some (Members s ++ flat_map (renamed M s) (Renames s)).

(** [writeImportLibrary]: the members of the exports; [None] for an error. *)
Definition writeImportLibrary (Machine : machine) (Exports_ NativeExports : list COFFShortExport) : option (list member) :=
  let NativeMachine := match Machine with ARM64EC => ARM64 | m => m end in
  a ← addExports Machine Machine Exports_;
  b ← addExports Machine NativeMachine NativeExports;
  Some (a ++ b).

End Write.

(** [getExports] of [createImportLibrary]. *)
Definition getExports (e1 : Export) : COFFShortExport :=
  {| Name := e_name e1; ExtName := extName e1; SymbolName := symbolName e1; ImportName := importName e1;
     ExportAs := exportAs e1; Ordinal := ordinal e1; Noname := noname e1; Data := data e1; Private := isPrivate e1;
     Constant := constant e1 |}.

(** ** Reading a member *)

Record parsed_import := {
  pi_name : string;
  pi_impName : string;
  pi_dllName : string;
  pi_externalName : string;
  pi_machine : Z;
  pi_ordinalHint : Z;
  pi_type : Z
}.

Fixpoint until_nul (l : list Z) : list Z * list Z :=
  match l with
  | [] => ([], [])
  | b :: l => if b =? 0 then ([], l) else let '(a, r) := until_nul l in (b :: a, r)
  end.

Definition field (n off : nat) (l : list Z) : Z := le_value (take n (drop off l)).

(** The header and the names; [None] for a broken import library. *)
Definition parse_import (mb : list Z) : option parsed_import :=
  if (length mb <? 20)%nat || negb (Z.of_nat (length mb) =? 20 + field 4 12 mb) then None
  else
    let '(first, buf) := until_nul (drop 20 mb) in
    let mach := field 2 6 mb in
    let name :=
      if isArm64EC_code mach then
        match getArm64ECDemangledFunctionName (string_of_bytes first) with
        | Some "" | None => string_of_bytes first
        | Some d => d
        end
      else string_of_bytes first in
    let '(dll, _) := until_nul buf in
    let ty := (field 2 18 mb >>> 2) &&& 7 in
    let extName :=
      if ty =? 1 then name
      else if ty =? 2 then ltrim1 name prefix_chars
      else if ty =? 3 then until_at (ltrim1 name prefix_chars)
      else if ty =? 4 then string_of_bytes (until_nul (drop (length dll + 1) buf)).1
      else "" in
    Some {| pi_name := name; pi_impName := ("__imp_" ++ name)%string; pi_dllName := string_of_bytes dll;
            pi_externalName := extName; pi_machine := mach; pi_ordinalHint := field 2 16 mb;
            pi_type := field 2 18 mb &&& 3 |}.

(** *** The symbols of an import file *)

Record import_symbols := {
  impSym : option sref;
  impECSym : option sref;
  auxImpCopySym : option sref;
  thunkSym : option sref;
  auxThunkSym : option sref;
  impchkSym : option sref
}.
Definition no_symbols : import_symbols :=
  {| impSym := None; impECSym := None; auxImpCopySym := None; thunkSym := None; auxThunkSym := None; impchkSym := None |}.

Section Parse.
  Context (cfg : st_config) (insertion_point : string -> option nat) (file : nat).

Definition add_data (n : string) (T : symtab) : symtab * option sref :=
  let '(T, ok) := addImportData cfg n file T in (T, if ok : bool then Some (Global n) else None).
Definition add_thunk (n : string) (id : sref) (T : symtab) : symtab * option sref :=
  let '(T, ok) := addImportThunk cfg n id file T in (T, if ok : bool then Some (Global n) else None).

(** The symbols of the slots: of the import address table, and on ARM64EC of the
    auxiliary one and its copy. False for an early return. *)
Definition add_slots (p : parsed_import) (T : symtab) : symtab * import_symbols * bool :=
  if negb (isEC cfg) then
    let '(T, i) := add_data (pi_impName p) T in
    (T, {| impSym := i; impECSym := None; auxImpCopySym := None; thunkSym := None; auxThunkSym := None; impchkSym := None |},
     true)
  else
    let auxImpName := ("__imp_aux_" ++ pi_name p)%string in
    let '(T, i) := add_data (if pi_type p =? 0 then auxImpName else pi_impName p) T in
    let '(T, ec) := add_data (if pi_type p =? 0 then pi_impName p else auxImpName) T in
    match ec with
    | None => (T, {| impSym := i; impECSym := ec; auxImpCopySym := None; thunkSym := None; auxThunkSym := None;
                     impchkSym := None |}, false)
    | Some _ =>
        let '(T, c) := add_data ("__auximpcopy_" ++ pi_name p)%string T in
        (T, {| impSym := i; impECSym := ec; auxImpCopySym := c; thunkSym := None; auxThunkSym := None; impchkSym := None |},
         match c with Some _ => true | None => false end)
    end.

(** [ImportFile::parse]; [helper]: whether the ARM64EC call helper was asked for. *)
Definition ImportFile_parse (mb : list Z) (helper : bool) (T : symtab) : option (symtab * import_symbols * bool) :=
  p ← parse_import mb;
  let '(T, s, go_on) := add_slots p T in
  match go_on, impSym s with
  | false, _ | _, None => Some (T, s, helper)
  | true, Some imp =>
      let T := if pi_type p =? 2 then (add_data (pi_name p) T).1 else T in
      if negb (pi_type p =? 0) then Some (T, s, helper)
      else if negb (isEC cfg) then
        let '(T, t) := add_thunk (pi_name p) imp T in
        Some (T, {| impSym := impSym s; impECSym := impECSym s; auxImpCopySym := auxImpCopySym s; thunkSym := t;
                    auxThunkSym := None; impchkSym := None |}, helper)
      else
        let '(T, t) := add_thunk (pi_name p) imp T in
        let '(T, a) :=
          match getArm64ECMangledFunctionName insertion_point (pi_name p), impECSym s with
          | Some m, Some ec => add_thunk m ec T
          | _, _ => (T, None)
          end in
        let '(T, c) := add_thunk ("__impchk_" ++ pi_name p)%string imp T in
        let T := if helper then T else addGCRoot cfg insertion_point "__icall_helper_arm64ec" false T in
        Some (T, {| impSym := impSym s; impECSym := impECSym s; auxImpCopySym := auxImpCopySym s; thunkSym := t;
                    auxThunkSym := a; impchkSym := c |}, true)
  end.

End Parse.
