(* ===== verification/ImportLibProps.v ===== *)
(** * Import libraries: what is written is what is linked *)

From S2P Require Import Prelude Memory SymbolTable Exports StringRef DefFile ImageProps ImportLib.

#[local] Open Scope string_scope.
#[local] Open Scope list_scope.
#[local] Open Scope Z_scope.

(** ** Reading a member *)

Definition nul_free (s : string) : Prop := str_all (fun c => negb (code c =? 0)) s = true.

Lemma nul_free_bytes s : nul_free s -> Forall (fun b => b <> 0) (str_bytes s).
Proof.
  unfold nul_free, str_bytes. induction s as [|c s IH]; cbn; [constructor|]. intros [Hc Hs]%andb_true_iff.
  constructor; [|by apply IH]. unfold code in Hc. apply negb_true_iff, Z.eqb_neq in Hc. lia.
Qed.

Lemma until_nul_split s r : nul_free s -> until_nul (str_bytes s ++ 0 :: r) = (str_bytes s, r).
Proof.
  intros H%nul_free_bytes. revert H. generalize (str_bytes s). intros l. induction 1 as [|b l Hb _ IH]; [done|]. cbn.
  by rewrite (proj2 (Z.eqb_neq _ _) Hb), IH.
Qed.

Lemma type_info_fields ty t : name_type_code ty = (wrap 16 ((name_type_code ty <<< 2) ||| type_code t) >>> 2) &&& 7 /\
  type_code t = wrap 16 ((name_type_code ty <<< 2) ||| type_code t) &&& 3.
Proof. by destruct ty, t. Qed.

(** The name the linker takes for a symbol of an import library. *)
Definition read_name (M : machine) (Sym : string) : string :=
  if is_EC M then
    match getArm64ECDemangledFunctionName Sym with Some "" | None => Sym | Some d => d end
  else Sym.

Definition read_external (M : machine) (Sym : string) (ty : ImportNameType) (ExportName : string) : string :=
  match ty with
  | IMPORT_ORDINAL => ""
  | IMPORT_NAME_EXPORTAS => ExportName
  | _ => applyNameType ty (read_name M Sym)
  end.

Definition read_member (m : member) : option parsed_import :=
  match m with ShortImport b => parse_import b | WeakExternal _ _ _ => None end.

Lemma parse_short_import dll Sym ord t ty ExportName M :
  nul_free Sym -> nul_free dll -> nul_free ExportName -> 0 <= ord < 2 ^ 16 ->
  (ty = IMPORT_NAME_EXPORTAS -> ExportName <> "") ->
  Z.of_nat (String.length Sym + String.length dll + String.length ExportName + 3) < 2 ^ 32 ->
  read_member (createShortImport dll Sym ord t ty ExportName M) =
  Some {| pi_name := read_name M Sym; pi_impName := ("__imp_" ++ read_name M Sym)%string; pi_dllName := dll;
          pi_externalName := read_external M Sym ty ExportName; pi_machine := machine_code M; pi_ordinalHint := ord;
          pi_type := type_code t |}.
Proof.
  intros Hs Hd Hx Ho Hty Hlen. unfold createShortImport, read_member.
  set (names := str_bytes Sym ++ _). set (info := (name_type_code ty <<< 2) ||| type_code t).
  set (mb := le_bytes 2 0 ++ _).
  assert (Hn : 0 <= Z.of_nat (length names) < 2 ^ 32).
  { assert (Hb : forall s, length (str_bytes s) = String.length s) by (intros s; apply length_str_bytes).
    unfold names. rewrite !length_app, !Hb. cbn [length]. destruct (String.eqb ExportName ""); cbn [length];
      rewrite ?length_app, ?Hb; cbn [length]; lia. }
  assert (Hsize : field 4 12 mb = Z.of_nat (length names)).
  { change (field 4 12 mb) with (le_value (le_bytes 4 (Z.of_nat (length names)))). by rewrite le_value_bytes_small. }
  assert (Hmach : field 2 6 mb = machine_code M).
  { change (field 2 6 mb) with (le_value (le_bytes 2 (machine_code M))). by destruct M. }
  assert (Hord : field 2 16 mb = ord).
  { change (field 2 16 mb) with (le_value (le_bytes 2 (if 0 <? ord then ord else 0))).
    rewrite le_value_bytes_small; [destruct (Z.ltb_spec 0 ord); lia|destruct (Z.ltb_spec 0 ord)]; unfold word_ok; cbn; lia. }
  assert (Hinfo : field 2 18 mb = wrap 16 info).
  { change (field 2 18 mb) with (le_value (le_bytes 2 info)). apply le_value_bytes. }
  assert (Hdrop : drop 20 mb = names) by done.
  assert (Htot : length mb = (20 + length names)%nat) by done.
  clearbody mb. unfold parse_import. rewrite Htot, Hsize, Hdrop, Hmach, Hord, Hinfo.
  replace ((20 + length names <? 20)%nat) with false by (symmetry; apply Nat.ltb_ge; lia).
  replace (Z.of_nat (20 + length names) =? 20 + Z.of_nat (length names)) with true by (symmetry; apply Z.eqb_eq; lia).
  cbn [orb negb]. destruct (type_info_fields ty t) as [E1 E2]. fold info in E1, E2.
  rewrite <- E1, <- E2.
  assert (Hnames : names = str_bytes Sym ++ 0 :: str_bytes dll ++ 0 ::
    (if String.eqb ExportName "" then [] else str_bytes ExportName ++ [0])) by done.
  rewrite Hnames, until_nul_split by done.
  assert (Hec : isArm64EC_code (machine_code M) = is_EC M) by by destruct M. rewrite Hec, string_of_str_bytes.
  fold (read_name M Sym).
  rewrite until_nul_split by done. rewrite string_of_str_bytes.
  assert (Hext : ty = IMPORT_NAME_EXPORTAS ->
    string_of_bytes (until_nul (drop (length (str_bytes dll) + 1)
      (str_bytes dll ++ 0 :: (if String.eqb ExportName "" then [] else str_bytes ExportName ++ [0])))).1 = ExportName).
  { intros Hx4. specialize (Hty Hx4). apply String.eqb_neq in Hty as ->.
    rewrite <- drop_drop, drop_app_length. rewrite skipn_cons, drop_0, until_nul_split by done. apply string_of_str_bytes. }
  f_equal. f_equal. destruct ty; cbn [name_type_code Z.eqb Pos.eqb]; try done. by apply Hext.
Qed.

(** ** Names with room for a few more characters *)

Definition name_ok (s : string) : Prop := nul_free s /\ Z.of_nat (String.length s) < 2 ^ 28.
Definition name_ok' (s : string) : Prop := nul_free s /\ Z.of_nat (String.length s) < 2 ^ 28 + 8.

Lemma name_ok_more s : name_ok s -> name_ok' s.
Proof. unfold name_ok, name_ok'. intros [? ?]. split; [done|lia]. Qed.

Lemma mangled_ok ip n m : name_ok n -> getArm64ECMangledFunctionName ip n = Some m -> name_ok' m.
Proof.
  intros [Hn Hl]. unfold getArm64ECMangledFunctionName, name_ok', nul_free in *.
  destruct (negb (starts_with "?" n)).
  { destruct (starts_with "#" n); [done|]. intros [= <-]. rewrite str_all_app, str_length_app, Hn. cbn. split; [done|lia]. }
  destruct (str_contains "$$h" n); [done|].
  destruct (starts_with "??@" n && ends_with "@" n).
  { intros [= <-]. rewrite str_all_app, str_length_app, Hn. cbn. split; [done|lia]. }
  destruct (ip n) as [i|]; [|done]. cbn. intros [= <-]. rewrite !str_all_app, !str_length_app, str_all_take, str_all_drop by done.
  pose proof (str_take_length i n). rewrite str_drop_length. cbn. split; [done|].
  assert (String.length (str_take i n) + (String.length n - i) <= String.length n)%nat; [|lia].
  clear. revert i. induction n as [|c n IH]; intros [|i]; cbn; try lia. specialize (IH i). lia.
Qed.

Lemma split_at_parts p n a b : split_at p n = (a, b) ->
  (forall q, str_all q n = true -> str_all q a = true /\ str_all q b = true) /\
  (String.length a + String.length b <= String.length n)%nat.
Proof.
  revert a b. induction n as [|c n IH]; intros a b.
  - cbn [split_at]. assert (Hd : str_drop (String.length p) "" = "") by by destruct p. rewrite Hd.
    destruct (starts_with p ""); intros E; injection E as <- <-; done.
  - cbn [split_at]. destruct (starts_with p (String c n)).
    + intros [= <- <-]. split; [intros q Hq; split; [done|by apply str_all_drop]|]. rewrite str_drop_length. cbn. lia.
    + destruct (split_at p n) as [a' b'] eqn:E. intros [= <- <-]. destruct (IH _ _ eq_refl) as [H1 H2]. split.
      * intros q. cbn. intros [Hc Hq]%andb_true_iff. destruct (H1 q Hq) as [Ha Hb]. by rewrite Hc, Ha.
      * cbn. lia.
Qed.

Lemma demangled_ok n d : name_ok n -> getArm64ECDemangledFunctionName n = Some d -> name_ok' d.
Proof.
  intros [Hn Hl]. unfold getArm64ECDemangledFunctionName, name_ok', nul_free in *.
  destruct (starts_with "#" n).
  { intros H. assert (d = str_drop 1 n) as -> by congruence. rewrite str_all_drop, str_drop_length by done. split; [done|lia]. }
  destruct (negb (starts_with "?" n)); [done|].
  destruct (starts_with "??@" n && ends_with "@$$h@" n).
  { intros [= <-]. pose proof (str_take_length (String.length n - 4) n). rewrite str_all_take by done. split; [done|lia]. }
  destruct (split_at "$$h" n) as [a b] eqn:E. destruct (String.eqb b ""); [done|]. intros [= <-].
  destruct (split_at_parts _ _ _ _ E) as [H1 H2]. destruct (H1 _ Hn) as [Ha Hb].
  rewrite str_all_app, Ha, Hb, str_length_app. split; [done|lia].
Qed.

(** ** What an export is imported as *)

Section Library.
  Context (cfg : st_config) (mingw : bool) (insertion_point : string -> option nat) (dll : string).

Definition EC : bool := is_EC (st_machine cfg).
Definition export_is_code (e : Export) : bool := is_code (import_type (getExports e)).

(** The symbol that is exported, and the name it is linked by. *)
Definition exported_symbol (e : Export) : string := if String.eqb (symbolName e) "" then e_name e else symbolName e.
Definition linked_name (e : Export) : string := if String.eqb (extName e) "" then exported_symbol e else extName e.

(** The exports of [fixupExports] whose import can be expressed: the symbol is
    the name that was asked for; or it was found by its mangled name, which has the
    name when undecorated; or the export is renamed, on x86 from one undecorated C
    name to another. *)
Definition as_named (e : Export) : Prop := extName e = "" /\ exported_symbol e = e_name e.
Definition as_found (e : Export) : Prop :=
  extName e = "" /\ exported_symbol e <> e_name e /\ EC = false /\
  starts_with "_" (e_name e) && str_contains "@" (e_name e) && negb mingw = false /\
  applyNameType IMPORT_NAME_UNDECORATE (exported_symbol e) = export_name cfg mingw e.
Definition as_renamed (e : Export) : Prop :=
  extName e <> "" /\ forwardTo e = "" /\ exported_symbol e = e_name e /\
  (is_I386 cfg = true -> starts_with "_" (e_name e) = starts_with "_" (extName e) /\
     str_contains "@" (e_name e) = false /\ str_contains "@" (extName e) = false).

Record importable (e : Export) : Prop := {
  im_kind : as_named e \/ as_found e \/ as_renamed e;
  im_import : importName e = "";
  im_names : name_ok (exported_symbol e) /\ name_ok (extName e) /\ name_ok (exportAs e);
  im_nonempty : linked_name e <> "" /\ export_name cfg mingw e <> "";
  im_ordinal : 0 <= ordinal e < 2 ^ 16;
  (** ARM64EC: functions have a mangled or a demangled name, data has no mangled one. *)
  im_ec_code : EC = true -> export_is_code e = true ->
    getArm64ECMangledFunctionName insertion_point (linked_name e) <> None \/
    getArm64ECDemangledFunctionName (linked_name e) <> None;
  im_ec_data : EC = true -> export_is_code e = false -> getArm64ECDemangledFunctionName (linked_name e) = None
}.

Lemma EC_isEC : isEC cfg = EC.
Proof using Type. done. Qed.

Lemma code_flags e : export_is_code e = negb (data e) && negb (constant e).
Proof using Type. unfold export_is_code, import_type, getExports. cbn. by destruct (constant e), (data e). Qed.

Lemma replace_first_self n s : n <> "" -> replace_first n n s = Some s.
Proof using Type.
  intros _. assert (Hp : forall n, starts_with n n = true).
  { induction n0 as [|c n0 IH]; [done|]. unfold starts_with in *. cbn. by destruct (Ascii.ascii_dec c c). }
  assert (Hd : str_drop (String.length n) n = "").
  { induction n as [|c n IH]; [done|]. cbn. apply IH. }
  destruct n; cbn [replace_first]; rewrite Hp, Hd, str_app_nil; done.
Qed.

Lemma import_name_linked e : importable e -> import_name_of (getExports e) = Some (linked_name e).
Proof using Type.
  intros [Hk _ _ [Hne _] _ _ _]. unfold import_name_of, linked_name, getExports in *. cbn in *. fold (exported_symbol e).
  destruct Hk as [[-> _]|[(-> & _)|(Hx & _ & Hs & _)]]; [done|done|]. apply String.eqb_neq in Hx. rewrite Hx, Hs.
  unfold replace. destruct (decide (e_name e = "")) as [E|E]; [|by rewrite replace_first_self].
  rewrite E. destruct (extName e); [done|]. cbn. by rewrite str_app_nil.
Qed.

Lemma ltrim1_underscore s : starts_with "_" s = true -> ltrim1 s prefix_chars = str_drop 1 s.
Proof using Type.
  destruct s as [|c s]; [done|]. unfold starts_with. cbn [String.prefix].
  destruct (Ascii.ascii_dec _ c) as [<-|]; [|done]. done.
Qed.

(** The import has the name of the export table. *)
Lemma external_name e : importable e -> noname e = false -> exportAs e = "" -> EC && export_is_code e = false ->
  let ty := getNameType (exported_symbol e) (e_name e) (st_machine cfg) mingw in
  ty <> IMPORT_ORDINAL /\ ty <> IMPORT_NAME_EXPORTAS /\ applyNameType ty (linked_name e) = export_name cfg mingw e.
Proof using Type.
  intros [Hk _ _ _ _ _ Hec] Hn Ha Hcode. split; [unfold getNameType; by repeat case_match|].
  split; [unfold getNameType; by repeat case_match|].
  assert (Hdem : isEC cfg && negb (data e) && negb (constant e) = false) by (rewrite <- andb_assoc, <- code_flags; done).
  unfold linked_name, export_name in *. rewrite Ha. cbn [String.eqb negb]. rewrite Hdem.
  unfold getNameType, is_I386 in *. destruct Hk as [[Hx Hs]|[(Hx & Hs & Hno & Hf & Hu)|(Hx & Hfw & Hs & H386)]].
  - rewrite Hx, Hs, String.eqb_refl. cbn [negb String.eqb]. rewrite orb_true_r.
    destruct (starts_with "_" (e_name e)) eqn:Eu, (str_contains "@" (e_name e)) eqn:Ec, mingw; destruct (st_machine cfg); cbn [andb orb negb applyNameType];
      rewrite ?ltrim1_underscore by done; done.
  - rewrite Hf, (proj2 (String.eqb_neq _ _) Hs). cbn [negb]. unfold export_name in Hu. rewrite Ha, Hdem in Hu. cbn [String.eqb negb] in Hu.
    rewrite Hx in *. cbn [String.eqb]. exact Hu.
  - rewrite Hs, String.eqb_refl, Hfw, (proj2 (String.eqb_neq _ _) Hx). cbn [negb orb String.eqb].
    destruct (st_machine cfg) eqn:Em; try (by destruct (starts_with "_" (e_name e) && str_contains "@" (e_name e) && negb mingw)).
    destruct (H386 ltac:(unfold is_I386; by rewrite Em)) as (Hu & Hc1 & Hc2). rewrite Hc1, Hc2, Hu, andb_false_r. cbn [andb negb]. rewrite orb_true_r, andb_true_r.
    destruct (starts_with "_" (extName e)) eqn:E; cbn [andb applyNameType]; [by apply ltrim1_underscore|done].
Qed.

(** Decoration is left off on ARM64EC. *)
Lemma ec_external e : importable e -> EC = true -> export_is_code e = true -> exportAs e = "" ->
  export_name cfg mingw e = default (linked_name e) (getArm64ECDemangledFunctionName (linked_name e)).
Proof using Type.
  intros [Hk _ _ _ _ _ _] HEC Hcode Ha. unfold export_name, linked_name. rewrite Ha. cbn [String.eqb negb].
  assert (H386 : is_I386 cfg = false) by (unfold EC, is_I386 in *; by destruct (st_machine cfg)). rewrite H386, EC_isEC, HEC.
  rewrite code_flags in Hcode. apply andb_true_iff in Hcode as [-> ->]. cbn [andb].
  assert (Hsym : (if negb (String.eqb (forwardTo e) "") || String.eqb (extName e) "" then e_name e else extName e) =
                 (if String.eqb (extName e) "" then exported_symbol e else extName e)).
  { destruct Hk as [[-> ->]|[(_ & _ & Hno & _)|(Hx & -> & _)]]; [by rewrite orb_true_r|congruence|].
    by rewrite (proj2 (String.eqb_neq _ _) Hx). }
  rewrite Hsym. by destruct (getArm64ECDemangledFunctionName _).
Qed.

Lemma contains_drop p k s : str_contains p (str_drop k s) = true -> str_contains p s = true.
Proof using Type.
  revert s. induction k as [|k IH]; intros [|c s]; try done. cbn [str_drop]. intros H%IH. cbn. by rewrite H, orb_true_r.
Qed.

Lemma ends_with_contains n : ends_with "@$$h@" n = true -> str_contains "$$h" n = true.
Proof using Type.
  unfold ends_with. intros H. apply andb_true_iff in H as [_ H]. apply String.eqb_eq in H. unfold str_last in H.
  eapply contains_drop. rewrite H. done.
Qed.

Lemma mangled_not_demangled n m : getArm64ECMangledFunctionName insertion_point n = Some m ->
  getArm64ECDemangledFunctionName n = None.
Proof using Type.
  unfold getArm64ECMangledFunctionName, getArm64ECDemangledFunctionName.
  destruct (starts_with "#" n) eqn:E1.
  - destruct (starts_with "?" n) eqn:E2; [|done]. by pose proof (starts_with_first _ _ _ E1 E2).
  - destruct (starts_with "?" n); [|done]. cbn [negb]. destruct (str_contains "$$h" n) eqn:Ec; [done|]. intros _.
    assert (Hsplit : split_at "$$h" n = (n, "")).
    { clear -Ec. induction n as [|c n IH]; [done|]. cbn [str_contains split_at] in *. apply orb_false_iff in Ec as [-> Ec].
      by rewrite IH. }
    rewrite Hsplit. destruct (starts_with "??@" n && ends_with "@$$h@" n) eqn:E; [|done]. apply andb_true_iff in E as [_ E].
    apply ends_with_contains in E. congruence.
Qed.

(** What a member says of an export. *)
Definition imports (m : member) (e : Export) : Prop :=
  exists p, read_member m = Some p /\ pi_dllName p = dll /\
    pi_externalName p = (if noname e then "" else export_name cfg mingw e) /\
    pi_ordinalHint p = ordinal e /\ pi_type p = type_code (import_type (getExports e)) /\
    pi_machine p = machine_code (st_machine cfg) /\ (EC = false -> pi_name p = linked_name e).

Lemma name_ok_no_nul s : name_ok s -> nul_free s.
Proof using Type. by intros [? _]. Qed.

Lemma linked_name_ok e : importable e -> name_ok (linked_name e).
Proof using Type. intros [_ _ (? & ? & _) _ _ _ _]. unfold linked_name. by case_match. Qed.

(** The member of one export, with name, type and export name chosen. *)
Lemma short_imports e name ty X : name_ok dll -> importable e -> name_ok' name -> name_ok' X ->
  (ty = IMPORT_NAME_EXPORTAS -> X <> "") ->
  read_external (st_machine cfg) name ty X = (if noname e then "" else export_name cfg mingw e) ->
  (EC = false -> name = linked_name e) ->
  imports (createShortImport dll name (ordinal e) (import_type (getExports e)) ty X (st_machine cfg)) e.
Proof using Type.
  intros [Hd Hdl] He [Hn Hnl] [HX HXl] Hty Hext Hname. destruct He as [_ _ _ _ Ho _ _]. unfold imports.
  rewrite parse_short_import; [|done|done|done|done|done|lia]. eexists. split; [done|].
  cbn [pi_dllName pi_externalName pi_ordinalHint pi_type pi_machine pi_name]. split_and!; try done.
  intros HEC. unfold read_name. unfold EC in HEC. rewrite HEC. by apply Hname.
Qed.

Ltac import_tac :=
  first [done | by apply name_ok_more | by (eapply mangled_ok; [|eassumption]) | by (eapply demangled_ok; [|eassumption]) | congruence
        | cbn [read_external]; congruence | by repeat match goal with H : _ = _ |- _ => rewrite H end].

Lemma add_import_one e s : name_ok dll -> importable e -> isPrivate e = false ->
  exists m R, add_import insertion_point dll mingw (st_machine cfg) (st_machine cfg) (getExports e) s =
    Some {| RegularImports := R; Renames := Renames s; Members := Members s ++ [m] |} /\ imports m e.
Proof using Type.
  intros Hdll He Hp. unfold add_import. cbn [Private getExports]. rewrite Hp, (import_name_linked e He). cbn [mbind option_bind].
  pose proof (linked_name_ok e He) as Hln. pose proof (im_import e He) as Himp. pose proof (im_nonempty e He) as [Hne Hxn].
  pose proof (im_names e He) as (_ & _ & Has).
  unfold import_name_type. cbn [Noname ExportAs ImportName Name SymbolName getExports]. rewrite Himp. fold (exported_symbol e).
  destruct (EC && export_is_code e) eqn:Hec.
  - apply andb_true_iff in Hec as [HEC Hcode]. pose proof (im_ec_code e He HEC Hcode) as Hor.
    unfold mangle_import. change (is_code (import_type (getExports e))) with (export_is_code e).
    change (is_EC (st_machine cfg)) with EC. rewrite Hcode, HEC. cbn [andb Noname getExports].
    destruct (noname e) eqn:En; [|destruct (String.eqb_spec (exportAs e) "") as [Ea|Ea]]; cbn [negb andb String.eqb mbind option_bind].
    + destruct (getArm64ECMangledFunctionName insertion_point (linked_name e)) as [m|] eqn:Em;
        (eexists _, _; split; [done|]; apply short_imports; import_tac).
    + pose proof (ec_external e He HEC Hcode Ea) as Hx.
      destruct (getArm64ECMangledFunctionName insertion_point (linked_name e)) as [m|] eqn:Em.
      * rewrite (mangled_not_demangled _ _ Em) in Hx. cbn in Hx. eexists _, _. split; [done|].
        apply short_imports; import_tac.
      * destruct (getArm64ECDemangledFunctionName (linked_name e)) as [d|] eqn:Ed; [|by destruct Hor]. cbn in Hx.
        eexists _, _. split; [done|]. apply short_imports; import_tac.
    + apply String.eqb_neq in Ea as Ea'. rewrite Ea'. 
      assert (Hx : export_name cfg mingw e = exportAs e) by (unfold export_name; by rewrite Ea').
      destruct (getArm64ECMangledFunctionName insertion_point (linked_name e)) as [m|] eqn:Em;
        (eexists _, _; split; [done|]; apply short_imports; import_tac).
  - unfold mangle_import. change (is_code (import_type (getExports e))) with (export_is_code e).
    change (is_EC (st_machine cfg)) with EC. rewrite (andb_comm (export_is_code e)), Hec.
    destruct (noname e) eqn:En; [|destruct (String.eqb_spec (exportAs e) "") as [Ea|Ea]]; cbn [negb String.eqb mbind option_bind].
    + eexists _, _. split; [done|]. apply short_imports; import_tac.
    + destruct (external_name e He En Ea Hec) as (Ht1 & Ht2 & Hx). eexists _, _. split; [done|].
      apply short_imports; try done; [by apply name_ok_more|]. rewrite En, <- Hx. unfold read_external.
      assert (Hr : read_name (st_machine cfg) (linked_name e) = linked_name e).
      { unfold read_name. change (is_EC (st_machine cfg)) with EC. destruct EC eqn:HEC; [|done].
        cbn [andb] in Hec. by rewrite (im_ec_data e He HEC Hec). }
      rewrite Hr. by destruct (getNameType _ _ _ _).
    + assert (Hx : export_name cfg mingw e = exportAs e) by (unfold export_name; by rewrite (proj2 (String.eqb_neq _ _) Ea)).
      eexists _, _. split; [done|]. apply short_imports; import_tac.
Qed.


End Library.

(** ** A library of an x86 DLL *)

Definition x86 : st_config :=
  {| st_machine := I386; hybridEC := false; wordsize := 4; stdcallFixup := false; autoImport := false;
     forceUnresolved := false; allowDuplicateWeak := false; warnLocallyDefinedImported := true |}.
Definition lib_export (n ext sym : string) (o : Z) (non priv dat : bool) : Export :=
  {| e_name := n; extName := ext; exportAs := ""; importName := ""; e_sym := None; ordinal := o; noname := non;
     data := dat; isPrivate := priv; constant := false; forwardTo := ""; source := ExportOption; symbolName := sym;
     exportName := "" |}.
Definition lib_exports : list Export :=
  [lib_export "_f" "" "" 0 false false false; lib_export "_g" "" "_g@8" 3 false false false;
   lib_export "_h" "_i" "" 0 false false true; lib_export "_j" "" "" 7 true false false;
   lib_export "_k" "" "" 0 false true false; lib_export "_l@4" "" "" 0 false false false].

Lemma lib_exports_ok : Forall (importable x86 false (fun _ => None)) lib_exports.
Proof.
  repeat (apply Forall_cons_2 || apply Forall_nil_2); split; try done; try (by repeat split; vm_compute);
    try (by split; discriminate); try (split; cbn; lia).
  all: first [by left; split|by right; left; split_and!; try done; discriminate|
              by right; right; split_and!; try done; try discriminate; intros _; split_and!].
Qed.


(** An undecorated name for a stdcall function: the DLL exports [b], its import
    library imports [_b]. *)
Lemma renamed_stdcall_lost :
  let e := lib_export "_a@4" "_b" "" 0 false false false in
  export_name x86 false e = "b" /\
  exists m, writeImportLibrary (fun _ => None) "d.dll" false I386 [getExports e] [] = Some [m] /\
    pi_externalName <$> read_member m = Some "_b".
Proof. split; [reflexivity|]. eexists. split; vm_compute; reflexivity. Qed.
