(* ===== verification/Utf8.v ===== *)
(** * Argument validation of the C ABI (src/llvm_ld.cpp, [valid_utf8])

    The library accepts length-delimited UTF-8 arguments.  This file models
    the validator and proves that it accepts exactly the encodings of sequences
    of non-zero Unicode scalar values. *)

From S2P Require Import Prelude.

(** ** Definitions *)

(** The number of continuation bytes a lead byte announces; 99 marks a byte
    that cannot start a sequence. *)
Definition utf8_extra (c : Z) : nat :=
  if (0xC2 <=? c) && (c <=? 0xDF) then 1
  else if (0xE0 <=? c) && (c <=? 0xEF) then 2
  else if (0xF0 <=? c) && (c <=? 0xF4) then 3
  else 99.

(** The second byte's range checks: overlong forms, surrogates, and code
    points above U+10FFFF. *)
Definition utf8_bad_second (c first : Z) : bool :=
  ((c =? 0xE0) && (first <? 0xA0)) || ((c =? 0xED) && (0xA0 <=? first)) ||
  ((c =? 0xF0) && (first <? 0x90)) || ((c =? 0xF4) && (0x90 <=? first)).

Definition is_cont (b : Z) : bool := (b &&& 0xC0) =? 0x80.

(** [valid_utf8], on the bytes from index [i] on; each turn of the loop
    consumes at least one byte, so the length is enough fuel. *)
Fixpoint valid_utf8_from (fuel : nat) (s : list Z) : bool :=
  match fuel, s with
  | _, [] => true
  | O, _ => false
  | S fuel, c :: s =>
      if c =? 0 then false
      else if c <? 0x80 then valid_utf8_from fuel s
      else
        let extra := utf8_extra c in
        if (extra =? 99)%nat || (length s <? extra)%nat then false
        else if utf8_bad_second c (nth 0 s 0) then false
        else if forallb is_cont (take extra s) then valid_utf8_from fuel (drop extra s)
        else false
  end.

Definition valid_utf8 (s : list Z) : bool := valid_utf8_from (length s) s.

(** ** Specification: RFC 3629 *)

(** A Unicode scalar value other than U+0000. *)
Definition scalar (cp : Z) : Prop :=
  0 < cp <= 0x10FFFF /\ ~ (0xD800 <= cp <= 0xDFFF).

Definition utf8_encode (cp : Z) : list Z :=
  if cp <? 0x80 then [cp]
  else if cp <? 0x800 then [0xC0 + cp / 64; 0x80 + cp mod 64]
  else if cp <? 0x10000 then
    [0xE0 + cp / 4096; 0x80 + (cp / 64) mod 64; 0x80 + cp mod 64]
  else
    [0xF0 + cp / 262144; 0x80 + (cp / 4096) mod 64; 0x80 + (cp / 64) mod 64;
     0x80 + cp mod 64].

Definition utf8_text (s : list Z) : Prop :=
  exists cps, Forall scalar cps /\ s = concat (map utf8_encode cps).

(** ** Continuation bytes *)

Lemma is_cont_spec b : byte_ok b -> is_cont b = true <-> 0x80 <= b < 0xC0.
Proof.
  intros [H0 H1].
  assert (Hall : forallb (fun n => eqb (is_cont (Z.of_nat n))
    ((0x80 <=? Z.of_nat n) && (Z.of_nat n <? 0xC0))) (seq 0 256) = true)
    by (vm_compute; reflexivity).
  rewrite forallb_forall in Hall. specialize (Hall (Z.to_nat b)).
  rewrite Z2Nat.id in Hall by done.
  specialize (Hall ltac:(apply in_seq; lia)). apply eqb_prop in Hall.
  rewrite Hall. rewrite andb_true_iff, Z.leb_le, Z.ltb_lt. lia.
Qed.

Lemma cont_code k : 0 <= k < 64 -> is_cont (0x80 + k) = true.
Proof. intros. apply is_cont_spec; unfold byte_ok; lia. Qed.

Ltac div_bounds :=
  repeat match goal with
  | |- context [?a mod 64] =>
      lazymatch goal with
      | _ : 0 <= a mod 64 < 64 |- _ => fail
      | _ => pose proof (Z.mod_pos_bound a 64 ltac:(lia))
      end
  end.

(** ** The validator accepts every encoding *)

Ltac bool_lia :=
  rewrite ?andb_true_iff, ?andb_false_iff, ?orb_true_iff, ?orb_false_iff,
    ?Z.leb_le, ?Z.ltb_lt, ?Z.eqb_eq, ?Z.leb_gt, ?Z.ltb_ge, ?Z.eqb_neq in *; lia.

(** Any fuel that covers the input gives the same answer. *)
Lemma valid_utf8_fuel n m s :
  (length s <= n)%nat -> (length s <= m)%nat ->
  valid_utf8_from n s = valid_utf8_from m s.
Proof.
  revert m s. induction n as [|n IH]; intros m s Hn Hm.
  { destruct s; [by destruct m|simpl in Hn; lia]. }
  destruct s as [|c s]; [by destruct m|]. destruct m as [|m]; [simpl in Hm; lia|].
  simpl in Hn, Hm |- *.
  rewrite (IH m s) by lia. rewrite (IH m (drop (utf8_extra c) s)); [done|..];
    rewrite length_drop; lia.
Qed.

Lemma valid_utf8_cons c s :
  valid_utf8 (c :: s) =
  if c =? 0 then false
  else if c <? 0x80 then valid_utf8 s
  else
    let extra := utf8_extra c in
    if (extra =? 99)%nat || (length s <? extra)%nat then false
    else if utf8_bad_second c (nth 0 s 0) then false
    else if forallb is_cont (take extra s) then valid_utf8 (drop extra s)
    else false.
Proof.
  unfold valid_utf8 at 1. cbn [length valid_utf8_from].
  rewrite (valid_utf8_fuel (length s) (length (drop (utf8_extra c) s)) (drop _ s));
    [done|rewrite length_drop; lia|done].
Qed.

Lemma utf8_extra_eq c n :
  (0xC2 <= c <= 0xDF /\ n = 1%nat) \/ (0xE0 <= c <= 0xEF /\ n = 2%nat) \/
  (0xF0 <= c <= 0xF4 /\ n = 3%nat) -> utf8_extra c = n.
Proof. unfold utf8_extra. intros H. repeat case_match; bool_lia. Qed.

Lemma valid_utf8_multi c bs s n :
  0x80 <= c -> utf8_extra c = n -> (n < 99)%nat -> length bs = n ->
  utf8_bad_second c (nth 0 (bs ++ s) 0) = false -> forallb is_cont bs = true ->
  valid_utf8 (c :: bs ++ s) = valid_utf8 s.
Proof.
  intros Hc He Hn Hl Hb Hf. rewrite valid_utf8_cons.
  replace (c =? 0) with false by bool_lia. replace (c <? 128) with false by bool_lia.
  cbv zeta. rewrite He, Hb, <- Hl, take_app_length, drop_app_length, Hf, length_app.
  replace (length bs =? 99)%nat with false by (symmetry; apply Nat.eqb_neq; lia).
  replace (length bs + length s <? length bs)%nat with false
    by (symmetry; apply Nat.ltb_ge; lia).
  done.
Qed.

Lemma utf8_bad_second_ok c f :
  (c = 0xE0 -> 0xA0 <= f) -> (c = 0xED -> f < 0xA0) ->
  (c = 0xF0 -> 0x90 <= f) -> (c = 0xF4 -> f < 0x90) -> utf8_bad_second c f = false.
Proof. unfold utf8_bad_second. intros. bool_lia. Qed.

Lemma utf8_bad_second_inv c f :
  utf8_bad_second c f = false ->
  (c = 0xE0 -> 0xA0 <= f) /\ (c = 0xED -> f < 0xA0) /\
  (c = 0xF0 -> 0x90 <= f) /\ (c = 0xF4 -> f < 0x90).
Proof. unfold utf8_bad_second. intros H. bool_lia. Qed.

(** An encoded scalar value is consumed whole. *)
Lemma valid_utf8_encode cp s : scalar cp -> valid_utf8 (utf8_encode cp ++ s) = valid_utf8 s.
Proof.
  intros [Hr Hs]. unfold utf8_encode.
  destruct (Z.ltb_spec cp 0x80).
  { simpl. rewrite valid_utf8_cons.
    replace (cp =? 0) with false by bool_lia. by replace (cp <? 128) with true by bool_lia. }
  destruct (Z.ltb_spec cp 0x800); [|destruct (Z.ltb_spec cp 0x10000)]; cbn [app].
  - apply (valid_utf8_multi _ [_] s 1); try done; try lia.
    + Z.div_mod_to_equations; lia.
    + apply utf8_extra_eq. Z.div_mod_to_equations; lia.
    + apply utf8_bad_second_ok; simpl; Z.div_mod_to_equations; lia.
    + simpl. by rewrite cont_code by (apply Z.mod_pos_bound; lia).
  - apply (valid_utf8_multi _ [_; _] s 2); try done; try lia.
    + Z.div_mod_to_equations; lia.
    + apply utf8_extra_eq. Z.div_mod_to_equations; lia.
    + apply utf8_bad_second_ok; simpl; Z.div_mod_to_equations; lia.
    + simpl. by rewrite !cont_code by (apply Z.mod_pos_bound; lia).
  - apply (valid_utf8_multi _ [_; _; _] s 3); try done; try lia.
    + Z.div_mod_to_equations; lia.
    + apply utf8_extra_eq. Z.div_mod_to_equations; lia.
    + apply utf8_bad_second_ok; simpl; Z.div_mod_to_equations; lia.
    + simpl. by rewrite !cont_code by (apply Z.mod_pos_bound; lia).
Qed.

(** ** What the validator accepts starts with an encoding *)

Lemma encode2 c c1 :
  0xC2 <= c <= 0xDF -> 0x80 <= c1 < 0xC0 ->
  exists cp, scalar cp /\ utf8_encode cp = [c; c1].
Proof.
  intros. exists ((c - 0xC0) * 64 + (c1 - 0x80)). split; [unfold scalar; lia|].
  unfold utf8_encode. repeat case_match; bool_lia || (repeat f_equal; Z.div_mod_to_equations; lia).
Qed.

Lemma encode3 c c1 c2 :
  0xE0 <= c <= 0xEF -> 0x80 <= c1 < 0xC0 -> 0x80 <= c2 < 0xC0 ->
  utf8_bad_second c c1 = false ->
  exists cp, scalar cp /\ utf8_encode cp = [c; c1; c2].
Proof.
  intros ? ? ? Hb. apply utf8_bad_second_inv in Hb.
  exists ((c - 0xE0) * 4096 + (c1 - 0x80) * 64 + (c2 - 0x80)). split; [unfold scalar; lia|].
  unfold utf8_encode. repeat case_match; bool_lia || (repeat f_equal; Z.div_mod_to_equations; lia).
Qed.

Lemma encode4 c c1 c2 c3 :
  0xF0 <= c <= 0xF4 -> 0x80 <= c1 < 0xC0 -> 0x80 <= c2 < 0xC0 -> 0x80 <= c3 < 0xC0 ->
  utf8_bad_second c c1 = false ->
  exists cp, scalar cp /\ utf8_encode cp = [c; c1; c2; c3].
Proof.
  intros ? ? ? ? Hb. apply utf8_bad_second_inv in Hb.
  exists ((c - 0xF0) * 262144 + (c1 - 0x80) * 4096 + (c2 - 0x80) * 64 + (c3 - 0x80)).
  split; [unfold scalar; lia|].
  unfold utf8_encode. repeat case_match; bool_lia || (repeat f_equal; Z.div_mod_to_equations; lia).
Qed.

Lemma utf8_extra_inv c :
  utf8_extra c <> 99%nat ->
  (0xC2 <= c <= 0xDF /\ utf8_extra c = 1%nat) \/
  (0xE0 <= c <= 0xEF /\ utf8_extra c = 2%nat) \/
  (0xF0 <= c <= 0xF4 /\ utf8_extra c = 3%nat).
Proof. unfold utf8_extra. intros H. repeat case_match; bool_lia. Qed.

Lemma valid_utf8_head c s :
  bytes_ok (c :: s) -> valid_utf8 (c :: s) = true ->
  exists cp s', scalar cp /\ c :: s = utf8_encode cp ++ s' /\ valid_utf8 s' = true.
Proof.
  intros Hb Hv. rewrite valid_utf8_cons in Hv.
  apply Forall_cons in Hb as [[Hc0 Hc1] Hb].
  destruct (Z.eqb_spec c 0); [done|].
  destruct (Z.ltb_spec c 0x80).
  { exists c, s. split; [unfold scalar; lia|]. split; [|done].
    unfold utf8_encode. by replace (c <? 128) with true by bool_lia. }
  cbv zeta in Hv.
  destruct (_ || _) eqn:E1 in Hv; [done|]. apply orb_false_iff in E1 as [E1 E2].
  apply Nat.eqb_neq in E1. apply Nat.ltb_ge in E2.
  destruct (utf8_bad_second _ _) eqn:E3 in Hv; [done|].
  destruct (forallb _ _) eqn:E4 in Hv; [|done].
  apply utf8_extra_inv in E1 as [[Hr Hn]|[[Hr Hn]|[Hr Hn]]]; rewrite Hn in *.
  - destruct s as [|c1 s]; [simpl in E2; lia|]. simpl in *.
    rewrite !Forall_cons in Hb. rewrite !andb_true_iff in E4.
    rewrite !is_cont_spec in E4 by tauto.
    destruct (encode2 c c1) as (cp & Hcp & He); [lia|tauto|].
    exists cp, s. by rewrite He.
  - destruct s as [|c1 [|c2 s]]; [simpl in E2; lia..|]. simpl in *.
    rewrite !Forall_cons in Hb. rewrite !andb_true_iff in E4.
    rewrite !is_cont_spec in E4 by tauto.
    destruct (encode3 c c1 c2) as (cp & Hcp & He); [lia|tauto|tauto|done|].
    exists cp, s. by rewrite He.
  - destruct s as [|c1 [|c2 [|c3 s]]]; [simpl in E2; lia..|]. simpl in *.
    rewrite !Forall_cons in Hb. rewrite !andb_true_iff in E4.
    rewrite !is_cont_spec in E4 by tauto.
    destruct (encode4 c c1 c2 c3) as (cp & Hcp & He); [lia|tauto|tauto|tauto|done|].
    exists cp, s. by rewrite He.
Qed.

Lemma utf8_encode_length cp : (0 < length (utf8_encode cp))%nat.
Proof. unfold utf8_encode. repeat case_match; simpl; lia. Qed.

Lemma valid_utf8_text n s :
  (length s <= n)%nat -> bytes_ok s -> valid_utf8 s = true -> utf8_text s.
Proof.
  revert s. induction n as [|n IH]; intros s Hn Hb Hv.
  { destruct s; [by exists []|simpl in Hn; lia]. }
  destruct s as [|c s]; [by exists []|].
  destruct (valid_utf8_head c s) as (cp & s' & Hcp & He & Hv'); [done..|].
  destruct (IH s') as (cps & Hcps & ->); [| |done|].
  - apply (f_equal length) in He. rewrite length_app in He.
    pose proof (utf8_encode_length cp). simpl in He, Hn. lia.
  - rewrite He in Hb. by apply Forall_app in Hb as [_ Hb].
  - exists (cp :: cps). split; [by constructor|]. by rewrite He.
Qed.

Lemma utf8_text_valid s : utf8_text s -> valid_utf8 s = true.
Proof.
  intros (cps & Hcps & ->). induction Hcps as [|cp cps Hcp _ IH]; [done|].
  simpl. by rewrite valid_utf8_encode.
Qed.

(** No byte of an encoded non-zero scalar value is NUL. *)
Lemma utf8_encode_nonzero cp : scalar cp -> Forall (fun b => 0 < b) (utf8_encode cp).
Proof.
  intros [Hr _]. unfold utf8_encode.
  repeat case_match; repeat constructor; bool_lia || (Z.div_mod_to_equations; bool_lia).
Qed.

Lemma utf8_text_nonzero s : utf8_text s -> Forall (fun b => 0 < b) s.
Proof.
  intros (cps & Hcps & ->). induction Hcps; simpl; [constructor|].
  apply Forall_app_2; auto using utf8_encode_nonzero.
Qed.

(** ** Properties *)

(** C4: [valid_utf8] accepts a byte string exactly when it is the RFC 3629
    encoding of a sequence of Unicode scalar values other than U+0000: no
    overlong forms, surrogates, values above U+10FFFF, truncated sequences or
    NUL bytes. *)
Theorem valid_utf8_correct s :
  bytes_ok s ->
  valid_utf8 s = true <->
  exists cps, Forall scalar cps /\ s = concat (map utf8_encode cps).
Proof.
  intros Hb. split; [|apply utf8_text_valid].
  intros Hv. by apply (valid_utf8_text (length s)).
Qed.

(** "a", e acute, the euro sign, U+1F600; and the overlong form of "/". *)
Lemma valid_utf8_correct_witness :
  (exists cps, Forall scalar cps /\
     [0x61; 0xC3; 0xA9; 0xE2; 0x82; 0xAC; 0xF0; 0x9F; 0x98; 0x80] =
     concat (map utf8_encode cps)) /\
  ~ (exists cps, Forall scalar cps /\ [0xC0; 0xAF] = concat (map utf8_encode cps)).
Proof.
  split.
  - apply valid_utf8_correct; [repeat constructor; lia|vm_compute; reflexivity].
  - intros H. apply valid_utf8_correct in H; [vm_compute in H; discriminate|].
    repeat constructor; lia.
Defined.
