(* ===== verification/Dispatch.v ===== *)
(** * Driver selection (lld/Common/DriverDispatcher.cpp)

    [lldMain] chooses a driver from [argv[0]], from [-flavor] and from the
    target of a GNU-style command line, runs it inside a crash-recovery
    context and reports whether the process may be used again. *)

From Stdlib Require Import Ascii.
From S2P Require Import Prelude.

#[local] Open Scope string_scope.

(** ** Data *)

Inductive Flavor := Invalid | Gnu | MinGW | WinLink | Darwin | Wasm.

#[export] Instance Flavor_eq_dec : EqDecision Flavor.
Proof. solve_decision. Defined.

(** What one run of a driver function does: it returns its success flag, the
    crash-recovery context catches it with a return code, or an exception
    leaves it. *)
Inductive Run := Finished (ok : bool) | Crashed (RetCode : Z) | Threw.

Abbreviation Driver := (list string -> Run).

Record DriverDef := { f : Flavor; d : Driver }.

Record Result := { retCode : Z; canRunAgain : bool }.

(** ** Flavors *)

Definition getFlavor (s : string) : Flavor :=
  let s := str_lower s in
  if decide (s ∈ ["ld"; "ld.lld"; "gnu"]) then Gnu
  else if decide (s ∈ ["wasm"; "ld-wasm"]) then Wasm
  else if String.eqb s "link" then WinLink
  else if decide (s ∈ ["ld64"; "ld64.lld"; "darwin"]) then Darwin
  else Invalid.

Definition isPETargetName (s : string) : bool :=
  bool_decide (s ∈ ["i386pe"; "i386pep"; "thumb2pe"; "arm64pe"; "arm64ecpe";
                    "arm64xpe"; "mipspe"]).

(** The scan for [-m]: the argument after the first one that has a successor. *)
Fixpoint scan_m (args : list string) : option bool :=
  match args with
  | a :: ((b :: _) as rest) =>
      if String.eqb a "-m" then Some (isPETargetName b) else scan_m rest
  | _ => None
  end.

Section Dispatch.
  (** [path::filename] depends on the host's path style, and response-file
      expansion reads files. *)
  Context (path_filename : string -> string).
  Context (expandResponseFiles : list string -> option (list string)).
  (** [LLD_DEFAULT_LD_LLD_IS_MINGW]. *)
  Context (ld_is_mingw : bool).

(** [None] is the error exit of the response-file expansion. *)
Definition isPETarget (args : list string) : option bool :=
  match scan_m args with
  | Some b => Some b
  | None =>
      match expandResponseFiles args with
      | None => None
      | Some expandedArgs =>
          match scan_m expandedArgs with
          | Some b => Some b
          | None => Some ld_is_mingw
          end
      end
  end.

Definition parseProgname (progname : string) : Flavor :=
  if String.eqb progname "ld" then Gnu
  else
    fold_right (fun s rest =>
      match getFlavor s with Invalid => rest | f => f end)
      Invalid (str_split "-"%char progname).

(** The flavor and the argument vector that is left ([argsV] is non-empty:
    [argsV[0]] is read on every path but the two [-flavor] exits). *)
Definition parseFlavorWithoutMinGW (arg0 : string) (rest : list string) : Flavor * list string :=
  match rest with
  | "-flavor" :: [] => (Invalid, arg0 :: rest)
  | "-flavor" :: fl :: rest' =>
      match getFlavor fl with
      | Invalid => (Invalid, arg0 :: rest)
      | f => (f, arg0 :: rest')
      end
  | _ =>
      let name := drop_suffix_insensitive ".exe" (path_filename arg0) in
      (parseProgname name, arg0 :: rest)
  end.

Definition parseFlavor (arg0 : string) (rest : list string) : Flavor * list string :=
  match parseFlavorWithoutMinGW arg0 rest with
  | (Gnu, argsV) =>
      match isPETarget argsV with
      | None => (Invalid, argsV)
      | Some true => (MinGW, argsV)
      | Some false => (Gnu, argsV)
      end
  | r => r
  end.

Definition find_driver (fl : Flavor) (drivers : list DriverDef) : Driver :=
  match List.find (fun dd => bool_decide (f dd = fl)) drivers with
  | Some dd => d dd
  | None => fun _ => Finished false
  end.

(** [whichDriver], with the arguments the driver will be called on. *)
Definition whichDriver (arg0 : string) (rest : list string) (drivers : list DriverDef)
  : Driver * list string :=
  let '(fl, argsV) := parseFlavor arg0 rest in (find_driver fl drivers, argsV).

(** [lldMain] with the library's [exitEarly = false]; the run is [None] when
    the argument vector is empty, where [argsV[0]] is out of range.
    [destroyed] tells whether the final clean-up survived. *)
Inductive Main := Returned (r : Result) | Propagated.

Definition lldMain (args : list string) (drivers : list DriverDef) (destroyed : bool)
  : option Main :=
  match args with
  | [] => None
  | arg0 :: rest =>
      let '(drv, argsV) := whichDriver arg0 rest drivers in
      Some match drv argsV with
      | Threw => Propagated
      | Crashed rc => Returned {| retCode := rc; canRunAgain := false |}
      | Finished ok =>
          let r := if ok then 0 else 1 in
          Returned {| retCode := r; canRunAgain := destroyed |}
      end
  end.

End Dispatch.
