(* ===== verification/Abi.v ===== *)
(** * The C ABI (src/llvm_ld.cpp, include/llvm_ld.h)

    The library serializes calls with one atomic flag and refuses to run again
    after LLD reports unsafe state.  The file models each entry point as a
    function of the two flags, then as a step relation of threads that
    interleave at every atomic operation. *)

From S2P Require Import Prelude Utf8 Dispatch.

(** ** Data (include/llvm_ld.h) *)

Definition LLVM_LD_ABI_VERSION : Z := 1.
Definition LLVM_LD_DRIVER_WINLINK : Z := 1.
Definition LLVM_LD_DRIVER_MINGW : Z := 2.
Definition LLVM_LD_PROFILER_SAMPLED : Z := 1.
Definition LLVM_LD_PROFILER_DHAT : Z := 2.
Definition LLVM_LD_OK : Z := 0.
Definition LLVM_LD_E_INVALID : Z := -1.
Definition LLVM_LD_E_BUSY : Z := -2.
Definition LLVM_LD_E_POISONED : Z := -3.
Definition LLVM_LD_E_EXCEPTION : Z := -4.
Definition LLVM_LD_E_UNSUPPORTED : Z := -5.

(** [sizeof] of the three structures on a 64-bit target. *)
Definition sizeof_request : Z := 56.
Definition sizeof_result : Z := 12.
Definition sizeof_allocator_info : Z := 32.

(** A pointer argument is [None] when null; a buffer is its bytes by index. *)
Record llvm_ld_request := {
  req_struct_size : Z;
  req_abi_version : Z;
  req_driver : Z;
  req_argc : nat;
  req_argv : option (nat -> option (nat -> Z));
  req_argv_lengths : option (nat -> nat)
}.

Record llvm_ld_result := {
  out_struct_size : Z;
  out_return_code : Z;
  out_can_run_again : Z
}.

Record llvm_ld_allocator_info := {
  info_struct_size : Z;
  info_mimalloc_version : Z;
  info_uses_mimalloc : Z;
  info_sampled_profiler_compiled : Z;
  info_sampled_profiler_active : Z;
  info_dhat_active : Z;
  info_crt_redirected : Z;
  info_state_cookie : Z
}.

(** The two process-wide flags. *)
Record flags := { invoking : bool; poisoned : bool }.

Definition set_invoking (b : bool) (st : flags) : flags :=
  {| invoking := b; poisoned := poisoned st |}.
Definition set_poisoned (st : flags) : flags :=
  {| invoking := invoking st; poisoned := true |}.

(** ** Argument decoding *)

Definition arg_bytes (p : nat -> Z) (n : nat) : list Z := map p (seq 0 n).

(** One turn of the argument loop: [None] is the return of [E_INVALID]. *)
Definition decode_arg (argv : nat -> option (nat -> Z)) (lengths : nat -> nat) (i : nat)
  : option string :=
  match argv i with
  | None => if (lengths i =? 0)%nat then Some EmptyString else None
  | Some p =>
      if valid_utf8 (arg_bytes p (lengths i))
      then Some (string_of_bytes (arg_bytes p (lengths i))) else None
  end.

Definition decode_args (req : llvm_ld_request) : option (list string) :=
  match req_argv req, req_argv_lengths req with
  | Some argv, Some lengths => mapM (decode_arg argv lengths) (seq 0 (req_argc req))
  | _, _ => Some []
  end.

(** The checks before any flag is touched. *)
Definition header_ok (req : option llvm_ld_request) (out : option llvm_ld_result) : bool :=
  match req, out with
  | Some req, Some out =>
      negb ((req_struct_size req <? sizeof_request) ||
            (out_struct_size out <? sizeof_result) ||
            negb (req_abi_version req =? LLVM_LD_ABI_VERSION) ||
            (negb (req_argc req =? 0)%nat &&
             (bool_decide (req_argv req = None) || bool_decide (req_argv_lengths req = None))))
  | _, _ => false
  end.

(** ** The entry points as functions of the flags *)

Section Invoke.
  (** The two linkers, and what the dispatcher needs of its environment. *)
  Context (coff_link mingw_link : Driver).
  Context (path_filename : string -> string).
  Context (expandResponseFiles : list string -> option (list string)).
  Context (ld_is_mingw destroyed : bool).

Definition driver_of (n : Z) : option DriverDef :=
  if n =? LLVM_LD_DRIVER_WINLINK then Some {| f := WinLink; d := coff_link |}
  else if n =? LLVM_LD_DRIVER_MINGW then Some {| f := MinGW; d := mingw_link |}
  else None.

(** [lld::lldMain(args, ..., {driver})]: the driver sees C strings. *)
Definition run_lld (args : list string) (driver : DriverDef) : option Main :=
  lldMain path_filename expandResponseFiles ld_is_mingw (map c_string args) [driver] destroyed.

(** What the call stores and returns after [lldMain]. *)
Definition finish (st : flags) (out : llvm_ld_result) (m : Main)
  : flags * Z * llvm_ld_result :=
  match m with
  | Returned result =>
      (if canRunAgain result then st else set_poisoned st, LLVM_LD_OK,
       {| out_struct_size := out_struct_size out;
          out_return_code := retCode result;
          out_can_run_again := if canRunAgain result then 1 else 0 |})
  | Propagated => (set_poisoned st, LLVM_LD_E_EXCEPTION, out)
  end.

(** The part of [llvm_ld_invoke] that runs with [invoking] set, up to the
    destructor of [unlock]. *)
Definition invoke_body (st : flags) (req : llvm_ld_request) (out : llvm_ld_result)
  : option (flags * Z * llvm_ld_result) :=
  match decode_args req with
  | None => Some (st, LLVM_LD_E_INVALID, out)
  | Some args =>
      match driver_of (req_driver req) with
      | None => Some (st, LLVM_LD_E_INVALID, out)
      | Some driver => finish st out <$> run_lld args driver
      end
  end.

(** [llvm_ld_invoke]: [None] where the C++ has undefined behaviour. *)
Definition llvm_ld_invoke (st : flags) (req : option llvm_ld_request)
    (out : option llvm_ld_result) : option (flags * Z * option llvm_ld_result) :=
  match req, out with
  | Some r, Some o =>
      if negb (header_ok req out) then Some (st, LLVM_LD_E_INVALID, out)
      else if poisoned st then Some (st, LLVM_LD_E_POISONED, out)
      else if invoking st then Some (st, LLVM_LD_E_BUSY, out)
      else
        '(st', code, o') ← invoke_body (set_invoking true st) r o;
        Some (set_invoking false st', code, Some o')
  | _, _ => Some (st, LLVM_LD_E_INVALID, out)
  end.

End Invoke.

(** The profiler entry points, for a build with or without mimalloc
    ([LLVM_LD_USE_MIMALLOC]) and its sampled profiler ([MI_PPROF]);
    [dhat_start] and [prof_start] are the allocator's answers. *)
Definition profiler_start_body (MI_PPROF dhat_start prof_start : bool) (profiler : Z) : Z :=
  if profiler =? LLVM_LD_PROFILER_DHAT then
    if dhat_start then LLVM_LD_OK else LLVM_LD_E_EXCEPTION
  else if profiler =? LLVM_LD_PROFILER_SAMPLED then
    if MI_PPROF then if prof_start then LLVM_LD_OK else LLVM_LD_E_EXCEPTION
    else LLVM_LD_E_UNSUPPORTED
  else LLVM_LD_E_INVALID.

Definition llvm_ld_profiler_start (use_mimalloc MI_PPROF dhat_start prof_start : bool)
    (st : flags) (profiler : Z) : flags * Z :=
  if negb use_mimalloc then (st, LLVM_LD_E_UNSUPPORTED)
  else if invoking st then (st, LLVM_LD_E_BUSY)
  else
    let st := set_invoking true st in
    (set_invoking false st, profiler_start_body MI_PPROF dhat_start prof_start profiler).

Definition profiler_stop_body (MI_PPROF : bool) (profiler : Z) : Z :=
  if profiler =? LLVM_LD_PROFILER_DHAT then LLVM_LD_OK
  else if profiler =? LLVM_LD_PROFILER_SAMPLED then
    if MI_PPROF then LLVM_LD_OK else LLVM_LD_E_UNSUPPORTED
  else LLVM_LD_E_INVALID.

Definition llvm_ld_profiler_stop (use_mimalloc MI_PPROF : bool) (st : flags) (profiler : Z)
  : flags * Z :=
  if negb use_mimalloc then (st, LLVM_LD_E_UNSUPPORTED)
  else if invoking st then (st, LLVM_LD_E_BUSY)
  else
    let st := set_invoking true st in
    (set_invoking false st, profiler_stop_body MI_PPROF profiler).

(** What the allocator reports about itself; [None] is a build without it. *)
Record mimalloc_state := {
  mi_version : Z; MI_PPROF : bool; mi_prof_is_enabled : bool;
  mi_dhat_is_enabled : bool; mi_cookie : Z; mi_malloc_redirected : bool
}.

Definition llvm_ld_allocator_get_info (mi : option mimalloc_state)
    (info : option llvm_ld_allocator_info) : Z * option llvm_ld_allocator_info :=
  match info with
  | None => (LLVM_LD_E_INVALID, None)
  | Some i =>
      if info_struct_size i <? sizeof_allocator_info then (LLVM_LD_E_INVALID, Some i)
      else
        let z (b : bool) := if b then 1 else 0 in
        (LLVM_LD_OK, Some match mi with
         | None =>
             {| info_struct_size := info_struct_size i; info_mimalloc_version := 0;
                info_uses_mimalloc := 0; info_sampled_profiler_compiled := 0;
                info_sampled_profiler_active := 0; info_dhat_active := 0;
                info_crt_redirected := 0; info_state_cookie := 0 |}
         | Some m =>
             {| info_struct_size := info_struct_size i;
                info_mimalloc_version := u32 (mi_version m); info_uses_mimalloc := 1;
                info_sampled_profiler_compiled := z (MI_PPROF m);
                info_sampled_profiler_active := z (mi_prof_is_enabled m);
                info_dhat_active := z (mi_dhat_is_enabled m);
                info_crt_redirected := z (mi_malloc_redirected m);
                info_state_cookie := mi_cookie m |}
         end)
  end.

(** ** Threads *)

(** Where a thread is inside an entry point: one constructor per point
    between two atomic operations. *)
Inductive pc :=
  | PcEntry (req : option llvm_ld_request) (out : option llvm_ld_result)
  | PcLoad (r : llvm_ld_request) (o : llvm_ld_result)
  | PcTas (r : llvm_ld_request) (o : llvm_ld_result)
  | PcBody (r : llvm_ld_request) (o : llvm_ld_result)
  | PcDriver (o : llvm_ld_result) (args : list string) (driver : DriverDef)
  | PcProfiler (profiler : Z)
  | PcProfilerBody (profiler : Z)
  | PcUnlock (code : Z) (out : option llvm_ld_result)
  | PcDone (code : Z) (out : option llvm_ld_result).

(** The thread owns the [Unlock] guard. *)
Definition holds (p : pc) : bool :=
  match p with
  | PcBody _ _ | PcDriver _ _ _ | PcProfilerBody _ | PcUnlock _ _ => true
  | _ => false
  end.

Section Threads.
  (** [lld args driver m]: a run of [lldMain] may end in [m]. *)
  Context (coff_link mingw_link : Driver).
  Context (lld : list string -> DriverDef -> Main -> Prop).

Inductive tstep : flags * pc -> flags * pc -> Prop :=
  | step_reject st req out :
      header_ok req out = false ->
      tstep (st, PcEntry req out) (st, PcDone LLVM_LD_E_INVALID out)
  | step_accept st r o :
      header_ok (Some r) (Some o) = true ->
      tstep (st, PcEntry (Some r) (Some o)) (st, PcLoad r o)
  | step_poisoned st r o :
      poisoned st = true ->
      tstep (st, PcLoad r o) (st, PcDone LLVM_LD_E_POISONED (Some o))
  | step_clean st r o :
      poisoned st = false -> tstep (st, PcLoad r o) (st, PcTas r o)
  | step_busy st r o :
      invoking st = true ->
      tstep (st, PcTas r o) (st, PcDone LLVM_LD_E_BUSY (Some o))
  | step_lock st r o :
      invoking st = false -> tstep (st, PcTas r o) (set_invoking true st, PcBody r o)
  | step_bad_args st r o :
      decode_args r = None ->
      tstep (st, PcBody r o) (st, PcUnlock LLVM_LD_E_INVALID (Some o))
  | step_bad_driver st r o args :
      decode_args r = Some args -> driver_of coff_link mingw_link (req_driver r) = None ->
      tstep (st, PcBody r o) (st, PcUnlock LLVM_LD_E_INVALID (Some o))
  | step_enter st r o args driver :
      decode_args r = Some args ->
      driver_of coff_link mingw_link (req_driver r) = Some driver ->
      tstep (st, PcBody r o) (st, PcDriver o args driver)
  | step_return st st' o o' args driver m code :
      lld args driver m -> finish st o m = (st', code, o') ->
      tstep (st, PcDriver o args driver) (st', PcUnlock code (Some o'))
  | step_unlock st code out :
      tstep (st, PcUnlock code out) (set_invoking false st, PcDone code out)
  | step_profiler_busy st profiler :
      invoking st = true ->
      tstep (st, PcProfiler profiler) (st, PcDone LLVM_LD_E_BUSY None)
  | step_profiler_lock st profiler :
      invoking st = false ->
      tstep (st, PcProfiler profiler) (set_invoking true st, PcProfilerBody profiler)
  | step_profiler_body st profiler code :
      (exists MI_PPROF dhat prof,
        code = profiler_start_body MI_PPROF dhat prof profiler \/
        code = profiler_stop_body MI_PPROF profiler) ->
      tstep (st, PcProfilerBody profiler) (st, PcUnlock code None).

(** One thread of the process moves. *)
Inductive sstep : flags * list pc -> flags * list pc -> Prop :=
  | sstep_thread st ts i p st' p' :
      ts !! i = Some p -> tstep (st, p) (st', p') ->
      sstep (st, ts) (st', <[i := p']> ts).

Definition holders (ts : list pc) : nat := length (List.filter holds ts).

(** The lock invariant: the flag counts the threads that own the guard. *)
Definition lock_inv (s : flags * list pc) : Prop :=
  holders s.2 = Nat.b2n (invoking s.1).

Lemma holders_insert ts i p p' :
  ts !! i = Some p ->
  (holders (<[i := p']> ts) + Nat.b2n (holds p) = holders ts + Nat.b2n (holds p'))%nat.
Proof.
  unfold holders. revert i. induction ts as [|q ts IH]; intros [|i] Hi; simplify_eq/=.
  - destruct (holds p), (holds p'); simpl; lia.
  - specialize (IH i Hi). destruct (holds q); simpl; lia.
Qed.

Lemma holders_pos ts i p : ts !! i = Some p -> holds p = true -> (0 < holders ts)%nat.
Proof.
  unfold holders. revert i. induction ts as [|q ts IH]; intros [|i] Hi Hp; simplify_eq/=.
  - rewrite Hp. simpl. lia.
  - specialize (IH i Hi Hp). destruct (holds q); simpl; lia.
Qed.

(** What one step does to the flag: it changes hands with the guard. *)
Lemma tstep_lock st p st' p' :
  tstep (st, p) (st', p') ->
  (holds p = holds p' /\ invoking st' = invoking st) \/
  (holds p = false /\ holds p' = true /\ invoking st = false /\ invoking st' = true) \/
  (holds p = true /\ holds p' = false /\ invoking st' = false).
Proof.
  intros H. inversion H; subst; simpl; auto 6.
  match goal with H : finish _ _ ?m = _ |- _ => destruct m; simpl in H; simplify_eq end;
    [case_match|]; auto.
Qed.

Lemma sstep_lock_inv s s' : sstep s s' -> lock_inv s -> lock_inv s'.
Proof.
  intros [st ts i p st' p' Hi Ht] Hinv. unfold lock_inv in *; simpl in *.
  pose proof (holders_insert ts i p p' Hi) as Hc.
  destruct (tstep_lock _ _ _ _ Ht) as [(Hh & Hf)|[(Hh & Hh' & Hf & Hf')|(Hh & Hh' & Hf)]].
  - rewrite Hf, Hh in *. lia.
  - rewrite Hh, Hh', Hf, Hf' in *. simpl in *. lia.
  - pose proof (holders_pos ts i p Hi Hh). rewrite Hh, Hh', Hf in *.
    destruct (invoking st); simpl in *; lia.
Qed.

Lemma rtc_lock_inv s s' : rtc sstep s s' -> lock_inv s -> lock_inv s'.
Proof. induction 1; eauto using sstep_lock_inv. Qed.

(** Two threads that own the guard count twice. *)
Lemma holders_two ts i j p q :
  i <> j -> ts !! i = Some p -> ts !! j = Some q -> holds p = true -> holds q = true ->
  (2 <= holders ts)%nat.
Proof.
  unfold holders. revert i j. induction ts as [|r ts IH]; intros [|i] [|j] Hij Hi Hj Hp Hq;
    simplify_eq/=; try done.
  - rewrite Hp. pose proof (holders_pos ts j q Hj Hq). unfold holders in *. simpl. lia.
  - rewrite Hq. pose proof (holders_pos ts i p Hi Hp). unfold holders in *. simpl. lia.
  - assert (i <> j) by congruence. specialize (IH i j ltac:(done) Hi Hj Hp Hq).
    destruct (holds r); simpl; lia.
Qed.

(** The poison flag is never cleared. *)
Lemma tstep_poisoned st p st' p' :
  tstep (st, p) (st', p') -> poisoned st = true -> poisoned st' = true.
Proof.
  intros H Hp. inversion H; subst; simpl; auto.
  match goal with H : finish _ _ ?m = _ |- _ => destruct m; simpl in H; simplify_eq end;
    [case_match|]; auto.
Qed.

(** A call that has not passed the poison check, or that was refused. *)
Definition refusal (req : option llvm_ld_request) (out : option llvm_ld_result) : Z :=
  if header_ok req out then LLVM_LD_E_POISONED else LLVM_LD_E_INVALID.

Inductive before_check (req : option llvm_ld_request) (out : option llvm_ld_result) : pc -> Prop :=
  | bc_entry : before_check req out (PcEntry req out)
  | bc_load r o : req = Some r -> out = Some o -> header_ok req out = true -> before_check req out (PcLoad r o)
  | bc_refused : before_check req out (PcDone (refusal req out) out).

Lemma tstep_before_check req out st p st' p' :
  tstep (st, p) (st', p') -> poisoned st = true -> before_check req out p -> before_check req out p'.
Proof.
  intros H Hp Hb. destruct Hb as [|r o -> -> Hok|]; inversion H; subst; try congruence.
  - match goal with E : header_ok _ _ = false |- before_check ?r ?o _ => pose proof (bc_refused r o) as Hr end.
    unfold refusal in Hr. by match goal with E : header_ok _ _ = false |- _ => rewrite E in Hr end.
  - by apply bc_load.
  - pose proof (bc_refused (Some r) (Some o)) as Hr. unfold refusal in Hr. by rewrite Hok in Hr.
Qed.

Lemma rtc_before_check req out s s' i p :
  rtc sstep s s' -> poisoned s.1 = true -> s.2 !! i = Some p -> before_check req out p ->
  poisoned s'.1 = true /\ exists p', s'.2 !! i = Some p' /\ before_check req out p'.
Proof.
  intros H. revert p. induction H as [s|s s1 s' Hs _ IH]; intros p Hp Hi Hb; [eauto|].
  destruct Hs as [st ts j q st' q' Hj Ht]. simpl in *.
  pose proof (tstep_poisoned _ _ _ _ Ht Hp) as Hp'.
  destruct (decide (i = j)) as [->|Hne].
  - rewrite Hj in Hi. injection Hi as ->. apply (IH q'); [done| |].
    + apply list_lookup_insert_eq. by eapply lookup_lt_Some.
    + eauto using tstep_before_check.
  - apply (IH p); [done| |done]. by rewrite list_lookup_insert_ne.
Qed.

End Threads.

(** ** A call that runs alone *)

Section Alone.
  Context (coff_link mingw_link : Driver).
  Context (path_filename : string -> string).
  Context (expandResponseFiles : list string -> option (list string)).
  Context (ld_is_mingw destroyed : bool).

  Abbreviation run := (run_lld path_filename expandResponseFiles ld_is_mingw destroyed).
  Abbreviation alone := (tstep coff_link mingw_link (fun args drv m => run args drv = Some m)).
  Abbreviation invoke := (llvm_ld_invoke coff_link mingw_link path_filename
    expandResponseFiles ld_is_mingw destroyed).
  Abbreviation body := (invoke_body coff_link mingw_link path_filename
    expandResponseFiles ld_is_mingw destroyed).

Definition release (x : flags * Z * llvm_ld_result) : flags * Z * option llvm_ld_result :=
  let '(st, code, o) := x in (set_invoking false st, code, Some o).

(** What a thread at a given point returns when nothing else moves. *)
Definition outcome (s : flags * pc) : option (flags * Z * option llvm_ld_result) :=
  let '(st, p) := s in
  match p with
  | PcEntry req out => invoke st req out
  | PcLoad r o =>
      if poisoned st then Some (st, LLVM_LD_E_POISONED, Some o)
      else if invoking st then Some (st, LLVM_LD_E_BUSY, Some o)
      else release <$> body (set_invoking true st) r o
  | PcTas r o =>
      if invoking st then Some (st, LLVM_LD_E_BUSY, Some o)
      else release <$> body (set_invoking true st) r o
  | PcBody r o => release <$> body st r o
  | PcDriver o args driver => release ∘ finish st o <$> run args driver
  | PcUnlock code out => Some (set_invoking false st, code, out)
  | PcDone code out => Some (st, code, out)
  | PcProfiler _ | PcProfilerBody _ => None
  end.

Definition in_invoke (p : pc) : bool :=
  match p with PcProfiler _ | PcProfilerBody _ => false | _ => true end.

Lemma invoke_header_ok st r o :
  header_ok (Some r) (Some o) = true ->
  invoke st (Some r) (Some o) = outcome (st, PcLoad r o).
Proof.
  intros H. unfold llvm_ld_invoke. rewrite H. simpl.
  destruct (poisoned st), (invoking st); try done.
  destruct (body _ r o) as [[[st' code] o']|]; done.
Qed.

Lemma invoke_header_bad st req out :
  header_ok req out = false -> invoke st req out = Some (st, LLVM_LD_E_INVALID, out).
Proof.
  intros H. unfold llvm_ld_invoke. destruct req as [r|], out as [o|]; try done.
  by rewrite H.
Qed.

Lemma tstep_outcome s s' :
  alone s s' -> in_invoke s.2 = true -> outcome s = outcome s' /\ in_invoke s'.2 = true.
Proof.
  intros H Hin.
  destruct H as [st req out Hh|st r o Hh|st r o Hp|st r o Hp|st r o Hv|st r o Hv
    |st r o Hd|st r o args Hd Hdr|st r o args driver Hd Hdr
    |st st' o o' args driver m code Hl Hf|st code out|st n Hv|st n Hv|st n code Hc];
    simpl in *; try done.
  - by rewrite invoke_header_bad.
  - split; [by apply invoke_header_ok|done].
  - by rewrite Hp.
  - by rewrite Hp.
  - by rewrite Hv.
  - by rewrite Hv.
  - unfold invoke_body. by rewrite Hd.
  - unfold invoke_body. by rewrite Hd, Hdr.
  - unfold invoke_body. rewrite Hd, Hdr. by rewrite <- option_fmap_compose.
  - rewrite Hl. simpl. by rewrite Hf.
Qed.

(** A thread that can return makes its next step. *)
Lemma tstep_progress st p x :
  in_invoke p = true -> outcome (st, p) = Some x ->
  (exists code out, p = PcDone code out) \/ exists s', alone (st, p) s'.
Proof.
  intros Hin Hx. destruct p as [req out|r o|r o|r o|o args driver| | |code out|code out];
    try done; [right..|].
  - destruct (header_ok req out) eqn:Hh; [|eauto using step_reject].
    destruct req as [r|], out as [o|]; try done. eauto using step_accept.
  - destruct (poisoned st) eqn:Hp; eauto using step_poisoned, step_clean.
  - destruct (invoking st) eqn:Hv; eauto using step_busy, step_lock.
  - destruct (decode_args r) as [args|] eqn:Hd; [|eauto using step_bad_args].
    destruct (driver_of coff_link mingw_link (req_driver r)) as [driver|] eqn:Hr;
      eauto using step_enter, step_bad_driver.
  - simpl in Hx. apply fmap_Some in Hx as (m & Hm & ->).
    destruct (finish st o m) as [[st' code] o'] eqn:Hf. eauto using step_return.
  - eauto using step_unlock.
  - eauto.
Qed.

(** Points left before the call returns. *)
Definition distance (p : pc) : nat :=
  match p with
  | PcEntry _ _ => 6 | PcLoad _ _ => 5 | PcTas _ _ => 4 | PcBody _ _ => 3
  | PcDriver _ _ _ => 2 | PcProfiler _ => 3 | PcProfilerBody _ => 2
  | PcUnlock _ _ => 1 | PcDone _ _ => 0
  end.

Lemma tstep_distance s s' : alone s s' -> (distance s'.2 < distance s.2)%nat.
Proof. destruct 1; simpl; lia. Qed.

Lemma alone_complete n st p st' code out :
  (distance p <= n)%nat -> in_invoke p = true ->
  outcome (st, p) = Some (st', code, out) -> rtc alone (st, p) (st', PcDone code out).
Proof.
  revert st p. induction n as [|n IH]; intros st p Hn Hin Hx.
  - destruct p; simpl in *; try lia. injection Hx as <- <- <-. done.
  - destruct (tstep_progress st p _ Hin Hx) as [(c & o & ->)|([st1 p1] & Hs)].
    { simpl in Hx. injection Hx as <- <- <-. done. }
    pose proof (tstep_distance _ _ Hs) as Hd. simpl in Hd.
    apply tstep_outcome in Hs as Ho; [|done]. destruct Ho as [Ho Hin'].
    eapply rtc_l; [exact Hs|]. apply IH; [lia|done|congruence].
Qed.

Lemma alone_sound s s' :
  rtc alone s s' -> in_invoke s.2 = true -> outcome s = outcome s'.
Proof.
  induction 1 as [|s s1 s' Hs _ IH]; intros Hin; [done|].
  apply tstep_outcome in Hs as [-> Hin']; auto.
Qed.

End Alone.

(** ** Arguments reach the driver whole *)

Lemma ascii_of_byte_nonzero b :
  0 < b < 256 -> Ascii.eqb (Ascii.ascii_of_nat (Z.to_nat b)) Ascii.zero = false.
Proof.
  intros Hb. apply Ascii.eqb_neq. intros Heq.
  apply (f_equal Ascii.nat_of_ascii) in Heq.
  rewrite Ascii.nat_ascii_embedding in Heq by lia.
  change (Ascii.nat_of_ascii Ascii.zero) with 0%nat in Heq. lia.
Qed.

Lemma c_string_of_bytes bs :
  bytes_ok bs -> Forall (fun b => 0 < b) bs ->
  c_string (string_of_bytes bs) = string_of_bytes bs.
Proof.
  intros Hb Hp. induction Hp as [|b bs Hb0 _ IH]; [done|].
  apply Forall_cons in Hb as [[? ?] Hb]. simpl.
  rewrite ascii_of_byte_nonzero by lia. by rewrite IH.
Qed.

Definition request_bytes_ok (r : llvm_ld_request) : Prop :=
  forall argv i p j, req_argv r = Some argv -> argv i = Some p -> byte_ok (p j).

Lemma decode_arg_c_string r argv lengths i s :
  request_bytes_ok r -> req_argv r = Some argv ->
  decode_arg argv lengths i = Some s -> c_string s = s.
Proof.
  intros Hr Ha Hd. unfold decode_arg in Hd. destruct (argv i) as [p|] eqn:Hp.
  - destruct (valid_utf8 _) eqn:Hv; [|done]. injection Hd as <-.
    assert (Hb : bytes_ok (arg_bytes p (lengths i))).
    { unfold arg_bytes. apply Forall_map, Forall_forall. intros j _. by eapply Hr. }
    apply c_string_of_bytes; [done|]. apply utf8_text_nonzero.
    by apply (valid_utf8_text (length (arg_bytes p (lengths i)))).
  - by destruct (lengths i =? 0)%nat; simplify_eq.
Qed.

(** ** Properties *)

(** C8: whatever the interleaving of calls to the three entry points, at most
    one thread is past the [test_and_set] of [invoking] and has not yet
    released it; in particular LLD never runs in two threads at once. *)
Theorem invoke_mutual_exclusion coff mingw lld poison ts st ts' i j p q :
  Forall (fun p => holds p = false) ts ->
  rtc (sstep coff mingw lld) ({| invoking := false; poisoned := poison |}, ts) (st, ts') ->
  ts' !! i = Some p -> ts' !! j = Some q -> holds p = true -> holds q = true -> i = j.
Proof.
  intros Hts Hs Hi Hj Hp Hq. destruct (decide (i = j)) as [|Hne]; [done|].
  apply rtc_lock_inv in Hs.
  - unfold lock_inv in Hs. simpl in Hs.
    pose proof (holders_two ts' i j p q Hne Hi Hj Hp Hq). destruct (invoking st); simpl in *; lia.
  - unfold lock_inv, holders. simpl. clear -Hts.
    induction Hts as [|x l Hx _ IH]; simpl; [done|]. by rewrite Hx.
Qed.

(** A call that no other thread interferes with takes, through its atomic
    steps, exactly the result and flags that [llvm_ld_invoke] computes, and it
    returns whenever that result is defined. *)
Theorem invoke_alone_refines coff mingw filename expand is_mingw destroyed st req out st' code out' :
  rtc (tstep coff mingw
         (fun args drv m => run_lld filename expand is_mingw destroyed args drv = Some m))
      (st, PcEntry req out) (st', PcDone code out') <->
  llvm_ld_invoke coff mingw filename expand is_mingw destroyed st req out = Some (st', code, out').
Proof.
  split; intros H.
  - apply alone_sound in H; [|done]. simpl in H. by rewrite H.
  - by apply (alone_complete _ _ _ _ _ _ 6).
Qed.

(** C33: once LLD has reported unsafe state, no call that starts afterwards gets
    past the poison check, in any interleaving: the flag stays set, the call never
    takes the lock or enters LLD, and when it returns it was refused, with
    [E_POISONED] when its structures are well formed and [E_INVALID] otherwise,
    and its result structure is untouched. *)
Theorem poison_is_permanent coff mingw lld st ts s i req out :
  poisoned st = true -> ts !! i = Some (PcEntry req out) ->
  rtc (sstep coff mingw lld) (st, ts) s ->
  poisoned s.1 = true /\
  match s.2 !! i with
  | Some (PcEntry _ _) | Some (PcLoad _ _) => True
  | Some (PcDone code out') =>
      code = (if header_ok req out then LLVM_LD_E_POISONED else LLVM_LD_E_INVALID) /\ out' = out
  | _ => False
  end.
Proof.
  intros Hp Hi Hs.
  destruct (rtc_before_check _ _ _ req out _ _ i _ Hs Hp Hi (bc_entry _ _)) as (Hp' & p' & Hi' & Hb).
  split; [done|]. rewrite Hi'. by destruct Hb.
Qed.

Section Race.
  Context (coff mingw : Driver) (lld : list string -> DriverDef -> Main -> Prop).
  Context (r : llvm_ld_request) (o : llvm_ld_result) (args : list string).
  Context (driver : DriverDef) (result : Result).
  Context (Hheader : header_ok (Some r) (Some o) = true).
  Context (Hargs : decode_args r = Some args).
  Context (Hdriver : driver_of coff mingw (req_driver r) = Some driver).
  Context (Hlld : lld args driver (Returned result)).
  Context (Hunsafe : canRunAgain result = false).

(** C34: the poison check and the lock are two separate atomic operations, so
    the refusal is not complete: a second call that has passed the check while
    the first one is running enters LLD after the first one has reported unsafe
    state and returned. *)
Theorem poison_check_race :
  exists st o', poisoned st = true /\
    rtc (sstep coff mingw lld)
      ({| invoking := false; poisoned := false |},
       [PcEntry (Some r) (Some o); PcEntry (Some r) (Some o)])
      (st, [PcDone LLVM_LD_OK (Some o'); PcDriver o args driver]).
Proof.
  eexists _, _. split; cycle 1.
  - (* both calls pass the poison check *)
    eapply rtc_l; [eapply (sstep_thread _ _ _ _ _ 0); [done|by apply step_accept]|].
    eapply rtc_l; [eapply (sstep_thread _ _ _ _ _ 0); [done|by apply step_clean]|].
    eapply rtc_l; [eapply (sstep_thread _ _ _ _ _ 1); [done|by apply step_accept]|].
    eapply rtc_l; [eapply (sstep_thread _ _ _ _ _ 1); [done|by apply step_clean]|].
    (* the first one runs to its end *)
    eapply rtc_l; [eapply (sstep_thread _ _ _ _ _ 0); [done|by apply step_lock]|].
    eapply rtc_l; [eapply (sstep_thread _ _ _ _ _ 0); [done|by eapply step_enter]|].
    eapply rtc_l; [eapply (sstep_thread _ _ _ _ _ 0);
      [done|eapply step_return; [done|]; simpl; rewrite Hunsafe; done]|].
    eapply rtc_l; [eapply (sstep_thread _ _ _ _ _ 0); [done|by apply step_unlock]|].
    (* the second one takes the lock and enters LLD *)
    eapply rtc_l; [eapply (sstep_thread _ _ _ _ _ 1); [done|by apply step_lock]|].
    eapply rtc_l; [eapply (sstep_thread _ _ _ _ _ 1); [done|by eapply step_enter]|].
    apply rtc_refl.
  - done.
Qed.

End Race.

(** Every argument of an accepted request reaches the driver byte for
    byte: decoding yields one string per [argv] entry and none is cut short
    when it is passed on as a NUL-terminated string. *)
Theorem decoded_args_whole r args :
  request_bytes_ok r -> is_Some (req_argv r) -> is_Some (req_argv_lengths r) ->
  decode_args r = Some args ->
  length args = req_argc r /\ map c_string args = args.
Proof.
  intros Hr [argv Ha] [lengths Hl] Hd. unfold decode_args in Hd. rewrite Ha, Hl in Hd.
  apply mapM_Some in Hd. split.
  - apply Forall2_length in Hd. by rewrite length_seq in Hd.
  - induction Hd as [|i s is_ ss Hi _ IH]; [done|]. simpl.
    rewrite IH. f_equal. by eapply decode_arg_c_string.
Qed.

(** A request without arguments passes every check, and the dispatcher then
    reads [argv[0]] of an empty vector. *)
Lemma empty_argv_reaches_dispatcher coff mingw filename expand is_mingw destroyed r o :
  header_ok (Some r) (Some o) = true -> req_argc r = 0%nat ->
  req_driver r = LLVM_LD_DRIVER_WINLINK ->
  llvm_ld_invoke coff mingw filename expand is_mingw destroyed
    {| invoking := false; poisoned := false |} (Some r) (Some o) = None.
Proof.
  intros Hh Ha Hd. unfold llvm_ld_invoke. rewrite Hh. simpl.
  unfold invoke_body, decode_args. rewrite Ha, Hd. simpl.
  by destruct (req_argv r), (req_argv_lengths r).
Qed.

(** ** Witnesses *)

(** "lld-link" for the WinLink driver, with the lengths the test suite uses. *)
Definition sample_arg (j : nat) : Z :=
  nth j [0x6C; 0x6C; 0x64; 0x2D; 0x6C; 0x69; 0x6E; 0x6B] 0.
Definition sample_request : llvm_ld_request :=
  {| req_struct_size := 56; req_abi_version := 1; req_driver := 1; req_argc := 1;
     req_argv := Some (fun _ => Some sample_arg); req_argv_lengths := Some (fun _ => 8%nat) |}.
Definition sample_result : llvm_ld_result :=
  {| out_struct_size := 12; out_return_code := 0; out_can_run_again := 0 |}.
Definition sample_driver : Driver := fun _ => Finished true.
Definition sample_lld : list string -> DriverDef -> Main -> Prop :=
  fun _ _ m => m = Returned {| retCode := 17; canRunAgain := false |}.

(** Two calls reach the lock. The second one takes it and the first one is
    refused; no run leads to both past it. *)
Lemma invoke_mutual_exclusion_witness :
  let start := ({| invoking := false; poisoned := false |},
                [PcTas sample_request sample_result; PcTas sample_request sample_result]) in
  rtc (sstep sample_driver sample_driver sample_lld) start
    ({| invoking := true; poisoned := false |},
     [PcDone LLVM_LD_E_BUSY (Some sample_result); PcBody sample_request sample_result]) /\
  ~ rtc (sstep sample_driver sample_driver sample_lld) start
      ({| invoking := true; poisoned := false |},
       [PcBody sample_request sample_result; PcBody sample_request sample_result]).
Proof.
  cbn zeta. split.
  - eapply rtc_l; [eapply (sstep_thread _ _ _ _ _ 1); [reflexivity|by apply step_lock]|].
    eapply rtc_l; [eapply (sstep_thread _ _ _ _ _ 0); [reflexivity|by apply step_busy]|].
    apply rtc_refl.
  - intros Hs.
    pose proof (invoke_mutual_exclusion sample_driver sample_driver sample_lld false
      [PcTas sample_request sample_result; PcTas sample_request sample_result]
      {| invoking := true; poisoned := false |}
      [PcBody sample_request sample_result; PcBody sample_request sample_result] 0 1
      (PcBody sample_request sample_result) (PcBody sample_request sample_result)
      ltac:(repeat constructor) Hs eq_refl eq_refl eq_refl eq_refl) as H.
    discriminate H.
Defined.

(** A well-formed call in a poisoned process, up to its return. *)
Lemma poison_is_permanent_witness :
  let start := ({| invoking := false; poisoned := true |}, [PcEntry (Some sample_request) (Some sample_result)]) in
  let finish := ({| invoking := false; poisoned := true |}, [PcDone LLVM_LD_E_POISONED (Some sample_result)]) in
  rtc (sstep sample_driver sample_driver sample_lld) start finish /\
  poisoned finish.1 = true /\
  LLVM_LD_E_POISONED = (if header_ok (Some sample_request) (Some sample_result) then LLVM_LD_E_POISONED
                        else LLVM_LD_E_INVALID) /\
  LLVM_LD_E_POISONED <> LLVM_LD_E_INVALID.
Proof.
  cbn zeta.
  assert (Hs : rtc (sstep sample_driver sample_driver sample_lld)
    ({| invoking := false; poisoned := true |}, [PcEntry (Some sample_request) (Some sample_result)])
    ({| invoking := false; poisoned := true |}, [PcDone LLVM_LD_E_POISONED (Some sample_result)])).
  { eapply rtc_l; [eapply (sstep_thread _ _ _ _ _ 0); [reflexivity|by apply step_accept]|].
    eapply rtc_l; [eapply (sstep_thread _ _ _ _ _ 0); [reflexivity|by apply step_poisoned]|].
    apply rtc_refl. }
  split; [exact Hs|].
  destruct (poison_is_permanent sample_driver sample_driver sample_lld {| invoking := false; poisoned := true |}
    [PcEntry (Some sample_request) (Some sample_result)] _
    0 (Some sample_request) (Some sample_result) eq_refl eq_refl Hs) as (Hp & Hcode & _).
  split; [exact Hp|]. split; [exact Hcode|discriminate].
Defined.

Lemma poison_check_race_witness :
  exists st o', poisoned st = true /\
    rtc (sstep sample_driver sample_driver sample_lld)
      ({| invoking := false; poisoned := false |},
       [PcEntry (Some sample_request) (Some sample_result);
        PcEntry (Some sample_request) (Some sample_result)])
      (st, [PcDone LLVM_LD_OK (Some o');
            PcDriver sample_result ["lld-link"%string] {| f := WinLink; d := sample_driver |}]).
Proof.
  apply (poison_check_race sample_driver sample_driver sample_lld sample_request
    sample_result ["lld-link"%string] {| f := WinLink; d := sample_driver |}
    {| retCode := 17; canRunAgain := false |}); reflexivity.
Defined.

Lemma decoded_args_whole_witness :
  length ["lld-link"%string] = 1%nat /\ map c_string ["lld-link"%string] = ["lld-link"%string].
Proof.
  refine (decoded_args_whole sample_request ["lld-link"%string] _ _ _ eq_refl).
  - intros argv i p j Ha Hp. injection Ha as <-. injection Hp as <-.
    do 8 (destruct j as [|j]; [unfold byte_ok, sample_arg; simpl; lia|]).
    unfold byte_ok, sample_arg. rewrite nth_overflow by (simpl; lia). lia.
  - eexists; reflexivity.
  - eexists; reflexivity.
Defined.
